(* ===== verification/_CoqProject ===== *)
-Q . S2P
Prelude.v
GoFloat.v
GoStrings.v
GoTime.v
FloatExact.v
Guardian.v
ConcReqs.v
DateSeries.v
CoreUtils.v
Values.v
RSR.v
Filters.v
StatMetrics.v
StatQueue.v
Resources.v
ResourceService.v
Stateful.v
Thresholds.v
Collections.v
PathItemList.v
RateInterval.v
RatingPlan.v
TimeSpans.v
CallDescriptor.v
RatingProfile.v
CallCost.v
Rating.v
RatingLookup.v
Cutting.v
OnePlan.v
PricingExamples.v
Balances.v
Accounts.v
Debits.v
Ledger.v
AccountStore.v
Refunds.v
DebitExamples.v
TariffPlan.v
TariffActions.v
TariffTables.v
TariffProfiles.v
TariffRouting.v
TariffRoundtrips.v
Profiles.v
Attributes.v
AttributeEffects.v
Chargers.v
StatService.v
StatSaves.v
FilterIndexes.v
IndexLaws.v
IndexContract.v
EventCost.v
EventCostTrim.v
EventCostParts.v
EventCostExamples.v
Suppliers.v
SupplierSorting.v
NavigableMaps.v
OrderedMaps.v
NavigableOutput.v
UnitCounters.v
AccountActions.v
ActionLaws.v
ActionExamples.v
