(* ===== verification/Prelude.v ===== *)
(** * Verification of the CGRateS charging engine

    CGRateS is an online and offline charging system written in Go: it rates calls,
    keeps accounts and resources, computes statistics over events and answers the
    requests of telecom equipment.  This library models the parts of it that compute and
    proves what makes them correct.

    ** The parts and their files

    The language and its library, which map to nothing in the sources:
    - [Prelude] results of calls ([res]: a value, an error by its text, a panic), 64-bit
      integers with their wrap-around, and [GoRuntime], the choices the language leaves
      open (the order of [sort] among equals and of ranging over a map): every theorem
      holds for all of them, and [reference_runtime] is one to compute with;
    - [GoFloat], [FloatExact], [GoStrings], [GoTime] the [float64] of IEEE 754 with the
      range where integers are exact, strings and their functions, times and zones.

    Helpers, [src/utils] and [src/guardian]:
    - [CoreUtils] coreutils.go: rounding, keys, prefixes, calendar, counters;
    - [DateSeries] dateseries.go: series of years, months and days;
    - [Collections] set.go, slice.go, map.go: sets, slices, maps and flags;
    - [PathItemList] pathitemlist.go: the doubly linked ring, on a store with pointers;
    - [NavigableMaps] navigablemap.go, nmslice.go, nmdata.go, pathitem.go: maps, slices and
      data navigated by paths, [OrderedMaps] orderednavigablemap.go: with the order of the
      settings, [NavigableOutput] config/navigablemap.go: events and XML made of them;
    - [Values] reflect.go, mapstorage.go, cgrevent.go, dataprovider.go: values of any
      type, nested maps read by paths, events;
    - [RSR] rsrfield.go, researchreplace.go, dataconverter.go, config/rsrparser.go:
      templates that read a field, rewrite and convert it and filter the result;
    - [ConcReqs] concureqs.go: the bounded number of concurrent requests;
    - [Guardian] guardian.go: locks by name, as steps of any number of goroutines.

    Rating, [src/engine]; a file uses those before it:
    - [RateInterval] rateinterval.go: when an interval is active and what it costs;
    - [RatingPlan] ratingplan.go: the intervals of a plan;
    - [TimeSpans] timespans.go: spans of a call, their increments, splitting them;
    - [CallDescriptor] calldesc.go: the request, [RatingProfile] ratingprofile.go: the
      plans active during a call, [CallCost] callcost.go: the result;
    - [Rating] calldesc.go: loading the plans with their fallbacks, cutting the call into
      spans and the cost; the theorems about it are in [RatingLookup] (loading ends),
      [Cutting] (the spans partition the call), [OnePlan] (which plan rates them) and
      [PricingExamples] (concrete calls).

    Events, [src/engine]:
    - [Filters] filters.go, filterhelpers.go, config/objdp.go: rules on events and the
      items whose indexes match;
    - [StatMetrics] statmetrics.go: the ten metrics, [StatQueue] libstats.go: the queue
      that feeds them;
    - [Resources] resources.go: usages and allocation, [ResourceService] the handlers
      of the same file on the state they share;
    - [Thresholds] thresholds.go, datamanager.go: counting events and executing actions,
      as computations on a store with the cache, the database and the clock.

    Accounts, [src/engine], as computations on a store whose positions are the pointers to
    accounts and balances ([Stateful] is the monad, also that of [Thresholds], with the rules
    for what a computation that returns does):
    - [Balances] balances.go, balance_filter.go: one balance and its filters;
    - [Accounts] account.go, sharedgroup.go, datamanager.go: which balances serve a call,
      shared groups, loading and saving;
    - [Debits] balances.go, account.go, calldesc.go: paying a call, refunds, the longest
      session; a function of the loops over spans or increments takes the step that pays
      one of them as an argument, which is where units and money differ;
    - the theorems are in [Ledger] (what debits do to balances), [AccountStore] (loading
      and saving), [Refunds] and [DebitExamples] (concrete accounts, and the inputs the
      general theorems are applied at).

    Actions, [src/engine], on the account in memory (balances, counters and filters at
    positions, slices as windows on arrays) and the world behind it (the database, the
    actions and groups, which are shared):
    - [UnitCounters] units_counter.go, account.go, balance_filter.go: counters and their
      filters; [AccountActions] action.go, action_trigger.go, action_plan.go, task.go,
      account.go: the actions, the triggers that start them, timings and tasks;
    - the theorems are in [ActionLaws], small accounts in [ActionExamples].

    Costs of events, [src/engine], on a store whose positions are the pointers to event
    costs, intervals and increments:
    - [EventCost] eventcost.go, libeventcost.go: what an event was charged, made from the
      cost of a call and turned back into one, refunded, merged and cut;
    - the theorems are in [EventCostTrim] (reading the store through what intervals
      charge, the caches, cutting an interval), [EventCostParts] (references, cutting as a
      whole) and [EventCostExamples].

    Services that match events with profiles, [src/engine], over [Profiles] (the profiles of
    the items found that are in force and pass, and the heaviest of them):
    - [Attributes] attributes.go, libattributes.go: altering an event, on a store with the
      arguments, the event and the provider whose nested map it is; its theorems are in
      [AttributeEffects];
    - [Chargers] chargers.go: forking an event, over any service of attributes;
    - [Suppliers] suppliers.go, libsuppliers.go, spls_*.go: the cost of an event with
      accounts or rating plans, statistics and resources of the suppliers, and the seven
      strategies; its theorems are in [SupplierSorting];
    - [FilterIndexes] filterindexer.go, datamanager.go, storage_internal_datadb.go,
      storage_redis.go: the indexes by which the profiles are found, the setters of the
      profiles that keep them, and two drivers of the class [IndexDriver]; the theorems are
      in [IndexLaws] (for any driver) and [IndexContract] (drivers compared, concrete ones);
    - [StatService] stats.go: the queues of an event, their processing and saving, on a
      store with the cache and the database; its theorems are in [StatSaves].

    Tariff plans, [src/engine/model_helpers.go] with models.go and utils/apitpdata.go: rows
    of the tables, the objects of the API, and the profiles of the engine, with every
    conversion between them:
    - [TariffPlan] destinations, timings, rates, rating plans and profiles, and the loops
      all tables share; [TariffActions] shared groups, actions, plans, triggers, accounts;
    - [TariffTables] the class [TariffTable] of tables with one row per item, its instances
      and the theorems about them;
    - [TariffProfiles] resources, statistics, thresholds and filters, [TariffRouting]
      suppliers, attributes, chargers and dispatchers, whose rows gather lists;
      [TariffRoundtrips] the theorems about them.

    Definitions keep the names of the code, with a prefix of their type where a name is
    used twice ([Increments_Compress] is the method [Compress] of [Increments]).  A
    method that changes its receiver returns the new one; where the code shares an object
    (the nodes of the ring, the locks, cached resources and thresholds) the model has a
    store.  A
    loop of the code is a definition of its own named after what it does.

    ** What the theorems show

    - Rating: cutting a call with any rating plans gives spans that follow each other
      from its start to its end ([Cutting]), every split of a span partitions it
      ([TimeSpans]), the search for rating plans with fallbacks ends ([RatingLookup]),
      the rate and the activity of an interval are what the tariff says
      ([RateInterval], [RatingPlan]); the cases where a later plan, a fallback or a
      maximal cost is handled wrongly ([OnePlan], [PricingExamples]).
    - Concurrency: guarded calls with a common name exclude each other, no wake-up is
      lost, and which orders of names deadlock ([Guardian]); the limit of concurrent
      requests holds ([ConcReqs]).
    - Filters: when an event passes, that negated rules are complements, which errors are
      lost.
    - Statistics: the values of the metrics are those of the events kept, no metric keeps
      an event the queue has not, and the length of the queue is bounded.
    - Resources: recording is all or nothing, the limit is respected on one resource, the
      index of expiring usages is right; where a panic, a lost update or a remembered
      error breaks them.
    - Thresholds: which thresholds an event reaches and in which order, every call keeps
      the cache in order; where a removed threshold, a steady stream of events or a query
      defeats them.
    - Accounts: the loops over the balances refine a ledger, in which an increment is paid
      from a balance that has as much; on whole amounts a debit with money conserves them
      exactly and a refund gives them back; the connect fee; an account that was only
      read is written back as it was; where priced units, shared groups, generic balances
      and rounding lose or take money ([DebitExamples]).
    - Actions: executing a timing writes no other account, a failure stores nothing unless
      a trigger does, a debit changes all balances that match, and triggers do not start
      each other, which is why one level of them is enough; where a trigger runs twice,
      never or stores what failed.
    - Services: an event changes only where its attributes say, the runs over several
      profiles end with distinct profiles, an event is forked once for every matching
      charger, the order of suppliers is that of their strategy, and no update of a
      statistic is forgotten by a backup; where a profile is applied twice, a strategy
      panics and a backup in between loses an event.
    - Indexes: an event that passes the filters of a profile finds it, whatever other
      profiles are set and removed in between, and drivers agree; where a context that is
      left, a longer prefix or a rule of an odd type hides or keeps a profile.
    - Costs of events: cutting divides the units charged, in their order, at the usage
      asked for; where shared increments, roundings, missing summaries and empty event
      costs break cutting, merging and the way back to the cost of a call.
    - Tariff plans: what is written as rows is read back as it was, whatever order a map
      is listed in; which parts of actions, attributes and thresholds are lost, and which
      identifiers their own setters refuse.
    - Data: round trips of compression, of series and of nested maps, the linked list
      refines a sequence, a navigable map gives back at a path what was set there, the
      ordered one keeps every path once and in order, and how templates are cut into rules.

    ** Bounds and fuel

    Integers wrap at 64 bits; theorems that need a sum in range say so.  Floats are exact
    for integers below 2^53, which is the range the theorems on units and durations ask
    for.  Loops whose end depends on data have fuel: cutting a call takes at most one
    unit for every second of the call and two more ([Cutting]), loading the plans a number
    of units that exists for any data ([RatingLookup]), cutting a template its length
    ([RSR]), storing resources or thresholds one
    unit per object waiting.  The loops that debit as long as a balance pays something
    have fuel too; that they end is not proved.

    ** What is not modelled

    Databases, caches with their limits and expiry, network clients, servers and agents,
    logging, configuration and JSON: what the models need of them is a parameter, a class
    of functions ([RatingData], [FilterData], [ResourceData], [ThresholdData],
    [AccountData], [ActionData], [SupplierData], [AttributeData], [ChargerData], [StatData],
    [GoText], [GoRegexp], [GoHash], [GoErrors], [RedisServer], [ProfileErrors]) that may
    return any value or error; [GoSlices] is sorting with a comparison that panics.  Parsing
    of floats, durations and times, regular expressions and reflection over structures are
    parameters as well.  Goroutines are modelled in the locks and the concurrent requests;
    elsewhere a handler runs alone.  The debits record what is counted; the counters and the
    triggers are in [UnitCounters] and [AccountActions], which have an account state of their
    own.  When a timing is due is the matter of a third-party package for cron expressions.
    Of dispatchers only the profiles and their conversions are there: the rest forwards
    remote calls.  Sessions are goroutines and timers around remote calls to the
    services modelled here, and are left out, as are charging records. *)
From stdpp Require Export base tactics list gmap sets strings sorting.
From Stdlib Require Export ZArith Lia ZifyBool ZifyN ZifyNat.

#[global] Open Scope Z_scope.

Declare Scope go_scope.
Delimit Scope go_scope with go.

(** ** Results of Go calls

    A Go call returns a value, returns an error, or panics (nil dereference,
    index out of range, division by zero).  Errors are kept as their message,
    which is what the callers compare. *)
Inductive res (A : Type) : Type :=
  | Ok (a : A)
  | Err (e : string)
  | Panic.
Arguments Ok {_} _.
Arguments Err {_} _.
Arguments Panic {_}.

#[export] Instance res_ret : MRet res := @Ok.
#[export] Instance res_bind : MBind res := λ A B f m,
  match m with Ok a => f a | Err e => Err e | Panic => Panic end.
#[export] Instance res_fmap : FMap res := λ A B f m,
  match m with Ok a => Ok (f a) | Err e => Err e | Panic => Panic end.

(** Dereferencing a pointer: nil panics. *)
Definition deref {A} (p : option A) : res A :=
  match p with Some a => Ok a | None => Panic end.

(** Indexing a slice: out of range panics. *)
Definition index {A} (l : list A) (i : Z) : res A :=
  if decide (0 ≤ i) then deref (l !! Z.to_nat i) else Panic.

Definition is_ok {A} (m : res A) : bool :=
  match m with Ok _ => true | _ => false end.

Lemma bind_ok_inv {A B} (m : res A) (f : A → res B) b :
  m ≫= f = Ok b → ∃ a, m = Ok a ∧ f a = Ok b.
Proof. destruct m; simpl; try discriminate. eauto. Qed.

(** Two computations that start alike need only agree on what the start gives. *)
Lemma bind_ext_ok {A B} (m : res A) (f g : A → res B) :
  (∀ a, m = Ok a → f a = g a) → m ≫= f = m ≫= g.
Proof. destruct m; simpl; auto. Qed.

Lemma fmap_ok_inv {A B} (m : res A) (f : A → B) b :
  f <$> m = Ok b → ∃ a, m = Ok a ∧ b = f a.
Proof. destruct m; simpl; try discriminate. intros [= <-]. eauto. Qed.

(** Inverts a chain of binds that produced a value. *)
Ltac inv_bind :=
  repeat match goal with
  | H : mbind _ _ = Ok _ |- _ =>
      let a := fresh "a" in let E := fresh "E" in
      apply bind_ok_inv in H as (a & E & H); simpl in H
  | H : fmap _ _ = Ok _ |- _ =>
      let a := fresh "a" in let E := fresh "E" in
      apply fmap_ok_inv in H as (a & E & H)
  | H : Ok _ = Ok _ |- _ => injection H as H; try subst
  | H : mret _ = Ok _ |- _ => injection H as H; try subst
  | H : Err _ = Ok _ |- _ => discriminate H
  | H : Panic = Ok _ |- _ => discriminate H
  end.

(** A loop that stops at the first error or panic. *)
Lemma foldl_bind_Err {A B} (f : B → A → res B) e l :
  foldl (λ acc x, b ← acc; f b x) (Err e) l = Err e.
Proof. by induction l. Qed.
Lemma foldl_bind_Panic {A B} (f : B → A → res B) l :
  foldl (λ acc x, b ← acc; f b x) Panic l = Panic.
Proof. by induction l. Qed.

(** A map over a slice with a function that may fail or panic, left to right. *)
Fixpoint res_map {A B} (f : A → res B) (l : list A) : res (list B) :=
  match l with
  | [] => Ok []
  | x :: l' => y ← f x; ys ← res_map f l'; Ok (y :: ys)
  end.

Lemma res_map_Forall2 {A B} (f : A → res B) l l' :
  res_map f l = Ok l' → Forall2 (λ a b, f a = Ok b) l l'.
Proof.
  revert l'. induction l as [|x l IH]; intros l'; simpl; [by intros [= <-]|].
  destruct (f x) eqn:E; [|done..]. simpl. destruct (res_map f l); [|done..].
  intros [= <-]. constructor; auto.
Qed.

Lemma res_map_elem {A B} (f : A → res B) l l' :
  res_map f l = Ok l' →
  (∀ x, x ∈ l → ∃ y, y ∈ l' ∧ f x = Ok y) ∧ (∀ y, y ∈ l' → ∃ x, x ∈ l ∧ f x = Ok y).
Proof.
  intros Hm. apply res_map_Forall2 in Hm.
  induction Hm as [|x y l1 l2 Hf _ [IHl IHr]].
  { split; intros x Hx; by apply elem_of_nil in Hx. }
  split; intros z [->|Hz]%elem_of_cons.
  - exists y. split; [by left|done].
  - destruct (IHl _ Hz) as (w & Hw & ?). exists w. split; [by right|done].
  - exists x. split; [by left|done].
  - destruct (IHr _ Hz) as (w & Hw & ?). exists w. split; [by right|done].
Qed.

(** Existence test over a slice that stops at the first hit, as a Go loop with
    [return true] does; elements after the hit are not evaluated. *)
Fixpoint res_existsb {A} (f : A → res bool) (l : list A) : res bool :=
  match l with
  | [] => Ok false
  | x :: l' => b ← f x; if (b : bool) then Ok true else res_existsb f l'
  end.

(** ** Machine integers

    Go's [int] and [int64] (and [time.Duration]) are 64-bit two's complement. *)
Definition min_int64 : Z := - 2 ^ 63.
Definition max_int64 : Z := 2 ^ 63 - 1.
Definition wrap64 (z : Z) : Z := (z + 2 ^ 63) mod 2 ^ 64 - 2 ^ 63.
Definition int64_range (z : Z) : Prop := min_int64 ≤ z ≤ max_int64.

Definition add64 (a b : Z) : Z := wrap64 (a + b).
Definition sub64 (a b : Z) : Z := wrap64 (a - b).
Definition mul64 (a b : Z) : Z := wrap64 (a * b).
(** Truncated division; the divisor zero panics. *)
Definition quot64 (a b : Z) : res Z :=
  if decide (b = 0) then Panic else Ok (wrap64 (Z.quot a b)).

#[export] Instance int64_range_dec z : Decision (int64_range z) := _.

Lemma wrap64_id z : int64_range z → wrap64 z = z.
Proof.
  unfold int64_range, wrap64, min_int64, max_int64. intros H.
  rewrite Z.mod_small; lia.
Qed.

Lemma wrap64_range z : int64_range (wrap64 z).
Proof.
  unfold int64_range, wrap64, min_int64, max_int64.
  pose proof (Z.mod_pos_bound (z + 2 ^ 63) (2 ^ 64) ltac:(lia)). lia.
Qed.

(** Wrapping an operand first makes no difference. *)
Lemma wrap64_plus a b : wrap64 (wrap64 a + b) = wrap64 (a + b).
Proof.
  unfold wrap64. f_equal.
  replace ((a + 2 ^ 63) mod 2 ^ 64 - 2 ^ 63 + b + 2 ^ 63)
    with ((a + 2 ^ 63) mod 2 ^ 64 + b) by lia.
  rewrite Zplus_mod_idemp_l. f_equal. lia.
Qed.
Lemma add64_wrap a b : add64 (wrap64 a) b = wrap64 (a + b).
Proof. apply wrap64_plus. Qed.
Lemma sub64_wrap a b : sub64 (wrap64 a) b = wrap64 (a - b).
Proof. apply (wrap64_plus a (- b)). Qed.

Lemma add64_id a b : int64_range (a + b) → add64 a b = a + b.
Proof. apply wrap64_id. Qed.
Lemma sub64_id a b : int64_range (a - b) → sub64 a b = a - b.
Proof. apply wrap64_id. Qed.
Lemma mul64_id a b : int64_range (a * b) → mul64 a b = a * b.
Proof. apply wrap64_id. Qed.

(** ** The Go runtime's unspecified choices

    [sort.Sort] and [sort.Slice] are not stable and ranging over a map visits
    the keys in an order the language leaves open.  The development is proved
    against this interface, so every theorem holds for whatever order the
    runtime picks; [reference_runtime] is an executable instance the witnesses
    compute with. *)

(** A comparison that orders the elements of a list up to ties. *)
Definition strict_weak_on {A} (less : A → A → bool) (l : list A) : Prop :=
  (∀ a b, a ∈ l → b ∈ l → less a b = true → less b a = false) ∧
  (∀ a b c, a ∈ l → b ∈ l → c ∈ l →
     less b a = false → less c b = false → less c a = false).

(** A comparison that does so on every list. *)
Class StrictWeak {A} (less : A → A → bool) : Prop := {
  sw_asym a b : less a b = true → less b a = false;
  sw_negtrans a b c : less b a = false → less c b = false → less c a = false
}.

Lemma strict_weak_all {A} (less : A → A → bool) `{!StrictWeak less} l :
  strict_weak_on less l.
Proof.
  split; [intros a b _ _; apply sw_asym|].
  intros a b c _ _ _. apply sw_negtrans.
Qed.

Lemma strict_weak_on_incl {A} (less : A → A → bool) l l' :
  (∀ x, x ∈ l' → x ∈ l) → strict_weak_on less l → strict_weak_on less l'.
Proof. intros Hin [Ha Hn]. split; [intros a b|intros a b c]; eauto 8. Qed.

(** Two comparisons in turn: the second decides between those the first has beside each
    other. *)
Definition lex_less {A} (less less' : A → A → bool) (a b : A) : bool :=
  if negb (less a b) && negb (less b a) then less' a b else less a b.
Lemma strict_weak_on_lex {A} (less less' : A → A → bool) l :
  strict_weak_on less l → strict_weak_on less' l → strict_weak_on (lex_less less less') l.
Proof.
  intros [Ha Hn] [Ha' Hn']. unfold lex_less. split.
  - intros a b Hina Hinb. specialize (Ha a b Hina Hinb). specialize (Ha' a b Hina Hinb).
    destruct (less a b), (less b a); simpl; auto.
  - intros a b c Hina Hinb Hinc Hba Hcb.
    assert (∀ x y, x ∈ l → y ∈ l →
      (if negb (less x y) && negb (less y x) then less' x y else less x y) = false →
      less x y = false ∧ (less y x = false → less' x y = false)) as Hfalse.
    { intros x y Hx Hy. specialize (Ha x y Hx Hy).
      destruct (less x y), (less y x); simpl; try done. }
    apply Hfalse in Hba as [Hba Hba']; [|done..]. apply Hfalse in Hcb as [Hcb Hcb']; [|done..].
    pose proof (Hn a b c Hina Hinb Hinc Hba Hcb) as Hca. rewrite Hca. simpl.
    destruct (less a c) eqn:Hac; simpl; [done|].
    apply (Hn' a b c); [done..| |]; [apply Hba'|apply Hcb'].
    + by apply (Hn b c a).
    + by apply (Hn c a b).
Qed.

(** No element of the list is preceded by one that the comparison puts after. *)
Definition sorted_by {A} (less : A → A → bool) : list A → Prop :=
  StronglySorted (λ a b, less b a = false).

Class GoRuntime := {
  go_sort {A : Type} : (A → A → bool) → list A → list A;
  go_sort_perm {A} (less : A → A → bool) l : go_sort less l ≡ₚ l;
  go_sort_sorted {A} (less : A → A → bool) l :
    strict_weak_on less l → sorted_by less (go_sort less l);
  go_range {A : Type} : gmap string A → list (string * A);
  go_range_perm {A} (m : gmap string A) : go_range m ≡ₚ map_to_list m
}.

(** Insertion sort, the reference for [go_sort]. *)
Section insertion_sort.
Context {A : Type} (less : A → A → bool).

Fixpoint insert_by (x : A) (l : list A) : list A :=
  match l with
  | [] => [x]
  | y :: l' => if less y x then y :: insert_by x l' else x :: l
  end.

Definition isort_by (l : list A) : list A := foldr insert_by [] l.

Lemma insert_by_perm x l : insert_by x l ≡ₚ x :: l.
Proof.
  induction l as [|y l IH]; simpl; [done|].
  destruct (less y x); [|done]. rewrite IH. apply Permutation_swap.
Qed.

Lemma isort_by_perm l : isort_by l ≡ₚ l.
Proof.
  induction l as [|x l IH]; simpl; [done|]. by rewrite insert_by_perm, IH.
Qed.

Lemma insert_by_sorted x l :
  strict_weak_on less (x :: l) →
  sorted_by less l → sorted_by less (insert_by x l).
Proof.
  unfold sorted_by. induction l as [|y l IH]; simpl; intros Hw Hs.
  - repeat constructor.
  - apply StronglySorted_inv in Hs as [Hs Hy]. destruct (less y x) eqn:E.
    + constructor.
      * apply IH; [|done]. eapply strict_weak_on_incl; [|exact Hw]. set_solver.
      * rewrite insert_by_perm. constructor; [|done].
        apply (proj1 Hw); [set_solver..|done].
    + constructor; [by constructor|]. constructor; [done|].
      apply Forall_forall. intros z Hz. rewrite Forall_forall in Hy.
      apply (proj2 Hw x y z); [set_solver..|done|by apply Hy].
Qed.

Lemma isort_by_sorted l :
  strict_weak_on less l → sorted_by less (isort_by l).
Proof.
  induction l as [|x l IH]; simpl; intros Hw; [constructor|].
  apply insert_by_sorted.
  - eapply strict_weak_on_incl; [|exact Hw]. intros y.
    rewrite !elem_of_cons, isort_by_perm. tauto.
  - apply IH. eapply strict_weak_on_incl; [|exact Hw]. set_solver.
Qed.
End insertion_sort.

Definition reference_runtime : GoRuntime := {|
  go_sort := @isort_by;
  go_sort_perm := @isort_by_perm;
  go_sort_sorted := @isort_by_sorted;
  go_range A m := map_to_list m;
  go_range_perm A m := Permutation_refl _
|}.

(** Comparisons by an integer key. *)
#[export] Instance strict_weak_key {A} (key : A → Z) :
  StrictWeak (λ a b, key a <? key b).
Proof. split; intros *; lia. Qed.

#[export] Instance strict_weak_ltb : StrictWeak Z.ltb.
Proof. split; intros *; lia. Qed.

(** Comparisons that put larger elements first. *)
#[export] Instance strict_weak_flip {A} (less : A → A → bool) :
  StrictWeak less → StrictWeak (λ a b, less b a).
Proof.
  intros [Ha Hn]. split.
  - intros a b. apply Ha.
  - intros a b c Hab Hbc. by apply (Hn c b a).
Qed.

Section go_runtime.
Context `{GoRuntime}.

Lemma go_sort_length {A} (less : A → A → bool) l :
  length (go_sort less l) = length l.
Proof. by rewrite go_sort_perm. Qed.

Lemma go_sort_elem {A} (less : A → A → bool) l x :
  x ∈ go_sort less l ↔ x ∈ l.
Proof. by rewrite go_sort_perm. Qed.

Lemma go_sort_all {A} (less : A → A → bool) `{!StrictWeak less} l :
  sorted_by less (go_sort less l).
Proof. apply go_sort_sorted, strict_weak_all, _. Qed.

Lemma go_range_elem {A} (m : gmap string A) k v :
  (k, v) ∈ go_range m ↔ m !! k = Some v.
Proof. rewrite go_range_perm. apply elem_of_map_to_list. Qed.

Lemma go_range_length {A} (m : gmap string A) :
  length (go_range m) = size m.
Proof. by rewrite go_range_perm, length_map_to_list. Qed.

Lemma go_range_keys_NoDup {A} (m : gmap string A) : NoDup (go_range m).*1.
Proof. rewrite go_range_perm. apply NoDup_fst_map_to_list. Qed.

Lemma go_range_empty {A} : go_range (∅ : gmap string A) = [].
Proof.
  apply Permutation_nil_r. by rewrite go_range_perm, map_to_list_empty.
Qed.
Lemma go_range_singleton {A} k (x : A) : go_range {[k := x]} = [(k, x)].
Proof. apply Permutation_singleton_r. rewrite go_range_perm. by rewrite map_to_list_singleton. Qed.
End go_runtime.

(** A list sorted by a key is what is at or below a bound followed by what is above. *)
Lemma filter_none {A} (P : A → Prop) `{∀ x, Decision (P x)} (l : list A) :
  Forall (λ x, ¬ P x) l → filter P l = [].
Proof.
  induction 1 as [|x l Hx Hl IH]; [done|]. by rewrite filter_cons_False.
Qed.

Lemma filter_all {A} (P : A → Prop) `{∀ x, Decision (P x)} (l : list A) :
  Forall P l → filter P l = l.
Proof.
  induction 1 as [|x l Hx Hl IH]; [done|]. rewrite filter_cons_True by done. by rewrite IH.
Qed.

Lemma sorted_filter_split {A} (key : A → Z) (k : Z) (l : list A) :
  StronglySorted (λ a b, key a ≤ key b) l →
  l = filter (λ x, key x ≤ k) l ++ filter (λ x, k < key x) l.
Proof.
  induction 1 as [|x l Hs IH Hx]; [done|].
  destruct (Z.le_gt_cases (key x) k) as [Hle|Hgt].
  - rewrite filter_cons_True by done. rewrite filter_cons_False by lia. simpl. by rewrite <- IH.
  - rewrite filter_cons_False by lia. rewrite filter_cons_True by lia.
    rewrite filter_none, filter_all; [done|..];
      (eapply Forall_impl; [exact Hx|]); simpl; intros; lia.
Qed.

Lemma StronglySorted_impl {A} (R S : A → A → Prop) l :
  (∀ x y, R x y → S x y) → StronglySorted R l → StronglySorted S l.
Proof.
  intros Hi. induction 1 as [|x l Hs IH Hx]; constructor; [done|].
  eapply Forall_impl; [exact Hx|auto].
Qed.

Lemma StronglySorted_filter {A} (R : A → A → Prop) (P : A → Prop) `{∀ x, Decision (P x)} l :
  StronglySorted R l → StronglySorted R (filter P l).
Proof.
  induction 1 as [|x l Hs IH Hx]; [constructor|].
  destruct (decide (P x)); [rewrite filter_cons_True by done|by rewrite filter_cons_False].
  constructor; [done|]. apply Forall_forall. intros y [_ Hy]%list_elem_of_filter.
  rewrite Forall_forall in Hx. by apply Hx.
Qed.

(** ** Counting the elements of a list that satisfy a test *)
Definition count {A} (f : A → bool) (l : list A) : nat :=
  foldr (λ x n, (Nat.b2n (f x) + n)%nat) 0%nat l.

Lemma count_app {A} (f : A → bool) l1 l2 : count f (l1 ++ l2) = (count f l1 + count f l2)%nat.
Proof. induction l1 as [|x l1 IH]; simpl; [done|]. rewrite IH. lia. Qed.

Lemma count_insert {A} (f : A → bool) l i a b : l !! i = Some a →
  (count f (<[i := b]> l) + Nat.b2n (f a) = count f l + Nat.b2n (f b))%nat.
Proof.
  revert i. induction l as [|x l IH]; intros [|i]; simpl; try done.
  - intros [= ->]. lia.
  - intros Hi. specialize (IH i Hi). lia.
Qed.

#[export] Instance count_perm {A} (f : A → bool) : Proper ((≡ₚ) ==> (=)) (count f).
Proof. intros l1 l2 Hp. induction Hp; simpl; lia. Qed.

Lemma count_lookup {A} (f : A → bool) l i a :
  l !! i = Some a → f a = true → (0 < count f l)%nat.
Proof.
  revert i. induction l as [|x l IH]; intros [|i]; simpl; try done.
  - intros [= ->] ->. simpl. lia.
  - intros Hi Hf. specialize (IH i Hi Hf). lia.
Qed.

Lemma count_pos {A} (f : A → bool) l :
  (0 < count f l)%nat → ∃ i a, l !! i = Some a ∧ f a = true.
Proof.
  induction l as [|x l IH]; simpl; [lia|]. destruct (f x) eqn:E.
  - intros _. by exists 0%nat, x.
  - intros (i & a & Hi & Ha)%IH. by exists (S i), a.
Qed.

(** ** The sum of the values of a map *)
Definition total {A} (f : A → Z) (m : gmap string A) : Z := map_fold (λ _ x s, f x + s) 0 m.

Lemma total_insert {A} (f : A → Z) m k x :
  m !! k = None → total f (<[k := x]> m) = f x + total f m.
Proof. intros Hk. apply (map_fold_insert_L (λ _ x s, f x + s)); [intros; lia|done]. Qed.
Lemma total_delete {A} (f : A → Z) m k x :
  m !! k = Some x → total f m = f x + total f (delete k m).
Proof. intros Hk. apply (map_fold_delete_L (λ _ x s, f x + s)); [intros; lia|done]. Qed.

Lemma total_nonneg {A} (f : A → Z) m :
  (∀ k x, m !! k = Some x → 0 ≤ f x) → 0 ≤ total f m.
Proof.
  unfold total. induction m as [|k x m Hk Hm IH] using map_first_key_ind; [done|].
  intros Hp. rewrite map_fold_insert_first_key by done.
  assert (0 ≤ f x) by (apply (Hp k), lookup_insert_eq).
  enough (0 ≤ map_fold (λ _ x s, f x + s) 0 m) by lia. apply IH. intros k' x' E.
  apply (Hp k'). rewrite lookup_insert_ne; [done|]. intros ->. congruence.
Qed.

Lemma total_range `{GoRuntime} {A} (f : A → Z) m :
  foldr (λ kv s, f kv.2 + s) 0 (go_range m) = total f m.
Proof.
  unfold total. rewrite map_fold_foldr.
  transitivity (foldr (λ (kv : string * A) s, f kv.2 + s) 0 (map_to_list m)).
  - apply (foldr_permutation_proper (=) (λ (kv : string * A) s, f kv.2 + s));
      [solve_proper|intros; lia|apply go_range_perm].
  - by induction (map_to_list m) as [|[k x] l IH]; simpl; [|rewrite IH].
Qed.

Definition sumZ (m : gmap string Z) : Z := total (λ z, z) m.
Lemma sumZ_insert m k z : m !! k = None → sumZ (<[k := z]> m) = z + sumZ m.
Proof. apply total_insert. Qed.
Lemma sumZ_delete m k z : m !! k = Some z → sumZ m = z + sumZ (delete k m).
Proof. apply total_delete. Qed.

(** A sorted list is fixed by the multiset of its elements when the comparison
    has no ties: the result of [sort.Sort] is then determined. *)
Lemma sorted_by_unique {A} (less : A → A → bool) (l1 l2 : list A) :
  (∀ a b, a ∈ l1 → b ∈ l1 → less a b = false → less b a = false → a = b) →
  sorted_by less l1 → sorted_by less l2 → l1 ≡ₚ l2 → l1 = l2.
Proof.
  revert l2. induction l1 as [|x l1 IH]; intros l2 Htot Hs1 Hs2 Hp.
  { by apply Permutation_nil_l in Hp. }
  destruct l2 as [|y l2]; [by apply Permutation_nil_r in Hp|].
  apply StronglySorted_inv in Hs1 as [Hs1 Hx].
  apply StronglySorted_inv in Hs2 as [Hs2 Hy].
  rewrite Forall_forall in Hx, Hy.
  assert (x = y) as ->.
  { assert (x ∈ y :: l2) as Hin by (rewrite <- Hp; left).
    assert (y ∈ x :: l1) as Hin' by (rewrite Hp; left).
    apply elem_of_cons in Hin as [?|Hin]; [done|].
    apply elem_of_cons in Hin' as [?|Hin']; [done|].
    apply Htot; [left|by right|by apply Hy|by apply Hx]. }
  f_equal. apply IH; [|done..|by apply Permutation_cons_inv in Hp].
  intros a b Ha Hb. apply Htot; by right.
Qed.

Create HintDb go.
#[export] Hint Resolve go_sort_perm go_range_perm wrap64_range : go.
Create Rewrite HintDb go_len.
#[export] Hint Rewrite @go_sort_length @go_range_length @length_app
  @length_fmap @length_take @length_drop @length_replicate : go_len.
