(* ===== verification/GoFloat.v ===== *)
(** * Go's [float64]

    IEEE 754 binary64 numbers, computed with the Standard Library's executable
    specification [SpecFloat] (no axioms, no primitive floats), and the
    functions of Go's package [math] that the modelled code calls: [Modf],
    [Floor], [Ceil], [Mod], [Pow] with an integral exponent and [Pow10].  These
    belong to the language's standard library, so nothing of [src/] maps here. *)
From S2P Require Import Prelude.
From Stdlib Require Export SpecFloat.

Abbreviation float64 := spec_float.

Definition prec64 : Z := 53.
Definition emax64 : Z := 1024.

Definition fadd : float64 → float64 → float64 := SFadd prec64 emax64.
Definition fsub : float64 → float64 → float64 := SFsub prec64 emax64.
Definition fmul : float64 → float64 → float64 := SFmul prec64 emax64.
Definition fdiv : float64 → float64 → float64 := SFdiv prec64 emax64.
Definition fneg : float64 → float64 := SFopp.
Definition fabs : float64 → float64 := SFabs.

Definition feqb : float64 → float64 → bool := SFeqb.
Definition fltb : float64 → float64 → bool := SFltb.
Definition fleb : float64 → float64 → bool := SFleb.
Definition fgtb (x y : float64) : bool := fltb y x.
Definition fgeb (x y : float64) : bool := fleb y x.

(** Conversion from an integer, and the nearest float of a decimal constant
    [num / den]. *)
Definition f_of_Z (z : Z) : float64 := binary_normalize prec64 emax64 z 0 false.
Definition f_of_ratio (num den : positive) : float64 :=
  fdiv (S754_finite false num 0) (S754_finite false den 0).

Definition f0 : float64 := S754_zero false.
Definition f1 : float64 := f_of_Z 1.
Definition f_half : float64 := f_of_ratio 1 2.

Definition is_nan (x : float64) : bool :=
  match x with S754_nan => true | _ => false end.
Definition is_inf (x : float64) : bool :=
  match x with S754_infinity _ => true | _ => false end.

(** [math.Modf]: integral and fractional parts, both with the sign of [x]. *)
Definition trunc_finite (s : bool) (m : positive) (e : Z) : float64 :=
  if 0 <=? e then S754_finite s m e
  else match Z.shiftr (Zpos m) (- e) with
       | Zpos q => binary_round prec64 emax64 s q 0
       | _ => S754_zero s
       end.

Definition Modf (x : float64) : float64 * float64 :=
  match x with
  | S754_zero s => (S754_zero s, S754_zero s)
  | S754_nan => (S754_nan, S754_nan)
  | S754_infinity s => (S754_infinity s, S754_nan)
  | S754_finite s m e =>
      let i := trunc_finite s m e in
      (i, match i with
          | S754_zero _ => x
          | _ => let d := fsub x i in
                 match d with S754_zero _ => S754_zero s | _ => d end
          end)
  end.

Definition Floor (x : float64) : float64 :=
  match x with
  | S754_finite true m e =>
      let '(d, fract) := Modf (S754_finite false m e) in
      fneg (if feqb fract f0 then d else fadd d f1)
  | S754_finite false _ _ => fst (Modf x)
  | _ => x
  end.

Definition Ceil (x : float64) : float64 := fneg (Floor (fneg x)).

(** [math.Mod]: exact remainder with the sign of [x]. *)
Definition Mod (x y : float64) : float64 :=
  match x, y with
  | S754_nan, _ | _, S754_nan => S754_nan
  | S754_infinity _, _ => S754_nan
  | _, S754_zero _ => S754_nan
  | _, S754_infinity _ => x
  | S754_zero _, _ => x
  | S754_finite s mx ex, S754_finite _ my ey =>
      let e := Z.min ex ey in
      let r := Z.modulo (Z.shiftl (Zpos mx) (ex - e)) (Z.shiftl (Zpos my) (ey - e)) in
      match r with
      | Zpos q => binary_round prec64 emax64 s q e
      | _ => S754_zero s
      end
  end.

(** [float64] to [int64]: truncation; out of range (and NaN) gives the smallest
    integer, as the amd64 instruction does. *)
Definition f_trunc_Z (x : float64) : Z :=
  match x with
  | S754_finite s m e =>
      let a := if 0 <=? e then Z.shiftl (Zpos m) e else Z.shiftr (Zpos m) (- e) in
      if s then - a else a
  | _ => 0
  end.
Definition f_to_int64 (x : float64) : Z :=
  match x with
  | S754_nan | S754_infinity _ => min_int64
  | _ => let z := f_trunc_Z x in
         if bool_decide (int64_range z) then z else min_int64
  end.

(** [math.Pow x y] for a finite non-zero [x] and an integral exponent: the loop
    over the exponent's bits with mantissa and exponent kept apart. *)
Fixpoint pow_loop (i : positive) (a1 : float64) (ae : Z) (x1 : float64) (xe : Z)
  : float64 * Z :=
  if (xe <? - 4096) || (4096 <? xe) then (a1, ae + xe)
  else
    let a1' := fmul a1 x1 in
    let ae' := ae + xe in
    let sq := fmul x1 x1 in
    let xe2 := Z.shiftl xe 1 in
    let '(x1', xe') :=
      if fltb sq f_half then (fadd sq sq, xe2 - 1) else (sq, xe2) in
    match i with
    | xH => (a1', ae')
    | xO i' => pow_loop i' a1 ae x1' xe'
    | xI i' => pow_loop i' a1' ae' x1' xe'
    end.

Definition Pow_int (x : float64) (y : Z) : float64 :=
  match y with
  | 0 => f1
  | 1 => x
  | Zpos p =>
      let '(x1, xe) := SFfrexp prec64 emax64 x in
      let '(a1, ae) := pow_loop p f1 0 x1 xe in
      SFldexp prec64 emax64 a1 ae
  | Zneg p =>
      let '(x1, xe) := SFfrexp prec64 emax64 x in
      let '(a1, ae) := pow_loop p f1 0 x1 xe in
      SFldexp prec64 emax64 (fdiv f1 a1) (- ae)
  end.

(** [math.Pow10] of a non-positive exponent: the product of two table entries. *)
Definition Pow10_neg (n : Z) : float64 :=
  if n <=? 323 then
    fdiv (f_of_ratio 1 (Z.to_pos (10 ^ (32 * (n / 32)))))
         (f_of_ratio (Z.to_pos (10 ^ (n mod 32))) 1)
  else f0.

(** [math.Pow10]. *)
Definition Pow10 (n : Z) : float64 :=
  if n <? 0 then Pow10_neg (- n)
  else if n <=? 308 then
    fmul (f_of_ratio (Z.to_pos (10 ^ (32 * (n / 32)))) 1)
         (f_of_ratio (Z.to_pos (10 ^ (n mod 32))) 1)
  else S754_infinity false.

(** ** Ordering

    On numbers (NaN excluded) the comparison is a lexicographic comparison of
    keys, so [<] orders any list of numbers up to ties. *)
Definition fkey (x : float64) : Z * Z * Z :=
  match x with
  | S754_infinity true => (- 2, 0, 0)
  | S754_finite true m e => (- 1, - e, - Zpos m)
  | S754_zero _ | S754_nan => (0, 0, 0)
  | S754_finite false m e => (1, e, Zpos m)
  | S754_infinity false => (2, 0, 0)
  end.

Definition lex_ltb (a b : Z * Z * Z) : bool :=
  let '(a1, a2, a3) := a in let '(b1, b2, b3) := b in
  (a1 <? b1) || ((a1 =? b1) && ((a2 <? b2) || ((a2 =? b2) && (a3 <? b3)))).

Lemma fltb_key x y :
  is_nan x = false → is_nan y = false → fltb x y = lex_ltb (fkey x) (fkey y).
Proof.
  unfold fltb, SFltb.
  destruct x as [[]|[]| |[] m1 e1], y as [[]|[]| |[] m2 e2];
    simpl; try done; intros _ _.
  - destruct (Z.compare_spec e1 e2); simpl; try lia. subst.
    change (Pos.compare_cont Eq m1 m2) with (m1 ?= m2)%positive.
    destruct (Pos.compare_spec m1 m2); simpl; lia.
  - destruct (Z.compare_spec e1 e2); simpl; try lia. subst.
    change (Pos.compare_cont Eq m1 m2) with (m1 ?= m2)%positive.
    destruct (Pos.compare_spec m1 m2); simpl; lia.
Qed.

Lemma fleb_key x y :
  is_nan x = false → is_nan y = false →
  fleb x y = negb (lex_ltb (fkey y) (fkey x)).
Proof.
  unfold fleb, SFleb.
  destruct x as [[]|[]| |[] m1 e1], y as [[]|[]| |[] m2 e2];
    simpl; try done; intros _ _.
  - destruct (Z.compare_spec e1 e2); simpl; try lia. subst.
    change (Pos.compare_cont Eq m1 m2) with (m1 ?= m2)%positive.
    destruct (Pos.compare_spec m1 m2); simpl; lia.
  - destruct (Z.compare_spec e1 e2); simpl; try lia. subst.
    change (Pos.compare_cont Eq m1 m2) with (m1 ?= m2)%positive.
    destruct (Pos.compare_spec m1 m2); simpl; lia.
Qed.

Lemma lex_ltb_asym a b : lex_ltb a b = true → lex_ltb b a = false.
Proof. destruct a as [[? ?] ?], b as [[? ?] ?]; simpl; lia. Qed.
Lemma lex_ltb_negtrans a b c :
  lex_ltb b a = false → lex_ltb c b = false → lex_ltb c a = false.
Proof.
  destruct a as [[? ?] ?], b as [[? ?] ?], c as [[? ?] ?]; simpl; lia.
Qed.

(** With a NaN on either side every comparison is false. *)
Lemma fltb_nan_l x y : is_nan x = true → fltb x y = false.
Proof. by destruct x. Qed.
Lemma fltb_nan_r x y : is_nan y = true → fltb x y = false.
Proof. by destruct x, y. Qed.

Lemma fltb_asym x y : fltb x y = true → fltb y x = false.
Proof.
  destruct (is_nan x) eqn:Ex; [by rewrite fltb_nan_l|].
  destruct (is_nan y) eqn:Ey; [by rewrite fltb_nan_r|].
  rewrite !fltb_key by done. apply lex_ltb_asym.
Qed.

Lemma fltb_irrefl x : fltb x x = false.
Proof. destruct (fltb x x) eqn:E; [|done]. by apply fltb_asym in E as E'; congruence. Qed.

Lemma fltb_negtrans x y z :
  is_nan y = false → fltb y x = false → fltb z y = false → fltb z x = false.
Proof.
  intros Hy.
  destruct (is_nan x) eqn:Ex; [by intros; rewrite fltb_nan_r|].
  destruct (is_nan z) eqn:Ez; [by intros; rewrite fltb_nan_l|].
  rewrite !fltb_key by done. apply lex_ltb_negtrans.
Qed.

Lemma fltb_trans x y z : fltb x y = true → fltb y z = true → fltb x z = true.
Proof.
  destruct (is_nan x) eqn:Ex; [by rewrite fltb_nan_l|].
  destruct (is_nan y) eqn:Ey; [by rewrite fltb_nan_r|].
  destruct (is_nan z) eqn:Ez; [by intros _; rewrite fltb_nan_r|].
  rewrite !fltb_key by done.
  destruct (fkey x) as [[? ?] ?], (fkey y) as [[? ?] ?], (fkey z) as [[? ?] ?].
  simpl. lia.
Qed.

Lemma fleb_fltb x y :
  is_nan x = false → is_nan y = false → fleb x y = negb (fltb y x).
Proof. intros. by rewrite fleb_key, fltb_key. Qed.

(** Numbers are equal when neither is less. *)
Lemma feqb_fltb x y :
  is_nan x = false → is_nan y = false → feqb x y = negb (fltb x y) && negb (fltb y x).
Proof.
  unfold feqb, SFeqb, fltb, SFltb.
  destruct x as [[]|[]| |[] m1 e1], y as [[]|[]| |[] m2 e2];
    simpl; try done; intros _ _.
  - rewrite (Z.compare_antisym e1 e2). destruct (Z.compare e1 e2); simpl; try done.
    change (Pos.compare_cont Eq m1 m2) with (m1 ?= m2)%positive.
    change (Pos.compare_cont Eq m2 m1) with (m2 ?= m1)%positive.
    rewrite (Pos.compare_antisym m1 m2). by destruct (m1 ?= m2)%positive.
  - rewrite (Z.compare_antisym e1 e2). destruct (Z.compare e1 e2); simpl; try done.
    change (Pos.compare_cont Eq m1 m2) with (m1 ?= m2)%positive.
    change (Pos.compare_cont Eq m2 m1) with (m2 ?= m1)%positive.
    rewrite (Pos.compare_antisym m1 m2). by destruct (m1 ?= m2)%positive.
Qed.

(** Sorting by a float key is well defined when no key is NaN. *)
Lemma strict_weak_on_float {A} (key : A → float64) l :
  Forall (λ a, is_nan (key a) = false) l →
  strict_weak_on (λ a b, fltb (key a) (key b)) l.
Proof.
  rewrite Forall_forall. intros Hn. split.
  - intros a b _ _. apply fltb_asym.
  - intros a b c _ Hb _. apply fltb_negtrans. auto.
Qed.

Lemma strict_weak_on_float_desc {A} (key : A → float64) l :
  Forall (λ a, is_nan (key a) = false) l →
  strict_weak_on (λ a b, fgtb (key a) (key b)) l.
Proof.
  rewrite Forall_forall. intros Hn. split.
  - intros a b _ _. apply fltb_asym.
  - intros a b c _ Hb _ H1 H2. eapply (fltb_negtrans _ (key b)); eauto.
Qed.

#[export] Hint Resolve strict_weak_on_float strict_weak_on_float_desc : go.

(** [time.Duration]'s float views, on a duration in nanoseconds. *)
Definition float_units (unit : Z) (d : Z) : float64 :=
  fadd (f_of_Z (Z.quot d unit)) (fdiv (f_of_Z (Z.rem d unit)) (f_of_Z unit)).
Definition Duration_Seconds : Z → float64 := float_units 1000000000.
Definition Duration_Minutes : Z → float64 := float_units 60000000000.
Definition Duration_Hours : Z → float64 := float_units 3600000000000.

Lemma feqb_refl x : is_nan x = false → feqb x x = true.
Proof.
  unfold feqb, SFeqb. destruct x as [[]|[]| |[] m e]; try done; intros _; simpl.
  - rewrite Z.compare_refl, (Pos.compare_cont_refl m Eq). done.
  - rewrite Z.compare_refl, (Pos.compare_cont_refl m Eq). done.
Qed.
