(* ===== verification/GoStrings.v ===== *)
(** * Go's packages [strings] and [strconv]

    The functions of the language's standard library that the modelled code
    calls on strings, as executable definitions over byte strings.  Two limits:
    [TrimSpace] strips the ASCII blanks, and splitting on the empty separator
    explodes into bytes (the code only handles ASCII there). *)
From S2P Require Import Prelude.
From Stdlib Require Export Ascii DecimalString DecimalZ DecimalN.

#[global] Open Scope string_scope.
#[global] Open Scope Z_scope.
#[global] Open Scope list_scope.

#[global] Arguments String.append : simpl nomatch.

Definition slen (s : string) : Z := Z.of_nat (String.length s).

(** [s[i:j]] for [0 ≤ i ≤ j ≤ len s]; anything else panics. *)
Definition slice (s : string) (i j : Z) : res string :=
  if decide (0 ≤ i ≤ j ∧ j ≤ slen s)
  then Ok (String.substring (Z.to_nat i) (Z.to_nat (j - i)) s) else Panic.

Fixpoint sdrop (n : nat) (s : string) : string :=
  match n, s with
  | O, _ => s
  | S n', String _ s' => sdrop n' s'
  | S _, EmptyString => ""
  end.

Fixpoint stake (n : nat) (s : string) : string :=
  match n, s with
  | S n', String c s' => String c (stake n' s')
  | _, _ => ""
  end.

Definition HasPrefix (s p : string) : bool := String.prefix p s.
Definition HasSuffix (s p : string) : bool :=
  (String.length p <=? String.length s)%nat &&
  String.eqb (sdrop (String.length s - String.length p) s) p.
Definition TrimPrefix (s p : string) : string :=
  if HasPrefix s p then sdrop (String.length p) s else s.

(** [strings.Join]. *)
Definition Join (l : list string) (sep : string) : string := String.concat sep l.
#[global] Arguments Join : simpl never.

(** [strings.Index]; [-1] when there is no occurrence. *)
Fixpoint Index_go (s sub : string) (i : Z) : Z :=
  if String.prefix sub s then i
  else match s with
       | EmptyString => -1
       | String _ s' => Index_go s' sub (i + 1)
       end.
Definition Index (s sub : string) : Z := Index_go s sub 0.
Definition Contains (s sub : string) : bool := negb (Index s sub =? -1).

(** The last position of a substring, -1 when there is none; the rest is searched
    first. *)
Fixpoint LastIndex_go (s sub : string) (i : Z) : Z :=
  let here := if String.prefix sub s then i else -1 in
  match s with
  | EmptyString => here
  | String _ s' =>
      let later := LastIndex_go s' sub (i + 1) in
      if later =? -1 then here else later
  end.
Definition LastIndex (s sub : string) : Z := LastIndex_go s sub 0.

(** [strings.Split] for a non-empty separator: first piece and the others. *)
Fixpoint Split_go (sep : string) (skip : nat) (s : string)
  : string * list string :=
  match s with
  | EmptyString => ("", [])
  | String c s' =>
      match skip with
      | S k => Split_go sep k s'
      | O =>
          if String.prefix sep s then
            let '(h, t) := Split_go sep (pred (String.length sep)) s' in
            ("", h :: t)
          else let '(h, t) := Split_go sep 0 s' in (String c h, t)
      end
  end.

Fixpoint explode (s : string) : list string :=
  match s with
  | EmptyString => []
  | String c s' => String c "" :: explode s'
  end.

Definition Split (s sep : string) : list string :=
  match sep with
  | EmptyString => explode s
  | _ => let '(h, t) := Split_go sep 0 s in h :: t
  end.

Definition is_space (c : ascii) : bool :=
  match nat_of_ascii c with
  | 9 | 10 | 11 | 12 | 13 | 32 => true
  | _ => false
  end%nat.

Fixpoint trim_left (s : string) : string :=
  match s with
  | String c s' => if is_space c then trim_left s' else s
  | EmptyString => ""
  end.
Definition TrimSpace (s : string) : string :=
  String.rev (trim_left (String.rev (trim_left s))).

(** [strings.Repeat] and the paddings of [fmt.Sprintf]'s width. *)
Fixpoint srepeat (s : string) (n : nat) : string :=
  match n with O => "" | S n' => s +:+ srepeat s n' end.

(** [strconv.Itoa] and [strconv.Atoi] (base 10, 64 bits). *)
Definition Itoa (z : Z) : string := NilZero.string_of_int (Z.to_int z).

Definition parse_digits (s : string) : option Z :=
  match NilZero.uint_of_string s with
  | Some d => Some (Z.of_N (N.of_uint d))
  | None => None
  end.

Definition Atoi (s : string) : option Z :=
  let r := match s with
           | String "-" s' => Z.opp <$> parse_digits s'
           | String "+" s' => parse_digits s'
           | _ => parse_digits s
           end in
  match r with
  | Some z => if decide (int64_range z) then Some z else None
  | None => None
  end.

(** The value [strconv.Atoi] returns next to its error: zero on a syntax error,
    the nearest bound when the number is out of range. *)
Definition Atoi_value (s : string) : Z :=
  let clamp z := Z.max min_int64 (Z.min max_int64 z) in
  let digits s' := match parse_digits s' with Some z => z | None => 0 end in
  match s with
  | String "-" s' => clamp (- digits s')
  | String "+" s' => clamp (digits s')
  | _ => clamp (digits s)
  end.

(** ** Lexicographic order of byte strings *)
Fixpoint str_ltb (a b : string) : bool :=
  match a, b with
  | _, EmptyString => false
  | EmptyString, String _ _ => true
  | String x a', String y b' =>
      let nx := N_of_ascii x in let ny := N_of_ascii y in
      (nx <? ny)%N || ((nx =? ny)%N && str_ltb a' b')
  end.

#[global] Arguments Split : simpl never.
#[global] Arguments Index : simpl never.

(** * Lemmas *)

Lemma sapp_nil_r s : s +:+ "" = s.
Proof. induction s; simpl; [done|by f_equal]. Qed.
Lemma sapp_assoc a b c : a +:+ (b +:+ c) = (a +:+ b) +:+ c.
Proof. induction a; simpl; [done|by f_equal]. Qed.
Lemma slength_app a b :
  String.length (a +:+ b) = (String.length a + String.length b)%nat.
Proof. induction a; simpl; [done|by f_equal]. Qed.

Lemma prefix_spec p s : String.prefix p s = true ↔ ∃ r, s = p +:+ r.
Proof.
  revert s; induction p as [|c p IH]; intros s; simpl.
  { split; [eauto|by destruct s]. }
  destruct s as [|d s]; simpl; [split; [done|by intros [r [=]]]|].
  destruct (ascii_dec c d) as [->|Hne].
  - rewrite IH. split; intros [r Hr]; exists r; [by f_equal|by injection Hr].
  - split; [done|]. intros [r [= ]]. congruence.
Qed.

Lemma HasPrefix_app p r : HasPrefix (p +:+ r) p = true.
Proof. apply prefix_spec. eauto. Qed.

Lemma sdrop_app p r : sdrop (String.length p) (p +:+ r) = r.
Proof. by induction p. Qed.

Lemma TrimPrefix_app p r : TrimPrefix (p +:+ r) p = r.
Proof. unfold TrimPrefix. by rewrite HasPrefix_app, sdrop_app. Qed.

Lemma stake_all n s : (String.length s ≤ n)%nat → stake n s = s.
Proof.
  revert n; induction s as [|c s IH]; intros [|n]; simpl; try done; [lia|].
  intros. rewrite IH; [done|lia].
Qed.

Lemma stake_length n s :
  String.length (stake n s) = Nat.min n (String.length s).
Proof. revert n; induction s; intros [|n]; simpl; [done..|]. by rewrite IHs. Qed.

Lemma sdrop_length n s :
  String.length (sdrop n s) = (String.length s - n)%nat.
Proof. revert n; induction s; intros [|n]; simpl; auto. Qed.

Lemma stake_sdrop n s : stake n s +:+ sdrop n s = s.
Proof. revert n; induction s; intros [|n]; simpl; try done. by f_equal. Qed.

Lemma substring_stake n s : String.substring 0 n s = stake n s.
Proof. revert n; induction s; intros [|n]; simpl; try done. by f_equal. Qed.

Lemma srepeat_length s n :
  String.length (srepeat s n) = (n * String.length s)%nat.
Proof. induction n; simpl; [done|]. rewrite slength_app. lia. Qed.

(** *** Splitting and joining *)

Lemma Join_nil sep : Join [] sep = "".
Proof. done. Qed.
Lemma Join_single sep h : Join [h] sep = h.
Proof. done. Qed.
Lemma Join_cons sep h t :
  t ≠ [] → Join (h :: t) sep = h +:+ sep +:+ Join t sep.
Proof. by destruct t. Qed.

Lemma Split_go_Join sep skip s :
  sep ≠ "" →
  let '(h, t) := Split_go sep skip s in
  Join (h :: t) sep = sdrop skip s.
Proof.
  intros Hsep. revert skip. induction s as [|c s IH]; intros skip.
  { by destruct skip. }
  destruct skip as [|k]; cbn [Split_go sdrop]; [|apply IH].
  destruct (String.prefix sep (String c s)) eqn:Hp.
  - specialize (IH (pred (String.length sep))).
    destruct (Split_go sep (pred (String.length sep)) s) as [h t].
    rewrite Join_cons by done. rewrite IH. simpl.
    apply prefix_spec in Hp as [r Hr].
    destruct sep as [|d sep]; [done|]. simpl in *. injection Hr as -> ->.
    by rewrite sdrop_app.
  - specialize (IH O). destruct (Split_go sep 0 s) as [h t]. simpl in IH.
    destruct t; [by rewrite Join_single in *; rewrite IH|].
    rewrite Join_cons in * by done. by rewrite <- IH.
Qed.

(** Joining what [Split] returns gives the string back. *)
Lemma Join_Split s sep : sep ≠ "" → Join (Split s sep) sep = s.
Proof.
  intros Hsep. pose proof (Split_go_Join sep 0 s Hsep) as H.
  unfold Split. destruct sep; [done|]. by destruct (Split_go _ 0 s).
Qed.

Fixpoint has_char (c : ascii) (s : string) : bool :=
  match s with
  | EmptyString => false
  | String d s' => Ascii.eqb c d || has_char c s'
  end.

Lemma has_char_app c a b : has_char c (a +:+ b) = has_char c a || has_char c b.
Proof. induction a; simpl; [done|]. by rewrite IHa, orb_assoc. Qed.

Lemma prefix_single c s : String.prefix (String c "") (String c s) = true.
Proof. simpl. destruct (ascii_dec c c); [by destruct s|done]. Qed.
Lemma prefix_single_ne c d s :
  Ascii.eqb c d = false → String.prefix (String c "") (String d s) = false.
Proof.
  intros H. simpl. destruct (ascii_dec c d) as [->|]; [|done].
  by rewrite Ascii.eqb_refl in H.
Qed.

Lemma Split_go_piece c h s :
  has_char c h = false →
  Split_go (String c "") 0 (h +:+ String c s) =
    (h, let '(h', t) := Split_go (String c "") 0 s in h' :: t).
Proof.
  induction h as [|d h IH]; simpl; intros Hh.
  - destruct (ascii_dec c c); [|done].
    assert (String.prefix "" s = true) as -> by (by destruct s).
    by destruct (Split_go (String c "") 0 s).
  - apply orb_false_iff in Hh as [Hd Hh].
    destruct (ascii_dec c d) as [->|]; [by rewrite Ascii.eqb_refl in Hd|].
    by rewrite IH.
Qed.

Lemma Split_go_last c h :
  has_char c h = false → Split_go (String c "") 0 h = (h, []).
Proof.
  induction h as [|d h IH]; simpl; intros Hh; [done|].
  apply orb_false_iff in Hh as [Hd Hh].
  destruct (ascii_dec c d) as [->|]; [by rewrite Ascii.eqb_refl in Hd|].
  by rewrite IH.
Qed.

(** Splitting on a one-character separator undoes [Join] when no piece holds
    that character. *)
Lemma Split_Join c l :
  l ≠ [] → Forall (λ p, has_char c p = false) l →
  Split (Join l (String c "")) (String c "") = l.
Proof.
  intros Hne Hl. unfold Split. induction Hl as [|h t Hh Ht IH]; [done|].
  destruct t as [|h2 t].
  - rewrite Join_single. by rewrite Split_go_last.
  - rewrite Join_cons by done. simpl (String c "" +:+ _).
    rewrite Split_go_piece by done.
    specialize (IH ltac:(done)). destruct (Split_go _ 0 _). by rewrite IH.
Qed.

(** *** Integers and their decimal notation *)

Lemma parse_digits_uint d :
  d ≠ Decimal.Nil →
  parse_digits (NilZero.string_of_uint d) = Some (Z.of_N (N.of_uint d)).
Proof. intros H. unfold parse_digits. by rewrite NilZero.usu. Qed.

Lemma Z_to_uint_nonnil p : Pos.to_uint p ≠ Decimal.Nil.
Proof. apply DecimalPos.Unsigned.to_uint_nonnil. Qed.

Definition is_digit (c : ascii) : bool :=
  let n := N_of_ascii c in (48 <=? n)%N && (n <=? 57)%N.

Fixpoint all_digits (s : string) : bool :=
  match s with
  | EmptyString => true
  | String c s' => is_digit c && all_digits s'
  end.

Lemma string_of_uint_digits d : all_digits (NilEmpty.string_of_uint d) = true.
Proof. by induction d. Qed.

Lemma NilZero_digits d : all_digits (NilZero.string_of_uint d) = true.
Proof. destruct d; [done|apply string_of_uint_digits..]. Qed.

Lemma NilZero_uint_head d :
  ∃ c s, NilZero.string_of_uint d = String c s ∧ is_digit c = true.
Proof. destruct d; simpl; eauto. Qed.

Lemma of_to_uint_pos p : Z.of_N (N.of_uint (Pos.to_uint p)) = Zpos p.
Proof.
  change (Pos.to_uint p) with (N.to_uint (Npos p)).
  by rewrite DecimalN.Unsigned.of_to.
Qed.

(** A decimal numeral never begins with a sign. *)
Lemma Atoi_numeral d :
  d ≠ Decimal.Nil →
  Atoi (NilZero.string_of_uint d) =
  (let z := Z.of_N (N.of_uint d) in
   if decide (int64_range z) then Some z else None).
Proof.
  intros Hd. pose proof (parse_digits_uint d Hd) as E.
  unfold Atoi. destruct d; [done|..]; simpl in *; by rewrite E.
Qed.

Lemma Atoi_neg_numeral d :
  d ≠ Decimal.Nil →
  Atoi (String "-" (NilZero.string_of_uint d)) =
  (let z := - Z.of_N (N.of_uint d) in
   if decide (int64_range z) then Some z else None).
Proof. intros Hd. unfold Atoi. by rewrite parse_digits_uint. Qed.

(** [strconv.Atoi] reads back what [strconv.Itoa] writes. *)
Lemma Atoi_Itoa z : int64_range z → Atoi (Itoa z) = Some z.
Proof.
  intros Hz. unfold Itoa. destruct z as [|p|p]; simpl.
  - done.
  - rewrite Atoi_numeral by apply Z_to_uint_nonnil. cbv zeta.
    rewrite of_to_uint_pos. by rewrite decide_True.
  - rewrite Atoi_neg_numeral by apply Z_to_uint_nonnil. cbv zeta.
    rewrite of_to_uint_pos. by rewrite decide_True.
Qed.

Lemma all_digits_has_char c s :
  is_digit c = false → all_digits s = true → has_char c s = false.
Proof.
  intros Hc. induction s as [|d s IH]; simpl; [done|]. intros [Hd Hs]%andb_true_iff.
  rewrite IH by done. destruct (Ascii.eqb_spec c d) as [->|]; [congruence|done].
Qed.

(** A decimal numeral holds nothing but digits and a leading minus. *)
Lemma Itoa_has_char c z :
  is_digit c = false → Ascii.eqb c "-" = false → has_char c (Itoa z) = false.
Proof.
  intros Hc Hm. unfold Itoa. destruct z as [|p|p]; simpl.
  - destruct (Ascii.eqb_spec c "0") as [->|]; done.
  - by apply all_digits_has_char, NilZero_digits.
  - rewrite Hm. by apply all_digits_has_char, NilZero_digits.
Qed.

Lemma Itoa_head z :
  ∃ c s, Itoa z = String c s ∧ (is_digit c = true ∨ c = "-"%char).
Proof.
  unfold Itoa. destruct z as [|p|p]; simpl; [eauto| |eauto].
  destruct (NilZero_uint_head (Pos.to_uint p)) as (c & s & -> & ?); eauto.
Qed.

(** *** Order of strings *)

Lemma str_ltb_irrefl a : str_ltb a a = false.
Proof. induction a; simpl; [done|]. rewrite IHa. lia. Qed.

Lemma str_ltb_total a b : str_ltb a b = false → str_ltb b a = false → a = b.
Proof.
  revert b; induction a as [|x a IH]; intros [|y b]; simpl; try done.
  intros H1 H2. assert (N_of_ascii x = N_of_ascii y) as E by lia.
  assert (x = y) as ->
    by (rewrite <- (ascii_N_embedding x), <- (ascii_N_embedding y); by f_equal).
  f_equal. apply IH; lia.
Qed.

#[export] Instance str_ltb_strict_weak : StrictWeak str_ltb.
Proof.
  split.
  - intros a. induction a as [|x a IH]; intros [|y b]; simpl; try done.
    intros H. specialize (IH b). destruct (str_ltb a b), (str_ltb b a);
      try (specialize (IH eq_refl)); lia.
  - intros a. induction a as [|x a IH]; intros [|y b] [|z c]; simpl; try done.
    intros H1 H2. specialize (IH b c).
    destruct (str_ltb b a), (str_ltb c b), (str_ltb c a);
      try (specialize (IH eq_refl eq_refl)); lia.
Qed.

#[export] Hint Rewrite slength_app stake_length sdrop_length srepeat_length
  : go_len.
