(* ===== verification/GoTime.v ===== *)
(** * Go's package [time]

    [time.Duration] is an [int64] of nanoseconds.  A [time.Time] is an instant,
    kept as the nanoseconds since January 1 of year 1, UTC (the zero time), with
    the location it is presented in; the instant is an unbounded integer, where
    Go keeps 64 bits of seconds.  A location gives the offset from UTC at an
    instant, with the transitions Go's lookup works on.  Like the rest of the
    language's library this maps to nothing in [src/]. *)
From S2P Require Import Prelude.

Definition Nanosecond : Z := 1.
Definition Millisecond : Z := 1000000.
Definition Second : Z := 1000000000.
Definition Minute : Z := 60 * Second.
Definition Hour : Z := 60 * Minute.

(** Seconds from January 1 of year 1 to the Unix epoch. *)
Definition unix_origin : Z := 62135596800.

Record Location := {
  loc_name : string;
  loc_first : Z;  (** offset before the first transition, seconds east of UTC *)
  loc_tx : list (Z * Z)  (** transitions: Unix second, offset from then on *)
}.

Definition UTC : Location := {| loc_name := "UTC"; loc_first := 0; loc_tx := [] |}.
Definition FixedZone (n : string) (off : Z) : Location :=
  {| loc_name := n; loc_first := off; loc_tx := [] |}.

(** [Location.lookup]: offset in force at a Unix second, and the bounds of the
    period it is in force (no bound is [None]). *)
Fixpoint lookup_tx (tx : list (Z * Z)) (off : Z) (start : option Z) (sec : Z)
  : Z * option Z * option Z :=
  match tx with
  | [] => (off, start, None)
  | (from, off') :: tx' =>
      if sec <? from then (off, start, Some from)
      else lookup_tx tx' off' (Some from) sec
  end.
Definition loc_lookup (l : Location) (sec : Z) : Z * option Z * option Z :=
  lookup_tx (loc_tx l) (loc_first l) None sec.
Definition loc_offset (l : Location) (sec : Z) : Z := (loc_lookup l sec).1.1.

Record Time := mkTime { t_ns : Z; t_loc : Location }.

Definition zero_time : Time := mkTime 0 UTC.
Definition IsZero (t : Time) : bool := t_ns t =? 0.

Definition Before (t u : Time) : bool := t_ns t <? t_ns u.
Definition After (t u : Time) : bool := t_ns u <? t_ns t.
Definition TimeEqual (t u : Time) : bool := t_ns t =? t_ns u.

Definition Add (t : Time) (d : Z) : Time := mkTime (t_ns t + d) (t_loc t).
(** [Time.Sub] saturates. *)
Definition Sub (t u : Time) : Z :=
  Z.max min_int64 (Z.min max_int64 (t_ns t - t_ns u)).
Definition In_loc (t : Time) (l : Location) : Time := mkTime (t_ns t) l.

(** ** The proleptic Gregorian calendar

    Days are counted from January 1 of year 1 (day 0, a Monday). *)
Definition days_of_civil (y m d : Z) : Z :=
  let y' := if m <=? 2 then y - 1 else y in
  let era := y' / 400 in
  let yoe := y' mod 400 in
  let doy := (153 * ((m + 9) mod 12) + 2) / 5 + d - 1 in
  era * 146097 + (yoe * 365 + yoe / 4 - yoe / 100 + doy) - 306.

Definition civil_of_days (n : Z) : Z * Z * Z :=
  let z := n + 306 in
  let era := z / 146097 in
  let doe := z mod 146097 in
  let yoe := (doe - doe / 1460 + doe / 36524 - doe / 146096) / 365 in
  let doy := doe - (365 * yoe + yoe / 4 - yoe / 100) in
  let mp := (5 * doy + 2) / 153 in
  let d := doy - (153 * mp + 2) / 5 + 1 in
  let m := if mp <? 10 then mp + 3 else mp - 9 in
  (yoe + era * 400 + (if m <=? 2 then 1 else 0), m, d).

(** Seconds since the origin on the wall clock of the time's location. *)
Definition local_sec (t : Time) : Z :=
  let s := t_ns t / Second in s + loc_offset (t_loc t) (s - unix_origin).

Definition day_number (t : Time) : Z := local_sec t / 86400.
Definition sec_of_day (t : Time) : Z := local_sec t mod 86400.

Definition Date_of (t : Time) : Z * Z * Z := civil_of_days (day_number t).
Definition Year (t : Time) : Z := (Date_of t).1.1.
Definition Month (t : Time) : Z := (Date_of t).1.2.
Definition Day (t : Time) : Z := (Date_of t).2.
Definition THour (t : Time) : Z := sec_of_day t / 3600.
Definition TMinute (t : Time) : Z := sec_of_day t mod 3600 / 60.
Definition TSecond (t : Time) : Z := sec_of_day t mod 60.
Definition TNanosecond (t : Time) : Z := t_ns t mod Second.
(** Sunday is 0. *)
Definition Weekday (t : Time) : Z := (day_number t + 1) mod 7.

(** [time.Date]: every field may be out of its usual range; the offset is looked
    up at the wall-clock reading and corrected when that lands in another
    period. *)
Definition Date (y mon d h mi s ns : Z) (l : Location) : Time :=
  let y' := y + (mon - 1) / 12 in
  let m' := (mon - 1) mod 12 + 1 in
  let wall := (days_of_civil y' m' 1 + (d - 1)) * 86400 + h * 3600 + mi * 60 + s
              + ns / Second in
  let u := wall - unix_origin in
  let '(off, start, stop) := loc_lookup l u in
  let off' :=
    if off =? 0 then 0
    else
      let utc := u - off in
      match start, stop with
      | Some st, Some en =>
          if utc <? st then loc_offset l (st - 1)
          else if en <=? utc then loc_offset l en else off
      | Some st, None => if utc <? st then loc_offset l (st - 1) else off
      | None, Some en => if en <=? utc then loc_offset l en else off
      | None, None => off
      end in
  mkTime ((wall - off') * Second + ns mod Second) l.

Definition AddDate (t : Time) (y m d : Z) : Time :=
  Date (Year t + y) (Month t + m) (Day t + d) (THour t) (TMinute t) (TSecond t)
    (TNanosecond t) (t_loc t).

(** Locations with no transition: UTC and every [time.FixedZone]. *)
Definition fixed (l : Location) : Prop := loc_tx l = [].

(** ** Lemmas *)

(** The day of the 400-year era determines a year of the era, a day of the year
    and a month and day in range. *)
Lemma civil_ok doe :
  0 ≤ doe < 146097 →
  let yoe := (doe - doe / 1460 + doe / 36524 - doe / 146096) / 365 in
  let doy := doe - (365 * yoe + yoe / 4 - yoe / 100) in
  0 ≤ yoe < 400 ∧ 0 ≤ doy ≤ 365.
Proof. intros H. split; lia. Qed.

Lemma month_ok doy :
  0 ≤ doy ≤ 365 →
  let mp := (5 * doy + 2) / 153 in
  0 ≤ mp < 12 ∧ 1 ≤ doy - (153 * mp + 2) / 5 + 1 ≤ 31.
Proof. intros H. lia. Qed.

(** The calendar conversions agree: the day number of the civil date of a day is
    that day. *)
Lemma days_of_civil_of_days n :
  let '(y, m, d) := civil_of_days n in days_of_civil y m d = n.
Proof.
  unfold civil_of_days.
  pose proof (civil_ok ((n + 306) mod 146097)
                (Z.mod_pos_bound (n + 306) 146097 ltac:(lia))) as [Hy Hdoy].
  pose proof (Z.div_mod (n + 306) 146097 ltac:(lia)) as Hz.
  cbv zeta in *. revert Hy Hdoy Hz.
  set (doe := (n + 306) mod 146097). set (era := (n + 306) / 146097).
  set (yoe := (doe - doe / 1460 + doe / 36524 - doe / 146096) / 365).
  remember (doe - (365 * yoe + yoe / 4 - yoe / 100)) as doy eqn:Edoy.
  intros Hy Hdoy Hz. pose proof (proj1 (month_ok doy Hdoy)) as Hm. revert Hm.
  cbv zeta. set (mp := (5 * doy + 2) / 153). intros Hm.
  clearbody mp yoe era doe. unfold days_of_civil.
  assert (((if mp <? 10 then mp + 3 else mp - 9) <=? 2) = (10 <=? mp)) as ->
    by (destruct (Z.ltb_spec mp 10); lia).
  assert (((if mp <? 10 then mp + 3 else mp - 9) + 9) mod 12 = mp) as ->
    by (destruct (Z.ltb_spec mp 10); lia).
  replace (if 10 <=? mp
           then yoe + era * 400 + (if 10 <=? mp then 1 else 0) - 1
           else yoe + era * 400 + (if 10 <=? mp then 1 else 0))
    with (yoe + era * 400) by (destruct (10 <=? mp); lia).
  rewrite Z_div_plus, Z_mod_plus by lia.
  rewrite (Z.div_small yoe), (Z.mod_small yoe) by lia. lia.
Qed.

Lemma civil_of_days_range n :
  let '(y, m, d) := civil_of_days n in 1 ≤ m ≤ 12 ∧ 1 ≤ d ≤ 31.
Proof.
  unfold civil_of_days.
  pose proof (civil_ok ((n + 306) mod 146097)
                (Z.mod_pos_bound (n + 306) 146097 ltac:(lia))) as [_ Hdoy].
  cbv zeta in *. revert Hdoy. set (doy := _ - (365 * _ + _ - _)).
  intros Hdoy. pose proof (month_ok doy Hdoy) as Hm. revert Hm. cbv zeta.
  clearbody doy. set (mp := (5 * doy + 2) / 153). clearbody mp.
  destruct (Z.ltb_spec mp 10); lia.
Qed.

(** The day field is additive, which is what lets [Date] take days out of range. *)
Lemma days_of_civil_day y m d : days_of_civil y m d = days_of_civil y m 1 + (d - 1).
Proof. unfold days_of_civil. lia. Qed.

(** In a location without transitions the wall clock is a constant away. *)
Lemma fixed_offset l sec : fixed l → loc_offset l sec = loc_first l.
Proof. unfold fixed, loc_offset, loc_lookup. by intros ->. Qed.

Lemma fixed_local_sec t :
  fixed (t_loc t) → local_sec t = t_ns t / Second + loc_first (t_loc t).
Proof. intros H. unfold local_sec. by rewrite fixed_offset. Qed.

Lemma fixed_Date y mon d h mi s ns l :
  fixed l → 1 ≤ mon ≤ 12 →
  t_ns (Date y mon d h mi s ns l) =
  (days_of_civil y mon d * 86400 + h * 3600 + mi * 60 + s - loc_first l) * Second
    + ns.
Proof.
  intros Hl Hm. unfold Date, loc_lookup. rewrite Hl. simpl.
  rewrite (Z.div_small (mon - 1)), (Z.mod_small (mon - 1)) by lia.
  rewrite Z.add_0_r, Z.sub_add, (days_of_civil_day y mon d).
  assert ((if loc_first l =? 0 then 0 else loc_first l) = loc_first l) as ->
    by (destruct (Z.eqb_spec (loc_first l) 0); lia).
  pose proof (Z.div_mod ns Second ltac:(unfold Second; lia)). nia.
Qed.

Lemma Date_loc y mon d h mi s ns l : t_loc (Date y mon d h mi s ns l) = l.
Proof. unfold Date. by destruct (loc_lookup l _) as [[? ?] ?]. Qed.

Lemma Month_range t : 1 ≤ Month t ≤ 12.
Proof.
  unfold Month, Date_of. pose proof (civil_of_days_range (day_number t)).
  destruct (civil_of_days _) as [[y m] d]; simpl in *; lia.
Qed.

Lemma Day_range t : 1 ≤ Day t ≤ 31.
Proof.
  unfold Day, Date_of. pose proof (civil_of_days_range (day_number t)).
  destruct (civil_of_days _) as [[y m] d]; simpl in *; lia.
Qed.

Lemma days_of_date t : days_of_civil (Year t) (Month t) (Day t) = day_number t.
Proof.
  unfold Year, Month, Day, Date_of.
  pose proof (days_of_civil_of_days (day_number t)).
  by destruct (civil_of_days _) as [[y m] d].
Qed.

(** A clock reading on the date of [t]. *)
Lemma fixed_Date_same_day t h mi s ns :
  fixed (t_loc t) →
  t_ns (Date (Year t) (Month t) (Day t) h mi s ns (t_loc t)) =
  (day_number t * 86400 + h * 3600 + mi * 60 + s - loc_first (t_loc t)) * Second
    + ns.
Proof.
  intros Hl. rewrite fixed_Date by (done || apply Month_range).
  by rewrite days_of_date.
Qed.

Lemma sec_of_day_range t : 0 ≤ sec_of_day t < 86400.
Proof. apply Z.mod_pos_bound. lia. Qed.

(** The instant of [t] from its day, its second of the day and its nanosecond. *)
Lemma fixed_t_ns t :
  fixed (t_loc t) →
  t_ns t = (day_number t * 86400 + sec_of_day t - loc_first (t_loc t)) * Second
           + TNanosecond t.
Proof.
  intros Hl. unfold day_number, sec_of_day, TNanosecond.
  rewrite (Z.mul_comm (local_sec t / 86400)), <- Z.div_mod by lia.
  rewrite fixed_local_sec by done.
  pose proof (Z.div_mod (t_ns t) Second ltac:(unfold Second; lia)). lia.
Qed.

Lemma TNanosecond_range t : 0 ≤ TNanosecond t < Second.
Proof. apply Z.mod_pos_bound. unfold Second. lia. Qed.

Lemma clock_sec t : THour t * 3600 + TMinute t * 60 + TSecond t = sec_of_day t.
Proof.
  unfold THour, TMinute, TSecond. lia.
Qed.

Lemma Sub_exact t u : int64_range (t_ns t - t_ns u) → Sub t u = t_ns t - t_ns u.
Proof. unfold Sub, int64_range. lia. Qed.
Lemma Sub_range t u : int64_range (Sub t u).
Proof. unfold Sub, int64_range, min_int64, max_int64. lia. Qed.

(** *** The calendar, the other way round *)

Definition is_leap (y : Z) : bool :=
  (y mod 4 =? 0) && (negb (y mod 100 =? 0) || (y mod 400 =? 0)).

Definition month_len (y m : Z) : Z :=
  if m =? 2 then if is_leap y then 29 else 28
  else if (m =? 4) || (m =? 6) || (m =? 9) || (m =? 11) then 30 else 31.

(** A year [100 c + r] of the era and a day of it give back the year. *)
Lemma year_of_era c r doy :
  0 ≤ c < 4 → 0 ≤ r < 100 → 0 ≤ doy ≤ 365 →
  (doy = 365 → (r + 1) mod 4 = 0 ∧ (r ≠ 99 ∨ c = 3)) →
  let doe := c * 36524 + r * 365 + r / 4 + doy in
  (doe - doe / 1460 + doe / 36524 - doe / 146096) / 365 = 100 * c + r.
Proof.
  intros Hc Hr Hd Hl doe. set (x := r * 365 + r / 4 + doy).
  assert (0 ≤ x ≤ 36524 ∧ (x = 36524 → c = 3)) as [Hx Hx'] by lia.
  assert (doe = c * 36524 + x) as -> by lia.
  assert (365 * r + r / 4 ≤ x ∧ x < 365 * (r + 1) + (r + 1) / 4) by lia.
  clearbody x. destruct (decide (x = 36524)) as [->|].
  { assert (c = 3) as -> by lia. assert (r = 99) as -> by lia. reflexivity. }
  assert (0 ≤ x < 36524) by lia. clear Hx Hl.
  rewrite (Z.div_small _ 146096) by lia.
  replace ((c * 36524 + x) / 36524) with c by lia.
  assert (c = 0 ∨ c = 1 ∨ c = 2 ∨ c = 3) as [->|[->|[->| ->]]] by lia.
  all: lia.
Qed.

Lemma civil_of_days_of_civil y m d :
  1 ≤ m ≤ 12 → 1 ≤ d ≤ month_len y m →
  civil_of_days (days_of_civil y m d) = (y, m, d).
Proof.
  intros Hm Hd. unfold civil_of_days, days_of_civil. cbv zeta.
  set (y' := if m <=? 2 then y - 1 else y).
  set (mp := (m + 9) mod 12). set (doy := (153 * mp + 2) / 5 + d - 1).
  assert (mp = if m <=? 2 then m + 9 else m - 3) as Emp
    by (subst mp; destruct (Z.leb_spec m 2); lia).
  assert (0 ≤ doy ≤ 365 ∧ (doy = 365 → m = 2 ∧ d = 29)) as [Hdoy Hlast].
  { assert (month_len y m ≤ 31 ∧ (m = 2 → month_len y m ≤ 29)) as [? ?]
      by (unfold month_len; destruct (Z.eqb_spec m 2), (is_leap y),
            ((m =? 4) || (m =? 6) || (m =? 9) || (m =? 11)); lia).
    subst doy mp. destruct (Z.leb_spec m 2); lia. }
  assert ((5 * doy + 2) / 153 = mp) as Emd.
  { assert (m = 1 ∨ m = 2 ∨ m = 3 ∨ m = 4 ∨ m = 5 ∨ m = 6 ∨ m = 7 ∨ m = 8 ∨ m = 9
            ∨ m = 10 ∨ m = 11 ∨ m = 12) as Hms by lia.
    unfold month_len in Hd. destruct (is_leap y);
    repeat (destruct Hms as [->|Hms]; [simpl in *; subst doy mp; lia|]);
    subst m; simpl in *; subst doy mp; lia. }
  set (c := (y' mod 400) / 100). set (r := (y' mod 400) mod 100).
  assert (y' mod 400 = 100 * c + r ∧ 0 ≤ c < 4 ∧ 0 ≤ r < 100) as (Eyoe & Hc & Hr)
    by (subst c r; lia).
  assert (doy = 365 → (r + 1) mod 4 = 0 ∧ (r ≠ 99 ∨ c = 3)) as Hleap.
  { intros [-> ->]%Hlast. unfold month_len, is_leap in Hd. simpl in Hd.
    subst y'. simpl in *. clearbody c r. clear - Hd Eyoe Hc Hr.
    destruct (Z.eqb_spec (y mod 4) 0), (Z.eqb_spec (y mod 100) 0),
      (Z.eqb_spec (y mod 400) 0); simpl in Hd; lia. }
  pose proof (year_of_era c r doy Hc Hr Hdoy Hleap) as Eyear. cbv zeta in Eyear.
  set (doe := c * 36524 + r * 365 + r / 4 + doy) in *.
  assert ((y' mod 400) * 365 + (y' mod 400) / 4 - c + doy = doe)
    as -> by (rewrite Eyoe; subst doe; clearbody c r doy; lia).
  assert (0 ≤ doe < 146097) as Hdoe by (subst doe; clearbody c r doy; lia).
  rewrite Z.sub_add, !(Z.add_comm (_ * 146097)), Z_div_plus, Z_mod_plus,
    (Z.div_small doe), (Z.mod_small doe), Eyear by lia.
  assert (doe - (365 * (100 * c + r) + (100 * c + r) / 4 - (100 * c + r) / 100)
          = doy) as -> by (subst doe; clearbody c r doy; lia).
  rewrite Emd, Emp. clear Emd Eyear Hleap Hlast Emp.
  f_equal; [f_equal|].
  - subst y'. rewrite <- Eyoe. destruct (Z.leb_spec m 2).
    + destruct (Z.ltb_spec (m + 9) 10); [lia|].
      replace (m + 9 - 9 <=? 2) with true by lia. lia.
    + destruct (Z.ltb_spec (m - 3) 10); [|lia].
      replace (m - 3 + 3 <=? 2) with false by lia. lia.
  - destruct (Z.leb_spec m 2); [destruct (Z.ltb_spec (m + 9) 10)|
      destruct (Z.ltb_spec (m - 3) 10)]; lia.
  - subst doy mp. destruct (Z.leb_spec m 2); lia.
Qed.

Lemma days_of_civil_alt y m d :
  days_of_civil y m d =
  (let y' := if m <=? 2 then y - 1 else y in
   365 * y' + y' / 4 - y' / 100 + y' / 400
   + (153 * ((m + 9) mod 12) + 2) / 5 + d - 1 - 306).
Proof.
  unfold days_of_civil. cbv zeta. set (y' := if m <=? 2 then y - 1 else y).
  set (k := (153 * _ + 2) / 5). clearbody y' k. lia.
Qed.

Lemma leap_day y :
  y / 4 - y / 100 + y / 400 - ((y - 1) / 4 - (y - 1) / 100 + (y - 1) / 400)
  = if is_leap y then 1 else 0.
Proof.
  assert (∀ k, 0 < k → y / k - (y - 1) / k = if y mod k =? 0 then 1 else 0) as H.
  { intros k Hk. pose proof (Z.div_mod y k ltac:(lia)).
    pose proof (Z.mod_pos_bound y k Hk). destruct (Z.eqb_spec (y mod k) 0).
    - assert ((y - 1) / k = y / k - 1); [|lia].
      symmetry. apply Z.div_unique with (k - 1); lia.
    - assert ((y - 1) / k = y / k); [|lia].
      symmetry. apply Z.div_unique with (y mod k - 1); lia. }
  pose proof (H 4 ltac:(lia)). pose proof (H 100 ltac:(lia)).
  pose proof (H 400 ltac:(lia)). unfold is_leap.
  assert (y mod 400 = 0 → y mod 100 = 0) by (clear; lia).
  assert (y mod 100 = 0 → y mod 4 = 0) by (clear; lia). clear H.
  revert H0 H1 H2 H3 H4.
  generalize (y / 4), (y / 100), (y / 400), ((y - 1) / 4), ((y - 1) / 100),
    ((y - 1) / 400), (y mod 4), (y mod 100), (y mod 400).
  intros q1 q2 q3 q4 q5 q6 r1 r2 r3.
  destruct (Z.eqb_spec r1 0), (Z.eqb_spec r2 0), (Z.eqb_spec r3 0); simpl; lia.
Qed.

(** The leap days before a year, as one term for the arithmetic. *)
Definition leaps (y : Z) : Z := y / 4 - y / 100 + y / 400.

Lemma days_of_civil_leaps y m d :
  days_of_civil y m d =
  (let y' := if m <=? 2 then y - 1 else y in
   365 * y' + leaps y' + (153 * ((m + 9) mod 12) + 2) / 5 + d - 307).
Proof. rewrite days_of_civil_alt. unfold leaps. lia. Qed.

Lemma leaps_pred y : leaps y = leaps (y - 1) + if is_leap y then 1 else 0.
Proof. pose proof (leap_day y). unfold leaps. lia. Qed.

(** The first of the next month is a month's length later. *)
Lemma days_of_civil_next_month y m :
  1 ≤ m ≤ 12 →
  days_of_civil (y + m / 12) (m mod 12 + 1) 1 = days_of_civil y m 1 + month_len y m.
Proof.
  intros Hm. rewrite !days_of_civil_leaps. cbv zeta.
  assert (m = 1 ∨ m = 2 ∨ m = 3 ∨ m = 4 ∨ m = 5 ∨ m = 6 ∨ m = 7 ∨ m = 8 ∨ m = 9
          ∨ m = 10 ∨ m = 11 ∨ m = 12) as Hms by lia.
  unfold month_len. pose proof (leaps_pred y) as E.
  repeat (destruct Hms as [->|Hms];
    [simpl; rewrite ?Z.add_0_r, ?Z.add_simpl_r; destruct (is_leap y); lia|]).
  subst m. simpl. rewrite ?Z.add_simpl_r. lia.
Qed.

(** A year is as long as the calendar says. *)
Lemma days_of_civil_next_year y :
  days_of_civil (y + 1) 1 1 = days_of_civil y 1 1 + if is_leap y then 366 else 365.
Proof.
  rewrite !days_of_civil_leaps. simpl.
  pose proof (leaps_pred y). rewrite Z.add_simpl_r. destruct (is_leap y); lia.
Qed.

Lemma month_len_range y m : 28 ≤ month_len y m ≤ 31.
Proof.
  unfold month_len. destruct (m =? 2), (is_leap y), (m =? 4), (m =? 6), (m =? 9),
    (m =? 11); simpl; lia.
Qed.

(** A day of the month is one of that month. *)
Lemma Day_month_len t : Day t ≤ month_len (Year t) (Month t).
Proof.
  pose proof (Month_range t) as Hm. pose proof (Day_range t) as Hd.
  destruct (Z.le_gt_cases (Day t) (month_len (Year t) (Month t))) as [|Hgt]; [done|].
  exfalso. pose proof (days_of_date t) as Hn.
  rewrite days_of_civil_day in Hn.
  pose proof (days_of_civil_next_month (Year t) (Month t) Hm) as Hnext.
  pose proof (month_len_range (Year t) (Month t)) as Hl.
  set (d' := Day t - month_len (Year t) (Month t)) in *.
  assert (days_of_civil (Year t + Month t / 12) (Month t mod 12 + 1) d' = day_number t)
    as E by (rewrite days_of_civil_day; lia).
  pose proof (month_len_range (Year t + Month t / 12) (Month t mod 12 + 1)) as Hl'.
  assert (civil_of_days (day_number t)
          = (Year t + Month t / 12, Month t mod 12 + 1, d')) as Ec.
  { rewrite <- E. apply civil_of_days_of_civil; lia. }
  assert (Day t = d') as Ed by (unfold Day, Date_of; by rewrite Ec). lia.
Qed.

(** Two dates less than four weeks apart have different days of the month, unless
    they are the same date. *)
Lemma Day_within_month t u :
  day_number t ≤ day_number u < day_number t + 28 → Day t = Day u →
  day_number t = day_number u.
Proof.
  intros Hn Hd. pose proof (Month_range t) as Hm. pose proof (Day_range t) as Hr.
  pose proof (Day_month_len t) as Hl. pose proof (days_of_date t) as Et.
  rewrite days_of_civil_day in Et.
  pose proof (days_of_civil_next_month (Year t) (Month t) Hm) as Hnext.
  pose proof (month_len_range (Year t) (Month t)) as Hlen.
  set (k := day_number u - day_number t) in *.
  destruct (Z.le_gt_cases (Day t + k) (month_len (Year t) (Month t))) as [Hle|Hgt].
  - assert (days_of_civil (Year t) (Month t) (Day t + k) = day_number u) as Eu
      by (rewrite days_of_civil_day; lia).
    assert (Day u = Day t + k); [|lia].
    unfold Day at 1, Date_of. rewrite <- Eu, civil_of_days_of_civil by lia. done.
  - set (d := Day t + k - month_len (Year t) (Month t)).
    pose proof (month_len_range (Year t + Month t / 12) (Month t mod 12 + 1)).
    assert (days_of_civil (Year t + Month t / 12) (Month t mod 12 + 1) d = day_number u) as Eu
      by (rewrite days_of_civil_day; lia).
    assert (Day u = d); [|lia].
    unfold Day at 1, Date_of. rewrite <- Eu, civil_of_days_of_civil by lia. done.
Qed.
