(* ===== verification/FloatExact.v ===== *)
(** * Integers below 2^53 in floating point

    The code moves durations and units through [float64].  Integers of at most
    53 bits are exact there: sums, differences, remainders, comparisons and the
    conversion back are those of the integers.  The library of the language is
    modelled in GoFloat; these are its lemmas for that range. *)
From S2P Require Import Prelude GoFloat.

Definition exact_range (z : Z) : Prop := - 2 ^ 53 < z < 2 ^ 53.

Definition digits (p : positive) : Z := Zpos (digits2_pos p).

Lemma digits_bounds p : 2 ^ (digits p - 1) ≤ Zpos p < 2 ^ digits p.
Proof.
  unfold digits. induction p as [p IH|p IH|]; simpl digits2_pos; [| |done].
  all: rewrite Pos2Z.inj_succ, Z.pow_succ_r by lia;
    replace (Z.succ (Zpos (digits2_pos p)) - 1)
      with (Z.succ (Zpos (digits2_pos p) - 1)) by lia;
    rewrite Z.pow_succ_r by lia; lia.
Qed.

Lemma digits_unique p d : 0 < d → 2 ^ (d - 1) ≤ Zpos p < 2 ^ d → digits p = d.
Proof.
  intros Hd Hp. pose proof (digits_bounds p) as Hb.
  assert (0 < digits p) by (unfold digits; lia).
  destruct (Z.lt_trichotomy (digits p) d) as [Hlt|[?|Hlt]]; [exfalso|done|exfalso].
  - assert (2 ^ digits p ≤ 2 ^ (d - 1)) by (apply Z.pow_le_mono_r; lia). lia.
  - assert (2 ^ d ≤ 2 ^ (digits p - 1)) by (apply Z.pow_le_mono_r; lia). lia.
Qed.

Lemma digits_shift p m n :
  0 ≤ n → Zpos m = Zpos p * 2 ^ n → digits m = digits p + n.
Proof.
  intros Hn Em. pose proof (digits_bounds p). 
  assert (0 < digits p) by (unfold digits; lia).
  apply digits_unique; [lia|]. rewrite Em.
  replace (digits p + n - 1) with ((digits p - 1) + n) by lia.
  rewrite !Z.pow_add_r by lia. nia.
Qed.

Lemma digits_small p : Zpos p < 2 ^ 53 → 1 ≤ digits p ≤ 53.
Proof.
  intros Hp. pose proof (digits_bounds p). split; [unfold digits; lia|].
  destruct (Z.le_gt_cases (digits p) 53); [done|exfalso].
  assert (2 ^ 53 ≤ 2 ^ (digits p - 1)) by (apply Z.pow_le_mono_r; lia). lia.
Qed.

(** Mantissa and exponent of a small integer. *)
Definition ce (p : positive) : Z := digits p - 53.
Definition cm (p : positive) : positive := Z.to_pos (Zpos p * 2 ^ (- ce p)).

Lemma ce_range p : Zpos p < 2 ^ 53 → - 52 ≤ ce p ≤ 0.
Proof. intros. pose proof (digits_small p). unfold ce. lia. Qed.

Lemma cm_spec p : Zpos p < 2 ^ 53 → Zpos (cm p) = Zpos p * 2 ^ (- ce p).
Proof.
  intros Hp. pose proof (ce_range p Hp). unfold cm. rewrite Z2Pos.id; [done|].
  assert (0 < 2 ^ (- ce p)) by (apply Z.pow_pos_nonneg; lia). nia.
Qed.

(** ** Shifts of the specification *)

Lemma iter_pos_nat {A} (f : A → A) n x : iter_pos f n x = Nat.iter (Pos.to_nat n) f x.
Proof.
  revert x. induction n as [n IH|n IH|]; intros x; [| |done].
  - cbn [iter_pos]. rewrite !IH, Pos2Nat.inj_xI.
    replace (S (2 * Pos.to_nat n)) with (S (Pos.to_nat n + Pos.to_nat n)) by lia.
    by rewrite Nat.iter_succ_r, Nat.iter_add.
  - cbn [iter_pos]. rewrite !IH, Pos2Nat.inj_xO.
    replace (2 * Pos.to_nat n)%nat with (Pos.to_nat n + Pos.to_nat n)%nat by lia.
    by rewrite Nat.iter_add.
Qed.

Lemma iter_xO p n : Zpos (Nat.iter n xO p) = Zpos p * 2 ^ Z.of_nat n.
Proof.
  induction n as [|n IH]; simpl Nat.iter; [lia|].
  rewrite Nat2Z.inj_succ, Z.pow_succ_r by lia. lia.
Qed.

Lemma iter_shr p n :
  Nat.iter n shr_1 (Build_shr_record (Zpos (Nat.iter n xO p)) false false)
  = Build_shr_record (Zpos p) false false.
Proof.
  induction n as [|n IH]; [done|]. rewrite Nat.iter_succ_r. simpl. apply IH.
Qed.

Lemma shr_exact (m p : positive) e n :
  0 ≤ n → Zpos m = Zpos p * 2 ^ n →
  shr (Build_shr_record (Zpos m) false false) e n
  = (Build_shr_record (Zpos p) false false, e + n).
Proof.
  intros Hn Em. destruct n as [|n|n]; [|simpl|lia].
  - rewrite Z.mul_1_r in Em. injection Em as ->. simpl. by rewrite Z.add_0_r.
  - rewrite iter_pos_nat. f_equal. rewrite <- (iter_shr p (Pos.to_nat n)).
    do 2 f_equal. rewrite iter_xO, positive_nat_Z. done.
Qed.

Lemma shl_align_exact m e e' :
  e' ≤ e → Zpos (fst (shl_align m e e')) = Zpos m * 2 ^ (e - e') ∧
           snd (shl_align m e e') = e'.
Proof.
  intros He. unfold shl_align. destruct (e' - e) as [|d|d] eqn:E; simpl; [|lia|].
  - replace (e - e') with 0 by lia. split; lia.
  - split; [|done]. replace (e - e') with (Zpos d) by lia. assert (Pos.iter xO m d = Nat.iter (Pos.to_nat d) xO m) as ->
      by (by rewrite Pos2Nat.inj_iter).
    rewrite iter_xO.
    by rewrite positive_nat_Z.
Qed.

(** ** Rounding is exact *)

Lemma fexp_small p : Zpos p < 2 ^ 53 → fexp prec64 emax64 (digits p) = ce p.
Proof.
  intros Hp. pose proof (digits_small p Hp). unfold fexp, emin, prec64, emax64, ce.
  lia.
Qed.

Lemma shr_fexp_exact p m e :
  Zpos p < 2 ^ 53 → e ≤ ce p → Zpos m = Zpos p * 2 ^ (- e) →
  shr_fexp prec64 emax64 (Zpos m) e loc_Exact
  = (Build_shr_record (Zpos (cm p)) false false, ce p).
Proof.
  intros Hp He Em. pose proof (ce_range p Hp). unfold shr_fexp. simpl Zdigits2.
  change (Zpos (digits2_pos m)) with (digits m).
  rewrite (digits_shift p m (- e)) by (done || lia).
  replace (digits p + - e + e) with (digits p) by lia.
  rewrite fexp_small by done. simpl shr_record_of_loc.
  rewrite (shr_exact m (cm p)); [f_equal; lia|lia|].
  rewrite cm_spec, Em, <- Z.mul_assoc, <- Z.pow_add_r by (done || lia).
  do 2 f_equal. lia.
Qed.

Lemma binary_round_aux_exact s p m e :
  Zpos p < 2 ^ 53 → e ≤ ce p → Zpos m = Zpos p * 2 ^ (- e) →
  binary_round_aux prec64 emax64 s (Zpos m) e loc_Exact = S754_finite s (cm p) (ce p).
Proof.
  intros Hp He Em. unfold binary_round_aux.
  rewrite (shr_fexp_exact p m e) by done. simpl loc_of_shr_record.
  simpl round_nearest_even.
  rewrite (shr_fexp_exact p (cm p) (ce p)) by (done || by apply cm_spec || lia).
  simpl. pose proof (ce_range p Hp).
  by replace (ce p <=? emax64 - prec64) with true by (unfold emax64, prec64; lia).
Qed.

Lemma binary_round_exact s p m e :
  Zpos p < 2 ^ 53 → e ≤ 0 → Zpos m = Zpos p * 2 ^ (- e) →
  binary_round prec64 emax64 s m e = S754_finite s (cm p) (ce p).
Proof.
  intros Hp He Em. pose proof (ce_range p Hp). unfold binary_round.
  change (Zpos (digits2_pos m)) with (digits m).
  rewrite (digits_shift p m (- e)) by (done || lia).
  replace (digits p + - e + e) with (digits p) by lia.
  rewrite fexp_small by done. destruct (Z.le_gt_cases (ce p) e) as [Hc|Hc].
  - pose proof (shl_align_exact m e (ce p) Hc) as [Hm Hs].
    destruct (shl_align m e (ce p)) as [mz ez]. simpl in *. subst ez.
    apply binary_round_aux_exact; [done|lia|].
    rewrite Hm, Em, <- Z.mul_assoc, <- Z.pow_add_r by lia. do 2 f_equal. lia.
  - unfold shl_align. destruct (ce p - e) eqn:E; [lia| |lia].
    apply binary_round_aux_exact; [done|lia|done].
Qed.

Lemma binary_normalize_exact z m e :
  exact_range z → e ≤ 0 → m = z * 2 ^ (- e) →
  binary_normalize prec64 emax64 m e false = f_of_Z z.
Proof.
  unfold exact_range. intros Hz He Em.
  assert (0 < 2 ^ (- e)) by (apply Z.pow_pos_nonneg; lia).
  unfold f_of_Z, binary_normalize. destruct z as [|p|p], m as [|m|m]; try done; try nia.
  all: rewrite !(binary_round_exact _ p) by lia; done.
Qed.

Lemma f_of_Z_pos p :
  Zpos p < 2 ^ 53 → f_of_Z (Zpos p) = S754_finite false (cm p) (ce p).
Proof. intros. unfold f_of_Z. simpl. apply binary_round_exact; lia. Qed.
Lemma f_of_Z_neg p :
  Zpos p < 2 ^ 53 → f_of_Z (Zneg p) = S754_finite true (cm p) (ce p).
Proof. intros. unfold f_of_Z. simpl. apply binary_round_exact; lia. Qed.

(** ** Arithmetic on exact integers *)

(** A small integer seen as a signed mantissa at an exponent. *)
Definition smant (x : float64) : Z :=
  match x with S754_finite s m _ => cond_Zopp s (Zpos m) | _ => 0 end.
Definition sexp (x : float64) : Z :=
  match x with S754_finite _ _ e => e | _ => 0 end.

Lemma f_of_Z_0 : f_of_Z 0 = S754_zero false.
Proof. done. Qed.

(** Every non-zero small integer is a finite number with that value. *)
Lemma f_of_Z_finite z :
  exact_range z → z ≠ 0 →
  ∃ s m e, f_of_Z z = S754_finite s m e ∧ - 52 ≤ e ≤ 0 ∧ s = (z <? 0) ∧
           Zpos m = Z.abs z * 2 ^ (- e).
Proof.
  unfold exact_range. intros Hz Hz0. destruct z as [|p|p]; [done|..].
  - exists false, (cm p), (ce p). rewrite f_of_Z_pos by lia.
    split_and!; [done|apply ce_range; lia..|done|]. rewrite cm_spec; lia.
  - exists true, (cm p), (ce p). rewrite f_of_Z_neg by lia.
    split_and!; [done|apply ce_range; lia..|done|]. rewrite cm_spec; lia.
Qed.

Lemma cond_Zopp_abs z k : cond_Zopp (z <? 0) (Z.abs z * k) = z * k.
Proof. unfold cond_Zopp. destruct (Z.ltb_spec z 0); nia. Qed.

(** The aligned mantissa of a small integer. *)
Lemma aligned_mant z s m e ez :
  Zpos m = Z.abs z * 2 ^ (- e) → s = (z <? 0) → ez ≤ e → e ≤ 0 →
  cond_Zopp s (Zpos (fst (shl_align m e ez))) = z * 2 ^ (- ez).
Proof.
  intros Hm -> Hez He. rewrite (proj1 (shl_align_exact m e ez Hez)), Hm.
  rewrite <- Z.mul_assoc, <- Z.pow_add_r by lia.
  replace (- e + (e - ez)) with (- ez) by lia. apply cond_Zopp_abs.
Qed.

Lemma fadd_exact a b :
  exact_range a → exact_range b → exact_range (a + b) →
  fadd (f_of_Z a) (f_of_Z b) = f_of_Z (a + b).
Proof.
  intros Ha Hb Hab. destruct (decide (a = 0)) as [->|Ha0].
  { rewrite f_of_Z_0. destruct (decide (b = 0)) as [->|Hb0]; [done|].
    rewrite Z.add_0_l.
    destruct (f_of_Z_finite b Hb Hb0) as (s & m & e & -> & _). done. }
  destruct (f_of_Z_finite a Ha Ha0) as (s & m & e & E & He & Hs & Hm).
  destruct (decide (b = 0)) as [->|Hb0].
  { rewrite Z.add_0_r, E. done. }
  destruct (f_of_Z_finite b Hb Hb0) as (s' & m' & e' & E' & He' & Hs' & Hm').
  rewrite E, E'. unfold fadd, SFadd. cbv zeta.
  rewrite (aligned_mant a s m e), (aligned_mant b s' m' e') by (done || lia).
  apply binary_normalize_exact; [done|lia|lia].
Qed.

Lemma fneg_exact z :
  exact_range z → z ≠ 0 → fneg (f_of_Z z) = f_of_Z (- z).
Proof.
  unfold exact_range. intros Hz Hz0. destruct z as [|p|p]; [done|..].
  - change (- Zpos p) with (Zneg p). rewrite f_of_Z_pos, f_of_Z_neg by lia. done.
  - change (- Zneg p) with (Zpos p). rewrite f_of_Z_pos, f_of_Z_neg by lia. done.
Qed.

Lemma fsub_exact a b :
  exact_range a → exact_range b → exact_range (a - b) →
  fsub (f_of_Z a) (f_of_Z b) = f_of_Z (a - b).
Proof.
  intros Ha Hb Hab. destruct (decide (b = 0)) as [->|Hb0].
  { rewrite Z.sub_0_r, f_of_Z_0. destruct (decide (a = 0)) as [->|Ha0]; [done|].
    destruct (f_of_Z_finite a Ha Ha0) as (s & m & e & -> & _). done. }
  destruct (decide (a = 0)) as [->|Ha0].
  { pose proof (fneg_exact b Hb Hb0) as E. rewrite f_of_Z_0.
    destruct (f_of_Z_finite b Hb Hb0) as (s & m & e & Eb & _). rewrite Eb in *.
    exact E. }
  destruct (f_of_Z_finite a Ha Ha0) as (s & m & e & E & He & Hs & Hm).
  destruct (f_of_Z_finite b Hb Hb0) as (s' & m' & e' & E' & He' & Hs' & Hm').
  rewrite E, E'. unfold fsub, SFsub. cbv zeta.
  rewrite (aligned_mant a s m e), (aligned_mant b s' m' e') by (done || lia).
  apply binary_normalize_exact; [done|lia|lia].
Qed.

Lemma Mod_exact a b :
  exact_range a → exact_range b → b ≠ 0 →
  (Z.rem a b ≠ 0 → Mod (f_of_Z a) (f_of_Z b) = f_of_Z (Z.rem a b)) ∧
  (Z.rem a b = 0 → ∃ s, Mod (f_of_Z a) (f_of_Z b) = S754_zero s).
Proof.
  intros Ha Hb Hb0.
  destruct (f_of_Z_finite b Hb Hb0) as (s' & m' & e' & E' & He' & Hs' & Hm').
  destruct (decide (a = 0)) as [->|Ha0].
  { rewrite Z.rem_0_l by done. rewrite E', f_of_Z_0. split; [done|eauto]. }
  destruct (f_of_Z_finite a Ha Ha0) as (s & m & e & E & He & Hs & Hm).
  rewrite E, E'. unfold Mod. cbv zeta. set (ez := Z.min e e').
  rewrite !Z.shiftl_mul_pow2, Hm, Hm' by lia.
  rewrite <- !Z.mul_assoc, <- !Z.pow_add_r by lia.
  replace (- e + (e - ez)) with (- ez) by lia.
  replace (- e' + (e' - ez)) with (- ez) by lia.
  assert (0 < 2 ^ (- ez)) by (apply Z.pow_pos_nonneg; lia).
  rewrite Z.mul_mod_distr_r by lia.
  assert (Z.rem a b = cond_Zopp s (Z.abs a mod Z.abs b)) as Er.
  { rewrite <- Z.rem_mod_nonneg, Hs by lia. unfold cond_Zopp.
    destruct (Z.ltb_spec a 0) as [Hlt|Hlt].
    - rewrite (Z.abs_neq a) by lia. rewrite Z.rem_opp_l, Z.opp_involutive by lia.
      destruct (Z.abs_eq_or_opp b) as [->| ->]; [done|by rewrite Z.rem_opp_r].
    - rewrite (Z.abs_eq a) by lia.
      destruct (Z.abs_eq_or_opp b) as [->| ->]; [done|by rewrite Z.rem_opp_r]. }
  unfold exact_range in *.
  pose proof (Z.mod_pos_bound (Z.abs a) (Z.abs b) ltac:(lia)) as Hr.
  destruct (Z.abs a mod Z.abs b) as [|q|q] eqn:Eq; [|..|lia].
  - rewrite Er. split; [by destruct s|eauto].
  - split; [intros _|rewrite Er; by destruct s].
    destruct (Z.pos q * 2 ^ (- ez)) as [|t|t] eqn:Et; [lia| |lia].
    rewrite (binary_round_exact s q) by lia. rewrite Er.
    destruct s; [change (cond_Zopp true (Zpos q)) with (Zneg q); rewrite f_of_Z_neg
                |change (cond_Zopp false (Zpos q)) with (Zpos q); rewrite f_of_Z_pos];
      done || lia.
Qed.

Lemma f_to_int64_exact z : exact_range z → f_to_int64 (f_of_Z z) = z.
Proof.
  intros Hz. destruct (decide (z = 0)) as [->|Hz0]; [done|].
  destruct (f_of_Z_finite z Hz Hz0) as (s & m & e & E & He & Hs & Hm).
  assert (f_trunc_Z (f_of_Z z) = z) as Et.
  { rewrite E. simpl. destruct (Z.leb_spec 0 e).
    - assert (e = 0) as -> by lia. simpl in *. rewrite Hm, Hs.
      rewrite Z.shiftl_0_r. change (2 ^ (- 0)) with 1. destruct (Z.ltb_spec z 0); lia.
    - assert (2 ^ (- e) ≠ 0) by (apply Z.pow_nonzero; lia).
      rewrite Z.shiftr_div_pow2, Hm, Z.div_mul, Hs by (done || lia).
      destruct (Z.ltb_spec z 0); lia. }
  unfold f_to_int64. rewrite Et. rewrite bool_decide_eq_true_2.
  - by rewrite E.
  - unfold exact_range, int64_range, min_int64, max_int64 in *. lia.
Qed.

Lemma feqb_f0 x : feqb x f0 = match x with S754_zero _ => true | _ => false end.
Proof. by destruct x as [| [] | |[] ]. Qed.

Lemma feqb_f0_exact z : exact_range z → feqb (f_of_Z z) f0 = (z =? 0).
Proof.
  intros Hz. rewrite feqb_f0. destruct (Z.eqb_spec z 0) as [->|Hz0]; [done|].
  by destruct (f_of_Z_finite z Hz Hz0) as (s & m & e & -> & _).
Qed.

(** ** Products, exact quotients and integral parts *)

(** The canonical representation of a small integer. *)
Lemma f_of_Z_canonical z :
  exact_range z → z ≠ 0 →
  ∃ p, Zpos p = Z.abs z ∧ Zpos p < 2 ^ 53 ∧ f_of_Z z = S754_finite (z <? 0) (cm p) (ce p).
Proof.
  unfold exact_range. intros Hz Hz0. destruct z as [|p|p]; [done|..]; exists p;
    (split_and!; [done|lia|]); [apply f_of_Z_pos|apply f_of_Z_neg]; lia.
Qed.

Lemma digits_mul p q : digits p + digits q - 1 ≤ digits (p * q) ≤ digits p + digits q.
Proof.
  pose proof (digits_bounds p) as [Hp1 Hp2]. pose proof (digits_bounds q) as [Hq1 Hq2].
  pose proof (digits_bounds (p * q)) as [H1 H2].
  assert (0 < digits p ∧ 0 < digits q ∧ 0 < digits (p * q)) as (?&?&?) by (unfold digits; lia).
  rewrite Pos2Z.inj_mul in *. split.
  - assert (2 ^ (digits p - 1 + (digits q - 1)) < 2 ^ digits (p * q)) as Hlt.
    { rewrite Z.pow_add_r by lia. nia. }
    apply Z.pow_lt_mono_r_iff in Hlt; lia.
  - assert (2 ^ (digits (p * q) - 1) < 2 ^ (digits p + digits q)) as Hlt.
    { rewrite Z.pow_add_r by lia. nia. }
    apply Z.pow_lt_mono_r_iff in Hlt; lia.
Qed.

Lemma xorb_sign a b : a ≠ 0 → b ≠ 0 → xorb (a <? 0) (b <? 0) = (a * b <? 0).
Proof. intros. destruct (Z.ltb_spec a 0), (Z.ltb_spec b 0), (Z.ltb_spec (a * b) 0); simpl; nia. Qed.

(** Rounding the absolute value of a small integer. *)
Lemma binary_round_aux_of_Z z m e :
  exact_range z → z ≠ 0 → (∀ p, Zpos p = Z.abs z → e ≤ ce p) → Zpos m = Z.abs z * 2 ^ (- e) →
  binary_round_aux prec64 emax64 (z <? 0) (Zpos m) e loc_Exact = f_of_Z z.
Proof.
  intros Hz Hz0 He Hm. destruct (f_of_Z_canonical z Hz Hz0) as (p & Hp & Hlt & ->).
  apply binary_round_aux_exact; [done|by apply He|by rewrite Hp].
Qed.

Lemma fmul_exact a b :
  exact_range a → exact_range b → exact_range (a * b) → a ≠ 0 → b ≠ 0 →
  fmul (f_of_Z a) (f_of_Z b) = f_of_Z (a * b).
Proof.
  intros Ha Hb Hab Ha0 Hb0.
  destruct (f_of_Z_canonical a Ha Ha0) as (p & Hp & Hpl & ->).
  destruct (f_of_Z_canonical b Hb Hb0) as (q & Hq & Hql & ->).
  unfold fmul, SFmul. rewrite xorb_sign by done.
  pose proof (ce_range p Hpl). pose proof (ce_range q Hql).
  apply binary_round_aux_of_Z; [done|nia|..].
  - intros r Hr. rewrite Z.abs_mul, <- Hp, <- Hq in Hr.
    assert (r = (p * q)%positive) as -> by lia. pose proof (digits_mul p q). unfold ce in *.
    pose proof (digits_small p Hpl). pose proof (digits_small q Hql). lia.
  - rewrite Pos2Z.inj_mul, !cm_spec, Hp, Hq, Z.abs_mul by done.
    replace (- (ce p + ce q)) with (- ce p + - ce q) by lia. rewrite Z.pow_add_r by lia. lia.
Qed.

Lemma new_location_exact n : new_location n 0 = loc_Exact.
Proof. unfold new_location, new_location_even, new_location_odd. by destruct (Z.even n). Qed.

Lemma digits_cm p : Zpos p < 2 ^ 53 → digits (cm p) = 53.
Proof.
  intros Hp. pose proof (ce_range p Hp). rewrite (digits_shift p (cm p) (- ce p)).
  - unfold ce. lia.
  - lia.
  - by apply cm_spec.
Qed.

(** A quotient without remainder. *)
Lemma div_core_exact p q :
  Zpos (p * q) < 2 ^ 53 →
  ∃ m e, SFdiv_core_binary prec64 emax64 (Zpos (cm (p * q))) (ce (p * q)) (Zpos (cm q)) (ce q)
         = (Zpos m, e, loc_Exact) ∧ e ≤ ce p ∧ Zpos m = Zpos p * 2 ^ (- e).
Proof.
  intros Hpq. assert (Zpos q < 2 ^ 53 ∧ Zpos p < 2 ^ 53) as [Hq Hp] by lia.
  pose proof (digits_mul p q) as Hd. pose proof (digits_small _ Hpq).
  pose proof (digits_small _ Hq). pose proof (digits_small _ Hp).
  pose proof (ce_range _ Hpq). pose proof (ce_range _ Hq).
  unfold SFdiv_core_binary. simpl Zdigits2.
  change (Zpos (digits2_pos (cm (p * q)))) with (digits (cm (p * q))).
  change (Zpos (digits2_pos (cm q))) with (digits (cm q)). rewrite !digits_cm by done.
  set (e' := Z.min _ _).
  assert (e' ≤ ce p ∧ e' ≤ 0 ∧ e' ≤ ce (p * q) - ce q) as (He1 & He2 & He3).
  { subst e'. unfold fexp, emin, prec64, emax64, ce in *. lia. }
  set (s := ce (p * q) - ce q - e').
  assert (match s with Z0 => Zpos (cm (p * q)) | Zpos _ => Z.shiftl (Zpos (cm (p * q))) s
                     | Zneg _ => 0 end = Zpos (cm q) * (Zpos p * 2 ^ (- e'))) as ->.
  { transitivity (Zpos (cm (p * q)) * 2 ^ s).
    - destruct s eqn:Es; [lia|apply Z.shiftl_mul_pow2; lia|lia].
    - rewrite !cm_spec, Pos2Z.inj_mul by done.
      replace (- e') with (- ce (p * q) + s + ce q) by lia. rewrite !Z.mul_assoc.
      rewrite (Z.mul_comm (Zpos q * 2 ^ (- ce q)) (Zpos p)), !Z.mul_assoc.
      rewrite <- (Z.mul_assoc _ (2 ^ (- ce q))), <- Z.pow_add_r by lia.
      rewrite <- (Z.mul_assoc _ (2 ^ (- ce (p * q)))), <- Z.pow_add_r by lia.
      do 2 f_equal. lia. }
  destruct (Zpos p * 2 ^ (- e')) as [|m|m] eqn:Em;
    [pose proof (Z.pow_pos_nonneg 2 (- e')); lia| |pose proof (Z.pow_pos_nonneg 2 (- e')); lia].
  exists m, e'. split; [|done].
  pose proof (Z_div_mod_full (Zpos (cm q) * Zpos m) (Zpos (cm q)) ltac:(done)) as Hqr.
  destruct (Z.div_eucl _ _) as [d r]. destruct Hqr as [Hqr Hr].
  assert (r = 0) as ->.
  { unfold Remainder in Hr. assert (r = Zpos (cm q) * (Zpos m - d)) as -> by lia. nia. }
  rewrite new_location_exact. assert (d = Zpos m) as -> by nia. done.
Qed.

Lemma fdiv_exact a b :
  exact_range (a * b) → a ≠ 0 → b ≠ 0 → fdiv (f_of_Z (a * b)) (f_of_Z b) = f_of_Z a.
Proof.
  intros Hab Ha0 Hb0. assert (exact_range a ∧ exact_range b) as [Ha Hb].
  { unfold exact_range in *. nia. }
  destruct (f_of_Z_canonical (a * b) Hab) as (r & Hr & Hrl & ->); [nia|].
  destruct (f_of_Z_canonical b Hb Hb0) as (q & Hq & Hql & ->).
  destruct (Z.abs a) as [|p|p] eqn:Hp; [lia| |lia].
  assert (r = (p * q)%positive) as -> by lia.
  unfold fdiv, SFdiv. destruct (div_core_exact p q Hrl) as (m & e & -> & He & Hm).
  replace (xorb (a * b <? 0) (b <? 0)) with (a <? 0).
  - apply binary_round_aux_of_Z; [done|done| |by rewrite Hp].
    intros p' Hp'. rewrite Hp in Hp'. by injection Hp' as ->.
  - destruct (Z.ltb_spec a 0), (Z.ltb_spec b 0), (Z.ltb_spec (a * b) 0); simpl; nia.
Qed.

Lemma fsub_self z : exact_range z → fsub (f_of_Z z) (f_of_Z z) = f0.
Proof.
  intros Hz. rewrite fsub_exact, Z.sub_diag by (done || rewrite Z.sub_diag; done). done.
Qed.

Lemma trunc_exact z s m e :
  exact_range z → f_of_Z z = S754_finite s m e → trunc_finite s m e = f_of_Z z.
Proof.
  intros Hz E. assert (z ≠ 0) as Hz0 by (intros ->; done).
  destruct (f_of_Z_canonical z Hz Hz0) as (p & Hp & Hpl & E'). rewrite E' in *.
  injection E as <- <- <-. unfold trunc_finite. pose proof (ce_range p Hpl) as Hc.
  destruct (Z.leb_spec 0 (ce p)); [done|]. rewrite Z.shiftr_div_pow2, cm_spec by (done || lia).
  rewrite Z.div_mul by (apply Z.pow_nonzero; lia).
  rewrite (binary_round_exact _ p) by (done || lia). done.
Qed.

Lemma Modf_exact z : exact_range z → ∃ s, Modf (f_of_Z z) = (f_of_Z z, S754_zero s).
Proof.
  intros Hz. destruct (decide (z = 0)) as [->|Hz0]; [by exists false|].
  destruct (f_of_Z_canonical z Hz Hz0) as (p & Hp & Hpl & E). exists (z <? 0).
  pose proof (trunc_exact z _ _ _ Hz E) as Et. pose proof (fsub_self z Hz) as Es.
  rewrite E in *. unfold Modf. cbv zeta. rewrite Et, Es. done.
Qed.

Lemma Floor_exact z : exact_range z → Floor (f_of_Z z) = f_of_Z z.
Proof.
  intros Hz. destruct (decide (z = 0)) as [->|Hz0]; [done|].
  destruct (f_of_Z_canonical z Hz Hz0) as (p & Hp & Hpl & E).
  destruct (Z.ltb_spec z 0).
  - pose proof (f_of_Z_pos p Hpl) as Ep. rewrite E. unfold Floor. rewrite <- Ep.
    destruct (Modf_exact (Zpos p)) as [s ->]; [unfold exact_range; lia|]. rewrite Ep.
    by destruct s.
  - destruct (Modf_exact z Hz) as [s Hm]. rewrite E in *. unfold Floor. by rewrite Hm.
Qed.

Lemma fleb_exact a b : exact_range a → exact_range b → fleb (f_of_Z a) (f_of_Z b) = (a <=? b).
Proof.
  intros Ha Hb. destruct (decide (a = 0)) as [->|Ha0], (decide (b = 0)) as [->|Hb0]; [done|..].
  - destruct (f_of_Z_canonical b Hb Hb0) as (q & Hq & Hql & ->).
    destruct (Z.ltb_spec b 0), (Z.leb_spec 0 b); done || lia.
  - destruct (f_of_Z_canonical a Ha Ha0) as (p & Hp & Hpl & ->).
    destruct (Z.ltb_spec a 0), (Z.leb_spec a 0); done || lia.
  - destruct (f_of_Z_canonical a Ha Ha0) as (p & Hp & Hpl & ->).
    destruct (f_of_Z_canonical b Hb Hb0) as (q & Hq & Hql & ->).
    assert (∀ p q, Zpos p < 2 ^ 53 → Zpos q < 2 ^ 53 → lex_ltb (1, ce p, Zpos (cm p)) (1, ce q, Zpos (cm q)) = (Zpos p <? Zpos q)) as Hlex.
    { clear. intros p q Hp Hq. pose proof (digits_bounds p). pose proof (digits_bounds q).
      unfold lex_ltb. rewrite Z.ltb_irrefl, Z.eqb_refl. simpl.
      destruct (Z.lt_trichotomy (digits p) (digits q)) as [Hlt|[Heq|Hgt]].
      - assert (2 ^ digits p ≤ 2 ^ (digits q - 1)) by (apply Z.pow_le_mono_r; lia).
        unfold ce. lia.
      - rewrite !cm_spec by done. unfold ce. rewrite Heq.
        pose proof (digits_small q Hq).
        assert (0 < 2 ^ (- (digits q - 53))) by (apply Z.pow_pos_nonneg; lia).
        rewrite Z.ltb_irrefl, Z.eqb_refl. simpl.
        destruct (Z.ltb_spec (Zpos p) (Zpos q)); [apply Z.ltb_lt|apply Z.ltb_ge]; nia.
      - assert (2 ^ digits q ≤ 2 ^ (digits p - 1)) by (apply Z.pow_le_mono_r; lia).
        unfold ce. lia. }
    rewrite fleb_key by done. pose proof (Hlex p q Hpl Hql) as H1. pose proof (Hlex q p Hql Hpl) as H2.
    simpl in *. destruct (Z.ltb_spec a 0), (Z.ltb_spec b 0); simpl in *; lia.
Qed.
Lemma fgeb_exact a b : exact_range a → exact_range b → fgeb (f_of_Z a) (f_of_Z b) = (b <=? a).
Proof. intros. by apply fleb_exact. Qed.
