(* ===== verification/Guardian.v ===== *)
(** * Guardian and concurrent requests

    [guardian/guardian.go]: locks named by strings, handed over through channels of
    capacity one, created on first use and deleted with the last user; and
    [utils/concureqs.go], the limit on concurrent requests.

    The parts of [lockItem] and [unlockItem] between taking and releasing the mutex
    are atomic; the operations on the channel after it are steps of their own, so
    another goroutine can run in between.  A goroutine keeps its pointer to the lock
    when the entry of the map is deleted, so the locks live in a heap. *)
From S2P Require Import Prelude GoStrings.

(** ** The locker *)

(** A channel of capacity one holds 0 or 1 tokens. *)
Record itemLock := mkItemLock { il_lk : nat; il_cnt : Z }.

Definition loc := nat.

Record GuardianLocker := mkGuardian {
  gl_locks : gmap string loc;
  gl_heap : list itemLock;
  gl_refs : gmap string (list string)
}.

Definition new_guardian : GuardianLocker := mkGuardian ∅ [] ∅.

Definition gl_set (gl : GuardianLocker) (locks : gmap string loc) (heap : list itemLock)
    : GuardianLocker := mkGuardian locks heap (gl_refs gl).

Inductive lock_answer := NoLock | Acquired | MustWait (l : loc).

(** The lock of an item, made with a token in its channel when there is none. *)
Definition get_lock (itmID : string) (gl : GuardianLocker) : GuardianLocker * loc :=
  match gl_locks gl !! itmID with
  | Some l => (gl, l)
  | None =>
      let l := length (gl_heap gl) in
      (gl_set gl (<[itmID := l]> (gl_locks gl)) (gl_heap gl ++ [mkItemLock 1 0]), l)
  end.

(** [lockItem] up to the release of the mutex. *)
Definition lock_enter (itmID : string) (gl : GuardianLocker)
    : GuardianLocker * lock_answer :=
  if decide (itmID = "") then (gl, NoLock)
  else
    let '(gl, l) := get_lock itmID gl in
    match gl_heap gl !! l with
    | None => (gl, NoLock)
    | Some il =>
        let cnt := il_cnt il + 1 in
        match il_lk il with
        | S lk => (gl_set gl (gl_locks gl) (<[l := mkItemLock lk cnt]> (gl_heap gl)), Acquired)
        | O => (gl_set gl (gl_locks gl) (<[l := mkItemLock O cnt]> (gl_heap gl)), MustWait l)
        end
    end.

(** [<-itmLock.lk]; [None] while the channel is empty. *)
Definition lock_wait (l : loc) (gl : GuardianLocker) : option GuardianLocker :=
  match gl_heap gl !! l with
  | Some (mkItemLock (S lk) cnt) =>
      Some (gl_set gl (gl_locks gl) (<[l := mkItemLock lk cnt]> (gl_heap gl)))
  | _ => None
  end.

(** [unlockItem] up to the release of the mutex. *)
Definition unlock_enter (itmID : string) (gl : GuardianLocker)
    : GuardianLocker * option loc :=
  match gl_locks gl !! itmID with
  | None => (gl, None)
  | Some l =>
      match gl_heap gl !! l with
      | None => (gl, None)
      | Some il =>
          let cnt := il_cnt il - 1 in
          (gl_set gl (if cnt =? 0 then delete itmID (gl_locks gl) else gl_locks gl)
             (<[l := mkItemLock (il_lk il) cnt]> (gl_heap gl)), Some l)
      end
  end.

(** [itmLock.lk <- struct{}{}]; [None] while the channel is full. *)
Definition unlock_send (l : loc) (gl : GuardianLocker) : option GuardianLocker :=
  match gl_heap gl !! l with
  | Some (mkItemLock O cnt) =>
      Some (gl_set gl (gl_locks gl) (<[l := mkItemLock 1 cnt]> (gl_heap gl)))
  | _ => None
  end.

(** ** Any number of goroutines

    A goroutine is outside these functions, or waits for a lock, or is about to put
    the token back.  [owners] lists the locks acquired and not yet given back; the
    code keeps no such record.  The one rule the clients obey is that they unlock
    what is locked, maybe by another goroutine, and once. *)
Inductive activity := Idle | Waiting (id : string) (l : loc) | Sending (l : loc).

#[export] Instance activity_eq_dec : EqDecision activity.
Proof. solve_decision. Defined.

Record system := mkSystem {
  sy_gl : GuardianLocker; sy_threads : list activity; sy_owners : list string }.

Inductive step : system → system → Prop :=
  | step_spawn gl ths os : step (mkSystem gl ths os) (mkSystem gl (ths ++ [Idle]) os)
  | step_acquire gl gl' ths os i id :
      ths !! i = Some Idle → lock_enter id gl = (gl', Acquired) →
      step (mkSystem gl ths os) (mkSystem gl' ths (id :: os))
  | step_enqueue gl gl' ths os i id l :
      ths !! i = Some Idle → lock_enter id gl = (gl', MustWait l) →
      step (mkSystem gl ths os) (mkSystem gl' (<[i := Waiting id l]> ths) os)
  | step_receive gl gl' ths os i id l :
      ths !! i = Some (Waiting id l) → lock_wait l gl = Some gl' →
      step (mkSystem gl ths os) (mkSystem gl' (<[i := Idle]> ths) (id :: os))
  | step_unlock gl gl' ths os os' i id l :
      ths !! i = Some Idle → os ≡ₚ id :: os' → unlock_enter id gl = (gl', Some l) →
      step (mkSystem gl ths os) (mkSystem gl' (<[i := Sending l]> ths) os')
  | step_send gl gl' ths os i l :
      ths !! i = Some (Sending l) → unlock_send l gl = Some gl' →
      step (mkSystem gl ths os) (mkSystem gl' (<[i := Idle]> ths) os).

Definition reachable (s : system) : Prop := rtc step (mkSystem new_guardian [] []) s.

(** *** The invariant *)

Definition waits (id : string) (a : activity) : bool :=
  match a with Waiting id' _ => bool_decide (id' = id) | _ => false end.
Definition sends (l : loc) (a : activity) : bool :=
  match a with Sending l' => bool_decide (l' = l) | _ => false end.
Definition owns (id id' : string) : bool := bool_decide (id' = id).

(** A lock in the map counts its users; its token is in the channel, with an owner or
    on its way back.  A lock no longer in the map has nobody waiting for it. *)
Record inv (s : system) : Prop := {
  inv_absent id : gl_locks (sy_gl s) !! id = None →
    count (owns id) (sy_owners s) = 0%nat;
  inv_present id l : gl_locks (sy_gl s) !! id = Some l →
    ∃ il, gl_heap (sy_gl s) !! l = Some il ∧
      il_cnt il = Z.of_nat (count (waits id) (sy_threads s) + count (owns id) (sy_owners s)) ∧
      (il_lk il + count (sends l) (sy_threads s) + count (owns id) (sy_owners s) = 1)%nat;
  inv_inj id id' l : gl_locks (sy_gl s) !! id = Some l →
    gl_locks (sy_gl s) !! id' = Some l → id = id';
  inv_waiting i id l : sy_threads s !! i = Some (Waiting id l) →
    gl_locks (sy_gl s) !! id = Some l;
  inv_dropped l il : gl_heap (sy_gl s) !! l = Some il →
    (∀ id, gl_locks (sy_gl s) !! id ≠ Some l) →
    (il_lk il + count (sends l) (sy_threads s) = 1)%nat;
  inv_beyond l : (length (gl_heap (sy_gl s)) ≤ l)%nat → count (sends l) (sy_threads s) = 0%nat
}.

(** Every lock in the map has a user. *)
Definition all_used (gl : GuardianLocker) : Prop :=
  ∀ id l il, gl_locks gl !! id = Some l → gl_heap gl !! l = Some il → 0 < il_cnt il.

Lemma inv_initial : inv (mkSystem new_guardian [] []) ∧ all_used new_guardian.
Proof. split; [split|]; done. Qed.

Lemma inv_no_waiter s id : inv s → gl_locks (sy_gl s) !! id = None →
  count (waits id) (sy_threads s) = 0%nat.
Proof.
  intros Hi Hn. destruct (count (waits id) (sy_threads s)) eqn:E; [done|].
  destruct (count_pos (waits id) (sy_threads s)) as (i & a & Ha & Hw); [lia|].
  destruct a as [|id' l|]; try done. apply bool_decide_eq_true in Hw as ->.
  apply (inv_waiting _ Hi) in Ha. congruence.
Qed.

Lemma lock_bounds s id l : inv s → gl_locks (sy_gl s) !! id = Some l →
  (l < length (gl_heap (sy_gl s)))%nat.
Proof.
  intros Hi Hl. destruct (inv_present _ Hi _ _ Hl) as (il & Hil & _).
  by eapply lookup_lt_Some.
Qed.

(** Making the lock of an item. *)
Lemma get_lock_inv gl ths os id gl' l :
  inv (mkSystem gl ths os) → get_lock id gl = (gl', l) →
  inv (mkSystem gl' ths os) ∧ gl_locks gl' !! id = Some l ∧
  (all_used gl → ∀ id' l' il, id' ≠ id →
     gl_locks gl' !! id' = Some l' → gl_heap gl' !! l' = Some il → 0 < il_cnt il).
Proof.
  intros Hi. unfold get_lock. destruct (gl_locks gl !! id) as [l0|] eqn:El.
  { intros [= <- <-]. split_and!; [done..|]. intros Hu id' l' il _. apply Hu. }
  intros [= <- <-]. pose proof (inv_absent _ Hi id El) as Ho.
  pose proof (inv_no_waiter _ _ Hi El) as Hw.
  assert (∀ id' l', gl_locks gl !! id' = Some l' → l' ≠ length (gl_heap gl)) as Hlt
    by (intros id' l' Hl; pose proof (lock_bounds _ _ _ Hi Hl); simpl in *; lia).
  simpl in *. split_and!; [|apply lookup_insert_eq|].
  - split; simpl.
    + intros id0 Hn. apply lookup_insert_None in Hn as [Hn _]. by apply (inv_absent _ Hi).
    + intros id0 l0 [[<- <-]|[Hne Hl]]%lookup_insert_Some.
      * exists (mkItemLock 1 0). rewrite lookup_app_r, Nat.sub_diag by lia. simpl.
        rewrite Hw, Ho, (inv_beyond _ Hi) by (simpl; lia). done.
      * destruct (inv_present _ Hi _ _ Hl) as (il & Hil & Hc). exists il. split; [|done].
        by apply lookup_app_l_Some.
    + intros id1 id2 l0 [[<- <-]|[Hne Hl]]%lookup_insert_Some
        [[<- Hl']|[Hne' Hl']]%lookup_insert_Some; try done.
      * by destruct (Hlt _ _ Hl').
      * subst l0. by destruct (Hlt _ _ Hl).
      * by eapply (inv_inj _ Hi).
    + intros i id0 l0 Hw0. apply (inv_waiting _ Hi) in Hw0. simpl in Hw0.
      rewrite lookup_insert_ne; congruence.
    + intros l0 il Hl Hno. apply lookup_app_Some in Hl as [Hl|[Hge Hl]].
      * apply (inv_dropped _ Hi _ _ Hl). intros id0 Hl0. apply (Hno id0). simpl in Hl0.
        rewrite lookup_insert_ne; congruence.
      * destruct (l0 - length (gl_heap gl))%nat eqn:E; [|done].
        destruct (Hno id). rewrite lookup_insert_eq. f_equal. lia.
    + intros l0 Hge. rewrite length_app in Hge. apply (inv_beyond _ Hi). simpl in *. lia.
  - intros Hu id' l' il Hne Hl Hil. rewrite lookup_insert_ne in Hl by done.
    apply (Hu id' l'); [done|]. pose proof (lock_bounds _ _ _ Hi Hl) as Hb. simpl in Hb.
    by rewrite lookup_app_l in Hil.
Qed.

(** A step that changes a lock in the map, one goroutine and the owners of that item,
    and keeps the count of its users and its one token. *)
Lemma update_inv gl ths os id l il i a b lk cnt os' :
  inv (mkSystem gl ths os) → gl_locks gl !! id = Some l → gl_heap gl !! l = Some il →
  ths !! i = Some a →
  (∀ id' l', b = Waiting id' l' → id' = id ∧ l' = l) →
  (∀ id', id' ≠ id → count (owns id') os' = count (owns id') os ∧ waits id' a = waits id' b) →
  (∀ l', l' ≠ l → sends l' a = sends l' b) →
  cnt + Z.of_nat (count (owns id) os) + Z.of_nat (Nat.b2n (waits id a))
    = il_cnt il + Z.of_nat (count (owns id) os') + Z.of_nat (Nat.b2n (waits id b)) →
  (lk + Nat.b2n (sends l b) + count (owns id) os'
    = il_lk il + Nat.b2n (sends l a) + count (owns id) os)%nat →
  inv (mkSystem (gl_set gl (gl_locks gl) (<[l := mkItemLock lk cnt]> (gl_heap gl)))
         (<[i := b]> ths) os').
Proof.
  intros Hi Hl Hil Ha Hb Hid Hsd Hcnt Htok.
  pose proof (λ f, count_insert f ths i a b Ha) as Hc.
  destruct (inv_present _ Hi _ _ Hl) as (il' & Hil' & Hp1 & Hp2). simpl in *.
  replace il' with il in * by congruence. clear il' Hil'.
  split; simpl.
  - intros id0 Hn. destruct (decide (id0 = id)) as [-> |Hne]; [congruence|].
    destruct (Hid id0 Hne) as [-> _]. by apply (inv_absent _ Hi).
  - intros id0 l0 Hl0. destruct (decide (l0 = l)) as [-> |Hne].
    + assert (id0 = id) as -> by (by eapply (inv_inj _ Hi)).
      exists (mkItemLock lk cnt). pose proof (Hc (waits id)). pose proof (Hc (sends l)).
      rewrite list_lookup_insert_eq by (by eapply lookup_lt_Some). simpl.
      split_and!; [done|lia|lia].
    + destruct (inv_present _ Hi _ _ Hl0) as (il0 & Hil0 & Hq1 & Hq2). simpl in *.
      assert (id0 ≠ id) as Hne' by congruence. destruct (Hid _ Hne') as [-> Hw].
      exists il0. rewrite list_lookup_insert_ne by done.
      pose proof (Hc (waits id0)). pose proof (Hc (sends l0)).
      rewrite Hw, ?(Hsd l0) in * by done. split_and!; [done|lia|lia].
  - apply (inv_inj _ Hi).
  - intros j id0 l0 [(_ & Eb & _)|[_ Hj]]%list_lookup_insert_Some.
    + by destruct (Hb _ _ Eb) as [-> ->].
    + by apply (inv_waiting _ Hi) in Hj.
  - intros l0 il0 Hl0 Hno. assert (l0 ≠ l) as Hne by (intros ->; by apply (Hno id)).
    rewrite list_lookup_insert_ne in Hl0 by done. pose proof (Hc (sends l0)).
    rewrite (Hsd l0) in * by done. pose proof (inv_dropped _ Hi _ _ Hl0 Hno). simpl in *. lia.
  - intros l0 Hge. rewrite length_insert in Hge. pose proof (inv_beyond _ Hi l0 Hge).
    pose proof (Hc (sends l0)). pose proof (lookup_lt_Some _ _ _ Hil).
    rewrite (Hsd l0) in * by lia. simpl in *. lia.
Qed.

(** Deleting the entry of an item without users. *)
Lemma drop_inv gl ths os id l il :
  inv (mkSystem gl ths os) → gl_locks gl !! id = Some l → gl_heap gl !! l = Some il →
  il_cnt il = 0 → inv (mkSystem (gl_set gl (delete id (gl_locks gl)) (gl_heap gl)) ths os).
Proof.
  intros Hi Hl Hil H0. destruct (inv_present _ Hi _ _ Hl) as (il' & Hil' & Hp1 & Hp2).
  simpl in *. replace il' with il in * by congruence. clear il' Hil'.
  split; simpl.
  - intros id0 [-> |Hn]%lookup_delete_None; [lia|by apply (inv_absent _ Hi)].
  - intros id0 l0 [Hne Hl0]%lookup_delete_Some. by apply (inv_present _ Hi).
  - intros id1 id2 l0 [_ H1]%lookup_delete_Some [_ H2]%lookup_delete_Some.
    by eapply (inv_inj _ Hi).
  - intros j id0 l0 Hj. pose proof (inv_waiting _ Hi _ _ _ Hj) as Hl0. simpl in Hl0.
    apply lookup_delete_Some. split; [|done]. intros <-.
    pose proof (count_lookup (waits id) ths j _ Hj). simpl in *.
    rewrite bool_decide_eq_true_2 in * by done. specialize (H eq_refl). lia.
  - intros l0 il0 Hl0 Hno. destruct (decide (l0 = l)) as [-> |Hne].
    + assert (il0 = il) as -> by congruence. lia.
    + apply (inv_dropped _ Hi _ _ Hl0). intros id0 Hid0. apply (Hno id0).
      simpl in Hid0. apply lookup_delete_Some. split; [congruence|done].
  - apply (inv_beyond _ Hi).
Qed.

Definition ok (s : system) : Prop := inv s ∧ all_used (sy_gl s).

Lemma lock_enter_inv gl ths os id gl' ans i :
  ok (mkSystem gl ths os) → ths !! i = Some Idle → lock_enter id gl = (gl', ans) →
  match ans with
  | NoLock => gl' = gl ∧ id = ""
  | Acquired => ok (mkSystem gl' ths (id :: os))
  | MustWait l => ok (mkSystem gl' (<[i := Waiting id l]> ths) os)
  end.
Proof.
  intros [Hi Hu] Ha. unfold lock_enter. case_decide as Hid; [by intros [= <- <-]|].
  destruct (get_lock id gl) as [gl1 l] eqn:Eg.
  destruct (get_lock_inv _ _ _ _ _ _ Hi Eg) as (Hi1 & Hl & Hu1). specialize (Hu1 Hu).
  destruct (inv_present _ Hi1 _ _ Hl) as (il & Hil & Hp1 & Hp2). simpl in Hil, Hp1, Hp2.
  rewrite Hil.
  assert (∀ id', id' ≠ id → owns id' id = false) as Hne
    by (intros id' ?; apply bool_decide_eq_false; congruence).
  assert (owns id id = true) as He by (by apply bool_decide_eq_true).
  assert (∀ lk, all_used (gl_set gl1 (gl_locks gl1)
            (<[l := mkItemLock lk (il_cnt il + 1)]> (gl_heap gl1)))) as Hu2.
  { intros lk id0 l0 il0 Hl0 Hil0. simpl in Hl0, Hil0.
    apply list_lookup_insert_Some in Hil0 as [(_ & <- & _)|[Hn Hil0]]; [simpl; lia|].
    apply (Hu1 id0 l0); [|done|done]. intros ->. congruence. }
  destruct (il_lk il) as [|lk] eqn:Elk; intros [= <- <-]; (split; [|apply Hu2]).
  - apply (update_inv gl1 ths os id l il i Idle (Waiting id l)); try done; simpl.
    + by intros id' l' [= <- <-].
    + intros id' Hn. split; [done|]. symmetry. by apply bool_decide_eq_false.
    + rewrite bool_decide_eq_true_2 by done. simpl. lia.
    + lia.
  - rewrite <- (list_insert_id ths i Idle Ha).
    apply (update_inv gl1 ths os id l il i Idle Idle); try done; simpl.
    + intros id' Hn. by rewrite Hne.
    + rewrite He. simpl. lia.
    + rewrite He. simpl. lia.
Qed.

Lemma lock_wait_inv gl ths os id l gl' i :
  ok (mkSystem gl ths os) → ths !! i = Some (Waiting id l) → lock_wait l gl = Some gl' →
  ok (mkSystem gl' (<[i := Idle]> ths) (id :: os)).
Proof.
  intros [Hi Hu] Ha. unfold lock_wait.
  destruct (gl_heap gl !! l) as [[[|lk] cnt]|] eqn:Hil; try done. intros [= <-].
  pose proof (inv_waiting _ Hi _ _ _ Ha) as Hl. simpl in Hl.
  assert (owns id id = true) as He by (by apply bool_decide_eq_true).
  split.
  - eapply update_inv; try done; simpl.
    + intros id' Hn. assert (owns id' id = false) as ->
        by (apply bool_decide_eq_false; congruence). simpl.
      split; [done|]. apply bool_decide_eq_false. congruence.
    + rewrite He, bool_decide_eq_true_2 by done. simpl. lia.
    + rewrite He. simpl. lia.
  - intros id0 l0 il0 Hl0 Hil0. simpl in Hl0, Hil0.
    apply list_lookup_insert_Some in Hil0 as [(<- & <- & _)|[Hn Hil0]].
    + by apply (Hu id0 l _ Hl0 Hil).
    + by apply (Hu id0 l0 _ Hl0).
Qed.

Lemma unlock_enter_inv gl ths os os' id gl' l i :
  ok (mkSystem gl ths os) → ths !! i = Some Idle → os ≡ₚ id :: os' →
  unlock_enter id gl = (gl', Some l) → ok (mkSystem gl' (<[i := Sending l]> ths) os').
Proof.
  intros [Hi Hu] Ha Hp. unfold unlock_enter.
  destruct (gl_locks gl !! id) as [l0|] eqn:Hl; [|done].
  destruct (gl_heap gl !! l0) as [il|] eqn:Hil; [|done]. intros [= <- ->].
  pose proof (Hu id l il Hl Hil) as Hpos.
  assert (owns id id = true) as He by (by apply bool_decide_eq_true).
  assert (inv (mkSystem (gl_set gl (gl_locks gl)
    (<[l := mkItemLock (il_lk il) (il_cnt il - 1)]> (gl_heap gl))) (<[i := Sending l]> ths) os'))
    as Hi'.
  { eapply update_inv; try done; simpl.
    - intros id' Hn. rewrite Hp. simpl. assert (owns id' id = false) as ->
        by (apply bool_decide_eq_false; congruence). done.
    - intros l' Hn. symmetry. by apply bool_decide_eq_false.
    - rewrite Hp. simpl. rewrite He. simpl. lia.
    - rewrite Hp. simpl. rewrite He, bool_decide_eq_true_2 by done. simpl. lia. }
  assert (∀ id0 l1 il1, gl_locks gl !! id0 = Some l1 → id0 ≠ id ∨ il_cnt il - 1 ≠ 0 →
    <[l := mkItemLock (il_lk il) (il_cnt il - 1)]> (gl_heap gl) !! l1 = Some il1 →
    0 < il_cnt il1) as Hu'.
  { intros id0 l1 il1 Hl1 Hor Hil1.
    apply list_lookup_insert_Some in Hil1 as [(<- & <- & _)|[Hn Hil1]].
    - simpl. destruct Hor as [Hne|]; [|lia]. by destruct Hne; eapply (inv_inj _ Hi).
    - by apply (Hu id0 l1). }
  destruct (Z.eqb_spec (il_cnt il - 1) 0) as [E|E].
  - split.
    + eapply (drop_inv (gl_set gl (gl_locks gl) _)); [exact Hi'|exact Hl| |]; simpl.
      * apply list_lookup_insert_eq. by eapply lookup_lt_Some.
      * done.
    + intros id0 l1 il1 Hl1 Hil1. simpl in Hl1. apply lookup_delete_Some in Hl1 as [Hne Hl1].
      eapply Hu'; [done|by left|done].
  - split; [done|]. intros id0 l1 il1 Hl1 Hil1. eapply Hu'; [done|by right|done].
Qed.

Lemma mapped_dec (locks : gmap string loc) l :
  (∃ id, locks !! id = Some l) ∨ (∀ id, locks !! id ≠ Some l).
Proof.
  destruct (decide (Exists (λ x, x.2 = l) (map_to_list locks))) as [Hm|Hm].
  - left. apply Exists_exists in Hm as ([id ?] & Hin%elem_of_map_to_list & <-). by exists id.
  - right. intros id Hid%elem_of_map_to_list. apply Hm, Exists_exists. by exists (id, l).
Qed.

Lemma unlock_send_inv gl ths os l gl' i :
  ok (mkSystem gl ths os) → ths !! i = Some (Sending l) → unlock_send l gl = Some gl' →
  ok (mkSystem gl' (<[i := Idle]> ths) os).
Proof.
  intros [Hi Hu] Ha. unfold unlock_send.
  destruct (gl_heap gl !! l) as [[[|lk] cnt]|] eqn:Hil; try done. intros [= <-].
  assert (∀ l', l' ≠ l → sends l' (Sending l) = sends l' Idle) as Hs
    by (intros l' Hn; apply bool_decide_eq_false; congruence).
  assert (sends l (Sending l) = true) as He by (by apply bool_decide_eq_true).
  split.
  2:{ intros id0 l0 il0 Hl0 Hil0. simpl in Hl0, Hil0.
      apply list_lookup_insert_Some in Hil0 as [(<- & <- & _)|[Hn Hil0]];
        [by apply (Hu id0 l _ Hl0 Hil)|by apply (Hu id0 l0 _ Hl0)]. }
  destruct (mapped_dec (gl_locks gl) l) as [[id Hl]|Hno].
  { eapply update_inv; try done; rewrite ?He; simpl; lia. }
  pose proof (λ f, count_insert f ths i (Sending l) Idle Ha) as Hc.
  split; simpl.
  - apply (inv_absent _ Hi).
  - intros id0 l0 Hl0. assert (l0 ≠ l) as Hn by (intros ->; by apply (Hno id0)).
    pose proof (Hc (waits id0)) as H1. pose proof (Hc (sends l0)) as H2.
    rewrite Hs in H2 by done. simpl in H1, H2. rewrite list_lookup_insert_ne by done.
    destruct (inv_present _ Hi _ _ Hl0) as (il & ? & ? & ?). simpl in *.
    exists il. split_and!; [done|lia|lia].
  - apply (inv_inj _ Hi).
  - intros j id0 l0 [(_ & [=] & _)|[_ Hj]]%list_lookup_insert_Some.
    by apply (inv_waiting _ Hi) in Hj.
  - intros l0 il0 Hl0 Hno0. pose proof (Hc (sends l0)) as Hc0.
    apply list_lookup_insert_Some in Hl0 as [(<- & <- & _)|[Hn Hl0]].
    + pose proof (inv_dropped _ Hi _ _ Hil Hno). rewrite He in Hc0. simpl in *. lia.
    + pose proof (inv_dropped _ Hi _ _ Hl0 Hno0). rewrite Hs in Hc0 by done. simpl in *. lia.
  - intros l0 Hge. rewrite length_insert in Hge. pose proof (inv_beyond _ Hi l0 Hge).
    pose proof (Hc (sends l0)). simpl in *. lia.
Qed.

Lemma step_ok s s' : step s s' → ok s → ok s'.
Proof.
  intros [gl ths os|gl gl' ths os i id Hi He|gl gl' ths os i id l Hi He|gl gl' ths os i id l Hi He
    |gl gl' ths os os' i id l Hi Hp He|gl gl' ths os i l Hi He] Hok.
  - destruct Hok as [Hi Hu]. split; [|done]. destruct Hi as [H1 H2 H3 H4 H5 H6].
    split; simpl in *; try done.
    + intros id l Hl. rewrite !count_app. simpl. rewrite !Nat.add_0_r. by apply H2.
    + intros i id l [Hl|[_ Hl]]%lookup_app_Some; [by eapply H4|].
      by apply list_lookup_singleton_Some in Hl as [_ [=]].
    + intros l il Hl Hno. rewrite count_app. simpl. rewrite Nat.add_0_r. by apply H5.
    + intros l Hl. rewrite count_app. simpl. rewrite Nat.add_0_r. by apply H6.
  - by apply (lock_enter_inv _ _ _ _ _ _ _ Hok Hi He).
  - by apply (lock_enter_inv _ _ _ _ _ _ _ Hok Hi He).
  - by eapply lock_wait_inv.
  - by eapply unlock_enter_inv.
  - by eapply unlock_send_inv.
Qed.

Lemma reachable_ok s : reachable s → ok s.
Proof.
  intros Hr. refine (rtc_ind_r (R := step) ok _ inv_initial _ s Hr).
  intros y z _ Hs Hy. by eapply step_ok.
Qed.

Lemma owner_counted id os : id ∈ os → (0 < count (owns id) os)%nat.
Proof.
  intros (j & Hj)%list_elem_of_lookup_1. apply (count_lookup _ _ _ _ Hj).
  by apply bool_decide_eq_true.
Qed.
Lemma waiter_counted ths i id l :
  ths !! i = Some (Waiting id l) → (0 < count (waits id) ths)%nat.
Proof. intros Hj. apply (count_lookup _ _ _ _ Hj). by apply bool_decide_eq_true. Qed.
Lemma sender_counted ths i l :
  ths !! i = Some (Sending l) → (0 < count (sends l) ths)%nat.
Proof. intros Hj. apply (count_lookup _ _ _ _ Hj). by apply bool_decide_eq_true. Qed.

Lemma counted_owner id os : (0 < count (owns id) os)%nat → id ∈ os.
Proof.
  intros (i & a & Ha & Hw)%count_pos. apply bool_decide_eq_true in Hw as ->.
  by eapply list_elem_of_lookup_2.
Qed.

Lemma owns_NoDup os : (∀ id, count (owns id) os ≤ 1)%nat → NoDup os.
Proof.
  induction os as [|id os IH]; intros Hc; [constructor|]. constructor.
  - intros Hin%owner_counted. specialize (Hc id). simpl in Hc.
    assert (owns id id = true) as He by (by apply bool_decide_eq_true).
    rewrite He in Hc. simpl in Hc. lia.
  - apply IH. intros id'. specialize (Hc id'). simpl in Hc. lia.
Qed.

Lemma guardian_users (s : system) : reachable s →
  NoDup (sy_owners s) ∧
  (∀ id, is_Some (gl_locks (sy_gl s) !! id) ↔
     id ∈ sy_owners s ∨ ∃ i l, sy_threads s !! i = Some (Waiting id l)).
Proof.
  intros Hr. destruct (reachable_ok s Hr) as [Hi Hu].
  assert (∀ id, gl_locks (sy_gl s) !! id = None ↔
    count (owns id) (sy_owners s) = 0%nat ∧ count (waits id) (sy_threads s) = 0%nat) as Hno.
  { intros id. split; [intros Hn; split; [by apply inv_absent|by apply inv_no_waiter]|].
    intros [Ho Hw]. destruct (gl_locks (sy_gl s) !! id) as [l|] eqn:Hl; [|done].
    destruct (inv_present _ Hi _ _ Hl) as (il & Hil & Hc & _).
    pose proof (Hu _ _ _ Hl Hil). lia. }
  split.
  - apply owns_NoDup. intros id. destruct (gl_locks (sy_gl s) !! id) as [l|] eqn:Hl.
    + destruct (inv_present _ Hi _ _ Hl) as (il & _ & _ & Ht). lia.
    + apply Hno in Hl as [-> _]. lia.
  - intros id. rewrite <- not_eq_None_Some, Hno. split.
    + intros Hn. destruct (count (owns id) (sy_owners s)) eqn:Ho.
      * right. destruct (count_pos (waits id) (sy_threads s)) as (i & a & Ha & Hw); [lia|].
        destruct a as [|id' l|]; try done. apply bool_decide_eq_true in Hw as ->. eauto.
      * left. apply counted_owner. lia.
    + intros [?%owner_counted|(i & l & ?%waiter_counted)] [Ho Hw]; lia.
Qed.

(** C4: whatever goroutines lock and unlock in whatever order, no item ever has two
    owners, and the map has an entry exactly for the items that are owned, waited for:
    when nobody uses the locker, it is empty. *)
Theorem guardian_mutual_exclusion (s : system) (Hr : reachable s) :
  NoDup (sy_owners s) ∧
  (∀ id, is_Some (gl_locks (sy_gl s) !! id) ↔
     id ∈ sy_owners s ∨ ∃ i l, sy_threads s !! i = Some (Waiting id l)).
Proof. by apply guardian_users. Qed.

Lemma owned_unlock s id : inv s → id ∈ sy_owners s →
  ∃ gl' l, unlock_enter id (sy_gl s) = (gl', Some l).
Proof.
  intros Hi Hp%owner_counted. destruct (gl_locks (sy_gl s) !! id) as [l|] eqn:Hl.
  2:{ apply (inv_absent _ Hi) in Hl. lia. }
  destruct (inv_present _ Hi _ _ Hl) as (il & Hil & _). unfold unlock_enter.
  rewrite Hl, Hil. by eexists _, _.
Qed.

(** C5: no wake-up is lost: sending the token back never blocks, an owned item can be
    unlocked, and a goroutine that waits for an item can take the lock, unless the
    item has an owner or another goroutine is about to put its token back. *)
Theorem guardian_progress (s : system) (Hr : reachable s) :
  (∀ i l, sy_threads s !! i = Some (Sending l) → is_Some (unlock_send l (sy_gl s))) ∧
  (∀ id, id ∈ sy_owners s → ∃ gl' l, unlock_enter id (sy_gl s) = (gl', Some l)) ∧
  (∀ i id l, sy_threads s !! i = Some (Waiting id l) →
     is_Some (lock_wait l (sy_gl s)) ∨ id ∈ sy_owners s ∨
     ∃ j, sy_threads s !! j = Some (Sending l)).
Proof.
  destruct (reachable_ok s Hr) as [Hi Hu]. split_and!.
  - intros i l Ha. unfold unlock_send.
    pose proof (sender_counted _ _ _ Ha) as Hp.
    destruct (gl_heap (sy_gl s) !! l) as [il|] eqn:Hil.
    2:{ apply lookup_ge_None in Hil. pose proof (inv_beyond _ Hi l Hil). lia. }
    assert (il_lk il = 0%nat) as Ht.
    { destruct (mapped_dec (gl_locks (sy_gl s)) l) as [[id Hl]|Hno].
      - destruct (inv_present _ Hi _ _ Hl) as (il' & Hil' & _ & Ht).
        assert (il' = il) as -> by congruence. lia.
      - pose proof (inv_dropped _ Hi _ _ Hil Hno). lia. }
    destruct il as [lk cnt]. simpl in Ht. subst lk. by eexists.
  - intros id. by apply owned_unlock.
  - intros i id l Ha. pose proof (inv_waiting _ Hi _ _ _ Ha) as Hl.
    destruct (inv_present _ Hi _ _ Hl) as ([lk cnt] & Hil & _ & Ht). simpl in Ht.
    destruct lk as [|lk]; [right|left; unfold lock_wait; rewrite Hil; by eexists].
    destruct (count (owns id) (sy_owners s)) eqn:Ho; [right|left].
    + destruct (count_pos (sends l) (sy_threads s)) as (j & a & Hj & Hs); [lia|].
      destruct a as [| |l']; try done. apply bool_decide_eq_true in Hs as ->. by exists j.
    + apply counted_owner. lia.
Qed.

(** A goroutine that owns an item and one that waits for it. *)
Definition contended : system :=
  mkSystem (mkGuardian {["a" := 0%nat]} [mkItemLock 0 2] ∅) [Idle; Waiting "a" 0%nat] ["a"].

Lemma contended_reachable : reachable contended.
Proof.
  unfold reachable. eapply rtc_l; [apply step_spawn|]. eapply rtc_l; [apply step_spawn|].
  eapply rtc_l; [apply (step_acquire new_guardian (lock_enter "a" new_guardian).1 [Idle; Idle] [] 0 "a");
    [done|vm_compute; reflexivity]|].
  eapply rtc_once. apply (step_enqueue _ _ [Idle; Idle] ["a"] 1 "a" 0%nat);
    [done|vm_compute; reflexivity].
Qed.

Lemma guardian_mutual_exclusion_witness :
  NoDup (sy_owners contended) ∧
  (∀ id, is_Some (gl_locks (sy_gl contended) !! id) ↔
     id ∈ sy_owners contended ∨ ∃ i l, sy_threads contended !! i = Some (Waiting id l)).
Proof. apply guardian_mutual_exclusion, contended_reachable. Defined.

Lemma guardian_progress_witness :
  (∀ i l, sy_threads contended !! i = Some (Sending l) →
     is_Some (unlock_send l (sy_gl contended))) ∧
  (∀ id, id ∈ sy_owners contended →
     ∃ gl' l, unlock_enter id (sy_gl contended) = (gl', Some l)) ∧
  (∀ i id l, sy_threads contended !! i = Some (Waiting id l) →
     is_Some (lock_wait l (sy_gl contended)) ∨ id ∈ sy_owners contended ∨
     ∃ j, sy_threads contended !! j = Some (Sending l)).
Proof. apply guardian_progress, contended_reachable. Defined.

(** ** The operations of the locker

    An operation is the sequence of its calls: taking and giving back locks, the
    reading and writing of the references under their own mutex, waiting for the
    handler, making a UUID and starting a goroutine. *)
Section operations.
Context {Reply : Type}.

Definition refs := gmap string (list string).

Inductive answer := RefID (refID : string) | LkIDs (lkIDs : list string)
  | Replied (reply : option Reply).

Inductive prog :=
  | Return (a : answer)
  | LockItem (itmID : string) (k : prog)
  | UnlockItem (itmID : string) (k : prog)
  | Refs (f : refs → refs) (k : refs → prog)
  | GenUUID (k : string → prog)
  | Handler (timed : bool) (k : option Reply → prog)
  | Go (p : prog) (k : prog).

Definition lock_all (ids : list string) (k : prog) : prog := foldr LockItem k ids.
Definition unlock_all (ids : list string) (k : prog) : prog := foldr UnlockItem k ids.

(** [Refs f k] replaces the references by [f] of them and goes on with what [k] makes
    of the old ones. *)
Definition lockWithReference (refID : string) (lkIDs : list string) (k : string → prog)
    : prog :=
  let locked (refEmpty : bool) (refID : string) :=
    let used (r : refs) := negb refEmpty && bool_decide (is_Some (r !! refID)) in
    LockItem refID
      (Refs (λ r, if used r then r else <[refID := lkIDs]> r)
            (λ r, if used r then UnlockItem refID (k "")
                  else lock_all lkIDs (UnlockItem refID (k refID)))) in
  if decide (refID = "") then GenUUID (locked true) else locked false refID.

Definition unlockWithReference (refID : string) (k : list string → prog) : prog :=
  LockItem refID (Refs (delete refID) (λ r,
    match r !! refID with
    | None => UnlockItem refID (k [])
    | Some lkIDs => unlock_all lkIDs (UnlockItem refID (k lkIDs))
    end)).

(** The handler runs in a goroutine of its own; with a positive timeout the wait for
    its reply may end without one. *)
Definition Guard (timeout : Z) (lockIDs : list string) : prog :=
  lock_all lockIDs (Handler (0 <? timeout) (λ reply, unlock_all lockIDs (Return (Replied reply)))).

(** The goroutine that sleeps may run at any time from then on. *)
Definition GuardIDs (refID : string) (timeout : Z) (lkIDs : list string) : prog :=
  lockWithReference refID lkIDs (λ retRefID,
    if negb (timeout =? 0) && negb (bool_decide (retRefID = "")) then
      Go (unlockWithReference retRefID (λ lkIDs, Return (LkIDs lkIDs))) (Return (RefID retRefID))
    else Return (RefID retRefID)).

Definition UnguardIDs (refID : string) : prog :=
  if decide (refID = "") then Return (LkIDs [])
  else unlockWithReference refID (λ lkIDs, Return (LkIDs lkIDs)).

(** *** Running them *)

(** Where a goroutine is: at the next call of its program, blocked on a channel, or
    putting a token back. *)
Inductive thread := Run (p : prog) | AtWait (id : string) (l : loc) (k : prog) | AtSend (l : loc) (k : prog).

(** What the environment decides: nothing, a new UUID, the handler's reply or none. *)
Inductive input := Tick | Uuid (u : string) | Reply_ (r : option Reply).

Definition gl_set_refs (gl : GuardianLocker) (r : refs) : GuardianLocker :=
  mkGuardian (gl_locks gl) (gl_heap gl) r.

(** One step of a goroutine and the one it starts; [None] when it cannot run. *)
Definition run_step (gl : GuardianLocker) (t : thread) (i : input)
    : option (GuardianLocker * thread * option thread) :=
  match t, i with
  | Run (Return _), _ => None
  | Run (LockItem id k), Tick =>
      let '(gl, ans) := lock_enter id gl in
      Some (gl, match ans with MustWait l => AtWait id l k | _ => Run k end, None)
  | Run (UnlockItem id k), Tick =>
      let '(gl, l) := unlock_enter id gl in
      Some (gl, match l with Some l => AtSend l k | None => Run k end, None)
  | Run (Refs f k), Tick =>
      Some (gl_set_refs gl (f (gl_refs gl)), Run (k (gl_refs gl)), None)
  | Run (GenUUID k), Uuid u => Some (gl, Run (k u), None)
  | Run (Handler _ k), Reply_ (Some r) => Some (gl, Run (k (Some r)), None)
  | Run (Handler true k), Reply_ None => Some (gl, Run (k None), None)
  | Run (Go p k), Tick => Some (gl, Run k, Some (Run p))
  | AtWait _ l k, Tick => gl ← lock_wait l gl; Some (gl, Run k, None)
  | AtSend l k, Tick => gl ← unlock_send l gl; Some (gl, Run k, None)
  | _, _ => None
  end.

(** One step of goroutine [j]. *)
Definition run_thread (j : nat) (i : input) (s : GuardianLocker * list thread)
    : option (GuardianLocker * list thread) :=
  t ← s.2 !! j;
  '(gl, t, new) ← run_step s.1 t i;
  Some (gl, <[j := t]> s.2 ++ option_list new).

Fixpoint run_schedule (sched : list (nat * input)) (s : GuardianLocker * list thread)
    : option (GuardianLocker * list thread) :=
  match sched with
  | [] => Some s
  | (j, i) :: sched' => s ← run_thread j i s; run_schedule sched' s
  end.

(** A goroutine that runs alone. *)
Fixpoint solo (fuel : nat) (gl : GuardianLocker) (t : thread) : option (answer * GuardianLocker) :=
  match t, fuel with
  | Run (Return a), _ => Some (a, gl)
  | _, O => None
  | _, S fuel' => '(gl, t, _) ← run_step gl t Tick; solo fuel' gl t
  end.
End operations.
Arguments prog : clear implicits.
Arguments thread : clear implicits.
Arguments input : clear implicits.

(** No goroutine can take a step, whatever the environment decides. *)
Definition deadlocked {Reply} (s : GuardianLocker * list (thread Reply)) : Prop :=
  ∀ j i, run_thread j i s = None.

(** Two guarded calls that name the same two items in opposite orders, or one that
    names an item twice, can lock each other out for ever: the items are locked in
    the order given, each in its turn. *)
Theorem Guard_order_deadlock :
  (∃ sched s, run_schedule sched (new_guardian,
      [Run (Guard 0 ["a"; "b"]); Run (Guard 0 ["b"; "a"])]) = Some s ∧
    @deadlocked () s ∧ map (λ t, match t with AtWait _ _ _ => true | _ => false end) s.2
      = [true; true]) ∧
  (∃ sched s, run_schedule sched (new_guardian, [Run (Guard 0 ["a"; "a"])]) = Some s ∧
    @deadlocked () s ∧ map (λ t, match t with AtWait _ _ _ => true | _ => false end) s.2 = [true]).
Proof.
  split.
  - exists [(0%nat, Tick); (1%nat, Tick); (0%nat, Tick); (1%nat, Tick)].
    eexists. split; [vm_compute; reflexivity|]. split; [|reflexivity].
    intros [|[|j]] []; vm_compute; reflexivity.
  - exists [(0%nat, Tick); (0%nat, Tick)].
    eexists. split; [vm_compute; reflexivity|]. split; [|reflexivity].
    intros [|j] []; vm_compute; reflexivity.
Qed.

(** *** Guarded handlers exclude each other *)
Lemma NoDup_concat_disjoint {A} (l : list (list A)) j1 j2 o1 o2 x : NoDup (concat l) →
  l !! j1 = Some o1 → l !! j2 = Some o2 → x ∈ o1 → x ∈ o2 → j1 = j2.
Proof.
  revert j1 j2. induction l as [|o l IH]; [done|]. intros j1 j2 Hnd H1 H2 Hx1 Hx2.
  simpl in Hnd. apply NoDup_app in Hnd as (_ & Hdis & Hnd).
  assert (∀ j o', l !! j = Some o' → x ∈ o' → x ∈ concat l) as Hin
    by (intros j o' Hj Hx; apply list_elem_of_In, in_concat; exists o'; split;
        apply list_elem_of_In; [by eapply list_elem_of_lookup_2|done]).
  destruct j1 as [|j1], j2 as [|j2]; simpl in *.
  - done.
  - injection H1 as ->. by destruct (Hdis x Hx1); eapply Hin.
  - injection H2 as ->. by destruct (Hdis x Hx2); eapply Hin.
  - f_equal. by apply (IH j1 j2).
Qed.

Lemma elem_concat {A} (x : A) l : x ∈ concat l ↔ ∃ j o, l !! j = Some o ∧ x ∈ o.
Proof.
  rewrite list_elem_of_In, in_concat. split.
  - intros (o & Ho & Hx). apply list_elem_of_In in Ho as (j & Hj)%list_elem_of_lookup_1.
    exists j, o. by rewrite list_elem_of_In.
  - intros (j & o & Hj & Hx). exists o. rewrite <- !list_elem_of_In.
    split; [by eapply list_elem_of_lookup_2|done].
Qed.

Section guard.
Context {Reply : Type}.

Definition guarded (timeout : Z) (ids : list string) : prog Reply :=
  Handler (0 <? timeout) (λ reply, unlock_all ids (Return (Replied reply))).

Definition named (ids : list string) : list string := filter (λ id, id ≠ "") ids.

(** Where a call of [Guard] can be, as an activity and the items it owns. *)
Inductive guard_state (timeout : Z) (ids : list string)
    : thread Reply → activity → list string → Prop :=
  | gs_locking got todo : ids = got ++ todo →
      guard_state timeout ids (Run (lock_all todo (guarded timeout ids))) Idle (named got)
  | gs_waiting got id l todo : ids = got ++ id :: todo → id ≠ "" →
      guard_state timeout ids (AtWait id l (lock_all todo (guarded timeout ids)))
        (Waiting id l) (named got)
  | gs_unlocking todo a :
      guard_state timeout ids (Run (unlock_all todo (Return a))) Idle (named todo)
  | gs_sending l todo a :
      guard_state timeout ids (AtSend l (unlock_all todo (Return a))) (Sending l) (named todo).

(** The goroutines of some calls and the system of [step] they are a run of. *)
Definition simulated (calls : list (Z * list string))
    (c : GuardianLocker * list (thread Reply)) (s : system) : Prop :=
  sy_gl s = c.1 ∧ length (sy_threads s) = length calls ∧
  ∃ owned : list (list string),
    sy_owners s ≡ₚ concat owned ∧ length c.2 = length calls ∧ length owned = length calls ∧
    ∀ j call t a o, calls !! j = Some call → c.2 !! j = Some t →
      sy_threads s !! j = Some a → owned !! j = Some o → guard_state call.1 call.2 t a o.

Lemma concat_lookup {A} (l : list (list A)) j x y : l !! j = Some x →
  concat l ≡ₚ x ++ concat (delete j l) ∧
  concat (<[j := y]> l) ≡ₚ y ++ concat (delete j l).
Proof.
  revert j. induction l as [|z l IH]; intros [|j]; simpl; try done.
  { by intros [= ->]. }
  intros Hj. destruct (IH j Hj) as [H1 H2]. rewrite H1, H2. split; solve_Permutation.
Qed.
Lemma named_cons id ids : named (id :: ids) = (if decide (id = "") then [] else [id]) ++ named ids.
Proof.
  unfold named. rewrite filter_cons. by case_decide; case_decide.
Qed.
Lemma named_snoc ids id : named (ids ++ [id]) = named ids ++ (if decide (id = "") then [] else [id]).
Proof.
  unfold named at 1. rewrite filter_app. f_equal. fold (named [id]).
  rewrite named_cons. by rewrite app_nil_r.
Qed.

Lemma simulated_update calls (gl' : GuardianLocker) ths s j call t a o owned t' a' o' os' :
  length (sy_threads s) = length calls → length ths = length calls →
  length owned = length calls →
  (∀ j call t a o, calls !! j = Some call → ths !! j = Some t →
     sy_threads s !! j = Some a → owned !! j = Some o → guard_state call.1 call.2 t a o) →
  calls !! j = Some call → ths !! j = Some t → sy_threads s !! j = Some a →
  owned !! j = Some o → sy_owners s ≡ₚ concat owned →
  guard_state call.1 call.2 t' a' o' →
  (∀ rest, sy_owners s ≡ₚ o ++ rest → os' ≡ₚ o' ++ rest) →
  simulated calls (gl', <[j := t']> ths ++ [])
    (mkSystem gl' (<[j := a']> (sy_threads s)) os').
Proof.
  intros L1 L2 L3 Hall Hc Ht Ha Ho Hp Hg Hos. destruct (concat_lookup owned j o o' Ho) as [P1 P2].
  split; [done|]. simpl. rewrite app_nil_r, !length_insert. split; [done|].
  exists (<[j := o']> owned). rewrite length_insert. split_and!; try done.
  { rewrite P2. apply Hos. by rewrite Hp, P1. }
  intros j' call' t1 a1 o1 Hc1 Ht1 Ha1 Ho1. simpl in *. destruct (decide (j' = j)) as [-> |Hne].
    rewrite (list_lookup_insert_eq _ _ _ (lookup_lt_Some _ _ _ Ht)) in Ht1.
    rewrite (list_lookup_insert_eq _ _ _ (lookup_lt_Some _ _ _ Ha)) in Ha1.
    rewrite (list_lookup_insert_eq _ _ _ (lookup_lt_Some _ _ _ Ho)) in Ho1.
    assert (call' = call) as -> by congruence.
    by injection Ht1 as <-; injection Ha1 as <-; injection Ho1 as <-.
  - rewrite list_lookup_insert_ne in Ht1 by done. rewrite list_lookup_insert_ne in Ha1 by done.
    rewrite list_lookup_insert_ne in Ho1 by done. by eapply Hall.
Qed.

Lemma lock_enter_named id gl gl' ans : lock_enter id gl = (gl', ans) → ans ≠ NoLock → id ≠ "".
Proof. unfold lock_enter. case_decide; [|done]. intros [= <- <-]. done. Qed.

Lemma no_empty_lock calls (c : GuardianLocker * list (thread Reply)) s :
  simulated calls c s → reachable s → gl_locks c.1 !! "" = None.
Proof.
  intros (E & L1 & owned & Hp & L2 & L3 & Hall) Hr. apply eq_None_not_Some. rewrite <- E.
  destruct (reachable_ok s Hr) as [Hi _].
  assert (∀ j a, sy_threads s !! j = Some a → ∃ call t o, owned !! j = Some o ∧
    guard_state call.1 call.2 t a o) as Hget.
  { intros j a Ha. pose proof (lookup_lt_Some _ _ _ Ha) as Hlt.
    destruct (lookup_lt_is_Some_2 calls j ltac:(lia)) as [call Hc].
    destruct (lookup_lt_is_Some_2 c.2 j ltac:(lia)) as [t Ht].
    destruct (lookup_lt_is_Some_2 owned j ltac:(lia)) as [o Ho]. eauto 10. }
  rewrite (proj2 (guardian_users s Hr)). intros [Hin|(i & l & Ha)].
  - rewrite Hp in Hin. apply elem_concat in Hin as (j & o & Ho & Hin).
    destruct (lookup_lt_is_Some_2 (sy_threads s) j) as [a Ha];
      [pose proof (lookup_lt_Some _ _ _ Ho); lia|].
    destruct (Hget _ _ Ha) as (call & t & o' & Ho' & Hg). assert (o' = o) as -> by congruence.
    inversion Hg; subst; by apply list_elem_of_filter in Hin as [? _].
  - destruct (Hget _ _ Ha) as (call & t & o & _ & Hg). by inversion Hg.
Qed.
Lemma guard_step calls j i c c' s :
  simulated calls c s → reachable s → run_thread j i c = Some c' →
  ∃ s', rtc step s s' ∧ simulated calls c' s'.
Proof.
  intros Hsim Hr. pose proof (no_empty_lock _ _ _ Hsim Hr) as Hempty.
  destruct (reachable_ok s Hr) as [Hi Hu]. destruct c as [gl ths].
  destruct Hsim as (E & L1 & owned & Hp & L2 & L3 & Hall). simpl in *.
  unfold run_thread. simpl. intros Hrun.
  apply bind_Some in Hrun as (t & Ht & Hrun).
  apply bind_Some in Hrun as ([[gl' t'] new] & Hrun & [= <-]).
  pose proof (lookup_lt_Some _ _ _ Ht) as Hlt.
  destruct (lookup_lt_is_Some_2 calls j ltac:(lia)) as [call Hc].
  destruct (lookup_lt_is_Some_2 (sy_threads s) j ltac:(lia)) as [a Ha].
  destruct (lookup_lt_is_Some_2 owned j ltac:(lia)) as [o Ho].
  pose proof (Hall _ _ _ _ _ Hc Ht Ha Ho) as Hg.
  pose proof (λ t' a' o' os', simulated_update calls gl' ths s j call t a o owned t' a' o' os'
    L1 L2 L3 Hall Hc Ht Ha Ho Hp) as Hup.
  destruct s as [gl0 as_ os]. simpl in *. subst gl0.
  inversion Hg as [got todo Eids|got id l todo Eids Hne|todo an|l todo an]; subst t a o; simpl in Hrun.
  - destruct todo as [|id todo]; simpl in Hrun.
    + rewrite app_nil_r in Eids. subst got.
      assert (gl' = gl ∧ new = None ∧ ∃ r, t' = Run (unlock_all call.2 (Return (Replied r))))
        as (-> & -> & r & ->).
      { unfold guarded in Hrun.
        destruct (0 <? call.1); destruct i as [| |[r|]]; simpl in Hrun; try done;
          injection Hrun as <- <- <-; eauto. }
      exists (mkSystem gl (<[j:=Idle]> as_) os). split; [by rewrite list_insert_id|].
      by eapply Hup; [apply gs_unlocking|].
    + destruct i; try done. destruct (lock_enter id gl) as [gl1 ans] eqn:El.
      injection Hrun as <- <- <-.
      pose proof (lock_enter_inv gl as_ os id gl1 ans j (conj Hi Hu) Ha El) as Hok.
      pose proof (lock_enter_named _ _ _ _ El) as Hn.
      destruct ans as [| |l].
      * destruct Hok as [-> ->]. exists (mkSystem gl (<[j:=Idle]> as_) os).
        split; [by rewrite list_insert_id|]. eapply Hup; [|done].
        replace (named got) with (named (got ++ [""])) by (rewrite named_snoc; apply app_nil_r).
        apply gs_locking. by rewrite <- app_assoc.
      * exists (mkSystem gl1 (<[j:=Idle]> as_) (id :: os)). split.
        { rewrite list_insert_id by done. apply rtc_once. by eapply step_acquire. }
        eapply Hup; [apply (gs_locking _ _ (got ++ [id])); by rewrite <- app_assoc|].
        intros rest ->. rewrite named_snoc, decide_False by auto. solve_Permutation.
      * exists (mkSystem gl1 (<[j:=Waiting id l]> as_) os).
        split; [apply rtc_once; by eapply step_enqueue|].
        eapply Hup; [apply (gs_waiting _ _ got); auto|done].
  - destruct i; try done. apply bind_Some in Hrun as (gl1 & Hw & [= <- <- <-]).
    exists (mkSystem gl1 (<[j:=Idle]> as_) (id :: os)).
    split; [apply rtc_once; by eapply step_receive|].
    eapply Hup; [apply (gs_locking _ _ (got ++ [id])); by rewrite <- app_assoc|].
    intros rest ->. rewrite named_snoc, decide_False by done. solve_Permutation.
  - destruct todo as [|id todo]; simpl in Hrun; [by destruct i|]. destruct i; try done.
    destruct (unlock_enter id gl) as [gl1 ol] eqn:Eu. injection Hrun as <- <- <-.
    destruct (decide (id = "")) as [-> |Hne].
    + unfold unlock_enter in Eu. rewrite Hempty in Eu. injection Eu as <- <-.
      exists (mkSystem gl (<[j:=Idle]> as_) os). split; [by rewrite list_insert_id|].
      by eapply Hup; [apply gs_unlocking|].
    + destruct (concat_lookup owned j _ [] Ho) as [P1 _].
      assert (os ≡ₚ id :: (named todo ++ concat (delete j owned))) as Hos.
      { rewrite Hp, P1, named_cons, decide_False by done. done. }
      destruct (owned_unlock _ id Hi) as (gl2 & l & Eu'); [simpl; rewrite Hos; by left|].
      simpl in Eu'. rewrite Eu in Eu'. injection Eu' as -> ->.
      exists (mkSystem gl2 (<[j:=Sending l]> as_) (named todo ++ concat (delete j owned))).
      split; [apply rtc_once; by eapply step_unlock|]. eapply Hup; [apply gs_sending|].
      intros rest Hrest. rewrite named_cons, decide_False, Hos in Hrest by done.
      by apply Permutation_cons_inv in Hrest.
  - destruct i; try done. apply bind_Some in Hrun as (gl1 & Hw & [= <- <- <-]).
    exists (mkSystem gl1 (<[j:=Idle]> as_) os).
    split; [apply rtc_once; by eapply step_send|].
    by eapply Hup; [apply gs_unlocking|].
Qed.
Lemma spawn_idle n : reachable (mkSystem new_guardian (replicate n Idle) []).
Proof.
  induction n as [|n IH]; [apply rtc_refl|]. eapply rtc_r; [exact IH|].
  rewrite replicate_S_end. apply step_spawn.
Qed.

Definition calls_of (calls : list (Z * list string)) : GuardianLocker * list (thread Reply) :=
  (new_guardian, map (λ c, Run (Guard c.1 c.2)) calls).

Lemma schedule_simulated calls sched : ∀ c c' s, simulated calls c s → reachable s →
  run_schedule sched c = Some c' → ∃ s', simulated calls c' s' ∧ reachable s'.
Proof.
  induction sched as [|[j i] sched IH]; intros c c' s Hs Hr; simpl; [intros [= <-]; eauto|].
  intros (c1 & E1 & E2)%bind_Some.
  destruct (guard_step _ _ _ _ _ _ Hs Hr E1) as (s1 & Hst & Hs1).
  eapply IH; [exact Hs1| |exact E2]. by unfold reachable; etrans; [exact Hr|].
Qed.

Lemma calls_simulated calls sched c : run_schedule sched (calls_of calls) = Some c →
  ∃ s, simulated calls c s ∧ reachable s.
Proof.
  apply (schedule_simulated calls sched (calls_of calls) c
    (mkSystem new_guardian (replicate (length calls) Idle) [])); [|apply spawn_idle].
  split; [done|]. simpl. rewrite length_replicate. split; [done|].
  exists (replicate (length calls) []). rewrite length_replicate, length_map. split_and!; try done.
  { by induction calls. }
  intros j call t a o Hc Ht [-> _]%lookup_replicate_1 [-> _]%lookup_replicate_1.
  rewrite list_lookup_fmap, Hc in Ht. injection Ht as <-. by apply (gs_locking _ _ []).
Qed.

Lemma handler_owns timeout ids b k a o :
  guard_state timeout ids (Run (Handler b k)) a o → o = named ids.
Proof.
  inversion 1 as [got todo Eids Ep| |todo an Ep|]; subst.
  - destruct todo as [|? ?]; [by rewrite app_nil_r|done].
  - by destruct todo.
Qed.

End guard.


(** A group of items locked under a reference and given back by it: the second use of
    the reference locks nothing, and in the end nothing is left. *)
Lemma GuardIDs_example :
  let ids := ["a"; ""; "b"] in
  (gl1 ← @solo () 20 new_guardian (Run (GuardIDs "ref" 0 ids));
   gl2 ← solo 20 gl1.2 (Run (@GuardIDs () "ref" 0 ["c"]));
   gl3 ← solo 20 gl2.2 (Run (@UnguardIDs () "ref"));
   Some (gl1.1, map fst (map_to_list (gl_locks gl1.2)), gl2.1, gl3.1,
         map_to_list (gl_locks gl3.2), map_to_list (gl_refs gl3.2)))
  = Some (RefID "ref", ["a"; "b"], RefID "", LkIDs ids, [], []).
Proof. vm_compute. reflexivity. Qed.
