(* ===== verification/ConcReqs.v ===== *)
(** * The limit on concurrent requests

    [utils/concureqs.go]: a channel that holds a token per request that may still be
    admitted.  [Allocate] looks at the length of the channel and receives from it in
    two steps, so that other goroutines can run in between. *)
From S2P Require Import Prelude GoStrings.

Definition MetaBusy : string := "*busy".
Definition MetaQueue : string := "*queue".
Definition errDeny : string := "denying request due to maximum active requests reached".

Record ConcReqs := mkConcReqs { cr_limit : Z; cr_strategy : string; cr_aReqs : nat }.

(** A negative size of the channel panics. *)
Definition NewConReqs (reqs : Z) (strategy : string) : res ConcReqs :=
  if reqs <? 0 then Panic else Ok (mkConcReqs reqs strategy (Z.to_nat reqs)).

(** What [Allocate] does next: returns nil, returns the error, or receives. *)
Inductive allocation := Admit | Deny | Receive.

Definition allocate_check (cR : ConcReqs) : allocation :=
  if cr_limit cR =? 0 then Admit
  else if decide (cr_strategy cR = MetaBusy) then
    if (cr_aReqs cR =? 0)%nat then Deny else Receive
  else if decide (cr_strategy cR = MetaQueue) then Receive
  else Admit.

(** [<-cR.aReqs]; [None] while the channel is empty. *)
Definition allocate_receive (cR : ConcReqs) : option ConcReqs :=
  match cr_aReqs cR with
  | O => None
  | S n => Some (mkConcReqs (cr_limit cR) (cr_strategy cR) n)
  end.

(** [None] while the channel is full. *)
Definition Deallocate (cR : ConcReqs) : option ConcReqs :=
  if cr_limit cR =? 0 then Some cR
  else if Z.of_nat (cr_aReqs cR) <? cr_limit cR
       then Some (mkConcReqs (cr_limit cR) (cr_strategy cR) (S (cr_aReqs cR)))
       else None.

(** ** Requests

    A request asks to be admitted, maybe waits for a token, is served and done. *)
Inductive request := Receiving | Serving | Finished.

Definition serving (r : request) : bool := match r with Serving => true | _ => false end.

Inductive request_step : ConcReqs * list request → ConcReqs * list request → Prop :=
  | rq_admit cR rs : allocate_check cR = Admit →
      request_step (cR, rs) (cR, rs ++ [Serving])
  | rq_deny cR rs : allocate_check cR = Deny →
      request_step (cR, rs) (cR, rs ++ [Finished])
  | rq_queue cR rs : allocate_check cR = Receive →
      request_step (cR, rs) (cR, rs ++ [Receiving])
  | rq_receive cR cR' rs i : rs !! i = Some Receiving → allocate_receive cR = Some cR' →
      request_step (cR, rs) (cR', <[i := Serving]> rs)
  | rq_done cR cR' rs i : rs !! i = Some Serving → Deallocate cR = Some cR' →
      request_step (cR, rs) (cR', <[i := Finished]> rs).

(** The tokens and the requests served add up to the limit. *)
Definition balanced (reqs : Z) (strategy : string) (s : ConcReqs * list request) : Prop :=
  cr_limit s.1 = reqs ∧ cr_strategy s.1 = strategy ∧
  Z.of_nat (cr_aReqs s.1 + count serving s.2) = reqs.

Lemma request_step_balanced reqs strategy s s' :
  reqs ≠ 0 → strategy = MetaBusy ∨ strategy = MetaQueue →
  request_step s s' → balanced reqs strategy s → balanced reqs strategy s'.
Proof.
  intros Hr Hs [cR rs Hc|cR rs Hc|cR rs Hc|cR cR' rs i Hi Hc|cR cR' rs i Hi Hc] (El & Es & Et);
    unfold balanced; simpl in *; rewrite ?count_app; simpl; rewrite ?Nat.add_0_r; try done.
  - unfold allocate_check in Hc. rewrite El, Es in Hc.
    destruct (Z.eqb_spec reqs 0); [done|]. destruct Hs as [-> | ->]; simpl in Hc;
      [by case_match|done].
  - unfold allocate_receive in Hc. destruct (cr_aReqs cR) eqn:E; [done|].
    injection Hc as <-. simpl. pose proof (count_insert serving rs i _ Serving Hi).
    simpl in *. split_and!; [done..|lia].
  - unfold Deallocate in Hc. rewrite El in Hc. destruct (Z.eqb_spec reqs 0); [done|].
    destruct (_ <? _); [|done]. injection Hc as <-. simpl.
    pose proof (count_insert serving rs i _ Finished Hi).
    pose proof (count_lookup serving rs i _ Hi eq_refl). simpl in *. split_and!; [done..|lia].
Qed.

(** C9: with a limit, no more requests than the limit are served at any time, a served
    request can always be given back without blocking, a request is denied only when
    as many are served as the limit says, and while fewer are served a waiting
    request can be admitted. *)
Theorem ConcReqs_bounded (reqs : Z) (strategy : string) (cR : ConcReqs)
    (s : ConcReqs * list request)
    (Hs : strategy = MetaBusy ∨ strategy = MetaQueue) (Hr : reqs ≠ 0)
    (Hnew : NewConReqs reqs strategy = Ok cR) (Hreach : rtc request_step (cR, []) s) :
  Z.of_nat (count serving s.2) ≤ reqs ∧
  (∀ i, s.2 !! i = Some Serving → is_Some (Deallocate s.1)) ∧
  (allocate_check s.1 = Deny → Z.of_nat (count serving s.2) = reqs) ∧
  (Z.of_nat (count serving s.2) < reqs → is_Some (allocate_receive s.1)).
Proof.
  assert (balanced reqs strategy s) as (El & Es & Et).
  { refine (rtc_ind_r (R := request_step) (balanced reqs strategy) _ _ _ s Hreach).
    - unfold NewConReqs in Hnew. destruct (Z.ltb_spec reqs 0); [done|]. injection Hnew as <-.
      split_and!; [done..|]. simpl. lia.
    - intros y z _ Hst Hy. by eapply request_step_balanced. }
  split_and!.
  - lia.
  - intros i Hi. pose proof (count_lookup serving _ _ _ Hi eq_refl). unfold Deallocate.
    rewrite El. destruct (Z.eqb_spec reqs 0); [done|].
    destruct (Z.ltb_spec (Z.of_nat (cr_aReqs s.1)) reqs); [by eexists|lia].
  - unfold allocate_check. repeat case_match; try done. intros _. lia.
  - intros Hlt. unfold allocate_receive. destruct (cr_aReqs s.1) eqn:E; [lia|by eexists].
Qed.

(** One request is served, the second one denied. *)
Lemma ConcReqs_bounded_witness :
  let s := (mkConcReqs 1 MetaBusy 0, [Serving; Finished]) in
  Z.of_nat (count serving s.2) ≤ 1 ∧
  (∀ i, s.2 !! i = Some Serving → is_Some (Deallocate s.1)) ∧
  (allocate_check s.1 = Deny → Z.of_nat (count serving s.2) = 1) ∧
  (Z.of_nat (count serving s.2) < 1 → is_Some (allocate_receive s.1)).
Proof.
  intros s. apply (ConcReqs_bounded 1 MetaBusy (mkConcReqs 1 MetaBusy 1)).
  - by left.
  - done.
  - reflexivity.
  - eapply rtc_l; [apply rq_queue; reflexivity|].
    eapply rtc_l; [apply (rq_receive _ (mkConcReqs 1 MetaBusy 0) [Receiving] 0);
      reflexivity|].
    eapply rtc_once. apply (rq_deny (mkConcReqs 1 MetaBusy 0) [Serving]). reflexivity.
Defined.
