(* ===== verification/DateSeries.v ===== *)
(** * Series of years, months, month days and week days

    [utils/dateseries.go].  Each series is a slice of Go integers; a method with
    a pointer receiver returns the new slice, and a method that sorts its
    receiver in place returns the sorted slice next to its result. *)
From S2P Require Import Prelude GoFloat GoStrings GoTime.

Definition META_ANY : string := "*any".

Definition Years := list Z.
Definition Months := list Z.
Definition MonthDays := list Z.
Definition WeekDays := list Z.

(** The loops the four types repeat. *)
Section loops.
(** [for _, x := range s { if x == y { result = true; break } }] *)
Fixpoint contains_loop (s : list Z) (y : Z) : bool :=
  match s with
  | [] => false
  | x :: s' => if x =? y then true else contains_loop s' y
  end.

(** Appends to the receiver every element that reads as an integer, after the
    conversion of the type. *)
Fixpoint parse_loop (conv : Z → Z) (elements : list string) (recv : list Z)
    : list Z :=
  match elements with
  | [] => recv
  | e :: elements' =>
      match Atoi e with
      | Some v => parse_loop conv elements' (recv ++ [conv v])
      | None => parse_loop conv elements' recv
      end
  end.

(** [idx] is the position in the slice. *)
Fixpoint serialize_loop (sep : string) (idx : nat) (s : list Z) (str : string)
    : string :=
  match s with
  | [] => str
  | x :: s' =>
      serialize_loop sep (S idx) s'
        (if decide (idx ≠ 0)%nat then str +:+ sep +:+ Itoa x else Itoa x)
  end.

(** [for i := range a { if a[i] != b[i] { return false } }] on equal lengths. *)
Fixpoint equals_loop (a b : list Z) : bool :=
  match a, b with
  | x :: a', y :: b' => if negb (x =? y) then false else equals_loop a' b'
  | _, _ => true
  end.
End loops.

Section with_runtime.
Context `{GoRuntime}.

Definition Years_Sort (ys : Years) : Years := go_sort Z.ltb ys.
Definition Months_Sort (m : Months) : Months := go_sort Z.ltb m.
Definition MonthDays_Sort (md : MonthDays) : MonthDays := go_sort Z.ltb md.
Definition WeekDays_Sort (wd : WeekDays) : WeekDays := go_sort Z.ltb wd.
End with_runtime.

Definition Years_Contains (ys : Years) (year : Z) : bool := contains_loop ys year.
Definition Months_Contains (m : Months) (month : Z) : bool := contains_loop m month.
Definition MonthDays_Contains (md : MonthDays) (monthDay : Z) : bool :=
  contains_loop md monthDay.
Definition WeekDays_Contains (wd : WeekDays) (weekDay : Z) : bool :=
  contains_loop wd weekDay.

Definition Years_Parse (ys : Years) (input sep : string) : Years :=
  if decide (input = META_ANY ∨ input = "") then []
  else parse_loop id (Split input sep) ys.

Definition Months_Parse (m : Months) (input sep : string) : Months :=
  if decide (input = META_ANY ∨ input = "") then []
  else parse_loop id (Split input sep) m.

Definition MonthDays_Parse (md : MonthDays) (input sep : string) : MonthDays :=
  if decide (input = META_ANY ∨ input = "") then []
  else parse_loop id (Split input sep) md.

(** [day%7] truncates towards zero, as Go's remainder does. *)
Definition WeekDays_Parse (wd : WeekDays) (input sep : string) : WeekDays :=
  if decide (input = META_ANY ∨ input = "") then []
  else parse_loop (λ day, Z.rem day 7) (Split input sep) wd.

(** [%d] of a [time.Month] or [time.Weekday] prints the integer. *)
Definition Years_Serialize (ys : Years) (sep : string) : string :=
  if decide (length ys = 0)%nat then META_ANY else serialize_loop sep 0 ys "".
Definition Months_Serialize (m : Months) (sep : string) : string :=
  if decide (length m = 0)%nat then META_ANY else serialize_loop sep 0 m "".
Definition MonthDays_Serialize (md : MonthDays) (sep : string) : string :=
  if decide (length md = 0)%nat then META_ANY else serialize_loop sep 0 md "".
Definition WeekDays_Serialize (wd : WeekDays) (sep : string) : string :=
  if decide (length wd = 0)%nat then META_ANY else serialize_loop sep 0 wd "".

Definition Years_Equals (ys oYS : Years) : bool :=
  if negb (Nat.eqb (length ys) (length oYS)) then false else equals_loop ys oYS.
Definition Months_Equals (m oM : Months) : bool :=
  if negb (Nat.eqb (length m) (length oM)) then false else equals_loop m oM.
Definition MonthDays_Equals (md oMD : MonthDays) : bool :=
  if negb (Nat.eqb (length md) (length oMD)) then false else equals_loop md oMD.
Definition WeekDays_Equals (wd oWD : WeekDays) : bool :=
  if negb (Nat.eqb (length wd) (length oWD)) then false else equals_loop wd oWD.

Definition allMonths : Months := [1; 2; 3; 4; 5; 6; 7; 8; 9; 10; 11; 12].

(** Sorts the receiver, hence the second component. *)
Definition Months_IsComplete `{GoRuntime} (m : Months) : bool * Months :=
  let m' := Months_Sort m in
  (bool_decide (m' = allMonths), m').

Definition DaysInMonth (year month : Z) : float64 :=
  f_of_Z (Day (AddDate (Date year month 1 0 0 0 0 UTC) 0 1 (-1))).

Definition DaysInYear (year : Z) : float64 :=
  let first := Date year 1 1 0 0 0 0 UTC in
  let last := AddDate first 1 0 0 in
  fdiv (Duration_Hours (Sub last first)) (f_of_Z 24).

(** * Lemmas *)

Lemma contains_loop_spec s y : contains_loop s y = true ↔ y ∈ s.
Proof.
  induction s as [|x s IH]; simpl; [set_solver|].
  rewrite elem_of_cons, <- IH. destruct (Z.eqb_spec x y) as [->|Hne]; [tauto|].
  split; [by right|]. intros [?|?]; [congruence|done].
Qed.

Lemma parse_loop_spec conv elements recv :
  parse_loop conv elements recv = recv ++ (conv <$> omap Atoi elements).
Proof.
  revert recv. induction elements as [|e es IH]; intros recv; simpl.
  - by rewrite app_nil_r.
  - destruct (Atoi e); simpl; rewrite IH; [by rewrite <- app_assoc|done].
Qed.

Lemma serialize_loop_spec sep idx s str :
  (0 < idx)%nat → serialize_loop sep idx s str =
  match s with [] => str | _ => str +:+ sep +:+ Join (Itoa <$> s) sep end.
Proof.
  revert idx str. induction s as [|x s IH]; intros idx str Hidx; simpl; [done|].
  rewrite decide_True by lia. rewrite IH by lia.
  destruct s as [|y s]; csimpl; [by rewrite Join_single|].
  rewrite (Join_cons _ (Itoa x)) by done. by rewrite !sapp_assoc.
Qed.

Lemma serialize_loop_Join sep s : serialize_loop sep 0 s "" = Join (Itoa <$> s) sep.
Proof.
  destruct s as [|x s]; simpl; [done|].
  rewrite serialize_loop_spec by lia.
  destruct s; csimpl; [by rewrite Join_single|]. by rewrite (Join_cons _ (Itoa x)).
Qed.

Lemma equals_loop_spec a b :
  length a = length b → equals_loop a b = true ↔ a = b.
Proof.
  revert b. induction a as [|x a IH]; intros [|y b]; simpl; [easy..|].
  intros [= Hl]. destruct (Z.eqb_spec x y) as [->|]; simpl; [|split; congruence].
  rewrite IH by done. split; congruence.
Qed.

(** A separator that cannot be part of a number. *)
Definition plain_sep (c : ascii) : Prop :=
  is_digit c = false ∧ Ascii.eqb c "-" = false.

Lemma Join_Itoa_not_special x s sep :
  ¬ (Join (Itoa <$> (x :: s)) sep = META_ANY ∨ Join (Itoa <$> (x :: s)) sep = "").
Proof.
  destruct (Itoa_head x) as (c & r & E & Hc).
  assert (∃ r', Join (Itoa <$> (x :: s)) sep = String c r') as [r' ->].
  { destruct s; csimpl; [rewrite Join_single; eauto|].
    rewrite Join_cons by done. rewrite E. simpl. eauto. }
  unfold META_ANY. intros [[= -> _]|?]; [|done]. by destruct Hc.
Qed.

Lemma omap_Atoi_Itoa s : Forall int64_range s → omap Atoi (Itoa <$> s) = s.
Proof.
  induction 1 as [|x s Hx Hs IH]; csimpl; [done|]. by rewrite Atoi_Itoa, IH.
Qed.

Lemma fmap_fixed (conv : Z → Z) s : Forall (λ x, conv x = x) s → conv <$> s = s.
Proof. induction 1 as [|y s' Hy _ IH]; csimpl; [done|]. by rewrite Hy, IH. Qed.

(** The round trip the four types share. *)
Lemma series_roundtrip conv c s :
  plain_sep c → Forall int64_range s → Forall (λ x, conv x = x) s →
  (if decide (length s = 0)%nat then META_ANY
   else serialize_loop (String c "") 0 s "") = META_ANY ∧ s = [] ∨
  (∃ x s', s = x :: s' ∧
   serialize_loop (String c "") 0 s "" = Join (Itoa <$> s) (String c "") ∧
   parse_loop conv (Split (Join (Itoa <$> s) (String c "")) (String c "")) [] = s).
Proof.
  intros [Hd Hm] Hs Hconv. destruct s as [|x s]; [by left|right].
  exists x, s. split; [done|]. split; [apply serialize_loop_Join|].
  rewrite Split_Join;
    [|by csimpl|apply Forall_fmap, Forall_true; intros; by apply Itoa_has_char].
  rewrite parse_loop_spec, omap_Atoi_Itoa by done. rewrite app_nil_l.
  by apply fmap_fixed.
Qed.

Lemma series_parse_serialize conv c s :
  plain_sep c → Forall int64_range s → Forall (λ x, conv x = x) s →
  (let str := if decide (length s = 0)%nat then META_ANY
              else serialize_loop (String c "") 0 s "" in
   if decide (str = META_ANY ∨ str = "") then []
   else parse_loop conv (Split str (String c "")) []) = s.
Proof.
  intros Hc Hs Hconv.
  destruct (series_roundtrip conv c s Hc Hs Hconv) as [[E ->]|(x & s' & -> & E & Hp)].
  - done.
  - cbv zeta. rewrite (decide_False (P := (length (x :: s') = 0)%nat)) by done.
    rewrite E. rewrite decide_False by apply Join_Itoa_not_special. done.
Qed.

(** A date at midnight UTC keeps its fields. *)
Lemma Date_UTC_fields y m d :
  1 ≤ m ≤ 12 → 1 ≤ d ≤ month_len y m →
  Date_of (Date y m d 0 0 0 0 UTC) = (y, m, d) ∧
  sec_of_day (Date y m d 0 0 0 0 UTC) = 0 ∧ TNanosecond (Date y m d 0 0 0 0 UTC) = 0.
Proof.
  intros Hm Hd.
  assert (fixed UTC) as Hf by done.
  pose proof (fixed_Date y m d 0 0 0 0 UTC Hf Hm) as E.
  rewrite Z.add_0_r in E.
  assert (local_sec (Date y m d 0 0 0 0 UTC) = days_of_civil y m d * 86400) as El.
  { rewrite fixed_local_sec by (by rewrite Date_loc). rewrite E, Date_loc.
    rewrite Z.div_mul by done. change (loc_first UTC) with 0. lia. }
  split_and!.
  - unfold Date_of, day_number. rewrite El, Z.div_mul by done.
    by apply civil_of_days_of_civil.
  - unfold sec_of_day. by rewrite El, Z.mod_mul.
  - unfold TNanosecond. rewrite E. by rewrite Z.mod_mul.
Qed.

(** The day before the first of the next month. *)
Lemma last_of_month y m :
  1 ≤ m ≤ 12 →
  Date_of (AddDate (Date y m 1 0 0 0 0 UTC) 0 1 (-1)) = (y, m, month_len y m).
Proof.
  intros Hm. pose proof (month_len_range y m) as Hl.
  destruct (Date_UTC_fields y m 1 Hm ltac:(lia)) as (Ed & Es & En).
  unfold AddDate, THour, TMinute, TSecond, Year, Month, Day.
  rewrite Ed, Es, En, Date_loc. simpl.
  set (t := Date _ _ _ _ _ _ _ _).
  assert (t_ns t = days_of_civil y m (month_len y m) * 86400 * Second) as Et.
  { subst t. unfold Date. simpl.
    pose proof (days_of_civil_next_month y m Hm) as Hn.
    replace (m + 1 - 1) with m by lia. rewrite (Z.add_0_r y), Hn.
    rewrite (days_of_civil_day y m (month_len y m)). unfold Second. lia. }
  unfold Date_of, day_number.
  rewrite fixed_local_sec by (subst t; by rewrite Date_loc).
  rewrite Et, Z.div_mul by done. subst t. rewrite Date_loc. simpl.
  rewrite Z.add_0_r, Z.div_mul by done. apply civil_of_days_of_civil; lia.
Qed.

Lemma allMonths_sorted : sorted_by Z.ltb allMonths.
Proof. unfold sorted_by, allMonths. repeat (constructor; [|repeat constructor]). constructor. Qed.

Lemma DaysInYear_span year :
  let first := Date year 1 1 0 0 0 0 UTC in
  Sub (AddDate first 1 0 0) first = (if is_leap year then 366 else 365) * 24 * Hour.
Proof.
  intros first.
  assert (t_ns first = days_of_civil year 1 1 * 86400 * Second) as Ef.
  { subst first. rewrite fixed_Date by (done || lia).
    change (loc_first UTC) with 0. unfold Second. lia. }
  assert (t_ns (AddDate first 1 0 0) = days_of_civil (year + 1) 1 1 * 86400 * Second)
    as El.
  { destruct (Date_UTC_fields year 1 1 ltac:(lia) ltac:(pose proof (month_len_range year 1); lia))
      as (Ed & Es & En).
    unfold AddDate, THour, TMinute, TSecond, Year, Month, Day. subst first.
    rewrite Ed, Es, En, Date_loc. cbn [fst snd].
    rewrite fixed_Date by (done || lia).
    rewrite !Z.add_0_r. change (loc_first UTC) with 0. unfold Second. lia. }
  pose proof (days_of_civil_next_year year) as Hn.
  assert (t_ns (AddDate first 1 0 0) - t_ns first
          = (if is_leap year then 366 else 365) * 24 * Hour) as E.
  { rewrite Ef, El, Hn. unfold Hour, Minute, Second. destruct (is_leap year); lia. }
  rewrite Sub_exact; [done|]. rewrite E. by destruct (is_leap year).
Qed.

(** * Properties *)

(** Reading a series back from its serialised form gives the series, for
    years, months, month days and week days, with any one-character separator
    that is neither a digit nor a minus sign. *)
Theorem series_serialize_parse (c : ascii) (ys : Years) (ms : Months)
    (mds : MonthDays) (wds : WeekDays)
    (Hc : plain_sep c) (Hys : Forall int64_range ys) (Hms : Forall int64_range ms)
    (Hmds : Forall int64_range mds) (Hwds : Forall (λ d, 0 ≤ d < 7) wds) :
  let sep := String c "" in
  Years_Parse [] (Years_Serialize ys sep) sep = ys ∧
  Months_Parse [] (Months_Serialize ms sep) sep = ms ∧
  MonthDays_Parse [] (MonthDays_Serialize mds sep) sep = mds ∧
  WeekDays_Parse [] (WeekDays_Serialize wds sep) sep = wds.
Proof.
  assert (∀ s : list Z, Forall (λ x, id x = x) s) as Hid
    by (intros s; by apply Forall_true).
  split_and!; [by apply (series_parse_serialize id)..|].
  apply (series_parse_serialize (λ d, Z.rem d 7)); [done|..].
  - eapply Forall_impl; [exact Hwds|].
    unfold int64_range, min_int64, max_int64. simpl. lia.
  - eapply Forall_impl; [exact Hwds|]. simpl. intros d ?. by apply Z.rem_small.
Qed.

Lemma series_serialize_parse_witness :
  Years_Serialize [2012; 2013] ";" = "2012;2013" ∧
  Years_Parse [] (Years_Serialize [2012; 2013] ";") ";" = [2012; 2013] ∧
  Months_Parse [] (Months_Serialize [] ";") ";" = [] ∧
  MonthDays_Parse [] (MonthDays_Serialize [31] ";") ";" = [31] ∧
  WeekDays_Parse [] (WeekDays_Serialize [0; 6] ";") ";" = [0; 6].
Proof.
  split; [reflexivity|].
  apply (series_serialize_parse ";" [2012; 2013] [] [31] [0; 6]).
  - split; reflexivity.
  - repeat constructor; by vm_compute.
  - constructor.
  - repeat constructor; by vm_compute.
  - repeat constructor; by vm_compute.
Defined.

(** A series parsed from a list of numbers means what its membership test
    says: a value is contained exactly when some element of the input reads as
    an integer and is that value (modulo 7 for week days), or was in the
    receiver; the inputs "*any" and "" leave an empty series. *)
Theorem series_parse_contains (s : list Z) (input sep : string) (v : Z) :
  let given := input ≠ META_ANY ∧ input ≠ "" in
  (Years_Contains (Years_Parse s input sep) v = true ↔
     given ∧ (v ∈ s ∨ Some v ∈ Atoi <$> Split input sep)) ∧
  (Months_Contains (Months_Parse s input sep) v = true ↔
     given ∧ (v ∈ s ∨ Some v ∈ Atoi <$> Split input sep)) ∧
  (MonthDays_Contains (MonthDays_Parse s input sep) v = true ↔
     given ∧ (v ∈ s ∨ Some v ∈ Atoi <$> Split input sep)) ∧
  (WeekDays_Contains (WeekDays_Parse s input sep) v = true ↔
     given ∧ (v ∈ s ∨ ∃ d, Some d ∈ Atoi <$> Split input sep ∧ v = Z.rem d 7)).
Proof.
  assert (∀ conv, contains_loop
     (if decide (input = META_ANY ∨ input = "") then []
      else parse_loop conv (Split input sep) s) v = true ↔
     (input ≠ META_ANY ∧ input ≠ "") ∧
     (v ∈ s ∨ ∃ d, Some d ∈ Atoi <$> Split input sep ∧ v = conv d)) as H.
  { intros conv. rewrite contains_loop_spec. destruct (decide _) as [Hd|Hd].
    - rewrite elem_of_nil. tauto.
    - rewrite parse_loop_spec, elem_of_app, list_elem_of_fmap.
      setoid_rewrite list_elem_of_omap. setoid_rewrite list_elem_of_fmap.
      split.
      + intros Hv. split; [tauto|].
        destruct Hv as [?|(d & -> & x & Hx & Hd')]; eauto 10.
      + intros [_ [?|(d & (x & Hd' & Hx) & ->)]]; eauto 10. }
  assert (∀ l : list (option Z), (∃ d, Some d ∈ l ∧ v = id d) ↔ Some v ∈ l) as Hid.
  { intros l. unfold id. split; [by intros (d & ? & ->)|eauto]. }
  intros given. split_and!; [..|apply H].
  all: etransitivity; [apply (H id)|]; by rewrite Hid.
Qed.

(** A months series is complete exactly when it lists each of the twelve
    months once, in any order; the test leaves the receiver sorted. *)
Theorem Months_IsComplete_spec `{GoRuntime} (m : Months) :
  ((Months_IsComplete m).1 = true ↔ m ≡ₚ allMonths) ∧
  (Months_IsComplete m).2 ≡ₚ m ∧ sorted_by Z.ltb (Months_IsComplete m).2.
Proof.
  unfold Months_IsComplete, Months_Sort; simpl.
  split_and!; [|apply go_sort_perm|apply go_sort_all, _].
  rewrite bool_decide_eq_true. split.
  - intros <-. symmetry. apply go_sort_perm.
  - intros Hp. apply (sorted_by_unique Z.ltb); [lia|apply go_sort_all, _|..].
    + apply allMonths_sorted.
    + by rewrite go_sort_perm.
Qed.

(** The day counts are those of the Gregorian calendar: 28 to 31 days per
    month, with 29 in February of a leap year, and 365 or 366 days per year. *)
Theorem Days_calendar (year month : Z) (Hm : 1 ≤ month ≤ 12) :
  DaysInMonth year month = f_of_Z (month_len year month) ∧
  DaysInYear year = f_of_Z (if is_leap year then 366 else 365).
Proof.
  split.
  - unfold DaysInMonth, Day. by rewrite last_of_month.
  - unfold DaysInYear. cbv zeta. rewrite DaysInYear_span.
    by destruct (is_leap year); vm_compute.
Qed.

Lemma Days_calendar_witness :
  DaysInMonth 2012 2 = f_of_Z 29 ∧ DaysInYear 1900 = f_of_Z 365.
Proof.
  split.
  - exact (proj1 (Days_calendar 2012 2 ltac:(lia))).
  - exact (proj2 (Days_calendar 1900 2 ltac:(lia))).
Defined.
