(* ===== verification/CoreUtils.v ===== *)
(** * The core helpers

    [utils/coreutils.go]: the bounded counter, rounding of floats and durations,
    destination prefixes, composed keys, fixed-width fields, hierarchy paths and
    the small calendar helpers.  A function that can slice or index out of range
    returns in [res]; [time.Now()] is an argument. *)
From S2P Require Import Prelude GoFloat FloatExact GoStrings GoTime.

Definition ROUNDING_UP : string := "*up".
Definition ROUNDING_MIDDLE : string := "*middle".
Definition ROUNDING_DOWN : string := "*down".
Definition CONCATENATED_KEY_SEP : string := ":".
Definition INFIELD_SEP : string := ";".
Definition NestingSep : string := ".".
Definition MASK_CHAR : string := "*".
Definition ZERO : string := "*zero".
Definition MetaRight : string := "*right".
Definition MetaLeft : string := "*left".
Definition MetaXRight : string := "*xright".
Definition MetaXLeft : string := "*xleft".
Definition MetaZeroLeft : string := "*zeroleft".

(** ** Counter *)

(** The mutex makes each method one step. *)
Record Counter := mkCounter { cnt_value : Z; cnt_limit : Z }.

Definition NewCounter (start limit : Z) : Counter := mkCounter start limit.

Definition Counter_Next (c : Counter) : Z * Counter :=
  let v := add64 (cnt_value c) 1 in
  let v := if (0 <? cnt_limit c) && (cnt_limit c <? v) then 0 else v in
  (v, mkCounter v (cnt_limit c)).

Definition Counter_Value (c : Counter) : Z := cnt_value c.

(** ** Strings and keys *)

Fixpoint FirstNonEmpty (vals : list string) : string :=
  match vals with
  | [] => ""
  | val :: vals' => if slen val =? 0 then FirstNonEmpty vals' else val
  end.

(** The hexadecimal form of the hash of a text. *)
Class GoHash := { sha1_hex : string → string }.
Definition Sha1 `{GoHash} (attrs : list string) : string := sha1_hex (Join attrs "").

Definition ConcatenatedKey (keyVals : list string) : string :=
  Join keyVals CONCATENATED_KEY_SEP.
Definition SplitConcatenatedKey (key : string) : list string :=
  Split key CONCATENATED_KEY_SEP.
Definition InfieldJoin (vals : list string) : string := Join vals INFIELD_SEP.
Definition InfieldSplit (val : string) : list string := Split val INFIELD_SEP.

Definition StringPointer (str : string) : option string :=
  if decide (str = ZERO) then Some "" else Some str.

(** [math.Max] *)
Definition Max (x y : float64) : float64 :=
  match x, y with
  | S754_infinity false, _ | _, S754_infinity false => S754_infinity false
  | S754_nan, _ | _, S754_nan => S754_nan
  | S754_zero sx, S754_zero _ => if sx then y else x
  | _, _ => if fgtb x y then x else y
  end.

Definition SplitPrefix (prefix : string) (minLength : Z) : res (list string) :=
  let length := f_to_int64 (Max (f_of_Z (slen prefix - (minLength - 1))) f0) in
  let max := slen prefix in
  res_map (λ i, slice prefix 0 (max - Z.of_nat i)) (seq 0 (Z.to_nat length)).

Record TenantID := mkTenantID { tid_Tenant : string; tid_ID : string }.

Definition NewTenantID (tntID : string) : TenantID :=
  if Index tntID CONCATENATED_KEY_SEP =? -1 then mkTenantID "" tntID
  else match Split tntID CONCATENATED_KEY_SEP with
       | t :: ids => mkTenantID t (ConcatenatedKey ids)
       | [] => mkTenantID "" tntID (* Split of a non-empty separator is not empty *)
       end.

Definition TenantID_TenantID (tID : TenantID) : string :=
  ConcatenatedKey [tid_Tenant tID; tid_ID tID].

(** [strings.ToUpper] on ASCII and [strings.Replace(s, " ", "_", -1)] *)
Definition upper (c : ascii) : ascii :=
  let n := N_of_ascii c in
  if (97 <=? n)%N && (n <=? 122)%N then ascii_of_N (n - 32) else c.
Fixpoint smap (f : ascii → ascii) (s : string) : string :=
  match s with EmptyString => "" | String c s' => String (f c) (smap f s') end.

Definition CapitalizedMessage (errMessage : string) : string :=
  let capStr := smap upper errMessage in
  smap (λ c, if Ascii.eqb c " " then "_"%char else c) capStr.

(** The loop over the parameters of a URL query; a later value of a key
    overwrites an earlier one. *)
Definition url_argument (out : gmap string string) (paramPair : string)
    : gmap string string :=
  let idx := Index paramPair "=" in
  if idx =? -1 then out
  else <[stake (Z.to_nat idx) paramPair := sdrop (Z.to_nat (idx + 1)) paramPair]> out.

Definition GetUrlRawArguments (dialURL : string) : gmap string string :=
  let idx := Index dialURL "?" in
  if idx =? -1 then ∅
  else
    let strParams := sdrop (Z.to_nat (idx + 1)) dialURL in
    if slen strParams =? 0 then ∅
    else foldl url_argument ∅ (Split strParams "&").

(** ** Hierarchy paths *)

(** [strings.Trim] with a set of bytes. *)
Fixpoint trim_left_set (cutset s : string) : string :=
  match s with
  | EmptyString => ""
  | String c s' => if has_char c cutset then trim_left_set cutset s' else s
  end.
Fixpoint trim_right_set (cutset s : string) : string :=
  match s with
  | EmptyString => ""
  | String c s' =>
      match trim_right_set cutset s' with
      | EmptyString => if has_char c cutset then "" else String c ""
      | r => String c r
      end
  end.
Definition Trim (s cutset : string) : string :=
  trim_right_set cutset (trim_left_set cutset s).

Definition HierarchyPath := list string.

Definition ParseHierarchyPath (path sep : string) : HierarchyPath :=
  let sep :=
    if decide (sep = "") then
      if negb (Index path "/" =? -1) then "/" else NestingSep
    else sep in
  Split (Trim path sep) sep.

Fixpoint hierarchy_loop (sep : string) (prefix : bool) (idx : nat) (h : list string)
    (retStr : string) : string :=
  match h with
  | [] => retStr
  | itm :: h' =>
      let retStr :=
        if decide (idx = 0)%nat then if prefix then retStr +:+ sep else retStr
        else retStr +:+ sep in
      hierarchy_loop sep prefix (S idx) h' (retStr +:+ itm)
  end.

Definition HierarchyPath_AsString (h : HierarchyPath) (sep : string) (prefix : bool)
    : string :=
  if decide (length h = 0)%nat then "" else hierarchy_loop sep prefix 0 h "".

Definition MaskSuffix (dest : string) (maskLen : Z) : res string :=
  let destLen := slen dest in
  if maskLen <? 0 then Ok dest
  else
    let maskLen := if destLen <? maskLen then destLen else maskLen in
    dest ← slice dest 0 (destLen - maskLen);
    Ok (dest +:+ srepeat MASK_CHAR (Z.to_nat maskLen)).

(** ** Fixed-width fields *)

(** The number of code points of valid UTF-8: the bytes that do not continue
    one.  [fmt] pads to a width in code points, while [len] counts bytes. *)
Fixpoint rune_count (s : string) : Z :=
  match s with
  | EmptyString => 0
  | String c s' =>
      (if (N.land (N_of_ascii c) 192 =? 128)%N then 0 else 1) + rune_count s'
  end.

(** The verbs ["%-Ns"], ["%Ns"] and ["%0Ns"]. *)
Definition pad_right (width : Z) (s : string) : string :=
  s +:+ srepeat " " (Z.to_nat (width - rune_count s)).
Definition pad_left (fill : string) (width : Z) (s : string) : string :=
  srepeat fill (Z.to_nat (width - rune_count s)) +:+ s.

Definition FmtFieldWidth (fieldID source : string) (width : Z) (strip padding : string)
    (mandatory : bool) : res string :=
  if mandatory && (slen source =? 0) then
    Err ("Empty source value for fieldID: <" +:+ fieldID +:+ ">")
  else if width =? 0 then Ok source
  else if slen source =? width then Ok source
  else if width <? slen source then
    if slen strip =? 0 then
      Err ("Source " +:+ source +:+ " is bigger than the width " +:+ Itoa width +:+
           ", no strip defied, fieldID: <" +:+ fieldID +:+ ">")
    else if decide (strip = MetaRight) then slice source 0 width
    else if decide (strip = MetaXRight) then
      s ← slice source 0 (width - 1); Ok (s +:+ "x")
    else if decide (strip = MetaLeft) then
      let diffIndx := slen source - width in slice source diffIndx (slen source)
    else if decide (strip = MetaXLeft) then
      let diffIndx := slen source - width in
      s ← slice source (diffIndx + 1) (slen source); Ok ("x" +:+ s)
    else Ok source
  else
    if slen padding =? 0 then
      Err ("Source " +:+ source +:+ " is smaller than the width " +:+ Itoa width +:+
           ", no padding defined, fieldID: <" +:+ fieldID +:+ ">")
    else if decide (padding = MetaRight) then Ok (pad_right width source)
    else if decide (padding = MetaLeft) then Ok (pad_left " " width source)
    else if decide (padding = MetaZeroLeft) then Ok (pad_left "0" width source)
    else Ok source.

(** ** Numbers and durations *)

Definition Round (x : float64) (prec : Z) (method : string) : float64 :=
  let maxPrec := 7 in
  let maxPrec := if maxPrec <? prec then prec else maxPrec in
  let pow := Pow_int (f_of_Z 10) prec in
  let intermed := fmul x pow in
  let '(_, frac) := Modf intermed in
  let rounder :=
    if decide (method = ROUNDING_UP) then
      if fgeb frac (Pow10_neg maxPrec) then Ceil intermed else Floor intermed
    else if decide (method = ROUNDING_DOWN) then Floor intermed
    else if decide (method = ROUNDING_MIDDLE) then
      if fgeb frac f_half then Ceil intermed else Floor intermed
    else intermed in
  fdiv rounder pow.

Definition RoundDuration (whole amount : Z) : Z :=
  let a := f_of_Z amount in
  let w := f_of_Z whole in
  if feqb (Mod a w) f0 then amount
  else f_to_int64 (fadd (fsub w (Mod a w)) a).

Definition MinDuration (d1 d2 : Z) : Z := if d1 <? d2 then d1 else d2.

(** The closure of [Fib] over its two variables: a call and the next state. *)
Definition Fib_init : Z * Z := (0, 1).
Definition Fib_next (ab : Z * Z) : Z * (Z * Z) :=
  let '(a, b) := ab in (b, (b, add64 a b)).

(** ** Calendar helpers *)

Definition CopyHour (src dest : Time) : Time :=
  if (THour src =? 0) && (TMinute src =? 0) && (TSecond src =? 0) then src
  else Date (Year dest) (Month dest) (Day dest) (THour src) (TMinute src)
         (TSecond src) (TNanosecond src) (t_loc src).

Definition GetEndOfMonth (now ref : Time) : Time :=
  if IsZero ref then now
  else
    let '(year, month) :=
      if Month ref =? 12 then (Year ref + 1, 1) else (Year ref, Month ref + 1) in
    let eom := Date year month 1 0 0 0 0 (t_loc ref) in
    Add eom (- Second).

Definition TimeIs0h (t : Time) : bool :=
  (THour t =? 0) && (TMinute t =? 0) && (TSecond t =? 0).

(** * Lemmas *)

Lemma Max_f0_exact z : exact_range z → f_to_int64 (Max (f_of_Z z) f0) = Z.max z 0.
Proof.
  intros Hz. destruct (decide (z = 0)) as [->|Hz0]; [done|].
  destruct (f_of_Z_finite z Hz Hz0) as (s & m & e & E & _ & Hs & _).
  assert (Max (f_of_Z z) f0 = if z <? 0 then f0 else f_of_Z z) as ->.
  { rewrite E, Hs. unfold Max, f0. by destruct (z <? 0). }
  destruct (Z.ltb_spec z 0); [|rewrite f_to_int64_exact by done; lia].
  change (f_to_int64 f0) with 0. lia.
Qed.

Lemma slice_ok s i j :
  0 ≤ i ≤ j → j ≤ slen s →
  slice s i j = Ok (String.substring (Z.to_nat i) (Z.to_nat (j - i)) s).
Proof. intros. unfold slice. rewrite decide_True by lia. done. Qed.

Lemma slice_prefix s j :
  0 ≤ j ≤ slen s → slice s 0 j = Ok (stake (Z.to_nat j) s).
Proof.
  intros. rewrite slice_ok by lia. rewrite Z.sub_0_r. simpl.
  by rewrite substring_stake.
Qed.

Lemma substring_length n k s :
  (n + k ≤ String.length s)%nat → String.length (String.substring n k s) = k.
Proof.
  revert n k. induction s as [|c s IH]; intros [|n] [|k]; simpl; try lia.
  - intros. rewrite IH; lia.
  - intros. apply IH. lia.
  - intros. apply IH. lia.
Qed.

Lemma slice_length s i j r : slice s i j = Ok r → slen r = j - i.
Proof.
  unfold slice. destruct (decide _) as [H|]; [|done]. intros [= <-].
  unfold slen in *. rewrite substring_length; lia.
Qed.

Lemma res_map_ok {A B} (f : A → res B) (g : A → B) l :
  (∀ x, x ∈ l → f x = Ok (g x)) → res_map f l = Ok (g <$> l).
Proof.
  induction l as [|x l IH]; intros Hf; [done|]. simpl.
  rewrite Hf by left. simpl. rewrite IH; [done|]. intros. apply Hf. by right.
Qed.

(** Strings of single bytes per character. *)
Fixpoint is_ascii (s : string) : bool :=
  match s with
  | EmptyString => true
  | String c s' => (N_of_ascii c <? 128)%N && is_ascii s'
  end.

Lemma rune_count_ascii s : is_ascii s = true → rune_count s = slen s.
Proof.
  unfold slen. induction s as [|c s IH]; simpl; [done|]. intros [Hc Hs]%andb_true_iff.
  rewrite IH by done.
  assert ((N.land (N_of_ascii c) 192 =? 128)%N = false) as ->; [|lia].
  apply N.eqb_neq. intros E. apply N.ltb_lt in Hc.
  assert (N.testbit (N_of_ascii c) 7 = true) as Hb.
  { pose proof (N.land_spec (N_of_ascii c) 192 7) as Hl. rewrite E in Hl.
    by destruct (N.testbit (N_of_ascii c) 7). }
  rewrite <- (N.mod_small _ 128 Hc) in Hb.
  by rewrite (N.mod_pow2_bits_high _ 7 7) in Hb.
Qed.

Lemma slen_app a b : slen (a +:+ b) = slen a + slen b.
Proof. unfold slen. rewrite slength_app. lia. Qed.

Lemma slen_srepeat1 c n : slen (srepeat (String c "") n) = Z.of_nat n.
Proof. unfold slen. rewrite srepeat_length. simpl. lia. Qed.

Lemma Index_go_single c s i :
  (has_char c s = false → Index_go s (String c "") i = -1) ∧
  (has_char c s = true → i ≤ Index_go s (String c "") i).
Proof.
  revert i. induction s as [|d s IH]; intros i; simpl; [done|].
  destruct (ascii_dec c d) as [->|Hne].
  - rewrite Ascii.eqb_refl. simpl. split; [done|]. intros _.
    destruct s; simpl; lia.
  - destruct (Ascii.eqb_spec c d) as [|_]; [done|]. simpl.
    destruct (IH (i + 1)) as [H1 H2]. split; [done|]. intros. specialize (H2 H). lia.
Qed.

Lemma Index_single_none c s :
  (Index s (String c "") =? -1) = negb (has_char c s).
Proof.
  unfold Index. destruct (Index_go_single c s 0) as [H1 H2].
  destruct (has_char c s).
  - specialize (H2 eq_refl). simpl. lia.
  - rewrite H1 by done. done.
Qed.

(** Finding and cutting out the text before a character. *)
Lemma Index_at c a b :
  has_char c a = false → Index (a +:+ String c b) (String c "") = slen a.
Proof.
  unfold Index. intros Ha.
  assert (∀ i, Index_go (a +:+ String c b) (String c "") i = i + slen a) as Hi; [|by rewrite Hi].
  revert Ha. induction a as [|d a IH]; simpl; intros Ha i.
  - destruct (ascii_dec c c); [|done]. destruct b; unfold slen; simpl; lia.
  - apply orb_false_iff in Ha as [Hd Ha]. destruct (ascii_dec c d) as [->|].
    + by rewrite Ascii.eqb_refl in Hd.
    + rewrite IH by done. unfold slen. simpl. lia.
Qed.

Lemma slice_before a b : slice (a +:+ b) 0 (slen a) = Ok a.
Proof.
  unfold slice. rewrite decide_True by (rewrite slen_app; unfold slen; lia).
  rewrite Z.sub_0_r, substring_stake. unfold slen. rewrite Nat2Z.id. f_equal.
  induction a as [|c a IH]; simpl; [done|by rewrite IH].
Qed.

Lemma substring_drop n k s : (String.length s ≤ n + k)%nat → String.substring n k s = sdrop n s.
Proof.
  revert n k. induction s as [|c s IH]; intros [|n] k Hk; simpl in *; try done.
  - by destruct k.
  - destruct k; simpl; [lia|]. rewrite <- (stake_all k s) at 2 by lia.
    by rewrite substring_stake.
  - apply IH. lia.
Qed.

Lemma slice_after c a b : slice (a +:+ String c b) (slen a + 1) (slen (a +:+ String c b)) = Ok b.
Proof.
  unfold slice. rewrite slen_app. unfold slen. simpl String.length.
  rewrite decide_True by lia. f_equal. rewrite substring_drop.
  - replace (Z.to_nat (Z.of_nat (String.length a) + 1)) with (String.length (a +:+ String c ""))
      by (rewrite slength_app; simpl; lia).
    change (String c b) with (String c "" +:+ b). by rewrite sapp_assoc, sdrop_app.
  - rewrite slength_app. simpl. lia.
Qed.

Lemma stake_app a b : stake (String.length a) (a +:+ b) = a.
Proof. induction a as [|c a IH]; simpl; [by destruct b|by rewrite IH]. Qed.
Lemma substring_middle a b r :
  String.substring (String.length a) (String.length b) (a +:+ (b +:+ r)) = b.
Proof.
  induction a as [|c a IH]; simpl; [|done]. by rewrite substring_stake, stake_app.
Qed.
Lemma slice_middle a b r : slice (a +:+ (b +:+ r)) (slen a) (slen a + slen b) = Ok b.
Proof.
  rewrite slice_ok by (rewrite ?slen_app; unfold slen; lia). f_equal.
  replace (slen a + slen b - slen a) with (slen b) by lia. unfold slen. rewrite !Nat2Z.id.
  apply substring_middle.
Qed.

Lemma Split_nonempty s c : ∃ h t, Split s (String c "") = h :: t.
Proof. unfold Split. destruct (Split_go _ 0 s). eauto. Qed.

Lemma Split_has_char c s : has_char c s = true → ∃ h h' t, Split s (String c "") = h :: h' :: t.
Proof.
  intros Hc. destruct (Split_nonempty s c) as (h & [|h' t] & E); [exfalso|eauto].
  pose proof (Join_Split s (String c "") ltac:(done)) as Hj. rewrite E, Join_single in Hj.
  subst h. revert E Hc. unfold Split.
  assert (∀ h, Split_go (String c "") 0 s = (h, []) → has_char c s = false) as Hs.
  { clear. induction s as [|d s IH]; simpl; intros h; [done|].
    destruct (ascii_dec c d) as [->|Hne].
    - destruct (Split_go _ 0 s) as [h' t']. destruct s; done.
    - destruct (Split_go _ 0 s) as [h' t'] eqn:E. intros [= _ ->].
      destruct (Ascii.eqb_spec c d); [done|]. by eapply IH. }
  destruct (Split_go _ 0 s) as [h t] eqn:E. intros [= -> ->].
  by rewrite (Hs s).
Qed.

Lemma hierarchy_loop_spec sep prefix idx h str :
  (0 < idx)%nat → hierarchy_loop sep prefix idx h str =
  match h with [] => str | _ => str +:+ sep +:+ Join h sep end.
Proof.
  revert idx str. induction h as [|x h IH]; intros idx str Hidx; simpl; [done|].
  rewrite decide_False by lia. rewrite IH by lia.
  destruct h as [|y h]; [by rewrite Join_single, sapp_assoc|].
  rewrite (Join_cons _ x) by done. by rewrite !sapp_assoc.
Qed.

(** A path is its elements joined, with a separator in front on demand. *)
Lemma AsString_Join h sep prefix :
  h ≠ [] → HierarchyPath_AsString h sep prefix =
  (if prefix then sep else "") +:+ Join h sep.
Proof.
  destruct h as [|x h]; [done|intros _]. unfold HierarchyPath_AsString. simpl.
  rewrite hierarchy_loop_spec by lia.
  destruct h; [by destruct prefix|].
  rewrite (Join_cons _ x) by done. by destruct prefix; rewrite ?sapp_assoc.
Qed.

(** A prefix is an initial part of the string. *)
Lemma HasPrefix_stake s p :
  HasPrefix s p = true ↔ p = stake (String.length p) s.
Proof.
  unfold HasPrefix. rewrite prefix_spec. split.
  - intros [r ->]. induction p as [|c p IH]; simpl; [by destruct r|]. by f_equal.
  - intros E. exists (sdrop (String.length p) s). rewrite E at 1.
    by rewrite stake_sdrop.
Qed.

Lemma RoundDuration_exact whole amount :
  0 < whole → 0 ≤ amount → whole + amount < 2 ^ 53 →
  RoundDuration whole amount =
  if Z.rem amount whole =? 0 then amount else whole - Z.rem amount whole + amount.
Proof.
  intros Hw Ha Hs. unfold RoundDuration. cbv zeta.
  assert (exact_range amount ∧ exact_range whole) as [Hra Hrw]
    by (unfold exact_range; lia).
  destruct (Mod_exact amount whole Hra Hrw ltac:(lia)) as [Hne He0].
  pose proof (Z.rem_bound_pos amount whole Ha Hw) as Hb.
  destruct (Z.eqb_spec (Z.rem amount whole) 0) as [E|E].
  - destruct (He0 E) as [s ->]. by rewrite feqb_f0.
  - rewrite (Hne E). assert (exact_range (Z.rem amount whole)) as Hrm
      by (unfold exact_range in *; lia).
    rewrite feqb_f0_exact, (proj2 (Z.eqb_neq _ _)) by done.
    rewrite fsub_exact, fadd_exact, f_to_int64_exact;
      [done|unfold exact_range in *; lia..].
Qed.

(** Rounding to six decimals keeps integers that have room for them. *)
Lemma Round_exact z :
  exact_range (z * 1000000) → Round (f_of_Z z) 6 ROUNDING_MIDDLE = f_of_Z z.
Proof.
  intros Hz. destruct (decide (z = 0)) as [->|Hz0]; [vm_compute; done|].
  assert (exact_range z) by (unfold exact_range in *; lia).
  unfold Round. cbv zeta. change (Pow_int (f_of_Z 10) 6) with (f_of_Z 1000000).
  rewrite fmul_exact by (done || lia).
  destruct (Modf_exact _ Hz) as [s ->].
  replace (fgeb (S754_zero s) f_half) with false by (destruct s; vm_compute; done).
  rewrite Floor_exact by done. simpl decide. by apply fdiv_exact.
Qed.

Lemma trim_right_app cutset a b :
  b ≠ "" → trim_right_set cutset b = b → trim_right_set cutset (a +:+ b) = a +:+ b.
Proof.
  intros Hb Hr. induction a as [|c a IH]; simpl; [done|]. rewrite IH.
  destruct (a +:+ b) eqn:E; [|done]. by destruct a, b.
Qed.

Lemma trim_right_clean c s :
  s ≠ "" → has_char c s = false → trim_right_set (String c "") s = s.
Proof.
  induction s as [|d s IH]; [done|]. intros _. simpl. intros [Hd Hs]%orb_false_iff.
  destruct s as [|e s]; [simpl|by rewrite IH].
  rewrite Ascii.eqb_sym, Hd. done.
Qed.

(** Trimming the separator of a joined path only drops the leading one. *)
Lemma Trim_joined c h prefix :
  h ≠ [] → Forall (λ x, x ≠ "" ∧ has_char c x = false) h →
  Trim (HierarchyPath_AsString h (String c "") prefix) (String c "")
  = Join h (String c "").
Proof.
  intros Hne Hh. rewrite AsString_Join by done.
  assert (∃ d r, Join h (String c "") = String d r ∧ Ascii.eqb d c = false)
    as (d & r & Ej & Hd).
  { destruct Hh as [|x h' [Hx Hc] _]; [done|]. destruct x as [|d x]; [done|].
    simpl in Hc. apply orb_false_iff in Hc as [Hc _].
    exists d. destruct h'; [rewrite Join_single|rewrite Join_cons by done];
      simpl; rewrite Ascii.eqb_sym; eauto. }
  assert (trim_left_set (String c "") ((if prefix then String c "" else "") +:+
            Join h (String c "")) = Join h (String c "")) as El.
  { destruct prefix; simpl; rewrite ?Ascii.eqb_refl, Ej; simpl; by rewrite Hd. }
  unfold Trim. rewrite El. clear El Ej Hd d r.
  induction Hh as [|x h' [Hx Hc] Hh' IH]; [done|].
  destruct h' as [|y h']; [rewrite Join_single; by apply trim_right_clean|].
  rewrite Join_cons by done. rewrite sapp_assoc.
  apply trim_right_app; [|by apply IH].
  inversion Hh' as [|? ? [Hy _] _]; subst. destruct y; [done|].
  destruct h'; [by rewrite Join_single|by rewrite Join_cons].
Qed.

Lemma GetEndOfMonth_eom now ref :
  IsZero ref = false → fixed (t_loc ref) →
  t_ns (GetEndOfMonth now ref) =
  ((days_of_civil (Year ref) (Month ref) 1 + month_len (Year ref) (Month ref)) * 86400
     - 1 - loc_first (t_loc ref)) * Second
  ∧ t_loc (GetEndOfMonth now ref) = t_loc ref.
Proof.
  intros Hz Hf. pose proof (Month_range ref) as Hm. unfold GetEndOfMonth. rewrite Hz.
  rewrite <- days_of_civil_next_month by done.
  assert (∃ y m, (if Month ref =? 12 then (Year ref + 1, 1)
                  else (Year ref, Month ref + 1)) = (y, m) ∧
     y = Year ref + Month ref / 12 ∧ m = Month ref mod 12 + 1) as (y & m & -> & Hy & Hmm).
  { destruct (Z.eqb_spec (Month ref) 12) as [->|]; do 2 eexists; (split; [done|]).
    - done.
    - rewrite Z.div_small, Z.mod_small by lia. lia. }
  subst y m. unfold Add. simpl. rewrite Date_loc. split; [|done].
  rewrite fixed_Date by (done || lia). lia.
Qed.

Lemma SplitPrefix_ok prefix minLength :
  1 ≤ minLength → slen prefix + minLength < 2 ^ 53 →
  SplitPrefix prefix minLength =
  Ok ((λ i, stake (Z.to_nat (slen prefix - Z.of_nat i)) prefix)
        <$> seq 0 (Z.to_nat (slen prefix - (minLength - 1)))).
Proof.
  intros Hm Hs. unfold SplitPrefix. cbv zeta.
  rewrite Max_f0_exact by (unfold exact_range, slen in *; lia).
  replace (Z.to_nat (Z.max (slen prefix - (minLength - 1)) 0))
    with (Z.to_nat (slen prefix - (minLength - 1))) by lia.
  apply res_map_ok. intros i Hi%elem_of_seq. apply slice_prefix. lia.
Qed.

Lemma Split_TenantID t i :
  has_char ":" t = false → Split (t +:+ String ":" i) ":" = t :: Split i ":".
Proof.
  intros Ht. unfold Split. simpl. rewrite Split_go_piece by done.
  by destruct (Split_go ":" 0 i).
Qed.

Lemma Counter_Next_bounded c :
  0 ≤ cnt_value c ≤ cnt_limit c → 0 < cnt_limit c < max_int64 →
  (Counter_Next c).1 = (cnt_value c + 1) mod (cnt_limit c + 1) ∧
  (Counter_Next c).2 = mkCounter ((cnt_value c + 1) mod (cnt_limit c + 1)) (cnt_limit c).
Proof.
  intros Hv Hl. unfold Counter_Next. cbv zeta.
  rewrite add64_id by (unfold int64_range, min_int64 in *; lia).
  replace (0 <? cnt_limit c) with true by lia. simpl.
  destruct (Z.ltb_spec (cnt_limit c) (cnt_value c + 1)).
  - replace (cnt_value c) with (cnt_limit c) by lia.
    by rewrite Z_mod_same_full.
  - rewrite Z.mod_small by lia. done.
Qed.

(** * Properties *)

(** Rounding a duration up to a unit gives the least multiple of the unit
    that is not below it, as long as the floating-point detour is exact (below
    2^53 nanoseconds, about 104 days). *)
Theorem RoundDuration_spec (whole amount : Z)
    (Hw : 0 < whole) (Ha : 0 ≤ amount) (Hs : whole + amount < 2 ^ 53) :
  let r := RoundDuration whole amount in
  amount ≤ r < amount + whole ∧ r mod whole = 0 ∧
  ∀ m, amount ≤ m → m mod whole = 0 → r ≤ m.
Proof.
  cbv zeta. rewrite RoundDuration_exact by done.
  rewrite (Z.rem_mod_nonneg amount whole) by lia.
  pose proof (Z.mod_pos_bound amount whole Hw) as Hb.
  pose proof (Z.div_mod amount whole ltac:(lia)) as Hd.
  destruct (Z.eqb_spec (amount mod whole) 0) as [E|E]; [split_and!; lia|].
  assert (whole - amount mod whole + amount = (amount / whole + 1) * whole) as -> by lia.
  split; [lia|]. rewrite Z_mod_mult. split; [done|]. intros m Hm Hmod.
  pose proof (Z.div_mod m whole ltac:(lia)) as Hdm. rewrite Hmod in Hdm.
  assert (amount / whole < m / whole); [|nia].
  destruct (Z.lt_ge_cases (amount / whole) (m / whole)); [done|]. nia.
Qed.

Lemma RoundDuration_spec_witness :
  RoundDuration (60 * Second) (61 * Second) = 120 * Second ∧
  RoundDuration (60 * Second) (61 * Second) mod (60 * Second) = 0.
Proof.
  split; [vm_compute; reflexivity|].
  apply (RoundDuration_spec (60 * Second) (61 * Second)); vm_compute; done.
Defined.

(** The prefixes of a destination tried for a match are exactly its prefixes
    of at least the minimum length, the longest first. *)
Theorem SplitPrefix_spec (prefix : string) (minLength : Z)
    (Hm : 1 ≤ minLength) (Hs : slen prefix + minLength < 2 ^ 53) :
  ∃ subs, SplitPrefix prefix minLength = Ok subs ∧
    (∀ p, p ∈ subs ↔ HasPrefix prefix p = true ∧ minLength ≤ slen p) ∧
    StronglySorted (λ p q, slen q < slen p) subs.
Proof.
  rewrite SplitPrefix_ok by done. eexists; split; [done|].
  assert (∀ i, Z.of_nat i ≤ slen prefix →
    slen (stake (Z.to_nat (slen prefix - Z.of_nat i)) prefix)
    = slen prefix - Z.of_nat i) as Hlen.
  { intros i Hi. unfold slen in *. rewrite stake_length. lia. }
  split.
  - intros p. rewrite list_elem_of_fmap. setoid_rewrite elem_of_seq.
    rewrite HasPrefix_stake. split.
    + intros (i & -> & Hi). rewrite Hlen by lia. split; [|lia].
      f_equal. unfold slen in *. rewrite stake_length. lia.
    + intros [Hp Hl]. assert (slen p ≤ slen prefix).
      { unfold slen. rewrite Hp, stake_length. lia. }
      exists (Z.to_nat (slen prefix - slen p)). split; [|lia].
      rewrite Hp at 1. f_equal. unfold slen in *. lia.
  - set (k := Z.to_nat _). assert (Z.of_nat k ≤ slen prefix) as Hk by (unfold slen in *; lia).
    clearbody k. assert (∀ n, (n + k = 0 + k)%nat → Z.of_nat (n + k) ≤ slen prefix) as _ by lia.
    assert (∀ m n, Z.of_nat (n + m) ≤ slen prefix →
      StronglySorted (λ p q, slen q < slen p)
        ((λ i, stake (Z.to_nat (slen prefix - Z.of_nat i)) prefix) <$> seq n m)) as H.
    { induction m as [|m IH]; intros n Hn; csimpl; [constructor|].
      constructor; [apply IH; lia|]. apply Forall_fmap, Forall_forall.
      intros j Hj%elem_of_seq. simpl. rewrite !Hlen by lia. lia. }
    apply H. lia.
Qed.

Lemma SplitPrefix_spec_witness :
  SplitPrefix "0256" 2 = Ok ["0256"; "025"; "02"] ∧
  ∃ subs, SplitPrefix "0256" 2 = Ok subs ∧
    (∀ p, p ∈ subs ↔ HasPrefix "0256" p = true ∧ 2 ≤ slen p) ∧
    StronglySorted (λ p q, slen q < slen p) subs.
Proof.
  split; [vm_compute; reflexivity|].
  apply (SplitPrefix_spec "0256" 2); vm_compute; done.
Defined.

(** A field of a given width: whenever a strip or padding strategy of the
    code is named, an ASCII source is brought to exactly that width. *)
Theorem FmtFieldWidth_width (fieldID source : string) (width : Z)
    (strip padding : string) (mandatory : bool)
    (Hw : 0 < width) (Ha : is_ascii source = true)
    (Hm : mandatory = true → source ≠ "")
    (Hs : strip ∈ [MetaRight; MetaXRight; MetaLeft; MetaXLeft])
    (Hp : padding ∈ [MetaRight; MetaLeft; MetaZeroLeft]) :
  ∃ out, FmtFieldWidth fieldID source width strip padding mandatory = Ok out ∧
         slen out = width.
Proof.
  unfold FmtFieldWidth.
  assert (mandatory && (slen source =? 0) = false) as ->.
  { destruct mandatory; [|done]. specialize (Hm eq_refl). destruct source; [done|].
    unfold slen. simpl. lia. }
  replace (width =? 0) with false by lia.
  destruct (Z.eqb_spec (slen source) width) as [|Hne]; [eauto|].
  assert (0 ≤ slen source) by (unfold slen; lia).
  destruct (Z.ltb_spec width (slen source)) as [Hlt|Hge].
  - assert (∀ i j, 0 ≤ i ≤ j → j ≤ slen source →
      ∃ s, slice source i j = Ok s ∧ slen s = j - i) as Hsl.
    { intros i j Hi Hj. rewrite slice_ok by done. eexists; split; [done|].
      eapply slice_length. by rewrite slice_ok. }
    rewrite !elem_of_cons, elem_of_nil in Hs.
    destruct Hs as [->|[->|[->|[->|[]]]]]; simpl.
    + destruct (Hsl 0 width) as (s & -> & ?); [lia..|]. eexists; split; [done|lia].
    + destruct (Hsl 0 (width - 1)) as (s & -> & ?); [lia..|]. simpl.
      eexists; split; [done|]. rewrite slen_app. change (slen "x") with 1. lia.
    + destruct (Hsl (slen source - width) (slen source)) as (s & -> & ?); [lia..|].
      eexists; split; [done|lia].
    + destruct (Hsl (slen source - width + 1) (slen source)) as (s & -> & ?); [lia..|].
      simpl. eexists; split; [done|]. change (slen (String "x" s)) with (slen ("x" +:+ s)).
      rewrite slen_app. change (slen "x") with 1. lia.
  - rewrite !elem_of_cons, elem_of_nil in Hp.
    destruct Hp as [->|[->|[->|[]]]]; simpl.
    all: eexists; split; [done|]; unfold pad_right, pad_left;
      rewrite slen_app, slen_srepeat1, rune_count_ascii by done; lia.
Qed.

Lemma FmtFieldWidth_width_witness :
  FmtFieldWidth "id" "12345" 3 "*xleft" "*zeroleft" true = Ok "x45" ∧
  ∃ out, FmtFieldWidth "id" "12345" 3 "*xleft" "*zeroleft" true = Ok out ∧
         slen out = 3.
Proof.
  split; [vm_compute; reflexivity|].
  apply FmtFieldWidth_width; [done|done|done|set_solver..].
Defined.

(** Tenant identifiers survive both ways: composing and parsing gives the
    identifier back when the tenant holds no colon (the identifier may), and
    parsing and composing gives the string back when it names a tenant; without
    one the empty tenant is written in front. *)
Theorem TenantID_roundtrip (t i s : string) (Ht : has_char ":" t = false) :
  NewTenantID (TenantID_TenantID (mkTenantID t i)) = mkTenantID t i ∧
  TenantID_TenantID (NewTenantID s) = (if has_char ":" s then s else ":" +:+ s).
Proof.
  unfold NewTenantID, TenantID_TenantID, ConcatenatedKey, CONCATENATED_KEY_SEP.
  split.
  - simpl tid_Tenant. simpl tid_ID. rewrite Join_cons, Join_single by done.
    rewrite Index_single_none, !has_char_app, Ht.
    change (":" +:+ i) with (String ":" i). rewrite Split_TenantID by done.
    cbn -[Join Split]. by rewrite Join_Split.
  - rewrite Index_single_none. destruct (has_char ":" s) eqn:E; cbn [negb]; [|done].
    destruct (Split_has_char ":" s E) as (h & h' & r & Es). rewrite Es.
    cbn [tid_Tenant tid_ID]. rewrite Join_cons, Join_single by done.
    rewrite <- (Join_cons ":" h (h' :: r)) by done. rewrite <- Es. by apply Join_Split.
Qed.

Lemma TenantID_roundtrip_witness :
  NewTenantID "cgrates.org:a:b" = mkTenantID "cgrates.org" "a:b" ∧
  NewTenantID (TenantID_TenantID (mkTenantID "cgrates.org" "a:b"))
    = mkTenantID "cgrates.org" "a:b" ∧
  TenantID_TenantID (NewTenantID "cgrates.org:a:b") = "cgrates.org:a:b".
Proof.
  split; [vm_compute; reflexivity|].
  exact (TenantID_roundtrip "cgrates.org" "a:b" "cgrates.org:a:b" eq_refl).
Defined.

(** A hierarchy path printed with a separator, with or without a leading
    one, reads back as the same path. *)
Theorem HierarchyPath_roundtrip (c : ascii) (h : HierarchyPath) (prefix : bool)
    (Hne : h ≠ []) (Hh : Forall (λ x, x ≠ "" ∧ has_char c x = false) h) :
  ParseHierarchyPath (HierarchyPath_AsString h (String c "") prefix) (String c "") = h.
Proof.
  unfold ParseHierarchyPath. rewrite decide_False by done.
  rewrite Trim_joined by done. apply Split_Join; [done|].
  eapply Forall_impl; [exact Hh|]. by intros x [_ ?].
Qed.

Lemma HierarchyPath_roundtrip_witness :
  HierarchyPath_AsString ["Root"; "CDR"] "/" true = "/Root/CDR" ∧
  ParseHierarchyPath (HierarchyPath_AsString ["Root"; "CDR"] "/" true) "/"
    = ["Root"; "CDR"].
Proof.
  split; [vm_compute; reflexivity|].
  apply (HierarchyPath_roundtrip "/"); [done|repeat constructor; done].
Defined.

(** The end of the month is the last second of the last day of the
    reference's month, on the reference's wall clock. *)
Theorem GetEndOfMonth_spec (now ref : Time)
    (Hz : IsZero ref = false) (Hf : fixed (t_loc ref)) :
  let eom := GetEndOfMonth now ref in
  Date_of eom = (Year ref, Month ref, month_len (Year ref) (Month ref)) ∧
  (THour eom, TMinute eom, TSecond eom, TNanosecond eom) = (23, 59, 59, 0) ∧
  t_loc eom = t_loc ref ∧ t_ns ref < t_ns eom + Second.
Proof.
  intros eom. destruct (GetEndOfMonth_eom now ref Hz Hf) as [Ens El].
  fold eom in Ens, El. pose proof (Month_range ref) as Hm.
  set (D := days_of_civil (Year ref) (Month ref) 1 + month_len (Year ref) (Month ref)) in *.
  assert (local_sec eom = (D - 1) * 86400 + 86399) as Els.
  { rewrite fixed_local_sec by (by rewrite El). rewrite Ens, El.
    rewrite Z.div_mul by done. lia. }
  assert (sec_of_day eom = 86399) as Esd by (unfold sec_of_day; rewrite Els; lia).
  split_and!; [|..|done|].
  - unfold Date_of, day_number. rewrite Els.
    replace (((D - 1) * 86400 + 86399) / 86400) with (D - 1) by lia.
    subst D. assert (28 ≤ month_len (Year ref) (Month ref)) as Hl.
    { apply month_len_range. }
    rewrite <- (civil_of_days_of_civil (Year ref) (Month ref)
                  (month_len (Year ref) (Month ref))) by lia.
    f_equal. rewrite (days_of_civil_day _ _ (month_len _ _)). lia.
  - unfold THour, TMinute, TSecond, TNanosecond. rewrite Esd, Ens.
    rewrite Z.mod_mul by done. done.
  - rewrite Ens, (fixed_t_ns ref Hf). pose proof (sec_of_day_range ref).
    pose proof (TNanosecond_range ref). unfold Second in *.
    assert (day_number ref + 1 ≤ D) as Hd; [|lia].
    subst D. rewrite <- days_of_date.
    rewrite (days_of_civil_day _ _ (Day ref)).
    assert (Day ref ≤ month_len (Year ref) (Month ref)); [|lia].
    apply Day_month_len.
Qed.

Lemma GetEndOfMonth_spec_witness :
  let ref := Date 2012 2 7 14 30 0 0 UTC in
  let eom := GetEndOfMonth zero_time ref in
  Date_of eom = (2012, 2, 29) ∧
  (THour eom, TMinute eom, TSecond eom, TNanosecond eom) = (23, 59, 59, 0) ∧
  t_loc eom = t_loc ref ∧ t_ns ref < t_ns eom + Second.
Proof.
  apply (GetEndOfMonth_spec zero_time (Date 2012 2 7 14 30 0 0 UTC));
    vm_compute; reflexivity.
Defined.

(** A bounded counter walks through 0 .. limit cyclically: the n-th call
    from a start in range returns (start + n) modulo (limit + 1). *)
Theorem Counter_cycle (start limit : Z) (n : nat)
    (Hs : 0 ≤ start ≤ limit) (Hl : 0 < limit < max_int64) :
  let c := Nat.iter n (λ c, (Counter_Next c).2) (NewCounter start limit) in
  Counter_Value c = (start + Z.of_nat n) mod (limit + 1) ∧ cnt_limit c = limit.
Proof.
  unfold Counter_Value. induction n as [|n [IHv IHl]]; cbv zeta.
  - simpl. rewrite Z.add_0_r, Z.mod_small by lia. done.
  - cbv zeta in IHv, IHl. rewrite Nat.iter_succ. set (c := Nat.iter n _ _) in *.
    pose proof (Z.mod_pos_bound (start + Z.of_nat n) (limit + 1) ltac:(lia)).
    destruct (Counter_Next_bounded c) as [_ ->]; [lia..|]. simpl.
    split; [|done]. rewrite IHv, IHl, Zplus_mod_idemp_l. f_equal. lia.
Qed.

Lemma Counter_cycle_witness :
  let c := Nat.iter 5 (λ c, (Counter_Next c).2) (NewCounter 1 3) in
  Counter_Value c = 2 ∧ cnt_limit c = 3.
Proof. apply (Counter_cycle 1 3 5); unfold max_int64; lia. Defined.

(** Middle rounding of negative amounts always goes down: the fraction of a
    negative number is negative, never at least one half, so -1.2 rounds to -2
    and -0.001 at two decimals to -0.01, while 1.2 and 1.5 round to the nearest. *)
Theorem Round_middle_negative :
  Round (fneg (f_of_ratio 12 10)) 0 ROUNDING_MIDDLE = f_of_Z (-2) ∧
  Round (f_of_ratio 12 10) 0 ROUNDING_MIDDLE = f_of_Z 1 ∧
  Round (f_of_ratio 15 10) 0 ROUNDING_MIDDLE = f_of_Z 2 ∧
  Round (fneg (f_of_ratio 1 1000)) 2 ROUNDING_MIDDLE = fneg (f_of_ratio 1 100).
Proof. vm_compute. done. Qed.
