(* ===== verification/Values.v ===== *)
(** * Dynamic values

    The values of type [interface{}] that events carry and the conversions between
    them: [utils/reflect.go], [utils/dataprovider.go], [utils/mapstorage.go],
    [utils/cgrevent.go] and the path indexes of [utils/pathitem.go].

    The textual forms of floats, durations and times, JSON, and the layouts a time is
    recognised by are a class, [GoText]: no theorem depends on how they look. *)
From S2P Require Import Prelude GoFloat GoStrings GoTime CoreUtils.

(** The kinds of integers of the language, [time.Duration] apart. *)
Inductive int_kind := KInt | KInt8 | KInt16 | KInt32 | KInt64
  | KUint | KUint8 | KUint16 | KUint32 | KUint64.
#[export] Instance int_kind_eq_dec : EqDecision int_kind.
Proof. solve_decision. Defined.

Definition unsigned (k : int_kind) : bool :=
  match k with KUint | KUint8 | KUint16 | KUint32 | KUint64 => true | _ => false end.

(** A value of an interface.  A map is the list of its entries in the order in which
    it is ranged over.  [IMap] is [map[string]interface{}], [IStorage] the type
    [MapStorage]; [IOpaque] stands for the values of all other types. *)
#[local] Unset Elimination Schemes.
Inductive iface :=
  | INil
  | IString (s : string)
  | IInt (k : int_kind) (z : Z)
  | IFloat64 (f : float64)
  | IFloat32 (f : float64)
  | IBool (b : bool)
  | IDuration (d : Z)
  | ITime (t : Time)
  | IStrings (l : list string)
  | ISlice (l : list iface)
  | IMap (m : list (string * iface))
  | IStorage (m : list (string * iface))
  | IOpaque (n : nat).
#[local] Set Elimination Schemes.

Class GoText := {
  ParseFloat : string → res float64;
  ParseDuration : string → res Z;
  ParseTimeDetectLayout : string → string → res Time;
  FormatFloat : float64 → string;
  Duration_String : Z → string;
  Format_RFC3339 : Time → string;
  ToJSON : iface → string;
  sprint : iface → string;
  type_name : iface → string;
  (** the field at a path, for the opaque values that are data providers *)
  opaque_field : nat → option (list string → res iface);
  (** the element at an index, for those that are slices *)
  opaque_elem : nat → Z → res iface;
  (** the paths below an opaque value *)
  opaque_paths : nat → string → list string;
  opaque_type : nat → nat;
  opaque_comparable : nat → bool;
  opaque_struct : nat → bool
}.

Definition ErrWrongPath : string := "WRONG_PATH".
Definition NOT_FOUND : string := "NOT_FOUND".
Definition ErrNotEnoughParameters : string := "NotEnoughParameters".

Section values.
Context `{GoText}.

(** [strconv.ParseInt(s, 10, 64)] and [strconv.ParseBool]; the messages of their
    errors are not told apart. *)
Definition ParseInt (s : string) : res Z :=
  match Atoi s with
  | Some z => Ok z
  | None => Err ("strconv.ParseInt: parsing " +:+ s +:+ ": invalid syntax")
  end.
Definition ParseBool (s : string) : res bool :=
  if bool_decide (s ∈ ["1"; "t"; "T"; "TRUE"; "true"; "True"]) then Ok true
  else if bool_decide (s ∈ ["0"; "f"; "F"; "FALSE"; "false"; "False"]) then Ok false
  else Err ("strconv.ParseBool: parsing " +:+ s +:+ ": invalid syntax").

(** The first conversion that succeeds. *)
Definition StringToInterface (s : string) : iface :=
  match ParseInt s with Ok i => IInt KInt64 i | _ =>
  match ParseBool s with Ok b => IBool b | _ =>
  match ParseFloat s with Ok f => IFloat64 f | _ =>
  match ParseTimeDetectLayout s "Local" with Ok t => ITime t | _ =>
  match ParseDuration s with Ok d => IDuration d | _ => IString s
  end end end end end.

Definition ParseDurationWithNanosecs (durStr : string) : res Z :=
  if decide (durStr = "") then Ok 0
  else
    let durStr := if decide (durStr = "*unlimited") then "-1" else durStr in
    match ParseFloat durStr with
    | Ok _ => ParseDuration (durStr +:+ "ns")
    | _ => ParseDuration durStr
    end.

Definition IfaceAsTime (itm : iface) (timezone : string) : res Time :=
  match itm with
  | ITime t => Ok t
  | IString s => ParseTimeDetectLayout s timezone
  | _ => Err ("cannot convert field: " +:+ sprint itm +:+ " to time.Time")
  end.

Definition IfaceAsDuration (itm : iface) : res Z :=
  match itm with
  | IDuration d => Ok d
  | IInt _ z => Ok (wrap64 z)
  | IFloat32 f | IFloat64 f => Ok (f_to_int64 f)
  | IString s => ParseDurationWithNanosecs s
  | _ => Err ("cannot convert field: " +:+ sprint itm +:+ " to time.Duration")
  end.

Definition IfaceAsInt64 (itm : iface) : res Z :=
  match itm with
  | IInt KInt z | IInt KInt32 z | IInt KInt64 z | IDuration z => Ok z
  | IString s => ParseInt s
  | _ => Err ("cannot convert field: " +:+ sprint itm +:+ " to int")
  end.

Definition IfaceAsTInt64 (itm : iface) : res Z :=
  match itm with
  | IInt KInt z | IInt KInt32 z | IInt KInt64 z | IDuration z => Ok z
  | IFloat32 f | IFloat64 f => Ok (f_to_int64 f)
  | IString s => ParseInt s
  | _ => Err ("cannot convert field<" +:+ type_name itm +:+ ">: " +:+ sprint itm +:+ " to int")
  end.

Definition IfaceAsFloat64 (itm : iface) : res float64 :=
  match itm with
  | IFloat64 f => Ok f
  | IDuration z | IInt KInt z | IInt KInt64 z => Ok (f_of_Z z)
  | IString s => ParseFloat s
  | _ => Err ("cannot convert field: " +:+ sprint itm +:+ " to float64")
  end.

Definition IfaceAsBool (itm : iface) : res bool :=
  match itm with
  | IBool b => Ok b
  | IString s => ParseBool s
  | IInt KInt z | IInt KInt64 z => Ok (0 <? z)
  | IFloat64 f => Ok (fgtb f f0)
  | _ => Err ("cannot convert field: " +:+ sprint itm +:+ " to bool")
  end.

Definition FormatBool (b : bool) : string := if b then "true" else "false".

Definition IfaceAsString (fld : iface) : string :=
  match fld with
  | INil => ""
  | IInt KInt z | IInt KInt32 z | IInt KInt64 z | IInt KUint32 z | IInt KUint64 z => Itoa z
  | IBool b => FormatBool b
  | IFloat32 f | IFloat64 f => FormatFloat f
  | IDuration d => Duration_String d
  | ITime t => Format_RFC3339 t
  | IString s => s
  | _ => ToJSON fld
  end.

(** ** Comparison and arithmetic *)

(** [==] on times: the same instant and the same location. *)
Definition Time_same (t u : Time) : bool :=
  (t_ns t =? t_ns u) && bool_decide (loc_name (t_loc t) = loc_name (t_loc u)).

Definition GetBasicType (item : iface) : iface :=
  match item with
  | IInt k z => IInt (if unsigned k then KUint64 else KInt64) z
  | IDuration z => IInt KInt64 z
  | IFloat32 f => IFloat64 f
  | _ => item
  end.

(** [None] is the error, with which the item becomes nil. *)
Definition GetUniformType (item : iface) : option iface :=
  match item with
  | IInt _ z | IDuration z => Some (IFloat64 (f_of_Z z))
  | IFloat32 f | IFloat64 f => Some (IFloat64 f)
  | ITime t => Some (ITime t)
  | IOpaque n => if opaque_struct n then Some item else None
  | _ => None
  end.

(** The dynamic type of a value; nil has none. *)
Inductive go_type := TString | TInt (k : int_kind) | TFloat64 | TFloat32 | TBool
  | TDuration | TTime | TStrings | TSlice | TMap | TStorage | TOpaque (type : nat).
#[export] Instance go_type_eq_dec : EqDecision go_type.
Proof. solve_decision. Defined.

Definition TypeOf (v : iface) : option go_type :=
  match v with
  | INil => None
  | IString _ => Some TString | IInt k _ => Some (TInt k) | IFloat64 _ => Some TFloat64
  | IFloat32 _ => Some TFloat32 | IBool _ => Some TBool | IDuration _ => Some TDuration
  | ITime _ => Some TTime | IStrings _ => Some TStrings | ISlice _ => Some TSlice
  | IMap _ => Some TMap | IStorage _ => Some TStorage | IOpaque n => Some (TOpaque (opaque_type n))
  end.

(** Slices and maps are not comparable; asking a nil type panics. *)
Definition Comparable (t : option go_type) : res bool :=
  match t with
  | None => Panic
  | Some (TStrings | TSlice | TMap | TStorage) => Ok false
  | Some (TOpaque type) => Ok (opaque_comparable type)
  | Some _ => Ok true
  end.

(** The operands of a comparison brought to a common type, with their types. *)
Definition uniform_operand (item : iface) : iface * option go_type :=
  match GetUniformType item with
  | Some item' => (item', TypeOf item')
  | None => (INil, TypeOf item)
  end.

Definition compared (item oItem : iface) : res (iface * iface) :=
  let item := GetBasicType item in
  let oItem := GetBasicType oItem in
  let '((item, typItem), (oItem, typOItem)) :=
    if decide (TypeOf item = TypeOf oItem)
    then ((item, TypeOf item), (oItem, TypeOf oItem))
    else (uniform_operand item, uniform_operand oItem) in
  let incomparable :=
    Err ("incomparable: <" +:+ sprint item +:+ "> with <" +:+ sprint oItem +:+ ">") in
  c ← Comparable typItem;
  if negb c then incomparable
  else
    o ← Comparable typOItem;
    if negb o || negb (bool_decide (typItem = typOItem)) then incomparable
    else Ok (item, oItem).

Definition unsupported {A} (v : iface) : res A :=
  Err ("unsupported comparison type: " +:+ type_name v).

Definition GreaterThan (item oItem : iface) (orEqual : bool) : res bool :=
  '(item, oItem) ← compared item oItem;
  match item, oItem with
  | IFloat64 x, IFloat64 y => Ok (if orEqual then fgeb x y else fgtb x y)
  | IInt _ x, IInt _ y => Ok (if orEqual then y <=? x else y <? x)
  | ITime x, ITime y => Ok ((orEqual && Time_same x y) || After x y)
  | _, _ => unsupported item
  end.

Definition EqualTo (item oItem : iface) : res bool :=
  '(item, oItem) ← compared item oItem;
  match item, oItem with
  | IFloat64 x, IFloat64 y => Ok (feqb x y)
  | IInt _ x, IInt _ y => Ok (x =? y)
  | ITime x, ITime y => Ok (Time_same x y)
  | IString x, IString y => Ok (bool_decide (x = y))
  | _, _ => unsupported item
  end.

(** Folds the items after the first one, stopping at the first error. *)
Definition sum_items {A} (as_ : iface → res A) (add : A → A → A) (init : A)
    (items : list iface) : res A :=
  foldl (λ acc item, s ← acc; v ← as_ item; Ok (add s v)) (Ok init) items.

(** A first item of another type leaves the result nil. *)
Definition Sum (items : list iface) : res iface :=
  match items with
  | first :: ((_ :: _) as rest) =>
      match first with
      | IDuration dt => IDuration <$> sum_items IfaceAsDuration add64 dt rest
      | ITime dt =>
          ITime <$> foldl (λ acc item, s ← acc; v ← IfaceAsDuration item; Ok (Add s v)) (Ok dt) rest
      | IFloat64 dt => IFloat64 <$> sum_items IfaceAsFloat64 fadd dt rest
      | IInt KInt64 dt | IInt KInt dt => IInt KInt64 <$> sum_items IfaceAsInt64 add64 dt rest
      | _ => Ok INil
      end
  | _ => Err ErrNotEnoughParameters
  end.

Definition Difference (items : list iface) : res iface :=
  match items with
  | first :: ((_ :: _) as rest) =>
      match first with
      | IDuration dt => IDuration <$> sum_items IfaceAsDuration sub64 dt rest
      | ITime dt =>
          ITime <$> foldl (λ acc item, s ← acc; v ← IfaceAsDuration item; Ok (Add s (wrap64 (- v))))
                      (Ok dt) rest
      | IFloat64 dt => IFloat64 <$> sum_items IfaceAsFloat64 fsub dt rest
      | IInt KInt64 dt | IInt KInt dt => IInt KInt64 <$> sum_items IfaceAsInt64 sub64 dt rest
      | _ => Err "unsupported type"
      end
  | _ => Err ErrNotEnoughParameters
  end.

(** ** Data providers *)

(** A nil provider panics when it is asked. *)
Record DataProvider := mkDataProvider {
  dp_FieldAsInterface : list string → res iface;
  dp_FieldAsString : list string → res string
}.
Definition nil_provider : DataProvider := mkDataProvider (λ _, Panic) (λ _, Panic).

Definition DPDynamicInterface (dnVal : string) (dP : DataProvider) : res iface :=
  if HasPrefix dnVal "~" then dp_FieldAsInterface dP (Split (TrimPrefix dnVal "~") ".")
  else Ok (StringToInterface dnVal).

Definition DPDynamicString (dnVal : string) (dP : DataProvider) : res string :=
  if HasPrefix dnVal "~" then dp_FieldAsString dP (Split (TrimPrefix dnVal "~") ".")
  else Ok dnVal.

(** *** MapStorage *)

Definition MapStorage := list (string * iface).

Fixpoint ms_get (k : string) (ms : MapStorage) : option iface :=
  match ms with
  | [] => None
  | (k', v) :: ms' => if decide (k' = k) then Some v else ms_get k ms'
  end.
Fixpoint ms_put (k : string) (v : iface) (ms : MapStorage) : MapStorage :=
  match ms with
  | [] => [(k, v)]
  | (k', v') :: ms' => if decide (k' = k) then (k, v) :: ms' else (k', v') :: ms_put k v ms'
  end.
Definition ms_del (k : string) (ms : MapStorage) : MapStorage := filter (λ x, x.1 ≠ k) ms.

(** A name with an index in brackets at its end: the name and the index. *)
Definition GetPathIndex (spath : string) : res (string * option Z) :=
  let idxStart := Index spath "[" in
  if (idxStart =? -1) || negb (HasSuffix spath "]") then Ok (spath, None)
  else
    slctr ← slice spath (idxStart + 1) (slen spath - 1);
    opath ← slice spath 0 idxStart;
    Ok (match Atoi slctr with Some idxVal => (opath, Some idxVal) | None => (spath, None) end).

(** [rv[idx]], not found beyond the end; a negative index panics. *)
Definition elem_at {A} (l : list A) (idx : Z) : res A :=
  if Z.of_nat (length l) <=? idx then Err NOT_FOUND else index l idx.

Definition indexed_value (val : iface) (idx : Z) : res iface :=
  match val with
  | IStrings l => IString <$> elem_at l idx
  | ISlice l => elem_at l idx
  | IOpaque n => opaque_elem n idx
  | _ => Err NOT_FOUND
  end.

Fixpoint FieldAsInterface (ms : MapStorage) (fldPath : list string) {struct fldPath} : res iface :=
  match fldPath with
  | [] => Err "empty field path"
  | p :: rest =>
      '(opath, indx) ← GetPathIndex p;
      match ms_get opath ms with
      | None => Err NOT_FOUND
      | Some val =>
          match rest, indx with
          | [], None => Ok val
          | [], Some idx => indexed_value val idx
          | _, None =>
              match val with
              | IStorage dp | IMap dp => FieldAsInterface dp rest
              | IOpaque n =>
                  match opaque_field n with Some f => f rest | None => Err ErrWrongPath end
              | _ => Err ErrWrongPath
              end
          | _, Some idx =>
              match val with
              | ISlice l =>
                  ds ← elem_at l idx;
                  match ds with
                  | IStorage dp | IMap dp => FieldAsInterface dp rest
                  | IOpaque n =>
                      match opaque_field n with Some f => f rest | None => Err NOT_FOUND end
                  | _ => Err NOT_FOUND
                  end
              | _ => Err NOT_FOUND
              end
          end
      end
  end.

Definition FieldAsString (ms : MapStorage) (fldPath : list string) : res string :=
  val ← FieldAsInterface ms fldPath; Ok (IfaceAsString val).

Definition storage_provider (ms : MapStorage) : DataProvider :=
  mkDataProvider (FieldAsInterface ms) (FieldAsString ms).

(** The new map; the error is that of a path through a value that is no map. *)
Fixpoint ms_Set (ms : MapStorage) (fldPath : list string) (val : iface) {struct fldPath}
    : res MapStorage :=
  match fldPath with
  | [] => Err ErrWrongPath
  | [p] => Ok (ms_put p val ms)
  | p :: rest =>
      match ms_get p ms with
      | None => nMap ← ms_Set [] rest val; Ok (ms_put p (IStorage nMap) ms)
      | Some (IStorage dp) => dp' ← ms_Set dp rest val; Ok (ms_put p (IStorage dp') ms)
      | Some (IMap dp) => dp' ← ms_Set dp rest val; Ok (ms_put p (IMap dp') ms)
      | Some _ => Err ErrWrongPath
      end
  end.

Fixpoint ms_Remove (ms : MapStorage) (fldPath : list string) {struct fldPath} : res MapStorage :=
  match fldPath with
  | [] => Err ErrWrongPath
  | p :: rest =>
      match ms_get p ms, rest with
      | None, _ => Ok ms
      | Some _, [] => Ok (ms_del p ms)
      | Some (IStorage dp), _ => dp' ← ms_Remove dp rest; Ok (ms_put p (IStorage dp') ms)
      | Some (IMap dp), _ => dp' ← ms_Remove dp rest; Ok (ms_put p (IMap dp') ms)
      | Some _, _ => Err ErrWrongPath
      end
  end.

Definition indexed_key (k : string) (i : nat) : string :=
  k +:+ "[" +:+ Itoa (Z.of_nat i) +:+ "]".

(** The keys below a value. *)
Fixpoint value_keys (v : iface) : list string :=
  match v with
  | IStorage ms | IMap ms =>
      concat (map (λ kv, let '(k, v) := kv in
        k :: match v with
             | IStorage _ | IMap _ => map (λ dsKey, k +:+ "." +:+ dsKey) (value_keys v)
             | ISlice l => imap (λ i _, indexed_key k i) l
             | IStrings l => imap (λ i _, indexed_key k i) l
             | IOpaque n => opaque_paths n (k +:+ ".")
             | _ => []
             end) ms)
  | _ => []
  end.

Definition GetKeys (ms : MapStorage) (nested : bool) : list string :=
  if nested then value_keys (IStorage ms) else ms.*1.

(** ** Events *)

Record CGREvent := mkCGREvent {
  ev_Tenant : string; ev_ID : string; ev_Time : option Time; ev_Event : MapStorage }.

Definition HasField (ev : CGREvent) (fldName : string) : bool :=
  bool_decide (is_Some (ms_get fldName (ev_Event ev))).

Definition NewErrMandatoryIeMissing (fields : list string) : string :=
  "MANDATORY_IE_MISSING: [" +:+ Join fields " " +:+ "]".

Fixpoint CheckMandatoryFields (ev : CGREvent) (fldNames : list string) : res () :=
  match fldNames with
  | [] => Ok ()
  | f :: rest =>
      match ms_get f (ev_Event ev) with
      | None => Err (NewErrMandatoryIeMissing [f])
      | Some _ => CheckMandatoryFields ev rest
      end
  end.

Definition ev_field (ev : CGREvent) (fldName : string) : res iface :=
  match ms_get fldName (ev_Event ev) with Some v => Ok v | None => Err NOT_FOUND end.

Definition ev_FieldAsString (ev : CGREvent) (fldName : string) : res string :=
  v ← ev_field ev fldName; Ok (IfaceAsString v).
Definition ev_FieldAsTime (ev : CGREvent) (fldName timezone : string) : res Time :=
  v ← ev_field ev fldName; IfaceAsTime v timezone.
Definition ev_FieldAsDuration (ev : CGREvent) (fldName : string) : res Z :=
  v ← ev_field ev fldName; IfaceAsDuration v.
Definition ev_FieldAsFloat64 (ev : CGREvent) (fldName : string) : res float64 :=
  v ← ev_field ev fldName; IfaceAsFloat64 v.

Definition ev_TenantID (ev : CGREvent) : string := ConcatenatedKey [ev_Tenant ev; ev_ID ev].
End values.

(** ** Properties *)

Lemma ms_get_put k v ms k' :
  ms_get k' (ms_put k v ms) = if decide (k = k') then Some v else ms_get k' ms.
Proof.
  induction ms as [|[k0 v0] ms IH]; simpl; [done|].
  destruct (decide (k0 = k)) as [->|Hk]; simpl; [by destruct (decide (k = k'))|].
  rewrite IH. destruct (decide (k0 = k')) as [->|]; [|done]. by rewrite decide_False.
Qed.

(** The name of a path without an index. *)
Definition plain (p : string) : Prop := GetPathIndex p = Ok (p, None).

Section values_properties.
Context `{GoText}.

Lemma FieldAsInterface_plain ms p rest : plain p →
  FieldAsInterface ms (p :: rest) =
  match ms_get p ms, rest with
  | None, _ => Err NOT_FOUND
  | Some val, [] => Ok val
  | Some (IStorage dp | IMap dp), _ => FieldAsInterface dp rest
  | Some (IOpaque n), _ => match opaque_field n with Some f => f rest | None => Err ErrWrongPath end
  | Some _, _ => Err ErrWrongPath
  end.
Proof. intros Hp. simpl. rewrite Hp. simpl. by destruct (ms_get p ms) as [[]|], rest. Qed.

End values_properties.

(** An instance to compute with: no text is a number, a duration or a time. *)
Definition reference_text : GoText := {|
  ParseFloat s := Err "no float"; ParseDuration s := Err "no duration";
  ParseTimeDetectLayout s tz := Err "no time"; FormatFloat f := ""; Duration_String d := Itoa d;
  Format_RFC3339 t := ""; ToJSON v := ""; sprint v := ""; type_name v := "";
  opaque_field n := None; opaque_elem n i := Err NOT_FOUND; opaque_paths n s := [];
  opaque_type n := n; opaque_comparable n := false; opaque_struct n := false |}.

