(* ===== verification/RSR.v ===== *)
(** * Value templates: RSR fields, filters, parsers and data converters

    [utils/dataconverter.go], [utils/researchreplace.go], [utils/rsrfield.go] and
    [config/rsrparser.go]: the rules by which values are read out of events, searched and
    replaced, converted and tested.  Regular expressions are those of Go's [regexp], kept
    as their pattern text with their engine as a class, together with the parsing of IP
    addresses and the third-party library of phone numbers.  A parser is returned with the
    marks its rules leave when a value is parsed. *)
From S2P Require Import Prelude GoFloat GoStrings GoTime CoreUtils Values.

Class GoRegexp := {
  (** whether a pattern compiles, and what matching it gives *)
  re_compile : string → res ();
  re_MatchString : string → string → bool;
  re_FindStringSubmatch : string → string → list string;
  (** the template expanded with the submatches of the first match, if there is one *)
  re_ExpandString : string → string → string → option string;
  (** the bytes of an address, none when it does not parse, and the value that is one *)
  net_ParseIP : string → string;
  as_net_IP : iface → option string;
  (** a number parsed for a country and formatted *)
  phonenumbers_Convert : string → string → Z → res string
}.

Definition FILTER_VAL_START : string := "(".
Definition FILTER_VAL_END : string := ")".
Definition ANDSep : string := "&".
Definition MetaPipe : string := "*|".
Definition DynamicDataPrefix : string := "~".
Definition STATIC_VALUE_PREFIX : string := "^".
Definition STATIC_HDRVAL_SEP : string := "::".
Definition ErrMandatoryIeMissingNoCaps : string := "mandatory information missing".
Definition ErrFilterNotPassingNoCaps : string := "filter not passing".

(** The patterns that take a search and replace rule apart. *)
Definition field_rulesRgxp : string := "(?:(.+[^\\])\/(.*[^\\])*\/){1,}".
Definition parser_rulesRgxp : string := "(?:(.*[^\\])\/(.*[^\\])*\/){1,}".
(** [spltRgxp] matches the text itself. *)
Definition spltRgxp : string := ":s/".

(** ** Data converters *)

Inductive DataConverter :=
  | DurationSecondsConverter
  | DurationNanosecondsConverter
  | RoundConverter (Decimals : Z) (Method : string)
  | MultiplyConverter (Value : float64)
  | DivideConverter (Value : float64)
  | DurationConverter
  | PhoneNumberConverter (CountryCode : string) (Format : Z)
  | IP2HexConverter
  | String2HexConverter.

Definition hex_digit (n : nat) : ascii :=
  ascii_of_nat (if (n <? 10)%nat then 48 + n else 87 + n)%nat.

(** [hex.EncodeToString] *)
Fixpoint hex_encode (s : string) : string :=
  match s with
  | EmptyString => ""
  | String c s' =>
      let n := nat_of_ascii c in
      String (hex_digit (n / 16)) (String (hex_digit (n mod 16)) (hex_encode s'))
  end.

Section rsr.
Context `{GoText} `{GoRegexp}.

Definition converter_params (params : string) : list string :=
  if decide (params ≠ "") then Split params ":" else [].

Definition NewRoundConverter (params : string) : res DataConverter :=
  let decimals (s : string) : res Z :=
    match Atoi s with
    | Some d => Ok d
    | None => Err ("*round converter needs integer as decimals, have: <" +:+ s +:+ ">")
    end in
  match converter_params params with
  | [] => Ok (RoundConverter 0 ROUNDING_MIDDLE)
  | [d] => d ← decimals d; Ok (RoundConverter d ROUNDING_MIDDLE)
  | [d; m] => d ← decimals d; Ok (RoundConverter d m)
  | _ => Err ("unsupported *round converter parameters: <" +:+ params +:+ ">")
  end.

Definition NewMultiplyConverter (constructParams : string) : res DataConverter :=
  if decide (constructParams = "") then Err ErrMandatoryIeMissingNoCaps
  else val ← ParseFloat constructParams; Ok (MultiplyConverter val).

Definition NewDivideConverter (constructParams : string) : res DataConverter :=
  if decide (constructParams = "") then Err ErrMandatoryIeMissingNoCaps
  else val ← ParseFloat constructParams; Ok (DivideConverter val).

Definition NewPhoneNumberConverter (params : string) : res DataConverter :=
  match converter_params params with
  | [cc; frm] =>
      match Atoi frm with
      | Some f => Ok (PhoneNumberConverter cc f)
      | None => Err ("strconv.Atoi: parsing " +:+ frm +:+ ": invalid syntax")
      end
  | [cc] => Ok (PhoneNumberConverter cc 2)
  | _ => Err ("unsupported *libphonenumber converter parameters: <" +:+ params +:+ ">")
  end.

(** What follows the name of a converter and one separator. *)
Definition after_name (name params : string) : string := sdrop (S (String.length name)) params.

Definition NewDataConverter (params : string) : res DataConverter :=
  if decide (params = "*duration_seconds") then Ok DurationSecondsConverter
  else if decide (params = "*duration_nanoseconds") then Ok DurationNanosecondsConverter
  else if HasPrefix params "*round" then NewRoundConverter (after_name "*round" params)
  else if HasPrefix params "*multiply" then NewMultiplyConverter (after_name "*multiply" params)
  else if HasPrefix params "*divide" then NewDivideConverter (after_name "*divide" params)
  else if decide (params = "*duration") then Ok DurationConverter
  else if decide (params = "*ip2hex") then Ok IP2HexConverter
  else if decide (params = "*string2hex") then Ok String2HexConverter
  else if HasPrefix params "*libphonenumber"
  then NewPhoneNumberConverter (after_name "*libphonenumber" params)
  else Err ("unsupported converter definition: <" +:+ params +:+ ">").

Definition IP2Hex_Convert (in_ : iface) : string :=
  let ip :=
    match in_ with
    | IString val => net_ParseIP val
    | _ => match as_net_IP in_ with Some ip => ip | None => net_ParseIP (IfaceAsString in_) end
    end in
  let hx := hex_encode ip in
  if slen hx <? 8 then hx else "0x" +:+ sdrop (String.length hx - 8) hx.

Definition String2Hex_Convert (in_ : iface) : string :=
  let out := hex_encode (IfaceAsString in_) in
  if decide (slen out = 0) then out else "0x" +:+ out.

Definition Convert (conv : DataConverter) (in_ : iface) : res iface :=
  match conv with
  | DurationSecondsConverter => d ← IfaceAsDuration in_; Ok (IFloat64 (Duration_Seconds d))
  | DurationNanosecondsConverter => d ← IfaceAsDuration in_; Ok (IInt KInt64 d)
  | RoundConverter decimals method =>
      f ← IfaceAsFloat64 in_; Ok (IFloat64 (Round f decimals method))
  | MultiplyConverter value => f ← IfaceAsFloat64 in_; Ok (IFloat64 (fmul f value))
  | DivideConverter value => f ← IfaceAsFloat64 in_; Ok (IFloat64 (fdiv f value))
  | DurationConverter => d ← IfaceAsDuration in_; Ok (IDuration d)
  | PhoneNumberConverter cc fmt =>
      s ← phonenumbers_Convert (IfaceAsString in_) cc fmt; Ok (IString s)
  | IP2HexConverter => Ok (IString (IP2Hex_Convert in_))
  | String2HexConverter => Ok (IString (String2Hex_Convert in_))
  end.

Definition ConvertString (dcs : list DataConverter) (in_ : string) : res string :=
  IfaceAsString <$> foldl (λ acc cnv, out ← acc; Convert cnv out) (Ok (IString in_)) dcs.

(** ** Search and replace *)

Record ReSearchReplace := mkReSearchReplace {
  SearchRegexp : option string; ReplaceTemplate : string; Matched : bool }.

Definition Process (rsr : ReSearchReplace) (source : string) : string * ReSearchReplace :=
  match SearchRegexp rsr with
  | None => ("", rsr)
  | Some re =>
      match re_ExpandString re (ReplaceTemplate rsr) source with
      | None => (source, rsr)
      | Some out => (out, mkReSearchReplace (Some re) (ReplaceTemplate rsr) true)
      end
  end.

(** The rules in turn, each on what the one before it left. *)
Fixpoint process_rules (rules : list ReSearchReplace) (value : string)
    : string * list ReSearchReplace :=
  match rules with
  | [] => (value, [])
  | rule :: rules' =>
      let '(value, rule) := Process rule value in
      let '(value, rules') := process_rules rules' value in (value, rule :: rules')
  end.

(** The rules behind the [:s/] of a template; fields and parsers word their errors
    differently. *)
Definition parse_search_rule (few bad : string → string) (pattern ruleStr : string)
    : res ReSearchReplace :=
  match re_FindStringSubmatch pattern ruleStr with
  | [_; search; replace] =>
      match re_compile search with
      | Ok _ => Ok (mkReSearchReplace (Some search) replace false)
      | Err _ => Err (bad search)
      | Panic => Panic
      end
  | _ => Err (few ruleStr)
  end.

(** ** Filters of a template *)

Record RSRFilter := mkRSRFilter {
  rf_filterRule : string; rf_fltrRgxp : option string; rf_negative : bool }.

Definition RSRFilter_FilterRule (f : RSRFilter) : string := rf_filterRule f.

Definition NewRSRFilter (fltrVal : string) : res RSRFilter :=
  if decide (fltrVal = "") then Ok (mkRSRFilter "" None false)
  else
    let negative := bool_decide (stake 1 fltrVal = "!") in
    let fltrVal := if negative then sdrop 1 fltrVal else fltrVal in
    if decide (fltrVal = "") then Ok (mkRSRFilter "" None negative)
    else if decide (stake 1 fltrVal = "~") then
      _ ← re_compile (sdrop 1 fltrVal);
      Ok (mkRSRFilter fltrVal (Some (sdrop 1 fltrVal)) negative)
    else Ok (mkRSRFilter fltrVal None negative).

(** A comparison that fails is logged and does not pass. *)
Definition compare_filter (negative : bool) (x y : string) (orEqual : bool) : res bool :=
  match GreaterThan (StringToInterface x) (StringToInterface y) orEqual with
  | Ok gt => Ok (xorb gt negative)
  | Err _ => Ok false
  | Panic => Panic
  end.

Definition RSRFilter_Pass (f : RSRFilter) (val : string) : res bool :=
  let rule := rf_filterRule f in
  let neg := rf_negative f in
  let lastIdx := Nat.pred (String.length rule) in
  if decide (rule = "") then Ok (negb neg)
  else if decide (stake 1 rule = "~") then
    re ← deref (rf_fltrRgxp f); Ok (xorb (re_MatchString re val) neg)
  else if decide (rule = "^$") then Ok (xorb (slen val =? 0) neg)
  else if decide (stake 1 rule = "^") then
    if decide (sdrop lastIdx rule = "$") then
      exact ← slice rule 1 (slen rule - 1); Ok (xorb (bool_decide (val = exact)) neg)
    else Ok (xorb (HasPrefix val (sdrop 1 rule)) neg)
  else if decide (sdrop lastIdx rule = "$") then Ok (xorb (HasSuffix val (stake lastIdx rule)) neg)
  else if (2 <? slen rule) && bool_decide (stake 2 rule = ">=")
  then compare_filter neg val (sdrop 2 rule) true
  else if (2 <? slen rule) && bool_decide (stake 2 rule = "<=")
  then compare_filter neg (sdrop 2 rule) val true
  else if decide (stake 1 rule = ">") then compare_filter neg val (sdrop 1 rule) false
  else if decide (stake 1 rule = "<") then compare_filter neg (sdrop 1 rule) val false
  else Ok (xorb (negb (Index val rule =? -1)) neg).

Definition ParseRSRFiltersFromSlice (fltrStrs : list string) : res (list RSRFilter) :=
  res_map NewRSRFilter fltrStrs.

Definition ParseRSRFilters (fldsStr sep : string) : res (list RSRFilter) :=
  if decide (fldsStr = "") then Ok [] else ParseRSRFiltersFromSlice (Split fldsStr sep).

Definition FilterRules (fltrs : list RSRFilter) : string :=
  foldl (λ rls fltr, rls +:+ RSRFilter_FilterRule fltr) "" fltrs.

(** All the filters pass, or one of them does; the loop stops as soon as it knows. *)
Fixpoint filters_loop (fltrs : list RSRFilter) (val : string) (allMustMatch matched : bool)
    : res bool :=
  match fltrs with
  | [] => Ok matched
  | fltr :: fltrs' =>
      matched ← RSRFilter_Pass fltr val;
      if allMustMatch then
        if (matched : bool) then filters_loop fltrs' val allMustMatch matched else Ok false
      else if (matched : bool) then Ok true else filters_loop fltrs' val allMustMatch matched
  end.
Definition RSRFilters_Pass (fltrs : list RSRFilter) (val : string) (allMustMatch : bool)
    : res bool :=
  if decide (length fltrs = 0)%nat then Ok true else filters_loop fltrs val allMustMatch false.

(** ** RSR fields *)

Record RSRField := mkRSRField {
  rsf_Id : string; rsf_Rules : string; rsf_staticValue : string;
  rsf_RSRules : list ReSearchReplace; rsf_filters : list RSRFilter;
  rsf_converters : list DataConverter }.

(** The filter at the end of a template, which starts at [fltrStart], and what is before it. *)
Definition template_filter (rules : string) (fltrStart : Z) (sep : string)
    : res (list RSRFilter * string) :=
  fltrVal ← slice rules (fltrStart + 1) (slen rules - 1);
  match ParseRSRFilters fltrVal sep with
  | Ok filters => before ← slice rules 0 fltrStart; Ok (filters, before)
  | Err err => Err ("Invalid FilterValue in string: " +:+ fltrVal +:+ ", err: " +:+ err)
  | Panic => Panic
  end.

(** The converters in braces, and what is before them. *)
Definition template_converters (unended : string → string) (bad : string → string → string)
    (rules sep : string) : res (list DataConverter * string) :=
  let idx := Index rules "{*" in
  if decide (idx = -1) then Ok ([], rules)
  else if negb (HasSuffix rules "}") then
    Err (unended rules)
  else
    convertersStr ← slice rules (idx + 1) (slen rules - 1);
    convs ← res_map (λ convStr,
      match NewDataConverter convStr with
      | Err err => Err (bad convStr err)
      | r => r
      end) (Split convertersStr sep);
    before ← slice rules 0 idx; Ok (convs, before).

(** A static header and value, [^header::value/]. *)
Definition static_field (fldStr : string) : res (string * string) :=
  match Split fldStr STATIC_HDRVAL_SEP with
  | [hdr; val] =>
      Ok (sdrop 1 hdr,
          if HasSuffix val "/" then stake (Nat.pred (String.length val)) val else val)
  | [whole] => Ok (sdrop 1 whole, sdrop 1 whole)
  | _ => Err ("Invalid RSRField string: " +:+ fldStr)
  end.

Definition NewRSRField (rules : string) : res (option RSRField) :=
  if decide (slen rules = 0) then Ok None
  else
    '(filters, fldStr) ←
      (if HasSuffix rules FILTER_VAL_END then
         let fltrStart := LastIndex rules FILTER_VAL_START in
         if fltrStart <? 1 then Err ("Invalid FilterStartValue in string: " +:+ rules)
         else template_filter rules fltrStart MetaPipe
       else Ok ([], rules));
    '(converters, fldStr) ← template_converters
      (λ s, "Invalid converter value in string: " +:+ s +:+ ", err: invalid converter terminator")
      (λ c err, "Invalid converter value in string: " +:+ c +:+ ", err: " +:+ err)
      fldStr INFIELD_SEP;
    if HasPrefix fldStr STATIC_VALUE_PREFIX then
      '(hdr, val) ← static_field fldStr;
      Ok (Some (mkRSRField hdr rules val [] filters converters))
    else if negb (HasPrefix fldStr "~") then
      Ok (Some (mkRSRField fldStr rules "" [] filters converters))
    else
      match Split fldStr spltRgxp with
      | header :: ((_ :: _) as ruleStrs) =>
          rsrRules ← res_map (parse_search_rule
            (λ s, "Not enough members in Search&Replace, ruleStr: " +:+ s)
            (λ s, "Invalid Search&Replace subfield rule: " +:+ s) field_rulesRgxp) ruleStrs;
          Ok (Some (mkRSRField (sdrop 1 header) rules "" rsrRules filters converters))
      | _ => Err ("Invalid Split of Search&Replace field rule. " +:+ fldStr)
      end.

(** A slice is nil when it was never made: an empty list stands for it. *)
Definition IsCompiled (rsrf : RSRField) : bool :=
  bool_decide (rsf_staticValue rsrf ≠ "") || negb (length (rsf_RSRules rsrf) =? 0)%nat ||
  negb (length (rsf_filters rsrf) =? 0)%nat || negb (length (rsf_converters rsrf) =? 0)%nat.

Definition RSRField_Compile (rsrf : RSRField) : res RSRField :=
  newRSRFld ← NewRSRField (rsf_Rules rsrf);
  Ok match newRSRFld with
     | None => rsrf
     | Some n => mkRSRField (rsf_Id rsrf) (rsf_Rules rsrf) (rsf_staticValue n) (rsf_RSRules n)
                   (rsf_filters n) (rsf_converters rsrf)
     end.

Definition IsStatic (rsrf : RSRField) : bool := negb (slen (rsf_staticValue rsrf) =? 0).

Definition RSRField_RegexpMatched (rsrf : RSRField) : bool := existsb Matched (rsf_RSRules rsrf).

Definition RSRField_parseValue (rsrf : RSRField) (value : string) : string * RSRField :=
  if negb (slen (rsf_staticValue rsrf) =? 0) then (rsf_staticValue rsrf, rsrf)
  else
    let '(value, rules) := process_rules (rsf_RSRules rsrf) value in
    (value, mkRSRField (rsf_Id rsrf) (rsf_Rules rsrf) (rsf_staticValue rsrf) rules
              (rsf_filters rsrf) (rsf_converters rsrf)).

Fixpoint filtersPassing (filters : list RSRFilter) (value : string) : res bool :=
  match filters with
  | [] => Ok true
  | fltr :: filters' =>
      ok ← RSRFilter_Pass fltr value;
      if negb ok then Ok false else filtersPassing filters' value
  end.

Definition RSRField_Parse (rsrf : RSRField) (value : iface) : res string * RSRField :=
  let '(out, rsrf) := RSRField_parseValue rsrf (IfaceAsString value) in
  (out ← ConvertString (rsf_converters rsrf) out;
   pass ← filtersPassing (rsf_filters rsrf) out;
   if (pass : bool) then Ok out else Err ErrFilterNotPassingNoCaps, rsrf).

Definition ParseRSRFieldsFromSlice (flds : list string) : res (list RSRField) :=
  res_map (λ ruleStr, f ← NewRSRField ruleStr;
    match f with
    | Some f => Ok f
    | None => Err ("Empty RSRField in rule: " +:+ ruleStr)
    end) flds.

Definition ParseRSRFields (fldsStr sep : string) : res (list RSRField) :=
  if decide (slen fldsStr = 0) then Ok [] else ParseRSRFieldsFromSlice (Split fldsStr sep).

Definition RSRFields_Id (flds : list RSRField) : string :=
  match flds with [] => "" | f :: _ => rsf_Id f end.

(** ** RSR parsers *)

Record RSRParser := mkRSRParser {
  rp_Rules : string; rp_AllFiltersMatch : bool; rp_path : string;
  rp_rsrRules : list ReSearchReplace; rp_converters : list DataConverter;
  rp_filters : list RSRFilter }.

Definition NewRSRParser (rules : string) (allFiltersMatch : bool) : res (option RSRParser) :=
  if decide (slen rules = 0) then Ok None
  else
    '(filters, parserRules) ←
      (if HasSuffix rules FILTER_VAL_END then
         let fltrStart := Index rules FILTER_VAL_START in
         if fltrStart <? 1
         then Err ("invalid RSRFilter start rule in string: <" +:+ rules +:+ ">")
         else template_filter rules fltrStart ANDSep
       else Ok ([], rules));
    '(converters, parserRules) ← template_converters
      (λ s, "invalid converter terminator in rule: <" +:+ s +:+ ">")
      (λ c err, "invalid converter value in string: <" +:+ c +:+ ">, err: " +:+ err)
      parserRules ANDSep;
    if negb (HasPrefix parserRules DynamicDataPrefix) || (slen parserRules =? 1) then
      Ok (Some (mkRSRParser rules allFiltersMatch "" [] converters filters))
    else
      match Split parserRules spltRgxp with
      | header :: ruleStrs =>
          rsrRules ← res_map (parse_search_rule
            (λ s, "not enough members in Search&Replace, ruleStr: <" +:+ s +:+ ">")
            (λ s, "invalid Search&Replace subfield rule: <" +:+ s +:+ ">") parser_rulesRgxp)
            ruleStrs;
          Ok (Some (mkRSRParser rules allFiltersMatch (sdrop 1 header) rsrRules converters filters))
      | [] => Panic
      end.

Definition NewRSRParsersFromSlice (parsersRules : list string) (allFiltersMatch : bool)
    : res (list RSRParser) :=
  res_map (λ rlStr, p ← NewRSRParser rlStr allFiltersMatch;
    match p with
    | Some p => Ok p
    | None => Err ("emtpy RSRParser in rule: <" +:+ rlStr +:+ ">")
    end) parsersRules.

(** Appends to the last element of a slice; an empty one panics. *)
Definition append_last (l : list string) (s : string) : res (list string) :=
  match last l with
  | Some x => Ok (removelast l ++ [x +:+ s])
  | None => Panic
  end.

(** Rules with parts between backquotes, which are not split.  Every turn of the loop
    shortens the text, whose length is the fuel. *)
Fixpoint unsplit_loop (fuel : nat) (splitedRule : list string) (rules : string) (count : Z)
    : res (list string) :=
  match fuel with
  | O => Ok splitedRule
  | S fuel' =>
      let idx := Index rules "`" in
      if decide (idx = -1) then Ok splitedRule
      else
        before ← slice rules 0 idx;
        let insideARulePrefix := negb (HasSuffix before INFIELD_SEP) in
        before ← (if insideARulePrefix then Ok before else slice rules 0 (idx - 1));
        let splitedRule := splitedRule ++ Split before INFIELD_SEP in
        rules ← slice rules (idx + 1) (slen rules);
        let idx := Index rules "`" in
        quoted ← slice rules 0 idx;
        splitedRule ← (if insideARulePrefix then append_last splitedRule quoted
                       else Ok (splitedRule ++ [quoted]));
        rules ← slice rules (idx + 1) (slen rules);
        let count := count - 2 in
        if decide (slen rules = 0) then unsplit_loop fuel' splitedRule rules count
        else
          let insideARuleSufix := negb (HasPrefix rules INFIELD_SEP) in
          let idx := if insideARuleSufix then Index rules ";" else 0 in
          if decide (insideARuleSufix = true ∧ idx = -1) then append_last splitedRule rules
          else
            splitedRule ← (if insideARuleSufix
                           then suffix ← slice rules 0 idx; append_last splitedRule suffix
                           else Ok splitedRule);
            rules ← slice rules (idx + 1) (slen rules);
            if decide (slen rules = 0) then Ok splitedRule
            else if decide (count = 0) then Ok (splitedRule ++ Split rules INFIELD_SEP)
            else unsplit_loop fuel' splitedRule rules count
  end.

(** [strings.Count] of a character. *)
Definition count_char (c : ascii) (s : string) : Z :=
  Z.of_nat (count (Ascii.eqb c) (String.list_ascii_of_string s)).

Definition NewRSRParsers (parsersRules : string) (allFiltersMatch : bool) (rsrSeparator : string)
    : res (list RSRParser) :=
  if decide (parsersRules = "") then Ok []
  else
    let count := count_char "`" parsersRules in
    if negb (count mod 2 =? 0) then Err "Unclosed unspilit syntax"
    else if negb (count =? 0) then
      splitedRule ← unsplit_loop (S (String.length parsersRules)) [] parsersRules count;
      NewRSRParsersFromSlice splitedRule allFiltersMatch
    else NewRSRParsersFromSlice (Split parsersRules rsrSeparator) allFiltersMatch.

(** The first rule, then the others after a dot each. *)
Fixpoint rule_loop (i : nat) (prsrs : list RSRParser) (out : string) : string :=
  match prsrs with
  | [] => out
  | prsr :: prsrs' =>
      rule_loop (S i) prsrs'
        (if decide (i = 0)%nat then rp_Rules prsr else out +:+ NestingSep +:+ rp_Rules prsr)
  end.
Definition GetRule (prsrs : list RSRParser) : string := rule_loop 0 prsrs "".

Definition AttrName (prsr : RSRParser) : string := rp_path prsr.

Definition RSRParser_Compile (prsr : RSRParser) : res RSRParser :=
  newPrsr ← NewRSRParser (rp_Rules prsr) (rp_AllFiltersMatch prsr); Ok (default prsr newPrsr).

Definition RSRParsers_Compile (prsrs : list RSRParser) : res (list RSRParser) :=
  res_map RSRParser_Compile prsrs.

Definition RSRParser_RegexpMatched (prsr : RSRParser) : bool :=
  existsb Matched (rp_rsrRules prsr).

Definition RSRParser_parseValue (prsr : RSRParser) (value : string) : string * RSRParser :=
  if decide (rp_path prsr = "") then (rp_Rules prsr, prsr)
  else
    let '(value, rules) := process_rules (rp_rsrRules prsr) value in
    (value, mkRSRParser (rp_Rules prsr) (rp_AllFiltersMatch prsr) (rp_path prsr) rules
              (rp_converters prsr) (rp_filters prsr)).

Definition RSRParser_ParseValue (prsr : RSRParser) (value : iface) : res string * RSRParser :=
  let '(out, prsr) := RSRParser_parseValue prsr (IfaceAsString value) in
  (out ← ConvertString (rp_converters prsr) out;
   pass ← RSRFilters_Pass (rp_filters prsr) out (rp_AllFiltersMatch prsr);
   if (pass : bool) then Ok out else Err ErrFilterNotPassingNoCaps, prsr).

(** What the provider gives for the path: a value that is not found counts as missing when
    the filter is the one of the empty value. *)
Definition provided {A} (prsr : RSRParser) (zero : A) (field : list string → res A)
    (separator : string) : res A :=
  if decide (rp_path prsr = "") then Ok zero
  else
    match field (Split (rp_path prsr) separator) with
    | Err err =>
        if decide (err ≠ NOT_FOUND ∨ FilterRules (rp_filters prsr) ≠ "^$") then Err err
        else Ok zero
    | r => r
    end.

Definition ParseDataProvider (prsr : RSRParser) (dP : DataProvider) (separator : string)
    : res string :=
  outStr ← provided prsr "" (dp_FieldAsString dP) separator;
  (RSRParser_ParseValue prsr (IString outStr)).1.

Definition ParseDataProviderWithInterfaces (prsr : RSRParser) (dP : DataProvider)
    (separator : string) : res string :=
  outIface ← provided prsr INil (dp_FieldAsInterface dP) separator;
  (RSRParser_ParseValue prsr outIface).1.

(** The values of the parsers one after the other. *)
Definition concat_values (parse : RSRParser → res string) (prsrs : list RSRParser) : res string :=
  foldl (λ acc prsr, out ← acc; v ← parse prsr; Ok (out +:+ v)) (Ok "") prsrs.

Definition RSRParsers_ParseValue (prsrs : list RSRParser) (value : iface) : res string :=
  concat_values (λ prsr, (RSRParser_ParseValue prsr value).1) prsrs.
Definition RSRParsers_ParseDataProvider (prsrs : list RSRParser) (dP : DataProvider)
    (separator : string) : res string :=
  concat_values (λ prsr, ParseDataProvider prsr dP separator) prsrs.
Definition RSRParsers_ParseDataProviderWithInterfaces (prsrs : list RSRParser)
    (dP : DataProvider) (separator : string) : res string :=
  concat_values (λ prsr, ParseDataProviderWithInterfaces prsr dP separator) prsrs.
(** ** Properties *)

(** A rule without converters, filters and search rules. *)
Definition plain_rule (s : string) : Prop :=
  HasSuffix s FILTER_VAL_END = false ∧ Index s "{*" = -1 ∧ Split s spltRgxp = [s].

Lemma NewRSRParser_plain path all :
  path ≠ "" → plain_rule (String "~" path) →
  NewRSRParser (String "~" path) all =
    Ok (Some (mkRSRParser (String "~" path) all path [] [] [])).
Proof.
  intros Hp (Hf & Hc & Hs). unfold NewRSRParser. rewrite decide_False by (unfold slen; simpl; lia).
  rewrite Hf. unfold template_converters. cbn -[HasPrefix slen Split Index decide]. rewrite Hc. rewrite decide_True by done.
  assert (HasPrefix (String "~" path) DynamicDataPrefix = true) as Hd.
  { apply prefix_single. }
  assert ((slen (String "~" path) =? 1) = false) as Hl.
  { destruct path; [done|]. unfold slen. simpl String.length. lia. }
  cbn -[HasPrefix slen Split]; by rewrite Hd, Hl, Hs.
Qed.

(** A template that only names a path reads that path.  A rule [~path] without filter,
    converters and search rules makes one parser, which gives the value the provider has at
    the parts of the path, as text, with the provider's error when there is one. *)
Theorem plain_template_reads_field path all dP sep :
  path ≠ "" → plain_rule (String "~" path) → count_char "`" (String "~" path) = 0 →
  Split (String "~" path) sep = [String "~" path] →
  ∃ prsrs, NewRSRParsers (String "~" path) all sep = Ok prsrs ∧
    RSRParsers_ParseDataProvider prsrs dP NestingSep = dp_FieldAsString dP (Split path NestingSep) ∧
    RSRParsers_ParseDataProviderWithInterfaces prsrs dP NestingSep =
      IfaceAsString <$> dp_FieldAsInterface dP (Split path NestingSep).
Proof.
  intros Hp Hr Hq Hsep. exists [mkRSRParser (String "~" path) all path [] [] []]. split_and!.
  - unfold NewRSRParsers. rewrite decide_False, Hq by done. simpl. rewrite Hsep.
    unfold NewRSRParsersFromSlice. simpl. by rewrite NewRSRParser_plain.
  - unfold RSRParsers_ParseDataProvider, concat_values, ParseDataProvider, provided. simpl.
    rewrite decide_False by done. destruct (dp_FieldAsString _ _) as [v|e|]; [|by rewrite decide_True by by right|done].
    unfold RSRParser_ParseValue, RSRParser_parseValue. simpl. by rewrite decide_False.
  - unfold RSRParsers_ParseDataProviderWithInterfaces, concat_values,
      ParseDataProviderWithInterfaces, provided. simpl.
    rewrite decide_False by done. destruct (dp_FieldAsInterface _ _) as [v|e|]; [|by rewrite decide_True by by right|done].
    unfold RSRParser_ParseValue, RSRParser_parseValue. simpl. by rewrite decide_False.
Qed.

(** A field that was stored comes back without its converters.  Compiling a field that
    holds only the rules of its definition restores the static value, the search rules and
    the filters, but neither the converters nor the identifier. *)
Theorem recompiled_field_loses_converters rules f raw :
  NewRSRField rules = Ok (Some f) →
  raw = mkRSRField "" rules "" [] [] [] →
  RSRField_Compile raw =
    Ok (mkRSRField "" rules (rsf_staticValue f) (rsf_RSRules f) (rsf_filters f) []) ∧
  (RSRField_Compile raw = Ok f ↔ rsf_converters f = [] ∧ rsf_Id f = "").
Proof.
  intros Hf ->. unfold RSRField_Compile. simpl. rewrite Hf. simpl.
  assert (rsf_Rules f = rules) as Hr.
  { revert Hf. unfold NewRSRField. destruct (decide _); [done|]. intros Hf.
    apply bind_ok_inv in Hf as ([fl s] & _ & Hf).
    apply bind_ok_inv in Hf as ([cv s'] & _ & Hf).
    destruct (HasPrefix s' STATIC_VALUE_PREFIX).
    { apply bind_ok_inv in Hf as ([hd v] & _ & [= <-]). done. }
    destruct (negb _); [by injection Hf as <-|].
    destruct (Split s' spltRgxp) as [|h [|r rs]]; try done.
    apply bind_ok_inv in Hf as (rr & _ & [= <-]). done. }
  split; [done|]. destruct f as [id r sv rs fs cs]. simpl in *. subst. split.
  - by intros [= <- <-].
  - by intros [-> ->].
Qed.
Lemma count_char_app c a b : count_char c (a +:+ b) = count_char c a + count_char c b.
Proof.
  unfold count_char. induction a as [|d a IH]; simpl; [done|]. simpl in IH. lia.
Qed.

Lemma count_char_none c s : has_char c s = false → count_char c s = 0.
Proof.
  unfold count_char. induction s as [|d s IH]; simpl; [done|].
  intros [Hd Hs]%orb_false_iff. rewrite Hd. simpl. by apply IH.
Qed.

Lemma count_char_cons c s : count_char c (String c s) = 1 + count_char c s.
Proof. unfold count_char. simpl. rewrite Ascii.eqb_refl. simpl. lia. Qed.

Lemma Index_lower s sub i : Index_go s sub i = -1 ∨ i ≤ Index_go s sub i.
Proof.
  revert i. induction s as [|c s IH]; intros i; cbn [Index_go]; destruct (String.prefix _ _); auto with lia.
  destruct (IH (i + 1)) as [->|]; [by left|right; lia].
Qed.

(** What is left after a backquote is shorter. *)
Lemma slice_rest_shorter s i r :
  0 ≤ i → slice s (i + 1) (slen s) = Ok r → (String.length r < String.length s)%nat.
Proof. intros Hi Hs%slice_length. unfold slen in Hs. lia. Qed.

(** The text shortens in every round, so that its length is fuel enough: more fuel splits
    it in the same way. *)
Lemma unsplit_loop_fuel n m rules acc count :
  (String.length rules < n)%nat → (String.length rules < m)%nat →
  unsplit_loop n acc rules count = unsplit_loop m acc rules count.
Proof.
  revert m rules acc count. induction n as [|n IH]; intros [|m] rules acc count Hn Hm; try lia.
  cbn [unsplit_loop]. destruct (Index_lower rules "`" 0) as [Hi|Hi]; fold (Index rules "`") in Hi.
  { by rewrite !(decide_True _ _ Hi). }
  case_decide; [done|].
  apply bind_ext_ok. intros before _. apply bind_ext_ok. intros before' _.
  apply bind_ext_ok. intros rest Hrest%slice_rest_shorter; [|done].
  apply bind_ext_ok. intros quoted Hq. apply bind_ext_ok. intros acc' _.
  apply bind_ext_ok. intros rest' Hrest'.
  assert (0 ≤ Index rest "`") as Hj.
  { revert Hq. unfold slice. case_decide as Hd; [lia|done]. }
  apply slice_rest_shorter in Hrest'; [|done].
  case_decide; [apply IH; lia|]. case_decide as Hs; [done|].
  apply bind_ext_ok. intros acc'' _. apply bind_ext_ok. intros rest'' Hrest''.
  apply slice_rest_shorter in Hrest''.
  { do 2 (case_decide; [done|]). apply IH; lia. }
  destruct (negb _); [|done]. destruct (Index_lower rest' ";" 0) as [Hk|]; [|done]. naive_solver.
Qed.

(** Backquotes keep a rule whole.  A template that starts with a text between
    backquotes and a semicolon makes the rules of that text, semicolons and all, and of the
    parts of the rest.  But where more text follows the closing backquote directly, the part
    taken up to the next semicolon may hold another backquote, and the search for its
    partner panics. *)
Theorem quoted_rules (q rest : string) all sep :
  has_char "`" q = false → has_char "`" rest = false → rest ≠ "" →
  NewRSRParsers (String "`" (q +:+ String "`" (String ";" rest))) all sep =
    NewRSRParsersFromSlice (q :: Split rest INFIELD_SEP) all ∧
  NewRSRParsers "`a`b`c;d`" all sep = Panic.
Proof.
  intros Hq Hr Hne. split; [|done]. unfold NewRSRParsers. rewrite decide_False by done.
  assert (count_char "`" (String "`" (q +:+ String "`" (String ";" rest))) = 2) as ->.
  { rewrite count_char_cons, count_char_app, count_char_cons, !count_char_none; [done|..|done].
    done. }
  simpl negb. cbv iota. cbn [unsplit_loop].
  set (body := q +:+ String "`" (String ";" rest)).
  assert (Index (String "`" body) "`" = 0) as -> by exact (Index_at "`" "" body eq_refl).
  rewrite decide_False by done.
  assert (slice (String "`" body) 0 0 = Ok "") as -> by apply (slice_before "").
  assert (slice (String "`" body) (0 + 1) (slen (String "`" body)) = Ok body) as ->
    by apply (slice_after "`" "").
  cbn [mbind res_bind]. change (HasSuffix "" INFIELD_SEP) with false. cbn [mbind res_bind negb].
  unfold body. rewrite Index_at, slice_before, slice_after by done. cbn [mbind res_bind].
  change (append_last ([] ++ Split "" INFIELD_SEP) q) with (Ok [q]). cbn [mbind res_bind].
  rewrite decide_False by (unfold slen; simpl String.length; lia).
  assert (HasPrefix (String ";" rest) INFIELD_SEP = true) as -> by apply prefix_single.
  cbn [mbind res_bind negb]. rewrite decide_False by by intros [? _].
  assert (slice (String ";" rest) (0 + 1) (slen (String ";" rest)) = Ok rest) as ->
    by apply (slice_after ";" "").
  cbn [mbind res_bind].
  rewrite decide_False by (destruct rest; [done|unfold slen; simpl String.length; lia]). done.
Qed.
End rsr.

(** An engine in which every pattern compiles and none matches, for the examples. *)
Definition reference_regexp : GoRegexp := {|
  re_compile p := Ok (); re_MatchString p s := false; re_FindStringSubmatch p s := [];
  re_ExpandString p template s := None; net_ParseIP s := ""; as_net_IP i := None;
  phonenumbers_Convert s cc fmt := Err "no number" |}.

(** ** Examples *)

Example plain_template_reads_field_witness :
  ∃ prsrs, @NewRSRParsers reference_text reference_regexp "~*req.Account" true ";" = Ok prsrs ∧
    @RSRParsers_ParseDataProvider reference_text reference_regexp prsrs
      (mkDataProvider (λ p, Ok (IStrings p)) (λ p, Ok (Join p "/"))) "." = Ok "*req/Account" ∧
    @RSRParsers_ParseDataProviderWithInterfaces reference_text reference_regexp prsrs
      (mkDataProvider (λ p, Ok (IStrings p)) (λ p, Ok (Join p "/"))) "." =
      Ok (@IfaceAsString reference_text (IStrings ["*req"; "Account"])).
Proof.
  apply (@plain_template_reads_field reference_text reference_regexp "*req.Account" true
           (mkDataProvider (λ p, Ok (IStrings p)) (λ p, Ok (Join p "/"))) ";");
    [done|by split_and!|done|done].
Defined.

Example recompiled_field_loses_converters_witness :
  @RSRField_Compile reference_text reference_regexp
    (mkRSRField "" "Usage{*duration_seconds}" "" [] [] []) =
  Ok (mkRSRField "" "Usage{*duration_seconds}" "" [] [] []).
Proof.
  apply (@recompiled_field_loses_converters reference_text reference_regexp
    "Usage{*duration_seconds}"
    (mkRSRField "Usage" "Usage{*duration_seconds}" "" [] [] [DurationSecondsConverter]) _);
    [reflexivity|reflexivity].
Defined.

Example quoted_rules_witness :
  @NewRSRParsers reference_text reference_regexp "`a;b`;c" true ";" =
    @NewRSRParsersFromSlice reference_text reference_regexp ["a;b"; "c"] true ∧
  @NewRSRParsers reference_text reference_regexp "`a`b`c;d`" true ";" = Panic.
Proof.
  apply (@quoted_rules reference_text reference_regexp "a;b" "c" true ";"); done.
Defined.
