(* ===== verification/Filters.v ===== *)
(** * Filters

    [engine/filters.go] and [engine/filterhelpers.go]: the rules an event has to pass
    and the selection of the items whose indexes match an event.  Stored filters, the
    objects of the other subsystems and the answers of the index are a class,
    [FilterData], as is the reflection that reads a field of an object; the RSR rules are
    those of [RSR].  Errors are
    compared by their text; those of an object path are shortened. *)
From S2P Require Import Prelude GoFloat GoStrings GoTime CoreUtils Values RSR.

Definition MetaNot : string := "*not".
Definition NOT_IMPLEMENTED : string := "NOT_IMPLEMENTED".
Definition ErrPrefix (err reason : string) : string := err +:+ ":" +:+ reason.

Record ActivationInterval := mkActivationInterval {
  ai_ActivationTime : Time; ai_ExpiryTime : Time }.

Definition IsActiveAtTime (ai : ActivationInterval) (atTime : Time) : bool :=
  (IsZero (ai_ActivationTime ai) || Before (ai_ActivationTime ai) atTime) &&
  (IsZero (ai_ExpiryTime ai) || After (ai_ExpiryTime ai) atTime).

(** The compiled RSR fields are kept as the values they are compiled from. *)
Record FilterRule := mkFilterRule {
  fr_Type : string; fr_Element : string; fr_Values : list string; fr_negative : option bool }.

Record Filter := mkFilter {
  fl_Tenant : string; fl_ID : string; fl_Rules : list FilterRule;
  fl_ActivationInterval : option ActivationInterval }.

(** An account or a resource: its identifier and the object itself. *)
Record stored_object := mkStoredObject { so_ID : string; so_object : iface }.

Class FilterData := {
  GetFilterDrv : string → string → res Filter;
  (** an account by its key, a resource and the statistics by tenant and name *)
  GetAccount : string → res stored_object;
  GetResource : string → string → res stored_object;
  (** a field, an element or a method of an object, read by reflection *)
  ReflectFieldMethodInterface : iface → string → res iface;
  stat_metrics : string → string → res (list (string * float64));
  fd_GetReverseDestination : string → res (list string);
  (** regular expressions, for the RSR rules *)
  fd_regexp :: GoRegexp;
  (** the items an index lists for a type of filter, a field and a value *)
  MatchFilterIndex : string → string → string → string → string → res (list (string * bool));
  GetKeysForPrefix : string → res (list string);
  now : Time
}.

Definition Filter_TenantID (fltr : Filter) : string :=
  ConcatenatedKey [fl_Tenant fltr; fl_ID fltr].

(** ** Making filters *)

Definition supportedFiltersType : list string :=
  ["*string"; "*prefix"; "*suffix"; "*timings"; "*rsr"; "*destinations"; "*empty"; "*exists";
   "*lt"; "*lte"; "*gt"; "*gte"; "*eq"; "*noteq"].
Definition needsFieldName : list string :=
  ["*string"; "*prefix"; "*suffix"; "*timings"; "*destinations"; "*lt"; "*empty"; "*exists";
   "*lte"; "*gt"; "*gte"; "*eq"; "*noteq"].
Definition needsValues : list string :=
  ["*string"; "*prefix"; "*suffix"; "*timings"; "*rsr"; "*destinations"; "*lt"; "*lte"; "*gt";
   "*gte"; "*eq"; "*noteq"].

Section filters.
Context `{GoText} `{FilterData}.

Definition CompileValues (fltr : FilterRule) : res () :=
  if bool_decide (fr_Type fltr ∈ ["*rsr"; "*notrsr"])
  then _ ← NewRSRParsersFromSlice (fr_Values fltr) true; Ok () else Ok ().

Definition Compile (fltr : Filter) : res () :=
  foldl (λ acc rf, _ ← acc; CompileValues rf) (Ok ()) (fl_Rules fltr).

Definition NewFilterRule (rfType fieldName : string) (vals : list string) : res FilterRule :=
  let '(rType, negative) :=
    if HasPrefix rfType MetaNot then ("*" +:+ TrimPrefix rfType MetaNot, true)
    else (rfType, false) in
  if negb (bool_decide (rType ∈ supportedFiltersType)) then
    Err ("Unsupported filter Type: " +:+ rfType)
  else if bool_decide (fieldName = "") && bool_decide (rType ∈ needsFieldName) then
    Err ("Element is mandatory for Type: " +:+ rfType)
  else if (length vals =? 0)%nat && bool_decide (rType ∈ needsValues) then
    Err ("Values is mandatory for Type: " +:+ rfType)
  else
    let rf := mkFilterRule rfType fieldName vals (Some negative) in
    _ ← CompileValues rf; Ok rf.

Definition NewFilterFromInline (tenant inlnRule : string) : res Filter :=
  match Split inlnRule ":" with
  | ty :: element :: ((_ :: _) as vals) =>
      let f := mkFilter tenant inlnRule
                 [mkFilterRule ty element (Split (Join vals ":") ";") None] None in
      _ ← Compile f; Ok f
  | _ => Err ("inline parse error for string: <" +:+ inlnRule +:+ ">")
  end.

(** The cache in front of it is left out: it keeps what this function returns. *)
Definition GetFilter (tenant id : string) : res Filter :=
  if HasPrefix id "*" then NewFilterFromInline tenant id
  else fltr ← GetFilterDrv tenant id; _ ← Compile fltr; Ok fltr.

(** ** One rule *)

(** The element of the rule, [None] when it is not found. *)
Definition found {A} (r : res A) : res (option A) :=
  match r with
  | Ok a => Ok (Some a)
  | Err e => if decide (e = NOT_FOUND) then Ok None else Err e
  | Panic => Panic
  end.

(** Is there a value, read from its provider, that passes the test?  A value that
    cannot be read is skipped; a missing provider panics. *)
Fixpoint any_value {A} (read : string → DataProvider → res A) (f : A → res bool)
    (values : list string) (fieldValuesDP : list DataProvider) : res bool :=
  match values with
  | [] => Ok false
  | val :: values' =>
      match fieldValuesDP with
      | [] => Panic
      | dp :: fieldValuesDP' =>
          match read val dp with
          | Panic => Panic
          | Err _ => any_value read f values' fieldValuesDP'
          | Ok sval =>
              b ← f sval;
              if (b : bool) then Ok true else any_value read f values' fieldValuesDP'
          end
      end
  end.

Section rule.
Context (fltr : FilterRule) (fielNameDP : DataProvider) (fieldValuesDP : list DataProvider).

Definition pass_string_test (test : string → string → bool) : res bool :=
  strVal ← found (DPDynamicString (fr_Element fltr) fielNameDP);
  match strVal with
  | None => Ok false
  | Some strVal =>
      any_value DPDynamicString (λ sval, Ok (test strVal sval)) (fr_Values fltr) fieldValuesDP
  end.

Definition passString : res bool := pass_string_test (λ strVal sval, bool_decide (strVal = sval)).
Definition passStringPrefix : res bool := pass_string_test HasPrefix.
Definition passStringSuffix : res bool := pass_string_test HasSuffix.

Definition passExists : res bool :=
  val ← found (DPDynamicInterface (fr_Element fltr) fielNameDP);
  Ok (bool_decide (is_Some val)).

Definition passEmpty : res bool :=
  val ← found (DPDynamicInterface (fr_Element fltr) fielNameDP);
  Ok (match val with
      | None | Some INil => true
      | Some (IString s) => bool_decide (s = "")
      | Some (IStrings l) => (length l =? 0)%nat
      | Some (ISlice l) => (length l =? 0)%nat
      | Some (IMap m) | Some (IStorage m) => (length m =? 0)%nat
      | Some _ => false
      end).

Definition passTimings : res bool := Err NOT_IMPLEMENTED.

(** The destinations of one prefix. *)
Definition pass_prefix (p : string) : res bool :=
  match fd_GetReverseDestination p with
  | Panic => Panic
  | Err _ => Ok false
  | Ok destIDs =>
      res_existsb (λ dID, any_value DPDynamicString (λ v, Ok (bool_decide (v = dID)))
                            (fr_Values fltr) fieldValuesDP) destIDs
  end.

Definition passDestinations : res bool :=
  dst ← found (DPDynamicString (fr_Element fltr) fielNameDP);
  match dst with
  | None => Ok false
  | Some dst => prefixes ← SplitPrefix dst 1; res_existsb pass_prefix prefixes
  end.

Definition passRSR : res bool :=
  dp ← deref (head fieldValuesDP);
  match (rsrFields ← NewRSRParsersFromSlice (fr_Values fltr) true;
         RSRParsers_ParseDataProviderWithInterfaces rsrFields dp NestingSep) with
  | Ok _ => Ok true
  | Err e => if bool_decide (e ∈ [NOT_FOUND; "filter not passing"]) then Ok false else Err e
  | Panic => Panic
  end.

(** The element as a comparable value. *)
Definition comparable_element : res (option iface) :=
  fldIf ← found (DPDynamicInterface (fr_Element fltr) fielNameDP);
  Ok (match fldIf with Some (IString s) => Some (StringToInterface s) | _ => fldIf end).

Definition passGreaterThan : res bool :=
  fldIf ← comparable_element;
  match fldIf with
  | None => Ok false
  | Some fldIf =>
      let orEqual := bool_decide (fr_Type fltr ∈ ["*gte"; "*lt"]) in
      any_value DPDynamicInterface (λ sval,
        gte ← GreaterThan fldIf sval orEqual;
        Ok ((bool_decide (fr_Type fltr ∈ ["*gt"; "*gte"]) && gte) ||
            (bool_decide (fr_Type fltr ∈ ["*lt"; "*lte"]) && negb gte)))
        (fr_Values fltr) fieldValuesDP
  end.

Definition passEqualTo : res bool :=
  fldIf ← comparable_element;
  match fldIf with
  | None => Ok false
  | Some fldIf => any_value DPDynamicInterface (EqualTo fldIf) (fr_Values fltr) fieldValuesDP
  end.

(** The test of the type of the rule, before it is negated. *)
Definition rule_test : res bool :=
  let one_of types := bool_decide (fr_Type fltr ∈ types) in
  if one_of ["*string"; "*notstring"] then passString
  else if one_of ["*empty"; "*notempty"] then passEmpty
  else if one_of ["*exists"; "*notexists"] then passExists
  else if one_of ["*prefix"; "*notprefix"] then passStringPrefix
  else if one_of ["*suffix"; "*notsuffix"] then passStringSuffix
  else if one_of ["*timings"; "*nottimings"] then passTimings
  else if one_of ["*destinations"; "*notdestinations"] then passDestinations
  else if one_of ["*rsr"; "*notrsr"] then passRSR
  else if one_of ["*lt"; "*lte"; "*gt"; "*gte"] then passGreaterThan
  else if one_of ["*eq"; "*noteq"] then passEqualTo
  else Err (ErrPrefix NOT_IMPLEMENTED (fr_Type fltr)).

Definition FilterRule_Pass : res bool :=
  let negative := default (HasPrefix (fr_Type fltr) MetaNot) (fr_negative fltr) in
  result ← rule_test; Ok (xorb result negative).
End rule.

(** ** All rules of all filters *)

(** One part of the path of an object: a field, and what the brackets after it select. *)
Definition object_step (obj : iface) (fld : string) : res iface :=
  match Split fld "[" with
  | fld :: sel :: _ =>
      slctrStr ← slice sel 0 (slen sel - 1);
      if negb (HasSuffix sel "]") then
        Err ("filter rule <" +:+ sel +:+ "> needs to end in ]")
      else
        data ← ReflectFieldMethodInterface obj fld;
        if decide (slctrStr = "") then Ok data else ReflectFieldMethodInterface data slctrStr
  | _ => ReflectFieldMethodInterface obj fld
  end.

(** [NewObjectDP]: reads the paths below a prefix.  Its cache is left out. *)
Definition object_FieldAsInterface (obj : iface) (prfxSls fldPath : list string) : res iface :=
  if (length fldPath <? length prfxSls)%nat then Err "invalid path"
  else if negb (bool_decide (take (length prfxSls) fldPath = prfxSls)) then Err "wrong prefix"
  else
    match drop (length prfxSls) fldPath with
    | [] => Ok INil
    | clnFldPath => foldl (λ acc fld, obj ← acc; object_step obj fld) (Ok obj) clnFldPath
    end.
Definition object_FieldAsString (obj : iface) (prfxSls fldPath : list string) : res string :=
  v ← object_FieldAsInterface obj prfxSls fldPath; Ok (IfaceAsString v).
Definition NewObjectDP (obj : iface) (prfxSls : list string) : DataProvider :=
  mkDataProvider (object_FieldAsInterface obj prfxSls) (object_FieldAsString obj prfxSls).

(** A path of at least three parts: the second one. *)
Definition named_object (path : string) : res string :=
  match Split path "." with
  | _ :: name :: _ :: _ => Ok name
  | _ => Err ("invalid fieldname <" +:+ path +:+ ">")
  end.

Definition has_prefix_of (s : string) (prefixes : list string) : bool :=
  existsb (λ p, HasPrefix s ("~" +:+ p)) prefixes.

(** [None] is the nil provider of an empty field name. *)
Definition getFieldNameDataProvider (initialDP : DataProvider) (fieldName tenant : string)
    : res (option DataProvider) :=
  if has_prefix_of fieldName ["*accounts"] then
    name ← named_object fieldName;
    account ← GetAccount (ConcatenatedKey [tenant; name]);
    Ok (Some (NewObjectDP (so_object account) ["*accounts"; name]))
  else if has_prefix_of fieldName ["*resources"] then
    name ← named_object fieldName;
    reply ← GetResource tenant name;
    Ok (Some (NewObjectDP (so_object reply) ["*resources"; so_ID reply]))
  else if has_prefix_of fieldName ["*stats"] then
    name ← named_object fieldName;
    statValues ← stat_metrics tenant name;
    evNm ← foldl (λ acc kv, evNm ← acc; ms_Set evNm ["*stats"; name; kv.1] (IFloat64 kv.2))
             (Ok []) statValues;
    Ok (Some (storage_provider evNm))
  else if has_prefix_of fieldName
            ["*req"; "*vars"; "*cgreq"; "*cgrep"; "*rep"; "*cgrareq"; "*act"; "*ec"] then
    Ok (Some initialDP)
  else if decide (fieldName = "") then Ok None
  else Err ("filter path: <" +:+ fieldName +:+ "> doesn't have a valid prefix").

(** A constant gets an empty provider. *)
Definition getFieldValueDataProvider (initialDP : DataProvider) (tenant fieldValue : string)
    : res DataProvider :=
  if has_prefix_of fieldValue ["*accounts"] then
    name ← named_object fieldValue;
    account ← GetAccount (ConcatenatedKey [tenant; name]);
    Ok (NewObjectDP (so_object account) ["*accounts"; so_ID account])
  else if has_prefix_of fieldValue ["*resources"] then
    name ← named_object fieldValue;
    reply ← GetResource tenant name;
    Ok (NewObjectDP (so_object reply) ["*resources"; so_ID reply])
  else if has_prefix_of fieldValue ["*stats"] then
    name ← named_object fieldValue;
    statValues ← stat_metrics tenant name;
    evNm ← ms_Set [] ["*stats"; name] (IMap (map (λ kv, (kv.1, IFloat64 kv.2)) statValues));
    Ok (storage_provider evNm)
  else if has_prefix_of fieldValue
            ["*req"; "*vars"; "*cgreq"; "*cgrep"; "*rep"; "*cgrareq"; "*act"] then
    Ok initialDP
  else Ok (storage_provider []).

Definition getFieldValuesDataProviders (initialDP : DataProvider) (values : list string)
    (tenant : string) : res (list DataProvider) :=
  res_map (getFieldValueDataProvider initialDP tenant) values.

Definition rule_verdict (ev : DataProvider) (tenant : string) (fltr : FilterRule) : res bool :=
  fieldNameDP ← getFieldNameDataProvider ev (fr_Element fltr) tenant;
  fieldValuesDP ← getFieldValuesDataProviders ev (fr_Values fltr) tenant;
  FilterRule_Pass fltr (default nil_provider fieldNameDP) fieldValuesDP.

(** Stops at the first rule that does not pass. *)
Fixpoint rules_pass (ev : DataProvider) (tenant : string) (rules : list FilterRule) : res bool :=
  match rules with
  | [] => Ok true
  | fltr :: rules' =>
      pass ← rule_verdict ev tenant fltr;
      if (pass : bool) then rules_pass ev tenant rules' else Ok false
  end.

Definition inactive (f : Filter) : bool :=
  match fl_ActivationInterval f with
  | Some ai => negb (IsActiveAtTime ai now)
  | None => false
  end.

Fixpoint filters_pass (ev : DataProvider) (tenant : string) (filterIDs : list string)
    (pass : bool) : res bool :=
  match filterIDs with
  | [] => Ok pass
  | fltrID :: rest =>
      match GetFilter tenant fltrID with
      | Panic => Panic
      | Err e => Err (if decide (e = NOT_FOUND) then ErrPrefix NOT_FOUND fltrID else e)
      | Ok f =>
          if inactive f then filters_pass ev tenant rest pass
          else
            passed ← rules_pass ev tenant (fl_Rules f);
            if (passed : bool) then filters_pass ev tenant rest true else Ok false
      end
  end.

Definition FilterS_Pass (tenant : string) (filterIDs : list string) (ev : DataProvider)
    : res bool :=
  match filterIDs with
  | [] => Ok true
  | _ => filters_pass ev tenant filterIDs false
  end.

(** ** The items whose indexes match *)

(** The values an index is asked for: all prefixes of the field for a prefix index. *)
Definition index_values (indexType fldVal : string) : res (list string) :=
  if decide (indexType = "*prefix") then SplitPrefix fldVal 1 else Ok [fldVal].

(** The first value with an answer; an error other than not found ends the handler. *)
Fixpoint first_match (cacheID prefix indexType fldName : string) (vals : list string)
    : res (list (string * bool)) :=
  match vals with
  | [] => Ok []
  | val :: vals' =>
      match MatchFilterIndex cacheID prefix indexType fldName val with
      | Err e => if decide (e = NOT_FOUND) then first_match cacheID prefix indexType fldName vals'
                 else Err e
      | r => r
      end
  end.

(** The items of one answer that are not there yet. *)
Definition add_items (itemIDs : gmap string bool) (dbItemIDs : list (string * bool))
    : gmap string bool :=
  foldl (λ acc kv, match acc !! kv.1 with Some _ => acc | None => <[kv.1 := kv.2]> acc end)
    itemIDs dbItemIDs.

(** One field: the items, and the text of the field kept for the indexes to come. *)
Definition match_field (cacheID prefix indexType : string) (navEv : MapStorage)
    (stringFieldVals : gmap string string) (itemIDs : gmap string bool) (fldName : string)
    : res (gmap string string * gmap string bool) :=
  match FieldAsInterface navEv (Split fldName "."), bool_decide (indexType = "*none") with
  | Panic, _ => Panic
  | Err _, false => Ok (stringFieldVals, itemIDs)
  | r, _ =>
      let fieldVal := IfaceAsString (match r with Ok v => v | _ => INil end) in
      let '(vals, fldVal) := match stringFieldVals !! fldName with
                             | Some v => (stringFieldVals, v)
                             | None => (<[fldName := fieldVal]> stringFieldVals, fieldVal) end in
      fldVals ← index_values indexType fldVal;
      let name := if decide (fldName = "*any") then fldName else "~*req." +:+ fldName in
      dbItemIDs ← first_match cacheID prefix indexType name fldVals;
      Ok (vals, add_items itemIDs dbItemIDs)
  end.

(** The fields of an index; the first error ends the handler with the items found so
    far, [true] telling that it has ended. *)
Fixpoint match_fields (cacheID prefix indexType : string) (navEv : MapStorage)
    (fieldIDs : list string) (st : gmap string string * gmap string bool)
    : res (gmap string string * gmap string bool * bool) :=
  match fieldIDs with
  | [] => Ok (st, false)
  | fldName :: rest =>
      match match_field cacheID prefix indexType navEv st.1 st.2 fldName with
      | Panic => Panic
      | Err _ => Ok (st, true)
      | Ok st => match_fields cacheID prefix indexType navEv rest st
      end
  end.

(** The indexed part of the handler.  The error of the index is assigned to a variable
    of the loop body, not to the result of the function. *)
Definition indexed_items (cacheID prefix : string) (navEv : MapStorage)
    (stringFldIDs prefixFldIDs : list string) : res (gmap string bool) :=
  '(st, ended) ← match_fields cacheID prefix "*string" navEv stringFldIDs ({["*any" := "*any"]}, ∅);
  if (ended : bool) then Ok st.2
  else
    '(st, ended) ← match_fields cacheID prefix "*prefix" navEv prefixFldIDs st;
    if (ended : bool) then Ok st.2
    else
      '(st, _) ← match_fields cacheID prefix "*none" navEv ["*any"] st; Ok st.2.

Definition MatchingItemIDsForEvent (ev : MapStorage) (stringFldIDs prefixFldIDs : option (list string))
    (cacheID indexesPrefix itemIDPrefix : string) (indexedSelects nestedFields : bool)
    : res (gmap string bool) :=
  let allFieldIDs := GetKeys ev nestedFields in
  itemIDs ←
    (if negb indexedSelects then
       match GetKeysForPrefix indexesPrefix with
       | Panic => Panic
       | Err _ => Ok ∅
       | Ok keysWithID =>
           sliceIDs ← res_map (λ id, index (Split id ":") 1) keysWithID;
           Ok (list_to_map (map (λ id, (id, true)) sliceIDs))
       end
     else
       indexed_items cacheID itemIDPrefix ev (default allFieldIDs stringFldIDs)
         (default allFieldIDs prefixFldIDs));
  if decide (itemIDs = ∅) then Err NOT_FOUND else Ok itemIDs.

(** ** Properties *)

Lemma rules_pass_true ev tenant rules :
  rules_pass ev tenant rules = Ok true ↔ ∀ r, r ∈ rules → rule_verdict ev tenant r = Ok true.
Proof.
  induction rules as [|r rules IH]; simpl.
  { split; [intros _ r Hr; by apply elem_of_nil in Hr|done]. }
  split.
  - intros E x Hx. destruct (rule_verdict ev tenant r) as [[]| |] eqn:Er; simpl in E; try done.
    apply elem_of_cons in Hx as [-> |Hx]; [done|]. by apply IH.
  - intros Hall. rewrite (Hall r) by (by left). simpl. apply IH. intros x Hx. apply Hall. by right.
Qed.

Lemma filters_pass_true ev tenant ids pass :
  filters_pass ev tenant ids pass = Ok true ↔
  (∀ id, id ∈ ids → ∃ f, GetFilter tenant id = Ok f ∧
     (inactive f = true ∨ ∀ r, r ∈ fl_Rules f → rule_verdict ev tenant r = Ok true)) ∧
  (pass = true ∨ ∃ id f, id ∈ ids ∧ GetFilter tenant id = Ok f ∧ inactive f = false).
Proof.
  revert pass. induction ids as [|id ids IH]; intros pass; simpl.
  { split.
    - intros [= ->]. split; [intros id Hid; by apply elem_of_nil in Hid|by left].
    - intros [_ [-> |(id & f & Hid & _)]]; [done|]. by apply elem_of_nil in Hid. }
  destruct (GetFilter tenant id) as [f|e|] eqn:Ef.
  2,3: split; [done|]; intros [Hall _]; destruct (Hall id) as (f & E & _); [by left|congruence].
  destruct (inactive f) eqn:Ei.
  - rewrite IH. split; intros [Hall Hor]; (split; [intros x Hx|]).
    + apply elem_of_cons in Hx as [-> |Hx]; [exists f; auto|by apply Hall].
    + destruct Hor as [?|(x & g & ? & ? & ?)]; [by left|right]. exists x, g. set_solver.
    + apply Hall. by right.
    + destruct Hor as [?|(x & g & Hx & Eg & Hg)]; [by left|right].
      apply elem_of_cons in Hx as [-> |Hx]; [congruence|]. eauto.
  - split.
    + intros E. destruct (rules_pass ev tenant (fl_Rules f)) as [[]| |] eqn:Er; simpl in E; try done.
      apply IH in E as [Hall _]. split.
      * intros x Hx. apply elem_of_cons in Hx as [-> |Hx]; [|by apply Hall].
        exists f. split; [done|]. right. by apply rules_pass_true.
      * right. exists id, f. split_and!; [by left|done|done].
    + intros [Hall _]. destruct (Hall id) as (g & Eg & Hg); [by left|].
      assert (g = f) as -> by congruence. destruct Hg as [?|Hr]; [congruence|].
      apply rules_pass_true in Hr. rewrite Hr. simpl. apply IH. split; [|by left].
      intros x Hx. apply Hall. by right.
Qed.

(** C11: an event passes a list of filters exactly when the list is empty, or every filter
    is found, the active ones have all their rules passed, and one at least is active:
    a list of inactive filters does not pass. *)
Theorem FilterS_Pass_spec (tenant : string) (filterIDs : list string) (ev : DataProvider) :
  FilterS_Pass tenant filterIDs ev = Ok true ↔
  filterIDs = [] ∨
  ((∀ id, id ∈ filterIDs → ∃ f, GetFilter tenant id = Ok f ∧
      (inactive f = true ∨ ∀ r, r ∈ fl_Rules f → rule_verdict ev tenant r = Ok true)) ∧
   ∃ id f, id ∈ filterIDs ∧ GetFilter tenant id = Ok f ∧ inactive f = false).
Proof.
  unfold FilterS_Pass. destruct filterIDs as [|id ids]; [by split; [left|]|].
  rewrite filters_pass_true. split.
  - intros [Hall [?|?]]; [done|by right].
  - intros [?|[Hall Hex]]; [done|]. split; [done|by right].
Qed.

(** The types of rules and their negations. *)
Definition negated_types : list (string * string) :=
  [("*string", "*notstring"); ("*empty", "*notempty"); ("*exists", "*notexists");
   ("*prefix", "*notprefix"); ("*suffix", "*notsuffix"); ("*timings", "*nottimings");
   ("*destinations", "*notdestinations"); ("*rsr", "*notrsr"); ("*eq", "*noteq")].

(** C13: a rule of a negated type passes exactly when the rule of the plain type does not,
    and fails with the same error; against one comparable value, less than is the
    opposite of greater or equal, and less or equal of greater than. *)
Theorem rule_complements (element : string) (values : list string) (dp : DataProvider)
    (dps : list DataProvider) :
  let pass ty vals dps := FilterRule_Pass (mkFilterRule ty element vals None) dp dps in
  (∀ pos neg, (pos, neg) ∈ negated_types → pass neg values dps = negb <$> pass pos values dps) ∧
  (∀ val vdp sval fld,
     found (DPDynamicInterface element dp) = Ok (Some fld) →
     DPDynamicInterface val vdp = Ok sval →
     pass "*lt" [val] [vdp] = negb <$> pass "*gte" [val] [vdp] ∧
     pass "*lte" [val] [vdp] = negb <$> pass "*gt" [val] [vdp]).
Proof.
  intros pass. split.
  - intros pos neg Hin. unfold negated_types in Hin.
    repeat (apply elem_of_cons in Hin as [[= -> ->]|Hin]);
      [..|by apply elem_of_nil in Hin];
      unfold pass, FilterRule_Pass;
      match goal with |- _ = _ <$> (mbind _ (rule_test ?f dp dps)) =>
        match goal with |- mbind _ ?m = _ =>
          change m with (rule_test f dp dps); destruct (rule_test f dp dps) as [[]| |]; reflexivity
        end end.
  - intros val vdp sval fld Hf Hv.
    unfold pass, FilterRule_Pass, rule_test, passGreaterThan, comparable_element. simpl.
    rewrite Hf. simpl.
    set (item := match fld with IString s => _ | _ => _ end).
    assert (∃ it, item = Some it) as [it ->] by (unfold item; destruct fld; eauto).
    rewrite Hv. simpl. split;
      match goal with |- context [GreaterThan ?a ?b ?c] => destruct (GreaterThan a b c) as [[]| |] end;
      reflexivity.
Qed.

Lemma HasPrefix_tilde v p : HasPrefix v ("~" +:+ p) = true → ∃ s, v = String "~" s.
Proof. intros Hp. apply prefix_spec in Hp as (r & ->). by exists (p +:+ r). Qed.

Lemma Split_tilde s : ∃ h t, Split s "." = h :: t ∧ Split (String "~" s) "." = String "~" h :: t.
Proof. unfold Split. simpl. destruct (Split_go "." 0 s) as [h t]. eauto. Qed.

Lemma ConcatenatedKey_longer a b : ConcatenatedKey [a; b] ≠ b.
Proof.
  unfold ConcatenatedKey. rewrite Join_cons, Join_single by done. intros E.
  apply (f_equal String.length) in E. rewrite !slength_app in E. simpl in E. lia.
Qed.

(** A value of a rule that reads an account is never found: its provider expects the
    key of the account, with the tenant, where the path has the name alone. *)
Theorem account_value_unreadable (initialDP dp : DataProvider) (tenant fieldValue : string) :
  (∀ key account, GetAccount key = Ok account → so_ID account = key) →
  has_prefix_of fieldValue ["*accounts"] = true →
  getFieldValueDataProvider initialDP tenant fieldValue = Ok dp →
  DPDynamicString fieldValue dp = Err "wrong prefix".
Proof.
  intros Hid Hp Hdp. unfold getFieldValueDataProvider in Hdp. rewrite Hp in Hdp.
  apply bind_ok_inv in Hdp as (name & Hn & Hdp). apply bind_ok_inv in Hdp as (acc & Ha & Hdp).
  injection Hdp as <-. apply Hid in Ha.
  simpl in Hp. rewrite orb_false_r in Hp.
  destruct (HasPrefix_tilde _ _ Hp) as (s & ->). destruct (Split_tilde s) as (h & t & Es & Et).
  unfold named_object in Hn. rewrite Et in Hn. destruct t as [|n [|? t]]; try done.
  injection Hn as ->. unfold DPDynamicString.
  replace (HasPrefix (String "~" s) "~") with true
    by (symmetry; apply (HasPrefix_app "~" s)).
  change (TrimPrefix (String "~" s) "~") with (TrimPrefix ("~" +:+ s) "~").
  rewrite TrimPrefix_app, Es. simpl. unfold object_FieldAsString, object_FieldAsInterface. simpl.
  rewrite bool_decide_eq_false_2; [done|]. intros [= _ E]. rewrite Ha in E.
  by apply (ConcatenatedKey_longer tenant name).
Qed.

(** Whatever error the index or the database answers, the selection of the matching
    items fails with not found or with nothing: the items found before the error of an
    index are the result, and with none of them the error reads as not found. *)
Theorem MatchingItemIDsForEvent_errors (ev : MapStorage)
    (stringFldIDs prefixFldIDs : option (list string))
    (cacheID indexesPrefix itemIDPrefix : string) (indexedSelects nestedFields : bool) :
  match MatchingItemIDsForEvent ev stringFldIDs prefixFldIDs cacheID indexesPrefix itemIDPrefix
          indexedSelects nestedFields with
  | Ok itemIDs => itemIDs ≠ ∅
  | Err e => e = NOT_FOUND
  | Panic => True
  end.
Proof.
  assert (Hf : ∀ ty fields st e, match_fields cacheID itemIDPrefix ty ev fields st ≠ Err e).
  { intros ty fields. induction fields as [|f fields IH]; intros st e; simpl; [done|].
    destruct (match_field _ _ _ _ _ _ _); [apply IH|done..]. }
  assert (Hm : ∀ l e, res_map (λ id, index (Split id ":") 1) l ≠ Err e).
  { induction l as [|x l IH]; intros e; simpl; [done|].
    unfold index, deref. case_decide; [|done]. destruct (_ !! _); simpl; [|done].
    destruct (res_map _ l) eqn:E; done. }
  unfold MatchingItemIDsForEvent, indexed_items.
  match goal with |- context [mbind _ ?m] => destruct m as [itemIDs|e|] eqn:E end; simpl; [|exfalso|done].
  { by case_decide. }
  destruct indexedSelects; simpl in E.
  - repeat match type of E with
    | context [match_fields _ _ ?ty _ ?fs ?st] =>
        destruct (match_fields cacheID itemIDPrefix ty ev fs st) as [[? []]|?|] eqn:Em;
          simpl in E; [discriminate E| |by apply Hf in Em|discriminate E]; clear Em
    end. by destruct (match_field _ _ _ _ _ _ _).
  - destruct (GetKeysForPrefix _); simpl in E; try done.
    destruct (res_map _ _) eqn:Er; simpl in E; try done. by eapply Hm.
Qed.
End filters.

(** An instance to compute with: every account exists, nothing else does. *)
Definition filters_at (t : Time) : FilterData := {|
  GetFilterDrv tenant id := Err NOT_FOUND; GetAccount key := Ok (mkStoredObject key INil);
  GetResource tenant id := Err NOT_FOUND; ReflectFieldMethodInterface obj fld := Err NOT_FOUND;
  stat_metrics tenant id := Err NOT_FOUND; fd_GetReverseDestination p := Err NOT_FOUND;
  fd_regexp := reference_regexp;
  MatchFilterIndex a b c d e := Err NOT_FOUND; GetKeysForPrefix p := Err NOT_FOUND;
  now := t |}.
Definition reference_filters : FilterData := filters_at zero_time.

Example account_value_unreadable_witness :
  DPDynamicString "~*accounts.1001.ID"
    (@NewObjectDP reference_text reference_filters INil ["*accounts"; "cgrates.org:1001"]) =
  Err "wrong prefix".
Proof.
  apply (@account_value_unreadable reference_text reference_filters nil_provider _
           "cgrates.org" "~*accounts.1001.ID");
    [intros key account [= <-]; reflexivity|reflexivity|reflexivity].
Defined.

Example rule_complements_witness :
  let pass ty vals dps :=
    @FilterRule_Pass reference_text reference_filters (mkFilterRule ty "3" vals None)
      nil_provider dps in
  pass "*notstring" ["4"] [nil_provider] = negb <$> pass "*string" ["4"] [nil_provider] ∧
  pass "*lt" ["4"] [nil_provider] = negb <$> pass "*gte" ["4"] [nil_provider] ∧
  pass "*lt" ["4"] [nil_provider] = Ok true.
Proof.
  pose proof (@rule_complements reference_text reference_filters "3" ["4"] nil_provider
                [nil_provider]) as [Hneg Hcmp].
  split; [apply Hneg; left|].
  split; [apply (Hcmp "4" nil_provider (IInt KInt64 4) (IInt KInt64 3)); reflexivity|reflexivity].
Defined.
