(* ===== verification/StatMetrics.v ===== *)
(** * Metrics of the statistics queues

    [engine/statmetrics.go]: the ten metrics a queue of events can keep.  Metrics with
    the same fields share a record: durations (ACD, TCD, PDD), numbers (ASR, ACC, TCC,
    sum, average) and sets of values (DDC, distinct).  A metric is a value: an operation
    returns the new one.  Serialisation is left out. *)
From S2P Require Import Prelude GoFloat GoStrings GoTime CoreUtils Values Filters.

Definition STATS_NA : float64 := f_of_Z (-1).
Definition NOT_AVAILABLE : string := "N/A".

Class StatConfig := { RoundingDecimals : Z; DefaultTimezone : string }.

Record DurationWithCompress := mkDurationWithCompress {
  dc_Duration : Z; dc_CompressFactor : Z }.
Record StatWithCompress := mkStatWithCompress {
  sc_Stat : float64; sc_CompressFactor : Z }.

Record duration_metric := mkDurationMetric {
  d_FilterIDs : list string; d_Sum : Z; d_Count : Z;
  d_Events : gmap string DurationWithCompress; d_MinItems : Z; d_val : option Z }.

(** [n_Sum] is [Answered] in an ASR; only sum and average have a field name. *)
Record number_metric := mkNumberMetric {
  n_FilterIDs : list string; n_Sum : float64; n_Count : Z;
  n_Events : gmap string StatWithCompress; n_MinItems : Z; n_FieldName : string;
  n_val : option float64 }.

(** The events of every value, and the values of every event with their numbers. *)
Record value_metric := mkValueMetric {
  v_FilterIDs : list string; v_FieldValues : gmap string (gset string);
  v_Events : gmap string (gmap string Z); v_MinItems : Z; v_FieldName : string; v_Count : Z }.

Inductive StatMetric :=
  | StatASR (m : number_metric) | StatACD (m : duration_metric) | StatTCD (m : duration_metric)
  | StatACC (m : number_metric) | StatTCC (m : number_metric) | StatPDD (m : duration_metric)
  | StatDDC (m : value_metric) | StatSum (m : number_metric) | StatAverage (m : number_metric)
  | StatDistinct (m : value_metric).

Section metrics.
Context `{GoText} `{GoRuntime} `{StatConfig}.

(** A field the metric needs: its name is added when it is not found. *)
Definition required {A} (r : res A) (field : string) : res A :=
  match r with
  | Err e => Err (if decide (e = NOT_FOUND) then ErrPrefix e field else e)
  | _ => r
  end.

Definition too_few (count minItems : Z) : bool :=
  ((0 <? minItems) && (count <? minItems)) || (count =? 0).

(** The keys of a map in the order in which it is ranged over. *)
Definition event_ids {A} (events : gmap string A) : list string := (go_range events).*1.

(** The greater of the compress factors seen for an event. *)
Definition raise_factor (events : gmap string Z) (id : string) (cf : Z) : gmap string Z :=
  match events !! id with
  | None => <[id := cf]> events
  | Some x => if x <? cf then <[id := cf]> events else events
  end.

(** ** Durations *)

Definition d_new (minItems : Z) (filterIDs : list string) : duration_metric :=
  mkDurationMetric filterIDs 0 0 ∅ minItems None.
Definition NewACD (minItems : Z) (extraParams : string) (filterIDs : list string) : StatMetric :=
  StatACD (d_new minItems filterIDs).
Definition NewTCD (minItems : Z) (extraParams : string) (filterIDs : list string) : StatMetric :=
  StatTCD (d_new minItems filterIDs).
Definition NewPDD (minItems : Z) (extraParams : string) (filterIDs : list string) : StatMetric :=
  StatPDD (d_new minItems filterIDs).

(** The cached value, or the one computed and cached. *)
Definition d_getValue (compute : duration_metric → res Z) (m : duration_metric)
    : res (Z * duration_metric) :=
  match d_val m with
  | Some v => Ok (v, m)
  | None =>
      v ← (if too_few (d_Count m) (d_MinItems m) then Ok (-1) else compute m);
      Ok (v, mkDurationMetric (d_FilterIDs m) (d_Sum m) (d_Count m) (d_Events m) (d_MinItems m)
               (Some v))
  end.
Definition d_average (m : duration_metric) : res Z := quot64 (d_Sum m) (d_Count m).
Definition ACD_getValue : duration_metric → res (Z * duration_metric) := d_getValue d_average.
Definition TCD_getValue : duration_metric → res (Z * duration_metric) :=
  d_getValue (λ m, Ok (d_Sum m)).
Definition PDD_getValue : duration_metric → res (Z * duration_metric) := d_getValue d_average.

Definition d_GetStringValue (v : Z) : string :=
  if decide (v = -1) then NOT_AVAILABLE else Duration_String v.
Definition d_GetFloat64Value (v : Z) : float64 :=
  if decide (v = -1) then f_of_Z (-1) else Duration_Seconds v.

Definition add_duration (old : option DurationWithCompress) (dur : Z) : DurationWithCompress :=
  match old with
  | None => mkDurationWithCompress dur 1
  | Some val =>
      let cf := dc_CompressFactor val in
      mkDurationWithCompress
        (f_to_int64 (fdiv (fadd (fmul (f_of_Z (dc_Duration val)) (f_of_Z cf)) (f_of_Z dur))
                       (f_of_Z (add64 cf 1))))
        (add64 cf 1)
  end.

Definition d_AddEvent (field : string) (m : duration_metric) (ev : CGREvent)
    : res duration_metric :=
  dur ← required (ev_FieldAsDuration ev field) field;
  Ok (mkDurationMetric (d_FilterIDs m) (add64 (d_Sum m) dur) (add64 (d_Count m) 1)
        (<[ev_ID ev := add_duration (d_Events m !! ev_ID ev) dur]> (d_Events m))
        (d_MinItems m) None).
Definition ACD_AddEvent : duration_metric → CGREvent → res duration_metric := d_AddEvent "Usage".
Definition TCD_AddEvent : duration_metric → CGREvent → res duration_metric := d_AddEvent "Usage".
Definition PDD_AddEvent : duration_metric → CGREvent → res duration_metric := d_AddEvent "PDD".

Definition d_RemEvent (m : duration_metric) (evID : string) : res duration_metric :=
  match d_Events m !! evID with
  | None => Err NOT_FOUND
  | Some val =>
      Ok (mkDurationMetric (d_FilterIDs m)
            (if decide (dc_Duration val = 0) then d_Sum m else sub64 (d_Sum m) (dc_Duration val))
            (sub64 (d_Count m) 1)
            (if dc_CompressFactor val <=? 1 then delete evID (d_Events m)
             else <[evID := mkDurationWithCompress (dc_Duration val)
                              (sub64 (dc_CompressFactor val) 1)]> (d_Events m))
            (d_MinItems m) None)
  end.
Definition ACD_RemEvent : duration_metric → string → res duration_metric := d_RemEvent.
Definition TCD_RemEvent : duration_metric → string → res duration_metric := d_RemEvent.
Definition PDD_RemEvent : duration_metric → string → res duration_metric := d_RemEvent.

Definition d_Compress (queueLen : Z) (defaultID : string) (m : duration_metric)
    : res (list string * duration_metric) :=
  if d_Count m <? queueLen then Ok (event_ids (d_Events m), m)
  else
    avg ← d_average m;
    Ok ([defaultID],
        mkDurationMetric (d_FilterIDs m) (d_Sum m) (d_Count m)
          {[defaultID := mkDurationWithCompress avg (d_Count m)]} (d_MinItems m) (d_val m)).
Definition ACD_Compress : Z → string → duration_metric → res (list string * duration_metric) :=
  d_Compress.
Definition TCD_Compress : Z → string → duration_metric → res (list string * duration_metric) :=
  d_Compress.
Definition PDD_Compress : Z → string → duration_metric → res (list string * duration_metric) :=
  d_Compress.

Definition d_GetCompressFactor (events : gmap string Z) (m : duration_metric) : gmap string Z :=
  foldl (λ events kv, raise_factor events kv.1 (dc_CompressFactor kv.2)) events
    (go_range (d_Events m)).
Definition ACD_GetCompressFactor : gmap string Z → duration_metric → gmap string Z :=
  d_GetCompressFactor.
Definition TCD_GetCompressFactor : gmap string Z → duration_metric → gmap string Z :=
  d_GetCompressFactor.
Definition PDD_GetCompressFactor : gmap string Z → duration_metric → gmap string Z :=
  d_GetCompressFactor.

(** ** Numbers *)

Definition n_new (minItems : Z) (fieldName : string) (filterIDs : list string) : number_metric :=
  mkNumberMetric filterIDs f0 0 ∅ minItems fieldName None.
Definition NewASR (minItems : Z) (extraParams : string) (filterIDs : list string) : StatMetric :=
  StatASR (n_new minItems "" filterIDs).
Definition NewACC (minItems : Z) (extraParams : string) (filterIDs : list string) : StatMetric :=
  StatACC (n_new minItems "" filterIDs).
Definition NewTCC (minItems : Z) (extraParams : string) (filterIDs : list string) : StatMetric :=
  StatTCC (n_new minItems "" filterIDs).
Definition NewStatSum (minItems : Z) (extraParams : string) (filterIDs : list string)
    : StatMetric := StatSum (n_new minItems extraParams filterIDs).
Definition NewStatAverage (minItems : Z) (extraParams : string) (filterIDs : list string)
    : StatMetric := StatAverage (n_new minItems extraParams filterIDs).

Definition stat_round (x : float64) : float64 := Round x RoundingDecimals ROUNDING_MIDDLE.

Definition n_getValue (none : bool) (v : float64) (m : number_metric)
    : float64 * number_metric :=
  match n_val m with
  | Some v => (v, m)
  | None =>
      let v := if none then STATS_NA else v in
      (v, mkNumberMetric (n_FilterIDs m) (n_Sum m) (n_Count m) (n_Events m) (n_MinItems m)
            (n_FieldName m) (Some v))
  end.
Definition n_average (m : number_metric) : float64 := fdiv (n_Sum m) (f_of_Z (n_Count m)).

Definition ASR_getValue (m : number_metric) : float64 * number_metric :=
  n_getValue (too_few (n_Count m) (n_MinItems m))
    (stat_round (fmul (n_average m) (f_of_Z 100))) m.
Definition ACC_getValue (m : number_metric) : float64 * number_metric :=
  n_getValue (too_few (n_Count m) (n_MinItems m)) (stat_round (n_average m)) m.
Definition TCC_getValue (m : number_metric) : float64 * number_metric :=
  n_getValue (too_few (n_Count m) (n_MinItems m)) (stat_round (n_Sum m)) m.
Definition Sum_getValue (m : number_metric) : float64 * number_metric :=
  n_getValue ((size (n_Events m) =? 0)%nat || (n_Count m <? n_MinItems m))
    (stat_round (n_Sum m)) m.
Definition Average_getValue (m : number_metric) : float64 * number_metric :=
  n_getValue (too_few (n_Count m) (n_MinItems m)) (stat_round (n_average m)) m.

Definition ASR_GetStringValue (v : float64) : string :=
  if feqb v STATS_NA then NOT_AVAILABLE else sprint (IFloat64 v) +:+ "%".
Definition n_GetStringValue (v : float64) : string :=
  if feqb v STATS_NA then NOT_AVAILABLE else FormatFloat v.

(** The average of the numbers of an event, one more added. *)
Definition add_number (old : option StatWithCompress) (x : float64) : StatWithCompress :=
  match old with
  | None => mkStatWithCompress x 1
  | Some val =>
      let cf := sc_CompressFactor val in
      mkStatWithCompress
        (fdiv (fadd (fmul (sc_Stat val) (f_of_Z cf)) x) (f_of_Z (add64 cf 1))) (add64 cf 1)
  end.
Definition n_add (m : number_metric) (evID : string) (sum x : float64) : number_metric :=
  mkNumberMetric (n_FilterIDs m) sum (add64 (n_Count m) 1)
    (<[evID := add_number (n_Events m !! evID) x]> (n_Events m)) (n_MinItems m) (n_FieldName m) None.

Definition ASR_AddEvent (m : number_metric) (ev : CGREvent) : res number_metric :=
  at_ ← (match ev_FieldAsTime ev "AnswerTime" DefaultTimezone with
         | Err e => if decide (e = NOT_FOUND) then Ok zero_time else Err e
         | r => r
         end);
  Ok (if IsZero at_ then n_add m (ev_ID ev) (n_Sum m) (f_of_Z 0)
      else n_add m (ev_ID ev) (fadd (n_Sum m) f1) (f_of_Z 1)).

Definition n_AddCost (m : number_metric) (ev : CGREvent) : res number_metric :=
  cost ← required (ev_FieldAsFloat64 ev "Cost") "Cost";
  Ok (n_add m (ev_ID ev) (fadd (n_Sum m) cost) cost).
Definition ACC_AddEvent : number_metric → CGREvent → res number_metric := n_AddCost.
Definition TCC_AddEvent : number_metric → CGREvent → res number_metric := n_AddCost.

(** The number a sum or an average takes from an event: a field of it or a constant. *)
Definition field_number (fieldName : string) (ev : CGREvent) : res float64 :=
  if HasPrefix fieldName "~*req." then
    let field := sdrop 6 fieldName in required (ev_FieldAsFloat64 ev field) field
  else IfaceAsFloat64 (IString fieldName).
Definition n_AddField (m : number_metric) (ev : CGREvent) : res number_metric :=
  val ← field_number (n_FieldName m) ev;
  Ok (n_add m (ev_ID ev) (fadd (n_Sum m) val) val).
Definition Sum_AddEvent : number_metric → CGREvent → res number_metric := n_AddField.
Definition Average_AddEvent : number_metric → CGREvent → res number_metric := n_AddField.

(** One event less: its number is taken off the sum when [subtract] says so, and kept in
    the entry of the event. *)
Definition n_RemEvent (subtract : float64 → bool) (m : number_metric) (evID : string)
    : res number_metric :=
  match n_Events m !! evID with
  | None => Err NOT_FOUND
  | Some val =>
      Ok (mkNumberMetric (n_FilterIDs m)
            (if subtract (sc_Stat val) then fsub (n_Sum m) (sc_Stat val) else n_Sum m)
            (sub64 (n_Count m) 1)
            (if sc_CompressFactor val <=? 1 then delete evID (n_Events m)
             else <[evID := mkStatWithCompress (sc_Stat val) (sub64 (sc_CompressFactor val) 1)]>
                    (n_Events m))
            (n_MinItems m) (n_FieldName m) None)
  end.
Definition ACC_RemEvent : number_metric → string → res number_metric := n_RemEvent (λ _, true).
Definition TCC_RemEvent : number_metric → string → res number_metric :=
  n_RemEvent (λ x, negb (feqb x f0)).
Definition Sum_RemEvent : number_metric → string → res number_metric :=
  n_RemEvent (λ x, negb (feqb x f0)).
Definition Average_RemEvent : number_metric → string → res number_metric :=
  n_RemEvent (λ x, fgeb x f0).

Definition ASR_RemEvent (m : number_metric) (evID : string) : res number_metric :=
  match n_Events m !! evID with
  | None => Err NOT_FOUND
  | Some val =>
      let answered := fgtb (sc_Stat val) f_half in
      let ans := f_of_Z (if answered then 1 else 0) in
      let cf := sc_CompressFactor val in
      Ok (mkNumberMetric (n_FilterIDs m)
            (if answered then fsub (n_Sum m) f1 else n_Sum m) (sub64 (n_Count m) 1)
            (if cf <=? 1 then delete evID (n_Events m)
             else <[evID := mkStatWithCompress
                              (fdiv (fsub (fmul (sc_Stat val) (f_of_Z cf)) ans)
                                 (f_of_Z (sub64 cf 1)))
                              (sub64 cf 1)]> (n_Events m))
            (n_MinItems m) (n_FieldName m) None)
  end.

Definition n_Compress (queueLen : Z) (defaultID : string) (m : number_metric)
    : list string * number_metric :=
  if n_Count m <? queueLen then (event_ids (n_Events m), m)
  else
    ([defaultID],
     mkNumberMetric (n_FilterIDs m) (n_Sum m) (n_Count m)
       {[defaultID := mkStatWithCompress (stat_round (n_average m)) (n_Count m)]}
       (n_MinItems m) (n_FieldName m) (n_val m)).
Definition ASR_Compress : Z → string → number_metric → list string * number_metric := n_Compress.
Definition ACC_Compress : Z → string → number_metric → list string * number_metric := n_Compress.
Definition TCC_Compress : Z → string → number_metric → list string * number_metric := n_Compress.
Definition Sum_Compress : Z → string → number_metric → list string * number_metric := n_Compress.
Definition Average_Compress : Z → string → number_metric → list string * number_metric :=
  n_Compress.

Definition n_GetCompressFactor (events : gmap string Z) (m : number_metric) : gmap string Z :=
  foldl (λ events kv, raise_factor events kv.1 (sc_CompressFactor kv.2)) events
    (go_range (n_Events m)).
Definition ASR_GetCompressFactor : gmap string Z → number_metric → gmap string Z :=
  n_GetCompressFactor.
Definition ACC_GetCompressFactor : gmap string Z → number_metric → gmap string Z :=
  n_GetCompressFactor.
Definition TCC_GetCompressFactor : gmap string Z → number_metric → gmap string Z :=
  n_GetCompressFactor.
Definition Sum_GetCompressFactor : gmap string Z → number_metric → gmap string Z :=
  n_GetCompressFactor.
Definition Average_GetCompressFactor : gmap string Z → number_metric → gmap string Z :=
  n_GetCompressFactor.

(** ** Values *)

Definition v_new (minItems : Z) (fieldName : string) (filterIDs : list string) : value_metric :=
  mkValueMetric filterIDs ∅ ∅ minItems fieldName 0.
Definition NewDDC (minItems : Z) (extraParams : string) (filterIDs : list string) : StatMetric :=
  StatDDC (v_new minItems "" filterIDs).
Definition NewStatDistinct (minItems : Z) (extraParams : string) (filterIDs : list string)
    : StatMetric := StatDistinct (v_new minItems extraParams filterIDs).

Definition v_getValue (m : value_metric) : float64 :=
  if (v_Count m =? 0) || (v_Count m <? v_MinItems m) then STATS_NA
  else f_of_Z (Z.of_nat (size (v_FieldValues m))).
Definition DDC_getValue : value_metric → float64 := v_getValue.
Definition Distinct_getValue : value_metric → float64 := v_getValue.

Definition v_add (m : value_metric) (evID fieldValue : string) : value_metric :=
  let factors := default ∅ (v_Events m !! evID) in
  let factor := match factors !! fieldValue with None => 1 | Some n => add64 n 1 end in
  mkValueMetric (v_FilterIDs m)
    (<[fieldValue := {[evID]} ∪ default ∅ (v_FieldValues m !! fieldValue)]> (v_FieldValues m))
    (<[evID := <[fieldValue := factor]> factors]> (v_Events m))
    (v_MinItems m) (v_FieldName m) (add64 (v_Count m) 1).

Definition DDC_AddEvent (m : value_metric) (ev : CGREvent) : res value_metric :=
  fieldValue ← ev_FieldAsString ev "Destination"; Ok (v_add m (ev_ID ev) fieldValue).
Definition Distinct_AddEvent (m : value_metric) (ev : CGREvent) : res value_metric :=
  if negb (HasPrefix (v_FieldName m) "~*req.") then
    Err ("Invalid format for field <" +:+ v_FieldName m +:+ ">")
  else
    fieldValue ← ev_FieldAsString ev (sdrop 6 (v_FieldName m));
    Ok (v_add m (ev_ID ev) fieldValue).

(** The event leaves a value, and a value without events goes. *)
Definition v_leave (fieldValues : gmap string (gset string)) (fieldValue evID : string)
    : gmap string (gset string) :=
  match fieldValues !! fieldValue with
  | None => fieldValues
  | Some ids =>
      let ids := ids ∖ {[evID]} in
      if decide (ids = ∅) then delete fieldValue fieldValues
      else <[fieldValue := ids]> fieldValues
  end.

(** The metric is changed also when the error is not found: an entry without values goes. *)
Definition v_RemEvent (m : value_metric) (evID : string) : res () * value_metric :=
  let put fieldValues events count :=
    mkValueMetric (v_FilterIDs m) fieldValues events (v_MinItems m) (v_FieldName m) count in
  match v_Events m !! evID with
  | None => (Err NOT_FOUND, m)
  | Some factors =>
      match go_range factors with
      | [] => (Err NOT_FOUND, put (v_FieldValues m) (delete evID (v_Events m)) (v_Count m))
      | (fieldValue, n) :: _ =>
          let count := sub64 (v_Count m) 1 in
          if 1 <? n then
            (Ok (), put (v_FieldValues m) (<[evID := <[fieldValue := sub64 n 1]> factors]> (v_Events m))
                      count)
          else
            (Ok (), put (v_leave (v_FieldValues m) fieldValue evID)
                      (<[evID := delete fieldValue factors]> (v_Events m)) count)
      end
  end.
Definition DDC_RemEvent : value_metric → string → res () * value_metric := v_RemEvent.
Definition Distinct_RemEvent : value_metric → string → res () * value_metric := v_RemEvent.

Definition v_Compress (m : value_metric) : list string := event_ids (v_Events m).
Definition DDC_Compress : value_metric → list string := v_Compress.
Definition Distinct_Compress : value_metric → list string := v_Compress.

Definition v_GetCompressFactor (events : gmap string Z) (m : value_metric) : gmap string Z :=
  foldl (λ events kv, raise_factor events kv.1
                        (foldl (λ cf vn, add64 cf vn.2) 0 (go_range kv.2)))
    events (go_range (v_Events m)).
Definition DDC_GetCompressFactor : gmap string Z → value_metric → gmap string Z :=
  v_GetCompressFactor.
Definition Distinct_GetCompressFactor : gmap string Z → value_metric → gmap string Z :=
  v_GetCompressFactor.

(** ** The interface *)

Definition NewStatMetric (metricID : string) (minItems : Z) (filterIDs : list string)
    : res StatMetric :=
  let metricSplit := SplitConcatenatedKey metricID in
  name ← index metricSplit 0;
  let extraParams := match metricSplit with _ :: p :: _ => p | _ => "" end in
  if decide (name = "*asr") then Ok (NewASR minItems extraParams filterIDs)
  else if decide (name = "*acd") then Ok (NewACD minItems extraParams filterIDs)
  else if decide (name = "*tcd") then Ok (NewTCD minItems extraParams filterIDs)
  else if decide (name = "*acc") then Ok (NewACC minItems extraParams filterIDs)
  else if decide (name = "*tcc") then Ok (NewTCC minItems extraParams filterIDs)
  else if decide (name = "*pdd") then Ok (NewPDD minItems extraParams filterIDs)
  else if decide (name = "*ddc") then Ok (NewDDC minItems extraParams filterIDs)
  else if decide (name = "*sum") then Ok (NewStatSum minItems extraParams filterIDs)
  else if decide (name = "*average") then Ok (NewStatAverage minItems extraParams filterIDs)
  else if decide (name = "*distinct") then Ok (NewStatDistinct minItems extraParams filterIDs)
  else Err ("unsupported metric type <" +:+ name +:+ ">").

Definition GetFilterIDs (sm : StatMetric) : list string :=
  match sm with
  | StatASR m | StatACC m | StatTCC m | StatSum m | StatAverage m => n_FilterIDs m
  | StatACD m | StatTCD m | StatPDD m => d_FilterIDs m
  | StatDDC m | StatDistinct m => v_FilterIDs m
  end.

Definition AddEvent (sm : StatMetric) (ev : CGREvent) : res StatMetric :=
  match sm with
  | StatASR m => StatASR <$> ASR_AddEvent m ev
  | StatACD m => StatACD <$> ACD_AddEvent m ev
  | StatTCD m => StatTCD <$> TCD_AddEvent m ev
  | StatACC m => StatACC <$> ACC_AddEvent m ev
  | StatTCC m => StatTCC <$> TCC_AddEvent m ev
  | StatPDD m => StatPDD <$> PDD_AddEvent m ev
  | StatDDC m => StatDDC <$> DDC_AddEvent m ev
  | StatSum m => StatSum <$> Sum_AddEvent m ev
  | StatAverage m => StatAverage <$> Average_AddEvent m ev
  | StatDistinct m => StatDistinct <$> Distinct_AddEvent m ev
  end.

(** The error and the metric after it. *)
Definition kept {A} (mk : A → StatMetric) (m : A) (r : res A) : res () * StatMetric :=
  match r with
  | Ok m' => (Ok (), mk m')
  | Err e => (Err e, mk m)
  | Panic => (Panic, mk m)
  end.
Definition RemEvent (sm : StatMetric) (evID : string) : res () * StatMetric :=
  match sm with
  | StatASR m => kept StatASR m (ASR_RemEvent m evID)
  | StatACD m => kept StatACD m (ACD_RemEvent m evID)
  | StatTCD m => kept StatTCD m (TCD_RemEvent m evID)
  | StatACC m => kept StatACC m (ACC_RemEvent m evID)
  | StatTCC m => kept StatTCC m (TCC_RemEvent m evID)
  | StatPDD m => kept StatPDD m (PDD_RemEvent m evID)
  | StatDDC m => let '(r, m) := DDC_RemEvent m evID in (r, StatDDC m)
  | StatSum m => kept StatSum m (Sum_RemEvent m evID)
  | StatAverage m => kept StatAverage m (Average_RemEvent m evID)
  | StatDistinct m => let '(r, m) := Distinct_RemEvent m evID in (r, StatDistinct m)
  end.

(** The value as a number and as a text, and the metric with the value cached. *)
Definition d_values (mk : duration_metric → StatMetric)
    (r : res (Z * duration_metric)) : res (float64 * string * StatMetric) :=
  '(v, m) ← r; Ok (d_GetFloat64Value v, d_GetStringValue v, mk m).
Definition n_values (mk : number_metric → StatMetric) (text : float64 → string)
    (r : float64 * number_metric) : res (float64 * string * StatMetric) :=
  Ok (r.1, text r.1, mk r.2).
Definition GetValues (sm : StatMetric) : res (float64 * string * StatMetric) :=
  match sm with
  | StatASR m => n_values StatASR ASR_GetStringValue (ASR_getValue m)
  | StatACD m => d_values StatACD (ACD_getValue m)
  | StatTCD m => d_values StatTCD (TCD_getValue m)
  | StatACC m => n_values StatACC n_GetStringValue (ACC_getValue m)
  | StatTCC m => n_values StatTCC n_GetStringValue (TCC_getValue m)
  | StatPDD m => d_values StatPDD (PDD_getValue m)
  | StatDDC m => Ok (DDC_getValue m, n_GetStringValue (DDC_getValue m), sm)
  | StatSum m => n_values StatSum n_GetStringValue (Sum_getValue m)
  | StatAverage m => n_values StatAverage n_GetStringValue (Average_getValue m)
  | StatDistinct m => Ok (Distinct_getValue m, n_GetStringValue (Distinct_getValue m), sm)
  end.

Definition n_compressed (mk : number_metric → StatMetric) (r : list string * number_metric)
    : res (list string * StatMetric) := Ok (r.1, mk r.2).
Definition d_compressed (mk : duration_metric → StatMetric)
    (r : res (list string * duration_metric)) : res (list string * StatMetric) :=
  '(ids, m) ← r; Ok (ids, mk m).
Definition Metric_Compress (queueLen : Z) (defaultID : string) (sm : StatMetric)
    : res (list string * StatMetric) :=
  match sm with
  | StatASR m => n_compressed StatASR (ASR_Compress queueLen defaultID m)
  | StatACD m => d_compressed StatACD (ACD_Compress queueLen defaultID m)
  | StatTCD m => d_compressed StatTCD (TCD_Compress queueLen defaultID m)
  | StatACC m => n_compressed StatACC (ACC_Compress queueLen defaultID m)
  | StatTCC m => n_compressed StatTCC (TCC_Compress queueLen defaultID m)
  | StatPDD m => d_compressed StatPDD (PDD_Compress queueLen defaultID m)
  | StatDDC m => Ok (DDC_Compress m, sm)
  | StatSum m => n_compressed StatSum (Sum_Compress queueLen defaultID m)
  | StatAverage m => n_compressed StatAverage (Average_Compress queueLen defaultID m)
  | StatDistinct m => Ok (Distinct_Compress m, sm)
  end.

Definition GetCompressFactor (events : gmap string Z) (sm : StatMetric) : gmap string Z :=
  match sm with
  | StatASR m => ASR_GetCompressFactor events m
  | StatACD m => ACD_GetCompressFactor events m
  | StatTCD m => TCD_GetCompressFactor events m
  | StatACC m => ACC_GetCompressFactor events m
  | StatTCC m => TCC_GetCompressFactor events m
  | StatPDD m => PDD_GetCompressFactor events m
  | StatDDC m => DDC_GetCompressFactor events m
  | StatSum m => Sum_GetCompressFactor events m
  | StatAverage m => Average_GetCompressFactor events m
  | StatDistinct m => Distinct_GetCompressFactor events m
  end.
End metrics.

(** ** Durations refine the sum over the events kept

    The abstract state is the duration of every event kept. *)

(** What the queue asks of a metric. *)
Inductive stat_op := OpAdd (ev : CGREvent) | OpRem (evID : string).

Section durations.
Context `{GoText} (field : string).

Definition live_step (live : gmap string Z) (op : stat_op) : gmap string Z :=
  match op with
  | OpAdd ev => match ev_FieldAsDuration ev field with
                | Ok d => <[ev_ID ev := d]> live
                | _ => live
                end
  | OpRem id => delete id live
  end.

(** A call that fails leaves the metric as it is. *)
Definition metric_step (m : duration_metric) (op : stat_op) : duration_metric :=
  match (match op with OpAdd ev => d_AddEvent field m ev | OpRem id => d_RemEvent m id end) with
  | Ok m' => m'
  | _ => m
  end.

(** No event is added while one with its ID is kept. *)
Fixpoint fresh_ids (live : gmap string Z) (ops : list stat_op) : Prop :=
  match ops with
  | [] => True
  | op :: ops' =>
      match op with OpAdd ev => live !! ev_ID ev = None | OpRem _ => True end ∧
      fresh_ids (live_step live op) ops'
  end.

Record represents (minItems : Z) (m : duration_metric) (live : gmap string Z) : Prop := {
  rep_events : d_Events m = (λ d, mkDurationWithCompress d 1) <$> live;
  rep_count : d_Count m = wrap64 (Z.of_nat (size live));
  rep_sum : d_Sum m = wrap64 (sumZ live);
  rep_min : d_MinItems m = minItems;
  rep_val : d_val m = None
}.

Lemma metric_step_represents minItems m live op :
  represents minItems m live →
  match op with OpAdd ev => live !! ev_ID ev = None | OpRem _ => True end →
  represents minItems (metric_step m op) (live_step live op).
Proof.
  intros [He Hc Hs Hm Hv] Hf. unfold metric_step, live_step, d_AddEvent, d_RemEvent.
  destruct op as [ev|id].
  - destruct (ev_FieldAsDuration ev field) as [d|e|]; simpl; [|done..].
    split; simpl; [|..|done|done].
    + by rewrite He, lookup_fmap, Hf, fmap_insert.
    + rewrite Hc, add64_wrap, map_size_insert_None by done. f_equal. lia.
    + rewrite Hs, add64_wrap, sumZ_insert by done. f_equal. lia.
  - rewrite He, lookup_fmap. destruct (live !! id) as [d|] eqn:Ed; simpl.
    + split; simpl; [|..|done|done].
      * by rewrite fmap_delete.
      * rewrite Hc, sub64_wrap, map_size_delete_Some by (by eexists).
        assert (0 < size live)%nat
          by (apply Nat.neq_0_lt_0; rewrite map_size_ne_0_lookup; eauto).
        f_equal. lia.
      * rewrite Hs, sub64_wrap. rewrite (sumZ_delete live id d) by done.
        case_decide; f_equal; lia.
    + rewrite delete_id by done. by split.
Qed.

Lemma run_represents minItems ops m live :
  represents minItems m live → fresh_ids live ops →
  represents minItems (foldl metric_step m ops) (foldl live_step live ops).
Proof.
  revert m live. induction ops as [|op ops IH]; intros m live Hr Hf; simpl; [done|].
  destruct Hf as [Hf Hops]. apply IH; [|done]. by apply metric_step_represents.
Qed.

Lemma live_step_size live op : (size (live_step live op) ≤ S (size live))%nat.
Proof.
  destruct op as [ev|id]; simpl.
  - destruct (ev_FieldAsDuration ev field); [|lia..]. rewrite map_size_insert. case_match; cbv [Datatypes.id]; lia.
  - rewrite map_size_delete. case_match; cbv [Datatypes.id]; lia.
Qed.
Lemma run_size ops live : (size (foldl live_step live ops) ≤ size live + length ops)%nat.
Proof.
  revert live. induction ops as [|op ops IH]; intros live; simpl; [lia|].
  pose proof (IH (live_step live op)). pose proof (live_step_size live op). lia.
Qed.

(** C25: after any sequence of additions and removals in which no event is added while it
    is kept, the average and the total of a duration metric are those of the events that
    are kept, modulo 2^64 and -1 below the minimum of items; removing an event that is
    not kept is the error not found. *)
Theorem duration_metric_refines (minItems : Z) (filterIDs : list string) (ops : list stat_op) :
  fresh_ids ∅ ops → Z.of_nat (length ops) ≤ max_int64 →
  let m := foldl metric_step (d_new minItems filterIDs) ops in
  let live := foldl live_step ∅ ops in
  let n := Z.of_nat (size live) in
  fst <$> ACD_getValue m =
    Ok (if too_few n minItems then -1 else wrap64 (wrap64 (sumZ live) ÷ n)) ∧
  fst <$> TCD_getValue m = Ok (if too_few n minItems then -1 else wrap64 (sumZ live)) ∧
  ∀ id, live !! id = None → d_RemEvent m id = Err NOT_FOUND.
Proof.
  intros Hf Hlen m live n.
  assert (represents minItems m live) as [He Hc Hs Hm Hv].
  { apply run_represents; [|done]. by split. }
  assert (Hn : wrap64 n = n).
  { pose proof (run_size ops ∅) as Hsz. rewrite map_size_empty in Hsz.
    apply wrap64_id. unfold int64_range, min_int64, max_int64 in *. unfold n, live. lia. }
  unfold ACD_getValue, TCD_getValue, d_getValue, d_average.
  rewrite Hv, Hc, Hs, Hm. fold n. rewrite Hn. split_and!.
  - destruct (too_few n minItems) eqn:E; [done|]. unfold quot64, too_few in *.
    rewrite decide_False by lia. done.
  - by destruct (too_few n minItems).
  - intros id Hid. unfold d_RemEvent. by rewrite He, lookup_fmap, Hid.
Qed.
End durations.

(** ** The values counted are those of the events kept *)
Section values.
Context `{GoText} `{GoRuntime}.

Inductive value_reach : value_metric → Prop :=
  | vr_new minItems fieldName filterIDs : value_reach (v_new minItems fieldName filterIDs)
  | vr_ddc m ev m' : value_reach m → DDC_AddEvent m ev = Ok m' → value_reach m'
  | vr_distinct m ev m' : value_reach m → Distinct_AddEvent m ev = Ok m' → value_reach m'
  | vr_rem m evID : value_reach m → value_reach (v_RemEvent m evID).2.

(** Does the event keep the value? *)
Definition keeps (m : value_metric) (id value : string) : Prop :=
  ∃ factors, v_Events m !! id = Some factors ∧ is_Some (factors !! value).
Definition listed (m : value_metric) (id value : string) : Prop :=
  ∃ ids, v_FieldValues m !! value = Some ids ∧ id ∈ ids.

Record values_ok (m : value_metric) : Prop := {
  ok_listed id value : listed m id value ↔ keeps m id value;
  ok_nonempty value ids : v_FieldValues m !! value = Some ids → ids ≠ ∅
}.

Lemma values_ok_add m id value : values_ok m → values_ok (v_add m id value).
Proof.
  intros [Hl Hn]. split.
  - intros id' value'. specialize (Hl id' value'). unfold listed, keeps in *. simpl.
    destruct (decide (value = value')) as [<-|Hv].
    + rewrite lookup_insert_eq. destruct (decide (id = id')) as [<-|Hi].
      * rewrite lookup_insert_eq. split; intros _; (eexists; split; [done|]); [|set_solver].
        rewrite lookup_insert_eq. by eexists.
      * rewrite lookup_insert_ne by done. rewrite <- Hl. split.
        -- intros (ids & [= <-] & Hin). destruct (v_FieldValues m !! value) as [ids|]; set_solver.
        -- intros (ids & E & Hin). rewrite E. simpl. eexists. split; [done|]. set_solver.
    + rewrite lookup_insert_ne by done. rewrite Hl. destruct (decide (id = id')) as [<-|Hi].
      * rewrite lookup_insert_eq. destruct (v_Events m !! id) as [f|]; simpl.
        -- split; intros (f' & [= <-] & Hf'); (eexists; split; [done|]);
             [by rewrite lookup_insert_ne|by rewrite lookup_insert_ne in Hf'].
        -- split; [by intros (f' & ? & _)|]. intros (f' & [= <-] & Hf').
           rewrite lookup_insert_ne, lookup_empty in Hf' by done. by destruct Hf'.
      * by rewrite lookup_insert_ne.
  - intros value' ids. simpl. destruct (decide (value = value')) as [<-|Hv].
    + rewrite lookup_insert_eq. intros [= <-]. set_solver.
    + rewrite lookup_insert_ne by done. apply Hn.
Qed.

Lemma v_leave_listed fieldValues value id id' value' :
  (∃ ids, v_leave fieldValues value id !! value' = Some ids ∧ id' ∈ ids) ↔
  (∃ ids, fieldValues !! value' = Some ids ∧ id' ∈ ids) ∧ ¬ (id' = id ∧ value' = value).
Proof.
  unfold v_leave. destruct (fieldValues !! value) as [ids0|] eqn:E0.
  2: { split; [|by intros [? _]]. intros (ids & E & Hin). split; [by eauto|].
       intros [_ ->]. congruence. }
  destruct (decide (value = value')) as [<-|Hv].
  - rewrite E0. case_decide as Hd.
    + rewrite lookup_delete_eq. set_solver.
    + rewrite lookup_insert_eq. split.
      * intros (ids & [= <-] & [Hin Hni]%elem_of_difference). split; [by exists ids0|].
        intros [-> _]. set_solver.
      * intros [(ids & [= <-] & Hin) Hne]. exists (ids0 ∖ {[id]}). split; [done|].
        apply elem_of_difference. split; [done|]. rewrite elem_of_singleton. intros ->.
        by apply Hne.
  - case_decide; [rewrite lookup_delete_ne by done|rewrite lookup_insert_ne by done];
      naive_solver.
Qed.

Lemma v_leave_nonempty fieldValues value id value' ids :
  (∀ v i, fieldValues !! v = Some i → i ≠ ∅) →
  v_leave fieldValues value id !! value' = Some ids → ids ≠ ∅.
Proof.
  intros Hn. unfold v_leave. destruct (fieldValues !! value) as [ids0|] eqn:E0; [|by eauto].
  destruct (decide (value = value')) as [<-|Hv]; case_decide;
    rewrite ?lookup_delete_eq, ?lookup_insert_eq, ?lookup_delete_ne, ?lookup_insert_ne by done;
    naive_solver.
Qed.

Lemma values_ok_rem m id : values_ok m → values_ok (v_RemEvent m id).2.
Proof.
  intros [Hl Hn]. unfold v_RemEvent. destruct (v_Events m !! id) as [factors|] eqn:Ef; [|by split].
  destruct (go_range factors) as [|[value n] rest] eqn:Er; simpl.
  - split; [|done]. intros id' value'. specialize (Hl id' value'). unfold listed, keeps in *. simpl.
    rewrite Hl. destruct (decide (id = id')) as [<-|Hi]; [|by rewrite lookup_delete_ne].
    rewrite lookup_delete_eq, Ef. split; [|by intros (? & ? & _)].
    intros (f & [= <-] & [x Hx]). apply go_range_elem in Hx. rewrite Er in Hx.
    by apply elem_of_nil in Hx.
  - assert (Hvn : factors !! value = Some n).
    { apply go_range_elem. rewrite Er. left. }
    destruct (1 <? n); simpl.
    + split; [|done]. intros id' value'. specialize (Hl id' value'). unfold listed, keeps in *.
      simpl. rewrite Hl. destruct (decide (id = id')) as [<-|Hi]; [|by rewrite lookup_insert_ne].
      rewrite lookup_insert_eq, Ef.
      split; intros (f & [= <-] & Hx); (eexists; split; [done|]);
        (destruct (decide (value = value')) as [<-|];
         [by rewrite ?lookup_insert_eq in *; eauto|by rewrite lookup_insert_ne in *]).
    + split; [|intros value' ids; by apply v_leave_nonempty].
      intros id' value'. specialize (Hl id' value'). unfold listed, keeps in *. simpl.
      rewrite v_leave_listed, Hl. destruct (decide (id = id')) as [<-|Hi].
      * rewrite lookup_insert_eq, Ef. destruct (decide (value = value')) as [<-|Hv].
        -- split; [intros [_ Hc]; by destruct Hc|]. intros (f & [= <-] & [x Hx]).
           by rewrite lookup_delete_eq in Hx.
        -- split; [intros [(f & [= <-] & Hx) _]|intros (f & [= <-] & Hx)].
           ++ eexists. split; [done|]. by rewrite lookup_delete_ne.
           ++ rewrite lookup_delete_ne in Hx by done.
              split; [by eexists|]. by intros [_ <-].
      * rewrite lookup_insert_ne by done. split; [by intros [? _]|]. intros Hk. split; [done|].
        by intros [-> _].
Qed.

(** In every state of a DDC or distinct metric the values counted are exactly those
    of the events it keeps: each value lists the events that keep it, and lists at least
    one. *)
Theorem value_metric_consistent (m : value_metric) :
  value_reach m →
  (∀ id value, listed m id value ↔ keeps m id value) ∧
  (∀ value, is_Some (v_FieldValues m !! value) ↔ ∃ id, keeps m id value).
Proof.
  intros Hr. assert (values_ok m) as [Hl Hn].
  { induction Hr as [minItems fieldName filterIDs|m ev m' _ IH E|m ev m' _ IH E|m evID _ IH].
    - split; [|intros value ids; simpl; by rewrite lookup_empty].
      intros id value. unfold listed, keeps. simpl. setoid_rewrite lookup_empty. naive_solver.
    - unfold DDC_AddEvent in E. inv_bind. by apply values_ok_add.
    - unfold Distinct_AddEvent in E. destruct (negb _); [done|]. inv_bind. by apply values_ok_add.
    - by apply values_ok_rem. }
  split; [done|]. intros value. split.
  - intros [ids E]. destruct (set_choose_L ids (Hn _ _ E)) as [id Hid].
    exists id. apply Hl. by exists ids.
  - intros [id Hk]. apply Hl in Hk as (ids & E & _). by exists ids.
Qed.
End values.

(** ** Examples *)
Definition reference_config : StatConfig := {| RoundingDecimals := 5; DefaultTimezone := "UTC" |}.

Definition usage_event (id : string) (usage : Z) : CGREvent :=
  mkCGREvent "cgrates.org" id None [("Usage", IDuration usage)].
Definition cost_event (id : string) (cost : Z) : CGREvent :=
  mkCGREvent "cgrates.org" id None [("Cost", IFloat64 (f_of_Z cost))].

Example duration_metric_refines_witness :
  let ops := [OpAdd (usage_event "a" 10); OpAdd (usage_event "b" 20); OpRem "a"] in
  let m := foldl (@metric_step reference_text "Usage") (d_new 1 []) ops in
  let live := foldl (@live_step reference_text "Usage") ∅ ops in
  let n := Z.of_nat (size live) in
  fst <$> ACD_getValue m =
    Ok (if too_few n 1 then -1 else wrap64 (wrap64 (sumZ live) ÷ n)) ∧
  fst <$> TCD_getValue m = Ok (if too_few n 1 then -1 else wrap64 (sumZ live)) ∧
  ∀ id, live !! id = None → d_RemEvent m id = Err NOT_FOUND.
Proof.
  apply (@duration_metric_refines reference_text "Usage" 1 []
           [OpAdd (usage_event "a" 10); OpAdd (usage_event "b" 20); OpRem "a"]);
    [repeat split; reflexivity|vm_compute; discriminate].
Defined.

Example value_metric_consistent_witness :
  let m := v_add (v_new 0 "~*req.Account" []) "e" "1001" in
  (∀ id value, listed m id value ↔ keeps m id value) ∧
  (∀ value, is_Some (v_FieldValues m !! value) ↔ ∃ id, keeps m id value).
Proof.
  apply (@value_metric_consistent reference_text reference_runtime).
  apply (vr_distinct (v_new 0 "~*req.Account" [])
           (mkCGREvent "cgrates.org" "e" None [("Account", IString "1001")]));
    [apply vr_new|reflexivity].
Defined.

(** An event recorded twice leaves its mark on a duration metric for ever: the kept
    duration is the average, rounded to a nanosecond, and is taken off twice. *)
Theorem duplicate_event_drift :
  let m := d_new 0 [] in
  let step := @metric_step reference_text "Usage" in
  let m := step (step m (OpAdd (usage_event "a" 1))) (OpAdd (usage_event "a" 2)) in
  let m := step (step m (OpRem "a")) (OpRem "a") in
  d_Events m = ∅ ∧ d_Count m = 0 ∧ d_Sum m = 1.
Proof. vm_compute. repeat split. Qed.

(** Removing an event with a negative value from an average does not take the value
    off the sum, where a sum of the same field does: with events of 5 and 10 kept, the
    average is 5 instead of 7.5 and the sum is 15. *)
Theorem average_keeps_negative_values :
  let ev id x := mkCGREvent "cgrates.org" id None [("Cost", IFloat64 (f_of_Z x))] in
  let m := n_new 0 "~*req.Cost" [] in
  (fst <$> (m ← @Average_AddEvent reference_text m (ev "a" (-5));
            m ← @Average_AddEvent reference_text m (ev "b" 5);
            m ← @Average_AddEvent reference_text m (ev "c" 10);
            m ← Average_RemEvent m "a";
            Ok (@Average_getValue reference_config m))) = Ok (f_of_Z 5) ∧
  (fst <$> (m ← @Sum_AddEvent reference_text m (ev "a" (-5));
            m ← @Sum_AddEvent reference_text m (ev "b" 5);
            m ← @Sum_AddEvent reference_text m (ev "c" 10);
            m ← Sum_RemEvent m "a";
            Ok (@Sum_getValue reference_config m))) = Ok (f_of_Z 15).
Proof. vm_compute. repeat split. Qed.
