(* ===== verification/StatQueue.v ===== *)
(** * Statistics queues

    [engine/libstats.go]: a queue of events with the metrics computed over them.  An
    operation returns its error and the queue after it, since what was done before an
    error stays done.  The metrics are visited in the order the runtime ranges over
    their map.  The stored form of a queue (serialised metrics) is left out. *)
From S2P Require Import Prelude GoFloat GoStrings GoTime CoreUtils Values Filters StatMetrics.

Record MetricWithFilters := mkMetricWithFilters {
  mf_FilterIDs : list string; mf_MetricID : string }.

Record StatQueueProfile := mkStatQueueProfile {
  sqp_Tenant : string; sqp_ID : string; sqp_FilterIDs : list string;
  sqp_ActivationInterval : option ActivationInterval; sqp_QueueLength : Z; sqp_TTL : Z;
  sqp_MinItems : Z; sqp_Metrics : list MetricWithFilters; sqp_Stored : bool;
  sqp_Blocker : bool; sqp_Weight : float64; sqp_ThresholdIDs : list string }.

Definition sqp_TenantID (sqp : StatQueueProfile) : string :=
  ConcatenatedKey [sqp_Tenant sqp; sqp_ID sqp].

Record SQItem := mkSQItem { EventID : string; ExpiryTime : option Time }.

Record StatQueue := mkStatQueue {
  sq_Tenant : string; sq_ID : string; SQItems : list SQItem;
  SQMetrics : gmap string StatMetric; sqPrfl : StatQueueProfile; sq_ttl : option Z }.

Definition sq_TenantID (sq : StatQueue) : string := ConcatenatedKey [sq_Tenant sq; sq_ID sq].

Definition with_items (sq : StatQueue) (items : list SQItem) : StatQueue :=
  mkStatQueue (sq_Tenant sq) (sq_ID sq) items (SQMetrics sq) (sqPrfl sq) (sq_ttl sq).
Definition with_metrics (sq : StatQueue) (metrics : gmap string StatMetric) : StatQueue :=
  mkStatQueue (sq_Tenant sq) (sq_ID sq) (SQItems sq) metrics (sqPrfl sq) (sq_ttl sq).

Section queue.
Context `{GoText} `{GoRuntime} `{StatConfig} `{FilterData}.

(** Over the metrics that are left to visit. *)
Fixpoint rem_metrics (evID : string) (todo : list (string * StatMetric))
    (metrics : gmap string StatMetric) : res () * gmap string StatMetric :=
  match todo with
  | [] => (Ok (), metrics)
  | (metricID, metric) :: todo' =>
      let '(r, metric') := RemEvent metric evID in
      let metrics := <[metricID := metric']> metrics in
      match r with
      | Ok _ => rem_metrics evID todo' metrics
      | Err e => if decide (e = NOT_FOUND) then rem_metrics evID todo' metrics
                 else (Err e, metrics)
      | Panic => (Panic, metrics)
      end
  end.

Definition remEventWithID (sq : StatQueue) (evID : string) : res () * StatQueue :=
  let '(r, metrics) := rem_metrics evID (go_range (SQMetrics sq)) (SQMetrics sq) in
  (r, with_metrics sq metrics).

Definition expired (item : SQItem) : bool :=
  match ExpiryTime item with
  | None => false
  | Some t => negb (After t now)
  end.

(** The items that stay, those before the first one that is not expired gone.  On an
    error all stay. *)
Fixpoint rem_expired (sq : StatQueue) (items : list SQItem) : res () * StatQueue :=
  match items with
  | item :: items' =>
      if expired item then
        let '(r, sq') := remEventWithID sq (EventID item) in
        match r with
        | Ok _ => rem_expired sq' items'
        | e => (e, sq')
        end
      else (Ok (), with_items sq items)
  | [] => (Ok (), with_items sq [])
  end.
Definition remExpired (sq : StatQueue) : res () * StatQueue := rem_expired sq (SQItems sq).

Definition remOnQueueLength (sq : StatQueue) : res () * StatQueue :=
  let QueueLength := sqp_QueueLength (sqPrfl sq) in
  if QueueLength <=? 0 then (Ok (), sq)
  else if Z.of_nat (length (SQItems sq)) =? QueueLength then
    match SQItems sq with
    | [] => (Panic, sq)
    | item :: items =>
        let '(r, sq') := remEventWithID sq (EventID item) in
        match r with
        | Ok _ => (Ok (), with_items sq' items)
        | e => (e, sq')
        end
    end
  else (Ok (), sq).

Fixpoint add_metrics (ev : CGREvent) (todo : list (string * StatMetric))
    (metrics : gmap string StatMetric) : res () * gmap string StatMetric :=
  match todo with
  | [] => (Ok (), metrics)
  | (metricID, metric) :: todo' =>
      match FilterS_Pass (ev_Tenant ev) (GetFilterIDs metric)
              (storage_provider [("*req", IMap (ev_Event ev))]) with
      | Err e => (Err e, metrics)
      | Panic => (Panic, metrics)
      | Ok false => add_metrics ev todo' metrics
      | Ok true =>
          match AddEvent metric ev with
          | Err e => (Err e, metrics)
          | Panic => (Panic, metrics)
          | Ok metric' => add_metrics ev todo' (<[metricID := metric']> metrics)
          end
      end
  end.

Definition addStatEvent (sq : StatQueue) (ev : CGREvent) : res () * StatQueue :=
  let expTime := Add now <$> sq_ttl sq in
  let sq := with_items sq (SQItems sq ++ [mkSQItem (ev_ID ev) expTime]) in
  let '(r, metrics) := add_metrics ev (go_range (SQMetrics sq)) (SQMetrics sq) in
  (r, with_metrics sq metrics).

Definition ProcessEvent (sq : StatQueue) (ev : CGREvent) : res () * StatQueue :=
  let '(r, sq) := remExpired sq in
  match r with
  | Ok _ =>
      let '(r, sq) := remOnQueueLength sq in
      match r with
      | Ok _ => addStatEvent sq ev
      | e => (e, sq)
      end
  | e => (e, sq)
  end.

(** ** Compression *)

(** Items with an expiry time first, the earliest before. *)
Definition expires_before (a b : SQItem) : bool :=
  match ExpiryTime a, ExpiryTime b with
  | None, _ => false
  | Some _, None => true
  | Some t, Some u => Before t u
  end.

(** The metrics compressed and the events they keep. *)
Definition compress_metrics (maxQL : Z) (defaultID : string) (metrics : gmap string StatMetric)
    : res (gmap string () * gmap string StatMetric) :=
  foldl (λ acc kv,
    '(idMap, metrics) ← acc;
    '(ids, m) ← Metric_Compress maxQL defaultID kv.2;
    Ok (foldl (λ idMap id, <[id := ()]> idMap) idMap ids, <[kv.1 := m]> metrics))
    (Ok (∅, metrics)) (go_range metrics).

Definition Compress (sq : StatQueue) (maxQL : Z) : res (bool * StatQueue) :=
  if (Z.of_nat (length (SQItems sq)) <? maxQL) || (maxQL =? 0) then Ok (false, sq)
  else
    default_item ← index (SQItems sq) (Z.of_nat (length (SQItems sq)) - 1);
    let sqMap := foldl (λ sqMap sqitem, <[EventID sqitem := ExpiryTime sqitem]> sqMap)
                   (∅ : gmap string (option Time)) (SQItems sq) in
    '(idMap, metrics) ← compress_metrics maxQL (EventID default_item) (SQMetrics sq);
    let newSQItems :=
      map (λ k, mkSQItem k (default (ExpiryTime default_item) (sqMap !! k))) (go_range idMap).*1 in
    Ok (true, with_metrics
                (with_items sq (match sq_ttl sq with
                                | Some _ => go_sort expires_before newSQItems
                                | None => newSQItems
                                end)) metrics).

Definition Expand (sq : StatQueue) : StatQueue :=
  let compressFactorMap :=
    foldl (λ events kv, GetCompressFactor events kv.2) ∅ (go_range (SQMetrics sq)) in
  with_items sq
    (concat (map (λ sqi, match compressFactorMap !! EventID sqi with
                         | None => []
                         | Some cf => replicate (Z.to_nat cf) sqi
                         end) (SQItems sq))).

Definition StatQueues_Sort (sis : list StatQueue) : list StatQueue :=
  go_sort (λ a b, fgtb (sqp_Weight (sqPrfl a)) (sqp_Weight (sqPrfl b))) sis.

(** ** Removing an event always succeeds *)

Lemma RemEvent_ok metric evID :
  (RemEvent metric evID).1 = Ok () ∨ (RemEvent metric evID).1 = Err NOT_FOUND.
Proof.
  destruct metric; simpl;
    unfold ASR_RemEvent, ACD_RemEvent, TCD_RemEvent, PDD_RemEvent, d_RemEvent, ACC_RemEvent,
      TCC_RemEvent, Sum_RemEvent, Average_RemEvent, n_RemEvent, DDC_RemEvent, Distinct_RemEvent,
      v_RemEvent;
    repeat (case_match; simplify_eq/=; auto).
Qed.

Lemma rem_metrics_ok evID todo metrics : (rem_metrics evID todo metrics).1 = Ok ().
Proof.
  revert metrics. induction todo as [|[k m] todo IH]; intros metrics; simpl; [done|].
  pose proof (RemEvent_ok m evID) as Hr. destruct (RemEvent m evID) as [r m']. simpl in Hr.
  by destruct Hr as [-> | ->]; simpl; apply IH.
Qed.

Lemma remEventWithID_ok sq evID : ∃ metrics, remEventWithID sq evID = (Ok (), with_metrics sq metrics).
Proof.
  unfold remEventWithID. pose proof (rem_metrics_ok evID (go_range (SQMetrics sq)) (SQMetrics sq)) as E.
  destruct (rem_metrics _ _ _) as [r metrics]. simpl in E. subst. by exists metrics.
Qed.

(** ** The length of the queue *)

Fixpoint drop_expired (items : list SQItem) : list SQItem :=
  match items with
  | item :: items' => if expired item then drop_expired items' else items
  | [] => []
  end.

Lemma rem_expired_items sq items :
  (rem_expired sq items).1 = Ok () ∧
  ∃ metrics, (rem_expired sq items).2 = with_items (with_metrics sq metrics) (drop_expired items).
Proof.
  revert sq. induction items as [|item items IH]; intros sq; simpl.
  { split; [done|]. exists (SQMetrics sq). by destruct sq. }
  destruct (expired item).
  - destruct (remEventWithID_ok sq (EventID item)) as [metrics ->].
    destruct (IH (with_metrics sq metrics)) as [? [metrics' E]]. split; [done|]. by exists metrics'.
  - split; [done|]. exists (SQMetrics sq). by destruct sq.
Qed.

(** What is left of the items before the new one is added. *)
Definition items_left (sq : StatQueue) : list SQItem :=
  let items := drop_expired (SQItems sq) in
  let QueueLength := sqp_QueueLength (sqPrfl sq) in
  if (0 <? QueueLength) && (Z.of_nat (length items) =? QueueLength) then tail items else items.

Lemma addStatEvent_items sq ev :
  SQItems (addStatEvent sq ev).2 = SQItems sq ++ [mkSQItem (ev_ID ev) (Add now <$> sq_ttl sq)] ∧
  sqPrfl (addStatEvent sq ev).2 = sqPrfl sq ∧ sq_ttl (addStatEvent sq ev).2 = sq_ttl sq.
Proof. unfold addStatEvent. simpl. by destruct (add_metrics _ _ _). Qed.

Lemma remOnQueueLength_items sq :
  (remOnQueueLength sq).1 = Ok () ∧
  sqPrfl (remOnQueueLength sq).2 = sqPrfl sq ∧ sq_ttl (remOnQueueLength sq).2 = sq_ttl sq ∧
  SQItems (remOnQueueLength sq).2 =
    let QueueLength := sqp_QueueLength (sqPrfl sq) in
    if (0 <? QueueLength) && (Z.of_nat (length (SQItems sq)) =? QueueLength)
    then tail (SQItems sq) else SQItems sq.
Proof.
  unfold remOnQueueLength. set (QL := sqp_QueueLength (sqPrfl sq)). simpl.
  destruct (Z.leb_spec QL 0).
  { by rewrite (proj2 (Z.ltb_ge 0 QL)). }
  rewrite (proj2 (Z.ltb_lt 0 QL)) by done. simpl. destruct (Z.eqb_spec (Z.of_nat (length (SQItems sq))) QL); [|done].
  destruct (SQItems sq) as [|item items]; simpl in *; [lia|].
  by destruct (remEventWithID_ok sq (EventID item)) as [metrics ->].
Qed.

Lemma ProcessEvent_items sq ev :
  SQItems (ProcessEvent sq ev).2 =
    items_left sq ++ [mkSQItem (ev_ID ev) (Add now <$> sq_ttl sq)] ∧
  sqPrfl (ProcessEvent sq ev).2 = sqPrfl sq ∧ sq_ttl (ProcessEvent sq ev).2 = sq_ttl sq.
Proof.
  unfold ProcessEvent, remExpired.
  destruct (rem_expired_items sq (SQItems sq)) as [E1 [metrics E2]].
  destruct (rem_expired _ _) as [r sq1]. simpl in E1, E2. subst.
  set (sq1 := with_items _ _). destruct (remOnQueueLength_items sq1) as (E1 & Ep & Et & Ei).
  destruct (remOnQueueLength sq1) as [r sq2]. simpl in E1, Ep, Et, Ei. subst r.
  destruct (addStatEvent_items sq2 ev) as (Ea & Ea' & Et'). by rewrite Ea, Ea', Et', Ei, Et, Ep.
Qed.

Lemma drop_expired_length items : (length (drop_expired items) ≤ length items)%nat.
Proof. induction items as [|item items IH]; simpl; [lia|]. destruct (expired item); simpl; lia. Qed.

Lemma drop_expired_none items :
  (∀ item, item ∈ items → ExpiryTime item = None) → drop_expired items = items.
Proof.
  destruct items as [|item items]; simpl; [done|]. intros Hexp.
  unfold expired. by rewrite Hexp by (by left).
Qed.

Lemma ProcessEvent_within sq ev :
  0 < sqp_QueueLength (sqPrfl sq) →
  Z.of_nat (length (SQItems sq)) ≤ sqp_QueueLength (sqPrfl sq) →
  Z.of_nat (length (SQItems (ProcessEvent sq ev).2)) ≤ sqp_QueueLength (sqPrfl sq).
Proof.
  intros HQ Hlen. destruct (ProcessEvent_items sq ev) as [-> _]. unfold items_left.
  pose proof (drop_expired_length (SQItems sq)) as Hd. rewrite length_app. simpl.
  destruct (_ && _) eqn:E; [rewrite length_tl|]; lia.
Qed.

(** A queue within its length stays within it, whatever the event and its outcome;
    a queue that is longer than its length allows, because the profile was changed, is
    never cut: without expired items every event makes it longer. *)
Theorem ProcessEvent_queue_length (sq : StatQueue) (evs : list CGREvent) :
  let QueueLength := sqp_QueueLength (sqPrfl sq) in
  let sq' := foldl (λ sq ev, (ProcessEvent sq ev).2) sq evs in
  0 < QueueLength →
  (Z.of_nat (length (SQItems sq)) ≤ QueueLength → Z.of_nat (length (SQItems sq')) ≤ QueueLength) ∧
  (QueueLength < Z.of_nat (length (SQItems sq)) → sq_ttl sq = None →
   (∀ item, item ∈ SQItems sq → ExpiryTime item = None) →
   length (SQItems sq') = (length (SQItems sq) + length evs)%nat).
Proof.
  intros QueueLength sq' HQ. unfold sq'. clear sq'. revert sq QueueLength HQ.
  induction evs as [|ev evs IH]; intros sq QL HQ; simpl.
  { split; [done|]. intros. lia. }
  destruct (ProcessEvent_items sq ev) as (Ei & Ep & Et).
  destruct (IH (ProcessEvent sq ev).2) as [IH1 IH2]; [by rewrite Ep|].
  rewrite Ep in IH1, IH2. rewrite Et in IH2. fold QL in IH1, IH2. split.
  - intros Hlen. apply IH1. by apply ProcessEvent_within.
  - intros Hlen Httl Hexp. rewrite Ei, Httl in *. unfold items_left in *. fold QL in IH2 |- *.
    rewrite (drop_expired_none (SQItems sq)) in * by done.
    assert ((Z.of_nat (length (SQItems sq)) =? QL) = false) as Eq by lia.
    rewrite Eq, andb_false_r in *. rewrite length_app in IH2. simpl in IH2.
    rewrite IH2; [lia|lia|done|]. intros item [Hin|Hin]%elem_of_app; [by apply Hexp|].
    by apply list_elem_of_singleton in Hin as ->.
Qed.
(** ** No metric keeps an event the queue does not have *)

(** The number of items with an ID. *)
Definition occ (items : list SQItem) (id : string) : Z :=
  Z.of_nat (count (λ it, bool_decide (EventID it = id)) items).

(** A metric counts an event at least once and at most as often as the queue. *)
Definition fits (cnt : string → Z) (sm : StatMetric) : Prop :=
  match sm with
  | StatACD m | StatTCD m | StatPDD m =>
      ∀ id v, d_Events m !! id = Some v → 1 ≤ dc_CompressFactor v ≤ cnt id
  | StatASR m | StatACC m | StatTCC m | StatSum m | StatAverage m =>
      ∀ id v, n_Events m !! id = Some v → 1 ≤ sc_CompressFactor v ≤ cnt id
  | StatDDC m | StatDistinct m =>
      ∀ id f, v_Events m !! id = Some f →
        (∀ value n, f !! value = Some n → 1 ≤ n) ∧ sumZ f ≤ cnt id
  end.

Definition metrics_fit (cnt : string → Z) (metrics : gmap string StatMetric) : Prop :=
  ∀ k sm, metrics !! k = Some sm → fits cnt sm.

Lemma fits_mono cnt cnt' sm : (∀ id, cnt id ≤ cnt' id) → fits cnt sm → fits cnt' sm.
Proof.
  intros Hle. destruct sm; simpl; intros Hf id v E; specialize (Hle id); specialize (Hf id v E);
    solve [lia | (destruct Hf; split; [done|lia])].
Qed.

Lemma factors_nonneg (f : gmap string Z) : (∀ value n, f !! value = Some n → 1 ≤ n) → 0 ≤ sumZ f.
Proof. intros Hp. apply total_nonneg. intros k n E. specialize (Hp k n E). simpl. lia. Qed.

(** *** Adding an event *)

Section adding.
Context (cnt cnt' : string → Z) (evID : string).
Context (Hcnt : ∀ id, cnt' id = cnt id + (if decide (id = evID) then 1 else 0)).
Context (Hmax : ∀ id, 0 ≤ cnt id ∧ cnt' id ≤ max_int64).

Lemma factor_add cf : 1 ≤ cf ≤ cnt evID → 1 ≤ add64 cf 1 ≤ cnt' evID.
Proof.
  intros Hcf. specialize (Hcnt evID). specialize (Hmax evID). rewrite decide_True in Hcnt by done.
  rewrite add64_id; [lia|]. unfold int64_range, min_int64, max_int64 in *. lia.
Qed.
Lemma factor_one : 1 ≤ 1 ≤ cnt' evID.
Proof. specialize (Hcnt evID). specialize (Hmax evID). rewrite decide_True in Hcnt by done. lia. Qed.
Lemma cnt_le id : cnt id ≤ cnt' id.
Proof. rewrite Hcnt. case_decide; lia. Qed.

Lemma d_add_fits field m ev m' : ev_ID ev = evID →
  (∀ id v, d_Events m !! id = Some v → 1 ≤ dc_CompressFactor v ≤ cnt id) →
  d_AddEvent field m ev = Ok m' →
  ∀ id v, d_Events m' !! id = Some v → 1 ≤ dc_CompressFactor v ≤ cnt' id.
Proof.
  intros Hev Hf E id v. apply bind_ok_inv in E as (dur & _ & E).
  injection E as <-. simpl. rewrite Hev, lookup_insert.
  case_decide as Hid.
  - subst id. intros [= <-]. destruct (d_Events m !! evID) as [old|] eqn:Eo; simpl; [|apply factor_one].
    by apply factor_add, Hf.
  - intros Ev. specialize (Hf id v Ev). pose proof (cnt_le id). lia.
Qed.

Lemma n_add_fits m sum x :
  (∀ id v, n_Events m !! id = Some v → 1 ≤ sc_CompressFactor v ≤ cnt id) →
  ∀ id v, n_Events (n_add m evID sum x) !! id = Some v → 1 ≤ sc_CompressFactor v ≤ cnt' id.
Proof.
  intros Hf id v. simpl. rewrite lookup_insert. case_decide as Hid.
  - subst id. intros [= <-]. destruct (n_Events m !! evID) as [old|] eqn:Eo; simpl; [|apply factor_one].
    by apply factor_add, Hf.
  - intros Ev. specialize (Hf id v Ev). pose proof (cnt_le id). lia.
Qed.

Lemma v_add_fits m value :
  (∀ id f, v_Events m !! id = Some f →
     (∀ value n, f !! value = Some n → 1 ≤ n) ∧ sumZ f ≤ cnt id) →
  ∀ id f, v_Events (v_add m evID value) !! id = Some f →
     (∀ value n, f !! value = Some n → 1 ≤ n) ∧ sumZ f ≤ cnt' id.
Proof.
  intros Hf id f. simpl. rewrite lookup_insert. case_decide as Hid.
  2: { intros Ev. destruct (Hf id f Ev). pose proof (cnt_le id). split; [done|lia]. }
  subst id. intros [= <-]. set (f0 := default ∅ (v_Events m !! evID)).
  assert ((∀ value n, f0 !! value = Some n → 1 ≤ n) ∧ sumZ f0 ≤ cnt evID) as [Hp Ht].
  { unfold f0. destruct (v_Events m !! evID) as [f|] eqn:E; simpl; [by apply Hf|].
    split; [intros value' n; by rewrite lookup_empty|]. apply Hmax. }
  pose proof factor_one as Hone. specialize (Hmax evID). specialize (Hcnt evID).
  rewrite decide_True in Hcnt by done. destruct (f0 !! value) as [n|] eqn:En.
  - pose proof (Hp value n En). pose proof (sumZ_delete f0 value n En) as Htd.
    assert (0 ≤ sumZ (delete value f0)).
    { apply factors_nonneg. intros v' n' [_ E']%lookup_delete_Some. by apply (Hp v'). }
    rewrite add64_id by (unfold int64_range, min_int64, max_int64 in *; lia).
    rewrite <- insert_delete_eq. rewrite sumZ_insert by apply lookup_delete_eq. split; [|lia].
    intros v' n'. rewrite lookup_insert. case_decide; [intros [= <-]; lia|].
    intros [_ E']%lookup_delete_Some. by apply (Hp v').
  - rewrite sumZ_insert by done. split; [|lia].
    intros v' n'. rewrite lookup_insert. case_decide; [by intros [= <-]|]. apply Hp.
Qed.

Lemma AddEvent_fits sm ev sm' : ev_ID ev = evID →
  fits cnt sm → AddEvent sm ev = Ok sm' → fits cnt' sm'.
Proof.
  intros Hev Hf E. destruct sm; simpl in *;
    apply fmap_ok_inv in E as (m' & E & ->); simpl;
    unfold ASR_AddEvent, ACC_AddEvent, TCC_AddEvent, n_AddCost, Sum_AddEvent, Average_AddEvent,
      n_AddField, DDC_AddEvent, Distinct_AddEvent in E;
    try (destruct (negb _); [discriminate E|]); try exact (d_add_fits _ m ev m' Hev Hf E);
    apply bind_ok_inv in E as (x & _ & E); injection E as <-; rewrite Hev;
    try (by apply v_add_fits); try (by apply n_add_fits).
  destruct (IsZero _); by apply n_add_fits.
Qed.
End adding.

(** *** Removing an event *)

Section removing.
Context (cnt cnt' : string → Z) (evID : string).
Context (Hcnt : ∀ id, cnt id = cnt' id + (if decide (id = evID) then 1 else 0)).
Context (Hmax : ∀ id, 0 ≤ cnt' id ∧ cnt id ≤ max_int64).

Lemma rem_factor cf : ¬ cf ≤ 1 → cf ≤ cnt evID → 1 ≤ sub64 cf 1 ≤ cnt' evID.
Proof.
  intros Hcf Hle. specialize (Hcnt evID). specialize (Hmax evID).
  rewrite decide_True in Hcnt by done.
  rewrite sub64_id; [lia|]. unfold int64_range, min_int64, max_int64 in *. lia.
Qed.
Lemma cnt_other id : id ≠ evID → cnt' id = cnt id.
Proof. intros Hid. rewrite Hcnt, decide_False by done. lia. Qed.

Lemma d_rem_fits m m' :
  (∀ id v, d_Events m !! id = Some v → 1 ≤ dc_CompressFactor v ≤ cnt id) →
  d_RemEvent m evID = Ok m' →
  ∀ id v, d_Events m' !! id = Some v → 1 ≤ dc_CompressFactor v ≤ cnt' id.
Proof.
  intros Hf E id v. unfold d_RemEvent in E. destruct (d_Events m !! evID) as [val|] eqn:Ev; [|done].
  injection E as <-. simpl. destruct (Z.leb_spec (dc_CompressFactor val) 1) as [Hc|Hc].
  - intros [Hid Ei]%lookup_delete_Some. rewrite cnt_other by done. by apply Hf.
  - rewrite lookup_insert. case_decide as Hid; [|intros Ei; rewrite cnt_other by done; by apply Hf].
    subst id. intros [= <-]. simpl. apply rem_factor; [lia|]. by apply Hf.
Qed.

Lemma n_rem_fits m val x events :
  n_Events m !! evID = Some val →
  events = (if sc_CompressFactor val <=? 1 then delete evID (n_Events m)
            else <[evID := mkStatWithCompress x (sub64 (sc_CompressFactor val) 1)]> (n_Events m)) →
  (∀ id v, n_Events m !! id = Some v → 1 ≤ sc_CompressFactor v ≤ cnt id) →
  ∀ id v, events !! id = Some v → 1 ≤ sc_CompressFactor v ≤ cnt' id.
Proof.
  intros Ev -> Hf id v. destruct (Z.leb_spec (sc_CompressFactor val) 1) as [Hc|Hc].
  - intros [Hid Ei]%lookup_delete_Some. rewrite cnt_other by done. by apply Hf.
  - rewrite lookup_insert. case_decide as Hid; [|intros Ei; rewrite cnt_other by done; by apply Hf].
    subst id. intros [= <-]. simpl. apply rem_factor; [lia|]. by apply Hf.
Qed.

(** A metric that does not keep the event. *)
Lemma absent_fits {A} (events : gmap string A) (P : A → Z → Prop) :
  events !! evID = None → (∀ id v, events !! id = Some v → P v (cnt id)) →
  ∀ id v, events !! id = Some v → P v (cnt' id).
Proof. intros Hn Hf id v E. rewrite cnt_other; [by apply Hf|]. intros ->. congruence. Qed.

Lemma v_rem_fits m :
  (∀ id f, v_Events m !! id = Some f →
     (∀ value n, f !! value = Some n → 1 ≤ n) ∧ sumZ f ≤ cnt id) →
  ∀ id f, v_Events (v_RemEvent m evID).2 !! id = Some f →
     (∀ value n, f !! value = Some n → 1 ≤ n) ∧ sumZ f ≤ cnt' id.
Proof.
  intros Hf. unfold v_RemEvent. destruct (v_Events m !! evID) as [f0|] eqn:Ev.
  2: { by apply (absent_fits _ (λ f c, (∀ value n, f !! value = Some n → 1 ≤ n) ∧ sumZ f ≤ c)). }
  destruct (go_range f0) as [|[value n] rest] eqn:Er; simpl.
  { intros id f [Hid Ei]%lookup_delete_Some. rewrite cnt_other by done. by apply Hf. }
  assert (Hvn : f0 !! value = Some n) by (apply go_range_elem; rewrite Er; left).
  destruct (Hf evID f0 Ev) as [Hp Ht]. pose proof (Hp value n Hvn) as Hn1.
  assert (Hd : sumZ f0 = n + sumZ (delete value f0)) by by apply sumZ_delete.
  pose proof (Hcnt evID) as Hc. rewrite decide_True in Hc by done. pose proof (Hmax evID) as Hm.
  assert (Hp' : ∀ v' n', delete value f0 !! v' = Some n' → 1 ≤ n')
    by (intros v' n' [_ E]%lookup_delete_Some; by apply (Hp v')).
  pose proof (factors_nonneg _ Hp') as Hnn.
  destruct (Z.ltb_spec 1 n) as [Hlt|Hge]; simpl; intros id f; rewrite lookup_insert;
    (case_decide as Hid; [subst id|intros Ei; rewrite cnt_other by done; by apply Hf]);
    intros [= <-]; [|split; [done|lia]].
  rewrite sub64_id by (unfold int64_range, min_int64, max_int64 in *; lia). split.
  - intros v' n'. rewrite lookup_insert. case_decide; [intros [= <-]; lia|apply Hp].
  - rewrite <- insert_delete_eq, sumZ_insert by apply lookup_delete_eq. lia.
Qed.

Lemma RemEvent_fits sm : fits cnt sm → fits cnt' (RemEvent sm evID).2.
Proof.
  intros Hf. destruct sm; simpl in *;
    unfold ASR_RemEvent, ACD_RemEvent, TCD_RemEvent, PDD_RemEvent, ACC_RemEvent,
      TCC_RemEvent, Sum_RemEvent, Average_RemEvent, n_RemEvent, DDC_RemEvent, Distinct_RemEvent.
  all: try (pose proof (v_rem_fits m Hf) as Hv; by destruct (v_RemEvent m evID)).
  all: try (destruct (d_RemEvent m evID) as [m'|e|] eqn:E; simpl;
    [by apply (d_rem_fits m)| |]; unfold d_RemEvent in E;
    destruct (d_Events m !! evID) eqn:Ev; try discriminate E;
    by apply (absent_fits _ (λ v c, 1 ≤ dc_CompressFactor v ≤ c))).
  all: destruct (n_Events m !! evID) as [val|] eqn:Ev; simpl;
    [eapply (n_rem_fits m val); [exact Ev|reflexivity|exact Hf]|by apply (absent_fits _ (λ v c, 1 ≤ sc_CompressFactor v ≤ c))].
Qed.
End removing.

(** *** The metrics of a queue *)

Lemma rem_metrics_other evID todo metrics k :
  k ∉ todo.*1 → (rem_metrics evID todo metrics).2 !! k = metrics !! k.
Proof.
  revert metrics. induction todo as [|[k' m] todo IH]; intros metrics Hk; simpl; [done|].
  simpl in Hk. apply not_elem_of_cons in Hk as [Hk Hk'].
  pose proof (RemEvent_ok m evID) as Hr. destruct (RemEvent m evID) as [r m']. simpl in Hr.
  destruct Hr as [-> | ->]; simpl; rewrite IH, lookup_insert_ne by done; done.
Qed.

Lemma rem_metrics_in evID todo metrics k m :
  NoDup todo.*1 → (k, m) ∈ todo →
  (rem_metrics evID todo metrics).2 !! k = Some (RemEvent m evID).2.
Proof.
  revert metrics. induction todo as [|[k' m'] todo IH]; intros metrics Hnd Hin; simpl.
  { by apply elem_of_nil in Hin. }
  simpl in Hnd. apply NoDup_cons in Hnd as [Hk' Hnd].
  pose proof (RemEvent_ok m' evID) as Hr. destruct (RemEvent m' evID) as [r m''] eqn:Er.
  simpl in Hr. apply elem_of_cons in Hin as [[= -> ->]|Hin].
  - destruct Hr as [-> | ->]; simpl; rewrite rem_metrics_other, lookup_insert_eq, Er by done; done.
  - destruct Hr as [-> | ->]; simpl; by apply IH.
Qed.

Lemma remEventWithID_lookup sq evID k :
  SQMetrics (remEventWithID sq evID).2 !! k = (λ m, (RemEvent m evID).2) <$> SQMetrics sq !! k.
Proof.
  unfold remEventWithID.
  pose proof (go_range_keys_NoDup (SQMetrics sq)) as Hnd.
  destruct (SQMetrics sq !! k) as [m|] eqn:E.
  - pose proof (rem_metrics_in evID _ (SQMetrics sq) k m Hnd) as Hin.
    destruct (rem_metrics _ _ _) as [r metrics]. simpl in *. apply Hin. by apply go_range_elem.
  - pose proof (rem_metrics_other evID (go_range (SQMetrics sq)) (SQMetrics sq) k) as Ho.
    destruct (rem_metrics _ _ _) as [r metrics]. simpl in *. rewrite Ho; [done|].
    intros [[k' m] [-> Hin]]%list_elem_of_fmap. apply go_range_elem in Hin. simpl in E. congruence.
Qed.

Lemma add_metrics_lookup ev todo metrics k sm :
  (add_metrics ev todo metrics).2 !! k = Some sm →
  metrics !! k = Some sm ∨ ∃ m, (k, m) ∈ todo ∧ AddEvent m ev = Ok sm.
Proof.
  revert metrics. induction todo as [|[k' m] todo IH]; intros metrics; simpl; [by left|].
  destruct (FilterS_Pass _ _ _) as [[]| |]; simpl; [|intros E|by left..].
  - destruct (AddEvent m ev) as [m'| |] eqn:Ea; simpl; [intros E|by left..].
    apply IH in E as [E|(m0 & Hin & E)].
    + rewrite lookup_insert in E. case_decide; [subst k'|by left].
      injection E as <-. right. exists m. split; [by left|done].
    + right. exists m0. split; [by right|done].
  - apply IH in E as [E|(m0 & Hin & E)]; [by left|]. right. exists m0. split; [by right|done].
Qed.

Lemma occ_cons item items id :
  occ (item :: items) id = occ items id + (if decide (id = EventID item) then 1 else 0).
Proof.
  unfold occ. simpl. case_decide as Hd.
  - rewrite bool_decide_eq_true_2 by done. simpl. lia.
  - rewrite bool_decide_eq_false_2 by done. simpl. lia.
Qed.
Lemma occ_snoc item items id :
  occ (items ++ [item]) id = occ items id + (if decide (id = EventID item) then 1 else 0).
Proof.
  pose proof (occ_cons item [] id) as Hc. unfold occ in *. rewrite count_app. simpl in *. lia.
Qed.
Lemma occ_bounds items id : 0 ≤ occ items id ≤ Z.of_nat (length items).
Proof.
  induction items as [|item items IH]; [done|]. rewrite occ_cons. simpl. case_decide; lia.
Qed.

Lemma remEventWithID_fits sq item items :
  Z.of_nat (length (item :: items)) ≤ max_int64 →
  metrics_fit (occ (item :: items)) (SQMetrics sq) →
  metrics_fit (occ items) (SQMetrics (remEventWithID sq (EventID item)).2).
Proof.
  intros Hlen Hf k sm E. rewrite remEventWithID_lookup in E.
  apply fmap_Some in E as (m & Em & ->).
  apply (RemEvent_fits (occ (item :: items)) _ (EventID item)).
  - intros id. apply occ_cons.
  - intros id. pose proof (occ_bounds (item :: items) id). pose proof (occ_bounds items id). lia.
  - by apply (Hf k).
Qed.

Lemma rem_expired_fits sq items :
  Z.of_nat (length items) ≤ max_int64 → metrics_fit (occ items) (SQMetrics sq) →
  metrics_fit (occ (drop_expired items)) (SQMetrics (rem_expired sq items).2).
Proof.
  revert sq. induction items as [|item items IH]; intros sq Hlen Hf; simpl; [done|].
  destruct (expired item); [|done].
  pose proof (remEventWithID_fits sq item items Hlen Hf) as Hf'.
  destruct (remEventWithID_ok sq (EventID item)) as [metrics E]. rewrite E in *. simpl in Hf'.
  apply IH; [simpl in Hlen; lia|done].
Qed.

Lemma remOnQueueLength_fits sq :
  Z.of_nat (length (SQItems sq)) ≤ max_int64 → metrics_fit (occ (SQItems sq)) (SQMetrics sq) →
  metrics_fit (occ (SQItems (remOnQueueLength sq).2)) (SQMetrics (remOnQueueLength sq).2).
Proof.
  intros Hlen Hf. unfold remOnQueueLength. destruct (_ <=? _); [done|].
  destruct (_ =? _); [|done]. destruct (SQItems sq) as [|item items] eqn:Ei; simpl.
  { by rewrite Ei. }
  pose proof (remEventWithID_fits sq item items Hlen Hf) as Hf'.
  destruct (remEventWithID_ok sq (EventID item)) as [metrics E]. by rewrite E in *.
Qed.

Lemma addStatEvent_fits sq ev :
  Z.of_nat (length (SQItems sq)) < max_int64 → metrics_fit (occ (SQItems sq)) (SQMetrics sq) →
  metrics_fit (occ (SQItems (addStatEvent sq ev).2)) (SQMetrics (addStatEvent sq ev).2).
Proof.
  intros Hlen Hf. destruct (addStatEvent_items sq ev) as [-> _].
  assert (Hm : SQMetrics (addStatEvent sq ev).2 =
    (add_metrics ev (go_range (SQMetrics sq)) (SQMetrics sq)).2).
  { unfold addStatEvent. simpl. by destruct (add_metrics _ _ _). }
  rewrite Hm. clear Hm. set (item := mkSQItem _ _).
  intros k sm E. apply add_metrics_lookup in E as [E|(m & Hin%go_range_elem & E)].
  - apply (fits_mono (occ (SQItems sq))); [|by apply (Hf k)].
    intros id. rewrite occ_snoc. case_decide; lia.
  - apply (AddEvent_fits (occ (SQItems sq)) _ (EventID item)) with m ev;
      [intros id; apply occ_snoc| |done|by apply (Hf k)|done].
    intros id. rewrite occ_snoc. pose proof (occ_bounds (SQItems sq) id). case_decide; lia.
Qed.

Lemma ProcessEvent_fits sq ev :
  Z.of_nat (length (SQItems sq)) < max_int64 → metrics_fit (occ (SQItems sq)) (SQMetrics sq) →
  metrics_fit (occ (SQItems (ProcessEvent sq ev).2)) (SQMetrics (ProcessEvent sq ev).2).
Proof.
  intros Hlen Hf. unfold ProcessEvent, remExpired.
  pose proof (rem_expired_fits sq (SQItems sq) ltac:(lia) Hf) as Hf1.
  destruct (rem_expired_items sq (SQItems sq)) as [E1 [metrics E2]].
  destruct (rem_expired _ _) as [r sq1]. simpl in E1, E2, Hf1. subst r.
  assert (Ei : SQItems sq1 = drop_expired (SQItems sq)) by by rewrite E2.
  pose proof (drop_expired_length (SQItems sq)) as Hd. rewrite <- Ei in Hf1, Hd.
  pose proof (remOnQueueLength_fits sq1 ltac:(lia) Hf1) as Hf2.
  destruct (remOnQueueLength_items sq1) as (Er & _ & _ & Ei2).
  destruct (remOnQueueLength sq1) as [r sq2]. simpl in Er, Ei2, Hf2. subst r.
  apply addStatEvent_fits; [|done]. rewrite Ei2. destruct (_ && _); [rewrite length_tl|]; lia.
Qed.

(** C24: whatever events are processed, with whatever outcome, no metric counts an event
    more often than it is in the queue; in particular, a metric keeps no event that has
    left the queue. *)
Theorem ProcessEvent_metrics_fit (sq : StatQueue) (evs : list CGREvent) :
  metrics_fit (occ (SQItems sq)) (SQMetrics sq) →
  Z.of_nat (length (SQItems sq) + length evs) ≤ max_int64 →
  let sq' := foldl (λ sq ev, (ProcessEvent sq ev).2) sq evs in
  metrics_fit (occ (SQItems sq')) (SQMetrics sq').
Proof.
  revert sq. induction evs as [|ev evs IH]; intros sq Hf Hlen; simpl in *; [done|].
  apply IH; [apply ProcessEvent_fits; [lia|done]|].
  destruct (ProcessEvent_items sq ev) as [-> _]. rewrite length_app. simpl.
  enough (length (items_left sq) ≤ length (SQItems sq))%nat by lia.
  pose proof (drop_expired_length (SQItems sq)). unfold items_left.
  destruct (_ && _); [rewrite length_tl|]; lia.
Qed.
End queue.

(** ** Examples *)
Definition example_queue (QueueLength : Z) (items : list SQItem) : StatQueue :=
  mkStatQueue "cgrates.org" "q" items {["*tcd" := NewTCD 0 "" []]}
    (mkStatQueueProfile "cgrates.org" "q" [] None QueueLength 0 0 [] false false f0 []) None.

Example ProcessEvent_queue_length_witness :
  let sq := example_queue 1 [] in
  let evs := [usage_event "a" 1; usage_event "b" 2] in
  let sq' := foldl (λ sq ev, (@ProcessEvent reference_text reference_runtime reference_config
                                reference_filters sq ev).2) sq evs in
  0 < 1 ∧
  (Z.of_nat (length (SQItems sq)) ≤ 1 → Z.of_nat (length (SQItems sq')) ≤ 1) ∧
  (1 < Z.of_nat (length (SQItems sq)) → sq_ttl sq = None →
   (∀ item, item ∈ SQItems sq → ExpiryTime item = None) →
   length (SQItems sq') = (length (SQItems sq) + length evs)%nat).
Proof.
  split; [lia|].
  apply (@ProcessEvent_queue_length reference_text reference_runtime reference_config
           reference_filters (example_queue 1 []) [usage_event "a" 1; usage_event "b" 2]).
  reflexivity.
Defined.

Example ProcessEvent_metrics_fit_witness :
  let sq' := foldl (λ sq ev, (@ProcessEvent reference_text reference_runtime reference_config
                                reference_filters sq ev).2) (example_queue 1 [])
               [usage_event "a" 1; usage_event "b" 2] in
  metrics_fit (occ (SQItems sq')) (SQMetrics sq').
Proof.
  apply (@ProcessEvent_metrics_fit reference_text reference_runtime reference_config
           reference_filters (example_queue 1 []) [usage_event "a" 1; usage_event "b" 2]).
  - intros k sm E. unfold example_queue in E. simpl SQMetrics in E.
    apply lookup_singleton_Some in E as [_ <-]. intros id v Ev.
    change ((∅ : gmap string DurationWithCompress) !! id = Some v) in Ev.
    by rewrite lookup_empty in Ev.
  - vm_compute. discriminate.
Defined.
