(* ===== verification/Resources.v ===== *)
(** * Resources

    [engine/resources.go]: the usages of limited resources, recording and clearing them,
    and the allocation of an event's usage on all its matching resources.  A resource is a
    value: an operation returns the new one, with the error where there is one, since the
    changes made before an error stay.  The lock of the allocation is left out. *)
From S2P Require Import Prelude GoFloat GoStrings GoTime FloatExact CoreUtils Values Filters.

Definition ErrResourceUnavailable : string := "RESOURCE_UNAVAILABLE".

Record ResourceProfile := mkResourceProfile {
  rp_Tenant : string; rp_ID : string; rp_FilterIDs : list string;
  rp_ActivationInterval : option ActivationInterval; rp_UsageTTL : Z; rp_Limit : float64;
  rp_AllocationMessage : string; rp_Blocker : bool; rp_Stored : bool; rp_Weight : float64;
  rp_ThresholdIDs : list string }.

Definition rp_TenantID (rp : ResourceProfile) : string :=
  ConcatenatedKey [rp_Tenant rp; rp_ID rp].

Record ResourceUsage := mkResourceUsage {
  ru_Tenant : string; ru_ID : string; ru_ExpiryTime : Time; ru_Units : float64 }.

Definition ru_TenantID (ru : ResourceUsage) : string :=
  ConcatenatedKey [ru_Tenant ru; ru_ID ru].

Definition isActive (ru : ResourceUsage) (atTime : Time) : bool :=
  IsZero (ru_ExpiryTime ru) || (0 <? Sub (ru_ExpiryTime ru) atTime).

Record Resource := mkResource {
  r_Tenant : string; r_ID : string; Usages : gmap string ResourceUsage; TTLIdx : list string;
  r_ttl : option Z; tUsage : option float64; r_dirty : option bool;
  rPrf : option ResourceProfile }.

Definition r_TenantID (r : Resource) : string := ConcatenatedKey [r_Tenant r; r_ID r].

Definition with_usages (r : Resource) (usages : gmap string ResourceUsage) (idx : list string)
    (tu : option float64) : Resource :=
  mkResource (r_Tenant r) (r_ID r) usages idx (r_ttl r) tu (r_dirty r) (rPrf r).

Section resources.
Context `{GoRuntime} `{FilterData}.

Definition active_usage (usages : gmap string ResourceUsage) (rID : string) : bool :=
  match usages !! rID with Some ru => isActive ru now | None => false end.

(** The IDs in front of the first active usage. *)
Fixpoint expired_prefix (usages : gmap string ResourceUsage) (idx : list string) : list string :=
  match idx with
  | [] => []
  | rID :: idx' => if active_usage usages rID then [] else rID :: expired_prefix usages idx'
  end.

(** Takes the usage off the total, a nil total panics and a negative one becomes nil. *)
Definition drop_usage (r : Resource) (rID : string) : res Resource :=
  match Usages r !! rID with
  | None => Ok r
  | Some ru =>
      tu ← deref (tUsage r);
      let tu := fsub tu (ru_Units ru) in
      Ok (with_usages r (delete rID (Usages r)) (TTLIdx r) (if fltb tu f0 then None else Some tu))
  end.

Definition removeExpiredUnits (r : Resource) : res Resource :=
  match expired_prefix (Usages r) (TTLIdx r) with
  | [] => Ok r
  | prefix =>
      r' ← foldl (λ acc rID, r ← acc; drop_usage r rID) (Ok r) prefix;
      Ok (with_usages r' (Usages r') (drop (length prefix) (TTLIdx r)) None)
  end.

Definition sum_usages (usages : gmap string ResourceUsage) : float64 :=
  foldl (λ tu kv, fadd tu (ru_Units kv.2)) f0 (go_range usages).

Definition totalUsage (r : Resource) : float64 * Resource :=
  match tUsage r with
  | Some tu => (tu, r)
  | None => let tu := sum_usages (Usages r) in (tu, with_usages r (Usages r) (TTLIdx r) (Some tu))
  end.
Definition TotalUsage : Resource → float64 * Resource := totalUsage.

Definition recordUsage (r : Resource) (ru : ResourceUsage) : res Resource :=
  match Usages r !! ru_ID ru with
  | Some _ => Err ("duplicate resource usage with id: " +:+ ru_TenantID ru)
  | None =>
      let record ru :=
        with_usages r (<[ru_ID ru := ru]> (Usages r))
          (if IsZero (ru_ExpiryTime ru) then TTLIdx r else TTLIdx r ++ [ru_ID ru])
          ((λ tu, fadd tu (ru_Units ru)) <$> tUsage r) in
      match r_ttl r with
      | Some ttl =>
          if decide (ttl = -1) then Ok (record ru)
          else if decide (ttl = 0) then Ok r
          else Ok (record (mkResourceUsage (ru_Tenant ru) (ru_ID ru) (Add now ttl) (ru_Units ru)))
      | None => Ok (record ru)
      end
  end.

(** The first occurrence removed. *)
Fixpoint remove_first (x : string) (l : list string) : list string :=
  match l with
  | [] => []
  | y :: l' => if decide (y = x) then l' else y :: remove_first x l'
  end.

Definition clearUsage (r : Resource) (ruID : string) : res Resource :=
  match Usages r !! ruID with
  | None => Err ("cannot find usage record with id: " +:+ ruID)
  | Some ru =>
      Ok (with_usages r (delete ruID (Usages r))
            (if IsZero (ru_ExpiryTime ru) then TTLIdx r else remove_first ruID (TTLIdx r))
            ((λ tu, fsub tu (ru_Units ru)) <$> tUsage r))
  end.

(** The resource after a call whose error is dropped. *)
Definition or_same {A} (a : A) (m : res A) : A :=
  match m with Ok a' => a' | _ => a end.

(** ** Several resources *)

(** [-Inf] to [+Inf] weights, the greatest first. *)
Definition Resources_Sort (rs : list Resource) : list Resource :=
  go_sort (λ a b, fgtb (default f0 (rp_Weight <$> rPrf a)) (default f0 (rp_Weight <$> rPrf b))) rs.

(** The resources that took the usage, those left, and the error that stopped it. *)
Fixpoint record_all (rs : list Resource) (ru : ResourceUsage)
    : list Resource * list Resource * res () :=
  match rs with
  | [] => ([], [], Ok ())
  | r :: rs' =>
      match recordUsage r ru with
      | Ok r' => let '(done, rest, e) := record_all rs' ru in (r' :: done, rest, e)
      | Err e => ([], rs, Err e)
      | Panic => ([], rs, Panic)
      end
  end.

Definition Resources_recordUsage (rs : list Resource) (ru : ResourceUsage)
    : res () * list Resource :=
  let '(recorded, rest, e) := record_all rs ru in
  match e with
  | Err _ => (e, map (λ r, or_same r (clearUsage r (ru_ID ru))) recorded ++ rest)
  | _ => (e, recorded ++ rest)
  end.

(** An error counts for the resources with a TTL that is not 0; the last one is kept. *)
Definition Resources_clearUsage (rs : list Resource) (ruTntID : string)
    : res () * list Resource :=
  (foldl (λ err r,
     match clearUsage r ruTntID, r_ttl r with
     | Err e, Some ttl => if decide (ttl = 0) then err else Err e
     | _, _ => err
     end) (Ok ()) rs,
   map (λ r, or_same r (clearUsage r ruTntID)) rs).

Definition resIDsMp (rs : list Resource) : gmap string bool :=
  foldl (λ mp r, <[r_ID r := true]> mp) ∅ rs.
Definition tenatIDs (rs : list Resource) : list string := map r_TenantID rs.
Definition Resources_IDs (rs : list Resource) : list string := map r_ID rs.

(** One resource of the simulation: it and the message so far, or the error. *)
Definition simulate (ru : ResourceUsage) (dryRun : bool) (r : Resource) (alcMessage : string)
    : res string * Resource :=
  match removeExpiredUnits r with
  | Err e => (Err e, r)
  | Panic => (Panic, r)
  | Ok r =>
      let r := if bool_decide (is_Some (Usages r !! ru_ID ru)) && negb dryRun
               then or_same r (clearUsage r (ru_ID ru)) else r in
      match rPrf r with
      | None => (Err ("empty configuration for resourceID: " +:+ r_TenantID r), r)
      | Some prf =>
          let '(tu, r) := totalUsage r in
          (Ok (if fgeb (rp_Limit prf) (fadd tu (ru_Units ru)) && bool_decide (alcMessage = "") then
                 if decide (rp_AllocationMessage prf = "") then rp_ID prf
                 else rp_AllocationMessage prf
               else alcMessage), r)
      end
  end.

Fixpoint simulate_all (ru : ResourceUsage) (dryRun : bool) (rs : list Resource)
    (alcMessage : string) : res string * list Resource :=
  match rs with
  | [] => (Ok alcMessage, [])
  | r :: rs' =>
      let '(m, r') := simulate ru dryRun r alcMessage in
      match m with
      | Ok msg => let '(m, rs'') := simulate_all ru dryRun rs' msg in (m, r' :: rs'')
      | e => (e, r' :: rs')
      end
  end.

Definition allocateResource (rs : list Resource) (ru : ResourceUsage) (dryRun : bool)
    : res string * list Resource :=
  match rs with
  | [] => (Err ErrResourceUnavailable, [])
  | _ =>
      let '(m, rs) := simulate_all ru dryRun rs "" in
      match m with
      | Ok alcMessage =>
          if decide (alcMessage = "") then (Err ErrResourceUnavailable, rs)
          else if dryRun then (Ok alcMessage, rs)
          else
            let '(e, rs) := Resources_recordUsage rs ru in
            ((_ ← e; Ok alcMessage), rs)
      | e => (e, rs)
      end
  end.

(** ** The index of expiring usages *)

(** The index lists every usage with an expiry time once, and no other. *)
Record resource_ok (r : Resource) : Prop := {
  ok_nodup : NoDup (TTLIdx r);
  ok_idx id : id ∈ TTLIdx r ↔
    ∃ ru, Usages r !! id = Some ru ∧ IsZero (ru_ExpiryTime ru) = false
}.

Lemma remove_first_elem x l y : NoDup l → y ∈ remove_first x l ↔ y ∈ l ∧ y ≠ x.
Proof.
  induction l as [|z l IH]; simpl; intros Hnd.
  - split; [intros Hy|intros [Hy _]]; by apply elem_of_nil in Hy.
  - apply NoDup_cons in Hnd as [Hz Hnd]. rewrite elem_of_cons. case_decide as Hd.
    + subst z. split; [intros Hy; split; [by right|intros ->; done]|].
      by intros [[->|Hy] Hne].
    + rewrite elem_of_cons, IH by done. naive_solver.
Qed.
Lemma remove_first_NoDup x l : NoDup l → NoDup (remove_first x l).
Proof.
  induction l as [|z l IH]; simpl; intros Hnd; [done|].
  apply NoDup_cons in Hnd as [Hz Hnd]. case_decide; [done|]. apply NoDup_cons.
  split; [|by apply IH]. rewrite remove_first_elem by done. by intros [? _].
Qed.
Lemma remove_first_app x l : x ∉ l → remove_first x (l ++ [x]) = l.
Proof.
  induction l as [|z l IH]; simpl; intros Hx; [by rewrite decide_True|].
  apply not_elem_of_cons in Hx as [Hz Hx]. rewrite decide_False by done. by rewrite IH.
Qed.

(** What recording adds: nothing with a TTL of 0, or the usage with its expiry time. *)
Lemma recordUsage_inv r ru r' : recordUsage r ru = Ok r' →
  Usages r !! ru_ID ru = None ∧
  (r' = r ∨ ∃ ru', ru_ID ru' = ru_ID ru ∧ ru_Units ru' = ru_Units ru ∧
     r' = with_usages r (<[ru_ID ru := ru']> (Usages r))
            (if IsZero (ru_ExpiryTime ru') then TTLIdx r else TTLIdx r ++ [ru_ID ru])
            ((λ tu, fadd tu (ru_Units ru)) <$> tUsage r)).
Proof.
  unfold recordUsage. destruct (Usages r !! ru_ID ru); [done|]. intros E. split; [done|].
  destruct (r_ttl r) as [ttl|].
  - repeat case_decide; injection E as <-; [right; by exists ru|by left|right].
    by exists (mkResourceUsage (ru_Tenant ru) (ru_ID ru) (Add now ttl) (ru_Units ru)).
  - injection E as <-. right. by exists ru.
Qed.

Lemma recordUsage_ok r ru r' : resource_ok r → recordUsage r ru = Ok r' → resource_ok r'.
Proof.
  intros [Hnd Hidx] (Hn & [->|(ru' & Hid & _ & ->)])%recordUsage_inv; [done|].
  assert (Hni : ru_ID ru ∉ TTLIdx r).
  { rewrite Hidx. intros (x & E & _). congruence. }
  split; simpl.
  - destruct (IsZero _); [done|]. apply NoDup_app. split; [done|]. split; [|apply NoDup_singleton].
    intros x Hx ->%list_elem_of_singleton. done.
  - intros id. destruct (decide (ru_ID ru = id)) as [<-|Hne].
    + rewrite lookup_insert_eq. destruct (IsZero (ru_ExpiryTime ru')) eqn:E.
      * split; [done|]. intros (x & [= <-] & Hx). congruence.
      * split; [by exists ru'|]. intros _. apply elem_of_app. right. by left.
    + rewrite lookup_insert_ne by done. rewrite <- Hidx. destruct (IsZero _); [done|].
      rewrite elem_of_app, list_elem_of_singleton. naive_solver.
Qed.

Lemma clearUsage_ok r id r' : resource_ok r → clearUsage r id = Ok r' → resource_ok r'.
Proof.
  intros [Hnd Hidx]. unfold clearUsage. destruct (Usages r !! id) as [ru|] eqn:Eu; [|done].
  intros [= <-]. split; simpl.
  - destruct (IsZero _); [done|]. by apply remove_first_NoDup.
  - intros id'. destruct (decide (id = id')) as [<-|Hne].
    + rewrite lookup_delete_eq. split; [|by intros (? & ? & _)].
      destruct (IsZero (ru_ExpiryTime ru)) eqn:E; [|by intros [_ ?]%remove_first_elem].
      intros (x & Ex & Hx)%Hidx. congruence.
    + rewrite lookup_delete_ne by done. rewrite <- Hidx. destruct (IsZero _); [done|].
      rewrite remove_first_elem by done. naive_solver.
Qed.

Lemma or_same_clear_ok r id : resource_ok r → resource_ok (or_same r (clearUsage r id)).
Proof.
  intros Hok. destruct (clearUsage r id) as [r'| |] eqn:E; [|done..]. by eapply clearUsage_ok.
Qed.

(** Taking off the expired prefix. *)
Lemma drop_usages_spec r prefix r' :
  foldl (λ acc rID, r ← acc; drop_usage r rID) (Ok r) prefix = Ok r' →
  TTLIdx r' = TTLIdx r ∧ r_ttl r' = r_ttl r ∧ rPrf r' = rPrf r ∧
  ∀ id, Usages r' !! id = if decide (id ∈ prefix) then None else Usages r !! id.
Proof.
  revert r. induction prefix as [|rID prefix IH]; intros r; simpl.
  { intros [= <-]. split_and!; [done..|]. done. }
  destruct (drop_usage r rID) as [r1|e|] eqn:E1.
  2: by rewrite foldl_bind_Err.
  2: by rewrite foldl_bind_Panic.
  intros (Hi & Ht & Hp & Hu)%IH.
  assert (TTLIdx r1 = TTLIdx r ∧ r_ttl r1 = r_ttl r ∧ rPrf r1 = rPrf r ∧
          Usages r1 = delete rID (Usages r)) as (Hi1 & Ht1 & Hp1 & Hu1).
  { unfold drop_usage in E1. destruct (Usages r !! rID) as [ru|] eqn:Eu.
    - inv_bind. by subst.
    - injection E1 as <-. by rewrite delete_id. }
  split_and!; [congruence..|]. intros id. rewrite Hu, Hu1.
  destruct (decide (id = rID)) as [->|Hne].
  - rewrite lookup_delete_eq, (decide_True (P := rID ∈ rID :: prefix)) by left.
    by destruct (decide _).
  - rewrite lookup_delete_ne by done. destruct (decide (id ∈ prefix)).
    + by rewrite decide_True by (by right).
    + by rewrite decide_False by (by intros [?|?]%elem_of_cons).
Qed.

Lemma expired_prefix_drop usages idx :
  ∃ rest, idx = expired_prefix usages idx ++ rest ∧
    (∀ id, head rest = Some id → active_usage usages id = true) ∧
    ∀ id, id ∈ expired_prefix usages idx → active_usage usages id = false.
Proof.
  induction idx as [|rID idx (rest & E & Hh & Hp)]; simpl.
  { exists []. split_and!; [done..|]. intros id Hin. by apply elem_of_nil in Hin. }
  destruct (active_usage usages rID) eqn:Ea.
  - exists (rID :: idx). split_and!; [done| |intros id Hin; by apply elem_of_nil in Hin].
    by intros id [= ->].
  - exists rest. split_and!; [simpl; congruence|done|].
    intros id [->|Hin]%elem_of_cons; [done|by apply Hp].
Qed.

(** Removing the expired units takes away exactly the usages in front of the first active
    one of the index. *)
Lemma removeExpiredUnits_spec r r' : removeExpiredUnits r = Ok r' →
  let prefix := expired_prefix (Usages r) (TTLIdx r) in
  TTLIdx r' = drop (length prefix) (TTLIdx r) ∧ r_ttl r' = r_ttl r ∧ rPrf r' = rPrf r ∧
  (∀ id, Usages r' !! id = if decide (id ∈ prefix) then None else Usages r !! id) ∧
  (tUsage r' = None ∨ r' = r).
Proof.
  unfold removeExpiredUnits. destruct (expired_prefix _ _) as [|x prefix] eqn:Ep.
  { intros [= <-]. simpl. split_and!; [done..|by right]. }
  intros E. apply bind_ok_inv in E as (r1 & E1 & E). injection E as <-.
  apply drop_usages_spec in E1 as (_ & Ht & Hp & Hu). simpl. by split_and!; [..|left].
Qed.

Lemma removeExpiredUnits_ok r r' : resource_ok r → removeExpiredUnits r = Ok r' → resource_ok r'.
Proof.
  intros [Hnd Hidx] (Hi & _ & _ & Hu & _)%removeExpiredUnits_spec.
  destruct (expired_prefix_drop (Usages r) (TTLIdx r)) as (rest & E & _).
  set (prefix := expired_prefix _ _) in *.
  assert (TTLIdx r' = rest) as Hr by (by rewrite Hi, E, drop_app_length).
  rewrite E in Hnd. apply NoDup_app in Hnd as (Hnd1 & Hdis & Hnd2). split; rewrite Hr; [done|].
  intros id. rewrite Hu. specialize (Hidx id). rewrite E, elem_of_app in Hidx.
  case_decide as Hd.
  - split; [intros Hin; by destruct (Hdis id Hd)|by intros (? & ? & _)].
  - rewrite <- Hidx. naive_solver.
Qed.

(** ** Recording on several resources *)

(** The usages and the index are those of before. *)
Definition same_usages (r r' : Resource) : Prop :=
  Usages r' = Usages r ∧ TTLIdx r' = TTLIdx r.

Lemma record_clear r ru r' : resource_ok r → recordUsage r ru = Ok r' →
  same_usages r (or_same r' (clearUsage r' (ru_ID ru))).
Proof.
  intros [Hnd Hidx] (Hn & [->|(ru' & Hid & _ & ->)])%recordUsage_inv.
  { unfold clearUsage. by rewrite Hn. }
  unfold clearUsage. simpl. rewrite lookup_insert_eq. simpl. split; simpl.
  - by rewrite delete_insert_id.
  - destruct (IsZero _); [done|]. apply remove_first_app.
    rewrite Hidx. intros (x & E & _). congruence.
Qed.

Lemma record_all_spec rs ru :
  let '(recorded, rest, e) := record_all rs ru in
  Forall2 (λ r r', recordUsage r ru = Ok r') (take (length recorded) rs) recorded ∧
  rest = drop (length recorded) rs ∧ e ≠ Panic ∧ (e = Ok () → rest = []).
Proof.
  induction rs as [|r rs IH]; simpl; [by repeat split|].
  destruct (recordUsage r ru) as [r'|e|] eqn:E; simpl; [|by repeat split|].
  - destruct (record_all rs ru) as [[recorded rest] e]. simpl. destruct IH as (Hf & -> & Hp & He).
    split_and!; [by constructor|done..].
  - unfold recordUsage in E. destruct (Usages r !! ru_ID ru); [done|].
    destruct (r_ttl r); repeat case_decide; done.
Qed.

(** C28: recording a usage on several resources is all or nothing: either every resource
    has recorded it, or all of them have the usages and the index they had before. *)
Theorem Resources_recordUsage_atomic (rs : list Resource) (ru : ResourceUsage) :
  Forall resource_ok rs →
  let '(e, rs') := Resources_recordUsage rs ru in
  match e with
  | Ok _ => Forall2 (λ r r', recordUsage r ru = Ok r') rs rs'
  | Err _ => Forall2 same_usages rs rs'
  | Panic => False
  end.
Proof.
  intros Hok. unfold Resources_recordUsage. pose proof (record_all_spec rs ru) as Hs.
  destruct (record_all rs ru) as [[recorded rest] e]. destruct Hs as (Hf & -> & Hp & He).
  set (n := length recorded) in *. destruct e as [[]|e|]; [|clear He|done].
  - rewrite He by done. rewrite app_nil_r.
    rewrite take_ge in Hf; [done|]. apply (f_equal length) in He; [|done].
    rewrite length_drop in He. simpl in He. lia.
  - rewrite <- (take_drop n rs) at 1. rewrite <- (take_drop n rs) in Hok.
    apply Forall_app in Hok as [Hok _]. apply Forall2_app; [|by apply Forall_Forall2_diag, Forall_true].
    apply Forall2_fmap_r. revert Hok Hf. generalize (take n rs). intros l Hok Hf. clear n.
    revert Hok. induction Hf as [|r r' l l' E Hf IH]; [constructor|].
    intros [Hr Hok]%Forall_cons. constructor; [by apply record_clear|by apply IH].
Qed.

(** ** The index stays right through an allocation *)

Lemma simulate_ok ru dryRun r msg : resource_ok r → resource_ok (simulate ru dryRun r msg).2.
Proof.
  intros Hok. unfold simulate. destruct (removeExpiredUnits r) as [r1|e|] eqn:E; [|done..].
  apply removeExpiredUnits_ok in E; [|done].
  set (r2 := if _ : bool then _ else _).
  assert (resource_ok r2) as Hok2 by (unfold r2; destruct (_ && _); [by apply or_same_clear_ok|done]).
  destruct (rPrf r2) as [prf|]; [|done]. unfold totalUsage.
  destruct (tUsage r2); simpl; [done|]. destruct Hok2. by split.
Qed.

Lemma simulate_all_ok ru dryRun rs msg :
  Forall resource_ok rs → Forall resource_ok (simulate_all ru dryRun rs msg).2.
Proof.
  revert msg. induction rs as [|r rs IH]; intros msg; simpl; [done|].
  intros [Hr Hrs]%Forall_cons. pose proof (simulate_ok ru dryRun r msg Hr) as Hs.
  destruct (simulate ru dryRun r msg) as [[m|e|] r']; simpl in *; [|by constructor..].
  specialize (IH m Hrs). destruct (simulate_all ru dryRun rs m). simpl in *. by constructor.
Qed.

Lemma Resources_recordUsage_ok rs ru :
  Forall resource_ok rs → Forall resource_ok (Resources_recordUsage rs ru).2.
Proof.
  intros Hok. unfold Resources_recordUsage. pose proof (record_all_spec rs ru) as Hs.
  destruct (record_all rs ru) as [[recorded rest] e]. destruct Hs as (Hf & -> & _).
  set (n := length recorded) in *. rewrite <- (take_drop n rs) in Hok.
  apply Forall_app in Hok as [Hok Hok'].
  assert (Forall resource_ok recorded) as Hrec.
  { revert Hok Hf. generalize (take n rs). intros l Hok Hf. clear n Hok'.
    revert Hok. induction Hf as [|r r' l l' E Hf IH]; [constructor|].
    intros [Hr Hok]%Forall_cons. constructor; [by eapply recordUsage_ok|by apply IH]. }
  destruct e; simpl; apply Forall_app; (split; [|done]); [done| |done].
  apply Forall_fmap. eapply Forall_impl; [exact Hrec|]. intros r Hr. by apply or_same_clear_ok.
Qed.

Lemma allocateResource_index rs ru dryRun :
  Forall resource_ok rs → Forall resource_ok (allocateResource rs ru dryRun).2.
Proof.
  intros Hok. unfold allocateResource. destruct rs as [|r rs]; [done|].
  pose proof (simulate_all_ok ru dryRun _ "" Hok) as Hs.
  destruct (simulate_all _ _ _ _) as [[m|e|] rs']; simpl in *; [|done..].
  case_decide; [done|]. destruct dryRun; [done|].
  pose proof (Resources_recordUsage_ok rs' ru Hs) as Hr.
  by destruct (Resources_recordUsage rs' ru).
Qed.

(** A resource through the calls that change it. *)
Inductive resources_step : list Resource → list Resource → Prop :=
  | step_allocate rs ru dryRun : resources_step rs (allocateResource rs ru dryRun).2
  | step_clear rs ruTntID : resources_step rs (Resources_clearUsage rs ruTntID).2.

(** C30: through any sequence of allocations and releases, failed ones included, the index
    of every resource lists exactly its usages with an expiry time, each once. *)
Theorem resources_index_invariant (rs rs' : list Resource) :
  Forall resource_ok rs → rtc resources_step rs rs' → Forall resource_ok rs'.
Proof.
  intros Hok Hs. induction Hs as [|rs rs1 rs2 Hs _ IH]; [done|]. apply IH.
  destruct Hs as [rs ru dryRun|rs id]; [by apply allocateResource_index|].
  simpl. apply Forall_fmap. eapply Forall_impl; [exact Hok|]. intros r. apply or_same_clear_ok.
Qed.

(** ** Integer units never exceed the limit *)

Definition units_Z (ru : ResourceUsage) : Z := f_to_int64 (ru_Units ru).
Definition integral (ru : ResourceUsage) : Prop :=
  ∃ z, 0 ≤ z < 2 ^ 53 ∧ ru_Units ru = f_of_Z z.
Definition units (usages : gmap string ResourceUsage) : Z := total units_Z usages.

Lemma integral_units ru : integral ru → ru_Units ru = f_of_Z (units_Z ru) ∧ 0 ≤ units_Z ru < 2 ^ 53.
Proof.
  intros (z & Hz & E). unfold units_Z. rewrite E, f_to_int64_exact; [done|].
  unfold exact_range. lia.
Qed.

(** The units are integers that add up to less than 2^53, and a cached total is right. *)
Record units_ok (r : Resource) : Prop := {
  uo_integral id ru : Usages r !! id = Some ru → integral ru;
  uo_small : units (Usages r) < 2 ^ 53;
  uo_cached tu : tUsage r = Some tu → tu = f_of_Z (units (Usages r))
}.

Lemma sum_exact (l : list (string * ResourceUsage)) a :
  Forall (λ kv, integral kv.2) l → 0 ≤ a →
  a + foldr (λ kv s, units_Z kv.2 + s) 0 l < 2 ^ 53 →
  foldl (λ tu kv, fadd tu (ru_Units kv.2)) (f_of_Z a) l =
    f_of_Z (a + foldr (λ kv s, units_Z kv.2 + s) 0 l).
Proof.
  revert a. induction l as [|[k ru] l IH]; intros a; simpl; [intros; f_equal; lia|].
  intros [Hru Hl]%Forall_cons Ha Hs. simpl in Hru. destruct (integral_units ru Hru) as [E Hz].
  assert (0 ≤ foldr (λ kv s, units_Z kv.2 + s) 0 l) as Hnn.
  { clear -Hl. induction Hl as [|[k ru] l Hr Hl IH]; simpl in *; [lia|].
    pose proof (integral_units ru Hr) as [_ ?]. lia. }
  rewrite E, fadd_exact by (unfold exact_range; lia). rewrite IH by (done || lia).
  f_equal. lia.
Qed.

Lemma sum_usages_exact r : units_ok r → sum_usages (Usages r) = f_of_Z (units (Usages r)).
Proof.
  intros [Hi Hs _]. unfold sum_usages, units in *. rewrite <- total_range in *.
  change f0 with (f_of_Z 0). rewrite sum_exact; [done| |done|done].
  apply Forall_forall. intros [k ru] Hin%go_range_elem. by apply (Hi k).
Qed.

Lemma totalUsage_exact r : units_ok r →
  (totalUsage r).1 = f_of_Z (units (Usages r)) ∧ units_ok (totalUsage r).2 ∧
  Usages (totalUsage r).2 = Usages r ∧ r_ttl (totalUsage r).2 = r_ttl r ∧
  rPrf (totalUsage r).2 = rPrf r.
Proof.
  intros Hok. pose proof (sum_usages_exact r Hok) as Hsum. destruct Hok as [Hi Hs Hc].
  unfold totalUsage. destruct (tUsage r) as [tu|] eqn:E; simpl.
  - split_and!; [by apply Hc|split; [done..|]|done..]. rewrite E. done.
  - split_and!; [done| |done..]. split; simpl; [done..|]. by intros tu [= <-].
Qed.

Lemma units_nonneg r : units_ok r → 0 ≤ units (Usages r).
Proof.
  intros [Hi _ _]. apply total_nonneg. intros k ru E. by apply integral_units, (Hi k).
Qed.

Lemma units_ok_delete r id idx tu :
  units_ok r →
  (∀ t, tu = Some t → t = f_of_Z (units (delete id (Usages r)))) →
  units_ok (with_usages r (delete id (Usages r)) idx tu).
Proof.
  intros [Hi Hs Hc] Ht. split; simpl; [| |exact Ht].
  - intros id' ru [_ E]%lookup_delete_Some. by apply (Hi id').
  - destruct (Usages r !! id) as [ru|] eqn:E; [|by rewrite delete_id].
    pose proof (total_delete units_Z (Usages r) id ru E). unfold units in *.
    pose proof (integral_units ru (Hi id ru E)) as [_ ?]. lia.
Qed.

Lemma units_delete_le r id : units_ok r → units (delete id (Usages r)) ≤ units (Usages r).
Proof.
  intros [Hi _ _]. destruct (Usages r !! id) as [ru|] eqn:E; [|by rewrite delete_id].
  pose proof (total_delete units_Z (Usages r) id ru E). unfold units in *.
  pose proof (integral_units ru (Hi id ru E)) as [_ ?]. lia.
Qed.

Lemma cached_less r id ru tu :
  units_ok r → Usages r !! id = Some ru → tUsage r = Some tu →
  fsub tu (ru_Units ru) = f_of_Z (units (delete id (Usages r))).
Proof.
  intros Hok Eu Etu. pose proof (units_nonneg r Hok) as Hnn.
  destruct Hok as [Hi Hs Hc]. destruct (integral_units ru (Hi id ru Eu)) as [E Hz].
  pose proof (total_delete units_Z (Usages r) id ru Eu) as Htot. fold (units (Usages r)) in Htot.
  fold (units (delete id (Usages r))) in Htot.
  rewrite (Hc tu Etu), E, fsub_exact by (unfold exact_range; lia). f_equal. lia.
Qed.

Lemma clearUsage_units r id r' : units_ok r → clearUsage r id = Ok r' → units_ok r'.
Proof.
  intros Hok E. unfold clearUsage in E. destruct (Usages r !! id) as [ru|] eqn:Eu; [|done].
  injection E as <-. apply units_ok_delete; [done|]. intros t Ht.
  apply fmap_Some in Ht as (tu & Etu & ->). by apply cached_less.
Qed.

Lemma drop_usage_units r rID r' : units_ok r → drop_usage r rID = Ok r' →
  units_ok r' ∧ units (Usages r') ≤ units (Usages r).
Proof.
  intros Hok E. unfold drop_usage in E. destruct (Usages r !! rID) as [ru|] eqn:Eu.
  - apply bind_ok_inv in E as (tu & Etu & E). injection E as <-.
    split; [|by apply units_delete_le]. apply units_ok_delete; [done|].
    intros t Ht. destruct (fltb _ _); [done|]. injection Ht as <-.
    apply cached_less; [done..|]. by destruct (tUsage r); simplify_eq/=.
  - by injection E as <-.
Qed.

Lemma removeExpiredUnits_units r r' : units_ok r → removeExpiredUnits r = Ok r' →
  units_ok r' ∧ units (Usages r') ≤ units (Usages r).
Proof.
  unfold removeExpiredUnits. intros Hok. destruct (expired_prefix _ _) as [|x prefix].
  { by intros [= <-]. }
  intros E. apply bind_ok_inv in E as (r1 & E1 & E). injection E as <-.
  assert (units_ok r1 ∧ units (Usages r1) ≤ units (Usages r)) as [[Hi Hs Hc] Hle]; [|by split; [split|]].
  revert r Hok E1. generalize (x :: prefix) as l. induction l as [|y l IH]; intros r Hok E1; simpl in E1.
  { by injection E1 as <-. }
  destruct (drop_usage r y) as [r2|e|] eqn:E2.
  - apply drop_usage_units in E2 as [Hok2 Hle2]; [|done].
    destruct (IH r2 Hok2 E1) as [? ?]. split; [done|lia].
  - by rewrite foldl_bind_Err in E1.
  - by rewrite foldl_bind_Panic in E1.
Qed.

Lemma recordUsage_units r ru r' :
  units_ok r → integral ru → units (Usages r) + units_Z ru < 2 ^ 53 → r_ttl r ≠ Some 0 →
  recordUsage r ru = Ok r' →
  units_ok r' ∧ units (Usages r') = units (Usages r) + units_Z ru ∧
  ru_Units <$> Usages r' !! ru_ID ru = Some (ru_Units ru).
Proof.
  intros Hok Hru Hlt Httl E. pose proof (units_nonneg r Hok) as Hnn.
  destruct (integral_units ru Hru) as [Eu Hz].
  pose proof (recordUsage_inv _ _ _ E) as (Hn & Hr).
  assert (∃ ru' idx, ru_Units ru' = ru_Units ru ∧
    r' = with_usages r (<[ru_ID ru := ru']> (Usages r)) idx
           ((λ tu, fadd tu (ru_Units ru)) <$> tUsage r)) as (ru' & idx & Hu & ->).
  { destruct Hr as [->|(ru' & _ & Hu & ->)]; [|by eauto].
    unfold recordUsage in E. rewrite Hn in E. destruct (r_ttl r) as [ttl|] eqn:Et.
    - repeat case_decide; [| congruence |]; injection E as E;
        apply (f_equal (λ r, Usages r !! ru_ID ru)) in E; simpl in E;
        rewrite lookup_insert_eq in E; congruence.
    - injection E as E. apply (f_equal (λ r, Usages r !! ru_ID ru)) in E. simpl in E.
      rewrite lookup_insert_eq in E. congruence. }
  assert (units (<[ru_ID ru := ru']> (Usages r)) = units (Usages r) + units_Z ru) as Hunits.
  { unfold units. rewrite total_insert by done. unfold units_Z. rewrite Hu. lia. }
  destruct Hok as [Hi Hs Hc]. split_and!; simpl; [|done|by rewrite lookup_insert_eq; simpl; f_equal].
  split; simpl; [|lia|].
  - intros id ru0. rewrite lookup_insert. case_decide; [|by apply (Hi id)].
    intros [= <-]. destruct Hru as (z & ? & ?). exists z. by rewrite Hu.
  - intros t (tu & Et & ->)%fmap_Some. rewrite (Hc tu Et), Eu, Hunits.
    apply fadd_exact; unfold exact_range; lia.
Qed.

(** The simulation of one resource with a profile: what it leaves, and the test that gives
    a message. *)
Lemma simulate_units r prf ru msg r' :
  units_ok r → rPrf r = Some prf → simulate ru false r "" = (Ok msg, r') →
  units_ok r' ∧ units (Usages r') ≤ units (Usages r) ∧ r_ttl r' = r_ttl r ∧
  (msg ≠ "" → fgeb (rp_Limit prf) (fadd (f_of_Z (units (Usages r'))) (ru_Units ru)) = true).
Proof.
  intros Hok Hprf. unfold simulate. destruct (removeExpiredUnits r) as [r1|e|] eqn:E1; [|done..].
  pose proof (removeExpiredUnits_spec r r1 E1) as (_ & Ht1 & Hp1 & _).
  apply removeExpiredUnits_units in E1 as [Hok1 Hle1]; [|done].
  set (r2 := if _ : bool then _ else _).
  assert (units_ok r2 ∧ units (Usages r2) ≤ units (Usages r1) ∧ r_ttl r2 = r_ttl r1 ∧
          rPrf r2 = rPrf r1) as (Hok2 & Hle2 & Ht2 & Hp2).
  { unfold r2. destruct (_ && _); [|done].
    destruct (clearUsage r1 (ru_ID ru)) as [r3|e|] eqn:E3; simpl; [|done..].
    pose proof (clearUsage_units _ _ _ Hok1 E3) as Hok3. unfold clearUsage in E3.
    destruct (Usages r1 !! ru_ID ru); [|done]. injection E3 as <-. simpl.
    split_and!; [done|by apply units_delete_le|done..]. }
  rewrite Hp2, Hp1, Hprf. destruct (totalUsage_exact r2 Hok2) as (Etot & Hok4 & Hu4 & Ht4 & _).
  destruct (totalUsage r2) as [tu r4]. simpl in *. intros [= Hmsg <-]. rewrite Hu4 in *.
  split_and!; [done|lia|congruence|]. intros Hne. rewrite <- Etot.
  destruct (fgeb (rp_Limit prf) (fadd tu (ru_Units ru))); [done|by subst msg].
Qed.

(** C29: with integer units an allocation on one resource respects its limit: when it
    succeeds, the usage is recorded with its units and all units together, those of the
    usage it replaces and of the expired ones taken off, are within the limit. *)
Theorem allocateResource_limit (r : Resource) (prf : ResourceProfile) (ru : ResourceUsage)
    (msg : string) (rs' : list Resource) :
  units_ok r → integral ru → units (Usages r) + units_Z ru < 2 ^ 53 →
  rPrf r = Some prf → r_ttl r ≠ Some 0 →
  allocateResource [r] ru false = (Ok msg, rs') →
  ∃ r', rs' = [r'] ∧ ru_Units <$> Usages r' !! ru_ID ru = Some (ru_Units ru) ∧
    fgeb (rp_Limit prf) (f_of_Z (units (Usages r'))) = true.
Proof.
  intros Hok Hru Hlt Hprf Httl. unfold allocateResource. simpl.
  destruct (simulate ru false r "") as [[m|e|] r1] eqn:Es; simpl; [|done..].
  apply (simulate_units _ prf) in Es as (Hok1 & Hle & Ht & Hm); [|done..].
  case_decide as Hne; [done|]. specialize (Hm Hne).
  unfold Resources_recordUsage. simpl.
  destruct (recordUsage r1 ru) as [r2|e|] eqn:Er; simpl; [|done..].
  intros [= <- <-]. apply recordUsage_units in Er as (Hok2 & Hu & Hin); [|done|done|lia|congruence].
  exists r2. split_and!; [done..|]. rewrite Hu.
  destruct (integral_units ru Hru) as [E Hz]. pose proof (units_nonneg r1 Hok1).
  rewrite E, fadd_exact in Hm by (unfold exact_range; lia). done.
Qed.

(** A resource that was just loaded, so that its total is not computed yet, and whose
    index starts with an expired usage, makes any allocation panic. *)
Theorem allocate_after_load_panics (r : Resource) (rs : list Resource) (ru0 ru : ResourceUsage)
    (id : string) (dryRun : bool) :
  tUsage r = None → head (TTLIdx r) = Some id → Usages r !! id = Some ru0 →
  isActive ru0 now = false →
  (allocateResource (r :: rs) ru dryRun).1 = Panic.
Proof.
  intros Ht Hh Hu Ha. unfold allocateResource. simpl. unfold simulate.
  assert (removeExpiredUnits r = Panic) as ->; [|done]. unfold removeExpiredUnits.
  destruct (TTLIdx r) as [|x idx]; [done|]. simpl in Hh. injection Hh as ->. simpl.
  unfold active_usage. rewrite Hu, Ha. simpl. unfold drop_usage at 2. rewrite Hu, Ht. simpl.
  by rewrite foldl_bind_Panic.
Qed.
End resources.

(** ** Examples *)
Definition example_profile (id : string) (limit : Z) : ResourceProfile :=
  mkResourceProfile "cgrates.org" id [] None (-1) (f_of_Z limit) "" false true f0 [].
Definition example_usage (id : string) (units : Z) : ResourceUsage :=
  mkResourceUsage "cgrates.org" id zero_time (f_of_Z units).
Definition example_resource (id : string) (limit : Z) (usages : list ResourceUsage) : Resource :=
  mkResource "cgrates.org" id (list_to_map (map (λ ru, (ru_ID ru, ru)) usages)) [] None None None
    (Some (example_profile id limit)).

Lemma empty_ok id limit : resource_ok (example_resource id limit []).
Proof.
  split; simpl; [constructor|]. intros x. split; [intros Hx; by apply elem_of_nil in Hx|].
  intros (ru & E & _). by rewrite lookup_empty in E.
Qed.

Example Resources_recordUsage_atomic_witness :
  let rs := [example_resource "r1" 10 []; example_resource "r2" 10 []] in
  let '(e, rs') := @Resources_recordUsage reference_filters rs (example_usage "u" 1) in
  match e with
  | Ok _ => Forall2 (λ r r', @recordUsage reference_filters r (example_usage "u" 1) = Ok r') rs rs'
  | Err _ => Forall2 same_usages rs rs'
  | Panic => False
  end.
Proof.
  apply (@Resources_recordUsage_atomic reference_filters
           [example_resource "r1" 10 []; example_resource "r2" 10 []] (example_usage "u" 1)).
  repeat constructor; simpl; try (intros Hx; by apply elem_of_nil in Hx);
    intros (ru & E & _); by rewrite lookup_empty in E.
Defined.

Example resources_index_invariant_witness :
  Forall resource_ok (@allocateResource reference_runtime reference_filters
                        [example_resource "r1" 10 []] (example_usage "u" 1) false).2.
Proof.
  apply (@resources_index_invariant reference_runtime reference_filters
           [example_resource "r1" 10 []]).
  - repeat constructor; simpl; try (intros Hx; by apply elem_of_nil in Hx);
      intros (ru & E & _); by rewrite lookup_empty in E.
  - apply rtc_once, step_allocate.
Defined.

Example allocateResource_limit_witness :
  ∃ r'', (@allocateResource reference_runtime reference_filters
           [example_resource "r1" 10 []] (example_usage "u" 3) false).2 = [r''] ∧
    ru_Units <$> Usages r'' !! "u" = Some (f_of_Z 3) ∧
    fgeb (f_of_Z 10) (f_of_Z (units (Usages r''))) = true.
Proof.
  apply (@allocateResource_limit reference_runtime reference_filters (example_resource "r1" 10 [])
           (example_profile "r1" 10) (example_usage "u" 3) "r1").
  - split; simpl; [intros id ru E; by rewrite lookup_empty in E|reflexivity|done].
  - exists 3. split; [lia|reflexivity].
  - reflexivity.
  - reflexivity.
  - done.
  - vm_compute. reflexivity.
Defined.

Example allocate_after_load_panics_witness :
  let ru0 := mkResourceUsage "cgrates.org" "old" (mkTime 1 UTC) f1 in
  let r := mkResource "cgrates.org" "r1" {["old" := ru0]} ["old"] None None None
             (Some (example_profile "r1" 10)) in
  (@allocateResource reference_runtime (filters_at (mkTime 2 UTC)) [r] (example_usage "u" 1) true).1
  = Panic.
Proof.
  apply (@allocate_after_load_panics reference_runtime (filters_at (mkTime 2 UTC)) _ []
           (mkResourceUsage "cgrates.org" "old" (mkTime 1 UTC) f1) (example_usage "u" 1) "old" true);
    reflexivity.
Defined.

(** An allocation for an ID that has one already releases the old one before it looks
    for room: when there is none it fails, and the old allocation is gone. *)
Theorem failed_update_releases :
  let r := example_resource "r1" 10 [example_usage "u" 8] in
  let '(m, rs) := @allocateResource reference_runtime reference_filters [r]
                    (example_usage "u" 11) false in
  m = Err ErrResourceUnavailable ∧ map (λ r, size (Usages r)) rs = [0%nat].
Proof. vm_compute. split; reflexivity. Qed.

(** One resource with room is enough: the others record the usage beyond their
    limits. *)
Theorem allocation_beyond_limit :
  let rs := [example_resource "r1" 10 []; example_resource "r2" 1 [example_usage "v" 1]] in
  let '(m, rs) := @allocateResource reference_runtime reference_filters rs
                    (example_usage "u" 5) false in
  m = Ok "r1" ∧ map (λ r, units (Usages r)) rs = [5; 6].
Proof. vm_compute. split; reflexivity. Qed.
