(* ===== verification/ResourceService.v ===== *)
(** * The service of the resources

    The handlers of [engine/resources.go] on the state they share: the resources of the
    cache and of the database, the matches remembered for an event, the resources waiting
    to be stored, the remembered answers of the calls, and the events sent to the
    thresholds.  The cached resources are the ones the handlers change.  Left out: locks,
    logging, the cache entries that expire, replication and remote databases, the backup
    goroutine around [storeResources]. *)
From S2P Require Import Prelude GoFloat GoStrings GoTime CoreUtils Values Filters Resources.

Record ServiceState := mkServiceState {
  ss_resources : gmap string Resource; ss_db : gmap string Resource;
  ss_events : gmap string (option (gmap string bool)); ss_stored : gset string;
  ss_rpc : gmap string string; ss_sent : list (list string * string * float64) }.

Record ArgRSv1ResourceUsage := mkArgRSv1ResourceUsage {
  arg_CGREvent : option CGREvent; arg_UsageID : string; arg_UsageTTL : option Z;
  arg_Units : float64 }.

Class ResourceData := {
  GetResourceProfile : string → string → res ResourceProfile;
  (** the error of saving a resource, and of reading its key *)
  SetResource_error : Resource → option string;
  GetResource_error : string → option string;
  rc_StoreInterval : Z; rc_StringIndexedFields : option (list string);
  rc_PrefixIndexedFields : option (list string); rc_IndexedSelects : bool;
  rc_NestedFields : bool; rc_thresholds : bool; rc_rpc_cache : bool
}.

Section service.
Context `{GoText} `{GoRuntime} `{FilterData} `{ResourceData}.

Definition put_resource (st : ServiceState) (r : Resource) : ServiceState :=
  mkServiceState (<[r_TenantID r := r]> (ss_resources st)) (ss_db st) (ss_events st)
    (ss_stored st) (ss_rpc st) (ss_sent st).
Definition put_resources (st : ServiceState) (rs : list Resource) : ServiceState :=
  foldl put_resource st rs.
Definition put_event (st : ServiceState) (evUUID : string) (ids : option (gmap string bool))
    : ServiceState :=
  mkServiceState (ss_resources st) (ss_db st) (<[evUUID := ids]> (ss_events st))
    (ss_stored st) (ss_rpc st) (ss_sent st).
Definition del_event (st : ServiceState) (evUUID : string) : ServiceState :=
  mkServiceState (ss_resources st) (ss_db st) (delete evUUID (ss_events st))
    (ss_stored st) (ss_rpc st) (ss_sent st).
Definition put_stored (st : ServiceState) (ids : gset string) : ServiceState :=
  mkServiceState (ss_resources st) (ss_db st) (ss_events st) ids (ss_rpc st) (ss_sent st).
Definition put_rpc (st : ServiceState) (key reply : string) : ServiceState :=
  mkServiceState (ss_resources st) (ss_db st) (ss_events st) (ss_stored st)
    (<[key := reply]> (ss_rpc st)) (ss_sent st).

(** What the database keeps: the exported fields. *)
Definition stored_form (r : Resource) : Resource :=
  mkResource (r_Tenant r) (r_ID r) (Usages r) (TTLIdx r) None None None None.

(** From the cache, or from the database into the cache. *)
Definition GetResource_cached (st : ServiceState) (tenant id : string)
    : res Resource * ServiceState :=
  let tntID := ConcatenatedKey [tenant; id] in
  match ss_resources st !! tntID, GetResource_error tntID, ss_db st !! tntID with
  | Some r, _, _ => (Ok r, st)
  | None, Some e, _ => (Err e, st)
  | None, None, Some r => (Ok r, put_resource st r)
  | None, None, None => (Err NOT_FOUND, st)
  end.

Definition with_dirty (r : Resource) (dirty : option bool) : Resource :=
  mkResource (r_Tenant r) (r_ID r) (Usages r) (TTLIdx r) (r_ttl r) (tUsage r) dirty (rPrf r).

(** Saves a dirty resource and loads it again into the cache, so that the cached one is
    another object than the one the handler has; [true] when that happened. *)
Definition StoreResource (st : ServiceState) (r : Resource)
    : res () * ServiceState * Resource * bool :=
  if negb (bool_decide (r_dirty r = Some true)) then (Ok (), st, r, false)
  else
    match SetResource_error r with
    | Some e => (Err e, st, r, false)
    | None =>
        let st := mkServiceState (ss_resources st) (<[r_TenantID r := stored_form r]> (ss_db st))
                    (ss_events st) (ss_stored st) (ss_rpc st) (ss_sent st) in
        match ss_resources st !! r_TenantID r, GetResource_error (r_TenantID r) with
        | None, _ => (Ok (), st, with_dirty r (Some false), false)
        | Some _, Some e => (Err e, st, r, false)
        | Some _, None =>
            (Ok (), put_resource st (stored_form r), with_dirty r (Some false), true)
        end
    end.

(** One task of backup: the resources waiting, until none is left, the failed ones put
    back at the end. *)
Fixpoint store_loop (fuel : nat) (st : ServiceState) (failedRIDs : list string)
    : ServiceState * list string :=
  match fuel, (go_range (gset_to_gmap () (ss_stored st))).*1 with
  | S fuel, rID :: _ =>
      let st := put_stored st (ss_stored st ∖ {[rID]}) in
      match ss_resources st !! rID with
      | None => store_loop fuel st failedRIDs
      | Some r =>
          let '(e, st, r, reloaded) := StoreResource st r in
          let st := if (reloaded : bool) then st else put_resource st r in
          store_loop fuel st (match e with Ok _ => failedRIDs | _ => failedRIDs ++ [rID] end)
      end
  | _, _ => (st, failedRIDs)
  end.
Definition storeResources (st : ServiceState) : ServiceState :=
  let '(st, failedRIDs) := store_loop (size (ss_stored st)) st [] in
  put_stored st (ss_stored st ∪ list_to_set failedRIDs).

(** The event sent, and the resource whose total is now computed. *)
Definition processThresholds (st : ServiceState) (r : Resource) : ServiceState * Resource :=
  let thIDs := default [] (rp_ThresholdIDs <$> rPrf r) in
  if negb rc_thresholds || bool_decide (thIDs = ["*none"]) then (st, r)
  else
    let '(tu, r) := totalUsage r in
    (mkServiceState (ss_resources st) (ss_db st) (ss_events st) (ss_stored st) (ss_rpc st)
       (ss_sent st ++ [(thIDs, r_ID r, tu)]), r).

(** ** The resources an event matches *)

Definition matched_resource (prf : ResourceProfile) (usageTTL : option Z) (r : Resource)
    : Resource :=
  mkResource (r_Tenant r) (r_ID r) (Usages r) (TTLIdx r)
    (match usageTTL with
     | Some ttl => if decide (ttl = 0) then r_ttl r else Some ttl
     | None => if 0 <=? rp_UsageTTL prf then Some (rp_UsageTTL prf) else r_ttl r
     end)
    (tUsage r)
    (if rp_Stored prf && bool_decide (r_dirty r = None) then Some false else r_dirty r)
    (Some prf).

Definition inactive_profile (prf : ResourceProfile) (ev : CGREvent) : bool :=
  match rp_ActivationInterval prf, ev_Time ev with
  | Some ai, Some t => negb (IsActiveAtTime ai t)
  | _, _ => false
  end.

(** The loop over the names.  The error that is left is the one of the last profile read;
    an error of a filter or of a resource ends the loop without being kept. *)
Fixpoint match_loop (ev : CGREvent) (usageTTL : option Z) (names : list string)
    (st : ServiceState) (matching : gmap string Resource) (err : res ())
    : res () * ServiceState * gmap string Resource :=
  match names with
  | [] => (err, st, matching)
  | resName :: names' =>
      match GetResourceProfile (ev_Tenant ev) resName with
      | Panic => (Panic, st, matching)
      | Err e => if decide (e = NOT_FOUND) then match_loop ev usageTTL names' st matching (Err e)
                 else (Err e, st, matching)
      | Ok prf =>
          if inactive_profile prf ev then match_loop ev usageTTL names' st matching (Ok ())
          else
            match FilterS_Pass (ev_Tenant ev) (rp_FilterIDs prf)
                    (storage_provider [("*req", IMap (ev_Event ev))]) with
            | Panic => (Panic, st, matching)
            | Err _ => (Ok (), st, matching)
            | Ok false => match_loop ev usageTTL names' st matching (Ok ())
            | Ok true =>
                let '(r, st) := GetResource_cached st (rp_Tenant prf) (rp_ID prf) in
                match r with
                | Panic => (Panic, st, matching)
                | Err _ => (Ok (), st, matching)
                | Ok r =>
                    let r := matched_resource prf usageTTL r in
                    match_loop ev usageTTL names' (put_resource st r)
                      (<[rp_ID prf := r]> matching) (Ok ())
                end
            end
      end
  end.

(** Up to the first blocker, included. *)
Fixpoint until_blocker (rs : list Resource) : list Resource :=
  match rs with
  | [] => []
  | r :: rs' => if default false (rp_Blocker <$> rPrf r) then [r] else r :: until_blocker rs'
  end.

Definition matchingResourcesForEvent (st : ServiceState) (ev : CGREvent) (evUUID : string)
    (usageTTL : option Z) : res (list Resource) * ServiceState :=
  let '(ids, isCached) :=
    match ss_events st !! evUUID with
    | Some None => (Err NOT_FOUND, true)
    | Some (Some rIDs) => (Ok rIDs, true)
    | None => (MatchingItemIDsForEvent (ev_Event ev) rc_StringIndexedFields rc_PrefixIndexedFields
                 "*resource_filter_indexes" "rsp_" (ev_Tenant ev) rc_IndexedSelects
                 rc_NestedFields, false)
    end in
  match ids with
  | Panic => (Panic, st)
  | Err e =>
      (Err e, if negb isCached && bool_decide (e = NOT_FOUND) then put_event st evUUID None else st)
  | Ok rIDs =>
      let '(err, st, matching) := match_loop ev usageTTL (go_range rIDs).*1 st ∅ (Ok ()) in
      match err with
      | Panic => (Panic, st)
      | Err e => (Err e, if (isCached : bool) then del_event st evUUID else st)
      | Ok _ =>
          let rs := until_blocker (Resources_Sort (go_range matching).*2) in
          (Ok rs, put_event st evUUID (Some (resIDsMp rs)))
      end
  end.

(** ** The calls *)

(** [MissingStructFields] for the tenant, the ID and the event, with the strings trimmed. *)
Definition trimmed (ev : CGREvent) : CGREvent :=
  mkCGREvent (TrimSpace (ev_Tenant ev)) (TrimSpace (ev_ID ev)) (ev_Time ev) (ev_Event ev).
Definition missing_fields (ev : CGREvent) : list string :=
  (if decide (ev_Tenant ev = "") then ["Tenant"] else []) ++
  (if decide (ev_ID ev = "") then ["ID"] else []) ++
  (match ev_Event ev with [] => ["Event"] | _ => [] end).

Definition checked_event (args : ArgRSv1ResourceUsage) : res CGREvent :=
  match arg_CGREvent args with
  | None => Err (NewErrMandatoryIeMissing ["Event"])
  | Some ev =>
      let ev := trimmed ev in
      match missing_fields ev with
      | [] => if decide (arg_UsageID args = "") then Err (NewErrMandatoryIeMissing ["UsageID"])
              else Ok ev
      | missing => Err (NewErrMandatoryIeMissing missing)
      end
  end.

(** The cache of answers.  The deferred call that fills it takes the error when it is
    deferred, which is none: what is remembered is the reply alone, still empty when the
    call fails. *)
Definition rpc_cached (method : string) (ev : CGREvent) (st : ServiceState)
    (body : ServiceState → res string * ServiceState) : res string * ServiceState :=
  if negb rc_rpc_cache then body st
  else
    let cacheKey := ConcatenatedKey [method; ev_TenantID ev] in
    match ss_rpc st !! cacheKey with
    | Some reply => (Ok reply, st)
    | None =>
        let '(r, st) := body st in
        (r, put_rpc st cacheKey (match r with Ok reply => reply | _ => "" end))
    end.

Definition service_call (method : string) (st : ServiceState) (args : ArgRSv1ResourceUsage)
    (body : CGREvent → ServiceState → res string * ServiceState) : res string * ServiceState :=
  match checked_event args with
  | Ok ev => rpc_cached method ev st (body ev)
  | Err e => (Err e, st)
  | Panic => (Panic, st)
  end.

Definition arg_usage (ev : CGREvent) (args : ArgRSv1ResourceUsage) : ResourceUsage :=
  mkResourceUsage (ev_Tenant ev) (arg_UsageID args) zero_time (arg_Units args).

(** The matching resources, passed on with the state. *)
Definition with_matching (st : ServiceState) (ev : CGREvent) (args : ArgRSv1ResourceUsage)
    (k : list Resource → ServiceState → res string * ServiceState) : res string * ServiceState :=
  let '(rs, st) := matchingResourcesForEvent st ev (arg_UsageID args) (arg_UsageTTL args) in
  match rs with
  | Ok rs => k rs st
  | Err e => (Err e, st)
  | Panic => (Panic, st)
  end.

Definition authorize_body (args : ArgRSv1ResourceUsage) (ev : CGREvent) (st : ServiceState)
    : res string * ServiceState :=
  with_matching st ev args (λ mtcRLs st,
    let '(m, mtcRLs) := allocateResource mtcRLs (arg_usage ev args) true in
    (match m with
     | Err e => Err (if decide (e = ErrResourceUnavailable) then "RESOURCE_UNAUTHORIZED" else e)
     | _ => m
     end, put_resources st mtcRLs)).
Definition V1AuthorizeResources (st : ServiceState) (args : ArgRSv1ResourceUsage)
    : res string * ServiceState :=
  service_call "ResourceSv1.AuthorizeResources" st args (authorize_body args).

(** Storing or marking one resource after an allocation. *)
Definition store_allocated (st : ServiceState) (r : Resource) : ServiceState :=
  if (rc_StoreInterval =? 0) || bool_decide (r_dirty r = None) then put_resource st r
  else
    let r := with_dirty r (Some true) in
    let st := put_resource st r in
    if rc_StoreInterval =? -1 then
      let '(_, st, r, reloaded) := StoreResource st r in
      let '(st', r') := processThresholds st r in
      if (reloaded : bool) then st' else put_resource st' r'
    else
      let '(st, r) := processThresholds (put_stored st (ss_stored st ∪ {[r_TenantID r]})) r in
      put_resource st r.

Definition allocate_body (args : ArgRSv1ResourceUsage) (ev : CGREvent) (st : ServiceState)
    : res string * ServiceState :=
  with_matching st ev args (λ mtcRLs st,
    let '(m, mtcRLs) := allocateResource mtcRLs (arg_usage ev args) false in
    let st := put_resources st mtcRLs in
    match m with
    | Ok alcMsg => (Ok alcMsg, foldl store_allocated st mtcRLs)
    | e => (e, st)
    end).
Definition V1AllocateResource (st : ServiceState) (args : ArgRSv1ResourceUsage)
    : res string * ServiceState :=
  service_call "ResourceSv1.AllocateResources" st args (allocate_body args).

(** Storing or marking one resource after a release: with an interval of -1 the resource
    is stored as it is, dirty or not. *)
Definition store_released (st : ServiceState) (r : Resource) : ServiceState :=
  let '(st, r, reloaded) :=
    match r_dirty r with
    | None => (st, r, false)
    | Some _ =>
        if rc_StoreInterval =? -1 then
          let '(_, st, r, reloaded) := StoreResource st r in (st, r, reloaded)
        else
          (put_stored st (ss_stored st ∪ {[r_TenantID r]}), with_dirty r (Some true), false)
    end in
  let '(st', r') := processThresholds st r in
  if (reloaded : bool) then st' else put_resource st' r'.

Definition release_body (args : ArgRSv1ResourceUsage) (ev : CGREvent) (st : ServiceState)
    : res string * ServiceState :=
  with_matching st ev args (λ mtcRLs st,
    let mtcRLs := (Resources_clearUsage mtcRLs (arg_UsageID args)).2 in
    (Ok "OK", foldl store_released (put_resources st mtcRLs) mtcRLs)).
Definition V1ReleaseResource (st : ServiceState) (args : ArgRSv1ResourceUsage)
    : res string * ServiceState :=
  service_call "ResourceSv1.ReleaseResources" st args (release_body args).

Definition V1GetResource (st : ServiceState) (tenant id : string)
    : res Resource * ServiceState :=
  let tenant := TrimSpace tenant in
  let id := TrimSpace id in
  match (if decide (tenant = "") then ["Tenant"] else []) ++
        (if decide (id = "") then ["ID"] else []) with
  | [] => GetResource_cached st tenant id
  | missing => (Err (NewErrMandatoryIeMissing missing), st)
  end.

(** ** Properties *)

(** C37: with the cache of answers a call that fails is remembered as one that succeeded:
    asked again, an authorization or an allocation that was refused is granted, with an
    empty message and without any resource being allocated. *)
Theorem refused_call_succeeds_when_repeated (st st1 st2 : ServiceState)
    (args : ArgRSv1ResourceUsage) (ev : CGREvent) (e1 e2 : string) :
  rc_rpc_cache = true → checked_event args = Ok ev → ss_rpc st = ∅ →
  V1AuthorizeResources st args = (Err e1, st1) →
  V1AllocateResource st args = (Err e2, st2) →
  V1AuthorizeResources st1 args = (Ok "", st1) ∧ V1AllocateResource st2 args = (Ok "", st2).
Proof.
  intros Hc Hev Hst. unfold V1AuthorizeResources, V1AllocateResource, service_call. rewrite Hev.
  unfold rpc_cached. rewrite Hc, Hst, !lookup_empty. simpl.
  destruct (authorize_body args ev st) as [r1 st1']. destruct (allocate_body args ev st) as [r2 st2'].
  intros [= -> <-] [= -> <-]. simpl. by rewrite !lookup_insert_eq.
Qed.

(** No cached resource is marked for storing. *)
Definition clean_resource (r : Resource) : Prop := r_dirty r ≠ Some true.
Definition clean (st : ServiceState) : Prop :=
  (∀ k r, ss_resources st !! k = Some r → clean_resource r) ∧
  (∀ k r, ss_db st !! k = Some r → clean_resource r).

Lemma clean_put st r : clean st → clean_resource r → clean (put_resource st r).
Proof.
  intros [Hc Hd] Hr. split; simpl; [|done]. intros k r'. rewrite lookup_insert.
  case_decide; [by intros [= <-]|apply Hc].
Qed.
Lemma clean_put_all st rs : clean st → Forall clean_resource rs → clean (put_resources st rs).
Proof.
  unfold put_resources. intros Hc Hrs. revert st Hc.
  induction Hrs as [|r rs Hr _ IH]; intros st Hc; simpl; [done|]. by apply IH, clean_put.
Qed.
Lemma put_all_db st rs : ss_db (put_resources st rs) = ss_db st.
Proof. unfold put_resources. revert st. induction rs as [|r rs IH]; intros st; simpl; [done|]. by rewrite IH. Qed.

Lemma matched_clean prf ttl r : clean_resource r → clean_resource (matched_resource prf ttl r).
Proof. unfold clean_resource. simpl. by destruct (_ && _). Qed.

Lemma match_loop_clean ev ttl names st matching err e st' matching' :
  match_loop ev ttl names st matching err = (e, st', matching') →
  clean st → (∀ k r, matching !! k = Some r → clean_resource r) →
  clean st' ∧ ss_db st' = ss_db st ∧ (∀ k r, matching' !! k = Some r → clean_resource r).
Proof.
  revert st matching err. induction names as [|n names IH]; intros st matching err; simpl.
  { by intros [= <- <- <-]. }
  destruct (GetResourceProfile _ _) as [prf|er|]; [|case_decide; [apply IH|by intros [= <- <- <-]]|
    by intros [= <- <- <-]].
  destruct (inactive_profile prf ev); [apply IH|].
  destruct (FilterS_Pass _ _ _) as [[]| |]; [|apply IH|by intros [= <- <- <-]..].
  unfold GetResource_cached. set (key := ConcatenatedKey _). intros E Hst Hm.
  assert (Hput : ∀ st0 r, clean st0 → ss_db st0 = ss_db st → clean_resource r →
    match_loop ev ttl names (put_resource st0 (matched_resource prf ttl r))
      (<[rp_ID prf := matched_resource prf ttl r]> matching) (Ok ()) = (e, st', matching') →
    clean st' ∧ ss_db st' = ss_db st ∧ (∀ k r, matching' !! k = Some r → clean_resource r)).
  { intros st0 r Hc0 Hdb Hr E'. rewrite <- Hdb. apply IH in E'; [done|..].
    - by apply clean_put, matched_clean.
    - intros k r'. rewrite lookup_insert. case_decide; [|apply Hm].
      intros [= <-]. by apply matched_clean. }
  destruct (ss_resources st !! key) as [r|] eqn:Er.
  { apply (Hput st r); [done|done| |done]. by apply (proj1 Hst key). }
  destruct (GetResource_error key); [by injection E as <- <- <-|].
  destruct (ss_db st !! key) as [r|] eqn:Ed; [|by injection E as <- <- <-].
  assert (clean_resource r) by by apply (proj2 Hst key).
  apply (Hput (put_resource st r) r); [by apply clean_put|done..].
Qed.

Lemma until_blocker_incl rs r : r ∈ until_blocker rs → r ∈ rs.
Proof.
  induction rs as [|r0 rs IH]; simpl; [done|]. destruct (default _ _).
  - intros ->%list_elem_of_singleton. by left.
  - intros [->|Hin]%elem_of_cons; [by left|right; by apply IH].
Qed.

Lemma matching_clean st ev uuid ttl m st' :
  matchingResourcesForEvent st ev uuid ttl = (m, st') → clean st →
  clean st' ∧ ss_db st' = ss_db st ∧ ∀ rs, m = Ok rs → Forall clean_resource rs.
Proof.
  unfold matchingResourcesForEvent. intros E Hst.
  destruct (match ss_events st !! uuid with Some _ => _ | None => _ end) as [[ids|e|] isCached].
  2: { injection E as <- <-. by destruct (_ && _). }
  2: by injection E as <- <-.
  destruct (match_loop _ _ _ _ _ _) as [[err st1] matching] eqn:Em.
  apply match_loop_clean in Em as ([Hc1 Hd1] & Hdb & Hm); [|done|by intros k r; rewrite lookup_empty].
  destruct err as [[]| |]; injection E as <- <-; [|by destruct isCached|done].
  split_and!; [by split|done|]. intros rs [= <-].
  apply Forall_forall. intros r Hin%until_blocker_incl. unfold Resources_Sort in Hin.
  rewrite go_sort_elem in Hin. apply list_elem_of_fmap in Hin as ([k r'] & -> & Hin%go_range_elem).
  by apply (Hm k).
Qed.

Lemma clearUsage_clean r id : clean_resource r → clean_resource (or_same r (clearUsage r id)).
Proof. unfold clean_resource, clearUsage. by destruct (Usages r !! id). Qed.

Lemma store_released_db st r : rc_StoreInterval = -1 → clean_resource r →
  ss_db (store_released st r) = ss_db st.
Proof.
  intros Hi Hr. unfold store_released. rewrite Hi. simpl.
  assert (∀ st r, ss_db (processThresholds st r).1 = ss_db st) as Hp.
  { intros st0 r0. unfold processThresholds. destruct (_ || _); [done|].
    by destruct (totalUsage r0). }
  unfold StoreResource. rewrite (bool_decide_eq_false_2 (r_dirty r = Some true)) by done. simpl.
  destruct (r_dirty r); simpl; pose proof (Hp st r);
    destruct (processThresholds st r) as [st' r']; done.
Qed.

(** With a store interval of -1, which is meant to store at once, a release never
    reaches the database: the resources are not marked as changed before they are
    stored. *)
Theorem release_is_not_stored (st : ServiceState) (args : ArgRSv1ResourceUsage) :
  rc_StoreInterval = -1 → clean st →
  ss_db (V1ReleaseResource st args).2 = ss_db st.
Proof.
  intros Hi Hst. unfold V1ReleaseResource, service_call.
  destruct (checked_event args) as [ev|e|]; [|done..].
  assert (ss_db (release_body args ev st).2 = ss_db st) as Hbody.
  { unfold release_body, with_matching.
    destruct (matchingResourcesForEvent _ _ _ _) as [m st1] eqn:Em; simpl.
    apply matching_clean in Em as (_ & Hdb & Hrs); [|done]. destruct m as [rs|e|]; [|done..].
    specialize (Hrs rs eq_refl). simpl. set (rs' := map _ rs).
    assert (Forall clean_resource rs') as Hrs'.
    { apply Forall_fmap. eapply Forall_impl; [exact Hrs|]. intros r. apply clearUsage_clean. }
    rewrite <- Hdb, <- (put_all_db st1 rs'). generalize (put_resources st1 rs').
    clear -Hrs' Hi. induction Hrs' as [|r l Hr _ IH]; intros s0; simpl; [done|].
    rewrite IH. by apply store_released_db. }
  unfold rpc_cached. destruct rc_rpc_cache; simpl; [|done].
  destruct (ss_rpc st !! _); simpl; [done|].
  destruct (release_body args ev st) as [m st']. done.
Qed.
End service.

(** ** Examples *)
Definition service_data (storeInterval : Z) : ResourceData := {|
  GetResourceProfile tenant id := Ok (example_profile id 1);
  SetResource_error r := None; GetResource_error id := None;
  rc_StoreInterval := storeInterval; rc_StringIndexedFields := None;
  rc_PrefixIndexedFields := None; rc_IndexedSelects := true; rc_NestedFields := false;
  rc_thresholds := false; rc_rpc_cache := true |}.

(** The event of usage "u" matches one resource, which is in the cache. *)
Definition example_state (r : Resource) : ServiceState :=
  mkServiceState {[r_TenantID r := r]} ∅ {["u" := Some {[r_ID r := true]}]} ∅ ∅ [].
Definition example_args (units : Z) : ArgRSv1ResourceUsage :=
  mkArgRSv1ResourceUsage
    (Some (mkCGREvent "cgrates.org" "ev1" None [("Account", IString "1001")])) "u" None
    (f_of_Z units).

Definition example_call {A}
    (call : GoText → GoRuntime → FilterData → ResourceData → ServiceState →
            ArgRSv1ResourceUsage → A) (units : Z) : A :=
  call reference_text reference_runtime reference_filters (service_data 0)
    (example_state (example_resource "r1" 1 [])) (example_args units).

Example refused_call_succeeds_when_repeated_witness :
  (example_call (@V1AuthorizeResources) 2).1 = Err "RESOURCE_UNAUTHORIZED" ∧
  (example_call (@V1AllocateResource) 2).1 = Err "RESOURCE_UNAVAILABLE" ∧
  let st1 := (example_call (@V1AuthorizeResources) 2).2 in
  let st2 := (example_call (@V1AllocateResource) 2).2 in
  @V1AuthorizeResources reference_text reference_runtime reference_filters (service_data 0) st1
    (example_args 2) = (Ok "", st1) ∧
  @V1AllocateResource reference_text reference_runtime reference_filters (service_data 0) st2
    (example_args 2) = (Ok "", st2).
Proof.
  split; [vm_compute; reflexivity|]. split; [vm_compute; reflexivity|].
  apply (@refused_call_succeeds_when_repeated reference_text reference_runtime reference_filters
           (service_data 0) (example_state (example_resource "r1" 1 [])) _ _ (example_args 2)
           (mkCGREvent "cgrates.org" "ev1" None [("Account", IString "1001")])
           "RESOURCE_UNAUTHORIZED" "RESOURCE_UNAVAILABLE");
    vm_compute; reflexivity.
Defined.

Example release_is_not_stored_witness :
  let st := example_state (with_dirty (example_resource "r1" 1 [example_usage "u" 1]) (Some false)) in
  map (λ kv, size (Usages kv.2)) (map_to_list (ss_resources
    (@V1ReleaseResource reference_text reference_runtime reference_filters (service_data (-1)) st
       (example_args 1)).2)) = [0%nat] ∧
  ss_db (@V1ReleaseResource reference_text reference_runtime reference_filters (service_data (-1))
           st (example_args 1)).2 = ss_db st.
Proof.
  split; [vm_compute; reflexivity|].
  apply (@release_is_not_stored reference_text reference_runtime reference_filters
           (service_data (-1))); [reflexivity|].
  split; simpl; intros k r E; [|by rewrite lookup_empty in E].
  apply lookup_singleton_Some in E as [_ <-]. discriminate.
Defined.
