(* ===== verification/Stateful.v ===== *)
(** * Computations on a state

    Operations of a component that keeps state, as functions from the state before to a
    result and the state after; an error or a panic ends a sequence and leaves the state
    as it is then.  Used by the files whose objects are shared by pointer. *)
From S2P Require Import Prelude.

Definition SM (S A : Type) : Type := S → res A * S.
#[export] Instance SM_ret {S} : MRet (SM S) := λ A a st, (Ok a, st).
#[export] Instance SM_bind {S} : MBind (SM S) := λ A B f m st,
  match m st with
  | (Ok a, st') => f a st'
  | (Err e, st') => (Err e, st')
  | (Panic, st') => (Panic, st')
  end.

Definition lift {S A} (m : res A) : SM S A := λ st, (m, st).
Definition fails {S A} (e : string) : SM S A := lift (Err e).
Definition gets {S A} (f : S → A) : SM S A := λ st, (Ok (f st), st).
Definition modify {S} (f : S → S) : SM S () := λ st, (Ok (), f st).
(** The error of a call after which the caller goes on. *)
Definition attempt {S A} (m : SM S A) : SM S (option string) := λ st,
  match m st with
  | (Ok _, st') => (Ok None, st')
  | (Err e, st') => (Ok (Some e), st')
  | (Panic, st') => (Panic, st')
  end.

(** Visits a slice from left to right. *)
Fixpoint visit {S A B} (f : B → A → SM S B) (acc : B) (l : list A) : SM S B :=
  match l with
  | [] => mret acc
  | x :: l' => acc ← f acc x; visit f acc l'
  end.

Section stateful.
Context {S : Type}.

Lemma bind_ok {A B} (m : SM S A) (f : A → SM S B) st b st' :
  (m ≫= f) st = (Ok b, st') → ∃ a st1, m st = (Ok a, st1) ∧ f a st1 = (Ok b, st').
Proof. unfold mbind, SM_bind. destruct (m st) as [[a|e|] st1]; [eauto|done..]. Qed.
Lemma run {A B} (m : SM S A) (f : A → SM S B) st a st1 :
  m st = (Ok a, st1) → (m ≫= f) st = f a st1.
Proof. intros E. unfold mbind, SM_bind. by rewrite E. Qed.
Lemma attempt_state {A} (m : SM S A) st : (attempt m st).2 = (m st).2.
Proof. unfold attempt. by destruct (m st) as [[a|e|] st']. Qed.

(** ** What computations keep

    A relation between the state before and after, whatever the outcome. *)
Definition along (R : relation S) {A} (m : SM S A) : Prop := ∀ st, R st (m st).2.

Context (R : relation S) `{!PreOrder R}.

Lemma along_bind {A B} (m : SM S A) (f : A → SM S B) :
  along R m → (∀ a, along R (f a)) → along R (m ≫= f).
Proof.
  intros Hm Hf st. specialize (Hm st). unfold mbind, SM_bind.
  destruct (m st) as [[a|e|] st1]; simpl in *; [|done..]. etrans; [exact Hm|apply Hf].
Qed.
Lemma along_attempt {A} (m : SM S A) : along R m → along R (attempt m).
Proof. intros Hm st. rewrite attempt_state. apply Hm. Qed.
Lemma along_lift {A} (m : res A) : along R (lift m).
Proof. intros st. simpl. reflexivity. Qed.
Lemma along_ret {A} (a : A) : along R (mret a).
Proof. intros st. simpl. reflexivity. Qed.
Lemma along_gets {A} (f : S → A) : along R (gets f).
Proof. intros st. simpl. reflexivity. Qed.
Lemma along_modify f : (∀ st, R st (f st)) → along R (modify f).
Proof. intros Hf st. apply Hf. Qed.
End stateful.

(** ** What computations achieve

    [returns m Q st]: started in [st], the computation returns a value, and the value and
    the state it leaves satisfy [Q]. *)
Section returns.
Context {S : Type}.

Definition returns {A} (m : SM S A) (Q : A → S → Prop) (st : S) : Prop :=
  match m st with (Ok a, st') => Q a st' | _ => False end.

Lemma returns_run {A} (m : SM S A) Q st :
  returns m Q st ↔ ∃ a st', m st = (Ok a, st') ∧ Q a st'.
Proof.
  unfold returns. destruct (m st) as [[a|e|] st']; split; try done; try (by intros (? & ? & ? & ?)).
  - eauto.
  - by intros (? & ? & [= -> ->] & ?).
Qed.
Lemma returns_bind {A B} (m : SM S A) (f : A → SM S B) Q st :
  returns (m ≫= f) Q st ↔ returns m (λ a st', returns (f a) Q st') st.
Proof. unfold returns, mbind, SM_bind. by destruct (m st) as [[]]. Qed.
Lemma returns_mono {A} (m : SM S A) (P Q : A → S → Prop) st :
  returns m P st → (∀ a st', P a st' → Q a st') → returns m Q st.
Proof. unfold returns. destruct (m st) as [[]]; naive_solver. Qed.
Lemma returns_seq {A B} (m : SM S A) (f : A → SM S B) P Q st :
  returns m P st → (∀ a st', P a st' → returns (f a) Q st') → returns (m ≫= f) Q st.
Proof. intros Hm Hf. apply returns_bind. eapply returns_mono; [exact Hm|exact Hf]. Qed.
Lemma returns_ret {A} (a : A) (Q : A → S → Prop) st : Q a st → returns (mret a) Q st.
Proof. done. Qed.
Lemma returns_lift {A} (m : res A) a (Q : A → S → Prop) st :
  m = Ok a → Q a st → returns (lift m) Q st.
Proof. by intros ->. Qed.
Lemma returns_modify f (Q : () → S → Prop) st : Q tt (f st) → returns (modify f) Q st.
Proof. done. Qed.

(** A slice is visited with an invariant on the part behind. *)
Lemma returns_visit {A B} (f : B → A → SM S B) (I : list A → B → S → Prop) l acc
    (Q : B → S → Prop) st :
  I [] acc st →
  (∀ done x rest b st', l = done ++ x :: rest → I done b st' →
     returns (f b x) (I (done ++ [x])) st') →
  (∀ b st', I l b st' → Q b st') →
  returns (visit f acc l) Q st.
Proof.
  intros H0 Hstep Hend.
  assert (∀ rest done b st', l = done ++ rest → I done b st' →
    returns (visit f b rest) (I l) st') as Hgo.
  { induction rest as [|x rest IH]; intros done b st' Hl Hi; simpl.
    - rewrite app_nil_r in Hl. by subst.
    - eapply returns_seq; [by eapply Hstep|]. intros b' st1 Hi'.
      eapply (IH (done ++ [x])); [|done]. by rewrite <- app_assoc. }
  eapply returns_mono; [by apply (Hgo l [])|]. exact Hend.
Qed.
End returns.

Create HintDb along.

(** Goes through a computation, leaving the basic steps that [along] has no lemma for. *)
Ltac along_steps :=
  repeat match goal with
    | |- along _ (mbind _ _) => apply along_bind; [apply _| |intros ?]
    | |- along _ (attempt _) => apply along_attempt
    | |- along _ (lift _) => apply along_lift, _
    | |- along _ (fails _) => apply along_lift, _
    | |- along _ (mret _) => apply along_ret, _
    | |- along _ (gets _) => apply along_gets, _
    | |- along _ (match ?x with _ => _ end) => destruct x
    | |- along _ _ => solve [auto with along typeclass_instances]
    end.

(** ** What values computations give

    [yields m P]: whenever the computation returns a value, it satisfies [P]. *)
Section yields.
Context {S : Type}.

Definition yields {A} (m : SM S A) (P : A → Prop) : Prop :=
  ∀ st a st', m st = (Ok a, st') → P a.

Lemma yields_any {A} (m : SM S A) : yields m (λ _, True).
Proof. done. Qed.
Lemma yields_mono {A} (m : SM S A) (P Q : A → Prop) : yields m P → (∀ a, P a → Q a) → yields m Q.
Proof. intros Hm HPQ st a st' E. eapply HPQ, Hm, E. Qed.
Lemma yields_ret {A} (a : A) (P : A → Prop) : P a → yields (mret a : SM S A) P.
Proof. by intros Ha st b st' [= <- _]. Qed.
Lemma yields_lift {A} (m : res A) (P : A → Prop) : (∀ a, m = Ok a → P a) → yields (lift m : SM S A) P.
Proof. intros Hm st a st' [= E _]. by apply Hm. Qed.
Lemma yields_bind {A B} (m : SM S A) (f : A → SM S B) (P : A → Prop) (Q : B → Prop) :
  yields m P → (∀ a, P a → yields (f a) Q) → yields (m ≫= f) Q.
Proof. intros Hm Hf st b st' (a & st1 & Ea & Eb)%bind_ok. eapply Hf; [by eapply Hm|exact Eb]. Qed.
Lemma yields_next {A B} (m : SM S A) (f : A → SM S B) (Q : B → Prop) :
  (∀ a, yields (f a) Q) → yields (m ≫= f) Q.
Proof. intros Hf. eapply yields_bind; [apply yields_any|auto]. Qed.
Lemma yields_fails {A} e (P : A → Prop) : yields (fails e : SM S A) P.
Proof. by intros st a st' [=]. Qed.
End yields.
