(* ===== verification/Thresholds.v ===== *)
(** * Thresholds

    [engine/thresholds.go]: thresholds that count the events they match and execute
    actions, the service that keeps them, and what [engine/datamanager.go] does for it.
    The thresholds loaded from the database are a store ([ts_heap], a pointer is a
    position), the cache holds pointers, or nothing for a threshold known to be missing,
    so an object that is matched, cached and waiting to be stored is one object.  An
    operation is a computation on that state.  Left out: locks, logging, the limits of
    the cache, replication and remote databases, the backup goroutine around
    [storeThresholds], and what the actions themselves change. *)
From S2P Require Import Prelude GoFloat GoStrings GoTime CoreUtils Values Filters Stateful.

Record ThresholdProfile := mkThresholdProfile {
  tp_Tenant : string; tp_ID : string; tp_FilterIDs : list string;
  tp_ActivationInterval : option ActivationInterval; tp_MaxHits : Z; tp_MinHits : Z;
  tp_MinSleep : Z; tp_Blocker : bool; tp_Weight : float64; tp_ActionIDs : list string;
  tp_Async : bool }.

Record Threshold := mkThreshold {
  th_Tenant : string; th_ID : string; Hits : Z; Snooze : Time;
  tPrfl : option ThresholdProfile; th_dirty : option bool }.

Definition th_TenantID (t : Threshold) : string := ConcatenatedKey [th_Tenant t; th_ID t].

(** The actions a threshold asks for: the set, the account, whether in a goroutine. *)
Record Execution := mkExecution {
  ex_ActionsID : string; ex_accountID : string; ex_Async : bool; ex_ExtraData : CGREvent }.

Record ArgsProcessEvent := mkArgsProcessEvent {
  arg_ThresholdIDs : list string; arg_CGREvent : option CGREvent;
  (** the map of the event is nil, not only empty *)
  arg_nilEvent : bool }.

(** [ts_clock] counts the readings of the clock. *)
Record ThresholdState := mkThresholdState {
  ts_heap : list Threshold; ts_cache : gmap string (option nat); ts_db : gmap string Threshold;
  ts_stored : gset string; ts_clock : nat; ts_executed : list Execution }.

Class ThresholdData := {
  GetThresholdProfile : string → string → res ThresholdProfile;
  (** the errors of the database, none for a threshold that is only missing *)
  GetThreshold_error : string → option string;
  SetThreshold_error : Threshold → option string;
  RemoveThreshold_error : string → option string;
  (** the error of an execution, after the ones before it *)
  Execute_error : list Execution → Execution → option string;
  (** what the readings of the clock give, in order *)
  time_now : nat → Time;
  tc_StoreInterval : Z; tc_StringIndexedFields : option (list string);
  tc_PrefixIndexedFields : option (list string); tc_IndexedSelects : bool;
  tc_NestedFields : bool
}.

Definition ErrPartiallyExecuted : string := "PARTIALLY_EXECUTED".

(** ** Computations on the state *)

#[local] Abbreviation M := (SM ThresholdState).

Definition set_heap (h : list Threshold) (st : ThresholdState) : ThresholdState :=
  mkThresholdState h (ts_cache st) (ts_db st) (ts_stored st) (ts_clock st) (ts_executed st).
Definition set_cache (c : gmap string (option nat)) (st : ThresholdState) : ThresholdState :=
  mkThresholdState (ts_heap st) c (ts_db st) (ts_stored st) (ts_clock st) (ts_executed st).
Definition set_db (d : gmap string Threshold) (st : ThresholdState) : ThresholdState :=
  mkThresholdState (ts_heap st) (ts_cache st) d (ts_stored st) (ts_clock st) (ts_executed st).
Definition set_stored (s : gset string) (st : ThresholdState) : ThresholdState :=
  mkThresholdState (ts_heap st) (ts_cache st) (ts_db st) s (ts_clock st) (ts_executed st).

Definition with_Hits (n : Z) (t : Threshold) : Threshold :=
  mkThreshold (th_Tenant t) (th_ID t) n (Snooze t) (tPrfl t) (th_dirty t).
Definition with_Snooze (s : Time) (t : Threshold) : Threshold :=
  mkThreshold (th_Tenant t) (th_ID t) (Hits t) s (tPrfl t) (th_dirty t).
Definition mark_dirty (d : bool) (t : Threshold) : Threshold :=
  mkThreshold (th_Tenant t) (th_ID t) (Hits t) (Snooze t) (tPrfl t) (Some d).
(** What the database keeps: the exported fields. *)
Definition exported (t : Threshold) : Threshold :=
  mkThreshold (th_Tenant t) (th_ID t) (Hits t) (Snooze t) None None.

(** Reading and changing the object a pointer points to. *)
Definition load (l : nat) : M Threshold := λ st, (deref (ts_heap st !! l), st).
Definition update (l : nat) (f : Threshold → Threshold) : M () :=
  modify (λ st, set_heap (alter f l (ts_heap st)) st).

Section thresholds.
Context `{GoText} `{GoRuntime} `{FilterData} `{ThresholdData}.

Definition time_Now : M Time := λ st,
  (Ok (time_now (ts_clock st)),
   mkThresholdState (ts_heap st) (ts_cache st) (ts_db st) (ts_stored st) (S (ts_clock st))
     (ts_executed st)).

(** ** The database and the cache *)

(** From the cache, or from the database into the cache, where a missing one is
    remembered as missing. *)
Definition GetThreshold (tenant id : string) (cacheRead : bool) : M nat := λ st,
  let tntID := ConcatenatedKey [tenant; id] in
  let put x := set_cache (<[tntID := x]> (ts_cache st)) in
  match (if cacheRead then ts_cache st !! tntID else None) with
  | Some (Some l) => (Ok l, st)
  | Some None => (Err NOT_FOUND, st)
  | None =>
      match GetThreshold_error tntID, ts_db st !! tntID with
      | Some e, _ => (Err e, if decide (e = NOT_FOUND) then put None st else st)
      | None, Some t =>
          let l := length (ts_heap st) in
          (Ok l, put (Some l) (set_heap (ts_heap st ++ [t]) st))
      | None, None => (Err NOT_FOUND, put None st)
      end
  end.

Definition SetThreshold (t : Threshold) : M () := λ st,
  match SetThreshold_error t with
  | Some e => (Err e, st)
  | None => (Ok (), set_db (<[th_TenantID t := exported t]> (ts_db st)) st)
  end.

Definition RemoveThreshold (tenant id : string) : M () := λ st,
  let key := ConcatenatedKey [tenant; id] in
  match RemoveThreshold_error key with
  | Some e => (Err e, st)
  | None => (Ok (), set_db (delete key (ts_db st)) st)
  end.

(** Loads a cached threshold again, and forgets one that is gone. *)
Definition CacheDataFromDB (dataID : string) : M () := λ st,
  match ts_cache st !! dataID with
  | None => (Ok (), st)
  | Some _ =>
      let tntID := NewTenantID dataID in
      match GetThreshold (tid_Tenant tntID) (tid_ID tntID) false st with
      | (Ok _, st') => (Ok (), st')
      | (Err e, st') =>
          if decide (e = NOT_FOUND) then (Ok (), set_cache (delete dataID (ts_cache st')) st')
          else (Err e, st')
      | (Panic, st') => (Panic, st')
      end
  end.

(** Saves a threshold that is dirty. *)
Definition StoreThreshold (l : nat) : M () :=
  t ← load l;
  if bool_decide (th_dirty t = Some true) then
    _ ← SetThreshold t; update l (mark_dirty false)
  else mret ().

(** One task of backup: the thresholds waiting until none is left, the failed ones put
    back at the end. *)
Fixpoint backup_loop (fuel : nat) (failedTdIDs : list string) : M (list string) := λ st,
  match fuel, (go_range (gset_to_gmap () (ts_stored st))).*1 with
  | S fuel, tID :: _ =>
      let st := set_stored (ts_stored st ∖ {[tID]}) st in
      match ts_cache st !! tID with
      | Some (Some l) =>
          (err ← attempt (StoreThreshold l);
           backup_loop fuel
             (match err with None => failedTdIDs | Some _ => failedTdIDs ++ [tID] end)) st
      | _ => backup_loop fuel failedTdIDs st
      end
  | _, _ => (Ok failedTdIDs, st)
  end.
Definition storeThresholds : M () := λ st,
  (failedTdIDs ← backup_loop (size (ts_stored st)) [];
   modify (λ st, set_stored (ts_stored st ∪ list_to_set failedTdIDs) st)) st.

(** ** Processing an event *)

(** The actions one after the other; the errors of the asynchronous ones are only
    logged. *)
Fixpoint execute_actions (ev : CGREvent) (acntID : string) (async : bool) (ids : list string)
    (err : res ()) : M () := λ st,
  match ids with
  | [] => (err, st)
  | id :: ids' =>
      let ex := mkExecution id acntID async ev in
      let errExec := Execute_error (ts_executed st) ex in
      execute_actions ev acntID async ids'
        (if negb async && bool_decide (is_Some errExec) then Err ErrPartiallyExecuted else err)
        (mkThresholdState (ts_heap st) (ts_cache st) (ts_db st) (ts_stored st) (ts_clock st)
           (ts_executed st ++ [ex]))
  end.

Definition account_key (ev : CGREvent) : string :=
  let acnt := match ev_FieldAsString ev "Account" with Ok acnt => acnt | _ => "" end in
  if decide (acnt = "") then "" else ConcatenatedKey [ev_Tenant ev; acnt].

Definition Threshold_ProcessEvent (l : nat) (ev : CGREvent) : M () :=
  t ← load l;
  nw ← time_Now;
  if After (Snooze t) nw then mret ()
  else
    prfl ← lift (deref (tPrfl t));
    if Hits t <? tp_MinHits prfl then mret ()
    else if negb (tp_MaxHits prfl =? -1) && (tp_MaxHits prfl <? Hits t) then mret ()
    else execute_actions ev (account_key ev) (tp_Async prfl) (tp_ActionIDs prfl) (Ok ()).

Definition remove_one_time (t : Threshold) : M bool :=
  e1 ← attempt (RemoveThreshold (th_Tenant t) (th_ID t));
  e2 ← attempt (CacheDataFromDB (th_TenantID t));
  mret (bool_decide (is_Some e1) || bool_decide (is_Some e2)).

Definition postpone (l : nat) (t : Threshold) (prfl : ThresholdProfile) : M () :=
  nw ← time_Now;
  _ ← update l (with_Snooze (Add nw (tp_MinSleep prfl)));
  _ ← update l (mark_dirty true);
  if tc_StoreInterval =? -1 then _ ← attempt (StoreThreshold l); mret ()
  else modify (λ st, set_stored (ts_stored st ∪ {[th_TenantID t]}) st).

(** One matched threshold: its name, and whether there were errors. *)
Definition process_threshold (ev : CGREvent) (l : nat) : M (string * bool) :=
  _ ← update l (λ t, with_Hits (add64 (Hits t) 1) t);
  err ← attempt (Threshold_ProcessEvent l ev);
  t ← load l;
  match err, th_dirty t with
  | Some _, _ => mret (th_ID t, true)
  | None, None => withErrors ← remove_one_time t; mret (th_ID t, withErrors)
  | None, Some _ =>
      prfl ← lift (deref (tPrfl t));
      if Hits t =? tp_MaxHits prfl then
        withErrors ← remove_one_time t; mret (th_ID t, withErrors)
      else _ ← postpone l t prfl; mret (th_ID t, false)
  end.

Fixpoint process_thresholds (ev : CGREvent) (ls : list nat) : M (list string * bool) :=
  match ls with
  | [] => mret ([], false)
  | l :: ls' =>
      r ← process_threshold ev l;
      rs ← process_thresholds ev ls';
      mret (r.1 :: rs.1, r.2 || rs.2)
  end.

(** ** The thresholds an event matches *)

Definition event_thresholds (args : ArgsProcessEvent) (ev : CGREvent) : res (list string) :=
  match arg_ThresholdIDs args with
  | [] =>
      tIDsMap ← MatchingItemIDsForEvent (ev_Event ev) tc_StringIndexedFields
                  tc_PrefixIndexedFields "*threshold_filter_indexes" "thp_" (ev_Tenant ev)
                  tc_IndexedSelects tc_NestedFields;
      Ok (go_range tIDsMap).*1
  | tIDs => Ok tIDs
  end.

Definition inactive_threshold (prf : ThresholdProfile) (ev : CGREvent) : bool :=
  match tp_ActivationInterval prf, ev_Time ev with
  | Some ai, Some t => negb (IsActiveAtTime ai t)
  | _, _ => false
  end.

(** The profile attached; not dirty unless the hits have reached the maximum. *)
Definition matched (prf : ThresholdProfile) (t : Threshold) : Threshold :=
  mkThreshold (th_Tenant t) (th_ID t) (Hits t) (Snooze t) (Some prf)
    (if bool_decide (th_dirty t = None) || (tp_MaxHits prf =? -1) || (Hits t <? tp_MaxHits prf)
     then Some false else th_dirty t).

Fixpoint match_thresholds (ev : CGREvent) (tIDs : list string) (matchingTs : gmap string nat)
    : M (gmap string nat) :=
  match tIDs with
  | [] => mret matchingTs
  | tID :: tIDs' =>
      match GetThresholdProfile (ev_Tenant ev) tID with
      | Panic => lift Panic
      | Err e => if decide (e = NOT_FOUND) then match_thresholds ev tIDs' matchingTs else fails e
      | Ok prf =>
          if inactive_threshold prf ev then match_thresholds ev tIDs' matchingTs
          else
            match FilterS_Pass (ev_Tenant ev) (tp_FilterIDs prf)
                    (storage_provider [("*req", IMap (ev_Event ev))]) with
            | Panic => lift Panic
            | Err e => fails e
            | Ok false => match_thresholds ev tIDs' matchingTs
            | Ok true =>
                l ← GetThreshold (tp_Tenant prf) (tp_ID prf) true;
                _ ← update l (matched prf);
                match_thresholds ev tIDs' (<[tp_ID prf := l]> matchingTs)
            end
      end
  end.

Definition profile_of (st : ThresholdState) (l : nat) : option ThresholdProfile :=
  ts_heap st !! l ≫= tPrfl.
Definition Thresholds_Sort (st : ThresholdState) (ts : list nat) : list nat :=
  go_sort (λ a b, fgtb (default f0 (tp_Weight <$> profile_of st a))
                       (default f0 (tp_Weight <$> profile_of st b))) ts.
(** Up to the first blocker, included. *)
Fixpoint up_to_blocker (st : ThresholdState) (ts : list nat) : list nat :=
  match ts with
  | [] => []
  | l :: ts' => if default false (tp_Blocker <$> profile_of st l) then [l]
                else l :: up_to_blocker st ts'
  end.

Definition sorted_up_to_blocker (ts : list nat) : M (list nat) := λ st,
  (Ok (up_to_blocker st (Thresholds_Sort st ts)), st).

Definition matchingThresholdsForEvent (args : ArgsProcessEvent) (ev : CGREvent) : M (list nat) :=
  tIDs ← lift (event_thresholds args ev);
  matchingTs ← match_thresholds ev tIDs ∅;
  sorted_up_to_blocker (go_range matchingTs).*2.

(** ** The calls *)

(** The names of the thresholds processed; they are dropped when there were errors. *)
Definition processEvent (args : ArgsProcessEvent) (ev : CGREvent) : M (list string) :=
  matchTs ← matchingThresholdsForEvent args ev;
  r ← process_thresholds ev matchTs;
  match r with
  | ([], _) => fails NOT_FOUND
  | (_, true) => fails ErrPartiallyExecuted
  | (thresholdsIDs, false) => mret thresholdsIDs
  end.

Definition checked_args (args : ArgsProcessEvent) : res CGREvent :=
  match arg_CGREvent args with
  | None => Err (NewErrMandatoryIeMissing ["CGREvent"])
  | Some ev =>
      let ev := mkCGREvent (TrimSpace (ev_Tenant ev)) (TrimSpace (ev_ID ev)) (ev_Time ev)
                  (ev_Event ev) in
      match (if decide (ev_Tenant ev = "") then ["Tenant"] else []) ++
            (if decide (ev_ID ev = "") then ["ID"] else []) with
      | [] => if arg_nilEvent args then Err (NewErrMandatoryIeMissing ["Event"]) else Ok ev
      | missing => Err (NewErrMandatoryIeMissing missing)
      end
  end.

Definition V1ProcessEvent (args : ArgsProcessEvent) : M (list string) :=
  ev ← lift (checked_args args); processEvent args ev.
Definition V1GetThresholdsForEvent (args : ArgsProcessEvent) : M (list nat) :=
  ev ← lift (checked_args args); matchingThresholdsForEvent args ev.
Definition V1GetThresholdIDs (tenant : string) : res (list string) :=
  let prfx := "thd_" +:+ tenant +:+ ":" in
  keys ← GetKeysForPrefix prfx; res_map (λ key, slice key (slen prfx) (slen key)) keys.
Definition V1GetThreshold (tenant id : string) : M Threshold :=
  l ← GetThreshold tenant id true; load l.

(** ** What the calls keep *)

Lemma along_load (R : relation ThresholdState) `{!PreOrder R} l : along R (load l).
Proof. intros st. simpl. reflexivity. Qed.
#[local] Hint Resolve along_load : along.

(** A cached threshold is cached under its own name, and so it is stored. *)
Definition well_named (st : ThresholdState) : Prop :=
  (∀ k l, ts_cache st !! k = Some (Some l) →
    ∃ t, ts_heap st !! l = Some t ∧ th_TenantID t = k) ∧
  (∀ k t, ts_db st !! k = Some t → th_TenantID t = k).
Definition keeps_names (st st' : ThresholdState) : Prop := well_named st → well_named st'.

#[local] Instance keeps_names_preorder : PreOrder keeps_names.
Proof. split; [by intros st Hw|]. intros st1 st2 st3 H12 H23 Hw. by apply H23, H12. Qed.

Lemma update_names l f : (∀ t, th_TenantID (f t) = th_TenantID t) →
  along keeps_names (update l f).
Proof.
  intros Hf st [Hc Hd]. split; [|done]. intros k l' Hk. simpl in *.
  destruct (Hc k l' Hk) as (t & Ht & Hn). rewrite list_lookup_alter.
  case_decide; [|by eauto]. exists (f t). subst. by rewrite Ht, Hf.
Qed.
Lemma clock_names : along keeps_names time_Now.
Proof. by intros st [Hc Hd]. Qed.
Lemma cache_names st k v : well_named st →
  (∀ l, v = Some l → ∃ t, ts_heap st !! l = Some t ∧ th_TenantID t = k) →
  well_named (set_cache (<[k := v]> (ts_cache st)) st).
Proof.
  intros [Hc Hd] Hv. split; [|done]. simpl. intros k' l. rewrite lookup_insert.
  case_decide as Ek; [|apply Hc]. intros [= ->]. subst k'. by apply Hv.
Qed.
Lemma GetThreshold_names tenant id read : along keeps_names (GetThreshold tenant id read).
Proof.
  intros st Hw. unfold GetThreshold. destruct (if read then _ else _) as [[l|]|]; [done..|].
  destruct (GetThreshold_error _) as [e|].
  { simpl. case_decide; [|done]. by apply cache_names. }
  destruct (ts_db st !! _) as [t|] eqn:Et; simpl; [|by apply cache_names].
  apply (cache_names (set_heap (ts_heap st ++ [t]) st)).
  - destruct Hw as [Hc Hd]. split; [|done]. simpl. intros k l Hk.
    destruct (Hc k l Hk) as (t' & Ht' & Hn). exists t'.
    split; [by apply lookup_app_l_Some|done].
  - intros l [= <-]. exists t. simpl. rewrite list_lookup_middle by done.
    split; [done|]. by apply (proj2 Hw).
Qed.
Lemma SetThreshold_names t : along keeps_names (SetThreshold t).
Proof.
  intros st [Hc Hd]. unfold SetThreshold. destruct (SetThreshold_error t); [done|].
  split; [done|]. simpl. intros k t'. rewrite lookup_insert.
  case_decide as Ek; [|apply Hd]. by intros [= <-].
Qed.
Lemma StoreThreshold_names l : along keeps_names (StoreThreshold l).
Proof.
  unfold StoreThreshold. along_steps; [apply SetThreshold_names|by apply update_names].
Qed.
Lemma RemoveThreshold_names tenant id : along keeps_names (RemoveThreshold tenant id).
Proof.
  intros st [Hc Hd]. unfold RemoveThreshold. destruct (RemoveThreshold_error _); [done|].
  split; [done|]. simpl. intros k t [_ Ht]%lookup_delete_Some. by apply Hd.
Qed.
Lemma CacheDataFromDB_names k : along keeps_names (CacheDataFromDB k).
Proof.
  intros st Hw. unfold CacheDataFromDB. destruct (ts_cache st !! k); [|done].
  pose proof (GetThreshold_names (tid_Tenant (NewTenantID k)) (tid_ID (NewTenantID k)) false
                st Hw) as Hw'.
  destruct (GetThreshold _ _ _ st) as [[l|e|] st1]; simpl in *; [done| |done].
  case_decide; [|done]. destruct Hw' as [Hc Hd]. split; [|done]. simpl.
  intros k' l [_ Hl]%lookup_delete_Some. by apply Hc.
Qed.
Lemma execute_actions_names ev acnt async ids err :
  along keeps_names (execute_actions ev acnt async ids err).
Proof.
  revert err. induction ids as [|id ids IH]; intros err st Hw; simpl; [done|]. by apply IH.
Qed.

(** The database, the names waiting and the hits are as before; only copies of stored
    thresholds are new. *)
Definition only_loads (st st' : ThresholdState) : Prop :=
  ts_executed st' = ts_executed st ∧ ts_db st' = ts_db st ∧ ts_stored st' = ts_stored st ∧
  ts_clock st' = ts_clock st ∧
  ∀ l t, ts_heap st !! l = Some t → ∃ t', ts_heap st' !! l = Some t' ∧
    th_TenantID t' = th_TenantID t ∧ Hits t' = Hits t ∧ Snooze t' = Snooze t.

#[local] Instance only_loads_preorder : PreOrder only_loads.
Proof.
  split; [by intros st; split_and!; eauto|].
  intros st1 st2 st3 (He & Hd & Hs & Hc & Hl) (He' & Hd' & Hs' & Hc' & Hl').
  split_and!; [congruence..|]. intros l t Ht.
  destruct (Hl l t Ht) as (t' & Ht' & ? & ? & ?). destruct (Hl' l t' Ht') as (t'' & ? & ? & ? & ?).
  exists t''. split_and!; congruence.
Qed.
Lemma GetThreshold_loads tenant id read : along only_loads (GetThreshold tenant id read).
Proof.
  intros st. unfold GetThreshold. destruct (if read then _ else _) as [[l|]|]; [done..|].
  destruct (GetThreshold_error _) as [e|]; simpl.
  { case_decide; [|done]. split_and!; eauto. }
  destruct (ts_db st !! _) as [t|]; split_and!; simpl; eauto.
  intros l t' Ht'. exists t'. split; [by apply lookup_app_l_Some|done].
Qed.
Lemma matched_loads l prf : along only_loads (update l (matched prf)).
Proof.
  intros st. split_and!; try done. intros l' t Ht. simpl. rewrite list_lookup_alter.
  case_decide; [subst; rewrite Ht|]; simpl; eauto.
Qed.

Lemma match_thresholds_along (R : relation ThresholdState) `{!PreOrder R} ev tIDs m :
  (∀ tenant id, along R (GetThreshold tenant id true)) →
  (∀ l prf, along R (update l (matched prf))) →
  along R (match_thresholds ev tIDs m).
Proof.
  intros Hg Hu. revert m. induction tIDs as [|tID tIDs IH]; intros m; simpl; [by apply along_ret|].
  along_steps; try done; by apply along_lift.
Qed.
Lemma matching_along (R : relation ThresholdState) `{!PreOrder R} args ev :
  (∀ tenant id, along R (GetThreshold tenant id true)) →
  (∀ l prf, along R (update l (matched prf))) →
  along R (matchingThresholdsForEvent args ev).
Proof.
  intros Hg Hu. unfold matchingThresholdsForEvent. along_steps; [by apply match_thresholds_along|].
  intros st. simpl. reflexivity.
Qed.
Lemma matching_names args ev : along keeps_names (matchingThresholdsForEvent args ev).
Proof.
  apply matching_along; [apply _|intros; apply GetThreshold_names|].
  intros. by apply update_names.
Qed.
Lemma matching_loads args ev : along only_loads (matchingThresholdsForEvent args ev).
Proof.
  apply matching_along; [apply _|intros; apply GetThreshold_loads|apply matched_loads].
Qed.

Lemma key_inj tenant id id' :
  ConcatenatedKey [tenant; id] = ConcatenatedKey [tenant; id'] → id = id'.
Proof.
  unfold ConcatenatedKey. rewrite !(Join_cons _ tenant), !Join_single by done.
  by intros ?%(inj _)%(inj _).
Qed.

(** The profiles of the database carry the names they are found by. *)
Definition profiles_named : Prop := ∀ tenant id prf,
  GetThresholdProfile tenant id = Ok prf → tp_Tenant prf = tenant ∧ tp_ID prf = id.

Definition tp_TenantID (prf : ThresholdProfile) : string :=
  ConcatenatedKey [tp_Tenant prf; tp_ID prf].

(** The cached threshold of a profile, with the profile attached to it. *)
Definition attached (st : ThresholdState) (prf : ThresholdProfile) (l : nat) : Prop :=
  ts_cache st !! tp_TenantID prf = Some (Some l) ∧
  ∃ t, ts_heap st !! l = Some t ∧ tPrfl t = Some prf ∧
    (tp_MaxHits prf = -1 → th_dirty t = Some false).

Lemma GetThreshold_attached st tenant id l st1 prf l' :
  GetThreshold tenant id true st = (Ok l, st1) → attached st prf l' → attached st1 prf l'.
Proof.
  unfold GetThreshold. intros E (Hk & t & Ht & Hp & Hd).
  destruct (ts_cache st !! ConcatenatedKey [tenant; id]) as [[l0|]|] eqn:Ec;
    [by injection E as <- <-; split; eauto|done|].
  destruct (GetThreshold_error _); [done|]. destruct (ts_db st !! _) as [t0|]; [|done].
  injection E as <- <-. split; simpl.
  - rewrite lookup_insert_ne; [done|]. intros Ek. by rewrite Ek, Hk in Ec.
  - exists t. split_and!; [by apply lookup_app_l_Some|done..].
Qed.
Lemma GetThreshold_cached st tenant id l st1 :
  GetThreshold tenant id true st = (Ok l, st1) →
  ts_cache st1 !! ConcatenatedKey [tenant; id] = Some (Some l).
Proof.
  unfold GetThreshold. destruct (ts_cache st !! _) as [[l0|]|] eqn:Ec; [by intros [= <- <-]|done|].
  destruct (GetThreshold_error _); [done|]. destruct (ts_db st !! _) as [t0|]; [|done].
  intros [= <- <-]. simpl. by rewrite lookup_insert_eq.
Qed.

(** Attaching a profile leaves those attached to other thresholds. *)
Lemma matched_attached st prf l prf' l' : well_named st →
  ts_cache st !! tp_TenantID prf = Some (Some l) →
  (attached st prf' l' ∧ tp_TenantID prf' ≠ tp_TenantID prf) ∨ (prf' = prf ∧ l' = l) →
  attached (update l (matched prf) st).2 prf' l'.
Proof.
  intros [Hw _] Hl. destruct (Hw _ _ Hl) as (t & Ht & Hn). intros [[(Hl' & t' & Ht' & Hp & Hd) Hne]|[-> ->]].
  - split; [done|]. exists t'. simpl. rewrite list_lookup_alter_ne; [done|]. intros ->.
    destruct (Hw _ _ Hl') as (t0 & Ht0 & Hn0). congruence.
  - split; [done|]. simpl. rewrite list_lookup_alter_eq, Ht. eexists. split_and!; [done..|].
    simpl. intros ->. by rewrite orb_true_r.
Qed.

Definition passes (ev : CGREvent) (id : string) (prf : ThresholdProfile) : Prop :=
  GetThresholdProfile (ev_Tenant ev) id = Ok prf ∧ inactive_threshold prf ev = false ∧
  FilterS_Pass (ev_Tenant ev) (tp_FilterIDs prf)
    (storage_provider [("*req", IMap (ev_Event ev))]) = Ok true.

Definition matching_ok (ev : CGREvent) (ids : list string) (m : gmap string nat)
    (st : ThresholdState) : Prop :=
  (∀ id l, m !! id = Some l → ∃ prf, id ∈ ids ∧ passes ev id prf ∧ attached st prf l) ∧
  (∀ id prf, id ∈ ids → passes ev id prf → is_Some (m !! id)).

Lemma matching_ok_skip ev ids id m st :
  (∀ prf, ¬ passes ev id prf) → matching_ok ev ids m st → matching_ok ev (ids ++ [id]) m st.
Proof.
  intros Hno [Hm1 Hm2]. split.
  - intros id' l Hid. destruct (Hm1 id' l Hid) as (prf & ? & ? & ?). exists prf. set_solver.
  - intros id' prf [Hin| ->%list_elem_of_singleton]%elem_of_app Hp; [by eapply Hm2|by apply Hno in Hp].
Qed.
Lemma matching_ok_add ev ids id prf l m st st1 st2 :
  profiles_named → well_named st1 → passes ev id prf →
  GetThreshold (tp_Tenant prf) (tp_ID prf) true st = (Ok l, st1) →
  update l (matched prf) st1 = (Ok (), st2) →
  matching_ok ev ids m st → matching_ok ev (ids ++ [id]) (<[tp_ID prf := l]> m) st2.
Proof.
  intros Hk Hw1 Hp Eg Eu [Hm1 Hm2]. destruct (Hk _ _ _ (proj1 Hp)) as [Et Eid].
  assert (Hat : ∀ prf' l', (attached st prf' l' ∧ tp_TenantID prf' ≠ tp_TenantID prf) ∨
      (prf' = prf ∧ l' = l) → attached st2 prf' l').
  { intros prf' l' Hor. replace st2 with (update l (matched prf) st1).2 by by rewrite Eu.
    apply matched_attached; [done| |].
    - by apply GetThreshold_cached in Eg.
    - destruct Hor as [[Ha Hne]|[-> ->]]; [left|by right].
      split; [by eapply GetThreshold_attached|done]. }
  rewrite Eid. split.
  - intros id' l'. rewrite lookup_insert. case_decide as Hid.
    + intros [= <-]. subst id'. exists prf. split_and!; [set_solver|done..|]. apply Hat. by right.
    + intros Hl'. destruct (Hm1 id' l' Hl') as (prf' & Hin & Hp' & Ha).
      exists prf'. split_and!; [set_solver|done..|]. apply Hat. left. split; [done|].
      destruct (Hk _ _ _ (proj1 Hp')) as [Et' Eid'].
      unfold tp_TenantID. rewrite Et, Et', Eid, Eid'. by intros ?%key_inj.
  - intros id' prf' Hin Hp'. rewrite lookup_insert. case_decide; [by eexists|].
    apply (Hm2 id' prf'); [|done]. apply elem_of_app in Hin as [| ->%list_elem_of_singleton]; done.
Qed.
Lemma match_thresholds_spec ev tIDs ids m st m' st' :
  profiles_named → match_thresholds ev tIDs m st = (Ok m', st') → well_named st →
  matching_ok ev ids m st → matching_ok ev (ids ++ tIDs) m' st'.
Proof.
  intros Hk. revert ids m st. induction tIDs as [|tID tIDs IH]; intros ids m st E Hw Hm; simpl in E.
  { injection E as <- <-. by rewrite app_nil_r. }
  rewrite cons_middle, assoc by apply _.
  destruct (GetThresholdProfile (ev_Tenant ev) tID) as [prf|e|] eqn:Eprf; [|case_decide|]; try done.
  2: { eapply IH; [done..|]. apply matching_ok_skip; [|done]. intros prf (? & _). congruence. }
  destruct (inactive_threshold prf ev) eqn:Ei.
  { eapply IH; [done..|]. apply matching_ok_skip; [|done]. intros prf' (? & ? & _). congruence. }
  destruct (FilterS_Pass _ _ _) as [[]|e|] eqn:Ef; try done.
  2: { eapply IH; [done..|]. apply matching_ok_skip; [|done]. intros prf' (? & _ & ?). congruence. }
  apply bind_ok in E as (l & st1 & Eg & E). apply bind_ok in E as ([] & st2 & Eu & E).
  assert (well_named st1) as Hw1.
  { pose proof (GetThreshold_names (tp_Tenant prf) (tp_ID prf) true st Hw) as Hw1. by rewrite Eg in Hw1. }
  eapply IH; [done| |by eapply matching_ok_add].
  pose proof (update_names l (matched prf) (λ t, eq_refl) st1 Hw1) as Hw2. by rewrite Eu in Hw2.
Qed.

Definition blocks (st : ThresholdState) (l : nat) : Prop :=
  default false (tp_Blocker <$> profile_of st l) = true.

Lemma up_to_blocker_prefix st ls : ∃ rest, ls = up_to_blocker st ls ++ rest ∧
  (rest = [] ∨ ∃ b, last (up_to_blocker st ls) = Some b ∧ blocks st b).
Proof.
  induction ls as [|l ls (rest & Hls & Hr)]; simpl; [exists []; by auto|].
  destruct (default _ _) eqn:Eb; [exists ls; split; [done|]; right; by exists l|].
  exists rest. split; [simpl; by rewrite <- Hls|]. destruct Hr as [|(b & Hb & Hbl)]; [by left|].
  right. exists b. split; [|done]. by rewrite last_cons, Hb.
Qed.
Lemma up_to_blocker_open st ls pre l post :
  up_to_blocker st ls = pre ++ l :: post → post ≠ [] → ¬ blocks st l.
Proof.
  revert pre. induction ls as [|l0 ls IH]; intros pre; simpl; [by destruct pre|].
  destruct (default _ _) eqn:Eb.
  - destruct pre as [|? [|]]; [by intros [= <- <-]|done..].
  - destruct pre as [|l1 pre]; simpl; intros [= -> E]; [|by eapply IH].
    unfold blocks. by rewrite Eb.
Qed.

Definition weight_of (st : ThresholdState) (l : nat) : float64 :=
  default f0 (tp_Weight <$> profile_of st l).
Lemma Thresholds_Sort_sorted st ls :
  (∀ l, l ∈ ls → is_nan (weight_of st l) = false) →
  StronglySorted (λ a b, fgtb (weight_of st b) (weight_of st a) = false) (Thresholds_Sort st ls).
Proof.
  intros Hn. apply go_sort_sorted. fold (weight_of st). unfold fgtb. split.
  - intros a b _ _. apply fltb_asym.
  - intros a b c _ Hb _ Hba Hcb. by eapply fltb_negtrans; [apply (Hn b)|..].
Qed.

Lemma attached_profile st prf l : attached st prf l → profile_of st l = Some prf.
Proof. intros (_ & t & Ht & Hp & _). unfold profile_of. by rewrite Ht. Qed.
Lemma attached_weight st prf l : attached st prf l → weight_of st l = tp_Weight prf.
Proof. intros Ha%attached_profile. unfold weight_of. by rewrite Ha. Qed.

Lemma matching_result args ev st ts st' :
  profiles_named → well_named st → matchingThresholdsForEvent args ev st = (Ok ts, st') →
  ∃ tIDs m, event_thresholds args ev = Ok tIDs ∧ matching_ok ev tIDs m st' ∧
    ts = up_to_blocker st' (Thresholds_Sort st' (go_range m).*2).
Proof.
  intros Hk Hw E. unfold matchingThresholdsForEvent in E.
  apply bind_ok in E as (tIDs & st1 & E1 & E). injection E1 as E1 <-.
  apply bind_ok in E as (m & st2 & E2 & E). injection E as <- <-.
  exists tIDs, m. split_and!; [done| |done].
  apply (match_thresholds_spec ev tIDs [] ∅ st); [done..|]. split.
  - intros id l. by rewrite lookup_empty.
  - intros id prf Hin. by apply not_elem_of_nil in Hin.
Qed.
Lemma matching_elem (m : gmap string nat) st l :
  l ∈ Thresholds_Sort st (go_range m).*2 ↔ ∃ id, m !! id = Some l.
Proof.
  unfold Thresholds_Sort. rewrite go_sort_elem, list_elem_of_fmap. split.
  - intros ([id l'] & -> & Hin%go_range_elem). by exists id.
  - intros [id Hid]. exists (id, l). split; [done|]. by apply go_range_elem.
Qed.
(** Thresholds of different names are different objects. *)
Lemma matching_NoDup ev ids m st : profiles_named → well_named st → matching_ok ev ids m st →
  NoDup (Thresholds_Sort st (go_range m).*2).
Proof.
  intros Hk [Hw _] [Hm _]. unfold Thresholds_Sort. rewrite go_sort_perm.
  assert (NoDup (go_range m)) as Hnd by (rewrite go_range_perm; apply NoDup_map_to_list).
  apply NoDup_fmap_2_strong; [|done].
  intros [id l] [id' l'] Hin%go_range_elem Hin'%go_range_elem. simpl. intros <-.
  destruct (Hm _ _ Hin) as (prf & _ & Hp & Ha & _).
  destruct (Hm _ _ Hin') as (prf' & _ & Hp' & Ha' & _).
  destruct (Hw _ _ Ha) as (t & Ht & Hn). destruct (Hw _ _ Ha') as (t' & Ht' & Hn').
  destruct (Hk _ _ _ (proj1 Hp)) as [Et Eid]. destruct (Hk _ _ _ (proj1 Hp')) as [Et' Eid'].
  f_equal. apply (key_inj (ev_Tenant ev)). rewrite <- Et at 1. rewrite <- Et', <- Eid, <- Eid'.
  fold (tp_TenantID prf) (tp_TenantID prf'). congruence.
Qed.

(** ** Properties *)

(** C31: which thresholds an event reaches: each is active and its filters pass; they come by
    descending weight, none twice; none but the last is a blocker; and one that is active
    and passes is left out only after a blocker that is not lighter. *)
Theorem matching_thresholds (args : ArgsProcessEvent) (ev : CGREvent) (st st' : ThresholdState)
    (ts : list nat) :
  profiles_named → well_named st →
  (∀ id prf, passes ev id prf → is_nan (tp_Weight prf) = false) →
  matchingThresholdsForEvent args ev st = (Ok ts, st') →
  ∃ tIDs, event_thresholds args ev = Ok tIDs ∧ NoDup ts ∧
    (∀ l, l ∈ ts → ∃ id prf, id ∈ tIDs ∧ passes ev id prf ∧ attached st' prf l) ∧
    StronglySorted (λ a b, fgtb (weight_of st' b) (weight_of st' a) = false) ts ∧
    (∀ pre l post, ts = pre ++ l :: post → post ≠ [] → ¬ blocks st' l) ∧
    (∀ id prf, id ∈ tIDs → passes ev id prf →
      (∃ l, l ∈ ts ∧ attached st' prf l) ∨
      (∃ b, last ts = Some b ∧ blocks st' b ∧ fgtb (tp_Weight prf) (weight_of st' b) = false)).
Proof.
  intros Hk Hw Hnan E. pose proof (matching_names args ev st Hw) as Hw'. rewrite E in Hw'. simpl in Hw'.
  apply matching_result in E as (tIDs & m & Hids & Hm & Hts); [|done..].
  exists tIDs. split; [done|].
  set (all := Thresholds_Sort st' (go_range m).*2) in *.
  assert (Hall : ∀ l, l ∈ all → ∃ id prf, id ∈ tIDs ∧ passes ev id prf ∧ attached st' prf l).
  { intros l [id Hid]%matching_elem. destruct (proj1 Hm id l Hid) as (prf & ? & ? & ?). eauto. }
  assert (StronglySorted (λ a b, fgtb (weight_of st' b) (weight_of st' a) = false) all) as Hs.
  { apply Thresholds_Sort_sorted. intros l Hin.
    destruct (Hall l) as (id & prf & _ & Hp & ->%attached_weight); [|by eapply Hnan].
    unfold all, Thresholds_Sort. by rewrite go_sort_elem. }
  destruct (up_to_blocker_prefix st' all) as (rest & Hsplit & Hrest). rewrite <- Hts in *.
  rewrite Hsplit in Hs. split_and!.
  - assert (NoDup all) as Hnd by by eapply matching_NoDup. rewrite Hsplit in Hnd.
    by apply NoDup_app in Hnd as [? _].
  - intros l Hin. apply Hall. rewrite Hsplit. set_solver.
  - by eapply StronglySorted_app_1_l.
  - intros pre l post. rewrite Hts. apply up_to_blocker_open.
  - intros id prf Hin Hp. destruct (proj2 Hm id prf Hin Hp) as [l Hl].
    destruct (proj1 Hm id l Hl) as (prf' & _ & Hp' & Ha).
    assert (prf' = prf) as -> by by destruct Hp as [? _], Hp' as [? _]; congruence.
    assert (l ∈ all) as Hla by by apply matching_elem; exists id.
    rewrite Hsplit in Hla. apply elem_of_app in Hla as [|Hlr]; [left; by exists l|right].
    destruct Hrest as [->|(b & Hb & Hbl)]; [by apply not_elem_of_nil in Hlr|].
    exists b. split_and!; [done..|]. rewrite <- (attached_weight st' prf l) by done.
    apply StronglySorted_app in Hs as (Hs & _). apply (Hs b l); [by apply last_Some_elem_of|done].
Qed.

(** Every call keeps the cached thresholds under their own names. *)
Ltac keep_names :=
  along_steps;
  first [by apply update_names | apply clock_names | apply SetThreshold_names
        | apply StoreThreshold_names | apply RemoveThreshold_names | apply CacheDataFromDB_names
        | apply GetThreshold_names | apply matching_names | apply execute_actions_names
        | by apply along_modify].
Lemma process_thresholds_names ev ls : along keeps_names (process_thresholds ev ls).
Proof.
  induction ls as [|l ls IH]; simpl; [by apply along_ret, _|].
  apply along_bind; [apply _| |].
  - unfold process_threshold, remove_one_time, postpone, Threshold_ProcessEvent. keep_names.
  - intros r. apply along_bind; [apply _|apply IH|]. intros rs. by apply along_ret, _.
Qed.
Lemma backup_loop_names fuel failed : along keeps_names (backup_loop fuel failed).
Proof.
  revert failed. induction fuel as [|fuel IH]; intros failed st Hw; simpl; [done|].
  destruct (go_range _).*1 as [|tID rest]; [done|].
  destruct (ts_cache st !! tID) as [[l|]|]; [|by apply IH..].
  apply (along_bind keeps_names); [|intros err; apply IH|exact Hw].
  apply along_attempt, StoreThreshold_names.
Qed.
Theorem calls_keep_names (args : ArgsProcessEvent) (tenant id : string) :
  along keeps_names (V1ProcessEvent args) ∧ along keeps_names (V1GetThresholdsForEvent args) ∧
  along keeps_names (V1GetThreshold tenant id) ∧ along keeps_names storeThresholds.
Proof.
  split_and!; unfold V1ProcessEvent, processEvent, V1GetThresholdsForEvent, V1GetThreshold.
  - along_steps; [apply matching_names|apply process_thresholds_names].
  - keep_names.
  - keep_names.
  - intros st. refine (along_bind keeps_names (backup_loop (size (ts_stored st)) []) _ _ _ st);
      [apply backup_loop_names|]. intros failed st1 Hw. exact Hw.
Qed.

(** The recurrent threshold [prf] with [n] hits, asleep until [s]. *)
Definition recurrent (st : ThresholdState) (l : nat) (prf : ThresholdProfile) (n : Z) (s : Time)
    : Prop :=
  ∃ t, ts_heap st !! l = Some t ∧ tPrfl t = Some prf ∧ th_dirty t ≠ None ∧ Hits t = n ∧
    Snooze t = s.

Lemma StoreThreshold_recurrent l l' prf n s st :
  recurrent st l prf n s → recurrent (StoreThreshold l' st).2 l prf n s.
Proof.
  intros (t & Ht & Hp & Hd & Hn & Hs). unfold StoreThreshold, load, SetThreshold, mbind, SM_bind.
  destruct (ts_heap st !! l') as [t'|]; simpl; [|by exists t]. case_bool_decide; [|by exists t].
  destruct (SetThreshold_error t'); [by exists t|]. simpl.
  unfold recurrent. simpl. rewrite list_lookup_alter.
  case_decide; [|by exists t]. subst l'. rewrite Ht. by exists (mark_dirty false t).
Qed.
Lemma StoreThreshold_executed l st :
  ts_executed (StoreThreshold l st).2 = ts_executed st ∧
  ts_clock (StoreThreshold l st).2 = ts_clock st.
Proof.
  unfold StoreThreshold, load, SetThreshold, mbind, SM_bind.
  destruct (ts_heap st !! l) as [t|]; [|done]. simpl. case_bool_decide; [|done].
  by destruct (SetThreshold_error t).
Qed.
Lemma postpone_recurrent st l t prf n s :
  ts_heap st !! l = Some t → recurrent st l prf n s →
  let st' := (postpone l t prf st).2 in
  ts_executed st' = ts_executed st ∧ ts_clock st' = S (ts_clock st) ∧
  recurrent st' l prf n (Add (time_now (ts_clock st)) (tp_MinSleep prf)).
Proof.
  intros Ht (t0 & Ht0 & Hp & Hd & Hn & Hs). simplify_eq. unfold postpone, time_Now, update, modify.
  unfold mbind, SM_bind. simpl.
  set (st1 := set_heap _ _).
  assert (recurrent st1 l prf (Hits t) (Add (time_now (ts_clock st)) (tp_MinSleep prf))) as Hr.
  { eexists. unfold st1. simpl. rewrite list_lookup_alter_eq, list_lookup_alter_eq, Ht. by split. }
  destruct (tc_StoreInterval =? -1); [|by split_and!].
  pose proof (attempt_state (StoreThreshold l) st1) as E.
  pose proof (StoreThreshold_executed l st1) as [He Hc].
  apply (StoreThreshold_recurrent l l) in Hr. rewrite <- E in He, Hc, Hr.
  destruct (attempt _ st1) as [[o|e|] st2]; simpl in *; by split_and!.
Qed.

(** An event on a threshold that sleeps or has too few hits: counted, not acted on, and
    the sleep starts again. *)
Lemma process_quiet ev l st prf n s :
  recurrent st l prf n s → tp_MaxHits prf = -1 → 0 ≤ n < max_int64 →
  After s (time_now (ts_clock st)) = true ∨ n + 1 < tp_MinHits prf →
  let st' := (process_threshold ev l st).2 in
  ts_executed st' = ts_executed st ∧ ts_clock st' = S (S (ts_clock st)) ∧
  recurrent st' l prf (n + 1) (Add (time_now (S (ts_clock st))) (tp_MinSleep prf)).
Proof.
  intros (t & Ht & Hp & Hd & Hn & Hs) Hm Hr Hq. unfold process_threshold.
  set (st1 := set_heap (alter (λ t, with_Hits (add64 (Hits t) 1) t) l (ts_heap st)) st).
  assert (add64 (Hits t) 1 = n + 1) as Hadd.
  { subst n. unfold add64, wrap64, max_int64 in *. lia. }
  set (t1 := with_Hits (n + 1) t).
  assert (ts_heap st1 !! l = Some t1) as Ht1.
  { unfold st1. simpl. rewrite list_lookup_alter_eq, Ht. simpl. by rewrite Hadd. }
  set (st2 := (time_Now st1).2).
  assert (attempt (Threshold_ProcessEvent l ev) st1 = (Ok None, st2)) as Ea.
  { unfold attempt, Threshold_ProcessEvent, load, mbind, SM_bind. rewrite Ht1. simpl.
    rewrite Hs. destruct (After s _) eqn:Ea; [done|]. destruct Hq as [Hq|Hq]; [simpl in *; congruence|].
    rewrite Hp. simpl. by destruct (Z.ltb_spec (n + 1) (tp_MinHits prf)); [|lia]. }
  rewrite (run _ _ st () st1), (run _ _ st1 None st2), (run _ _ st2 t1 st2); [|unfold load|done..].
  2: { change (ts_heap st2) with (ts_heap st1). by rewrite Ht1. }
  simpl. destruct (th_dirty t) eqn:Edirty; [|done]. rewrite Hp, (run _ _ st2 prf st2) by done.
  simpl. rewrite Hm. destruct (Z.eqb_spec (n + 1) (-1)); [lia|].
  assert (recurrent st2 l prf (n + 1) s) as Hr2.
  { exists t1. split_and!; try done. simpl. by rewrite Edirty. }
  pose proof (postpone_recurrent st2 l t1 prf (n + 1) s Ht1 Hr2) as (He & Hc & Hr3).
  unfold mbind, SM_bind. destruct (postpone l t1 prf st2) as [[[]|e|] st3]; simpl in *; by split_and!.
Qed.

Definition process_stream (l : nat) (evs : list CGREvent) (st : ThresholdState) : ThresholdState :=
  foldl (λ st ev, (process_threshold ev l st).2) st evs.

Lemma quiet_stream evs st l prf n s :
  recurrent st l prf n s → tp_MaxHits prf = -1 → 0 ≤ n → n + Z.of_nat (length evs) ≤ max_int64 →
  (∀ k, t_ns (time_now (S k)) < t_ns (time_now k) + tp_MinSleep prf) →
  After s (time_now (ts_clock st)) = true ∨ n + 1 < tp_MinHits prf →
  ts_executed (process_stream l evs st) = ts_executed st ∧
  ∃ s', recurrent (process_stream l evs st) l prf (n + Z.of_nat (length evs)) s'.
Proof.
  intros Hr Hm Hn Hlen Hgap. revert st n s Hr Hn Hlen.
  induction evs as [|ev evs IH]; intros st n s Hr Hn Hlen Hq; simpl in *.
  { split; [done|]. exists s. by rewrite Z.add_0_r. }
  destruct (process_quiet ev l st prf n s) as (He & Hc & Hr'); [done..|lia|done|].
  destruct (IH _ _ _ Hr') as (He' & s' & Hs'); [lia..| |].
  - left. rewrite Hc. unfold After, Add. simpl. apply Z.ltb_lt, Hgap.
  - split; [congruence|]. exists s'.
    match goal with |- recurrent _ _ _ ?z _ => by replace z with (n + 1 + Z.of_nat (length evs)) by lia end.
Qed.

(** A steady stream starves a threshold: each event starts the sleep again, also one that
    comes during the sleep or before the minimum of hits, so a recurrent threshold that asks
    for two hits or more never executes its actions while the events keep coming faster
    than its minimal sleep, whatever the number of its hits. *)
Theorem steady_stream_never_fires (st : ThresholdState) (l : nat) (t : Threshold)
    (prf : ThresholdProfile) (evs : list CGREvent) :
  ts_heap st !! l = Some t → tPrfl t = Some prf → th_dirty t ≠ None → Hits t = 0 →
  tp_MaxHits prf = -1 → 2 ≤ tp_MinHits prf → Z.of_nat (length evs) ≤ max_int64 →
  (∀ k, t_ns (time_now (S k)) < t_ns (time_now k) + tp_MinSleep prf) →
  let st' := process_stream l evs st in
  ts_executed st' = ts_executed st ∧
  ∃ t', ts_heap st' !! l = Some t' ∧ Hits t' = Z.of_nat (length evs).
Proof.
  intros Ht Hp Hd Hz Hm Hmin Hlen Hgap.
  assert (recurrent st l prf 0 (Snooze t)) as Hr by by exists t.
  destruct (quiet_stream evs st l prf 0 (Snooze t)) as (He & s' & t' & Ht' & _ & _ & Hh & _);
    [done..|lia|done|right; lia|]. split; [done|]. by exists t'.
Qed.

(** Neither in the cache nor in the database. *)
Definition absent (st : ThresholdState) (key : string) : Prop :=
  ts_db st !! key = None ∧ ∀ l, ts_cache st !! key ≠ Some (Some l).

Lemma GetThreshold_absent tenant id read st :
  ts_db st !! ConcatenatedKey [tenant; id] = None →
  (read = true → ∀ l, ts_cache st !! ConcatenatedKey [tenant; id] ≠ Some (Some l)) →
  ∃ e st', GetThreshold tenant id read st = (Err e, st') ∧ ts_db st' = ts_db st.
Proof.
  intros Hd Hc. unfold GetThreshold. rewrite Hd.
  destruct (if read then _ else _) as [[l|]|] eqn:E; [| by eauto|].
  { destruct read; [|done]. by destruct (Hc eq_refl l). }
  destruct (GetThreshold_error _); [|by eauto]. eexists _, _. split; [done|]. by case_decide.
Qed.
Lemma th_TenantID_key (t : Threshold) :
  let id := NewTenantID (th_TenantID t) in
  ConcatenatedKey [tid_Tenant id; tid_ID id] = th_TenantID t.
Proof.
  simpl. fold (TenantID_TenantID (NewTenantID (th_TenantID t))).
  destruct (TenantID_roundtrip "" "" (th_TenantID t) eq_refl) as [_ ->].
  unfold th_TenantID, ConcatenatedKey. rewrite (Join_cons _ (th_Tenant t)) by done.
  by rewrite !has_char_app, orb_true_r.
Qed.

Lemma remove_one_time_absent t st st' :
  remove_one_time t st = (Ok false, st') → absent st' (th_TenantID t).
Proof.
  intros E. apply bind_ok in E as (e1 & st1 & E1 & E). apply bind_ok in E as (e2 & st2 & E2 & E).
  injection E as E <-. destruct e1 as [?|]; [done|]. destruct e2 as [?|]; [done|].
  unfold attempt, RemoveThreshold in E1. fold (th_TenantID t) in E1.
  destruct (RemoveThreshold_error _); [done|]. injection E1 as <-.
  unfold attempt, CacheDataFromDB in E2. set (st1 := set_db _ _) in E2.
  assert (ts_db st1 !! th_TenantID t = None) as Hd by apply lookup_delete_eq.
  destruct (ts_cache st1 !! th_TenantID t) as [v|] eqn:Ec.
  2: { injection E2 as <-. split; [done|]. intros l. by rewrite Ec. }
  destruct (GetThreshold_absent (tid_Tenant (NewTenantID (th_TenantID t)))
              (tid_ID (NewTenantID (th_TenantID t))) false st1) as (e & st3 & Eg & Hd3);
    [by rewrite th_TenantID_key|done|].
  rewrite Eg in E2. destruct (decide (e = NOT_FOUND)); [|done]. injection E2 as <-.
  split; simpl; [by rewrite Hd3|]. intros l. by rewrite lookup_delete_eq.
Qed.

(** Actions leave the thresholds alone. *)
Definition same_thresholds (st st' : ThresholdState) : Prop :=
  ts_heap st' = ts_heap st ∧ ts_cache st' = ts_cache st ∧ ts_db st' = ts_db st.
#[local] Instance same_thresholds_preorder : PreOrder same_thresholds.
Proof.
  split; [by intros st|]. intros st1 st2 st3 (? & ? & ?) (? & ? & ?). split_and!; congruence.
Qed.
Lemma ProcessEvent_thresholds l ev : along same_thresholds (Threshold_ProcessEvent l ev).
Proof.
  assert (∀ acnt async ids err, along same_thresholds (execute_actions ev acnt async ids err)) as Hex.
  { intros acnt async ids. induction ids as [|id ids IH]; intros err st; simpl; [done|].
    destruct (IH (if negb async && bool_decide (is_Some (Execute_error (ts_executed st)
        (mkExecution id acnt async ev))) then Err ErrPartiallyExecuted else err)
      (mkThresholdState (ts_heap st) (ts_cache st) (ts_db st) (ts_stored st) (ts_clock st)
         (ts_executed st ++ [mkExecution id acnt async ev]))) as (? & ? & ?).
    by split_and!. }
  unfold Threshold_ProcessEvent. along_steps. by intros st.
Qed.

Lemma process_one_time ev l st t prf id st' :
  ts_heap st !! l = Some t → tPrfl t = Some prf → th_dirty t ≠ None →
  add64 (Hits t) 1 = tp_MaxHits prf →
  process_threshold ev l st = (Ok (id, false), st') → absent st' (th_TenantID t).
Proof.
  intros Ht Hp Hd Hh E. unfold process_threshold in E.
  set (st1 := set_heap (alter (λ t, with_Hits (add64 (Hits t) 1) t) l (ts_heap st)) st) in *.
  rewrite (run _ _ st () st1) in E by done.
  apply bind_ok in E as (err & st2 & Ea & E). apply bind_ok in E as (t2 & st3 & El & E).
  assert (ts_heap st2 = ts_heap st1) as Hheap.
  { pose proof (attempt_state (Threshold_ProcessEvent l ev) st1) as Es. rewrite Ea in Es.
    simpl in Es. subst st2. apply ProcessEvent_thresholds. }
  unfold load in El. rewrite Hheap in El. unfold st1 in El. simpl in El.
  rewrite list_lookup_alter_eq, Ht in El. injection El as <- <-. destruct err as [e|]; [done|].
  simpl in E. destruct (th_dirty t) as [d|]; [|done]. rewrite Hp in E.
  rewrite (run _ _ st2 prf st2) in E by done. simpl in E. rewrite Hh, Z.eqb_refl in E.
  apply bind_ok in E as (b & st3 & Er & E). injection E as _ -> <-.
  apply remove_one_time_absent in Er. exact Er.
Qed.

Definition stays_absent (key : string) (st st' : ThresholdState) : Prop :=
  absent st key → absent st' key.
#[local] Instance stays_absent_preorder key : PreOrder (stays_absent key).
Proof. split; [by intros st Ha|]. intros st1 st2 st3 H12 H23 Ha. by apply H23, H12. Qed.
Lemma GetThreshold_stays_absent key tenant id :
  along (stays_absent key) (GetThreshold tenant id true).
Proof.
  assert (Hput : ∀ st k v, absent st key → (is_Some v → k ≠ key) →
    absent (set_cache (<[k := v]> (ts_cache st)) st) key).
  { intros st k v [Hd Hc] Hv. split; [done|]. intros l. simpl. rewrite lookup_insert.
    case_decide; [|apply Hc]. destruct v; [|done]. by destruct (Hv ltac:(eauto)). }
  intros st Ha. unfold GetThreshold. destruct (ts_cache st !! _) as [[l|]|]; [done..|].
  destruct (GetThreshold_error _) as [e|]; simpl.
  { case_decide; [|done]. by apply Hput; [|intros [? ?]]. }
  destruct (ts_db st !! _) as [t|] eqn:Et; simpl; [|by apply Hput; [|intros [? ?]]].
  apply (Hput (set_heap (ts_heap st ++ [t]) st)); [done|]. intros _ Ek.
  rewrite Ek in Et. by rewrite (proj1 Ha) in Et.
Qed.

(** A matching threshold that is missing ends the search with an error. *)
Lemma match_thresholds_absent ev tIDs m st id prf :
  id ∈ tIDs → passes ev id prf → absent st (tp_TenantID prf) →
  ∀ m', (match_thresholds ev tIDs m st).1 ≠ Ok m'.
Proof.
  intros Hin (Hg & Hi & Hf). revert m st. induction tIDs as [|tID tIDs IH]; intros m st Ha m'.
  { by apply not_elem_of_nil in Hin. }
  simpl. destruct (decide (tID = id)) as [->|Hne].
  - rewrite Hg, Hi, Hf. destruct (GetThreshold_absent (tp_Tenant prf) (tp_ID prf) true st)
      as (e & st' & Eg & _); [by apply Ha|intros _; apply Ha|].
    unfold mbind, SM_bind. by rewrite Eg.
  - specialize (IH ltac:(set_solver)).
    destruct (GetThresholdProfile (ev_Tenant ev) tID) as [prf'|e|]; [|destruct (decide (e = NOT_FOUND)); [by apply IH|done]|done].
    destruct (inactive_threshold prf' ev); [by apply IH|].
    destruct (FilterS_Pass (ev_Tenant ev) (tp_FilterIDs prf') _) as [[]|e|]; [|by apply IH|done..].
    pose proof (GetThreshold_stays_absent _ (tp_Tenant prf') (tp_ID prf') st Ha) as Ha'.
    unfold mbind at 1, SM_bind. destruct (GetThreshold _ _ _ st) as [[l|e|] st1]; [|done..].
    rewrite (run _ _ st1 () (update l (matched prf') st1).2) by done. by apply IH.
Qed.


(** The cached threshold of the name, if there is one, is not dirty. *)
Definition saved (st : ThresholdState) (key : string) : Prop :=
  ∀ l, ts_cache st !! key = Some (Some l) →
    ∃ t, ts_heap st !! l = Some t ∧ th_dirty t = Some false.

Lemma StoreThreshold_saved st key tID l :
  well_named st → ts_cache st !! tID = Some (Some l) → saved st key →
  ∃ e st', attempt (StoreThreshold l) st = (Ok e, st') ∧ well_named st' ∧ saved st' key ∧
    ts_stored st' = ts_stored st ∧ ts_db st' !! key = ts_db st !! key ∧ (tID = key → e = None).
Proof.
  intros Hw Hl Hs. destruct (proj1 Hw _ _ Hl) as (t & Ht & Hn).
  pose proof (StoreThreshold_names l st Hw) as Hw'. rewrite <- attempt_state in Hw'.
  unfold attempt, StoreThreshold in *. rewrite (run _ _ st t st) in * by (unfold load; by rewrite Ht).
  case_bool_decide as Ed; [|by exists None, st].
  assert (tID ≠ key) as Hne.
  { intros ->. destruct (Hs l Hl) as (t' & Ht' & Hd). congruence. }
  unfold SetThreshold in *. unfold mbind, SM_bind in *. destruct (SetThreshold_error t) as [e|]; simpl in *.
  { by exists (Some e), st. }
  eexists _, _. split_and!; [done|done| |done| |done]; simpl.
  - intros l' Hl'. destruct (Hs l' Hl') as (t' & Ht' & Hd'). simpl. rewrite list_lookup_alter.
    case_decide; [|by eauto]. subst l'. rewrite Ht. eexists. by split.
  - rewrite lookup_insert_ne; [done|]. congruence.
Qed.

Lemma stored_key (s : gset string) :
  match (go_range (gset_to_gmap () s)).*1 with [] => s = ∅ | x :: _ => x ∈ s end.
Proof.
  assert (∀ x, x ∈ s ↔ x ∈ (go_range (gset_to_gmap () s)).*1) as Hx.
  { intros x. rewrite list_elem_of_fmap. split.
    - intros Hin. exists (x, ()). split; [done|]. apply go_range_elem. by apply lookup_gset_to_gmap_Some.
    - intros ([y []] & -> & [? _]%go_range_elem%lookup_gset_to_gmap_Some). done. }
  destruct (go_range _).*1 as [|x xs] eqn:E; [set_solver|]. apply Hx. by left.
Qed.

Lemma backup_loop_saved fuel failed st key :
  (size (ts_stored st) ≤ fuel)%nat → well_named st → saved st key →
  ∃ failed' st', backup_loop fuel failed st = (Ok failed', st') ∧ ts_stored st' = ∅ ∧
    ts_db st' !! key = ts_db st !! key ∧ (key ∉ failed → key ∉ failed').
Proof.
  revert failed st. induction fuel as [|fuel IH]; intros failed st Hf Hw Hs; simpl.
  { exists failed, st. split_and!; try done. apply leibniz_equiv, size_empty_inv. lia. }
  pose proof (stored_key (ts_stored st)) as Hk.
  destruct (go_range _).*1 as [|tID rest] eqn:E; [by exists failed, st|].
  set (st1 := set_stored (ts_stored st ∖ {[tID]}) st).
  assert (size (ts_stored st1) ≤ fuel)%nat as Hf1.
  { unfold st1. simpl. rewrite size_difference by set_solver. rewrite size_singleton. lia. }
  destruct (ts_cache st !! tID) as [[l|]|] eqn:Ec; [|by apply (IH failed st1)..].
  destruct (StoreThreshold_saved st1 key tID l) as (e & st2 & Ea & Hw2 & Hs2 & Est & Hd & He); [done..|].
  rewrite (run _ _ st1 e st2) by done.
  destruct (IH (match e with None => failed | Some _ => failed ++ [tID] end) st2)
    as (failed' & st' & El & ? & Hd' & Hfl); [by rewrite Est|done..|].
  exists failed', st'. split_and!; [done..|by rewrite Hd'|]. intros Hnin. apply Hfl.
  destruct e as [e|]; [|done]. rewrite elem_of_app, list_elem_of_singleton.
  intros [?|<-]; [done|]. by specialize (He eq_refl).
Qed.

(** Asking which thresholds an event matches loses changes: a recurrent threshold in
    the answer that waits to be saved is marked as saved, so the next backup does not
    write it and no longer knows of it. *)
Theorem query_drops_pending_save (st st1 : ThresholdState) (args : ArgsProcessEvent)
    (ts : list nat) (l : nat) (t : Threshold) (prf : ThresholdProfile) :
  profiles_named → well_named st →
  V1GetThresholdsForEvent args st = (Ok ts, st1) → l ∈ ts →
  ts_heap st1 !! l = Some t → tPrfl t = Some prf → tp_MaxHits prf = -1 →
  let st2 := (storeThresholds st1).2 in
  ts_stored st1 = ts_stored st ∧ ¬ (th_TenantID t ∈ ts_stored st2) ∧
  ts_db st2 !! th_TenantID t = ts_db st !! th_TenantID t.
Proof.
  intros Hk Hw E Hin Ht Hp Hm. apply bind_ok in E as (ev & st0 & E0 & E). injection E0 as _ <-.
  pose proof (matching_names args ev st Hw) as Hw1. rewrite E in Hw1. simpl in Hw1.
  pose proof (matching_loads args ev st) as (_ & Hdb & Hst & _). rewrite E in Hdb, Hst. simpl in *.
  apply matching_result in E as (tIDs & m & _ & Hmo & ->); [|done..].
  destruct (up_to_blocker_prefix st1 (Thresholds_Sort st1 (go_range m).*2)) as (rest & Hsplit & _).
  assert (l ∈ Thresholds_Sort st1 (go_range m).*2) as [id Hid]%matching_elem.
  { rewrite Hsplit. set_solver. }
  destruct (proj1 Hmo id l Hid) as (prf' & _ & _ & Hc & t' & Ht' & Hp' & Hd').
  simplify_eq. specialize (Hd' Hm).
  assert (th_TenantID t = tp_TenantID prf) as Hn.
  { destruct (proj1 Hw1 _ _ Hc) as (t0 & Ht0 & Hn). congruence. }
  destruct (backup_loop_saved (size (ts_stored st1)) [] st1 (th_TenantID t))
    as (failed & st2 & Es & Hemp & Hd2 & Hf); [done..| |].
  { intros l' Hl'. rewrite Hn, Hc in Hl'. injection Hl' as <-. eauto. }
  unfold storeThresholds. rewrite (run _ _ st1 failed st2) by done. simpl.
  split_and!; [done| |by rewrite Hd2, Hdb]. rewrite Hemp. specialize (Hf ltac:(set_solver)). set_solver.
Qed.
End thresholds.

(** ** Examples *)

Definition example_prfl (id : string) (maxHits minHits : Z) (blocker : bool) (weight : Z)
    : ThresholdProfile :=
  mkThresholdProfile "cgrates.org" id [] None maxHits minHits 60000000000 blocker
    (f_of_Z weight) ["ACT_LOG"] false.
Definition new_threshold (prf : ThresholdProfile) : Threshold :=
  mkThreshold (tp_Tenant prf) (tp_ID prf) 0 zero_time None None.

(** A database of profiles, no errors, and a clock that is read every second. *)
Definition threshold_data (prfls : list ThresholdProfile) : ThresholdData := {|
  GetThresholdProfile tenant id :=
    match List.find (λ prf, bool_decide (tp_Tenant prf = tenant ∧ tp_ID prf = id)) prfls with
    | Some prf => Ok prf
    | None => Err NOT_FOUND
    end;
  GetThreshold_error key := None; SetThreshold_error t := None; RemoveThreshold_error key := None;
  Execute_error before ex := None; time_now n := mkTime (Z.of_nat n * 1000000000) UTC;
  tc_StoreInterval := 60; tc_StringIndexedFields := None; tc_PrefixIndexedFields := None;
  tc_IndexedSelects := true; tc_NestedFields := false |}.

Lemma threshold_data_named prfls : @profiles_named (threshold_data prfls).
Proof.
  intros tenant id prf. simpl. destruct (List.find _ prfls) as [prf'|] eqn:E; [|done].
  intros [= ->]. apply List.find_some in E as [_ E]. by apply bool_decide_eq_true in E.
Qed.
Lemma threshold_data_in prfls tenant id prf :
  @GetThresholdProfile (threshold_data prfls) tenant id = Ok prf → List.In prf prfls.
Proof.
  simpl. destruct (List.find _ prfls) as [prf'|] eqn:E; [|done].
  intros [= ->]. by apply List.find_some in E as [? _].
Qed.

(** Nothing cached, the thresholds of the profiles in the database. *)
Definition example_state (prfls : list ThresholdProfile) : ThresholdState :=
  mkThresholdState [] ∅
    (list_to_map (map (λ prf, (tp_TenantID prf, new_threshold prf)) prfls)) ∅ 0 [].
Lemma example_state_named prfls : well_named (example_state prfls).
Proof.
  split; simpl; [by intros k l; rewrite lookup_empty|].
  intros k t Ht%elem_of_list_to_map_2. apply list_elem_of_fmap in Ht as (prf & [= -> ->] & _). done.
Qed.

Definition example_event : CGREvent :=
  mkCGREvent "cgrates.org" "ev1" None [("Account", IString "1001")].
Definition example_args (ids : list string) : ArgsProcessEvent :=
  mkArgsProcessEvent ids (Some example_event) false.

(** The calls with the reference runtime. *)
Definition example_matching (prfls : list ThresholdProfile) (ids : list string) :=
  @matchingThresholdsForEvent reference_text reference_runtime reference_filters
    (threshold_data prfls) (example_args ids) example_event (example_state prfls).

Definition three_prfls : list ThresholdProfile :=
  [example_prfl "t1" (-1) 0 false 10; example_prfl "t2" (-1) 0 true 20;
   example_prfl "t3" (-1) 0 false 30].

Example matching_thresholds_witness :
  let st' := (example_matching three_prfls ["t1"; "t2"; "t3"]).2 in
  (example_matching three_prfls ["t1"; "t2"; "t3"]).1 = Ok [2%nat; 1%nat] ∧
  StronglySorted (λ a b, fgtb (weight_of st' b) (weight_of st' a) = false) [2%nat; 1%nat].
Proof.
  split; [vm_compute; reflexivity|].
  destruct (@matching_thresholds reference_text reference_runtime reference_filters
    (threshold_data three_prfls) (example_args ["t1"; "t2"; "t3"]) example_event
    (example_state three_prfls) (example_matching three_prfls ["t1"; "t2"; "t3"]).2
    [2%nat; 1%nat]) as (tIDs & _ & _ & _ & Hs & _).
  - apply threshold_data_named.
  - apply example_state_named.
  - intros id prf (Hg & _). apply threshold_data_in in Hg.
    destruct Hg as [<-|[<-|[<-|[]]]]; vm_compute; reflexivity.
  - vm_compute; reflexivity.
  - exact Hs.
Defined.

(** The threshold of the profile is loaded, attached, and has so many hits. *)
Definition loaded_state (prf : ThresholdProfile) (hits : Z) (dirty : bool) (stored : gset string)
    : ThresholdState :=
  mkThresholdState
    [mkThreshold (tp_Tenant prf) (tp_ID prf) hits zero_time (Some prf) (Some dirty)]
    {[tp_TenantID prf := Some 0%nat]} {[tp_TenantID prf := new_threshold prf]} stored 0 [].

Example steady_stream_never_fires_witness :
  let prf := example_prfl "t1" (-1) 2 false 10 in
  let st' := @process_stream reference_text (threshold_data [prf]) 0
    [example_event; example_event; example_event] (loaded_state prf 0 false ∅) in
  ts_executed st' = [] ∧ ∃ t', ts_heap st' !! 0%nat = Some t' ∧ Hits t' = 3.
Proof.
  intros prf st'.
  apply (@steady_stream_never_fires reference_text (threshold_data [prf])
           (loaded_state prf 0 false ∅) 0
           (mkThreshold (tp_Tenant prf) (tp_ID prf) 0 zero_time (Some prf) (Some false)) prf
           [example_event; example_event; example_event]); try done.
  intros k. simpl. lia.
Defined.

Definition one_time : ThresholdProfile := example_prfl "t1" 1 0 false 10.
Definition removed_state : ThresholdState :=
  (@process_threshold reference_text (threshold_data [one_time]) example_event 0
     (loaded_state one_time 0 false ∅)).2.

Definition pending : ThresholdProfile := example_prfl "t1" (-1) 0 false 10.
Definition pending_state : ThresholdState :=
  loaded_state pending 5 true {[tp_TenantID pending]}.
Definition pending_query :=
  @V1GetThresholdsForEvent reference_text reference_runtime reference_filters
    (threshold_data [pending]) (example_args ["t1"]) pending_state.
Example query_drops_pending_save_witness :
  let st2 := (@storeThresholds reference_runtime (threshold_data [pending]) pending_query.2).2 in
  (Hits <$> ts_db (@storeThresholds reference_runtime (threshold_data [pending])
                     pending_state).2 !! tp_TenantID pending) = Some 5 ∧
  ¬ (tp_TenantID pending ∈ ts_stored st2) ∧
  (Hits <$> ts_db st2 !! tp_TenantID pending) = Some 0.
Proof.
  split; [vm_compute; reflexivity|].
  destruct (@query_drops_pending_save reference_text reference_runtime reference_filters
    (threshold_data [pending]) pending_state pending_query.2 (example_args ["t1"]) [0%nat] 0
    (mkThreshold "cgrates.org" "t1" 5 zero_time (Some pending) (Some false)) pending)
    as (_ & Hs & Hd).
  - apply threshold_data_named.
  - split; intros k ? E; simpl in E; apply lookup_singleton_Some in E as [<- E].
    + injection E as <-. eexists. by split.
    + by rewrite <- E.
  - vm_compute; reflexivity.
  - by left.
  - vm_compute; reflexivity.
  - done.
  - done.
  - split; [exact Hs|]. change (tp_TenantID pending) with
      (th_TenantID (mkThreshold "cgrates.org" "t1" 5 zero_time (Some pending) (Some false))).
    rewrite Hd. vm_compute; reflexivity.
Defined.
