(* ===== verification/Collections.v ===== *)
(** * Sets, slices and maps of strings

    [utils/set.go], [utils/slice.go] and [utils/map.go].  A Go map is a [gmap];
    where nil and empty differ to the code it is an option, nil being [None].
    Ranging over a map takes the order of the runtime's [go_range]. *)
From S2P Require Import Prelude GoFloat GoStrings CoreUtils.

Definition ANY : string := "*any".
Definition NegativePrefix : string := "!".
Definition InInFieldSep : string := ":".
Definition ErrUnsupportedFormat : string := "UNSUPPORTED_FORMAT".

(** ** StringSet *)

Definition StringSet := gset string.

Definition StringSet_Add (s : StringSet) (val : string) : StringSet := {[val]} ∪ s.
Definition StringSet_Remove (s : StringSet) (val : string) : StringSet := s ∖ {[val]}.
Definition StringSet_Has (s : StringSet) (val : string) : bool :=
  bool_decide (val ∈ s).
Definition StringSet_AddSlice (s : StringSet) (dataSlice : list string) : StringSet :=
  foldl StringSet_Add s dataSlice.
Definition NewStringSet (dataSlice : list string) : StringSet :=
  StringSet_AddSlice ∅ dataSlice.
Definition StringSet_Size (s : StringSet) : Z := Z.of_nat (size s).

Section ranges.
Context `{GoRuntime}.

(** The keys of a set in the order the runtime visits them. *)
Definition range_keys {A} (m : gmap string A) : list string := (go_range m).*1.

Definition StringSet_AsSlice (s : StringSet) : list string :=
  range_keys (gset_to_gmap tt s).
Definition StringSet_AsOrderedSlice (s : StringSet) : list string :=
  go_sort str_ltb (StringSet_AsSlice s).
(** Deleting the key being visited is allowed while ranging. *)
Definition StringSet_Intersect (s s2 : StringSet) : StringSet :=
  foldl (λ acc k, if negb (StringSet_Has s2 k) then StringSet_Remove acc k else acc)
    s (StringSet_AsSlice s).
End ranges.

(** ** Slices *)

(** [sort.Search]: the loop keeps [f (i-1) = false] and [f j = true]. *)
Fixpoint search_loop (fuel : nat) (f : nat → bool) (i j : nat) : nat :=
  match fuel with
  | O => i
  | S fuel' =>
      if (i <? j)%nat then
        let h := Nat.div2 (i + j) in
        if negb (f h) then search_loop fuel' f (S h) j else search_loop fuel' f i h
      else i
  end.
Definition Search (n : nat) (f : nat → bool) : nat := search_loop n f 0 n.

Definition SearchStrings (ss : list string) (s : string) : nat :=
  Search (length ss) (λ i, negb (str_ltb (ss !!! i) s)).

(** [i < len(ss) && ss[i] == s] *)
Definition found_at (ss : list string) (i : nat) (s : string) : bool :=
  match ss !! i with Some x => bool_decide (x = s) | None => false end.

Definition SliceHasMember (ss : list string) (s : string) : bool :=
  found_at ss (SearchStrings ss s) s.

(** Sorts the caller's slice, hence the second component. *)
Definition IsSliceMember `{GoRuntime} (ss : list string) (s : string)
    : bool * list string :=
  let ss := go_sort str_ltb ss in (SliceHasMember ss s, ss).

(** The last element takes the place of the one found. *)
Definition SliceWithoutMember `{GoRuntime} (ss : list string) (s : string)
    : list string :=
  let ss := go_sort str_ltb ss in
  let i := SearchStrings ss s in
  if found_at ss i s then
    take (length ss - 1) (<[i := ss !!! (length ss - 1)%nat]> ss)
  else ss.

Fixpoint SliceMemberHasPrefix (ss : list string) (prfx : string) : bool :=
  match ss with
  | [] => false
  | mbr :: ss' => if HasPrefix mbr prfx then true else SliceMemberHasPrefix ss' prfx
  end.

Fixpoint HasPrefixSlice (prfxs : list string) (el : string) : bool :=
  match prfxs with
  | [] => false
  | prfx :: prfxs' => if HasPrefix el prfx then true else HasPrefixSlice prfxs' el
  end.

Definition Avg (values : list float64) : float64 :=
  if decide (length values = 0)%nat then f0
  else fdiv (foldl fadd f0 values) (f_of_Z (Z.of_nat (length values))).
Definition AvgNegative (values : list float64) : float64 :=
  if decide (length values = 0)%nat then f_of_Z (-1) else Avg values.

Definition PrefixSliceItems (slc : list string) (prfx : string) : list string :=
  (λ itm, prfx +:+ itm) <$> slc.

Definition StripSlicePrefix (slc : list string) (nrItems : Z) : res (list string) :=
  if Z.of_nat (length slc) <? nrItems then Ok []
  else if nrItems <? 0 then Panic else Ok (drop (Z.to_nat nrItems) slc).

(** ** Maps *)

Definition MissingMapKeys (inMap : gmap string string) (requiredKeys : list string)
    : list string :=
  foldl (λ missingKeys reqKey,
    match inMap !! reqKey with
    | Some val => if decide (val = "") then missingKeys ++ [reqKey] else missingKeys
    | None => missingKeys ++ [reqKey]
    end) [] requiredKeys.

Definition MirrorMap `{GoRuntime} (mapIn : gmap string string) : gmap string string :=
  foldl (λ mapOut '(key, val), <[val := key]> mapOut) ∅ (go_range mapIn).

Definition MapKeys `{GoRuntime} (m : gmap string string) : list string := range_keys m.

(** A nil [StringMap] is [None]. *)
Definition StringMap := option (gmap string bool).
Definition sm_entries (sm : StringMap) : gmap string bool := default ∅ sm.

(** The loop body [NewStringMap] and [StringMapFromSlice] share. *)
Definition string_map_add (result : gmap string bool) (v : string) : gmap string bool :=
  let v := TrimSpace v in
  if decide (v ≠ "") then
    if HasPrefix v NegativePrefix then <[sdrop 1 v := false]> result
    else <[v := true]> result
  else result.

Definition NewStringMap (s : list string) : StringMap :=
  Some (foldl string_map_add ∅ s).
Definition StringMapFromSlice (s : list string) : StringMap :=
  Some (foldl string_map_add ∅ s).

Definition ParseStringMap (s : string) : StringMap :=
  if decide (s = ZERO) then Some ∅ else StringMapFromSlice (Split s INFIELD_SEP).

(** A missing key reads as [false]. *)
Definition sm_lookup (sm : StringMap) (key : string) : bool :=
  default false (sm_entries sm !! key).

Section string_map_ranges.
Context `{GoRuntime}.

Definition StringMap_Equal (sm om : StringMap) : bool :=
  if bool_decide (sm = None) && negb (bool_decide (om = None)) then false
  else if negb (Nat.eqb (size (sm_entries sm)) (size (sm_entries om))) then false
  else forallb (sm_lookup om) (range_keys (sm_entries sm)).

Definition StringMap_Includes (sm om : StringMap) : bool :=
  if (size (sm_entries sm) <? size (sm_entries om))%nat then false
  else forallb (sm_lookup sm) (range_keys (sm_entries om)).

Definition StringMap_Slice (sm : StringMap) : list string := range_keys (sm_entries sm).
Definition StringMap_GetSlice (sm : StringMap) : list string :=
  range_keys (sm_entries sm).

Definition StringMap_IsEmpty (sm : StringMap) : bool :=
  bool_decide (sm = None) || Nat.eqb (size (sm_entries sm)) 0 || sm_lookup sm ANY.

(** Assigning into a nil map panics. *)
Definition StringMap_Copy (sm o : StringMap) : res StringMap :=
  foldl (λ acc '(k, v), m ← acc; e ← deref m; Ok (Some (<[k := v]> e)))
    (Ok sm) (go_range (sm_entries o)).

Definition StringMap_Clone (sm : StringMap) : res StringMap :=
  StringMap_Copy (Some ∅) sm.

Definition StringMap_String (sm : StringMap) : string :=
  Join (StringMap_Slice sm) INFIELD_SEP.

Definition StringMap_GetOne (sm : StringMap) : string :=
  match range_keys (sm_entries sm) with key :: _ => key | [] => "" end.

Definition StringMap_Join (sm : StringMap) (mps : list StringMap) : res StringMap :=
  foldl (λ acc mp, s ← acc; StringMap_Copy s mp) (Ok sm) mps.
End string_map_ranges.

Definition StringMap_HasKey (sm : StringMap) (key : string) : bool :=
  bool_decide (is_Some (sm_entries sm !! key)).

Definition MapStringToInt64 `{GoRuntime} (inm : gmap string string)
    : res (gmap string Z) :=
  foldl (λ acc '(key, val),
    mapout ← acc;
    match Atoi val with
    | None => Err ("strconv.Atoi: parsing " +:+ val)
    | Some x => Ok (<[key := x]> mapout)
    end) (Ok ∅) (go_range inm).

(** ** Flags with parameters *)

Definition FlagsWithParams := gmap string (list string).

Definition flags_add (acc : res FlagsWithParams) (v : string) : res FlagsWithParams :=
  result ← acc;
  let subsystemWithIDs := Split v InInFieldSep in
  sub ← index subsystemWithIDs 0;
  let result := <[sub := []]> result in
  if decide (length subsystemWithIDs = 2)%nat then
    ids ← index subsystemWithIDs 1;
    Ok (<[sub := Split ids INFIELD_SEP]> result)
  else if (2 <? length subsystemWithIDs)%nat then Err ErrUnsupportedFormat
  else Ok result.

Definition FlagsWithParamsFromSlice (s : list string) : res FlagsWithParams :=
  foldl flags_add (Ok ∅) s.

Definition FlagsWithParams_HasKey (fWp : FlagsWithParams) (key : string) : bool :=
  bool_decide (is_Some (fWp !! key)).
Definition FlagsWithParams_ParamsSlice (fWp : FlagsWithParams) (subs : string)
    : list string := default [] (fWp !! subs).

Definition FlagsWithParams_SliceFlags `{GoRuntime} (fWp : FlagsWithParams)
    : list string :=
  foldl (λ sls key,
    let prmSlice := FlagsWithParams_ParamsSlice fWp key in
    if decide (prmSlice ≠ []) then
      sls ++ [ConcatenatedKey [key; Join prmSlice INFIELD_SEP]]
    else sls ++ [key]) [] (range_keys fWp).

Definition FlagsWithParams_GetBool (fWp : FlagsWithParams) (key : string) : bool :=
  match fWp !! key with
  | None => false
  | Some [] => true
  | Some (v0 :: _) => bool_decide (v0 = "true")
  end.

(** * Lemmas *)

(** ** Binary search *)

Lemma search_loop_spec fuel f i j :
  (j - i ≤ fuel)%nat → (i ≤ j)%nat →
  (∀ a b, (a ≤ b < j)%nat → f a = true → f b = true) →
  (∀ a, (a < i)%nat → f a = false) →
  let k := search_loop fuel f i j in
  (i ≤ k ≤ j)%nat ∧ (∀ a, (a < k)%nat → f a = false) ∧
  (∀ a, (k ≤ a < j)%nat → f a = true).
Proof.
  revert i j. induction fuel as [|fuel IH]; intros i j Hf Hij Hmono Hlow; simpl.
  { replace j with i by lia. split_and!; [lia|lia|done|lia]. }
  destruct (Nat.ltb_spec i j) as [Hlt|Hge].
  2: { replace j with i by lia. split_and!; [lia|lia|done|lia]. }
  set (h := Nat.div2 (i + j)).
  assert (i ≤ h < j)%nat as Hh.
  { pose proof (Nat.div2_odd (i + j)) as E. subst h.
    destruct (Nat.odd (i + j)); simpl in E; lia. }
  destruct (f h) eqn:Efh; simpl.
  - destruct (IH i h) as (Hk & Hb & Ha); [lia|lia| |done|].
    { intros a b Hab. apply Hmono. lia. }
    split_and!; [lia|lia|done|]. intros a Ha'.
    destruct (Nat.lt_ge_cases a h); [apply Ha; lia|].
    apply (Hmono h); [lia|done].
  - destruct (IH (S h) j) as (Hk & Hb & Ha); [lia|lia|done| |].
    { intros a Ha'. destruct (f a) eqn:E; [|done].
      rewrite (Hmono a h) in Efh; [done|lia|done]. }
    split_and!; [lia|lia|done|done].
Qed.

Lemma sorted_by_lookup {A} (less : A → A → bool) l i j x y :
  sorted_by less l → (i < j)%nat → l !! i = Some x → l !! j = Some y →
  less y x = false.
Proof.
  unfold sorted_by. intros Hs. revert i j. induction Hs as [|z l Hs IH Hz]; [done|].
  intros [|i] [|j] Hij Hx Hy; simpl in *; [lia| |lia|].
  - injection Hx as ->. rewrite Forall_forall in Hz. eapply Hz, list_elem_of_lookup_2, Hy.
  - eapply (IH i j); [lia|done..].
Qed.

Lemma str_ltb_le_trans a b c :
  str_ltb a c = false → str_ltb b a = false → str_ltb b c = false.
Proof. intros H1 H2. apply (sw_negtrans c a b); done. Qed.

(** On a sorted slice the search finds the first element not below the key. *)
Lemma SearchStrings_spec ss s :
  sorted_by str_ltb ss →
  let k := SearchStrings ss s in
  (k ≤ length ss)%nat ∧
  (∀ a x, (a < k)%nat → ss !! a = Some x → str_ltb x s = true) ∧
  (∀ a x, (k ≤ a)%nat → ss !! a = Some x → str_ltb x s = false).
Proof.
  intros Hs. unfold SearchStrings, Search.
  destruct (search_loop_spec (length ss) (λ i, negb (str_ltb (ss !!! i) s)) 0 (length ss))
    as (Hk & Hb & Ha); [lia|lia| |lia|].
  { intros a b Hab. rewrite !negb_true_iff. intros Hfa.
    destruct (lookup_lt_is_Some_2 ss a) as [x Hx]; [lia|].
    destruct (lookup_lt_is_Some_2 ss b) as [y Hy]; [lia|].
    rewrite (list_lookup_total_correct _ _ _ Hx) in Hfa.
    rewrite (list_lookup_total_correct _ _ _ Hy).
    destruct (decide (a = b)) as [->|]; [congruence|].
    apply (str_ltb_le_trans x); [done|]. apply (sorted_by_lookup _ ss a b); [done|lia|done..]. }
  cbv zeta. split_and!; [lia|..].
  - intros a x Hlt Hx. specialize (Hb a Hlt). simpl in Hb.
    by rewrite (list_lookup_total_correct _ _ _ Hx), negb_false_iff in Hb.
  - intros a x Hge Hx. pose proof (lookup_lt_Some _ _ _ Hx).
    specialize (Ha a). rewrite (list_lookup_total_correct _ _ _ Hx), negb_true_iff in Ha.
    apply Ha. lia.
Qed.

Lemma SliceHasMember_sorted ss s :
  sorted_by str_ltb ss → SliceHasMember ss s = true ↔ s ∈ ss.
Proof.
  intros Hs. unfold SliceHasMember, found_at.
  destruct (SearchStrings_spec ss s Hs) as (Hk & Hb & Ha). cbv zeta in *.
  set (k := SearchStrings ss s) in *. split.
  - destruct (ss !! k) as [x|] eqn:E; [|done]. rewrite bool_decide_eq_true.
    intros ->. by eapply list_elem_of_lookup_2.
  - intros [i Hi]%list_elem_of_lookup_1.
    assert (¬ (i < k)%nat) as Hik.
    { intros Hlt. specialize (Hb i s Hlt Hi). by rewrite str_ltb_irrefl in Hb. }
    pose proof (lookup_lt_Some _ _ _ Hi).
    destruct (lookup_lt_is_Some_2 ss k) as [x Hx]; [lia|]. rewrite Hx.
    apply bool_decide_eq_true.
    apply str_ltb_total; [by apply (Ha k)|].
    destruct (decide (i = k)) as [->|]; [rewrite Hx in Hi; injection Hi as ->; apply str_ltb_irrefl|].
    apply (sorted_by_lookup _ ss k i); [done|lia|done..].
Qed.

Lemma found_at_lookup ss i s : found_at ss i s = true ↔ ss !! i = Some s.
Proof.
  unfold found_at. destruct (ss !! i); [|done]. rewrite bool_decide_eq_true.
  split; congruence.
Qed.

(** Moving the last element over position [i] and dropping the last position
    removes the element at [i]. *)
Lemma swap_remove_perm {A} `{Inhabited A} (l : list A) i x :
  l !! i = Some x → x :: take (length l - 1) (<[i := l !!! (length l - 1)%nat]> l) ≡ₚ l.
Proof.
  intros Hi. pose proof (lookup_lt_Some _ _ _ Hi) as Hlen.
  destruct (lookup_lt_is_Some_2 l (length l - 1)) as [z Hz]; [lia|].
  rewrite (list_lookup_total_correct _ _ _ Hz).
  destruct l as [|y l _] using rev_ind; [done|].
  rewrite length_app in *. simpl in *.
  replace (length l + 1 - 1)%nat with (length l) in * by lia.
  rewrite lookup_app_r, Nat.sub_diag in Hz by lia. injection Hz as ->.
  destruct (decide (i = length l)) as [->|Hne].
  - rewrite lookup_app_r, Nat.sub_diag in Hi by lia. injection Hi as ->.
    rewrite list_insert_id by (rewrite lookup_app_r, Nat.sub_diag by lia; done).
    rewrite take_app_length. by rewrite Permutation_app_comm.
  - assert (i < length l)%nat by lia.
    rewrite insert_app_l, take_app_length' by (rewrite ?length_insert; lia).
    rewrite lookup_app_l in Hi by lia.
    rewrite (Permutation_app_comm l [z]). simpl.
    rewrite <- (list_insert_id l i x Hi) at 2.
    rewrite (insert_take_drop l i z), (insert_take_drop l i x) by done.
    solve_Permutation.
Qed.

(** ** Sets *)

Lemma StringSet_AddSlice_spec s l x : x ∈ StringSet_AddSlice s l ↔ x ∈ s ∨ x ∈ l.
Proof.
  unfold StringSet_AddSlice. revert s. induction l as [|y l IH]; intros s; simpl.
  - set_solver.
  - rewrite IH. unfold StringSet_Add. set_solver.
Qed.

Lemma range_keys_elem `{GoRuntime} {A} (m : gmap string A) k :
  k ∈ range_keys m ↔ is_Some (m !! k).
Proof.
  unfold range_keys. rewrite list_elem_of_fmap. split.
  - intros ([k' v] & -> & Hin). apply go_range_elem in Hin. simpl. eauto.
  - intros [v Hv]. exists (k, v). split; [done|]. by apply go_range_elem.
Qed.

Lemma range_keys_NoDup `{GoRuntime} {A} (m : gmap string A) : NoDup (range_keys m).
Proof. apply go_range_keys_NoDup. Qed.

Lemma StringSet_AsSlice_elem `{GoRuntime} s x : x ∈ StringSet_AsSlice s ↔ x ∈ s.
Proof.
  unfold StringSet_AsSlice. rewrite range_keys_elem, <- elem_of_dom.
  by rewrite dom_gset_to_gmap.
Qed.

Lemma StringSet_Intersect_spec `{GoRuntime} s s2 : StringSet_Intersect s s2 = s ∩ s2.
Proof.
  unfold StringSet_Intersect.
  assert (∀ l acc, foldl (λ acc k, if negb (StringSet_Has s2 k)
                        then StringSet_Remove acc k else acc) acc l
    = acc ∖ (list_to_set l ∖ s2)) as E.
  { induction l as [|k l IH]; intros acc; simpl; [set_solver|]. rewrite IH.
    unfold StringSet_Has, StringSet_Remove.
    destruct (bool_decide_reflect (k ∈ s2)); simpl; set_solver. }
  rewrite E. apply set_eq. intros x.
  rewrite elem_of_difference, elem_of_difference, elem_of_list_to_set,
    StringSet_AsSlice_elem, elem_of_intersection.
  destruct (decide (x ∈ s2)); tauto.
Qed.

(** ** Maps of booleans *)

Lemma forallb_keys `{GoRuntime} {A} (f : string → bool) (m : gmap string A) :
  forallb f (range_keys m) = true ↔ ∀ k, is_Some (m !! k) → f k = true.
Proof.
  rewrite forallb_forall. setoid_rewrite <- list_elem_of_In.
  by setoid_rewrite range_keys_elem.
Qed.

Lemma sm_lookup_true sm k : sm_lookup sm k = true ↔ sm_entries sm !! k = Some true.
Proof.
  unfold sm_lookup. destruct (sm_entries sm !! k) as [[]|]; simpl; split; congruence.
Qed.

(** ** Flags *)

(** The flag one entry is written as. *)
Definition flag_text (key : string) (ps : list string) : string :=
  if decide (ps ≠ []) then ConcatenatedKey [key; Join ps INFIELD_SEP] else key.

Lemma SliceFlags_text `{GoRuntime} (fWp : FlagsWithParams) :
  FlagsWithParams_SliceFlags fWp = (λ '(k, ps), flag_text k ps) <$> go_range fWp.
Proof.
  unfold FlagsWithParams_SliceFlags, range_keys.
  assert (∀ l acc, (∀ k ps, (k, ps) ∈ l → fWp !! k = Some ps) →
    foldl (λ sls key,
      let prmSlice := FlagsWithParams_ParamsSlice fWp key in
      if decide (prmSlice ≠ []) then
        sls ++ [ConcatenatedKey [key; Join prmSlice INFIELD_SEP]]
      else sls ++ [key]) acc l.*1 = acc ++ ((λ '(k, ps), flag_text k ps) <$> l)) as E.
  { induction l as [|[k ps] l IH]; intros acc Hl; csimpl; [by rewrite app_nil_r|].
    rewrite IH by (intros; apply Hl; by right). unfold FlagsWithParams_ParamsSlice.
    rewrite (Hl k ps) by left. simpl. unfold flag_text.
    destruct (decide (ps ≠ [])); by rewrite <- app_assoc. }
  rewrite E; [done|]. intros k ps. apply go_range_elem.
Qed.

(** A subsystem name and its parameters as the flags' syntax can carry them. *)
Definition flag_ok (key : string) (ps : list string) : Prop :=
  has_char ":" key = false ∧
  Forall (λ p, has_char ":" p = false ∧ has_char ";" p = false) ps.

Lemma has_char_Join c ps sep :
  has_char c sep = false → Forall (λ p, has_char c p = false) ps →
  has_char c (Join ps sep) = false.
Proof.
  intros Hs. induction 1 as [|p ps Hp Hps IH]; [done|].
  destruct ps; [by rewrite Join_single|].
  rewrite Join_cons, !has_char_app, Hp, Hs by done. apply IH.
Qed.

Lemma flags_add_text result k ps :
  flag_ok k ps → flags_add (Ok result) (flag_text k ps) = Ok (<[k := ps]> result).
Proof.
  intros [Hk Hps]. unfold flags_add, flag_text, ConcatenatedKey. simpl mbind.
  destruct (decide (ps ≠ [])) as [Hne|Hnil].
  - assert (has_char ":" (Join ps ";") = false) as Hj.
    { apply has_char_Join; [done|]. eapply Forall_impl; [exact Hps|]. by intros p [? _]. }
    unfold CONCATENATED_KEY_SEP, INFIELD_SEP, InInFieldSep.
    rewrite (Split_Join ":" [k; Join ps ";"]) by (done || by repeat constructor).
    change (index [k; Join ps ";"] 0) with (Ok k).
    change (index [k; Join ps ";"] 1) with (Ok (Join ps ";")). simpl.
    rewrite Split_Join; [|done|].
    + f_equal. apply (insert_insert_eq (M := gmap string)).
    + eapply Forall_impl; [exact Hps|]. by intros p [_ ?].
  - destruct ps; [|by destruct Hnil]. unfold InInFieldSep.
    assert (Split k ":" = [k]) as ->; [|done].
    rewrite <- (Join_single ":" k) at 1.
    by rewrite (Split_Join ":" [k]) by (done || by repeat constructor).
Qed.

Lemma foldl_flags_add l result :
  (∀ k ps, (k, ps) ∈ l → flag_ok k ps) →
  foldl flags_add (Ok result) ((λ '(k, ps), flag_text k ps) <$> l)
  = Ok (foldl (λ m '(k, ps), <[k := ps]> m) result l).
Proof.
  revert result. induction l as [|[k ps] l IH]; intros result Hl; [done|].
  rewrite fmap_cons. cbn [foldl]. rewrite flags_add_text by (apply Hl; left).
  apply IH. intros. apply Hl. by right.
Qed.

Lemma foldl_insert_lookup {A} (l : list (string * A)) (m : gmap string A) k :
  NoDup l.*1 →
  foldl (λ m '(k, ps), <[k := ps]> m) m l !! k
  = match (list_to_map l : gmap string A) !! k with Some v => Some v | None => m !! k end.
Proof.
  revert m. induction l as [|[k' v] l IH]; intros m; csimpl; [by rewrite lookup_empty|].
  intros [Hk' Hnd]%NoDup_cons. rewrite IH by done.
  destruct (decide (k = k')) as [->|Hne].
  - rewrite lookup_insert_eq, (not_elem_of_list_to_map_1 l k') by done.
    by rewrite lookup_insert_eq.
  - by rewrite !lookup_insert_ne.
Qed.

(** * Properties *)

(** Membership by sort and binary search is membership, and removing a
    member removes one occurrence of it and nothing else. *)
Theorem slice_members `{GoRuntime} (ss : list string) (s : string) :
  ((IsSliceMember ss s).1 = true ↔ s ∈ ss) ∧ (IsSliceMember ss s).2 ≡ₚ ss ∧
  (s ∈ ss → s :: SliceWithoutMember ss s ≡ₚ ss) ∧
  (s ∉ ss → SliceWithoutMember ss s ≡ₚ ss).
Proof.
  assert (sorted_by str_ltb (go_sort str_ltb ss)) as Hs by (apply go_sort_all, _).
  pose proof (SliceHasMember_sorted (go_sort str_ltb ss) s Hs) as Hm.
  rewrite go_sort_elem in Hm. unfold IsSliceMember, SliceWithoutMember. simpl.
  split_and!; [done|apply go_sort_perm|..].
  - intros Hin. apply Hm in Hin. unfold SliceHasMember in Hin. rewrite Hin.
    apply found_at_lookup in Hin. rewrite (swap_remove_perm _ _ _ Hin).
    apply go_sort_perm.
  - intros Hin. destruct (found_at _ _ s) eqn:E; [|apply go_sort_perm].
    destruct Hin. by apply Hm.
Qed.

(** The string set is a set: it holds what was added, its ordered slice
    lists each member once in increasing order and depends on nothing but the
    members, and intersecting keeps the common members. *)
Theorem StringSet_spec `{GoRuntime} (data data2 : list string) :
  let s := NewStringSet data in
  (∀ x, StringSet_Has s x = true ↔ x ∈ data) ∧
  (∀ x, x ∈ StringSet_AsOrderedSlice s ↔ x ∈ data) ∧
  NoDup (StringSet_AsOrderedSlice s) ∧
  sorted_by str_ltb (StringSet_AsOrderedSlice s) ∧
  (∀ l, NoDup l → sorted_by str_ltb l → (∀ x, x ∈ l ↔ x ∈ data) →
        StringSet_AsOrderedSlice s = l) ∧
  (∀ x, StringSet_Has (StringSet_Intersect s (NewStringSet data2)) x = true
        ↔ x ∈ data ∧ x ∈ data2).
Proof.
  intros s. assert (∀ d x, x ∈ NewStringSet d ↔ x ∈ d) as Hin.
  { intros d x. unfold NewStringSet. rewrite StringSet_AddSlice_spec. set_solver. }
  assert (∀ x, x ∈ StringSet_AsOrderedSlice s ↔ x ∈ data) as Hel.
  { intros x. unfold StringSet_AsOrderedSlice.
    rewrite go_sort_elem, StringSet_AsSlice_elem. apply Hin. }
  assert (NoDup (StringSet_AsOrderedSlice s)) as Hnd.
  { unfold StringSet_AsOrderedSlice. rewrite go_sort_perm. apply range_keys_NoDup. }
  unfold StringSet_Has. split_and!; [|done|done|apply go_sort_all, _|..].
  - intros x. rewrite bool_decide_eq_true. apply Hin.
  - intros l Hl Hs Hx. apply (sorted_by_unique str_ltb); [|apply go_sort_all, _|done|].
    + intros a b _ _. apply str_ltb_total.
    + apply NoDup_Permutation; [done|done|]. intros x. by rewrite Hel, Hx.
  - intros x. rewrite bool_decide_eq_true, StringSet_Intersect_spec.
    rewrite elem_of_intersection. unfold s. by rewrite !Hin.
Qed.

(** What map equality means: the two maps have as many keys and every key of
    the first is set to true in the second.  It is reflexive exactly on the maps
    without a negated ("!") entry, so a map holding one differs from itself. *)
Theorem StringMap_Equal_spec `{GoRuntime} (sm om : StringMap) :
  (StringMap_Equal sm om = true ↔
     (sm = None → om = None) ∧ size (sm_entries sm) = size (sm_entries om) ∧
     ∀ k, is_Some (sm_entries sm !! k) → sm_entries om !! k = Some true) ∧
  (StringMap_Equal sm sm = true ↔ ∀ k, sm_entries sm !! k ≠ Some false).
Proof.
  assert (∀ om, StringMap_Equal sm om = true ↔
     (sm = None → om = None) ∧ size (sm_entries sm) = size (sm_entries om) ∧
     ∀ k, is_Some (sm_entries sm !! k) → sm_entries om !! k = Some true) as E.
  { clear om. intros om. unfold StringMap_Equal.
    destruct (bool_decide_reflect (sm = None)) as [->|Hsm];
      destruct (bool_decide_reflect (om = None)) as [->|Hom]; simpl.
    2: { split; [done|]. intros [Hn _]. destruct Hom. by apply Hn. }
    all: match goal with |- context [Nat.eqb ?a ?b] => destruct (Nat.eqb_spec a b) end;
      simpl; try (split; [done|]; intros (_ & ? & _); done).
    all: rewrite forallb_keys; setoid_rewrite sm_lookup_true; tauto. }
  split; [apply E|]. rewrite E. split.
  - intros (_ & _ & Hk) k Hf. specialize (Hk k). rewrite Hf in Hk.
    by discriminate Hk.
  - intros Hk. split_and!; [done|done|]. intros k [[] Hb]; [done|by destruct (Hk k)].
Qed.

(** Flags survive being written as a slice and read back: no parameters
    become none, parameters keep their order. *)
Theorem flags_roundtrip `{GoRuntime} (fWp : FlagsWithParams)
    (Hok : ∀ k ps, fWp !! k = Some ps → flag_ok k ps) :
  FlagsWithParamsFromSlice (FlagsWithParams_SliceFlags fWp) = Ok fWp.
Proof.
  unfold FlagsWithParamsFromSlice. rewrite SliceFlags_text, foldl_flags_add.
  - f_equal. apply map_eq. intros k.
    etransitivity;
      [exact (foldl_insert_lookup (go_range fWp) ∅ k (go_range_keys_NoDup fWp))|].
    rewrite lookup_empty. destruct (fWp !! k) as [ps|] eqn:E.
    + rewrite (elem_of_list_to_map_1 (M := gmap string) (go_range fWp) k ps);
        [done|apply go_range_keys_NoDup|by apply go_range_elem].
    + rewrite (not_elem_of_list_to_map_1 (M := gmap string)); [done|].
      intros Hin. apply (range_keys_elem fWp k) in Hin as [v Hv].
      assert (Some v = None) as [=] by (rewrite <- Hv; exact E).
  - intros k ps Hin. apply Hok. by apply go_range_elem.
Qed.

Lemma flags_roundtrip_witness :
  let fWp := <["*sessions" := ["a"; "b"]]> (<["*log" := []]> ∅) in
  @FlagsWithParamsFromSlice (@FlagsWithParams_SliceFlags reference_runtime fWp) = Ok fWp.
Proof.
  apply (@flags_roundtrip reference_runtime). intros k ps.
  intros [[<- <-]|[_ [[<- <-]|[_ [=]]]%lookup_insert_Some]]%lookup_insert_Some;
    (split; [reflexivity|repeat constructor]).
Defined.
