(* ===== verification/PathItemList.v ===== *)
(** * The doubly linked list of path items

    [utils/pathitemlist.go]: a ring of elements through the sentinel [root] that
    is embedded in the list, with [next], [prev] and [list] pointers that the
    operations rewire in place.  The model keeps the store of elements and lists
    and the pointers in it; the abstraction of a list is the sequence of its
    elements, and every operation is shown to act on that sequence as its name
    says while leaving the other lists of the store alone. *)
From S2P Require Import Prelude GoStrings.

Record PathItem := mkPathItem { pi_Field : string; pi_Index : option Z }.
Definition PathItems := list PathItem.

(** [&l.root] of list [l], or the element allocated as number [n]. *)
Abbreviation ptr := (nat + nat)%type.
Definition root (l : nat) : ptr := inl l.

Record PathItemElement := mkElement {
  n_next : option ptr; n_prev : option ptr; n_list : option nat; n_Value : PathItems }.

(** The store: elements (sentinels included), the [len] fields, the next free
    element number. *)
Record store := mkStore {
  st_elem : gmap ptr PathItemElement; st_len : gmap nat Z; st_fresh : nat }.

Definition load (p : ptr) (h : store) : res PathItemElement := deref (st_elem h !! p).

Definition upd (p : ptr) (f : PathItemElement → PathItemElement) (h : store)
    : res store :=
  n ← load p h; Ok (mkStore (<[p := f n]> (st_elem h)) (st_len h) (st_fresh h)).

Definition set_next (p : ptr) (v : option ptr) : store → res store :=
  upd p (λ n, mkElement v (n_prev n) (n_list n) (n_Value n)).
Definition set_prev (p : ptr) (v : option ptr) : store → res store :=
  upd p (λ n, mkElement (n_next n) v (n_list n) (n_Value n)).
Definition set_list (p : ptr) (v : option nat) : store → res store :=
  upd p (λ n, mkElement (n_next n) (n_prev n) v (n_Value n)).

Definition get_len (l : nat) (h : store) : res Z := deref (st_len h !! l).
Definition set_len (l : nat) (v : Z) (h : store) : store :=
  mkStore (st_elem h) (<[l := v]> (st_len h)) (st_fresh h).

(** [&PathItemElement{Value: v}] *)
Definition new_element (v : PathItems) (h : store) : ptr * store :=
  (inr (st_fresh h),
   mkStore (<[inr (st_fresh h) := mkElement None None None v]> (st_elem h))
     (st_len h) (S (st_fresh h))).

(** ** Operations *)

Definition PathItemElement_Next (e : ptr) (h : store) : res (option ptr) :=
  n ← load e h;
  Ok match n_list n with
     | Some l => if decide (n_next n = Some (root l)) then None else n_next n
     | None => None
     end.

Definition PathItemElement_Prev (e : ptr) (h : store) : res (option ptr) :=
  n ← load e h;
  Ok match n_list n with
     | Some l => if decide (n_prev n = Some (root l)) then None else n_prev n
     | None => None
     end.

Definition PathItemList_Init (l : nat) (h : store) : res store :=
  h ← set_next (root l) (Some (root l)) h;
  h ← set_prev (root l) (Some (root l)) h;
  Ok (set_len l 0 h).

(** [new(PathItemList)] as list number [l], the zero value. *)
Definition zero_list (l : nat) (h : store) : store :=
  mkStore (<[root l := mkElement None None None []]> (st_elem h))
    (<[l := 0]> (st_len h)) (st_fresh h).
Definition NewPathItemList (l : nat) (h : store) : res store :=
  PathItemList_Init l (zero_list l h).

Definition PathItemList_Len (l : nat) (h : store) : res Z := get_len l h.

Definition PathItemList_Front (l : nat) (h : store) : res (option ptr) :=
  len ← get_len l h;
  if len =? 0 then Ok None else r ← load (root l) h; Ok (n_next r).

Definition PathItemList_Back (l : nat) (h : store) : res (option ptr) :=
  len ← get_len l h;
  if len =? 0 then Ok None else r ← load (root l) h; Ok (n_prev r).

Definition lazyInit (l : nat) (h : store) : res store :=
  r ← load (root l) h;
  if decide (n_next r = None) then PathItemList_Init l h else Ok h.

Definition list_insert (l : nat) (e at_ : ptr) (h : store) : res (ptr * store) :=
  a ← load at_ h;
  let n := n_next a in
  h ← set_next at_ (Some e) h;
  h ← set_prev e (Some at_) h;
  h ← set_next e n h;
  n ← deref n;
  h ← set_prev n (Some e) h;
  h ← set_list e (Some l) h;
  len ← get_len l h;
  Ok (e, set_len l (add64 len 1) h).

Definition insertValue (l : nat) (v : PathItems) (at_ : ptr) (h : store)
    : res (ptr * store) :=
  let '(e, h) := new_element v h in list_insert l e at_ h.

Definition list_remove (l : nat) (e : ptr) (h : store) : res store :=
  n ← load e h;
  p ← deref (n_prev n);
  h ← set_next p (n_next n) h;
  n ← load e h;
  q ← deref (n_next n);
  h ← set_prev q (n_prev n) h;
  h ← set_next e None h;
  h ← set_prev e None h;
  h ← set_list e None h;
  len ← get_len l h;
  Ok (set_len l (sub64 len 1) h).

Definition list_move (e at_ : ptr) (h : store) : res store :=
  if decide (e = at_) then Ok h
  else
    n ← load e h;
    p ← deref (n_prev n);
    h ← set_next p (n_next n) h;
    n ← load e h;
    q ← deref (n_next n);
    h ← set_prev q (n_prev n) h;
    a ← load at_ h;
    let n := n_next a in
    h ← set_next at_ (Some e) h;
    h ← set_prev e (Some at_) h;
    h ← set_next e n h;
    n ← deref n;
    set_prev n (Some e) h.

Definition PathItemList_Remove (l : nat) (e : ptr) (h : store)
    : res (PathItems * store) :=
  n ← load e h;
  h ← (if decide (n_list n = Some l) then list_remove l e h else Ok h);
  n ← load e h;
  Ok (n_Value n, h).

Definition PushFront (l : nat) (v : PathItems) (h : store) : res (ptr * store) :=
  h ← lazyInit l h; insertValue l v (root l) h.

Definition PushBack (l : nat) (v : PathItems) (h : store) : res (ptr * store) :=
  h ← lazyInit l h;
  r ← load (root l) h; at_ ← deref (n_prev r);
  insertValue l v at_ h.

Definition InsertBefore (l : nat) (v : PathItems) (mark : ptr) (h : store)
    : res (option ptr * store) :=
  m ← load mark h;
  if decide (n_list m ≠ Some l) then Ok (None, h)
  else at_ ← deref (n_prev m); '(e, h) ← insertValue l v at_ h; Ok (Some e, h).

Definition InsertAfter (l : nat) (v : PathItems) (mark : ptr) (h : store)
    : res (option ptr * store) :=
  m ← load mark h;
  if decide (n_list m ≠ Some l) then Ok (None, h)
  else '(e, h) ← insertValue l v mark h; Ok (Some e, h).

Definition MoveToFront (l : nat) (e : ptr) (h : store) : res store :=
  n ← load e h; r ← load (root l) h;
  if decide (n_list n ≠ Some l ∨ n_next r = Some e) then Ok h
  else list_move e (root l) h.

Definition MoveToBack (l : nat) (e : ptr) (h : store) : res store :=
  n ← load e h; r ← load (root l) h;
  if decide (n_list n ≠ Some l ∨ n_prev r = Some e) then Ok h
  else at_ ← deref (n_prev r); list_move e at_ h.

Definition MoveBefore (l : nat) (e mark : ptr) (h : store) : res store :=
  n ← load e h; m ← load mark h;
  if decide (n_list n ≠ Some l ∨ e = mark ∨ n_list m ≠ Some l) then Ok h
  else at_ ← deref (n_prev m); list_move e at_ h.

Definition MoveAfter (l : nat) (e mark : ptr) (h : store) : res store :=
  n ← load e h; m ← load mark h;
  if decide (n_list n ≠ Some l ∨ e = mark ∨ n_list m ≠ Some l) then Ok h
  else list_move e mark h.

(** The loop of [PushBackList]: [i] counts down from the length of [other] taken
    before the first insertion. *)
Fixpoint push_back_loop (l : nat) (i : nat) (e : option ptr) (h : store) : res store :=
  match i with
  | O => Ok h
  | S i' =>
      e ← deref e; n ← load e h;
      r ← load (root l) h; at_ ← deref (n_prev r);
      '(_, h) ← insertValue l (n_Value n) at_ h;
      e' ← PathItemElement_Next e h;
      push_back_loop l i' e' h
  end.

Definition PushBackList (l other : nat) (h : store) : res store :=
  h ← lazyInit l h;
  len ← get_len other h;
  e ← PathItemList_Front other h;
  push_back_loop l (Z.to_nat len) e h.

Fixpoint push_front_loop (l : nat) (i : nat) (e : option ptr) (h : store) : res store :=
  match i with
  | O => Ok h
  | S i' =>
      e ← deref e; n ← load e h;
      '(_, h) ← insertValue l (n_Value n) (root l) h;
      e' ← PathItemElement_Prev e h;
      push_front_loop l i' e' h
  end.

Definition PushFrontList (l other : nat) (h : store) : res store :=
  h ← lazyInit l h;
  len ← get_len other h;
  e ← PathItemList_Back other h;
  push_front_loop l (Z.to_nat len) e h.

(** * Abstraction *)

(** The fields of the store, read as functions. *)
Definition nxt (h : store) (p : ptr) : option ptr := st_elem h !! p ≫= n_next.
Definition prv (h : store) (p : ptr) : option ptr := st_elem h !! p ≫= n_prev.
Definition own (h : store) (p : ptr) : option nat := st_elem h !! p ≫= n_list.
Definition val (h : store) (p : ptr) : option PathItems := n_Value <$> st_elem h !! p.

(** A path of mutually linked elements. *)
Fixpoint linked (nx pv : ptr → option ptr) (path : list ptr) : Prop :=
  match path with
  | a :: ((b :: _) as r) => nx a = Some b ∧ pv b = Some a ∧ linked nx pv r
  | _ => True
  end.

(** The ring of list [l] with elements [ps]. *)
Definition path (l : nat) (ps : list nat) : list ptr :=
  root l :: (inr <$> ps) ++ [root l].

Record repr (h : store) (l : nat) (ps : list nat) : Prop := {
  repr_linked : linked (nxt h) (prv h) (path l ps);
  repr_NoDup : NoDup ps;
  repr_own n : own h (inr n) = Some l ↔ n ∈ ps;
  repr_len : st_len h !! l = Some (Z.of_nat (length ps))
}.

(** A list that is a ring, or a zero value, which is empty. *)
Definition zero (h : store) (l : nat) : Prop :=
  is_Some (st_elem h !! root l) ∧ nxt h (root l) = None ∧
  (∀ n, own h (inr n) ≠ Some l) ∧ st_len h !! l = Some 0.
Definition valid (h : store) (l : nat) (ps : list nat) : Prop :=
  repr h l ps ∨ zero h l ∧ ps = [].

(** Element numbers are handed out in order. *)
Definition wf (h : store) : Prop := ∀ n, (st_fresh h ≤ n)%nat → st_elem h !! inr n = None.

(** What an operation on list [l] leaves alone. *)
Record preserved (h h' : store) (l : nat) : Prop := {
  pres_wf : wf h';
  pres_repr l' ps : l' ≠ l → repr h l' ps → repr h' l' ps;
  pres_zero l' : l' ≠ l → zero h l' → zero h' l';
  pres_val p x : val h p = Some x → val h' p = Some x
}.

(** ** Assignments to one field *)

Definition same_but (h h' : store) : Prop :=
  (∀ q, is_Some (st_elem h' !! q) ↔ is_Some (st_elem h !! q)) ∧
  (∀ q, val h' q = val h q) ∧ st_len h' = st_len h ∧ st_fresh h' = st_fresh h.

Lemma same_but_trans h1 h2 h3 : same_but h1 h2 → same_but h2 h3 → same_but h1 h3.
Proof.
  intros (A1 & B1 & C1 & D1) (A2 & B2 & C2 & D2).
  split_and!; [intros q; by rewrite A2|intros q; by rewrite B2|congruence..].
Qed.

Ltac solve_set :=
  match goal with H : is_Some (st_elem ?h !! ?p) |- _ =>
    let n := fresh "n" in let E := fresh "E" in
    destruct H as [n E]; unfold set_next, set_prev, set_list, upd, load;
    rewrite E; simpl; eexists; split; [done|]; unfold nxt, prv, own, same_but, val; simpl;
    split_and!; try done; intros q; destruct (decide (q = p)) as [->|];
    rewrite ?lookup_insert_eq, ?lookup_insert_ne, ?E by done; simpl;
    rewrite ?decide_True by done; rewrite ?decide_False by done; try done; naive_solver
  end.

Lemma set_next_ok p v h :
  is_Some (st_elem h !! p) → ∃ h', set_next p v h = Ok h' ∧
  (∀ q, nxt h' q = if decide (q = p) then v else nxt h q) ∧
  (∀ q, prv h' q = prv h q) ∧ (∀ q, own h' q = own h q) ∧ same_but h h'.
Proof. intros H. solve_set. Qed.

Lemma set_prev_ok p v h :
  is_Some (st_elem h !! p) → ∃ h', set_prev p v h = Ok h' ∧
  (∀ q, nxt h' q = nxt h q) ∧
  (∀ q, prv h' q = if decide (q = p) then v else prv h q) ∧
  (∀ q, own h' q = own h q) ∧ same_but h h'.
Proof. intros H. solve_set. Qed.

Lemma set_list_ok p v h :
  is_Some (st_elem h !! p) → ∃ h', set_list p v h = Ok h' ∧
  (∀ q, nxt h' q = nxt h q) ∧ (∀ q, prv h' q = prv h q) ∧
  (∀ q, own h' q = if decide (q = p) then v else own h q) ∧ same_but h h'.
Proof. intros H. solve_set. Qed.

Lemma load_ok p h :
  is_Some (st_elem h !! p) → ∃ n, load p h = Ok n ∧ n_next n = nxt h p ∧
  n_prev n = prv h p ∧ n_list n = own h p ∧ val h p = Some (n_Value n).
Proof.
  intros [n E]. exists n. unfold load, nxt, prv, own, val. rewrite E. done.
Qed.

Lemma nxt_alloc h p q : nxt h p = Some q → is_Some (st_elem h !! p).
Proof. unfold nxt. destruct (st_elem h !! p); [eauto|done]. Qed.
Lemma prv_alloc h p q : prv h p = Some q → is_Some (st_elem h !! p).
Proof. unfold prv. destruct (st_elem h !! p); [eauto|done]. Qed.
Lemma own_alloc h p l : own h p = Some l → is_Some (st_elem h !! p).
Proof. unfold own. destruct (st_elem h !! p); [eauto|done]. Qed.

(** ** Paths *)

Lemma linked_app nx pv x a y :
  linked nx pv (x ++ a :: y) ↔ linked nx pv (x ++ [a]) ∧ linked nx pv (a :: y).
Proof.
  induction x as [|b x IH]; [simpl; tauto|]. destruct x as [|c x]; simpl in *; [tauto|].
  rewrite IH. tauto.
Qed.

Lemma linked_ext nx pv nx' pv' path :
  (∀ p, p ∈ removelast path → nx' p = nx p) →
  (∀ p, p ∈ tail path → pv' p = pv p) →
  linked nx pv path → linked nx' pv' path.
Proof.
  induction path as [|a [|b r] IH]; [done|done|]. intros Hn Hp (H1 & H2 & H3).
  cbn [linked]. split_and!.
  - rewrite Hn; [done|]. simpl. by left.
  - rewrite Hp; [done|]. simpl. by left.
  - apply IH; [|intros p Hin; apply Hp; simpl; by right|done].
    intros p Hin. apply Hn. cbn [removelast]. by right.
Qed.

Lemma removelast_split {A} (pre : list A) a b post :
  removelast (pre ++ a :: b :: post) = pre ++ a :: removelast (b :: post).
Proof. rewrite removelast_app by done. done. Qed.

Lemma tail_split {A} (pre : list A) a r : tail (pre ++ a :: r) = tail (pre ++ [a]) ++ r.
Proof. destruct pre; simpl; [done|]. by rewrite <- app_assoc. Qed.

Section path_updates.
Context (nx pv nx' pv' : ptr → option ptr).
Context (pre : list ptr) (a e b : ptr) (post : list ptr).
Context (Hr : NoDup (removelast (pre ++ a :: b :: post))).
Context (Ht : NoDup (tail (pre ++ a :: b :: post))).
Context (He : e ∉ pre ++ a :: b :: post).

Lemma path_ends :
  (a ∉ pre) ∧ (a ∉ removelast (b :: post)) ∧ (b ∉ tail (pre ++ [a])) ∧ (b ∉ post).
Proof.
  rewrite removelast_split in Hr. rewrite tail_split in Ht.
  apply NoDup_app in Hr as (_ & Hd & Hl). apply NoDup_cons in Hl as [Hl _].
  apply NoDup_app in Ht as (_ & Hd' & Hl'). apply NoDup_cons in Hl' as [Hl' _].
  split_and!; [|done| |done].
  - intros Hin. apply (Hd a Hin). by left.
  - intros Hin. apply (Hd' b Hin). by left.
Qed.

Lemma path_fresh : (e ∉ pre) ∧ (e ≠ a) ∧ (e ≠ b) ∧ (e ∉ post).
Proof.
  rewrite elem_of_app, !elem_of_cons in He. split_and!; intros ?; apply He; tauto.
Qed.

Lemma tail_pre_fresh : e ∉ tail (pre ++ [a]).
Proof.
  destruct path_fresh as (E1 & E2 & _). intros Hin. destruct pre as [|x r]; [done|].
  simpl in Hin. apply elem_of_app in Hin as [Hin|Hin].
  - apply E1. by right.
  - by apply list_elem_of_singleton in Hin.
Qed.

Lemma removelast_elem (r : list ptr) p : p ∈ removelast r → p ∈ r.
Proof.
  revert p. induction r as [|x [|y r] IH]; intros p; [done|intros Hin; inversion Hin|].
  cbn [removelast]. intros [->|Hin]%elem_of_cons; [by left|right; by apply IH].
Qed.

(** The part of a path outside the place of the change keeps its links. *)
Lemma linked_parts :
  (∀ q, q ≠ e → q ≠ a → nx' q = nx q) → (∀ q, q ≠ e → q ≠ b → pv' q = pv q) →
  linked nx pv (pre ++ [a]) → linked nx pv (b :: post) →
  linked nx' pv' (pre ++ [a]) ∧ linked nx' pv' (b :: post).
Proof.
  intros Hn Hp H1 H2. destruct path_ends as (Ha1 & Ha2 & Hb1 & Hb2).
  destruct path_fresh as (E1 & E2 & E3 & E4).
  split; (eapply linked_ext; [| |eassumption]).
  - rewrite removelast_app by done. cbn [removelast]. rewrite app_nil_r. intros p Hin. apply Hn; intros ->; contradiction.
  - intros p Hin. pose proof tail_pre_fresh. apply Hp; intros ->; contradiction.
  - intros p Hin. pose proof (removelast_elem _ _ Hin) as Hin2.
    apply elem_of_cons in Hin2. apply Hn; intros ->; tauto.
  - simpl. intros p Hin. apply Hp; intros ->; contradiction.
Qed.

Lemma link_path :
  (∀ q, q ≠ e → nx' q = if decide (q = a) then Some e else nx q) →
  (∀ q, q ≠ e → pv' q = if decide (q = b) then Some e else pv q) →
  nx' e = Some b → pv' e = Some a →
  linked nx pv (pre ++ a :: b :: post) → linked nx' pv' (pre ++ a :: e :: b :: post).
Proof.
  intros Hn Hp Hne Hpe.
  rewrite (linked_app nx pv pre a), (linked_app nx' pv' pre a). cbn [linked].
  intros (H1 & _ & _ & H2).
  destruct linked_parts as [H1' H2']; [..|exact H1|exact H2|].
  - intros q Hq Hqa. by rewrite Hn, decide_False.
  - intros q Hq Hqb. by rewrite Hp, decide_False.
  - destruct path_fresh as (E1 & E2 & E3 & E4). split_and!; try done.
    + rewrite Hn; [|by intros ->]. by rewrite decide_True.
    + rewrite Hp; [|by intros ->]. by rewrite decide_True.
Qed.

Lemma unlink_path :
  (∀ q, q ≠ e → nx' q = if decide (q = a) then Some b else nx q) →
  (∀ q, q ≠ e → pv' q = if decide (q = b) then Some a else pv q) →
  linked nx pv (pre ++ a :: e :: b :: post) → linked nx' pv' (pre ++ a :: b :: post).
Proof.
  intros Hn Hp.
  rewrite (linked_app nx pv pre a), (linked_app nx' pv' pre a). cbn [linked].
  intros (H1 & _ & _ & _ & _ & H2).
  destruct linked_parts as [H1' H2']; [..|exact H1|exact H2|].
  - intros q Hq Hqa. by rewrite Hn, decide_False.
  - intros q Hq Hqb. by rewrite Hp, decide_False.
  - destruct path_fresh as (E1 & E2 & E3 & E4). split_and!; try done.
    + rewrite Hn; [|by intros ->]. by rewrite decide_True.
    + rewrite Hp; [|by intros ->]. by rewrite decide_True.
Qed.
End path_updates.

(** ** The rewiring steps *)

Lemma same_but_alloc h h' q :
  same_but h h' → is_Some (st_elem h !! q) → is_Some (st_elem h' !! q).
Proof. intros (A & _) H. by apply A. Qed.

(** The store outside one element's links and one list's length. *)
Definition rewired (h h' : store) : Prop :=
  (∀ q, is_Some (st_elem h' !! q) ↔ is_Some (st_elem h !! q)) ∧
  (∀ q, val h' q = val h q) ∧ st_fresh h' = st_fresh h.

Lemma same_but_rewired h h' : same_but h h' → rewired h h'.
Proof. intros (A & B & _ & D). done. Qed.

Lemma list_insert_ok l e at_ b k h :
  is_Some (st_elem h !! e) → e ≠ at_ → nxt h at_ = Some b → b ≠ e →
  is_Some (st_elem h !! b) → st_len h !! l = Some k →
  ∃ h', list_insert l e at_ h = Ok (e, h') ∧
    (∀ q, nxt h' q = if decide (q = e) then Some b
                     else if decide (q = at_) then Some e else nxt h q) ∧
    (∀ q, prv h' q = if decide (q = b) then Some e
                     else if decide (q = e) then Some at_ else prv h q) ∧
    (∀ q, own h' q = if decide (q = e) then Some l else own h q) ∧
    st_len h' = <[l := add64 k 1]> (st_len h) ∧ rewired h h'.
Proof.
  intros He Hne Hat Hbe Hb Hk. unfold list_insert.
  destruct (load_ok at_ h (nxt_alloc _ _ _ Hat)) as (a & -> & Ea & _). simpl.
  rewrite Ea, Hat.
  destruct (set_next_ok at_ (Some e) h (nxt_alloc _ _ _ Hat))
    as (h1 & -> & N1 & P1 & O1 & S1). simpl.
  destruct (set_prev_ok e (Some at_) h1) as (h2 & -> & N2 & P2 & O2 & S2);
    [by eapply same_but_alloc|]. simpl.
  pose proof (same_but_trans _ _ _ S1 S2) as T2.
  destruct (set_next_ok e (Some b) h2) as (h3 & -> & N3 & P3 & O3 & S3);
    [by eapply same_but_alloc|]. simpl.
  pose proof (same_but_trans _ _ _ T2 S3) as T3.
  destruct (set_prev_ok b (Some e) h3) as (h4 & -> & N4 & P4 & O4 & S4);
    [by eapply same_but_alloc|]. simpl.
  pose proof (same_but_trans _ _ _ T3 S4) as T4.
  destruct (set_list_ok e (Some l) h4) as (h5 & -> & N5 & P5 & O5 & S5);
    [by eapply same_but_alloc|]. simpl.
  pose proof (same_but_trans _ _ _ T4 S5) as T5.
  assert (get_len l h5 = Ok k) as ->.
  { unfold get_len. destruct T5 as (_ & _ & -> & _). by rewrite Hk. }
  simpl. eexists; split; [done|]. split_and!.
  - intros q. change (nxt (set_len l (add64 k 1) h5) q) with (nxt h5 q). by rewrite N5, N4, N3, N2, N1.
  - intros q. change (prv (set_len l (add64 k 1) h5) q) with (prv h5 q). by rewrite P5, P4, P3, P2, P1.
  - intros q. change (own (set_len l (add64 k 1) h5) q) with (own h5 q). by rewrite O5, O4, O3, O2, O1.
  - simpl. by destruct T5 as (_ & _ & -> & _).
  - apply same_but_rewired in T5. exact T5.
Qed.

Lemma list_remove_ok l e a b k h :
  prv h e = Some a → nxt h e = Some b → a ≠ e → b ≠ e →
  is_Some (st_elem h !! a) → is_Some (st_elem h !! b) → st_len h !! l = Some k →
  ∃ h', list_remove l e h = Ok h' ∧
    (∀ q, nxt h' q = if decide (q = e) then None
                     else if decide (q = a) then Some b else nxt h q) ∧
    (∀ q, prv h' q = if decide (q = e) then None
                     else if decide (q = b) then Some a else prv h q) ∧
    (∀ q, own h' q = if decide (q = e) then None else own h q) ∧
    st_len h' = <[l := sub64 k 1]> (st_len h) ∧ rewired h h'.
Proof.
  intros Hp Hn Hae Hbe Ha Hb Hk. pose proof (nxt_alloc _ _ _ Hn) as He.
  unfold list_remove.
  destruct (load_ok e h He) as (n0 & -> & En & Ep & _). simpl. rewrite Ep, Hp, En, Hn.
  simpl.
  destruct (set_next_ok a (Some b) h Ha) as (h1 & -> & N1 & P1 & O1 & S1). simpl.
  destruct (load_ok e h1) as (n1 & -> & En1 & Ep1 & _); [by eapply same_but_alloc|].
  simpl. rewrite Ep1, P1, Hp, En1, N1, decide_False, Hn by done. simpl.
  destruct (set_prev_ok b (Some a) h1) as (h2 & -> & N2 & P2 & O2 & S2);
    [by eapply same_but_alloc|]. simpl.
  pose proof (same_but_trans _ _ _ S1 S2) as T2.
  destruct (set_next_ok e None h2) as (h3 & -> & N3 & P3 & O3 & S3);
    [by eapply same_but_alloc|]. simpl.
  pose proof (same_but_trans _ _ _ T2 S3) as T3.
  destruct (set_prev_ok e None h3) as (h4 & -> & N4 & P4 & O4 & S4);
    [by eapply same_but_alloc|]. simpl.
  pose proof (same_but_trans _ _ _ T3 S4) as T4.
  destruct (set_list_ok e None h4) as (h5 & -> & N5 & P5 & O5 & S5);
    [by eapply same_but_alloc|]. simpl.
  pose proof (same_but_trans _ _ _ T4 S5) as T5.
  assert (get_len l h5 = Ok k) as ->.
  { unfold get_len. destruct T5 as (_ & _ & -> & _). by rewrite Hk. }
  simpl. eexists; split; [done|]. split_and!.
  - intros q. change (nxt (set_len l (sub64 k 1) h5) q) with (nxt h5 q). by rewrite N5, N4, N3, N2, N1.
  - intros q. change (prv (set_len l (sub64 k 1) h5) q) with (prv h5 q). by rewrite P5, P4, P3, P2, P1.
  - intros q. change (own (set_len l (sub64 k 1) h5) q) with (own h5 q). by rewrite O5, O4, O3, O2, O1.
  - simpl. by destruct T5 as (_ & _ & -> & _).
  - apply same_but_rewired in T5. exact T5.
Qed.

Lemma list_move_ok e at_ a b c h :
  e ≠ at_ → prv h e = Some a → nxt h e = Some b → a ≠ e → b ≠ e →
  is_Some (st_elem h !! a) → is_Some (st_elem h !! b) →
  (if decide (at_ = a) then Some b else nxt h at_) = Some c → c ≠ e →
  is_Some (st_elem h !! c) →
  ∃ h', list_move e at_ h = Ok h' ∧
    (∀ q, nxt h' q = if decide (q = e) then Some c
                     else if decide (q = at_) then Some e
                     else if decide (q = a) then Some b else nxt h q) ∧
    (∀ q, prv h' q = if decide (q = c) then Some e
                     else if decide (q = e) then Some at_
                     else if decide (q = b) then Some a else prv h q) ∧
    (∀ q, own h' q = own h q) ∧ st_len h' = st_len h ∧ rewired h h'.
Proof.
  intros Hne Hp Hn Hae Hbe Ha Hb Hc Hce Hcal. pose proof (nxt_alloc _ _ _ Hn) as He.
  unfold list_move. rewrite decide_False by done.
  destruct (load_ok e h He) as (n0 & -> & En & Ep & _). simpl. rewrite Ep, Hp, En, Hn.
  simpl.
  destruct (set_next_ok a (Some b) h Ha) as (h1 & -> & N1 & P1 & O1 & S1). simpl.
  destruct (load_ok e h1) as (n1 & -> & En1 & Ep1 & _); [by eapply same_but_alloc|].
  simpl. rewrite Ep1, P1, Hp, En1, N1, decide_False, Hn by done. simpl.
  destruct (set_prev_ok b (Some a) h1) as (h2 & -> & N2 & P2 & O2 & S2);
    [by eapply same_but_alloc|]. simpl.
  pose proof (same_but_trans _ _ _ S1 S2) as T2.
  assert (nxt h2 at_ = Some c) as Hat by (rewrite N2, N1; exact Hc).
  destruct (load_ok at_ h2 (nxt_alloc _ _ _ Hat)) as (n2 & -> & En2 & _). simpl.
  rewrite En2, Hat.
  destruct (set_next_ok at_ (Some e) h2 (nxt_alloc _ _ _ Hat))
    as (h3 & -> & N3 & P3 & O3 & S3). simpl.
  pose proof (same_but_trans _ _ _ T2 S3) as T3.
  destruct (set_prev_ok e (Some at_) h3) as (h4 & -> & N4 & P4 & O4 & S4);
    [by eapply same_but_alloc|]. simpl.
  pose proof (same_but_trans _ _ _ T3 S4) as T4.
  destruct (set_next_ok e (Some c) h4) as (h5 & -> & N5 & P5 & O5 & S5);
    [by eapply same_but_alloc|]. simpl.
  pose proof (same_but_trans _ _ _ T4 S5) as T5.
  destruct (set_prev_ok c (Some e) h5) as (h6 & -> & N6 & P6 & O6 & S6);
    [by eapply same_but_alloc|].
  pose proof (same_but_trans _ _ _ T5 S6) as T6.
  eexists; split; [done|]. split_and!.
  - intros q. by rewrite N6, N5, N4, N3, N2, N1.
  - intros q. by rewrite P6, P5, P4, P3, P2, P1.
  - intros q. by rewrite O6, O5, O4, O3, O2, O1.
  - by destruct T6 as (_ & _ & -> & _).
  - by apply same_but_rewired.
Qed.

(** ** Positions in a ring *)

Definition pos_before (l : nat) (xs : list nat) : ptr := default (root l) (inr <$> last xs).
Definition pos_after (l : nat) (ys : list nat) : ptr := default (root l) (inr <$> head ys).

Lemma path_split l xs ys :
  ∃ pre post,
    path l (xs ++ ys) = pre ++ pos_before l xs :: pos_after l ys :: post ∧
    ∀ n, path l (xs ++ n :: ys) = pre ++ pos_before l xs :: inr n :: pos_after l ys :: post.
Proof.
  assert (∃ post, (inr <$> ys) ++ [root l] = pos_after l ys :: post) as [post Epost].
  { unfold pos_after. destruct ys; simpl; eauto. }
  assert (∃ pre, root l :: (inr <$> xs) = pre ++ [pos_before l xs]) as [pre Epre].
  { unfold pos_before. destruct xs as [|x xs _] using rev_ind; [by exists []|].
    rewrite last_snoc, fmap_app. simpl. by exists (root l :: (inr <$> xs)). }
  exists pre, post. unfold path. split; [|intros n].
  all: rewrite fmap_app, <- app_assoc, app_comm_cons, Epre, <- app_assoc; csimpl.
  - by rewrite Epost.
  - by rewrite Epost.
Qed.

Lemma path_NoDup l ps :
  NoDup ps → NoDup (removelast (path l ps)) ∧ NoDup (tail (path l ps)).
Proof.
  intros Hnd. unfold path. simpl tail.
  change (root l :: (inr <$> ps) ++ [root l]) with ((root l :: (inr <$> ps)) ++ [root l]).
  rewrite removelast_app by done. cbn [removelast]. rewrite app_nil_r.
  assert (NoDup (inr <$> ps : list ptr)) by (by apply NoDup_fmap_2; [apply _|]).
  assert (root l ∉ (inr <$> ps : list ptr)) as Hni
    by (intros (? & [=] & _)%list_elem_of_fmap).
  split; [by constructor|]. rewrite Permutation_app_comm. by constructor.
Qed.

Lemma path_elem l ps n : (inr n : ptr) ∈ path l ps ↔ n ∈ ps.
Proof.
  unfold path. rewrite elem_of_cons, elem_of_app, list_elem_of_singleton, list_elem_of_fmap.
  split.
  - intros [[=]|[(m & [= ->] & ?)|[=]]]. done.
  - intros ?. right. left. eauto.
Qed.

(** The neighbours in a ring. *)
Lemma ring_adjacent h l xs ys :
  repr h l (xs ++ ys) →
  nxt h (pos_before l xs) = Some (pos_after l ys) ∧
  prv h (pos_after l ys) = Some (pos_before l xs).
Proof.
  intros [Hl _ _ _]. destruct (path_split l xs ys) as (pre & post & E & _).
  rewrite E, linked_app in Hl. cbn [linked] in Hl. tauto.
Qed.

Lemma ring_alloc h l xs ys :
  repr h l (xs ++ ys) →
  is_Some (st_elem h !! pos_before l xs) ∧ is_Some (st_elem h !! pos_after l ys).
Proof.
  intros Hr. destruct (ring_adjacent _ _ _ _ Hr) as [H1 H2].
  split; [by eapply nxt_alloc|by eapply prv_alloc].
Qed.

(** The element between two parts of a ring. *)
Lemma ring_element h l xs n ys :
  repr h l (xs ++ n :: ys) →
  prv h (inr n) = Some (pos_before l xs) ∧ nxt h (inr n) = Some (pos_after l ys) ∧
  pos_before l xs ≠ inr n ∧ pos_after l ys ≠ inr n ∧
  is_Some (st_elem h !! pos_before l xs) ∧ is_Some (st_elem h !! pos_after l ys).
Proof.
  intros Hr. pose proof (ring_adjacent h l xs (n :: ys) Hr) as [H1 H2].
  assert (repr h l ((xs ++ [n]) ++ ys)) as Hr' by (by rewrite <- app_assoc).
  pose proof (ring_adjacent h l (xs ++ [n]) ys Hr') as [H3 H4].
  assert (pos_before l (xs ++ [n]) = inr n) as Elast
    by (unfold pos_before; by rewrite last_snoc).
  rewrite Elast in H3, H4. change (pos_after l (n :: ys)) with (inr n : ptr) in H1, H2.
  pose proof (repr_NoDup _ _ _ Hr) as Hnd.
  apply NoDup_app in Hnd as (_ & Hd & Hnd). apply NoDup_cons in Hnd as [Hny _].
  split_and!; [done|done|..|by eapply nxt_alloc|by eapply prv_alloc].
  - unfold pos_before. destruct (last xs) as [x|] eqn:E; [|done].
    intros [= ->]. apply (Hd n); [by apply last_Some_elem_of|left].
  - unfold pos_after. destruct ys as [|y ys]; [done|]. intros [= ->]. apply Hny. left.
Qed.

(** ** The other lists *)

Definition foreign (h : store) (l : nat) (q : ptr) : Prop :=
  ∃ l', l' ≠ l ∧ (q = root l' ∨ ∃ n, q = inr n ∧ own h q = Some l').

Lemma preserved_intro h h' l :
  wf h → rewired h h' →
  (∀ q, foreign h l q → nxt h' q = nxt h q ∧ prv h' q = prv h q) →
  (∀ n l', l' ≠ l → own h' (inr n) = Some l' ↔ own h (inr n) = Some l') →
  (∀ l', l' ≠ l → st_len h' !! l' = st_len h !! l') →
  preserved h h' l.
Proof.
  intros Hwf (Hal & Hval & Hfr) Hlink Hown Hlen. split.
  - intros n Hn. rewrite Hfr in Hn. apply eq_None_not_Some. rewrite Hal.
    apply eq_None_not_Some. by apply Hwf.
  - intros l' ps Hl' [Hl Hnd Ho Hln].
    assert (∀ p, p ∈ path l' ps → foreign h l p) as Hfor.
    { intros [r|n] Hp; exists l'; (split; [done|]).
      - left. unfold path in Hp.
        rewrite elem_of_cons, elem_of_app, list_elem_of_singleton, list_elem_of_fmap in Hp.
        by destruct Hp as [?|[(? & [=] & _)|?]].
      - right. exists n. split; [done|]. apply Ho. by apply path_elem in Hp. }
    split; [|done|intros n; rewrite Hown by done; apply Ho|by rewrite Hlen].
    eapply linked_ext; [| |exact Hl]; intros p Hp; apply Hlink, Hfor.
    + by apply removelast_elem.
    + by right.
  - intros l' Hl' (Ha & Hn & Ho & Hln). split_and!; [by apply Hal|..|by rewrite Hlen].
    + rewrite (proj1 (Hlink _ (ex_intro _ l' (conj Hl' (or_introl eq_refl))))). done.
    + intros n. by rewrite Hown.
  - intros p x. by rewrite Hval.
Qed.

(** The neighbours of a position of [l] belong to no other list. *)
Lemma pos_not_foreign h l ps xs ys :
  repr h l ps → (∀ n, n ∈ xs → n ∈ ps) → (∀ n, n ∈ ys → n ∈ ps) →
  ¬ foreign h l (pos_before l xs) ∧ ¬ foreign h l (pos_after l ys).
Proof.
  intros Hr Hxs Hys.
  assert (∀ q, q = root l ∨ (∃ n, q = inr n ∧ n ∈ ps) → ¬ foreign h l q) as H.
  { intros q Hq (l' & Hl' & Hf). destruct Hq as [->|(n & -> & Hn)].
    - destruct Hf as [[= ->]|(n & [=] & _)]. done.
    - apply (repr_own _ _ _ Hr) in Hn. destruct Hf as [[=]|(m & [= <-] & Ho)].
      rewrite Hn in Ho. congruence. }
  split; apply H.
  - unfold pos_before. destruct (last xs) as [x|] eqn:E; [right|by left].
    exists x. split; [done|]. by apply Hxs, last_Some_elem_of.
  - unfold pos_after. destruct ys as [|y ys]; [by left|right].
    exists y. split; [done|]. apply Hys. left.
Qed.

Lemma owned_not_foreign h l n l0 :
  own h (inr n) = l0 → l0 = None ∨ l0 = Some l → ¬ foreign h l (inr n).
Proof.
  intros Ho Hl0 (l' & Hl' & [[=]|(m & [= <-] & Ho')]).
  rewrite Ho in Ho'. destruct Hl0; congruence.
Qed.

(** ** Operations on rings *)

Lemma preserved_trans h1 h2 h3 l : preserved h1 h2 l → preserved h2 h3 l → preserved h1 h3 l.
Proof. intros [] []. split; eauto. Qed.

(** Allocation touches no list. *)
Lemma new_element_ok v h :
  wf h →
  let h0 := (new_element v h).2 in let n := st_fresh h in
  wf h0 ∧ val h0 (inr n) = Some v ∧ own h0 (inr n) = None ∧
  is_Some (st_elem h0 !! inr n) ∧ st_elem h !! inr n = None ∧
  (∀ l, preserved h h0 l) ∧ (∀ l ps, repr h l ps → repr h0 l ps).
Proof.
  intros Hwf h0 n. assert (st_elem h !! inr n = None) as Hfr by (by apply Hwf).
  assert (∀ q, q ≠ inr n → st_elem h0 !! q = st_elem h !! q) as Hsame.
  { intros q Hq. subst h0 n. simpl. by rewrite lookup_insert_ne. }
  assert (st_elem h0 !! inr n = Some (mkElement None None None v)) as Hnew
    by (subst h0 n; simpl; apply lookup_insert_eq).
  assert (∀ q, nxt h0 q = nxt h q ∧ prv h0 q = prv h q ∧ own h0 q = own h q) as Hf.
  { intros q. unfold nxt, prv, own. destruct (decide (q = inr n)) as [->|Hq];
      [by rewrite Hnew, Hfr|by rewrite Hsame]. }
  assert (wf h0) as Hwf0.
  { intros m Hm. subst h0 n. simpl in *. rewrite lookup_insert_ne by (intros [= ?]; lia).
    apply Hwf. lia. }
  assert (∀ l ps, repr h l ps → repr h0 l ps) as Hrepr.
  { intros l ps [Hl Hnd Ho Hln]. split; [|done| |done].
    - eapply linked_ext; [| |exact Hl]; intros p _; apply Hf.
    - intros m. destruct (Hf (inr m)) as (_ & _ & ->). apply Ho. }
  split_and!; [done|by unfold val; rewrite Hnew|by unfold own; rewrite Hnew|by rewrite Hnew
              |done| |done].
  intros l. split; [done|by intros; apply Hrepr| |].
  - intros l' _ (Ha & Hn & Ho & Hln). split_and!; [by rewrite Hsame|..|done].
    + destruct (Hf (root l')) as (-> & _). done.
    + intros m. destruct (Hf (inr m)) as (_ & _ & ->). apply Ho.
  - intros p x. unfold val. destruct (decide (p = inr n)) as [->|Hq];
      [by rewrite Hfr|by rewrite Hsame].
Qed.

(** Linking a loose element into a ring. *)
Lemma link_repr h l xs ys n :
  wf h → repr h l (xs ++ ys) → Z.of_nat (length (xs ++ ys)) < max_int64 →
  own h (inr n) = None → is_Some (st_elem h !! inr n) → n ∉ xs ++ ys →
  ∃ h', list_insert l (inr n) (pos_before l xs) h = Ok (inr n, h') ∧
        repr h' l (xs ++ n :: ys) ∧ preserved h h' l.
Proof.
  intros Hwf Hr Hlen Hon Hal Hni.
  destruct (ring_adjacent _ _ _ _ Hr) as [Hab Hba].
  destruct (ring_alloc _ _ _ _ Hr) as [Ha Hb].
  destruct (path_split l xs ys) as (pre & post & E & E').
  assert ((inr n : ptr) ∉ path l (xs ++ ys)) as Hnp by (by rewrite path_elem).
  assert (pos_before l xs ≠ inr n ∧ pos_after l ys ≠ inr n) as [Hane Hbne].
  { rewrite E in Hnp. set_solver. }
  destruct (list_insert_ok l (inr n) (pos_before l xs) (pos_after l ys)
              (Z.of_nat (length (xs ++ ys))) h)
    as (h' & -> & Hn' & Hp' & Ho' & Hl' & Hrw); [done..|apply Hr|].
  exists h'. split; [done|]. split.
  - destruct (path_NoDup l _ (repr_NoDup _ _ _ Hr)) as [Hr1 Hr2]. split.
    + rewrite E'. rewrite E in Hr1, Hr2, Hnp.
      eapply (link_path (nxt h) (prv h)); [done..| | | | |rewrite <- E; apply Hr].
      * intros q Hq. by rewrite Hn', decide_False.
      * intros q Hq. rewrite Hp'. destruct (decide (q = pos_after l ys)); [done|].
        by rewrite decide_False.
      * by rewrite Hn', decide_True.
      * rewrite Hp', decide_False, decide_True by done. done.
    + rewrite <- Permutation_middle. constructor; [done|apply Hr].
    + intros m. rewrite Ho', <- Permutation_middle, elem_of_cons.
      destruct (decide (m = n)) as [->|Hm]; [rewrite decide_True by done; tauto|].
      rewrite decide_False by congruence. rewrite (repr_own _ _ _ Hr). tauto.
    + rewrite Hl', lookup_insert_eq, add64_id.
      * f_equal. rewrite !length_app. simpl. lia.
      * unfold int64_range, min_int64. lia.
  - destruct (pos_not_foreign h l (xs ++ ys) xs ys Hr) as [Hf1 Hf2];
      [set_solver..|].
    apply preserved_intro; [done|done|..].
    + intros q Hq. rewrite Hn', Hp'.
      rewrite !decide_False; [done|..]; intros ->; try done.
      all: by eapply owned_not_foreign; [exact Hon|left|exact Hq].
    + intros m l' Hl0. rewrite Ho'. destruct (decide (inr m = inr n)) as [[= ->]|]; [|done].
      rewrite Hon. split; congruence.
    + intros l' Hl0. by rewrite Hl', lookup_insert_ne.
Qed.

Lemma insert_repr h l xs ys v :
  wf h → repr h l (xs ++ ys) → Z.of_nat (length (xs ++ ys)) < max_int64 →
  let n := st_fresh h in
  ∃ h', insertValue l v (pos_before l xs) h = Ok (inr n, h') ∧
        repr h' l (xs ++ n :: ys) ∧ (n ∉ xs ++ ys) ∧ val h' (inr n) = Some v ∧
        val h (inr n) = None ∧ preserved h h' l.
Proof.
  intros Hwf Hr Hlen n. unfold insertValue.
  pose proof (new_element_ok v h Hwf) as Hnew. cbv zeta in Hnew. fold n in Hnew.
  destruct Hnew as (Hwf0 & Hv0 & Ho0 & Ha0 & Hfr & Hp0 & Hr0).
  change (new_element v h) with (inr n : ptr, (new_element v h).2).
  cbv beta iota. set (h0 := (new_element v h).2) in *.
  assert (n ∉ xs ++ ys) as Hni.
  { intros Hin. apply (repr_own _ _ _ Hr) in Hin. unfold own in Hin. by rewrite Hfr in Hin. }
  destruct (link_repr h0 l xs ys n) as (h' & -> & Hr' & Hp'); auto.
  exists h'. split_and!; [done|done|done|by apply Hp'|by unfold val; rewrite Hfr|].
  eapply preserved_trans; eauto.
Qed.

(** Taking an element out of a ring. *)
Lemma remove_repr h l xs n ys :
  wf h → repr h l (xs ++ n :: ys) →
  Z.of_nat (length (xs ++ n :: ys)) ≤ max_int64 →
  ∃ h', list_remove l (inr n) h = Ok h' ∧ repr h' l (xs ++ ys) ∧
        own h' (inr n) = None ∧ preserved h h' l.
Proof.
  intros Hwf Hr Hlen. destruct (ring_element _ _ _ _ _ Hr) as (Hp & Hn & Hane & Hbne & Ha & Hb).
  assert (n ∉ xs ++ ys) as Hni.
  { pose proof (repr_NoDup _ _ _ Hr) as Hnd. rewrite <- Permutation_middle in Hnd.
    by apply NoDup_cons in Hnd as [? _]. }
  destruct (list_remove_ok l (inr n) (pos_before l xs) (pos_after l ys)
              (Z.of_nat (length (xs ++ n :: ys))) h)
    as (h' & -> & Hn' & Hp' & Ho' & Hl' & Hrw); [done..|apply Hr|].
  exists h'. split; [done|]. split; [|split].
  - destruct (path_split l xs ys) as (pre & post & E & E').
    pose proof (repr_NoDup _ _ _ Hr) as Hnd. rewrite <- Permutation_middle in Hnd.
    apply NoDup_cons in Hnd as [_ Hnd].
    destruct (path_NoDup l _ Hnd) as [Hr1 Hr2]. split.
    + assert ((inr n : ptr) ∉ path l (xs ++ ys)) as Hnp by (by rewrite path_elem).
      rewrite E. rewrite E in Hr1, Hr2, Hnp.
      eapply (unlink_path (nxt h) (prv h) _ _ _ _ (inr n)); [done..| | |].
      * intros q Hq. by rewrite Hn', decide_False.
      * intros q Hq. by rewrite Hp', decide_False.
      * rewrite <- E'. apply Hr.
    + done.
    + intros m. rewrite Ho'. destruct (decide (inr m = inr n)) as [[= ->]|Hm].
      * split; [done|]. intros. contradiction.
      * rewrite (repr_own _ _ _ Hr), <- Permutation_middle, elem_of_cons.
        assert (m ≠ n) by congruence. tauto.
    + rewrite Hl', lookup_insert_eq. f_equal. rewrite sub64_id.
      * rewrite !length_app. simpl. lia.
      * unfold int64_range, min_int64, max_int64 in *. lia.
  - by rewrite Ho', decide_True.
  - destruct (pos_not_foreign h l (xs ++ n :: ys) xs ys Hr) as [Hf1 Hf2];
      [set_solver..|].
    assert (own h (inr n) = Some l) as Hon by (apply (repr_own _ _ _ Hr); set_solver).
    apply preserved_intro; [done|done|..].
    + intros q Hq. rewrite Hn', Hp'.
      rewrite !decide_False; [done|..]; intros ->; try done.
      all: by eapply owned_not_foreign; [exact Hon|right|exact Hq].
    + intros m l' Hl0. rewrite Ho'. destruct (decide (inr m = inr n)) as [[= ->]|]; [|done].
      rewrite Hon. split; congruence.
    + intros l' Hl0. by rewrite Hl', lookup_insert_ne.
Qed.

(** Moving an element of a ring to another place of it. *)
Lemma move_repr h l x1 x2 n xs ys :
  wf h → repr h l (x1 ++ n :: x2) → x1 ++ x2 = xs ++ ys →
  ∃ h', list_move (inr n) (pos_before l xs) h = Ok h' ∧ repr h' l (xs ++ n :: ys) ∧
        preserved h h' l.
Proof.
  intros Hwf Hr Eq.
  destruct (ring_element _ _ _ _ _ Hr) as (Hp & Hn & Hae & Hbe & Ha & Hb).
  set (a := pos_before l x1) in *. set (b := pos_after l x2) in *.
  set (nx1 := λ q, if decide (q = a) then Some b else nxt h q).
  set (pv1 := λ q, if decide (q = b) then Some a else prv h q).
  pose proof (repr_NoDup _ _ _ Hr) as Hnd. rewrite <- Permutation_middle, Eq in Hnd.
  apply NoDup_cons in Hnd as [Hni Hnd].
  destruct (path_NoDup l _ Hnd) as [Hr1 Hr2].
  assert ((inr n : ptr) ∉ path l (xs ++ ys)) as Hnp by (by rewrite path_elem).
  assert (linked nx1 pv1 (path l (xs ++ ys))) as Hl1.
  { rewrite <- Eq. destruct (path_split l x1 x2) as (pre & post & E & E').
    rewrite E. rewrite <- Eq, E in Hr1, Hr2, Hnp.
    eapply (unlink_path (nxt h) (prv h) _ _ _ _ (inr n)); [done..|].
    rewrite <- E'. apply Hr. }
  destruct (path_split l xs ys) as (pre & post & E & E').
  set (at_ := pos_before l xs) in *. set (c := pos_after l ys) in *.
  assert (nx1 at_ = Some c ∧ pv1 c = Some at_) as [Hc1 Hc2].
  { rewrite E, linked_app in Hl1. cbn [linked] in Hl1. tauto. }
  assert (inr n ≠ at_ ∧ c ≠ inr n) as [Hate Hce] by (rewrite E in Hnp; set_solver).
  assert (is_Some (st_elem h !! c)) as Hc.
  { unfold pv1 in Hc2. destruct (decide (c = b)) as [->|]; [done|by eapply prv_alloc]. }
  destruct (list_move_ok (inr n) at_ a b c h)
    as (h' & -> & Hn' & Hp' & Ho' & Hl' & Hrw); [done..|].
  exists h'. split; [done|]. split.
  - split.
    + rewrite E'. rewrite E in Hr1, Hr2, Hnp, Hl1.
      eapply (link_path nx1 pv1); [done..| | | | |exact Hl1].
      * intros q Hq. rewrite Hn', decide_False by done. done.
      * intros q Hq. rewrite Hp'. destruct (decide (q = c)); [done|].
        by rewrite decide_False.
      * by rewrite Hn', decide_True.
      * rewrite Hp', decide_False, decide_True by done. done.
    + rewrite <- Permutation_middle. by constructor.
    + intros m. rewrite Ho', (repr_own _ _ _ Hr).
      rewrite <- !Permutation_middle, Eq. done.
    + rewrite Hl', (repr_len _ _ _ Hr). rewrite <- !Permutation_middle, Eq. done.
  - assert (∀ m, m ∈ x1 ++ x2 → m ∈ x1 ++ n :: x2) as Hin by set_solver.
    assert (∀ m, m ∈ xs ++ ys → m ∈ x1 ++ n :: x2) as Hin' by (rewrite <- Eq; done).
    destruct (pos_not_foreign h l _ x1 x2 Hr) as [Hf1 Hf2]; [set_solver..|].
    destruct (pos_not_foreign h l _ xs ys Hr) as [Hf3 Hf4]; [set_solver..|].
    assert (own h (inr n) = Some l) as Hon by (apply (repr_own _ _ _ Hr); set_solver).
    assert (¬ foreign h l (inr n)) as Hf5 by (eapply owned_not_foreign; eauto).
    apply preserved_intro; [done|done|..].
    + intros q Hq. rewrite Hn', Hp'.
      rewrite !decide_False; [done|..]; intros ->; contradiction.
    + intros m l' Hl0. by rewrite Ho'.
    + intros l' Hl0. by rewrite Hl'.
Qed.

Lemma lazyInit_repr h l ps :
  wf h → valid h l ps → ∃ h', lazyInit l h = Ok h' ∧ repr h' l ps ∧ preserved h h' l ∧
  (∀ l' ps', repr h l' ps' → repr h' l' ps').
Proof.
  intros Hwf [Hr|[(Ha & Hn & Ho & Hl) ->]]; unfold lazyInit.
  - assert (nxt h (root l) = Some (pos_after l ps)) as Hnx.
    { by destruct (ring_adjacent h l [] ps Hr). }
    destruct (load_ok (root l) h (nxt_alloc _ _ _ Hnx)) as (r & -> & Er & _). simpl.
    rewrite Er, Hnx, decide_False by done. exists h. split_and!; [done|done| |done].
    by split.
  - destruct (load_ok (root l) h Ha) as (r & -> & Er & _). simpl.
    rewrite Er, Hn, decide_True by done. unfold PathItemList_Init.
    destruct (set_next_ok (root l) (Some (root l)) h Ha) as (h1 & -> & N1 & P1 & O1 & S1).
    simpl. destruct (set_prev_ok (root l) (Some (root l)) h1)
      as (h2 & -> & N2 & P2 & O2 & S2); [by eapply same_but_alloc|]. simpl.
    pose proof (same_but_trans _ _ _ S1 S2) as T. eexists; split; [done|].
    assert (repr (set_len l 0 h2) l []) as Hr.
    { split; [| |intros n|].
      - simpl. change (nxt (set_len l 0 h2)) with (nxt h2).
        change (prv (set_len l 0 h2)) with (prv h2).
        rewrite N2, P2, N1, !decide_True by done. done.
      - constructor.
      - change (own (set_len l 0 h2) (inr n)) with (own h2 (inr n)).
        rewrite O2, O1. split; [intros H; by destruct (Ho n)|intros H; inversion H].
      - apply lookup_insert_eq. }
    assert (preserved h (set_len l 0 h2) l) as Hp.
    { apply preserved_intro; [done|by apply same_but_rewired in T|..].
      - intros q (l' & Hl' & Hq).
        assert (q ≠ root l) by (destruct Hq as [->|(n & -> & _)]; [by intros [= ->]|done]).
        change (nxt (set_len l 0 h2) q) with (nxt h2 q).
        change (prv (set_len l 0 h2) q) with (prv h2 q).
        by rewrite N2, N1, P2, P1, !decide_False.
      - intros n l' _. change (own (set_len l 0 h2) (inr n)) with (own h2 (inr n)).
        by rewrite O2, O1.
      - intros l' Hl'. simpl. destruct T as (_ & _ & -> & _). by rewrite lookup_insert_ne. }
    split_and!; [done|done|]. intros l' ps' Hr'.
    destruct (decide (l' = l)) as [->|]; [|by apply Hp].
    destruct (ring_adjacent h l [] ps' Hr') as [Hnx _].
    change (pos_before l []) with (root l) in Hnx. congruence.
Qed.

(** ** The sequences the operations produce *)

Fixpoint insert_after (m n : nat) (ps : list nat) : list nat :=
  match ps with
  | [] => []
  | x :: r => if decide (x = m) then x :: n :: r else x :: insert_after m n r
  end.
Fixpoint insert_before (m n : nat) (ps : list nat) : list nat :=
  match ps with
  | [] => []
  | x :: r => if decide (x = m) then n :: x :: r else x :: insert_before m n r
  end.
Definition without (n : nat) (ps : list nat) : list nat := filter (λ x, x ≠ n) ps.

Lemma insert_after_split m n xs ys :
  m ∉ xs → insert_after m n (xs ++ m :: ys) = xs ++ m :: n :: ys.
Proof.
  induction xs as [|x xs IH]; simpl; intros Hm; [by rewrite decide_True|].
  apply not_elem_of_cons in Hm as [Hx Hm]. rewrite decide_False by congruence.
  by rewrite IH.
Qed.
Lemma insert_before_split m n xs ys :
  m ∉ xs → insert_before m n (xs ++ m :: ys) = xs ++ n :: m :: ys.
Proof.
  induction xs as [|x xs IH]; simpl; intros Hm; [by rewrite decide_True|].
  apply not_elem_of_cons in Hm as [Hx Hm]. rewrite decide_False by congruence.
  by rewrite IH.
Qed.
Lemma without_split n xs ys : n ∉ xs ++ ys → without n (xs ++ n :: ys) = xs ++ ys.
Proof.
  unfold without. intros Hn. rewrite filter_app, filter_cons_False by tauto.
  rewrite <- filter_app. induction (xs ++ ys) as [|x r IH]; [done|].
  apply not_elem_of_cons in Hn as [Hx Hn].
  by rewrite filter_cons_True, IH by congruence.
Qed.

(** A member splits a duplicate-free list in one way. *)
Lemma member_split (n : nat) ps :
  NoDup ps → n ∈ ps → ∃ xs ys, ps = xs ++ n :: ys ∧ (n ∉ xs) ∧ (n ∉ xs ++ ys).
Proof.
  intros Hnd (xs & ys & ->)%list_elem_of_split. exists xs, ys.
  rewrite <- Permutation_middle in Hnd. apply NoDup_cons in Hnd as [Hn _]. set_solver.
Qed.

Lemma pos_before_snoc l xs m : pos_before l (xs ++ [m]) = inr m.
Proof. unfold pos_before. by rewrite last_snoc. Qed.

Lemma own_load h n l :
  own h (inr n) = Some l → ∃ e, load (inr n) h = Ok e ∧ n_list e = Some l ∧
  n_next e = nxt h (inr n) ∧ n_prev e = prv h (inr n) ∧ val h (inr n) = Some (n_Value e).
Proof.
  intros Ho. destruct (load_ok (inr n) h (own_alloc _ _ _ Ho)) as (e & He & ? & ? & El & ?).
  exists e. by rewrite El.
Qed.

Lemma root_load h l ps :
  repr h l ps → ∃ r, load (root l) h = Ok r ∧ n_next r = Some (pos_after l ps) ∧
  n_prev r = Some (pos_before l ps).
Proof.
  intros Hr. destruct (ring_adjacent h l [] ps Hr) as [Hn _].
  assert (repr h l (ps ++ [])) as Hr' by (by rewrite app_nil_r).
  destruct (ring_adjacent h l ps [] Hr') as [_ Hp].
  change (pos_before l []) with (root l) in Hn.
  change (pos_after l []) with (root l) in Hp.
  destruct (load_ok (root l) h (nxt_alloc _ _ _ Hn)) as (r & Hl & En & Ep & _).
  exists r. by rewrite En, Ep.
Qed.

(** A fresh element with value [v] has made the sequence [ps']. *)
Definition added (h h' : store) (l n : nat) (v : PathItems) (ps' : list nat) : Prop :=
  repr h' l ps' ∧ val h' (inr n) = Some v ∧ val h (inr n) = None ∧ preserved h h' l.

(** *** One-element operations on a ring *)

Lemma insertValue_added h l xs ys v :
  wf h → repr h l (xs ++ ys) → Z.of_nat (length (xs ++ ys)) < max_int64 →
  ∃ n h', insertValue l v (pos_before l xs) h = Ok (inr n, h') ∧
          added h h' l n v (xs ++ n :: ys).
Proof.
  intros Hwf Hr Hlen. destruct (insert_repr h l xs ys v Hwf Hr Hlen)
    as (h' & E & Hr' & _ & Hv & Hv0 & Hp). exists (st_fresh h), h'. done.
Qed.

Lemma added_lazy h h1 h' l n v ps :
  preserved h h1 l → (∀ p x, val h p = Some x → val h1 p = Some x) →
  added h1 h' l n v ps → added h h' l n v ps.
Proof.
  intros Hp Hv (Hr & Hv' & Hv0 & Hp'). split_and!; [done|done| |by eapply preserved_trans].
  destruct (val h (inr n)) eqn:E; [|done]. apply Hv in E. congruence.
Qed.

Lemma PushFront_added h l ps v :
  wf h → valid h l ps → Z.of_nat (length ps) < max_int64 →
  ∃ n h', PushFront l v h = Ok (inr n, h') ∧ added h h' l n v (n :: ps).
Proof.
  intros Hwf Hv Hlen. unfold PushFront.
  destruct (lazyInit_repr h l ps Hwf Hv) as (h1 & -> & Hr1 & Hp1 & _). simpl.
  destruct (insertValue_added h1 l [] ps v) as (n & h' & E & Ha);
    [apply Hp1|done|done|]. change (pos_before l []) with (root l) in E. rewrite E.
  exists n, h'. split; [done|]. eapply added_lazy; [done|apply Hp1|done].
Qed.

Lemma PushBack_added h l ps v :
  wf h → valid h l ps → Z.of_nat (length ps) < max_int64 →
  ∃ n h', PushBack l v h = Ok (inr n, h') ∧ added h h' l n v (ps ++ [n]).
Proof.
  intros Hwf Hv Hlen. unfold PushBack.
  destruct (lazyInit_repr h l ps Hwf Hv) as (h1 & -> & Hr1 & Hp1 & _). simpl.
  destruct (root_load h1 l ps Hr1) as (r & -> & _ & Ep). simpl. rewrite Ep. simpl.
  destruct (insertValue_added h1 l ps [] v) as (n & h' & E & Ha);
    [apply Hp1|by rewrite app_nil_r|by rewrite app_nil_r|]. rewrite E.
  exists n, h'. split; [done|]. eapply added_lazy; [done|apply Hp1|done].
Qed.

Lemma split_unique (m : nat) xs ys xs' ys' :
  m ∉ xs → m ∉ xs' → xs ++ m :: ys = xs' ++ m :: ys' → xs = xs' ∧ ys = ys'.
Proof.
  revert xs'. induction xs as [|x xs IH]; intros [|x' xs'] H1 H2 E; simpl in *.
  - by injection E as ->.
  - simplify_eq. set_solver.
  - simplify_eq. set_solver.
  - injection E as -> E. destruct (IH xs') as [-> ->]; [set_solver..|done|done].
Qed.

Lemma without_app n xs ys : without n (xs ++ ys) = without n xs ++ without n ys.
Proof. apply filter_app. Qed.

Lemma without_cons_ne n x xs : x ≠ n → without n (x :: xs) = x :: without n xs.
Proof. intros. unfold without. by rewrite filter_cons_True. Qed.

Lemma without_id n xs : n ∉ xs → without n xs = xs.
Proof.
  induction xs as [|x xs IH]; [done|]. intros [Hx Hn]%not_elem_of_cons.
  by rewrite without_cons_ne, IH by done.
Qed.

(** Moving before a mark: the mark may already follow the element. *)
Lemma move_before_repr h l x1 x2 n xs m ys e' :
  wf h → repr h l (x1 ++ n :: x2) → x1 ++ x2 = xs ++ m :: ys → m ≠ n →
  n_prev e' = prv h (inr m) →
  ∃ h', (at_ ← deref (n_prev e'); list_move (inr n) at_ h) = Ok h' ∧
        repr h' l (xs ++ n :: m :: ys) ∧ preserved h h' l.
Proof.
  intros Hwf Hr Eq Hmn Ep. pose proof (repr_NoDup _ _ _ Hr) as Hnd.
  assert (m ∈ x1 ++ n :: x2) as Hm.
  { assert (m ∈ x1 ++ x2) by (rewrite Eq; set_solver). set_solver. }
  destruct (member_split m _ Hnd Hm) as (z1 & z2 & Ez & Hz1 & _).
  assert (repr h l (z1 ++ m :: z2)) as Hr' by (by rewrite <- Ez).
  destruct (ring_element _ _ _ _ _ Hr') as (Hp & _). rewrite Ep, Hp. simpl.
  assert ((n ∉ x1 ++ x2) ∧ NoDup (x1 ++ x2)) as [Hni Hnd']
    by (rewrite <- Permutation_middle in Hnd; by apply NoDup_cons in Hnd).
  assert (xs = without n z1 ∧ ys = without n z2) as [-> ->].
  { apply (split_unique m).
    - rewrite Eq, <- Permutation_middle in Hnd'. apply NoDup_cons in Hnd' as [? _].
      set_solver.
    - unfold without. rewrite list_elem_of_filter. tauto.
    - rewrite <- Eq, <- (without_split n x1 x2 Hni), Ez, without_app.
      by rewrite without_cons_ne. }
  destruct z1 as [|z z1 _] using rev_ind; [|destruct (decide (z = n)) as [->|Hz]].
  - apply (move_repr h l x1 x2 n [] (m :: without n z2)); done.
  - rewrite pos_before_snoc. exists h. unfold list_move. rewrite decide_True by done.
    assert (NoDup (z1 ++ n :: m :: z2)) as Hndz
      by (rewrite Ez, <- app_assoc in Hnd; done).
    rewrite <- Permutation_middle in Hndz. apply NoDup_cons in Hndz as [Hnz _].
    rewrite without_app, !(without_id _ z1), (without_id _ z2) by set_solver.
    change (without n [n]) with (filter (λ x, x ≠ n) [n]).
    rewrite filter_cons_False, filter_nil, app_nil_r by tauto.
    split_and!; [done| |by split]. by rewrite <- app_assoc in Hr'.
  - assert (pos_before l (z1 ++ [z]) = pos_before l (without n (z1 ++ [z]))) as ->.
    { rewrite without_app, (without_cons_ne n z []) by done.
      by rewrite !pos_before_snoc. }
    by apply (move_repr h l x1 x2 n _ (m :: without n z2)).
Qed.

(** *** Traversal and concatenation *)

Lemma Next_ring h l xs n ys :
  repr h l (xs ++ n :: ys) →
  PathItemElement_Next (inr n) h = Ok (inr <$> head ys) ∧
  PathItemElement_Prev (inr n) h = Ok (inr <$> last xs).
Proof.
  intros Hr. destruct (own_load h n l) as (e & El & Eo & En & Ep & _);
    [apply (repr_own _ _ _ Hr); set_solver|].
  destruct (ring_element _ _ _ _ _ Hr) as (Hp & Hn & _).
  unfold PathItemElement_Next, PathItemElement_Prev. rewrite El. simpl.
  rewrite Eo, En, Ep, Hn, Hp. unfold pos_after, pos_before.
  split; f_equal.
  - destruct ys; simpl; [by rewrite decide_True|done].
  - destruct (last xs); simpl; [done|by rewrite decide_True].
Qed.

Lemma Front_ring h l ps :
  repr h l ps →
  get_len l h = Ok (Z.of_nat (length ps)) ∧
  PathItemList_Front l h = Ok (inr <$> head ps) ∧
  PathItemList_Back l h = Ok (inr <$> last ps).
Proof.
  intros Hr. assert (get_len l h = Ok (Z.of_nat (length ps))) as El.
  { unfold get_len. by rewrite (repr_len _ _ _ Hr). }
  destruct (root_load h l ps Hr) as (r & Rl & Rn & Rp).
  unfold PathItemList_Front, PathItemList_Back. rewrite El, Rl. simpl. rewrite Rn, Rp.
  destruct ps as [|p ps]; [done|]. split; [done|].
  replace (Z.of_nat (length (p :: ps)) =? 0) with false by (simpl; lia).
  split; [done|]. unfold pos_before.
  destruct (last (p :: ps)) eqn:E; [done|by apply last_None in E].
Qed.

(** The values of a sequence of elements. *)
Definition vals (h : store) (ps : list nat) : list (option PathItems) :=
  (λ n, val h (inr n)) <$> ps.

Lemma vals_preserved h h' l l' ps qs :
  preserved h h' l → repr h l' qs → (∀ n, n ∈ ps → n ∈ qs) → vals h' ps = vals h ps.
Proof.
  intros Hp Hr Hin. unfold vals. apply list_fmap_ext. intros i n Hi.
  assert (n ∈ qs) as Hn by (by apply Hin, list_elem_of_lookup_2 with i).
  apply (repr_own _ _ _ Hr), own_alloc in Hn as [e He].
  assert (val h (inr n) = Some (n_Value e)) as Ev by (unfold val; by rewrite He).
  by rewrite (pres_val _ _ _ Hp _ _ Ev).
Qed.

Lemma push_back_loop_ok l other ps zs us ws h ns e :
  wf h → repr h l (ps ++ ns) → repr h other (us ++ zs ++ ws) →
  (other = l → us ++ zs = ps ∧ ws = ns) → (zs ≠ [] → e = inr <$> head zs) →
  Z.of_nat (length (ps ++ ns) + length zs) ≤ max_int64 →
  ∃ ns' h', push_back_loop l (length zs) e h = Ok h' ∧ repr h' l (ps ++ ns ++ ns') ∧
            vals h' ns' = vals h zs ∧ preserved h h' l.
Proof.
  revert us h ns ws e. induction zs as [|z zs IH]; intros us h ns ws e Hwf Hr Hro Hol He Hlen.
  { exists [], h. rewrite app_nil_r. split_and!; [done|done|done|by split]. }
  rewrite He by done. simpl.
  destruct (own_load h z other) as (n & -> & _ & _ & _ & Ev);
    [apply (repr_own _ _ _ Hro); set_solver|]. simpl.
  destruct (root_load h l _ Hr) as (r & -> & _ & Rp). simpl. rewrite Rp. simpl.
  destruct (insertValue_added h l (ps ++ ns) [] (n_Value n)) as (m & h1 & -> & Ha);
    [done|by rewrite app_nil_r|rewrite app_nil_r; simpl in Hlen; lia|]. simpl.
  destruct Ha as (Hr1 & Hv1 & _ & Hp1).
  assert (repr h1 other (us ++ z :: zs ++ (if decide (other = l) then ns ++ [m] else ws)))
    as Hro1.
  { destruct (decide (other = l)) as [->|Hne]; [|by apply Hp1].
    destruct (Hol eq_refl) as [<- ->]. rewrite <- !app_assoc in Hr1. exact Hr1. }
  rewrite (proj1 (Next_ring _ _ _ _ _ Hro1)). simpl.
  destruct (IH (us ++ [z]) h1 (ns ++ [m]) (if decide (other = l) then ns ++ [m] else ws)
              (inr <$> head (zs ++ if decide (other = l) then ns ++ [m] else ws)))
    as (ns' & h' & E & Hr' & Hvs & Hp'); try done.
  - apply Hp1.
  - by rewrite <- app_assoc in Hr1.
  - by rewrite <- app_assoc.
  - intros Heq. rewrite decide_True, <- app_assoc by done. simpl.
    split; [by apply Hol|done].
  - by destruct zs.
  - rewrite !length_app in *. simpl in *. lia.
  - exists (m :: ns'), h'. split_and!; [done| | |by eapply preserved_trans].
    + by rewrite <- app_assoc in Hr'.
    + unfold vals in *. csimpl. f_equal.
      * rewrite (pres_val _ _ _ Hp' _ _ Hv1). by rewrite Ev.
      * rewrite Hvs. apply (vals_preserved h h1 l other zs (us ++ (z :: zs) ++ ws)); auto.
        set_solver.
Qed.

Lemma push_front_loop_ok l other ps zs us ws h ns e :
  wf h → repr h l (ns ++ ps) → repr h other (ws ++ zs ++ us) →
  (other = l → zs ++ us = ps ∧ ws = ns) → (zs ≠ [] → e = inr <$> last zs) →
  Z.of_nat (length (ns ++ ps) + length zs) ≤ max_int64 →
  ∃ ns' h', push_front_loop l (length zs) e h = Ok h' ∧ repr h' l (ns' ++ ns ++ ps) ∧
            vals h' ns' = vals h zs ∧ preserved h h' l.
Proof.
  revert us h ns ws e.
  induction zs as [|z zs IH] using rev_ind; intros us h ns ws e Hwf Hr Hro Hol He Hlen.
  { exists [], h. split_and!; [done|done|done|by split]. }
  rewrite He by (by destruct zs). rewrite length_app, Nat.add_comm, last_snoc. simpl.
  destruct (own_load h z other) as (n & -> & _ & _ & _ & Ev);
    [apply (repr_own _ _ _ Hro); set_solver|]. simpl.
  destruct (insertValue_added h l [] (ns ++ ps) (n_Value n)) as (m & h1 & E1 & Ha);
    [done|done|rewrite !length_app in *; simpl in *; lia|].
  change (pos_before l []) with (root l) in E1. rewrite E1. simpl.
  destruct Ha as (Hr1 & Hv1 & _ & Hp1). rewrite app_nil_l in Hr1.
  assert (repr h1 other (((if decide (other = l) then m :: ns else ws) ++ zs) ++ z :: us))
    as Hro1.
  { destruct (decide (other = l)) as [->|Hne].
    - destruct (Hol eq_refl) as [<- ->]. simpl. rewrite <- !app_assoc in *. exact Hr1.
    - apply Hp1; [done|]. rewrite <- !app_assoc in *. exact Hro. }
  rewrite (proj2 (Next_ring _ _ _ _ _ Hro1)). simpl.
  destruct (IH (z :: us) h1 (m :: ns) (if decide (other = l) then m :: ns else ws)
              (inr <$> last ((if decide (other = l) then m :: ns else ws) ++ zs)))
    as (ns' & h' & E & Hr' & Hvs & Hp'); try done.
  - apply Hp1.
  - by rewrite <- app_assoc in Hro1.
  - intros Heq. rewrite decide_True by done. split; [|done].
    destruct (Hol Heq) as [<- _]. by rewrite <- app_assoc.
  - intros Hz. destruct zs as [|y zs _] using rev_ind; [done|].
    by rewrite app_assoc, !last_snoc.
  - rewrite !length_app in *. simpl in *. rewrite ?length_app. lia.
  - exists (ns' ++ [m]), h'. split_and!; [done| | |by eapply preserved_trans].
    + by rewrite <- app_assoc.
    + unfold vals in *. rewrite !fmap_app. f_equal.
      * rewrite Hvs. apply (vals_preserved h h1 l other zs (ws ++ (zs ++ [z]) ++ us)); auto.
        set_solver.
      * csimpl. rewrite (pres_val _ _ _ Hp' _ _ Hv1). by rewrite Ev.
Qed.

(** * Properties *)

(** Insertion refines insertion into a sequence: a fresh element with the
    given value goes to the front, to the back, right after or right before the
    mark; a mark that is not an element of the list changes nothing.  Lists that
    are zero values count as empty, and every other list of the store stays as it
    was. *)
Theorem PathItemList_insertions (h : store) (l : nat) (ps : list nat) (v : PathItems)
    (m : nat) (Hwf : wf h) (Hv : valid h l ps)
    (Hlen : Z.of_nat (length ps) < max_int64) :
  (∃ n h', PushFront l v h = Ok (inr n, h') ∧ added h h' l n v (n :: ps)) ∧
  (∃ n h', PushBack l v h = Ok (inr n, h') ∧ added h h' l n v (ps ++ [n])) ∧
  (m ∈ ps →
   (∃ n h', InsertAfter l v (inr m) h = Ok (Some (inr n), h') ∧
            added h h' l n v (insert_after m n ps)) ∧
   (∃ n h', InsertBefore l v (inr m) h = Ok (Some (inr n), h') ∧
            added h h' l n v (insert_before m n ps))) ∧
  (m ∉ ps → is_Some (st_elem h !! inr m) →
   InsertAfter l v (inr m) h = Ok (None, h) ∧ InsertBefore l v (inr m) h = Ok (None, h)).
Proof.
  split_and!; [by apply PushFront_added|by apply PushBack_added|..].
  - intros Hm. destruct Hv as [Hr|[_ ->]]; [|by apply elem_of_nil in Hm].
    destruct (member_split m ps (repr_NoDup _ _ _ Hr) Hm) as (xs & ys & -> & Hmx & _).
    destruct (own_load h m l) as (e & El & Eo & En & Ep & _);
      [apply (repr_own _ _ _ Hr); set_solver|].
    unfold InsertAfter, InsertBefore. rewrite El. simpl. rewrite Eo.
    rewrite !decide_False by tauto. split.
    + destruct (insertValue_added h l (xs ++ [m]) ys v) as (n & h' & E & Ha);
        [done|by rewrite <- app_assoc|by rewrite <- app_assoc|].
      rewrite pos_before_snoc in E. rewrite E. simpl. exists n, h'. split; [done|].
      rewrite insert_after_split by done. by rewrite <- app_assoc in Ha.
    + destruct (ring_element _ _ _ _ _ Hr) as (Hp & _). rewrite Ep, Hp. simpl.
      destruct (insertValue_added h l xs (m :: ys) v) as (n & h' & E & Ha); [done..|].
      rewrite E. simpl. exists n, h'. split; [done|]. by rewrite insert_before_split.
  - intros Hm Hal. destruct (load_ok (inr m) h Hal) as (e & El & _ & _ & Eo & _).
    unfold InsertAfter, InsertBefore. rewrite El. simpl. rewrite Eo.
    assert (own h (inr m) ≠ Some l) as Hne.
    { destruct Hv as [Hr|[(_ & _ & Ho & _) _]]; [by rewrite (repr_own _ _ _ Hr)|apply Ho]. }
    by rewrite !decide_True.
Qed.

(** The store with one list that has been initialised. *)
Definition one_list : store :=
  match NewPathItemList 0 (mkStore ∅ ∅ 0) with Ok h => h | _ => mkStore ∅ ∅ 0 end.

Lemma one_list_ok : wf one_list ∧ repr one_list 0 [].
Proof.
  split; [intros n _; reflexivity|]. split; [|constructor| |reflexivity].
  - split_and!; reflexivity.
  - intros n. split; [intros H; discriminate H|intros H; inversion H].
Qed.

Lemma PathItemList_insertions_witness :
  let p := [mkPathItem "Account" None] in
  ∃ n h', PushFront 0 p one_list = Ok (inr n, h') ∧ added one_list h' 0 n p [n].
Proof.
  destruct one_list_ok as [Hwf Hr].
  destruct (PathItemList_insertions one_list 0 [] [mkPathItem "Account" None] 0
              Hwf (or_introl Hr) ltac:(done)) as [H _].
  exact H.
Defined.

Lemma MoveToBack_moved h l ps n : wf h → repr h l ps → n ∈ ps →
  ∃ h', MoveToBack l (inr n) h = Ok h' ∧ repr h' l (without n ps ++ [n]) ∧ preserved h h' l.
Proof.
  intros Hwf Hr Hn. destruct (member_split n ps (repr_NoDup _ _ _ Hr) Hn) as (x1 & x2 & -> & _ & Hni).
  rewrite without_split by done.
  destruct (own_load h n l) as (e & El & Eo & En & Ep & Ev);
    [apply (repr_own _ _ _ Hr); set_solver|].
  destruct (root_load h l _ Hr) as (r & Rl & Rn & Rp).
  unfold MoveToBack. rewrite El, Rl. simpl. rewrite Eo, Rp.
  destruct (decide _) as [[?|Heq]|Hne]; [done| |]; simpl.
  - exists h. split_and!; [done| |by split].
    destruct x2 as [|y x2 _] using rev_ind; [by rewrite app_nil_r|].
    rewrite app_comm_cons, app_assoc, pos_before_snoc in Heq. injection Heq as ->.
    set_solver.
  - assert (pos_before l (x1 ++ n :: x2) = pos_before l (x1 ++ x2)) as ->.
    { destruct x2 as [|y x2 _] using rev_ind.
      - destruct Hne. right. by rewrite pos_before_snoc.
      - by rewrite app_comm_cons, !app_assoc, !pos_before_snoc. }
    destruct (move_repr h l x1 x2 n (x1 ++ x2) [] Hwf Hr) as (h' & E & Hm);
      [by rewrite app_nil_r|]. eauto.
Qed.

(** Removal and moves refine their counterparts on the sequence: a removed
    element leaves the list and keeps its value; a moved element is taken out and
    put to the front, to the back, or next to the mark; operations on elements of
    another list or with the element as its own mark change nothing. *)
Theorem PathItemList_moves (h : store) (l : nat) (ps : list nat) (n m : nat)
    (Hwf : wf h) (Hr : repr h l ps) (Hlen : Z.of_nat (length ps) ≤ max_int64)
    (Hn : n ∈ ps) :
  (∃ v h', PathItemList_Remove l (inr n) h = Ok (v, h') ∧ val h (inr n) = Some v ∧
           repr h' l (without n ps) ∧ own h' (inr n) = None ∧ preserved h h' l) ∧
  (∃ h', MoveToFront l (inr n) h = Ok h' ∧ repr h' l (n :: without n ps) ∧
         preserved h h' l) ∧
  (∃ h', MoveToBack l (inr n) h = Ok h' ∧ repr h' l (without n ps ++ [n]) ∧
         preserved h h' l) ∧
  (m ∈ ps → m ≠ n →
   (∃ h', MoveAfter l (inr n) (inr m) h = Ok h' ∧
          repr h' l (insert_after m n (without n ps)) ∧ preserved h h' l) ∧
   (∃ h', MoveBefore l (inr n) (inr m) h = Ok h' ∧
          repr h' l (insert_before m n (without n ps)) ∧ preserved h h' l)) ∧
  (m = n ∨ (m ∉ ps) ∧ is_Some (st_elem h !! inr m) →
   MoveAfter l (inr n) (inr m) h = Ok h ∧ MoveBefore l (inr n) (inr m) h = Ok h).
Proof.
  pose proof (repr_NoDup _ _ _ Hr) as Hnd.
  destruct (member_split n ps Hnd Hn) as (x1 & x2 & -> & Hnx & Hni).
  rewrite without_split by done.
  destruct (own_load h n l) as (e & El & Eo & En & Ep & Ev);
    [apply (repr_own _ _ _ Hr); set_solver|].
  destruct (ring_element _ _ _ _ _ Hr) as (Hp & Hx & Hae & Hbe & _).
  destruct (root_load h l _ Hr) as (r & Rl & Rn & Rp).
  assert (preserved h h l) as Hid by (by split).
  split_and!.
  - unfold PathItemList_Remove. rewrite El. simpl. rewrite decide_True by done.
    destruct (remove_repr h l x1 n x2 Hwf Hr Hlen) as (h' & -> & Hr' & Ho & Hpr). simpl.
    destruct (load_ok (inr n) h') as (e' & -> & _ & _ & _ & Ev').
    { pose proof (pres_val _ _ _ Hpr _ _ Ev) as Hv. unfold val in Hv.
      destruct (st_elem h' !! inr n); [eauto|done]. }
    simpl. exists (n_Value e'), h'. split_and!; try done.
    pose proof (pres_val _ _ _ Hpr _ _ Ev). congruence.
  - unfold MoveToFront. rewrite El, Rl. simpl. rewrite Eo, Rn.
    destruct (decide _) as [[?|Heq]|Hne]; [done| |].
    + exists h. split_and!; [done| |done]. destruct x1 as [|y x1]; [done|].
      injection Heq as ->. set_solver.
    + destruct (move_repr h l x1 x2 n [] (x1 ++ x2) Hwf Hr eq_refl) as (h' & E & H). eauto.
  - destruct (MoveToBack_moved h l _ n Hwf Hr Hn) as (h' & E & Hm & ?).
    rewrite without_split in Hm by done. eauto.
  - intros Hm Hmn. assert (m ∈ x1 ++ x2) as Hm' by set_solver.
    destruct (own_load h m l) as (e' & El' & Eo' & En' & Ep' & _);
      [by apply (repr_own _ _ _ Hr)|].
    assert (NoDup (x1 ++ x2)) as Hnd'
      by (rewrite <- Permutation_middle in Hnd; by apply NoDup_cons in Hnd as [_ ?]).
    destruct (member_split m _ Hnd' Hm') as (xs & ys & Eq & Hmx & _).
    unfold MoveAfter, MoveBefore. rewrite El, El'. simpl. rewrite Eo, Eo'.
    rewrite !decide_False by naive_solver. split.
    + destruct (move_repr h l x1 x2 n (xs ++ [m]) ys Hwf Hr) as (h' & E & H);
        [by rewrite <- app_assoc|]. rewrite pos_before_snoc in E.
      rewrite Eq, insert_after_split by done. rewrite <- app_assoc in H. eauto.
    + rewrite Eq, insert_before_split by done. apply move_before_repr with x1 x2; done.
  - intros Hm. unfold MoveAfter, MoveBefore. rewrite El. simpl. destruct Hm as [->|[Hm Hal]].
    + rewrite El. simpl. by rewrite !decide_True by tauto.
    + destruct (load_ok (inr m) h Hal) as (e' & -> & _ & _ & Eo' & _). simpl.
      assert (n_list e' ≠ Some l) by (rewrite Eo', (repr_own _ _ _ Hr); done).
      by rewrite !decide_True by tauto.
Qed.

Lemma PathItemList_moves_witness :
  ∃ h n, repr h 0 [n] ∧ ∃ v h', PathItemList_Remove 0 (inr n) h = Ok (v, h') ∧
    val h (inr n) = Some v ∧ repr h' 0 [] ∧ own h' (inr n) = None ∧ preserved h h' 0.
Proof.
  destruct one_list_ok as [Hwf Hr].
  destruct (PushFront_added one_list 0 [] [mkPathItem "Account" None] Hwf (or_introl Hr)
              ltac:(done)) as (n & h & _ & Hr' & _ & _ & Hp).
  exists h, n. split; [exact Hr'|].
  assert (without n [n] = []) as E by (unfold without; by rewrite filter_cons_False by tauto).
  rewrite <- E.
  apply (PathItemList_moves h 0 [n] n n (pres_wf _ _ _ Hp) Hr' ltac:(done)).
  by left.
Defined.

(** Length, ends and traversal read the sequence: Front and Back give its
    ends, Next and Prev the neighbours of an element, nil beyond the ends. *)
Theorem PathItemList_traversal (h : store) (l : nat) (ps : list nat) (Hr : repr h l ps) :
  PathItemList_Len l h = Ok (Z.of_nat (length ps)) ∧
  PathItemList_Front l h = Ok (inr <$> head ps) ∧
  PathItemList_Back l h = Ok (inr <$> last ps) ∧
  ∀ xs n ys, ps = xs ++ n :: ys →
    PathItemElement_Next (inr n) h = Ok (inr <$> head ys) ∧
    PathItemElement_Prev (inr n) h = Ok (inr <$> last xs).
Proof.
  destruct (Front_ring h l ps Hr) as (El & Ef & Eb). split_and!; [done..|].
  intros xs n ys ->. by apply Next_ring with l.
Qed.

Lemma PathItemList_traversal_witness :
  ∃ h n, repr h 0 [n] ∧ PathItemList_Len 0 h = Ok 1 ∧
    PathItemList_Front 0 h = Ok (Some (inr n)) ∧ PathItemElement_Next (inr n) h = Ok None.
Proof.
  destruct one_list_ok as [Hwf Hr].
  destruct (PushFront_added one_list 0 [] [mkPathItem "Account" None] Hwf (or_introl Hr)
              ltac:(done)) as (n & h & _ & Hr' & _ & _ & Hp).
  exists h, n. split; [exact Hr'|].
  destruct (PathItemList_traversal h 0 [n] Hr') as (E1 & E2 & _ & E3).
  split; [exact E1|split; [exact E2|]]. exact (proj1 (E3 [] n [] eq_refl)).
Defined.

(** Appending (or prepending) a list copies its values behind (or in front
    of) the elements of the receiver, in order, also when the two lists are the
    same one. *)
Theorem PathItemList_concatenation (h : store) (l other : nat) (ps qs : list nat)
    (Hwf : wf h) (Hr : valid h l ps) (Ho : repr h other qs) (Heq : other = l → qs = ps)
    (Hlen : Z.of_nat (length ps + length qs) ≤ max_int64) :
  (∃ ns h', PushBackList l other h = Ok h' ∧ repr h' l (ps ++ ns) ∧
            vals h' ns = vals h qs ∧ preserved h h' l) ∧
  (∃ ns h', PushFrontList l other h = Ok h' ∧ repr h' l (ns ++ ps) ∧
            vals h' ns = vals h qs ∧ preserved h h' l).
Proof.
  destruct (lazyInit_repr h l ps Hwf Hr) as (h1 & E & Hr1 & Hp1 & Hro1).
  apply Hro1 in Ho as Ho1. destruct (Front_ring h1 other qs Ho1) as (El & Ef & Eb).
  assert (vals h1 qs = vals h qs) as Ev
    by (apply (vals_preserved h h1 l other qs qs); auto).
  unfold PushBackList, PushFrontList. rewrite E. simpl. rewrite El, Ef, Eb. simpl.
  rewrite Nat2Z.id. split.
  - destruct (push_back_loop_ok l other ps qs [] [] h1 [] (inr <$> head qs))
      as (ns & h' & -> & Hr' & Hv' & Hp');
      rewrite ?app_nil_r, ?app_nil_l; auto; [apply Hp1|].
    exists ns, h'. split_and!; [done|done|congruence|by eapply preserved_trans].
  - destruct (push_front_loop_ok l other ps qs [] [] h1 [] (inr <$> last qs))
      as (ns & h' & -> & Hr' & Hv' & Hp');
      rewrite ?app_nil_r, ?app_nil_l; auto; [apply Hp1|].
    exists ns, h'. split_and!; [done|done|congruence|by eapply preserved_trans].
Qed.

Lemma PathItemList_concatenation_witness :
  ∃ h n, repr h 0 [n] ∧ ∃ ns h', PushBackList 0 0 h = Ok h' ∧ repr h' 0 ([n] ++ ns) ∧
    vals h' ns = vals h [n] ∧ preserved h h' 0.
Proof.
  destruct one_list_ok as [Hwf Hr].
  destruct (PushFront_added one_list 0 [] [mkPathItem "Account" None] Hwf (or_introl Hr)
              ltac:(done)) as (n & h & _ & Hr' & _ & _ & Hp).
  exists h, n. split; [exact Hr'|].
  apply (PathItemList_concatenation h 0 0 [n] [n] (pres_wf _ _ _ Hp) (or_introl Hr') Hr');
    done.
Defined.
