(* ===== verification/RateInterval.v ===== *)
(** * Rate intervals

    [engine/rateinterval.go]: the timing of an interval (which dates and hours it
    covers), its rating (the groups of rates) and the interval itself.  Series
    that the code compares by [reflect.DeepEqual] are options, nil being [None];
    [Timing] and [Rating] are pointers, hence options too.  The elements of a
    [RateGroups] are never nil in the code (it dereferences them everywhere) and
    are kept as values; the two methods that write through them return the
    interval they leave behind. *)
From S2P Require Import Prelude GoFloat FloatExact GoStrings GoTime DateSeries CoreUtils.

Definition MetaEveryMinute : string := "*every_minute".
Definition MetaHourly : string := "*hourly".
Definition globalRoundingDecimals : Z := 6.

Record RITiming := mkRITiming {
  rit_Years : option Years;
  rit_Months : option Months;
  rit_MonthDays : option MonthDays;
  rit_WeekDays : option WeekDays;
  rit_StartTime : string;
  rit_EndTime : string;
  rit_cronString : string;
  rit_tag : string
}.

(** The elements of a slice that may be nil. *)
Definition elems {A} (s : option (list A)) : list A := default [] s.

Record Rate := mkRate {
  rt_GroupIntervalStart : Z;
  rt_Value : float64;
  rt_RateIncrement : Z;
  rt_RateUnit : Z
}.

Definition RateGroups := list Rate.

Record RIRate := mkRIRate {
  rir_ConnectFee : float64;
  rir_RoundingMethod : string;
  rir_RoundingDecimals : Z;
  rir_MaxCost : float64;
  rir_MaxCostStrategy : string;
  rir_Rates : option RateGroups;
  rir_tag : string
}.

Record RateInterval := mkRateInterval {
  ri_Timing : option RITiming;
  ri_Rating : option RIRate;
  ri_Weight : float64
}.

(** ** Timing *)

(** The comma-separated list of a series, [*] when it is empty. *)
Fixpoint cron_loop (i : nat) (s : list Z) (str : string) : string :=
  match s with
  | [] => str
  | x :: s' =>
      let str := if (0 <? i)%nat then str +:+ "," else str in
      cron_loop (S i) s' (str +:+ Itoa x)
  end.
Definition cron_field (s : option (list Z)) : string :=
  if decide (length (elems s) = 0)%nat then "*" else cron_loop 0 (elems s) "".

Definition strip_zero (s : string) : string := if HasPrefix s "0" then sdrop 1 s else s.

(** Caches its result in the receiver. *)
Definition CronString (rit : RITiming) : string * RITiming :=
  if decide (rit_cronString rit ≠ "") then (rit_cronString rit, rit)
  else
    let '(hour, min, sec) :=
      if decide (rit_StartTime rit = "") then ("*", "*", "*")
      else if decide (rit_StartTime rit = MetaEveryMinute) then ("*", "*", "0")
      else if decide (rit_StartTime rit = MetaHourly) then ("*", "0", "0")
      else
        let '(hour, min, sec) :=
          match Split (rit_StartTime rit) ":" with
          | [h; m; s] => (h, m, s)
          | _ => ("*", "*", "*")
          end in
        (strip_zero hour, strip_zero min, strip_zero sec) in
    let monthday := cron_field (rit_MonthDays rit) in
    let month := cron_field (rit_Months rit) in
    let weekday := cron_field (rit_WeekDays rit) in
    let year := cron_field (rit_Years rit) in
    let str := Join [sec; min; hour; monthday; month; weekday; year] " " in
    (str, mkRITiming (rit_Years rit) (rit_Months rit) (rit_MonthDays rit)
            (rit_WeekDays rit) (rit_StartTime rit) (rit_EndTime rit) str (rit_tag rit)).

(** The clock of a [HH:MM:SS] string; fewer than three parts panic. *)
Definition clock_parts (s : string) : res (Z * Z * Z) :=
  let split := Split s ":" in
  hour ← index split 0; min ← index split 1; sec ← index split 2;
  Ok (Atoi_value hour, Atoi_value min, Atoi_value sec).

Definition getRightMargin (rit : RITiming) (t : Time) : res Time :=
  if decide (rit_EndTime rit ≠ "") then
    '(hour, min, sec) ← clock_parts (rit_EndTime rit);
    Ok (Date (Year t) (Month t) (Day t) hour min sec 0 (t_loc t))
  else Ok (Add (Date (Year t) (Month t) (Day t) 23 59 59 0 (t_loc t)) Second).

Definition getLeftMargin (rit : RITiming) (t : Time) : res Time :=
  '(hour, min, sec) ←
    (if decide (rit_StartTime rit ≠ "") then clock_parts (rit_StartTime rit)
     else Ok (0, 0, 0));
  Ok (Date (Year t) (Month t) (Day t) hour min sec 0 (t_loc t)).

(** [len(s) > 0 && !s.Contains(x)] *)
Definition excluded (contains : list Z → Z → bool) (s : option (list Z)) (x : Z) : bool :=
  (0 <? length (elems s))%nat && negb (contains (elems s) x).

Definition IsActiveAt (rit : RITiming) (t : Time) : res bool :=
  if excluded Years_Contains (rit_Years rit) (Year t) then Ok false
  else if excluded Months_Contains (rit_Months rit) (Month t) then Ok false
  else if excluded MonthDays_Contains (rit_MonthDays rit) (Day t) then Ok false
  else if excluded WeekDays_Contains (rit_WeekDays rit) (Weekday t) then Ok false
  else
    left ← getLeftMargin rit t;
    if Before t left then Ok false
    else
      right ← getRightMargin rit t;
      if After t right then Ok false else Ok true.

Definition IsBlank (rit : RITiming) : bool :=
  Nat.eqb (length (elems (rit_Years rit))) 0 &&
  Nat.eqb (length (elems (rit_Months rit))) 0 &&
  Nat.eqb (length (elems (rit_MonthDays rit))) 0 &&
  Nat.eqb (length (elems (rit_WeekDays rit))) 0 &&
  bool_decide (rit_StartTime rit = "00:00:00").

(** ** Rates *)

Definition Rate_Equal (p o : Rate) : bool :=
  (rt_GroupIntervalStart p =? rt_GroupIntervalStart o) &&
  feqb (rt_Value p) (rt_Value o) &&
  (rt_RateIncrement p =? rt_RateIncrement o) &&
  (rt_RateUnit p =? rt_RateUnit o).

Definition RateGroups_Less (a b : Rate) : bool :=
  rt_GroupIntervalStart a <? rt_GroupIntervalStart b.

Definition RateGroups_Sort `{GoRuntime} (pg : RateGroups) : RateGroups :=
  go_sort RateGroups_Less pg.

(** The element-wise comparison of [Equal] and [Equals], on equal lengths. *)
Fixpoint rates_equal_loop (pg og : RateGroups) : bool :=
  match pg, og with
  | p :: pg', o :: og' => if negb (Rate_Equal p o) then false else rates_equal_loop pg' og'
  | _, _ => true
  end.
Definition RateGroups_Equal (pg og : RateGroups) : bool :=
  if negb (Nat.eqb (length pg) (length og)) then false else rates_equal_loop pg og.
Definition RateGroups_Equals (pg oRG : RateGroups) : bool :=
  if negb (Nat.eqb (length pg) (length oRG)) then false else rates_equal_loop pg oRG.

Definition AddRate (pg : RateGroups) (ps : list Rate) : RateGroups :=
  foldl (λ pg p,
    let found := existsb (λ op, Rate_Equal op p) pg in
    if negb found then pg ++ [p] else pg) pg ps.

(** Copies: the values are those of the original. *)
Definition Rate_Clone (r : Rate) : Rate :=
  mkRate (rt_GroupIntervalStart r) (rt_Value r) (rt_RateIncrement r) (rt_RateUnit r).
Definition RateGroups_Clone (pg : RateGroups) : RateGroups := Rate_Clone <$> pg.
(** A nil slice stays nil. *)
Definition RateGroups_map (f : Rate → Rate) (rs : option RateGroups)
    : option RateGroups :=
  match rs with Some l => Some (f <$> l) | None => None end.
Definition RIRate_Clone (rit : option RIRate) : option RIRate :=
  match rit with
  | None => None
  | Some r =>
      Some (mkRIRate (rir_ConnectFee r) (rir_RoundingMethod r) (rir_RoundingDecimals r)
              (rir_MaxCost r) (rir_MaxCostStrategy r)
              (RateGroups_map Rate_Clone (rir_Rates r)) "")
  end.
(** The cached cron string and the tag are not copied. *)
Definition RITiming_Clone (rit : option RITiming) : option RITiming :=
  match rit with
  | None => None
  | Some r =>
      Some (mkRITiming (rit_Years r) (rit_Months r) (rit_MonthDays r) (rit_WeekDays r)
              (rit_StartTime r) (rit_EndTime r) "" "")
  end.

(** ** Intervals *)

Definition RateInterval_Contains (i : RateInterval) (t : Time) (endTime : bool)
    : res bool :=
  let t := if endTime then if TimeIs0h t then Add t (-1 * Second) else t else t in
  timing ← deref (ri_Timing i);
  IsActiveAt timing t.

(** [reflect.DeepEqual] of two integer slices: nil and empty differ. *)
Definition DeepEqual (a b : option (list Z)) : bool := bool_decide (a = b).

Definition RateInterval_Equal (i o : option RateInterval) : res bool :=
  match i, o with
  | None, None => Ok true
  | None, _ | _, None => Ok false
  | Some i, Some o =>
      if negb (feqb (ri_Weight i) (ri_Weight o)) then Ok false
      else match ri_Timing i, ri_Timing o with
           | None, None => Ok true
           | it, ot =>
               it ← deref it; ot ← deref ot;
               Ok (DeepEqual (rit_Years it) (rit_Years ot) &&
                   DeepEqual (rit_Months it) (rit_Months ot) &&
                   DeepEqual (rit_MonthDays it) (rit_MonthDays ot) &&
                   DeepEqual (rit_WeekDays it) (rit_WeekDays ot) &&
                   bool_decide (rit_StartTime it = rit_StartTime ot) &&
                   bool_decide (rit_EndTime it = rit_EndTime ot))
           end
  end.

(** Zero increments and units become one second, in the rate itself. *)
Definition fill_zero (r : Rate) : Rate :=
  mkRate (rt_GroupIntervalStart r) (rt_Value r)
    (if rt_RateIncrement r =? 0 then 1 * Second else rt_RateIncrement r)
    (if rt_RateUnit r =? 0 then 1 * Second else rt_RateUnit r).

(** The loop over the sorted groups: the rates already passed, the result and the
    rates as the loop leaves them. *)
Fixpoint rate_loop (startSecond : Z) (passed rates : list Rate)
    : option Rate * list Rate :=
  match rates with
  | [] => (None, passed)
  | price :: rest =>
      if (rt_GroupIntervalStart price <=? startSecond) &&
         match rest with
         | [] => true
         | next :: _ => startSecond <? rt_GroupIntervalStart next
         end
      then let price := fill_zero price in (Some price, passed ++ price :: rest)
      else rate_loop startSecond (passed ++ [price]) rest
  end.

Definition GetRateParameters `{GoRuntime} (i : RateInterval) (startSecond : Z)
    : (float64 * Z * Z) * RateInterval :=
  match ri_Rating i with
  | None => ((f_of_Z (-1), -1, -1), i)
  | Some rating =>
      let sorted := RateGroups_Sort (elems (rir_Rates rating)) in
      let '(found, rates) := rate_loop startSecond [] sorted in
      let i' := mkRateInterval (ri_Timing i)
                  (Some (mkRIRate (rir_ConnectFee rating) (rir_RoundingMethod rating)
                           (rir_RoundingDecimals rating) (rir_MaxCost rating)
                           (rir_MaxCostStrategy rating)
                           (match rir_Rates rating with Some _ => Some rates | None => None end)
                           (rir_tag rating)))
                  (ri_Weight i) in
      match found with
      | Some price => ((rt_Value price, rt_RateIncrement price, rt_RateUnit price), i')
      | None => ((f_of_Z (-1), -1, -1), i')
      end
  end.

Definition RateInterval_GetCost `{GoRuntime} (i : RateInterval) (duration startSecond : Z)
    : float64 * RateInterval :=
  let '((price, _, rateUnit), i') := GetRateParameters i startSecond in
  let price := fdiv price (f_of_Z rateUnit) in
  let d := f_of_Z duration in
  (Round (fmul d price) globalRoundingDecimals ROUNDING_MIDDLE, i').

Definition GetMaxCost (ri : RateInterval) : float64 * string :=
  match ri_Rating ri with
  | None => (f0, "")
  | Some r => (rir_MaxCost r, rir_MaxCostStrategy r)
  end.

Definition RateIntervalList_GetWeight (rl : list RateInterval) : float64 :=
  foldl (λ maxWeight r, if fgtb (ri_Weight r) maxWeight then ri_Weight r else maxWeight)
    f0 rl.

Definition RateInterval_Clone (i : option RateInterval) : option RateInterval :=
  match i with
  | None => None
  | Some i => Some (mkRateInterval (RITiming_Clone (ri_Timing i))
                      (RIRate_Clone (ri_Rating i)) (ri_Weight i))
  end.

(** ** The sorter of intervals

    [Less(j, i)] as [sort] calls it: is [a] (index j) before [b] (index i)? *)
Definition TimeSorter_Less (referenceTime : Time) (a b : RateInterval) : res bool :=
  if fltb (ri_Weight b) (ri_Weight a) then Ok (fltb (ri_Weight b) (ri_Weight a))
  else
    tb ← deref (ri_Timing b); t1 ← getLeftMargin tb referenceTime;
    ta ← deref (ri_Timing a); t2 ← getLeftMargin ta referenceTime;
    Ok (After t1 t2).

(** Sorting when every comparison has a value; the comparison of a nil timing or
    of a malformed start time panics. *)
Definition TimeSorter_Sort `{GoRuntime} (referenceTime : Time) (ris : list RateInterval)
    : res (list RateInterval) :=
  let less a b := match TimeSorter_Less referenceTime a b with Ok r => r | _ => false end in
  if forallb (λ a, forallb (λ b, is_ok (TimeSorter_Less referenceTime a b)) ris) ris
     || (length ris <=? 1)%nat
  then Ok (go_sort less ris) else Panic.

(** * Lemmas *)

Lemma excluded_false contains s x :
  (∀ l, contains l x = true ↔ x ∈ l) →
  excluded contains s x = false ↔ elems s = [] ∨ x ∈ elems s.
Proof.
  intros Hc. unfold excluded. destruct (elems s) as [|y l]; [simpl; tauto|].
  change ((0 <? length (y :: l))%nat) with true. simpl andb.
  rewrite negb_false_iff, Hc. naive_solver.
Qed.

(** The clock an interval starts and ends at; an interval without an end closes at
    midnight. *)
Definition start_clock (rit : RITiming) : res (Z * Z * Z) :=
  if decide (rit_StartTime rit ≠ "") then clock_parts (rit_StartTime rit) else Ok (0, 0, 0).
Definition end_clock (rit : RITiming) : res (Z * Z * Z) :=
  if decide (rit_EndTime rit ≠ "") then clock_parts (rit_EndTime rit) else Ok (24, 0, 0).
Definition clock_secs (c : Z * Z * Z) : Z := let '(h, m, s) := c in h * 3600 + m * 60 + s.

Lemma left_margin_ns rit t c :
  fixed (t_loc t) → start_clock rit = Ok c →
  ∃ m, getLeftMargin rit t = Ok m ∧ t_loc m = t_loc t ∧
  t_ns m = (day_number t * 86400 + clock_secs c - loc_first (t_loc t)) * Second.
Proof.
  intros Hf Hc. unfold getLeftMargin. unfold start_clock in Hc. rewrite Hc. destruct c as [[h mi] s]. simpl. eexists; split; [done|].
  rewrite Date_loc. split; [done|]. rewrite fixed_Date_same_day by done. simpl. lia.
Qed.

Lemma right_margin_ns rit t c :
  fixed (t_loc t) → end_clock rit = Ok c →
  ∃ m, getRightMargin rit t = Ok m ∧ t_loc m = t_loc t ∧
  t_ns m = (day_number t * 86400 + clock_secs c - loc_first (t_loc t)) * Second.
Proof.
  intros Hf. unfold getRightMargin, end_clock. destruct (decide _).
  - intros ->. destruct c as [[h mi] s]. simpl. eexists; split; [done|].
    rewrite Date_loc. split; [done|]. rewrite fixed_Date_same_day by done. simpl. lia.
  - intros [= <-]. eexists; split; [done|]. unfold Add. simpl. rewrite Date_loc.
    split; [done|]. rewrite fixed_Date_same_day by done. unfold Second. lia.
Qed.

(** The date part of a timing. *)
Definition date_matches (rit : RITiming) (t : Time) : Prop :=
  (elems (rit_Years rit) = [] ∨ Year t ∈ elems (rit_Years rit)) ∧
  (elems (rit_Months rit) = [] ∨ Month t ∈ elems (rit_Months rit)) ∧
  (elems (rit_MonthDays rit) = [] ∨ Day t ∈ elems (rit_MonthDays rit)) ∧
  (elems (rit_WeekDays rit) = [] ∨ Weekday t ∈ elems (rit_WeekDays rit)).

Lemma date_matches_excluded rit t :
  date_matches rit t ↔
  excluded Years_Contains (rit_Years rit) (Year t) = false ∧
  excluded Months_Contains (rit_Months rit) (Month t) = false ∧
  excluded MonthDays_Contains (rit_MonthDays rit) (Day t) = false ∧
  excluded WeekDays_Contains (rit_WeekDays rit) (Weekday t) = false.
Proof.
  unfold date_matches.
  rewrite !excluded_false by (intros; apply contains_loop_spec). done.
Qed.

Lemma IsActiveAt_ok rit t cs ce :
  fixed (t_loc t) → start_clock rit = Ok cs → end_clock rit = Ok ce →
  ∃ b, IsActiveAt rit t = Ok b ∧
    (b = true ↔ date_matches rit t ∧ clock_secs cs ≤ sec_of_day t ∧
                sec_of_day t * Second + TNanosecond t ≤ clock_secs ce * Second).
Proof.
  intros Hf Hs He. setoid_rewrite date_matches_excluded.
  unfold IsActiveAt.
  destruct (left_margin_ns rit t cs Hf Hs) as (ml & -> & _ & El).
  destruct (right_margin_ns rit t ce Hf He) as (mr & -> & _ & Er).
  pose proof (fixed_t_ns t Hf) as Et. pose proof (TNanosecond_range t) as Hn.
  repeat (destruct (excluded _ _ _);
    [eexists; split; [done|]; split; [done|]; by intros ((? & ? & ? & ?) & _)|]).
  simpl. unfold Before, After. rewrite El, Er, Et.
  set (L := (day_number t * 86400 + clock_secs cs - _) * Second).
  destruct (Z.ltb_spec ((day_number t * 86400 + sec_of_day t - loc_first (t_loc t))
      * Second + TNanosecond t) L) as [Hl|Hl].
  { eexists; split; [done|]. split; [done|]. intros (_ & Hle & _).
    subst L. unfold Second in *. lia. }
  destruct (Z.ltb_spec ((day_number t * 86400 + clock_secs ce - loc_first (t_loc t)) * Second)
      ((day_number t * 86400 + sec_of_day t - loc_first (t_loc t)) * Second + TNanosecond t))
    as [Hr|Hr].
  { eexists; split; [done|]. split; [done|]. intros (_ & _ & Hle).
    unfold Second in *. lia. }
  eexists; split; [done|]. split; [intros _|done]. split; [tauto|].
  subst L. unfold Second in *. lia.
Qed.

(** ** The loop over the groups of rates *)

Lemma rate_loop_spec s passed rates :
  sorted_by RateGroups_Less rates →
  match rate_loop s passed rates with
  | (Some p, out) => ∃ l1 r l2, rates = l1 ++ r :: l2 ∧ p = fill_zero r ∧
      out = passed ++ l1 ++ fill_zero r :: l2 ∧ rt_GroupIntervalStart r ≤ s ∧
      Forall (λ x, s < rt_GroupIntervalStart x) l2 ∧
      Forall (λ x, rt_GroupIntervalStart x ≤ rt_GroupIntervalStart r) l1
  | (None, out) => out = passed ++ rates ∧
      Forall (λ x, s < rt_GroupIntervalStart x) rates
  end.
Proof.
  revert passed. induction rates as [|r rest IH]; intros passed Hs; simpl.
  { by rewrite app_nil_r. }
  apply StronglySorted_inv in Hs as [Hs Hr].
  assert (Forall (λ x, rt_GroupIntervalStart r ≤ rt_GroupIntervalStart x) rest) as Hr'.
  { eapply Forall_impl; [exact Hr|]. unfold RateGroups_Less. intros x ?. simpl in *. lia. }
  destruct ((rt_GroupIntervalStart r <=? s) && _) eqn:E.
  - apply andb_true_iff in E as [E1 E2]. exists [], r, rest.
    split_and!; [done|done|done|lia| |constructor].
    destruct rest as [|n rest]; [constructor|]. constructor; [lia|].
    apply StronglySorted_inv in Hs as [_ Hn]. eapply Forall_impl; [exact Hn|].
    unfold RateGroups_Less. intros x ?. simpl in *. lia.
  - specialize (IH (passed ++ [r]) Hs). destruct (rate_loop s (passed ++ [r]) rest) as [[p|] out].
    + destruct IH as (l1 & r' & l2 & -> & -> & -> & Hle & H2 & H1).
      exists (r :: l1), r', l2. rewrite <- app_assoc. split_and!; try done.
      constructor; [|done]. rewrite Forall_forall in Hr'. apply Hr'. set_solver.
    + destruct IH as [-> Hall]. rewrite <- app_assoc. split; [done|].
      constructor; [|done]. apply andb_false_iff in E as [E|E]; [lia|].
      destruct rest as [|n rest]; [done|].
      apply Forall_cons in Hall as [Hn _]. apply Forall_cons in Hr' as [Hrn _].
      apply Z.ltb_ge in E. lia.
Qed.

Lemma fill_zero_idem r : fill_zero (fill_zero r) = fill_zero r.
Proof.
  unfold fill_zero. simpl. unfold Second.
  destruct (Z.eqb_spec (rt_RateIncrement r) 0), (Z.eqb_spec (rt_RateUnit r) 0); simpl;
    rewrite ?(proj2 (Z.eqb_neq _ _)) by done; done.
Qed.

(** The rates of an interval, none for a nil rating. *)
Definition ri_rates (i : RateInterval) : list Rate :=
  match ri_Rating i with Some r => elems (rir_Rates r) | None => [] end.

(** What a lookup of the rate parameters does: the rate in force, normalised, and
    the rates afterwards. *)
Lemma GetRateParameters_cases `{GoRuntime} i s :
  let '(params, i') := GetRateParameters i s in
  (∃ l1 r l2, ri_rates i ≡ₚ l1 ++ r :: l2 ∧ rt_GroupIntervalStart r ≤ s ∧
     Forall (λ x, s < rt_GroupIntervalStart x) l2 ∧
     Forall (λ x, rt_GroupIntervalStart x ≤ rt_GroupIntervalStart r) l1 ∧
     params = (rt_Value r, rt_RateIncrement (fill_zero r), rt_RateUnit (fill_zero r)) ∧
     ri_rates i' = l1 ++ fill_zero r :: l2) ∨
  (Forall (λ x, s < rt_GroupIntervalStart x) (ri_rates i) ∧
   params = (f_of_Z (-1), -1, -1) ∧ ri_rates i' ≡ₚ ri_rates i).
Proof.
  unfold GetRateParameters, ri_rates. destruct (ri_Rating i) as [rating|] eqn:Er.
  2: { right. rewrite Er. done. }
  pose proof (rate_loop_spec s [] (RateGroups_Sort (elems (rir_Rates rating)))
                (go_sort_all RateGroups_Less _)) as Hl.
  assert (RateGroups_Sort (elems (rir_Rates rating)) ≡ₚ elems (rir_Rates rating)) as Hp
    by apply go_sort_perm.
  destruct (rate_loop s [] (RateGroups_Sort (elems (rir_Rates rating)))) as [[p|] out].
  - destruct Hl as (l1 & r & l2 & E & -> & -> & H1 & H2 & H3). left.
    exists l1, r, l2. rewrite <- E, Hp. simpl. split_and!; try done.
    destruct (rir_Rates rating); [done|]. change (elems None) with ([] : list Rate) in *.
    apply Permutation_nil_r in Hp. rewrite Hp in E. by destruct l1.
  - destruct Hl as [-> Hall]. right. simpl. rewrite Hp in Hall. split_and!; try done.
    by destruct (rir_Rates rating).
Qed.

(** The rate in force is the one of the latest start when starts are distinct. *)
Lemma GetRateParameters_unique `{GoRuntime} i s :
  NoDup (rt_GroupIntervalStart <$> ri_rates i) →
  ∀ r, r ∈ ri_rates i → rt_GroupIntervalStart r ≤ s →
    (∀ x, x ∈ ri_rates i → rt_GroupIntervalStart x ≤ s →
          rt_GroupIntervalStart x ≤ rt_GroupIntervalStart r) →
    (GetRateParameters i s).1
    = (rt_Value r, rt_RateIncrement (fill_zero r), rt_RateUnit (fill_zero r)).
Proof.
  intros Hnd r' Hin Hle' Hmax. pose proof (GetRateParameters_cases i s) as Hc.
  destruct (GetRateParameters i s) as [params i']. simpl.
  destruct Hc as [(l1 & r & l2 & Hp & Hle & H2 & H1 & -> & _)|(Hall & _)].
  2: { rewrite Forall_forall in Hall. specialize (Hall r' Hin). lia. }
  assert (r' = r) as ->; [|done].
  assert (rt_GroupIntervalStart r ≤ rt_GroupIntervalStart r') as Hge.
  { apply Hmax; [|done]. rewrite Hp. set_solver. }
  rewrite Hp in Hin, Hnd. rewrite elem_of_app, elem_of_cons in Hin.
  rewrite Forall_forall in H1, H2.
  destruct Hin as [Hin|[->|Hin]]; [|done|specialize (H2 _ Hin); lia].
  exfalso. rewrite fmap_app, fmap_cons in Hnd. apply NoDup_app in Hnd as (_ & Hd & _).
  apply (Hd (rt_GroupIntervalStart r')); [by apply list_elem_of_fmap_2|].
  specialize (H1 _ Hin).
  replace (rt_GroupIntervalStart r') with (rt_GroupIntervalStart r) by lia. left.
Qed.

(** A lookup keeps the starts of the groups. *)
Lemma GetRateParameters_starts `{GoRuntime} i s :
  rt_GroupIntervalStart <$> ri_rates (GetRateParameters i s).2
  ≡ₚ rt_GroupIntervalStart <$> ri_rates i.
Proof.
  pose proof (GetRateParameters_cases i s) as Hc.
  destruct (GetRateParameters i s) as [params i']. simpl.
  destruct Hc as [(l1 & r & l2 & Hp & _ & _ & _ & _ & ->)|(_ & _ & Hp)];
    [|by rewrite Hp].
  rewrite Hp. by rewrite !fmap_app.
Qed.

(** * Properties *)

(** When a timing is active: the date must be one of the listed years, months,
    month days and week days (an empty list admits all), and the time of day must
    lie between the start and the end of the interval, both included; without an
    end the interval closes at midnight. *)
Theorem IsActiveAt_spec (rit : RITiming) (t : Time) (cs ce : Z * Z * Z)
    (Hf : fixed (t_loc t)) (Hs : start_clock rit = Ok cs) (He : end_clock rit = Ok ce) :
  ∃ b, IsActiveAt rit t = Ok b ∧
    (b = true ↔ date_matches rit t ∧ clock_secs cs ≤ sec_of_day t ∧
                sec_of_day t * Second + TNanosecond t ≤ clock_secs ce * Second).
Proof. by apply IsActiveAt_ok. Qed.

Lemma IsActiveAt_spec_witness :
  let rit := mkRITiming None None None (Some [1; 2; 3; 4; 5]) "08:00:00" "18:00:00" "" "" in
  let t := Date 2012 2 7 17 30 0 0 UTC in
  IsActiveAt rit t = Ok true ∧
  ∃ b, IsActiveAt rit t = Ok b ∧
    (b = true ↔ date_matches rit t ∧ clock_secs (8, 0, 0) ≤ sec_of_day t ∧
                sec_of_day t * Second + TNanosecond t ≤ clock_secs (18, 0, 0) * Second).
Proof.
  split; [vm_compute; reflexivity|].
  apply (IsActiveAt_spec
    (mkRITiming None None None (Some [1; 2; 3; 4; 5]) "08:00:00" "18:00:00" "" "")
    (Date 2012 2 7 17 30 0 0 UTC) (8, 0, 0) (18, 0, 0)); vm_compute; reflexivity.
Defined.

(** The rate parameters at a second are those of the group with the latest
    start not after it, with zero increments and units read as one second; without
    such a group they are (-1, -1, -1).  When the groups have distinct starts a
    second lookup, on the interval the first one has normalised, gives the same
    answer, whatever order the runtime sorts ties in. *)
Theorem GetRateParameters_spec `{GoRuntime} (i : RateInterval) (s : Z)
    (Hnd : NoDup (rt_GroupIntervalStart <$> ri_rates i)) :
  let '(params, i') := GetRateParameters i s in
  (∀ r, r ∈ ri_rates i → rt_GroupIntervalStart r ≤ s →
     (∀ x, x ∈ ri_rates i → rt_GroupIntervalStart x ≤ s →
           rt_GroupIntervalStart x ≤ rt_GroupIntervalStart r) →
     params = (rt_Value r, rt_RateIncrement (fill_zero r), rt_RateUnit (fill_zero r))) ∧
  ((∀ r, r ∈ ri_rates i → s < rt_GroupIntervalStart r) → params = (f_of_Z (-1), -1, -1)) ∧
  (GetRateParameters i' s).1 = params.
Proof.
  pose proof (GetRateParameters_unique i s Hnd) as Hu.
  pose proof (GetRateParameters_starts i s) as Hst.
  pose proof (GetRateParameters_cases i s) as Hc.
  destruct (GetRateParameters i s) as [params i']. simpl in *.
  split_and!; [exact Hu| |].
  - intros Hall. destruct Hc as [(l1 & r & l2 & Hp & Hle & _)|(_ & -> & _)]; [|done].
    assert (s < rt_GroupIntervalStart r); [apply Hall; rewrite Hp; set_solver|lia].
  - assert (NoDup (rt_GroupIntervalStart <$> ri_rates i')) as Hnd' by (by rewrite Hst).
    destruct Hc as [(l1 & r & l2 & Hp & Hle & H2 & H1 & -> & Hi')|(Hall & -> & Hi')].
    + rewrite (GetRateParameters_unique i' s Hnd' (fill_zero r)).
      * by rewrite fill_zero_idem.
      * rewrite Hi'. set_solver.
      * done.
      * rewrite Hi'. rewrite Forall_forall in H1, H2.
        intros x. rewrite elem_of_app, elem_of_cons.
        intros [Hx|[->|Hx]] Hxs; [by apply H1|done|].
        specialize (H2 x Hx). lia.
    + pose proof (GetRateParameters_cases i' s) as Hc.
      destruct (GetRateParameters i' s) as [params' i'']. simpl.
      destruct Hc as [(k1 & r & k2 & Hp & Hle & _)|(_ & -> & _)]; [|done].
      rewrite Hi' in Hp.
      rewrite Forall_forall in Hall. assert (s < rt_GroupIntervalStart r);
        [apply Hall; rewrite Hp; set_solver|lia].
Qed.

Lemma GetRateParameters_spec_witness :
  let i := mkRateInterval None (Some (mkRIRate f0 "*middle" 4 f0 ""
             (Some [mkRate (60 * Second) f1 Second 0; mkRate 0 f_half 0 (60 * Second)])
             "")) f0 in
  let r := @GetRateParameters reference_runtime i (10 * Second) in
  r.1 = (f_half, Second, 60 * Second) ∧
  (@GetRateParameters reference_runtime r.2 (10 * Second)).1 = r.1.
Proof.
  intros i r. split; [vm_compute; reflexivity|].
  pose proof (@GetRateParameters_spec reference_runtime i (10 * Second)
                ltac:(apply (bool_decide_unpack _); vm_compute; exact I)) as H.
  fold r in H. destruct r as [params i']. destruct H as (_ & _ & H). exact H.
Defined.

(** Outside the rates of an interval (no rating, or no group that has started)
    the code prices the sentinel -1 per -1: the cost of such a duration is its
    number of nanoseconds, rounded, not an error. *)
Theorem GetCost_without_rate `{GoRuntime} (i : RateInterval) (duration s : Z)
    (Hall : ∀ r, r ∈ ri_rates i → s < rt_GroupIntervalStart r) :
  (RateInterval_GetCost i duration s).1
  = Round (fmul (f_of_Z duration) f1) globalRoundingDecimals ROUNDING_MIDDLE.
Proof.
  unfold RateInterval_GetCost. pose proof (GetRateParameters_cases i s) as Hc.
  destruct (GetRateParameters i s) as [params i'].
  destruct Hc as [(l1 & r & l2 & Hp & Hle & _)|(_ & -> & _)].
  - assert (s < rt_GroupIntervalStart r); [apply Hall; rewrite Hp; set_solver|lia].
  - assert (fdiv (f_of_Z (-1)) (f_of_Z (-1)) = f1) as -> by (vm_compute; done). done.
Qed.

Lemma GetCost_without_rate_witness :
  let i := mkRateInterval None None f0 in
  (@RateInterval_GetCost reference_runtime i 1000 0).1 = f_of_Z 1000 ∧
  (@RateInterval_GetCost reference_runtime i 1000 0).1
  = Round (fmul (f_of_Z 1000) f1) globalRoundingDecimals ROUNDING_MIDDLE.
Proof.
  split; [vm_compute; reflexivity|].
  apply (@GetCost_without_rate reference_runtime). intros r Hr. inversion Hr.
Defined.

(** The comparison that sorts intervals is not an order: of two intervals where
    the lighter one starts earlier in the day each is before the other, so their
    sorted order is whatever the sort's algorithm makes of it. *)
Theorem TimeSorter_Less_not_asymmetric :
  ∃ (ref : Time) (a b : RateInterval),
    TimeSorter_Less ref a b = Ok true ∧ TimeSorter_Less ref b a = Ok true.
Proof.
  exists (Date 2012 2 7 0 0 0 0 UTC),
    (mkRateInterval (Some (mkRITiming None None None None "08:00:00" "" "" "")) None f0),
    (mkRateInterval (Some (mkRITiming None None None None "18:00:00" "" "" "")) None f1).
  split; vm_compute; reflexivity.
Qed.

