(* ===== verification/RatingPlan.v ===== *)
(** * Rating plans

    [engine/ratingplan.go]: the rate intervals of each destination, stored once per
    timing and rating under tags.  A tag is the first 8 characters of the SHA1 of
    the printed value; the hash is a parameter of the model. *)
From S2P Require Import Prelude GoFloat FloatExact GoStrings GoTime DateSeries CoreUtils Collections RateInterval.

Record RPRate := mkRPRate { rpr_Timing : string; rpr_Rating : string; rpr_Weight : float64 }.

Definition RPRate_Equal (rpr orpr : RPRate) : bool :=
  bool_decide (rpr_Timing rpr = rpr_Timing orpr) &&
  bool_decide (rpr_Rating rpr = rpr_Rating orpr) &&
  feqb (rpr_Weight rpr) (rpr_Weight orpr).

(** [DestinationRates] is [None] when the map is nil; the maps of timings and
    ratings are made with it. *)
Record RatingPlan := mkRatingPlan {
  rp_Id : string;
  rp_Timings : gmap string RITiming;
  rp_Ratings : gmap string RIRate;
  rp_DestinationRates : option (gmap string (list RPRate))
}.

Definition dest_rates (rp : RatingPlan) (dId : string) : list RPRate :=
  default [] (default ∅ (rp_DestinationRates rp) !! dId).

(** A tag that is not in a map reads as a nil pointer. *)
Definition rate_interval_of (rp : RatingPlan) (rpr : RPRate) : RateInterval :=
  mkRateInterval (rp_Timings rp !! rpr_Timing rpr) (rp_Ratings rp !! rpr_Rating rpr)
    (rpr_Weight rpr).

Definition RatingPlan_RateIntervalList (rp : RatingPlan) (dId : string)
    : list RateInterval := rate_interval_of rp <$> dest_rates rp dId.

Definition RatingPlan_Equal (rp o : RatingPlan) : bool := bool_decide (rp_Id rp = rp_Id o).

Section tags.
Context (RITiming_Stringify : RITiming → string) (RIRate_Stringify : RIRate → string).

Definition add_rate_interval (dId : string) (rp : RatingPlan) (ri : RateInterval)
    : RatingPlan :=
  let '(timings, timing) :=
    match ri_Timing ri with
    | Some t => let timingTag := RITiming_Stringify t in
                (<[timingTag := t]> (rp_Timings rp), timingTag)
    | None => (rp_Timings rp, "")
    end in
  let '(ratings, rating) :=
    match ri_Rating ri with
    | Some r => let ratingTag := RIRate_Stringify r in
                (<[ratingTag := r]> (rp_Ratings rp), ratingTag)
    | None => (rp_Ratings rp, "")
    end in
  let rpr := mkRPRate timing rating (ri_Weight ri) in
  let dr := default ∅ (rp_DestinationRates rp) in
  let found := existsb (λ erpr, RPRate_Equal erpr rpr) (default [] (dr !! dId)) in
  mkRatingPlan (rp_Id rp) timings ratings
    (Some (if negb found then <[dId := default [] (dr !! dId) ++ [rpr]]> dr else dr)).

Definition AddRateInterval (rp : RatingPlan) (dId : string) (ris : list RateInterval)
    : RatingPlan :=
  let rp :=
    match rp_DestinationRates rp with
    | None => mkRatingPlan (rp_Id rp) ∅ ∅ (Some ∅)
    | Some _ => rp
    end in
  foldl (add_rate_interval dId) rp ris.
End tags.

(** ** Sanity checks *)

(** [weekdays[wd] = 1] for every week day of a timing; out of 0..6 panics. *)
Definition mark_weekday (weekdays : list Z) (wd : Z) : res (list Z) :=
  if decide (0 ≤ wd < 7) then Ok (<[Z.to_nat wd := 1]> weekdays) else Panic.

Definition mark_weekdays (weekdays : list Z) (wds : list Z) : res (list Z) :=
  foldl (λ acc wd, w ← acc; mark_weekday w wd) (Ok weekdays) wds.

Fixpoint continous_loop (tms : list RITiming) (weekdays : list Z) : res bool :=
  match tms with
  | [] => Ok false
  | tm :: tms' =>
      if IsBlank tm then Ok true
      else if negb (Nat.eqb (length (elems (rit_Years tm))) 0) ||
              negb (Nat.eqb (length (elems (rit_Months tm))) 0) ||
              negb (Nat.eqb (length (elems (rit_MonthDays tm))) 0)
      then continous_loop tms' weekdays
      else if decide (rit_StartTime tm ≠ "00:00:00") then continous_loop tms' weekdays
      else
        weekdays ← mark_weekdays weekdays (elems (rit_WeekDays tm));
        let allWeekdaysCovered := forallb (λ wd, wd =? 1) weekdays in
        if allWeekdaysCovered then Ok true else continous_loop tms' weekdays
  end.

Definition isContinous `{GoRuntime} (rp : RatingPlan) : res bool :=
  continous_loop (go_range (rp_Timings rp)).*2 (replicate 7 0).

(** The first pair of neighbouring groups that fails a check. *)
Fixpoint unsane_rates (rates : list Rate) : bool :=
  match rates with
  | rate :: ((nextRate :: _) as rest) =>
      if rt_GroupIntervalStart nextRate <=? rt_GroupIntervalStart rate then true
      else if negb (feqb (Mod (f_of_Z (rt_GroupIntervalStart nextRate))
                              (f_of_Z (rt_RateIncrement rate))) f0) then true
      else if (rt_RateUnit rate =? 0) || (rt_RateIncrement rate =? 0) then true
      else unsane_rates rest
  | _ => false
  end.

Definition getFirstUnsaneRating `{GoRuntime} (rp : RatingPlan) : string :=
  match list_find (λ r, unsane_rates (RateGroups_Sort (elems (rir_Rates r))) = true)
          (go_range (rp_Ratings rp)).*2 with
  | Some (_, r) => rir_tag r
  | None => ""
  end.

Definition unsane_timing (timing : RITiming) : bool :=
  (negb (Nat.eqb (length (elems (rit_Years timing))) 0) ||
   negb (Nat.eqb (length (elems (rit_Months timing))) 0) ||
   negb (Nat.eqb (length (elems (rit_MonthDays timing))) 0)) &&
  negb (Nat.eqb (length (elems (rit_WeekDays timing))) 0).

Definition getFirstUnsaneTiming `{GoRuntime} (rp : RatingPlan) : string :=
  match list_find (λ t, unsane_timing t = true) (go_range (rp_Timings rp)).*2 with
  | Some (_, t) => rit_tag t
  | None => ""
  end.

(** * Lemmas *)

(** ** Continuity *)

(** A timing that counts for its week days only. *)
Definition midnight_timing (tm : RITiming) : Prop :=
  elems (rit_Years tm) = [] ∧ elems (rit_Months tm) = [] ∧
  elems (rit_MonthDays tm) = [] ∧ rit_StartTime tm = "00:00:00".

Definition weekdays_ok (tm : RITiming) : Prop :=
  Forall (λ wd, 0 ≤ wd < 7) (elems (rit_WeekDays tm)).

Lemma length_zero_b {A} (l : list A) : Nat.eqb (length l) 0 = true ↔ l = [].
Proof. destruct l; simpl; split; done. Qed.

Lemma IsBlank_spec tm :
  IsBlank tm = true ↔ midnight_timing tm ∧ elems (rit_WeekDays tm) = [].
Proof.
  unfold IsBlank, midnight_timing. rewrite !andb_true_iff, !length_zero_b,
    bool_decide_eq_true. tauto.
Qed.

(** The days marked so far. *)
Definition marked (w : list Z) (wd : Z) : Prop := w !! Z.to_nat wd = Some 1.

Lemma mark_weekdays_ok wds w :
  length w = 7%nat → Forall (λ wd, 0 ≤ wd < 7) wds →
  ∃ w', mark_weekdays w wds = Ok w' ∧ length w' = 7%nat ∧
        ∀ d, 0 ≤ d < 7 → marked w' d ↔ marked w d ∨ d ∈ wds.
Proof.
  unfold mark_weekdays. revert w. induction wds as [|x wds IH]; intros w Hw Hall; simpl.
  { exists w. split_and!; [done|done|]. intros d _. set_solver. }
  apply Forall_cons in Hall as [Hx Hall]. unfold mark_weekday at 2.
  rewrite decide_True by done. simpl.
  destruct (IH (<[Z.to_nat x := 1]> w)) as (w' & E & Hl & Hm);
    [by rewrite length_insert|done|].
  exists w'. split_and!; [exact E|done|]. intros d Hd. rewrite Hm by done.
  unfold marked. destruct (decide (d = x)) as [->|Hne].
  - rewrite list_lookup_insert_eq by lia. set_solver.
  - rewrite list_lookup_insert_ne by lia. set_solver.
Qed.

Lemma all_marked w :
  length w = 7%nat →
  forallb (λ wd, wd =? 1) w = true ↔ ∀ d, 0 ≤ d < 7 → marked w d.
Proof.
  intros Hl. rewrite forallb_forall. unfold marked. split.
  - intros Hall d Hd. destruct (lookup_lt_is_Some_2 w (Z.to_nat d)) as [x Hx]; [lia|].
    rewrite Hx. f_equal. apply Z.eqb_eq, Hall, list_elem_of_In.
    by eapply list_elem_of_lookup_2.
  - intros Hall x Hx%list_elem_of_In. apply list_elem_of_lookup_1 in Hx as [i Hi].
    pose proof (lookup_lt_Some _ _ _ Hi). specialize (Hall (Z.of_nat i) ltac:(lia)).
    rewrite Nat2Z.id, Hi in Hall. injection Hall as ->. done.
Qed.

Lemma continous_loop_spec tms w :
  length w = 7%nat → ¬ (∀ d, 0 ≤ d < 7 → marked w d) → Forall weekdays_ok tms →
  ∃ b, continous_loop tms w = Ok b ∧
    (b = true ↔ (∃ tm, tm ∈ tms ∧ IsBlank tm = true) ∨
      ∀ d, 0 ≤ d < 7 → marked w d ∨
        ∃ tm, tm ∈ tms ∧ midnight_timing tm ∧ d ∈ elems (rit_WeekDays tm)).
Proof.
  revert w. induction tms as [|tm tms IH]; intros w Hl Hn Hok; simpl.
  { exists false. split; [done|]. split; [done|]. intros [(? & Hin & _)|Hall].
    - by apply elem_of_nil in Hin.
    - destruct Hn. intros d Hd. destruct (Hall d Hd) as [?|(? & Hin & _)]; [done|by apply elem_of_nil in Hin]. }
  apply Forall_cons in Hok as [Hw Hok].
  destruct (IsBlank tm) eqn:Eb.
  { exists true. split; [done|]. split; [|done]. intros _. left. exists tm. set_solver. }
  assert (∀ w', length w' = 7%nat → ¬ (∀ d, 0 ≤ d < 7 → marked w' d) →
    (∀ d, 0 ≤ d < 7 → marked w' d ↔ marked w d ∨ midnight_timing tm ∧ d ∈ elems (rit_WeekDays tm)) →
    ∃ b, continous_loop tms w' = Ok b ∧
    (b = true ↔ (∃ tm', tm' ∈ tm :: tms ∧ IsBlank tm' = true) ∨
      ∀ d, 0 ≤ d < 7 → marked w d ∨
        ∃ tm', tm' ∈ tm :: tms ∧ midnight_timing tm' ∧ d ∈ elems (rit_WeekDays tm'))) as Hrest.
  { intros w' Hl' Hn' Hm. destruct (IH w' Hl' Hn' Hok) as (b & E & Hb).
    exists b. split; [exact E|]. rewrite Hb. setoid_rewrite elem_of_cons. split.
    - intros [(tm' & ? & ?)|Hall]; [left; eauto|right]. intros d Hd.
      destruct (Hall d Hd) as [Hmd|(tm' & ? & ?)]; [|right; exists tm'; tauto].
      apply Hm in Hmd as [?|[? ?]]; [tauto|right; exists tm; tauto|done].
    - intros [(tm' & [->|?] & Hbl)|Hall]; [congruence|eauto|right]. intros d Hd.
      destruct (Hall d Hd) as [?|(tm' & [->|?] & ? & ?)];
        [left; apply Hm; tauto|left; apply Hm; tauto|right; exists tm'; tauto]. }
  destruct (negb _ || _ || _) eqn:Es.
  { apply Hrest; [done|done|]. intros d _. split; [tauto|]. intros [?|[Hmt _]]; [done|].
    destruct Hmt as (H1 & H2 & H3 & _). rewrite H1, H2, H3 in Es. done. }
  destruct (decide (rit_StartTime tm ≠ "00:00:00")) as [Hst|Hst].
  { apply Hrest; [done|done|]. intros d _. split; [tauto|].
    intros [?|[(_ & _ & _ & ?) _]]; done. }
  assert (midnight_timing tm) as Hmt.
  { rewrite !orb_false_iff, !negb_false_iff, !length_zero_b in Es.
    destruct Es as [[? ?] ?]. split_and!; [done..|]. by apply dec_stable in Hst. }
  destruct (mark_weekdays_ok _ w Hl Hw) as (w' & -> & Hl' & Hm'). simpl.
  destruct (forallb _ w') eqn:Ea.
  - exists true. split; [done|]. split; [|done]. intros _. right.
    rewrite all_marked in Ea by done. intros d Hd.
    destruct (proj1 (Hm' d Hd) (Ea d Hd)) as [?|?]; [tauto|]. right. exists tm. set_solver.
  - apply Hrest; [done| |].
    + rewrite <- all_marked by done. congruence.
    + intros d Hd. rewrite Hm' by done. tauto.
Qed.

(** ** Adding intervals *)

Section tag_lemmas.
Context (RITiming_Stringify : RITiming → string) (RIRate_Stringify : RIRate → string).

(** The tags tell the values apart, among those of a plan and an interval. *)
Definition tags_faithful (rp : RatingPlan) (ri : RateInterval) : Prop :=
  (∀ t, ri_Timing ri = Some t →
     rp_Timings rp !! RITiming_Stringify t = None ∨
     rp_Timings rp !! RITiming_Stringify t = Some t) ∧
  (∀ r, ri_Rating ri = Some r →
     rp_Ratings rp !! RIRate_Stringify r = None ∨
     rp_Ratings rp !! RIRate_Stringify r = Some r).

(** The empty tag stands for a nil pointer. *)
Definition no_empty_tag (rp : RatingPlan) : Prop :=
  rp_Timings rp !! "" = None ∧ rp_Ratings rp !! "" = None ∧
  (∀ t, RITiming_Stringify t ≠ "") ∧ (∀ r, RIRate_Stringify r ≠ "").

(** Every tag in use is in the plan's maps. *)
Definition tags_closed (rp : RatingPlan) : Prop :=
  ∀ dId rpr, rpr ∈ dest_rates rp dId →
    (rpr_Timing rpr = "" ∨ is_Some (rp_Timings rp !! rpr_Timing rpr)) ∧
    (rpr_Rating rpr = "" ∨ is_Some (rp_Ratings rp !! rpr_Rating rpr)).

Definition timing_tag (ri : RateInterval) : string :=
  match ri_Timing ri with Some t => RITiming_Stringify t | None => "" end.
Definition rating_tag (ri : RateInterval) : string :=
  match ri_Rating ri with Some r => RIRate_Stringify r | None => "" end.

Lemma add_rate_interval_maps dId rp ri :
  let rp' := add_rate_interval RITiming_Stringify RIRate_Stringify dId rp ri in
  tags_faithful rp ri → no_empty_tag rp →
  (∀ k t, rp_Timings rp !! k = Some t → rp_Timings rp' !! k = Some t) ∧
  (∀ k r, rp_Ratings rp !! k = Some r → rp_Ratings rp' !! k = Some r) ∧
  rp_Timings rp' !! timing_tag ri = ri_Timing ri ∧
  rp_Ratings rp' !! rating_tag ri = ri_Rating ri ∧
  rp_Timings rp' !! "" = None ∧ rp_Ratings rp' !! "" = None.
Proof.
  intros rp' [Hft Hfr] (Ht0 & Hr0 & Htn & Hrn). subst rp'.
  unfold add_rate_interval, timing_tag, rating_tag.
  destruct (ri_Timing ri) as [t|], (ri_Rating ri) as [r|]; simpl; split_and!;
    rewrite ?lookup_insert_eq; auto.
  all: try (intros k x Hk; destruct (decide (k = RITiming_Stringify t)) as [->|];
    [destruct (Hft t eq_refl); rewrite lookup_insert_eq; congruence
    |by rewrite lookup_insert_ne]).
  all: try (intros k x Hk; destruct (decide (k = RIRate_Stringify r)) as [->|];
    [destruct (Hfr r eq_refl); rewrite lookup_insert_eq; congruence
    |by rewrite lookup_insert_ne]).
  all: rewrite lookup_insert_ne by eauto; done.
Qed.

(** The destinations' references after adding one interval. *)
Lemma add_rate_interval_dest dId rp ri d :
  let rp' := add_rate_interval RITiming_Stringify RIRate_Stringify dId rp ri in
  let rpr := mkRPRate (timing_tag ri) (rating_tag ri) (ri_Weight ri) in
  dest_rates rp' d =
  (if decide (d = dId) then
     if existsb (λ erpr, RPRate_Equal erpr rpr) (dest_rates rp dId)
     then dest_rates rp dId else dest_rates rp dId ++ [rpr]
   else dest_rates rp d).
Proof.
  unfold add_rate_interval, dest_rates, timing_tag, rating_tag.
  destruct (ri_Timing ri), (ri_Rating ri); simpl;
    set (dr := default ∅ (rp_DestinationRates rp));
    destruct (existsb _ _); simpl; destruct (decide (d = dId)) as [->|]; try done;
    by rewrite ?lookup_insert_eq, ?lookup_insert_ne.
Qed.

Lemma rate_interval_of_stable rp rp' rpr :
  (∀ k t, rp_Timings rp !! k = Some t → rp_Timings rp' !! k = Some t) →
  (∀ k r, rp_Ratings rp !! k = Some r → rp_Ratings rp' !! k = Some r) →
  rp_Timings rp !! "" = None → rp_Ratings rp !! "" = None →
  rp_Timings rp' !! "" = None → rp_Ratings rp' !! "" = None →
  (rpr_Timing rpr = "" ∨ is_Some (rp_Timings rp !! rpr_Timing rpr)) →
  (rpr_Rating rpr = "" ∨ is_Some (rp_Ratings rp !! rpr_Rating rpr)) →
  rate_interval_of rp' rpr = rate_interval_of rp rpr.
Proof.
  intros Ht Hr Ht0 Hr0 Ht0' Hr0' Ct Cr. unfold rate_interval_of. f_equal.
  - destruct Ct as [->|[t Et]]; [congruence|]. by rewrite Et, (Ht _ _ Et).
  - destruct Cr as [->|[r Er]]; [congruence|]. by rewrite Er, (Hr _ _ Er).
Qed.
End tag_lemmas.

(** * Properties *)

(** A plan is continuous exactly when one of its timings is blank or the
    timings that start at midnight and select by week day only cover the seven week
    days together, in whatever order the map is visited; it never panics on week
    days in range. *)
Theorem isContinous_spec `{GoRuntime} (rp : RatingPlan)
    (Hw : ∀ k tm, rp_Timings rp !! k = Some tm → weekdays_ok tm) :
  ∃ b, isContinous rp = Ok b ∧
    (b = true ↔ (∃ k tm, rp_Timings rp !! k = Some tm ∧ IsBlank tm = true) ∨
      ∀ d, 0 ≤ d < 7 → ∃ k tm, rp_Timings rp !! k = Some tm ∧ midnight_timing tm ∧
                               d ∈ elems (rit_WeekDays tm)).
Proof.
  unfold isContinous.
  assert (∀ tm, tm ∈ (go_range (rp_Timings rp)).*2 ↔ ∃ k, rp_Timings rp !! k = Some tm)
    as Hin.
  { intros tm. rewrite list_elem_of_fmap. split.
    - intros ([k t] & -> & Hk%go_range_elem). eauto.
    - intros [k Hk]. exists (k, tm). split; [done|]. by apply go_range_elem. }
  assert (∀ d, 0 ≤ d < 7 → ¬ marked (replicate 7 0) d) as Hm.
  { unfold marked. intros d Hd Hl. apply lookup_replicate in Hl as [? _]. done. }
  destruct (continous_loop_spec (go_range (rp_Timings rp)).*2 (replicate 7 0))
    as (b & E & Hb); [done|by intros Hall; apply (Hm 0), Hall| |].
  { apply Forall_forall. intros tm [k Hk]%Hin. eauto. }
  exists b. split; [exact E|]. rewrite Hb. split.
  - intros [(tm & [k Hk]%Hin & ?)|Hall]; [eauto|right]. intros d Hd.
    destruct (Hall d Hd) as [?|(tm & [k Hk]%Hin & ? & ?)]; [by destruct (Hm d Hd)|eauto].
  - intros [(k & tm & Hk & ?)|Hall].
    + left. exists tm. split; [apply Hin; eauto|done].
    + right. intros d Hd. destruct (Hall d Hd) as (k & tm & Hk & ? & ?). right.
      exists tm. split; [apply Hin; eauto|done].
Qed.

Lemma isContinous_spec_witness :
  let tm wds := mkRITiming None None None (Some wds) "00:00:00" "" "" "" in
  let rp := mkRatingPlan "RP" (<["a" := tm [1; 2; 3; 4; 5]]> (<["b" := tm [0; 6]]> ∅)) ∅ None in
  @isContinous reference_runtime rp = Ok true ∧
  ∃ b, @isContinous reference_runtime rp = Ok b ∧
    (b = true ↔ (∃ k tm, rp_Timings rp !! k = Some tm ∧ IsBlank tm = true) ∨
      ∀ d, 0 ≤ d < 7 → ∃ k tm, rp_Timings rp !! k = Some tm ∧ midnight_timing tm ∧
                               d ∈ elems (rit_WeekDays tm)).
Proof.
  intros tm rp. split; [vm_compute; reflexivity|].
  apply (@isContinous_spec reference_runtime). intros k t Hk.
  change (<["a" := tm [1; 2; 3; 4; 5]]> (<["b" := tm [0; 6]]> (∅ : gmap string RITiming))
            !! k = Some t) in Hk.
  apply lookup_insert_Some in Hk as [[<- <-]|[_ [[<- <-]|[_ [=]]]%lookup_insert_Some]];
    repeat constructor; simpl; lia.
Defined.

(** Adding an interval to a destination makes the plan give it back, through
    its tags, among the destination's intervals; no interval already there is lost
    or altered, and other destinations keep their lists. *)
Theorem AddRateInterval_RateIntervalList (ts : RITiming → string) (rs : RIRate → string)
    (rp : RatingPlan) (dId : string) (ri : RateInterval)
    (Hd : is_Some (rp_DestinationRates rp)) (Hf : tags_faithful ts rs rp ri)
    (Hn : no_empty_tag ts rs rp) (Hc : tags_closed rp) (Hw : is_nan (ri_Weight ri) = false) :
  let rp' := AddRateInterval ts rs rp dId [ri] in
  (∃ w, feqb w (ri_Weight ri) = true ∧
     mkRateInterval (ri_Timing ri) (ri_Rating ri) w ∈ RatingPlan_RateIntervalList rp' dId) ∧
  (∀ i, i ∈ RatingPlan_RateIntervalList rp dId → i ∈ RatingPlan_RateIntervalList rp' dId) ∧
  (∀ d, d ≠ dId → RatingPlan_RateIntervalList rp' d = RatingPlan_RateIntervalList rp d).
Proof.
  unfold AddRateInterval. destruct (rp_DestinationRates rp) as [dr|] eqn:Edr;
    [|by destruct Hd]. cbn [foldl].
  pose proof (add_rate_interval_maps ts rs dId rp ri Hf Hn) as (Mt & Mr & Tt & Tr & T0 & R0).
  pose proof (add_rate_interval_dest ts rs dId rp ri) as Dd. cbv zeta in *.
  set (rp' := add_rate_interval ts rs dId rp ri) in *.
  destruct Hn as (Ht0 & Hr0 & _).
  assert (∀ d rpr, rpr ∈ dest_rates rp d → rate_interval_of rp' rpr = rate_interval_of rp rpr)
    as Hst.
  { intros d rpr Hin. destruct (Hc d rpr Hin) as [Ct Cr].
    by apply rate_interval_of_stable. }
  unfold RatingPlan_RateIntervalList. split_and!.
  - rewrite Dd, decide_True by done. destruct (existsb _ _) eqn:Ex.
    + apply existsb_exists in Ex as (e & Hin%list_elem_of_In & He).
      unfold RPRate_Equal in He. simpl in He.
      rewrite !andb_true_iff, !bool_decide_eq_true in He. destruct He as [[E1 E2] E3].
      exists (rpr_Weight e). split; [done|]. apply list_elem_of_fmap. exists e.
      split; [|done]. unfold rate_interval_of. by rewrite E1, E2, Tt, Tr.
    + exists (ri_Weight ri). split; [by apply feqb_refl|].
      apply list_elem_of_fmap.
      exists (mkRPRate (timing_tag ts ri) (rating_tag rs ri) (ri_Weight ri)).
      split; [|set_solver]. unfold rate_interval_of. simpl. by rewrite Tt, Tr.
  - intros i (rpr & -> & Hin)%list_elem_of_fmap. rewrite <- (Hst dId) by done.
    apply list_elem_of_fmap_2. rewrite Dd, decide_True by done.
    destruct (existsb _ _); set_solver.
  - intros d Hne. rewrite Dd, decide_False by done. apply list_fmap_ext.
    intros j rpr Hj. apply (Hst d). by eapply list_elem_of_lookup_2.
Qed.

Lemma AddRateInterval_RateIntervalList_witness :
  let ts (t : RITiming) := ("t" +:+ rit_StartTime t) in
  let rs (r : RIRate) := ("r" +:+ rir_RoundingMethod r) in
  let rp := mkRatingPlan "RP" ∅ ∅ (Some ∅) in
  let ri := mkRateInterval (Some (mkRITiming None None None None "08:00:00" "" "" ""))
              (Some (mkRIRate f0 "*up" 4 f0 "" None "")) f1 in
  ∃ w, feqb w f1 = true ∧
    mkRateInterval (ri_Timing ri) (ri_Rating ri) w
      ∈ RatingPlan_RateIntervalList (AddRateInterval ts rs rp "DST" [ri]) "DST".
Proof.
  intros ts rs rp ri.
  apply (AddRateInterval_RateIntervalList ts rs rp "DST" ri).
  - by eexists.
  - split; intros ? _; left; reflexivity.
  - split_and!; [reflexivity|reflexivity|intros ?; discriminate|intros ?; discriminate].
  - intros d rpr Hin. unfold dest_rates in Hin. simpl in Hin.
    rewrite lookup_empty in Hin. by apply elem_of_nil in Hin.
  - reflexivity.
Defined.
