(* ===== verification/TimeSpans.v ===== *)
(** * Time spans and increments

    [engine/timespans.go]: the pieces a call is cut into, each rated by one rate
    interval, and the increments they are charged in.  A method that changes its
    receiver returns the new one.  Rate intervals are shared by pointer in the code
    and held by value here: what a rate lookup writes into an interval (sorted
    groups, one second for zero increments and units) is kept in the span that made
    the lookup, and RateInterval shows that a lookup does not depend on whether
    another one wrote before it.  Reading a compress factor overwrites a zero by
    one; the overwriting is kept where the code relies on it. *)
From S2P Require Import Prelude GoFloat FloatExact GoStrings GoTime DateSeries CoreUtils RateInterval.

(** ** Data *)

Record MonetaryInfo := mkMonetaryInfo {
  mi_UUID : string; mi_ID : string; mi_Value : float64;
  mi_RateInterval : option RateInterval }.

Record UnitInfo := mkUnitInfo {
  ui_UUID : string; ui_ID : string; ui_Value : float64; ui_DestinationID : string;
  ui_Consumed : float64; ui_ToR : string; ui_RateInterval : option RateInterval }.

Record DebitInfo := mkDebitInfo {
  di_Unit : option UnitInfo; di_Monetary : option MonetaryInfo; di_AccountID : string }.

Record Increment := mkIncrement {
  inc_Duration : Z; inc_Cost : float64; inc_BalanceInfo : option DebitInfo;
  inc_CompressFactor : Z; inc_paid : bool }.

Definition Increments := list Increment.

Record RatingInfo := mkRatingInfo {
  rinf_MatchedSubject : string; rinf_RatingPlanId : string; rinf_MatchedPrefix : string;
  rinf_MatchedDestId : string; rinf_ActivationTime : Time;
  rinf_RateIntervals : option (list RateInterval); rinf_FallbackKeys : list string }.

Record TimeSpan := mkTimeSpan {
  ts_TimeStart : Time; ts_TimeEnd : Time; ts_Cost : float64;
  ts_RateInterval : option RateInterval; ts_DurationIndex : Z;
  ts_Increments : option Increments; ts_RoundIncrement : option Increment;
  ts_MatchedSubject : string; ts_MatchedPrefix : string; ts_MatchedDestId : string;
  ts_RatingPlanId : string; ts_CompressFactor : Z; ts_ratingInfo : option RatingInfo }.

(** [&TimeSpan{TimeStart: s, TimeEnd: e}] *)
Definition new_span (s e : Time) : TimeSpan :=
  mkTimeSpan s e f0 None 0 None None "" "" "" "" 0 None.

(** Assignments to one field. *)
Definition ts_set_times (ts : TimeSpan) (s e : Time) : TimeSpan :=
  mkTimeSpan s e (ts_Cost ts) (ts_RateInterval ts) (ts_DurationIndex ts)
    (ts_Increments ts) (ts_RoundIncrement ts) (ts_MatchedSubject ts)
    (ts_MatchedPrefix ts) (ts_MatchedDestId ts) (ts_RatingPlanId ts)
    (ts_CompressFactor ts) (ts_ratingInfo ts).
Definition ts_set_TimeEnd (ts : TimeSpan) (e : Time) : TimeSpan :=
  ts_set_times ts (ts_TimeStart ts) e.
Definition ts_set_Cost (ts : TimeSpan) (c : float64) : TimeSpan :=
  mkTimeSpan (ts_TimeStart ts) (ts_TimeEnd ts) c (ts_RateInterval ts)
    (ts_DurationIndex ts) (ts_Increments ts) (ts_RoundIncrement ts)
    (ts_MatchedSubject ts) (ts_MatchedPrefix ts) (ts_MatchedDestId ts)
    (ts_RatingPlanId ts) (ts_CompressFactor ts) (ts_ratingInfo ts).
Definition ts_set_interval (ts : TimeSpan) (i : option RateInterval) : TimeSpan :=
  mkTimeSpan (ts_TimeStart ts) (ts_TimeEnd ts) (ts_Cost ts) i
    (ts_DurationIndex ts) (ts_Increments ts) (ts_RoundIncrement ts)
    (ts_MatchedSubject ts) (ts_MatchedPrefix ts) (ts_MatchedDestId ts)
    (ts_RatingPlanId ts) (ts_CompressFactor ts) (ts_ratingInfo ts).
Definition ts_set_DurationIndex (ts : TimeSpan) (d : Z) : TimeSpan :=
  mkTimeSpan (ts_TimeStart ts) (ts_TimeEnd ts) (ts_Cost ts) (ts_RateInterval ts) d
    (ts_Increments ts) (ts_RoundIncrement ts) (ts_MatchedSubject ts)
    (ts_MatchedPrefix ts) (ts_MatchedDestId ts) (ts_RatingPlanId ts)
    (ts_CompressFactor ts) (ts_ratingInfo ts).
Definition ts_set_Increments (ts : TimeSpan) (incs : option Increments) : TimeSpan :=
  mkTimeSpan (ts_TimeStart ts) (ts_TimeEnd ts) (ts_Cost ts) (ts_RateInterval ts)
    (ts_DurationIndex ts) incs (ts_RoundIncrement ts) (ts_MatchedSubject ts)
    (ts_MatchedPrefix ts) (ts_MatchedDestId ts) (ts_RatingPlanId ts)
    (ts_CompressFactor ts) (ts_ratingInfo ts).
Definition ts_set_CompressFactor (ts : TimeSpan) (cf : Z) : TimeSpan :=
  mkTimeSpan (ts_TimeStart ts) (ts_TimeEnd ts) (ts_Cost ts) (ts_RateInterval ts)
    (ts_DurationIndex ts) (ts_Increments ts) (ts_RoundIncrement ts)
    (ts_MatchedSubject ts) (ts_MatchedPrefix ts) (ts_MatchedDestId ts)
    (ts_RatingPlanId ts) cf (ts_ratingInfo ts).

(** ** Balance information *)

(** [reflect.DeepEqual] on intervals: equal fields, nil and empty slices apart,
    floats by value. *)
Fixpoint deep_rates (a b : list Rate) : bool :=
  match a, b with
  | [], [] => true
  | x :: a', y :: b' => Rate_Equal x y && deep_rates a' b'
  | _, _ => false
  end.
Definition deep_option {A} (f : A → A → bool) (a b : option A) : bool :=
  match a, b with None, None => true | Some x, Some y => f x y | _, _ => false end.
Definition deep_rating (a b : RIRate) : bool :=
  feqb (rir_ConnectFee a) (rir_ConnectFee b) &&
  bool_decide (rir_RoundingMethod a = rir_RoundingMethod b) &&
  (rir_RoundingDecimals a =? rir_RoundingDecimals b) &&
  feqb (rir_MaxCost a) (rir_MaxCost b) &&
  bool_decide (rir_MaxCostStrategy a = rir_MaxCostStrategy b) &&
  deep_option deep_rates (rir_Rates a) (rir_Rates b) &&
  bool_decide (rir_tag a = rir_tag b).
Definition deep_timing (a b : RITiming) : bool :=
  DeepEqual (rit_Years a) (rit_Years b) && DeepEqual (rit_Months a) (rit_Months b) &&
  DeepEqual (rit_MonthDays a) (rit_MonthDays b) &&
  DeepEqual (rit_WeekDays a) (rit_WeekDays b) &&
  bool_decide (rit_StartTime a = rit_StartTime b) &&
  bool_decide (rit_EndTime a = rit_EndTime b) &&
  bool_decide (rit_cronString a = rit_cronString b) &&
  bool_decide (rit_tag a = rit_tag b).
Definition deep_interval (a b : RateInterval) : bool :=
  deep_option deep_timing (ri_Timing a) (ri_Timing b) &&
  deep_option deep_rating (ri_Rating a) (ri_Rating b) &&
  feqb (ri_Weight a) (ri_Weight b).

Definition MonetaryInfo_Equal (mi other : option MonetaryInfo) : bool :=
  match mi, other with
  | None, None => true
  | Some a, Some b =>
      bool_decide (mi_UUID a = mi_UUID b) &&
      deep_option deep_interval (mi_RateInterval a) (mi_RateInterval b)
  | _, _ => false
  end.

Definition UnitInfo_Equal (ui other : option UnitInfo) : bool :=
  match ui, other with
  | None, None => true
  | Some a, Some b =>
      bool_decide (ui_UUID a = ui_UUID b) &&
      bool_decide (ui_DestinationID a = ui_DestinationID b) &&
      feqb (ui_Consumed a) (ui_Consumed b) && bool_decide (ui_ToR a = ui_ToR b) &&
      deep_option deep_interval (ui_RateInterval a) (ui_RateInterval b)
  | _, _ => false
  end.

Definition DebitInfo_Equal (di other : DebitInfo) : bool :=
  UnitInfo_Equal (di_Unit di) (di_Unit other) &&
  MonetaryInfo_Equal (di_Monetary di) (di_Monetary other) &&
  bool_decide (di_AccountID di = di_AccountID other).

Definition DebitInfo_Clone (di : DebitInfo) : DebitInfo :=
  mkDebitInfo (di_Unit di) (di_Monetary di) (di_AccountID di).

(** ** Increments *)

Definition Increment_Clone (incr : Increment) : Increment :=
  mkIncrement (inc_Duration incr) (inc_Cost incr)
    (match inc_BalanceInfo incr with
     | Some b => Some (DebitInfo_Clone b) | None => None end)
    (inc_CompressFactor incr) false.

(** With a nil balance information on one side only, the method of the other is
    called with nil, or a nil receiver is dereferenced. *)
Definition Increment_Equal (incr other : Increment) : res bool :=
  if negb (inc_Duration incr =? inc_Duration other) then Ok false
  else if negb (feqb (inc_Cost incr) (inc_Cost other)) then Ok false
  else match inc_BalanceInfo incr, inc_BalanceInfo other with
       | None, None => Ok true
       | Some a, Some b => Ok (DebitInfo_Equal a b)
       | _, _ => Panic
       end.

Definition norm_cf (cf : Z) : Z := if cf =? 0 then 1 else cf.
Definition inc_set_cf (incr : Increment) (cf : Z) : Increment :=
  mkIncrement (inc_Duration incr) (inc_Cost incr) (inc_BalanceInfo incr) cf (inc_paid incr).

Definition Increment_GetCompressFactor (incr : Increment) : Z * Increment :=
  let cf := norm_cf (inc_CompressFactor incr) in (cf, inc_set_cf incr cf).

Definition Increment_GetCost (incr : Increment) : float64 :=
  fmul (f_of_Z (Increment_GetCompressFactor incr).1) (inc_Cost incr).

Definition Increments_Clone (incs : option Increments) : option Increments :=
  match incs with None => None | Some l => Some (Increment_Clone <$> l) end.

(** The loop stops at the end of the receiver. *)
Fixpoint increments_equal_loop (cfs : bool) (incs other : Increments) : res bool :=
  match incs, other with
  | [], _ => Ok true
  | i :: incs', o :: other' =>
      e ← Increment_Equal i o;
      if negb e || (cfs && negb ((Increment_GetCompressFactor i).1
                                 =? (Increment_GetCompressFactor o).1)) then Ok false
      else increments_equal_loop cfs incs' other'
  | _ :: _, [] => Panic
  end.

Definition Increments_Equal (incs other : Increments) : res bool :=
  if (length other <? length incs)%nat then Ok false
  else increments_equal_loop true incs other.

(** The last value of a compressed increment is that of its last member. *)
Definition merge_values (last incr : option DebitInfo) : option DebitInfo :=
  match last, incr with
  | Some l, Some i =>
      Some (mkDebitInfo
        (match di_Unit l, di_Unit i with
         | Some u, Some v => Some (mkUnitInfo (ui_UUID u) (ui_ID u) (ui_Value v)
             (ui_DestinationID u) (ui_Consumed u) (ui_ToR u) (ui_RateInterval u))
         | u, _ => u end)
        (match di_Monetary l, di_Monetary i with
         | Some m, Some v => Some (mkMonetaryInfo (mi_UUID m) (mi_ID m) (mi_Value v)
             (mi_RateInterval m))
         | m, _ => m end)
        (di_AccountID l))
  | l, _ => l
  end.

Fixpoint compress_loop (incs : Increments) (cIncrs : Increments) : res Increments :=
  match incs with
  | [] => Ok cIncrs
  | incr :: incs' =>
      match last cIncrs with
      | None => compress_loop incs' (cIncrs ++ [(Increment_GetCompressFactor incr).2])
      | Some l =>
          e ← Increment_Equal l incr;
          if negb e then
            compress_loop incs' (cIncrs ++ [(Increment_GetCompressFactor incr).2])
          else
            let l' := mkIncrement (inc_Duration l) (inc_Cost l)
                        (merge_values (inc_BalanceInfo l) (inc_BalanceInfo incr))
                        (add64 (inc_CompressFactor l) 1) (inc_paid l) in
            compress_loop incs' (removelast cIncrs ++ [l'])
      end
  end.

Definition Increments_Compress (incs : Increments) : res Increments :=
  compress_loop incs [].

(** Member [i] of [cf] equal ones gets back the value it left. *)
Definition decompressed (cIncr : Increment) (cf : Z) (i : nat) : Increment :=
  let incr := Increment_Clone cIncr in
  let rest := f_of_Z (cf - (Z.of_nat i + 1)) in
  mkIncrement (inc_Duration incr) (inc_Cost incr)
    (match inc_BalanceInfo incr with
     | None => None
     | Some b =>
         Some (mkDebitInfo
           (match di_Unit b with
            | Some u => Some (mkUnitInfo (ui_UUID u) (ui_ID u)
                (fadd (ui_Value u) (fmul rest (ui_Consumed u)))
                (ui_DestinationID u) (ui_Consumed u) (ui_ToR u) (ui_RateInterval u))
            | None => None end)
           (match di_Monetary b with
            | Some m => Some (mkMonetaryInfo (mi_UUID m) (mi_ID m)
                (fadd (mi_Value m) (fmul rest (inc_Cost incr))) (mi_RateInterval m))
            | None => None end)
           (di_AccountID b))
     end) 1 (inc_paid incr).

Definition Increments_Decompress (incs : Increments) : Increments :=
  foldl (λ cIncrs cIncr,
    let cf := (Increment_GetCompressFactor cIncr).1 in
    cIncrs ++ (decompressed cIncr cf <$> seq 0 (Z.to_nat cf))) [] incs.

Definition Increments_SharingSignature (incs other : Increments) : res bool :=
  otherCloned ← Increments_Compress (Increment_Clone <$> other);
  thisCloned ← Increments_Compress (Increment_Clone <$> incs);
  if (length otherCloned <? length thisCloned)%nat then Ok false
  else increments_equal_loop false thisCloned otherCloned.

Definition Increments_GetTotalCost (incs : Increments) : float64 :=
  Round (foldl (λ cost increment, fadd cost (Increment_GetCost increment)) f0 incs)
    globalRoundingDecimals ROUNDING_MIDDLE.

Definition Increments_Length (incs : Increments) : Z :=
  foldl (λ length incr, add64 length (Increment_GetCompressFactor incr).1) 0 incs.

(** ** Time spans *)

Definition TimeSpan_GetDuration (ts : TimeSpan) : Z := Sub (ts_TimeEnd ts) (ts_TimeStart ts).

Definition TimeSpan_GetCompressFactor (ts : TimeSpan) : Z * TimeSpan :=
  let cf := norm_cf (ts_CompressFactor ts) in (cf, ts_set_CompressFactor ts cf).

Definition GetUnitDuration (ts : TimeSpan) : res Z :=
  quot64 (Sub (ts_TimeEnd ts) (ts_TimeStart ts)) (TimeSpan_GetCompressFactor ts).1.
Definition GetUnitCost (ts : TimeSpan) : float64 :=
  fdiv (ts_Cost ts) (f_of_Z (TimeSpan_GetCompressFactor ts).1).

Definition TimeSpan_Contains (ts : TimeSpan) (t : Time) : bool :=
  After t (ts_TimeStart ts) && Before t (ts_TimeEnd ts).

Definition GetGroupStart (ts : TimeSpan) : Z :=
  let s := sub64 (ts_DurationIndex ts) (TimeSpan_GetDuration ts) in
  if s <? 0 then 0 else s.
Definition GetGroupEnd (ts : TimeSpan) : Z := ts_DurationIndex ts.

Definition SetNewDurationIndex (ts nts : TimeSpan) : TimeSpan :=
  let d := sub64 (ts_DurationIndex ts) (TimeSpan_GetDuration nts) in
  ts_set_DurationIndex ts (if d <? 0 then 0 else d).

Definition setRatingInfo (ts : TimeSpan) (rp : RatingInfo) : TimeSpan :=
  mkTimeSpan (ts_TimeStart ts) (ts_TimeEnd ts) (ts_Cost ts) (ts_RateInterval ts)
    (ts_DurationIndex ts) (ts_Increments ts) (ts_RoundIncrement ts)
    (rinf_MatchedSubject rp) (rinf_MatchedPrefix rp) (rinf_MatchedDestId rp)
    (rinf_RatingPlanId rp) (ts_CompressFactor ts) (Some rp).

Definition copyRatingInfo (nts ts : TimeSpan) : TimeSpan :=
  match ts_ratingInfo ts with None => nts | Some rp => setRatingInfo nts rp end.

Section rated.
Context `{GoRuntime}.

(** The two branches on the price return the same value. *)
Definition hasBetterRateIntervalThan (ts : TimeSpan) (interval : RateInterval)
    : res (bool * TimeSpan) :=
  match ri_Timing interval with
  | None => Ok (false, ts)
  | Some timing =>
      otherLeftMargin ← getLeftMargin timing (ts_TimeStart ts);
      let otherDistance := Sub (ts_TimeStart ts) otherLeftMargin in
      if otherDistance <? 0 then Ok (true, ts)
      else match ts_RateInterval ts with
           | None => Ok (false, ts)
           | Some own =>
               if fltb (ri_Weight own) (ri_Weight interval) then Ok (false, ts)
               else
                 ownTiming ← deref (ri_Timing own);
                 ownLeftMargin ← getLeftMargin ownTiming (ts_TimeStart ts);
                 let ownDistance := Sub (ts_TimeStart ts) ownLeftMargin in
                 if otherDistance <? ownDistance then Ok (false, ts)
                 else
                   let '((ownPrice, _, _), own') :=
                     GetRateParameters own (GetGroupStart ts) in
                   let '((otherPrice, _, _), _) :=
                     GetRateParameters interval (GetGroupStart ts) in
                   let ts' := ts_set_interval ts (Some own') in
                   if fltb ownPrice otherPrice then Ok (true, ts') else Ok (true, ts')
           end
  end.

Definition SetRateInterval (ts : TimeSpan) (interval : option RateInterval)
    : res TimeSpan :=
  match interval with
  | None => Ok ts
  | Some i =>
      '(better, ts) ← hasBetterRateIntervalThan ts i;
      if negb better then Ok (ts_set_interval ts (Some i)) else Ok ts
  end.

Definition ts_increments (ts : TimeSpan) : Increments := elems (ts_Increments ts).

Definition CalculateCost (ts : TimeSpan) : float64 * TimeSpan :=
  if Increments_Length (ts_increments ts) =? 0 then
    match ts_RateInterval ts with
    | None => (f0, ts)
    | Some i =>
        let '(cost, i') := RateInterval_GetCost i (TimeSpan_GetDuration ts) (GetGroupStart ts) in
        (cost, ts_set_interval ts (Some i'))
    end
  else
    let '(cf, ts') := TimeSpan_GetCompressFactor ts in
    (fmul (Increments_GetTotalCost (ts_increments ts)) (f_of_Z cf), ts').

(** [maxIncrements] is the configured limit on the increments of a span. *)
Definition createIncrementsSlice (maxIncrements : Z) (ts : TimeSpan) : res TimeSpan :=
  match ts_RateInterval ts with
  | None => Ok ts
  | Some i =>
      let ts := ts_set_Increments ts (Some []) in
      let '((_, rateIncrement, _), i') := GetRateParameters i (GetGroupStart ts) in
      let ts := ts_set_interval ts (Some i') in
      nbIncrements ← quot64 (TimeSpan_GetDuration ts) rateIncrement;
      if maxIncrements <? nbIncrements then Ok ts
      else
        let '(cost, ts) := CalculateCost ts in
        let incrementCost := fdiv cost (f_of_Z nbIncrements) in
        let incrementCost := Round incrementCost globalRoundingDecimals ROUNDING_MIDDLE in
        let inc := mkIncrement rateIncrement incrementCost
                     (Some (mkDebitInfo None None "")) 0 false in
        let ts := ts_set_Increments ts (Some (replicate (Z.to_nat nbIncrements) inc)) in
        Ok (ts_set_Cost ts (fmul incrementCost (f_of_Z nbIncrements)))
  end.

Fixpoint first_unpaid (idx : nat) (incs : Increments) : option nat :=
  match incs with
  | [] => None
  | increment :: incs' =>
      if negb (inc_paid increment) then Some idx else first_unpaid (S idx) incs'
  end.
Definition IsPaid (ts : TimeSpan) : bool * Z :=
  if Increments_Length (ts_increments ts) =? 0 then (false, 0)
  else match first_unpaid 0 (ts_increments ts) with
       | Some incrementIndex => (false, Z.of_nat incrementIndex)
       | None => (true, Z.of_nat (length (ts_increments ts)))
       end.

(** ** Splitting

    Each split returns the shortened receiver and the new span, if any. *)

(** The common end of every split at [splitTime]: [nts] is the rest, its rating
    information copied, the duration indexes separated. *)
Definition finish_split (ts nts : TimeSpan) (splitTime : Time) : TimeSpan * TimeSpan :=
  let nts := ts_set_DurationIndex nts (ts_DurationIndex ts) in
  (SetNewDurationIndex (ts_set_TimeEnd ts splitTime) nts, nts).

(** The groups of rates that start inside the span, in order. *)
Definition group_inside (ts : TimeSpan) (rate : Rate) : bool :=
  (GetGroupStart ts <? rt_GroupIntervalStart rate) &&
  (rt_GroupIntervalStart rate <? GetGroupEnd ts).

Definition sort_rating (i : RateInterval) : RateInterval :=
  match ri_Rating i with
  | None => i
  | Some r =>
      mkRateInterval (ri_Timing i)
        (Some (mkRIRate (rir_ConnectFee r) (rir_RoundingMethod r) (rir_RoundingDecimals r)
                 (rir_MaxCost r) (rir_MaxCostStrategy r)
                 (match rir_Rates r with
                  | Some l => Some (RateGroups_Sort l) | None => None end) (rir_tag r)))
        (ri_Weight i)
  end.

Definition SplitByRateInterval (ts : TimeSpan) (i : RateInterval) (data : bool)
    : res (TimeSpan * option TimeSpan) :=
  startIn ← RateInterval_Contains i (ts_TimeStart ts) false;
  anyIn ← (if (startIn : bool) then Ok true
           else RateInterval_Contains i (ts_TimeEnd ts) true);
  if negb anyIn then Ok (ts, None)
  else
    let i := sort_rating i in
    match list_find (λ r, group_inside ts r = true) (ri_rates i) with
    | Some (_, rate) =>
        ts ← SetRateInterval ts (Some i);
        let splitTime :=
          Add (ts_TimeStart ts) (sub64 (rt_GroupIntervalStart rate) (GetGroupStart ts)) in
        let nts := copyRatingInfo (new_span splitTime (ts_TimeEnd ts)) ts in
        nts ← SetRateInterval nts (Some i);
        let '(ts, nts) := finish_split ts nts splitTime in
        Ok (ts, Some nts)
    | None =>
        startIn ← RateInterval_Contains i (ts_TimeStart ts) false;
        if data then
          if (startIn : bool) then ts ← SetRateInterval ts (Some i); Ok (ts, None)
          else Ok (ts, None)
        else
          endIn ← RateInterval_Contains i (ts_TimeEnd ts) true;
          timing ← deref (ri_Timing i);
          if startIn && endIn then ts ← SetRateInterval ts (Some i); Ok (ts, None)
          else if (startIn : bool) then
            splitTime ← getRightMargin timing (ts_TimeStart ts);
            ts ← SetRateInterval ts (Some i);
            if (t_ns splitTime =? t_ns (ts_TimeStart ts)) ||
               TimeEqual splitTime (ts_TimeEnd ts) then Ok (ts, None)
            else
              let nts := copyRatingInfo (new_span splitTime (ts_TimeEnd ts)) ts in
              let '(ts, nts) := finish_split ts nts splitTime in
              Ok (ts, Some nts)
          else if (endIn : bool) then
            leftMargin ← getLeftMargin timing (ts_TimeEnd ts);
            let splitTime := CopyHour leftMargin (ts_TimeStart ts) in
            if TimeEqual splitTime (ts_TimeEnd ts) then Ok (ts, None)
            else
              let nts := copyRatingInfo (new_span splitTime (ts_TimeEnd ts)) ts in
              nts ← SetRateInterval nts (Some i);
              let '(ts, nts) := finish_split ts nts splitTime in
              Ok (ts, Some nts)
          else Ok (ts, None)
    end.
End rated.

Definition GetTimeStartForIncrement (ts : TimeSpan) (index : Z) : Time :=
  foldl (λ start '(incIndex, inc),
    if Z.of_nat incIndex <? index then Add start (inc_Duration inc) else start)
    (ts_TimeStart ts)
    (zip (seq 0 (length (ts_increments ts))) (ts_increments ts)).

Definition SplitByIncrement (ts : TimeSpan) (index : Z) : TimeSpan * option TimeSpan :=
  if (index <=? 0) || (Z.of_nat (length (ts_increments ts)) <=? index) then (ts, None)
  else
    let timeStart := GetTimeStartForIncrement ts index in
    let newTs := ts_set_interval (new_span timeStart (ts_TimeEnd ts)) (ts_RateInterval ts) in
    let newTs := copyRatingInfo newTs ts in
    let newTs := ts_set_Increments newTs (Some (drop (Z.to_nat index) (ts_increments ts))) in
    let ts := ts_set_Increments ts (Some (take (Z.to_nat index) (ts_increments ts))) in
    let '(ts, newTs) := finish_split ts newTs timeStart in
    (ts, Some newTs).

(** The increments of the two parts when the receiver is cut after [duration]; the
    increment the cut falls in is kept on both sides, with its whole cost. *)
Fixpoint split_increments (incs : Increments) (duration : Z)
    : Increments * option Increments :=
  match incs with
  | [] => ([], None)
  | incr :: incs' =>
      if 0 <=? sub64 duration (inc_Duration incr) then
        let '(own, rest) := split_increments incs' (sub64 duration (inc_Duration incr)) in
        (incr :: own, rest)
      else
        let c := Increment_Clone incr in
        let splitIncrement := mkIncrement (sub64 (inc_Duration c) duration) (inc_Cost c)
          (inc_BalanceInfo c) (inc_CompressFactor c) (inc_paid c) in
        ([mkIncrement duration (inc_Cost incr) (inc_BalanceInfo incr)
            (inc_CompressFactor incr) (inc_paid incr)],
         Some (splitIncrement :: incs'))
  end.

Definition SplitByDuration (ts : TimeSpan) (duration : Z) : TimeSpan * option TimeSpan :=
  if (duration <=? 0) || (TimeSpan_GetDuration ts <=? duration) then (ts, None)
  else
    let timeStart := Add (ts_TimeStart ts) duration in
    let newTs := ts_set_interval (new_span timeStart (ts_TimeEnd ts)) (ts_RateInterval ts) in
    let newTs := copyRatingInfo newTs ts in
    let '(own, rest) := split_increments (ts_increments ts) duration in
    let newTs := ts_set_Increments newTs rest in
    let ts := match ts_Increments ts with
              | Some _ => ts_set_Increments ts (Some own) | None => ts end in
    let '(ts, newTs) := finish_split ts newTs timeStart in
    (ts, Some newTs).

(** The rating information of the activated plan is not attached to the new span. *)
Definition SplitByRatingPlan (ts : TimeSpan) (rp : RatingInfo) : TimeSpan * option TimeSpan :=
  let activationTime := In_loc (rinf_ActivationTime rp) (t_loc (ts_TimeStart ts)) in
  if negb (TimeSpan_Contains ts activationTime) then (ts, None)
  else
    let newTs := copyRatingInfo (new_span activationTime (ts_TimeEnd ts)) ts in
    let '(ts, newTs) := finish_split ts newTs activationTime in
    (ts, Some newTs).

Definition SplitByDay (ts : TimeSpan) : TimeSpan * option TimeSpan :=
  if (Day (ts_TimeStart ts) =? Day (ts_TimeEnd ts)) || TimeIs0h (ts_TimeEnd ts)
  then (ts, None)
  else
    let splitDate := AddDate (ts_TimeStart ts) 0 0 1 in
    let splitDate := Date (Year splitDate) (Month splitDate) (Day splitDate) 0 0 0 0
                       (t_loc splitDate) in
    let newTs := copyRatingInfo (new_span splitDate (ts_TimeEnd ts)) ts in
    let '(ts, newTs) := finish_split ts newTs splitDate in
    (ts, Some newTs).

Definition RoundToDuration (ts : TimeSpan) (duration : Z) : TimeSpan :=
  let duration :=
    if duration <? TimeSpan_GetDuration ts
    then RoundDuration duration (TimeSpan_GetDuration ts) else duration in
  if TimeSpan_GetDuration ts <? duration then
    let initialDuration := TimeSpan_GetDuration ts in
    let ts := ts_set_TimeEnd ts (Add (ts_TimeStart ts) duration) in
    ts_set_DurationIndex ts
      (add64 (ts_DurationIndex ts) (sub64 duration initialDuration))
  else ts.

(** The sum of the end and the duration is computed and dropped. *)
Definition AddIncrement (ts : TimeSpan) (inc : Increment) : TimeSpan :=
  ts_set_Increments ts (Some (ts_increments ts ++ [inc])).

(** ** Comparing and merging *)

Definition TimeSpan_Equal (ts other : TimeSpan) : res bool :=
  incs ← Increments_Equal (ts_increments ts) (ts_increments other);
  if negb incs then Ok false
  else
    ri ← RateInterval_Equal (ts_RateInterval ts) (ts_RateInterval other);
    if negb ri then Ok false
    else if negb (feqb (GetUnitCost ts) (GetUnitCost other)) then Ok false
    else
      d ← GetUnitDuration ts; d' ← GetUnitDuration other;
      Ok ((d =? d') && bool_decide (ts_MatchedSubject ts = ts_MatchedSubject other) &&
          bool_decide (ts_MatchedPrefix ts = ts_MatchedPrefix other) &&
          bool_decide (ts_MatchedDestId ts = ts_MatchedDestId other) &&
          bool_decide (ts_RatingPlanId ts = ts_RatingPlanId other)).

Definition TimeSpan_SharingSignature (ts other : TimeSpan) : res bool :=
  if negb ((TimeSpan_GetCompressFactor ts).1 =? (TimeSpan_GetCompressFactor other).1)
  then Ok false
  else
    incs ← Increments_SharingSignature (ts_increments ts) (ts_increments other);
    if negb incs then Ok false
    else
      ri ← RateInterval_Equal (ts_RateInterval ts) (ts_RateInterval other);
      Ok (ri && bool_decide (ts_MatchedSubject ts = ts_MatchedSubject other) &&
          bool_decide (ts_MatchedPrefix ts = ts_MatchedPrefix other) &&
          bool_decide (ts_MatchedDestId ts = ts_MatchedDestId other) &&
          bool_decide (ts_RatingPlanId ts = ts_RatingPlanId other)).

(** Did it merge, and the receiver afterwards. *)
Definition TimeSpan_Merge (ts other : TimeSpan) : res (bool * TimeSpan) :=
  s ← TimeSpan_SharingSignature ts other;
  if negb s then Ok (false, ts)
  else if negb (TimeEqual (ts_TimeEnd ts) (ts_TimeStart other)) then Ok (false, ts)
  else
    let m := ts_set_TimeEnd ts (ts_TimeEnd other) in
    let m := ts_set_Cost m (fadd (ts_Cost ts) (ts_Cost other)) in
    let m := ts_set_DurationIndex m (ts_DurationIndex other) in
    Ok (true, ts_set_Increments m
                (match ts_Increments ts, ts_increments other with
                 | None, [] => None
                 | _, o => Some (ts_increments ts ++ o) end)).

Definition TimeSpans := list TimeSpan.

Fixpoint tss_compress_loop (tss cTss : TimeSpans) : res TimeSpans :=
  match tss with
  | [] => Ok cTss
  | ts :: tss' =>
      match last cTss with
      | None => tss_compress_loop tss' (cTss ++ [(TimeSpan_GetCompressFactor ts).2])
      | Some cTs =>
          e ← TimeSpan_Equal cTs ts;
          if negb e then tss_compress_loop tss' (cTss ++ [(TimeSpan_GetCompressFactor ts).2])
          else
            let c := ts_set_CompressFactor cTs (add64 (ts_CompressFactor cTs) 1) in
            let c := ts_set_Cost c (fadd (ts_Cost cTs) (ts_Cost ts)) in
            let c := ts_set_TimeEnd c (ts_TimeEnd ts) in
            let c := ts_set_DurationIndex c (ts_DurationIndex ts) in
            tss_compress_loop tss' (removelast cTss ++ [c])
      end
  end.

(** A nil slice stays nil. *)
Definition ts_map_increments (f : Increments → res Increments) (ts : TimeSpan)
    : res TimeSpan :=
  l ← f (ts_increments ts);
  Ok (ts_set_Increments ts (match l with [] => None | _ => Some l end)).

Definition TimeSpans_Compress (tss : TimeSpans) : res TimeSpans :=
  tss ← res_map (ts_map_increments Increments_Compress) tss;
  tss_compress_loop tss [].

(** The loop over one compressed span: [i] counts the copies that remain. *)
Fixpoint decompress_span (i : nat) (cf duration : Z) (cTs : TimeSpan) (cTss : TimeSpans)
    : TimeSpans * TimeSpan :=
  match i with
  | O | S O => (cTss, cTs)
  | S i' =>
      let uTs := ts_set_TimeEnd cTs (Add (ts_TimeStart cTs) duration) in
      let uTs := ts_set_DurationIndex uTs
                   (sub64 (ts_DurationIndex cTs) (mul64 (Z.of_nat i') duration)) in
      let uTs := ts_set_CompressFactor uTs 1 in
      let uTs := ts_set_Cost uTs (fdiv (ts_Cost cTs) (f_of_Z cf)) in
      let cTs := ts_set_times cTs (ts_TimeEnd uTs) (ts_TimeEnd cTs) in
      decompress_span i' cf duration cTs (cTss ++ [uTs])
  end.

Definition TimeSpans_Decompress (tss : TimeSpans) : res TimeSpans :=
  tss ← res_map (ts_map_increments (λ l, Ok (Increments_Decompress l))) tss;
  foldl (λ acc cTs,
    cTss ← acc;
    let '(cf, cTs) := TimeSpan_GetCompressFactor cTs in
    duration ← (if 1 <? cf then GetUnitDuration cTs else Ok 0);
    let '(cTss, cTs) := decompress_span (Z.to_nat cf) cf duration cTs cTss in
    let cTs := ts_set_Cost cTs (GetUnitCost cTs) in
    Ok (cTss ++ [ts_set_CompressFactor cTs 1])) (Ok []) tss.

(** One pass: merge each span into its predecessor when possible. *)
Fixpoint merge_pass (prev : TimeSpan) (rest : TimeSpans) : res TimeSpans :=
  match rest with
  | [] => Ok [prev]
  | ts :: rest' =>
      '(merged, prev') ← TimeSpan_Merge prev ts;
      if (merged : bool) then merge_pass prev' rest'
      else tl ← merge_pass ts rest'; Ok (prev :: tl)
  end.

(** The halves are merged first; the fuel bounds the halvings. *)
Fixpoint tss_merge (fuel : nat) (tss : TimeSpans) : res TimeSpans :=
  let pass l := match l with [] => Ok [] | ts :: rest => merge_pass ts rest end in
  match fuel with
  | O => pass tss
  | S fuel' =>
      if (2 <? length tss)%nat then
        let middle := Nat.div2 (length tss) in
        tss1 ← tss_merge fuel' (take middle tss);
        tss2 ← tss_merge fuel' (drop middle tss);
        pass (tss1 ++ tss2)
      else pass tss
  end.
Definition TimeSpans_Merge (tss : TimeSpans) : res TimeSpans := tss_merge (length tss) tss.

(** The loop that looks for the end of the overlap, from position [i]: how many
    spans are covered and the list with the first span beyond trimmed. *)
Fixpoint overlap_loop (e : Time) (i : nat) (rest : TimeSpans) (endOverlap : nat)
    : nat * TimeSpans :=
  match rest with
  | [] => (endOverlap, [])
  | x :: rest' =>
      if Before (ts_TimeEnd x) e || TimeEqual (ts_TimeEnd x) e then
        let '(k, r) := overlap_loop e (S i) rest' i in (k, x :: r)
      else if Before (ts_TimeStart x) e then
        (endOverlap, ts_set_times x e (ts_TimeEnd x) :: rest')
      else
        let '(k, r) := overlap_loop e (S i) rest' endOverlap in (k, x :: r)
  end.

Definition RemoveOverlapedFromIndex (tsList : TimeSpans) (index : nat) : res TimeSpans :=
  ts ← deref (tsList !! index);
  let '(endOverlapIndex, rest) :=
    overlap_loop (ts_TimeEnd ts) (S index) (drop (S index) tsList) index in
  Ok (take (S index) tsList ++ drop (endOverlapIndex - index) rest).


(** The loop of [OverlapWithTimeSpans] over the remaining spans: what is paid, the
    last position that is replaced and the rest of a span paid in part. *)
Fixpoint paid_loop (overlapStartIndex i : nat) (remainingTs : TimeSpans)
    (paidDuration : Z) (overlapEndIndex : nat) : nat * option TimeSpan * TimeSpans :=
  match remainingTs with
  | [] => (overlapEndIndex, None, [])
  | rts :: rest =>
      if TimeSpan_GetDuration rts <=? paidDuration then
        let '(e, fragment, seen) :=
          paid_loop overlapStartIndex (S i) rest
            (sub64 paidDuration (TimeSpan_GetDuration rts)) (overlapStartIndex + i) in
        (e, fragment, rts :: seen)
      else if 0 <? paidDuration then
        let '(rts, fragment) := SplitByDuration rts paidDuration in
        ((overlapStartIndex + i)%nat, fragment, rts :: rest)
      else ((overlapStartIndex + i)%nat, None, rts :: rest)
  end.

(** Returns the answer, the spans and [newTs], which may have been split.  A start
    beyond the end of the list panics. *)
Definition OverlapWithTimeSpans (tsList paidTs : TimeSpans) (newTs : option TimeSpan)
    (index : nat) : res (bool * TimeSpans * option TimeSpan) :=
  let paidDuration := foldl (λ d pts, add64 d (TimeSpan_GetDuration pts)) 0 paidTs in
  if 0 <? paidDuration then
    let overlapStartIndex := match newTs with Some _ => S index | None => index end in
    if (length tsList <? overlapStartIndex)%nat then Panic
    else
      let remainingTs := option_list newTs ++ drop overlapStartIndex tsList in
      let '(overlapEndIndex, fragment, seen) :=
        paid_loop overlapStartIndex 0 remainingTs paidDuration 0 in
      let paidTs := paidTs ++ option_list fragment in
      let newTs := match newTs with Some _ => head seen | None => None end in
      let tsList :=
        if (S overlapEndIndex =? length tsList)%nat then take overlapStartIndex tsList
        else if (S overlapEndIndex <? length tsList)%nat
        then take overlapStartIndex tsList ++ drop (S overlapEndIndex) tsList
        else tsList in
      Ok (true, take overlapStartIndex tsList ++ paidTs ++ drop overlapStartIndex tsList,
          newTs)
  else Ok (false, tsList, newTs).

(** * Lemmas *)

#[local] Arguments SetRateInterval : simpl never.
#[local] Arguments finish_split : simpl never.

(** ** Splits *)

(** [ts1] and [ts2] are the two sides of [ts] at an instant strictly inside it: they
    meet there, cover it, and number their seconds as the whole does. *)
Record splits (ts ts1 ts2 : TimeSpan) : Prop := {
  sp_start : ts_TimeStart ts1 = ts_TimeStart ts;
  sp_meet : ts_TimeEnd ts1 = ts_TimeStart ts2;
  sp_end : ts_TimeEnd ts2 = ts_TimeEnd ts;
  sp_inside : t_ns (ts_TimeStart ts) < t_ns (ts_TimeEnd ts1) < t_ns (ts_TimeEnd ts);
  sp_loc : t_loc (ts_TimeEnd ts1) = t_loc (ts_TimeStart ts);
  sp_duration : TimeSpan_GetDuration ts1 + TimeSpan_GetDuration ts2 = TimeSpan_GetDuration ts;
  sp_group_end : GetGroupEnd ts2 = GetGroupEnd ts;
  sp_group_start : GetGroupStart ts1 = GetGroupStart ts;
  sp_groups_meet : GetGroupEnd ts1 = GetGroupStart ts2
}.

(** A span whose instants are in the range of a duration and whose index counts at
    least its own seconds. *)
Record span_ok (ts : TimeSpan) : Prop := {
  so_order : t_ns (ts_TimeStart ts) ≤ t_ns (ts_TimeEnd ts);
  so_range : t_ns (ts_TimeEnd ts) - t_ns (ts_TimeStart ts) ≤ ts_DurationIndex ts ≤ max_int64
}.

Lemma span_duration ts : span_ok ts →
  TimeSpan_GetDuration ts = t_ns (ts_TimeEnd ts) - t_ns (ts_TimeStart ts).
Proof.
  intros [Ho Hr]. apply Sub_exact. unfold int64_range, min_int64, max_int64 in *. lia.
Qed.

Lemma span_group_start ts : span_ok ts →
  GetGroupStart ts =
  ts_DurationIndex ts - (t_ns (ts_TimeEnd ts) - t_ns (ts_TimeStart ts)).
Proof.
  intros Hok. unfold GetGroupStart. rewrite span_duration by done. destruct Hok as [Ho Hr].
  rewrite sub64_id by (unfold int64_range, min_int64, max_int64 in *; lia).
  destruct (Z.ltb_spec (ts_DurationIndex ts
    - (t_ns (ts_TimeEnd ts) - t_ns (ts_TimeStart ts))) 0); lia.
Qed.

Lemma copyRatingInfo_times nts ts :
  ts_TimeStart (copyRatingInfo nts ts) = ts_TimeStart nts ∧
  ts_TimeEnd (copyRatingInfo nts ts) = ts_TimeEnd nts ∧
  ts_DurationIndex (copyRatingInfo nts ts) = ts_DurationIndex nts ∧
  ts_Increments (copyRatingInfo nts ts) = ts_Increments nts ∧
  ts_ratingInfo (copyRatingInfo nts ts) =
    match ts_ratingInfo ts with Some r => Some r | None => ts_ratingInfo nts end.
Proof. unfold copyRatingInfo. by destruct (ts_ratingInfo ts). Qed.

Lemma copyRatingInfo_start nts ts :
  ts_TimeStart (copyRatingInfo nts ts) = ts_TimeStart nts.
Proof. apply copyRatingInfo_times. Qed.
Lemma copyRatingInfo_end nts ts : ts_TimeEnd (copyRatingInfo nts ts) = ts_TimeEnd nts.
Proof. apply copyRatingInfo_times. Qed.

Lemma copyRatingInfo_interval nts ts :
  ts_RateInterval (copyRatingInfo nts ts) = ts_RateInterval nts.
Proof. unfold copyRatingInfo. by destruct (ts_ratingInfo ts). Qed.

(** The common end of the splits establishes the relation, and both sides are again
    well-formed spans. *)
Lemma finish_split_splits ts ts0 nts split :
  span_ok ts →
  ts_TimeStart ts0 = ts_TimeStart ts → ts_DurationIndex ts0 = ts_DurationIndex ts →
  ts_TimeStart nts = split → ts_TimeEnd nts = ts_TimeEnd ts →
  t_loc split = t_loc (ts_TimeStart ts) →
  t_ns (ts_TimeStart ts) < t_ns split < t_ns (ts_TimeEnd ts) →
  let '(ts1, ts2) := finish_split ts0 nts split in
  splits ts ts1 ts2 ∧ span_ok ts1 ∧ span_ok ts2.
Proof.
  intros Hok Hs0 Hd0 Hs He Hloc Hin. pose proof Hok as [Ho Hr].
  destruct (finish_split ts0 nts split) as [ts1 ts2] eqn:E.
  unfold finish_split, SetNewDurationIndex in E. injection E as E1 E2.
  assert (span_ok ts2) as Hok2.
  { subst ts2. split; simpl; rewrite ?Hs, ?He, ?Hd0; unfold max_int64 in *; lia. }
  assert (TimeSpan_GetDuration ts2 = t_ns (ts_TimeEnd ts) - t_ns split) as Hdur2.
  { rewrite (span_duration _ Hok2), <- E2. simpl. by rewrite Hs, He. }
  rewrite E2, Hdur2 in E1.
  assert (ts_DurationIndex ts1 =
          ts_DurationIndex ts - (t_ns (ts_TimeEnd ts) - t_ns split)) as Hd1.
  { rewrite <- E1. simpl. rewrite Hd0.
    rewrite sub64_id by (unfold int64_range, min_int64, max_int64 in *; lia).
    destruct (Z.ltb_spec (ts_DurationIndex ts - (t_ns (ts_TimeEnd ts) - t_ns split)) 0); lia. }
  assert (ts_TimeStart ts1 = ts_TimeStart ts ∧ ts_TimeEnd ts1 = split) as [Hs1 He1].
  { rewrite <- E1. done. }
  assert (span_ok ts1) as Hok1 by (split; rewrite ?Hs1, ?He1, ?Hd1; lia).
  assert (ts_TimeStart ts2 = split ∧ ts_TimeEnd ts2 = ts_TimeEnd ts ∧
          ts_DurationIndex ts2 = ts_DurationIndex ts) as (Hs2 & He2 & Hd2).
  { rewrite <- E2. by rewrite <- Hd0. }
  split; [|done]. split; [congruence..| | | | | |].
  - by rewrite He1.
  - by rewrite He1.
  - rewrite !span_duration by done. rewrite Hs1, He1, Hs2, He2. lia.
  - exact Hd2.
  - rewrite !span_group_start by done. rewrite Hs1, He1, Hd1. lia.
  - rewrite !span_group_start by done. unfold GetGroupEnd.
    rewrite Hs2, He2, Hd2, Hd1. lia.
Qed.

(** The timing of an interval has clocks that parse. *)
Definition timed (i : RateInterval) : Prop :=
  ∃ rit cs ce, ri_Timing i = Some rit ∧ start_clock rit = Ok cs ∧ end_clock rit = Ok ce ∧
    0 ≤ clock_secs cs.

Lemma timed_left_margin i rit t : timed i → ri_Timing i = Some rit →
  ∃ m, getLeftMargin rit t = Ok m.
Proof.
  intros (rit' & cs & ce & -> & Hs & _) [= ->]. unfold getLeftMargin.
  unfold start_clock in Hs. rewrite Hs. destruct cs as [[h mi] s]. simpl. eauto.
Qed.

(** The interval of a span, if it has one, carries clock times. *)
Definition own_timed (ts : TimeSpan) : Prop :=
  ∀ own, ts_RateInterval ts = Some own → timed own.

Lemma GetRateParameters_timing `{GoRuntime} i s :
  ri_Timing (GetRateParameters i s).2 = ri_Timing i.
Proof.
  unfold GetRateParameters. destruct (ri_Rating i); [|done].
  destruct (rate_loop _ _ _) as [[p|] l]; done.
Qed.

Lemma timed_timing i j : ri_Timing j = ri_Timing i → timed i → timed j.
Proof. unfold timed. by intros ->. Qed.

(** Choosing between two intervals never panics when both have clocks, and changes
    nothing but the interval, which still has one. *)
Lemma SetRateInterval_ok `{GoRuntime} ts i :
  timed i → own_timed ts →
  ∃ oi, SetRateInterval ts (Some i) = Ok (ts_set_interval ts oi) ∧
    own_timed (ts_set_interval ts oi).
Proof.
  intros Hi Hown. unfold SetRateInterval, hasBetterRateIntervalThan.
  assert (own_timed (ts_set_interval ts (Some i))) as Hset by (by intros ? [= <-]).
  assert (∃ oi, Ok ts = Ok (ts_set_interval ts oi) ∧ own_timed (ts_set_interval ts oi)) as Hsame
    by (exists (ts_RateInterval ts); by destruct ts).
  destruct (ri_Timing i) as [rit|] eqn:Et; [|by eexists].
  destruct (timed_left_margin i rit (ts_TimeStart ts) Hi Et) as [m ->]. simpl.
  destruct (_ <? 0); [exact Hsame|].
  destruct (ts_RateInterval ts) as [own|] eqn:Eo; [|by eexists].
  destruct (fltb _ _); [by eexists|].
  destruct (Hown own Eo) as (rit' & Hrit). destruct Hrit as (_ & _ & Et' & _). rewrite Et'. simpl.
  destruct (timed_left_margin own rit' (ts_TimeStart ts) (Hown own Eo) Et') as [m' ->].
  simpl. destruct (_ <? _); [by eexists|].
  pose proof (GetRateParameters_timing own (GetGroupStart ts)) as Etm.
  destruct (GetRateParameters own _) as [[[? ?] ?] own'].
  destruct (GetRateParameters i _) as [[[? ?] ?] ?].
  assert (own_timed (ts_set_interval ts (Some own'))) as Hown'
    by (intros ? [= <-]; by apply (timed_timing own), Hown).
  destruct (fltb _ _); by eexists.
Qed.

Lemma span_ok_interval ts oi : span_ok ts → span_ok (ts_set_interval ts oi).
Proof. intros [? ?]. by split. Qed.

(** *** The clock of a span within one day *)

(** A span of at least a second that lies between two midnights. *)
Record one_day (ts : TimeSpan) : Prop := {
  od_fixed : fixed (t_loc (ts_TimeStart ts));
  od_loc : t_loc (ts_TimeEnd ts) = t_loc (ts_TimeStart ts);
  od_second : t_ns (ts_TimeStart ts) + Second ≤ t_ns (ts_TimeEnd ts);
  od_day : t_ns (ts_TimeEnd ts)
    ≤ ((day_number (ts_TimeStart ts) + 1) * 86400 - loc_first (t_loc (ts_TimeStart ts))) * Second
}.

(** The instant [Contains] looks at for the end of a span. *)
Definition end_instant (t : Time) : Time := if TimeIs0h t then Add t (-1 * Second) else t.

Lemma TimeIs0h_spec t : TimeIs0h t = true ↔ sec_of_day t = 0.
Proof.
  unfold TimeIs0h. pose proof (clock_sec t). pose proof (sec_of_day_range t).
  unfold THour, TMinute, TSecond in *. split; intros; lia.
Qed.

Lemma Add_local t d : fixed (t_loc t) →
  local_sec (Add t d) = (t_ns t + d) / Second + loc_first (t_loc t).
Proof. intros Hf. by rewrite fixed_local_sec. Qed.

(** It is on the day the span starts, not before the start. *)
Lemma end_instant_day ts : one_day ts →
  let e := end_instant (ts_TimeEnd ts) in
  t_loc e = t_loc (ts_TimeStart ts) ∧
  day_number e = day_number (ts_TimeStart ts) ∧
  t_ns (ts_TimeStart ts) ≤ t_ns e ≤ t_ns (ts_TimeEnd ts).
Proof.
  intros [Hf Hl Hs Hd]. simpl. set (s := ts_TimeStart ts) in *. set (e := ts_TimeEnd ts) in *.
  assert (fixed (t_loc e)) as Hfe by (by rewrite Hl).
  assert (day_number s = (t_ns s / Second + loc_first (t_loc s)) / 86400) as Es
    by (unfold day_number; by rewrite fixed_local_sec).
  assert (day_number e = (t_ns e / Second + loc_first (t_loc s)) / 86400) as Ee
    by (unfold day_number; by rewrite fixed_local_sec, Hl).
  pose proof (TimeIs0h_spec e) as H0. unfold sec_of_day in H0.
  rewrite (fixed_local_sec e Hfe), Hl in H0.
  pose proof (Z.div_mod (t_ns s) Second ltac:(done)) as Ds.
  pose proof (Z.div_mod (t_ns e) Second ltac:(done)) as De.
  pose proof (Z.mod_pos_bound (t_ns s) Second ltac:(done)) as Ms.
  pose proof (Z.mod_pos_bound (t_ns e) Second ltac:(done)) as Me.
  unfold end_instant. destruct (TimeIs0h e).
  - destruct H0 as [H0 _]. specialize (H0 eq_refl).
    split; [done|]. unfold day_number at 1. rewrite (Add_local e _ Hfe), Hl.
    unfold Add. simpl t_ns. rewrite (Z.div_add (t_ns e) (-1) Second) by done.
    revert Es Hd Hs H0 Ds De Ms Me. clear. generalize (day_number s) (t_loc s).
    generalize (t_ns e / Second) (t_ns e mod Second) (t_ns s / Second) (t_ns s mod Second).
    unfold Second. intros. lia.
  - split; [done|]. split; [|unfold Second in *; lia].
    assert ((t_ns e / Second + loc_first (t_loc s)) mod 86400 ≠ 0) as H1
      by (intros Hz; apply H0 in Hz; discriminate).
    rewrite Ee. revert Es Hd Hs H1 Ds De Ms Me. clear. generalize (day_number s) (t_loc s).
    generalize (t_ns e / Second) (t_ns e mod Second) (t_ns s / Second) (t_ns s mod Second).
    unfold Second. intros. lia.
Qed.

(** Midnight of the day of an instant. *)
Definition midnight_ns (t : Time) : Z :=
  (day_number t * 86400 - loc_first (t_loc t)) * Second.

(** Being active is being on a matching date between two instants of that day. *)
Lemma IsActiveAt_instant rit t cs ce :
  fixed (t_loc t) → start_clock rit = Ok cs → end_clock rit = Ok ce →
  ∃ b, IsActiveAt rit t = Ok b ∧
    (b = true ↔ date_matches rit t ∧
      midnight_ns t + clock_secs cs * Second ≤ t_ns t ≤ midnight_ns t + clock_secs ce * Second).
Proof.
  intros Hf Hs He. destruct (IsActiveAt_ok rit t cs ce Hf Hs He) as (b & -> & Hb).
  exists b. split; [done|]. rewrite Hb. pose proof (fixed_t_ns t Hf) as Et.
  pose proof (TNanosecond_range t). unfold midnight_ns. rewrite Et. unfold Second in *.
  split; intros (? & ? & ?); (split; [done|lia]).
Qed.

Lemma date_matches_day rit t u :
  day_number t = day_number u → date_matches rit t ↔ date_matches rit u.
Proof.
  intros E. unfold date_matches, Year, Month, Day, Weekday, Date_of. by rewrite E.
Qed.

(** The clock of an instant given by its day and second. *)
Lemma clock_of_instant t d c :
  fixed (t_loc t) → 0 ≤ c < 86400 →
  t_ns t = (d * 86400 + c - loc_first (t_loc t)) * Second →
  sec_of_day t = c ∧ TNanosecond t = 0.
Proof.
  intros Hf Hc Et. unfold sec_of_day, TNanosecond. rewrite fixed_local_sec by done.
  rewrite Et, Z.div_mul, Z.mod_mul by done. split; [|done].
  replace (d * 86400 + c - loc_first (t_loc t) + loc_first (t_loc t)) with (c + d * 86400) by lia.
  rewrite Z.mod_add by lia. by apply Z.mod_small.
Qed.

Lemma CopyHour_instant src dest d c :
  fixed (t_loc dest) → t_loc src = t_loc dest → 0 ≤ c < 86400 →
  t_ns src = (d * 86400 + c - loc_first (t_loc dest)) * Second →
  t_loc (CopyHour src dest) = t_loc dest ∧
  t_ns (CopyHour src dest) =
    if c =? 0 then t_ns src else midnight_ns dest + c * Second.
Proof.
  intros Hf Hl Hc Et. rewrite <- Hl in Et.
  destruct (clock_of_instant src d c) as [Esec Ens]; [by rewrite Hl|done..|].
  unfold CopyHour. change ((THour src =? 0) && (TMinute src =? 0) && (TSecond src =? 0))
    with (TimeIs0h src).
  destruct (TimeIs0h src) eqn:E0.
  - apply TimeIs0h_spec in E0. rewrite (proj2 (Z.eqb_eq c 0)) by lia. done.
  - destruct (Z.eqb_spec c 0) as [Hz|Hz].
    { rewrite (proj2 (TimeIs0h_spec src)) in E0 by lia. done. }
    rewrite Date_loc. split; [done|]. rewrite Hl, Ens.
    rewrite fixed_Date_same_day by done. pose proof (clock_sec src). unfold midnight_ns.
    unfold Second in *. lia.
Qed.

Section split_by_interval.
Context `{GoRuntime} (ts : TimeSpan) (i : RateInterval) (rit : RITiming) (cs ce : Z * Z * Z).
Context (Hok : span_ok ts) (Hday : one_day ts) (Hown : own_timed ts).
Context (Ht : ri_Timing i = Some rit) (Hcs : start_clock rit = Ok cs)
  (Hce : end_clock rit = Ok ce) (Hpos : 0 ≤ clock_secs cs).
Let s := ts_TimeStart ts.
Let e := end_instant (ts_TimeEnd ts).
Let M := midnight_ns s.

Lemma interval_timed : timed i.
Proof using Ht Hcs Hce Hpos. exists rit, cs, ce. done. Qed.

(** The two membership tests of the split, as inequalities on the same day. *)
Lemma split_tests :
  ∃ bs be, RateInterval_Contains i (ts_TimeStart ts) false = Ok bs ∧
    RateInterval_Contains i (ts_TimeEnd ts) true = Ok be ∧
    (bs = true → M + clock_secs cs * Second ≤ t_ns s ≤ M + clock_secs ce * Second) ∧
    (be = true → M + clock_secs cs * Second ≤ t_ns e ≤ M + clock_secs ce * Second) ∧
    (bs = true → be = false → M + clock_secs ce * Second < t_ns e) ∧
    (be = true → bs = false → t_ns s < M + clock_secs cs * Second).
Proof using Hday Ht Hcs Hce.
  destruct (end_instant_day ts Hday) as (El & Ed & Er). fold e s in El, Ed, Er.
  destruct (IsActiveAt_instant rit s cs ce) as (bs & Es & Hbs);
    [apply (od_fixed ts Hday)|done..|].
  destruct (IsActiveAt_instant rit e cs ce) as (be & Ee & Hbe);
    [rewrite El; apply (od_fixed ts Hday)|done..|].
  assert (midnight_ns e = M) as EM by (unfold M, midnight_ns; by rewrite Ed, El).
  rewrite EM, (date_matches_day rit e s Ed) in Hbe. fold M in Hbs.
  exists bs, be. unfold RateInterval_Contains. rewrite Ht. simpl.
  change (IsActiveAt rit (ts_TimeStart ts)) with (IsActiveAt rit s).
  change (IsActiveAt rit (if TimeIs0h (ts_TimeEnd ts)
            then Add (ts_TimeEnd ts) (-1 * Second) else ts_TimeEnd ts)) with (IsActiveAt rit e).
  split_and!; [done..|tauto|tauto| |].
  - intros Hb Hf. apply Hbs in Hb as [Hd Hb]. destruct be; [done|].
    destruct (Z.lt_ge_cases (M + clock_secs ce * Second) (t_ns e)); [done|].
    assert (false = true); [|done]. apply Hbe. split; [done|lia].
  - intros Hb Hf. apply Hbe in Hb as [Hd Hb]. destruct bs; [done|].
    destruct (Z.lt_ge_cases (t_ns s) (M + clock_secs cs * Second)); [done|].
    assert (false = true); [|done]. apply Hbs. split; [done|lia].
Qed.

(** Where the left margin of the end, moved to the day of the start, falls. *)
Lemma left_split_instant :
  M + clock_secs cs * Second ≤ t_ns e →
  ∃ lm, getLeftMargin rit (ts_TimeEnd ts) = Ok lm ∧
    t_loc (CopyHour lm s) = t_loc s ∧
    (TimeEqual (CopyHour lm s) (ts_TimeEnd ts) = true ∨
     t_ns (CopyHour lm s) = M + clock_secs cs * Second).
Proof using Hday Hcs Hpos.
  intros Hle. pose proof Hday as [Hf Hl Hs Hd]. fold s in Hf, Hl, Hs, Hd.
  destruct (end_instant_day ts Hday) as (El & Ed & Er). fold e s in El, Ed, Er.
  destruct (left_margin_ns rit (ts_TimeEnd ts) cs) as (lm & -> & Ell & En);
    [by rewrite Hl|done|]. exists lm. split; [done|].
  assert (t_ns e < M + 86400 * Second) as Hup.
  { pose proof (fixed_t_ns e ltac:(by rewrite El)) as Ee. rewrite Ed, El in Ee.
    pose proof (sec_of_day_range e). pose proof (TNanosecond_range e).
    unfold M, midnight_ns. rewrite Ee. unfold Second in *. lia. }
  assert (clock_secs cs < 86400) as Hc by (unfold Second in *; lia).
  rewrite Hl in Ell, En.
  destruct (CopyHour_instant lm s _ (clock_secs cs) Hf Ell ltac:(lia) En) as [Hloc Ec].
  split; [done|].
  fold M in Ec. destruct (Z.eqb_spec (clock_secs cs) 0) as [Hz|Hz]; [|by right].
  unfold TimeEqual. rewrite Ec, En.
  pose proof (fixed_t_ns (ts_TimeEnd ts) ltac:(by rewrite Hl)) as Ete. rewrite Hl in Ete.
  unfold e, end_instant in Ed. destruct (TimeIs0h (ts_TimeEnd ts)) eqn:E0.
  - left. apply TimeIs0h_spec in E0. apply Z.eqb_eq. rewrite Ete, E0, Hz.
    assert (day_number s < day_number (ts_TimeEnd ts)) as Hlt.
    { rewrite <- Ed. unfold day_number. rewrite (Add_local _ _ ltac:(by rewrite Hl)).
      unfold sec_of_day in E0. rewrite fixed_local_sec in * by (by rewrite Hl).
      rewrite (Z.div_add _ (-1) Second) by done. lia. }
    rewrite Ete, E0 in Hd. pose proof (TNanosecond_range (ts_TimeEnd ts)).
    unfold Second in *. lia.
  - right. rewrite Ed. unfold M, midnight_ns. rewrite Hz. lia.
Qed.
End split_by_interval.

Lemma new_span_timed ts s e : own_timed (copyRatingInfo (new_span s e) ts).
Proof. intros own. rewrite copyRatingInfo_interval. discriminate. Qed.

Lemma sort_rating_timing `{GoRuntime} i : ri_Timing (sort_rating i) = ri_Timing i.
Proof. unfold sort_rating. by destruct (ri_Rating i). Qed.

Lemma timed_sort `{GoRuntime} i : timed i → timed (sort_rating i).
Proof. unfold timed. by rewrite sort_rating_timing. Qed.

(** What a split leaves behind: two sides, or the span with its interval set. *)
Definition split_result (ts : TimeSpan) (r : TimeSpan * option TimeSpan) : Prop :=
  match r with
  | (ts1, Some ts2) => splits ts ts1 ts2 ∧ span_ok ts1 ∧ span_ok ts2
  | (ts1, None) => ∃ oi, ts1 = ts_set_interval ts oi
  end.

(** Whole seconds: the instants and the index of a span, the groups of an interval. *)
Definition whole_span (ts : TimeSpan) : Prop :=
  (Second | t_ns (ts_TimeStart ts)) ∧ (Second | t_ns (ts_TimeEnd ts)) ∧
  (Second | ts_DurationIndex ts).
Definition whole_rates (i : RateInterval) : Prop :=
  ∀ r, r ∈ ri_rates i → (Second | rt_GroupIntervalStart r).

(** What the next splits need of both sides. *)
Definition split_kept (ts : TimeSpan) (i : RateInterval) (r : TimeSpan * option TimeSpan)
    : Prop :=
  own_timed r.1 ∧
  match r.2 with
  | Some ts2 => own_timed ts2 ∧
      (whole_span ts → whole_rates i → (Second | t_ns (ts_TimeStart ts2)))
  | None => True
  end.

Lemma group_split_inside ts r : span_ok ts → group_inside ts r = true →
  t_ns (ts_TimeStart ts)
  < t_ns (Add (ts_TimeStart ts) (sub64 (rt_GroupIntervalStart r) (GetGroupStart ts)))
  < t_ns (ts_TimeEnd ts).
Proof.
  intros Hok Hg. apply andb_true_iff in Hg as [H1 H2].
  pose proof (span_group_start ts Hok) as Es. unfold GetGroupEnd in *.
  destruct Hok as [Ho Hr]. simpl.
  rewrite sub64_id by (unfold int64_range, min_int64, max_int64 in *; lia). lia.
Qed.

Lemma split_result_finish ts i ts0 nts split :
  span_ok ts → own_timed ts0 → own_timed nts →
  ts_TimeStart ts0 = ts_TimeStart ts → ts_DurationIndex ts0 = ts_DurationIndex ts →
  ts_TimeStart nts = split → ts_TimeEnd nts = ts_TimeEnd ts →
  t_loc split = t_loc (ts_TimeStart ts) →
  (whole_span ts → whole_rates i → (Second | t_ns split)) →
  t_ns (ts_TimeStart ts) < t_ns split < t_ns (ts_TimeEnd ts) →
  ∃ r, (let '(a, b) := finish_split ts0 nts split in Ok (a, Some b)) = Ok r
       ∧ split_result ts r ∧ split_kept ts i r.
Proof.
  intros Hok Ho1 Ho2 H1 H2 H3 H4 Hl Hw H5.
  pose proof (finish_split_splits ts ts0 nts split Hok H1 H2 H3 H4 Hl H5) as Hs.
  assert (own_timed (finish_split ts0 nts split).1 ∧ own_timed (finish_split ts0 nts split).2 ∧
          ts_TimeStart (finish_split ts0 nts split).2 = split) as (Hk1 & Hk2 & Hk3) by done.
  destruct (finish_split ts0 nts split) as [ts1 ts2]. simpl in *. eexists. split; [done|].
  split; [exact Hs|]. split; [done|]. simpl. by rewrite Hk3.
Qed.

Lemma split_result_same ts i : own_timed ts →
  ∃ r, Ok (ts, None) = Ok r ∧ split_result ts r ∧ split_kept ts i r.
Proof.
  intros Ho. eexists. split; [done|]. split; [|by split].
  exists (ts_RateInterval ts). by destruct ts.
Qed.

Lemma split_result_set `{GoRuntime} ts i j :
  timed i → own_timed ts →
  ∃ r, (ts ← SetRateInterval ts (Some i); Ok (ts, None)) = Ok r ∧ split_result ts r ∧
       split_kept ts j r.
Proof.
  intros Hi Hown. destruct (SetRateInterval_ok ts i Hi Hown) as (oi & -> & Hk).
  eexists. split; [done|]. split; [by exists oi|by split].
Qed.

Lemma Contains_sort_rating `{GoRuntime} i t b :
  RateInterval_Contains (sort_rating i) t b = RateInterval_Contains i t b.
Proof. unfold RateInterval_Contains. by rewrite sort_rating_timing. Qed.

(** A new span has no interval of its own to compare with. *)
Lemma SetRateInterval_new `{GoRuntime} ts i s e : timed i →
  ∃ nts, SetRateInterval (copyRatingInfo (new_span s e) ts) (Some i) = Ok nts ∧
    ts_TimeStart nts = s ∧ ts_TimeEnd nts = e ∧ own_timed nts.
Proof.
  intros Hi. destruct (SetRateInterval_ok (copyRatingInfo (new_span s e) ts) i Hi)
    as (oi & -> & Hk); [apply new_span_timed|].
  eexists. split; [done|]. simpl.
  destruct (copyRatingInfo_times (new_span s e) ts) as (-> & -> & _). done.
Qed.

Lemma sort_rating_rates `{GoRuntime} i : ri_rates (sort_rating i) ≡ₚ ri_rates i.
Proof.
  destruct i as [t [r|] w]; [|done]. unfold ri_rates. simpl.
  destruct (rir_Rates r); [|done]. apply go_sort_perm.
Qed.

(** The cut at a group of rates is on a whole second when everything is. *)
Lemma group_split_whole `{GoRuntime} ts i r :
  span_ok ts → group_inside ts r = true → r ∈ ri_rates (sort_rating i) →
  whole_span ts → whole_rates i →
  (Second | t_ns (Add (ts_TimeStart ts) (sub64 (rt_GroupIntervalStart r) (GetGroupStart ts)))).
Proof.
  intros Hok Hg Hr (Hs & He & Hd) Hw. apply andb_true_iff in Hg as [H1 H2].
  assert ((Second | rt_GroupIntervalStart r)) as Hgr
    by (apply Hw; by rewrite <- sort_rating_rates).
  pose proof (span_group_start ts Hok) as Es. unfold GetGroupEnd in *.
  destruct Hok as [Ho Hr']. simpl.
  rewrite sub64_id by (unfold int64_range, min_int64, max_int64 in *; lia). rewrite Es.
  apply Z.divide_add_r; [done|]. apply Z.divide_sub_r; [done|].
  apply Z.divide_sub_r; [done|]. by apply Z.divide_sub_r.
Qed.

Lemma SplitByRateInterval_ok `{GoRuntime} ts i data :
  span_ok ts → one_day ts → timed i → own_timed ts →
  ∃ r, SplitByRateInterval ts i data = Ok r ∧ split_result ts r ∧ split_kept ts i r.
Proof.
  intros Hok Hday Hi Hown. pose proof (timed_sort i Hi) as Hi'.
  pose proof (split_result_same ts i Hown) as Hnone.
  pose proof (split_result_set ts _ i Hi' Hown) as Hset.
  destruct Hi as (rit & cs & ce & Ht & Hcs & Hce & Hpos).
  destruct (split_tests ts i rit cs ce Hday Ht Hcs Hce)
    as (bs & be & Es & Ee & Hbs & Hbe & Hse & Hes).
  pose proof (end_instant_day ts Hday) as (_ & _ & Her).
  destruct (SetRateInterval_ok ts (sort_rating i) Hi' Hown) as (oi & Eset & Hoi).
  unfold SplitByRateInterval. rewrite !Contains_sort_rating, Es, Ee. simpl.
  assert ((if bs then Ok true else Ok be) = Ok (bs || be)) as -> by (by destruct bs). simpl.
  destruct (negb (bs || be)) eqn:Eany; [exact Hnone|].
  destruct (list_find _ _) as [[n rate]|] eqn:Ef.
  { apply list_find_Some in Ef as (Hr & Hg & _). apply list_elem_of_lookup_2 in Hr.
    rewrite Eset. simpl. pose proof (group_split_inside ts rate Hok Hg) as Hin.
    pose proof (group_split_whole ts i rate Hok Hg Hr) as Hw.
    change (GetGroupStart (ts_set_interval ts oi)) with (GetGroupStart ts).
    edestruct (SetRateInterval_new (ts_set_interval ts oi)) as (nts & -> & Hn1 & Hn2 & Hk);
      [exact Hi'|]. simpl.
    by apply (split_result_finish ts i (ts_set_interval ts oi)). }
  destruct data; [by destruct bs|].
  rewrite sort_rating_timing, Ht. simpl. destruct bs, be; simpl in Eany |- *;
    try discriminate; [exact Hset| |].
  - destruct (right_margin_ns rit (ts_TimeStart ts) ce) as (rm & -> & El & En);
      [apply (od_fixed ts Hday)|done|]. rewrite Eset. simpl.
    specialize (Hbs eq_refl). specialize (Hse eq_refl eq_refl). unfold midnight_ns in *.
    destruct (_ || _) eqn:Ed; [eexists; split; [done|split; [by exists oi|by split]]|].
    apply orb_false_iff in Ed as [Ed _].
    apply (split_result_finish ts i (ts_set_interval ts oi)); try done.
    + intros own. rewrite copyRatingInfo_interval. discriminate.
    + by rewrite copyRatingInfo_start.
    + by rewrite copyRatingInfo_end.
    + intros _ _. rewrite En. apply Z.divide_factor_r.
    + unfold Second in *. lia.
  - destruct (left_split_instant ts rit cs Hday Hcs Hpos) as (lm & -> & Hll & Hlm);
      [by apply Hbe|]. simpl.
    destruct (TimeEqual _ _) eqn:Eq; [exact Hnone|].
    destruct Hlm as [|Hlm]; [congruence|].
    edestruct (SetRateInterval_new ts) as (nts & -> & Hn1 & Hn2 & Hk); [exact Hi'|]. simpl.
    specialize (Hbe eq_refl). specialize (Hes eq_refl eq_refl).
    apply (split_result_finish ts i); try done; [|unfold TimeEqual in Eq; lia].
    intros _ _. rewrite Hlm. unfold midnight_ns.
    apply Z.divide_add_r; apply Z.divide_factor_r.
Qed.

(** C6: splitting a span by an interval never panics when the interval and the one
    the span has carry clock times, and cuts the span, if at all, strictly inside:
    the two sides meet at the cut, cover the span, add up to its duration and
    continue its numbering of seconds, so that the group of rates in force at the
    second part is that of the cut.  When nothing is cut only the interval of the
    span changes.  The span is one of a day, as the splits by day leave them, and
    lasts at least a second. *)
Theorem SplitByRateInterval_partition `{GoRuntime} (ts : TimeSpan) (i : RateInterval)
    (data : bool) (Hok : span_ok ts) (Hday : one_day ts) (Hi : timed i)
    (Hown : ∀ own, ts_RateInterval ts = Some own → timed own) :
  ∃ r, SplitByRateInterval ts i data = Ok r ∧ split_result ts r.
Proof.
  destruct (SplitByRateInterval_ok ts i data Hok Hday Hi Hown) as (r & Hr & Hs & _). eauto.
Qed.

(** The interval and the span of the witness: a day rate from 08:00 on, over a call
    that starts at 07:59:30. *)
Definition day_interval : RateInterval :=
  mkRateInterval (Some (mkRITiming None None None None "08:00:00" "18:00:00" "" ""))
    (Some (mkRIRate f0 "*middle" 4 f0 "" (Some [mkRate 0 f_half Second (60 * Second)] ) "")) f0.
Definition morning_span : TimeSpan :=
  ts_set_DurationIndex
    (new_span (Date 2020 3 2 7 59 30 0 UTC) (Date 2020 3 2 8 1 0 0 UTC)) (90 * Second).

Lemma SplitByRateInterval_partition_witness :
  (∃ r, @SplitByRateInterval reference_runtime morning_span day_interval false = Ok r
        ∧ split_result morning_span r) ∧
  (λ r, match r with Ok (a, Some b) => (TimeSpan_GetDuration a, GetGroupStart b)
        | _ => (0, 0) end)
    (@SplitByRateInterval reference_runtime morning_span day_interval false)
  = (30 * Second, 30 * Second).
Proof.
  split; [|vm_compute; reflexivity].
  apply (@SplitByRateInterval_partition reference_runtime).
  - split; vm_compute; intuition discriminate.
  - split; vm_compute; intuition discriminate.
  - exists (mkRITiming None None None None "08:00:00" "18:00:00" "" ""), (8, 0, 0), (18, 0, 0).
    vm_compute. intuition discriminate.
  - intros own Hn. discriminate Hn.
Defined.

(** *** The other splits *)

(** The day after an instant, at midnight. *)
Lemma next_midnight t :
  fixed (t_loc t) →
  let d := AddDate t 0 0 1 in
  t_ns (Date (Year d) (Month d) (Day d) 0 0 0 0 (t_loc d)) = midnight_ns t + 86400 * Second.
Proof.
  intros Hf d. assert (t_loc d = t_loc t) as El by apply Date_loc.
  rewrite fixed_Date_same_day by (by rewrite El). rewrite El.
  assert (day_number d = day_number t + 1) as ->.
  { pose proof (fixed_t_ns t Hf) as Et. pose proof (clock_sec t) as Hc.
    pose proof (sec_of_day_range t). pose proof (TNanosecond_range t).
    unfold day_number at 1. rewrite fixed_local_sec by (by rewrite El).
    unfold d at 1, AddDate. rewrite fixed_Date by (done || pose proof (Month_range t); lia).
    rewrite El, !Z.add_0_r, days_of_civil_day, Z.add_simpl_r.
    pose proof (days_of_date t) as Ed. rewrite days_of_civil_day in Ed.
    rewrite Z.div_add_l, (Z.div_small (TNanosecond t)) by done. lia. }
  unfold midnight_ns. lia.
Qed.

(** It is inside a span that ends on a later date, not at midnight. *)
Lemma next_midnight_inside s e :
  fixed (t_loc s) → t_loc e = t_loc s → t_ns s ≤ t_ns e → Day s ≠ Day e →
  TimeIs0h e = false →
  t_ns s < midnight_ns s + 86400 * Second < t_ns e.
Proof.
  intros Hf Hl Hle Hd H0. pose proof (fixed_t_ns s Hf) as Es.
  assert (fixed (t_loc e)) as Hfe by (by rewrite Hl).
  pose proof (fixed_t_ns e Hfe) as Ee. rewrite Hl in Ee.
  pose proof (sec_of_day_range s). pose proof (sec_of_day_range e).
  pose proof (TNanosecond_range s). pose proof (TNanosecond_range e).
  assert (day_number s ≠ day_number e) as Hne
    by (intros E; apply Hd; unfold Day, Date_of; by rewrite E).
  assert (sec_of_day e ≠ 0) as Hn0
    by (intros E; apply TimeIs0h_spec in E; congruence).
  unfold midnight_ns. rewrite Es, Ee. rewrite Es, Ee in Hle. unfold Second in *. lia.
Qed.

Lemma SplitByRatingPlan_ok ts rp : span_ok ts →
  match SplitByRatingPlan ts rp with
  | (ts1, Some ts2) => splits ts ts1 ts2 ∧ span_ok ts1 ∧ span_ok ts2 ∧
      t_ns (ts_TimeStart ts2) = t_ns (rinf_ActivationTime rp) ∧
      ts_RateInterval ts1 = ts_RateInterval ts ∧ ts_RateInterval ts2 = None
  | (ts1, None) => ts1 = ts ∧ (t_ns (rinf_ActivationTime rp) ≤ t_ns (ts_TimeStart ts) ∨
                               t_ns (ts_TimeEnd ts) ≤ t_ns (rinf_ActivationTime rp))
  end.
Proof.
  intros Hok. unfold SplitByRatingPlan, TimeSpan_Contains, After, Before.
  destruct (negb _) eqn:E; simpl in E; [split; [done|lia]|].
  set (act := In_loc _ _). set (nts := copyRatingInfo _ _).
  pose proof (finish_split_splits ts ts nts act) as Hs.
  assert (ts_TimeStart (finish_split ts nts act).2 = act ∧
          ts_RateInterval (finish_split ts nts act).1 = ts_RateInterval ts ∧
          ts_RateInterval (finish_split ts nts act).2 = None) as (He & Hr1 & Hr2).
  { unfold finish_split; simpl; unfold nts.
    by rewrite copyRatingInfo_start, copyRatingInfo_interval. }
  destruct (finish_split ts nts act) as [ts1 ts2]. simpl in *.
  destruct Hs as (Hs & Ho1 & Ho2); try done; [by unfold nts; rewrite copyRatingInfo_start
    |by unfold nts; rewrite copyRatingInfo_end|simpl; lia|].
  split_and!; [done..|by rewrite He|done|done].
Qed.

Lemma SplitByDay_ok ts : span_ok ts → fixed (t_loc (ts_TimeStart ts)) →
  t_loc (ts_TimeEnd ts) = t_loc (ts_TimeStart ts) →
  match SplitByDay ts with
  | (ts1, Some ts2) => splits ts ts1 ts2 ∧ span_ok ts1 ∧ span_ok ts2 ∧
      t_ns (ts_TimeStart ts2) = midnight_ns (ts_TimeStart ts) + 86400 * Second ∧
      ts_RateInterval ts1 = ts_RateInterval ts ∧ ts_RateInterval ts2 = None
  | (ts1, None) => ts1 = ts ∧ (Day (ts_TimeStart ts) = Day (ts_TimeEnd ts) ∨
                               sec_of_day (ts_TimeEnd ts) = 0)
  end.
Proof.
  intros Hok Hf Hl. unfold SplitByDay. destruct (_ || _) eqn:E.
  { split; [done|]. rewrite <- TimeIs0h_spec. lia. }
  apply orb_false_iff in E as [Ed E0].
  set (date := Date (Year _) _ _ 0 0 0 0 _). set (nts := copyRatingInfo _ _).
  assert (t_ns date = midnight_ns (ts_TimeStart ts) + 86400 * Second) as Edate
    by exact (next_midnight _ Hf).
  assert (t_ns (ts_TimeStart ts) < t_ns date < t_ns (ts_TimeEnd ts)) as Hin
    by (rewrite Edate; apply next_midnight_inside; [done|done|apply Hok|lia|done]).
  assert (t_loc date = t_loc (ts_TimeStart ts)) as Hld
    by (unfold date, AddDate; by rewrite !Date_loc).
  pose proof (finish_split_splits ts ts nts date) as Hs.
  assert (ts_TimeStart (finish_split ts nts date).2 = date ∧
          ts_RateInterval (finish_split ts nts date).1 = ts_RateInterval ts ∧
          ts_RateInterval (finish_split ts nts date).2 = None) as (He & Hr1 & Hr2).
  { unfold finish_split; simpl; unfold nts.
    by rewrite copyRatingInfo_start, copyRatingInfo_interval. }
  destruct (finish_split ts nts date) as [ts1 ts2]. simpl in *.
  destruct Hs as (Hs & Ho1 & Ho2); try done; [by unfold nts; rewrite copyRatingInfo_start
    |by unfold nts; rewrite copyRatingInfo_end|].
  split_and!; [done..|by rewrite He|done|done].
Qed.

(** Cutting a span at the activation of a rating plan or at a midnight yields two
    sides that meet at the cut and partition the span; the rest of the second span
    starts exactly at the activation, respectively at the first midnight after the
    start of the span.  Without a cut the span is unchanged. *)
Theorem SplitByRatingPlan_SplitByDay_partition (ts : TimeSpan) (rp : RatingInfo)
    (Hok : span_ok ts) (Hf : fixed (t_loc (ts_TimeStart ts)))
    (Hl : t_loc (ts_TimeEnd ts) = t_loc (ts_TimeStart ts)) :
  match SplitByRatingPlan ts rp with
  | (ts1, Some ts2) => splits ts ts1 ts2 ∧ t_ns (ts_TimeStart ts2) = t_ns (rinf_ActivationTime rp)
  | (ts1, None) => ts1 = ts ∧ (t_ns (rinf_ActivationTime rp) ≤ t_ns (ts_TimeStart ts) ∨
                               t_ns (ts_TimeEnd ts) ≤ t_ns (rinf_ActivationTime rp))
  end ∧
  match SplitByDay ts with
  | (ts1, Some ts2) => splits ts ts1 ts2 ∧
      t_ns (ts_TimeStart ts2) = midnight_ns (ts_TimeStart ts) + 86400 * Second
  | (ts1, None) => ts1 = ts ∧ (Day (ts_TimeStart ts) = Day (ts_TimeEnd ts) ∨
                               sec_of_day (ts_TimeEnd ts) = 0)
  end.
Proof.
  pose proof (SplitByRatingPlan_ok ts rp Hok) as Hp. pose proof (SplitByDay_ok ts Hok Hf Hl) as Hd.
  destruct (SplitByRatingPlan ts rp) as [a [b|]], (SplitByDay ts) as [c [d|]]; tauto.
Qed.

Definition leap_span : TimeSpan := ts_set_DurationIndex
  (new_span (Date 2020 2 28 23 0 0 0 UTC) (Date 2020 3 1 1 0 0 0 UTC)) (26 * Hour).
Definition leap_plan : RatingInfo :=
  mkRatingInfo "" "" "" "" (Date 2020 2 29 12 0 0 0 UTC) None [].

Lemma SplitByRatingPlan_SplitByDay_partition_witness :
  (TimeSpan_GetDuration (SplitByDay leap_span).1 = 1 * Hour ∧
   TimeSpan_GetDuration (SplitByRatingPlan leap_span leap_plan).1 = 13 * Hour) ∧
  match SplitByDay leap_span with
  | (ts1, Some ts2) => splits leap_span ts1 ts2 ∧
      t_ns (ts_TimeStart ts2) = midnight_ns (ts_TimeStart leap_span) + 86400 * Second
  | (ts1, None) => ts1 = leap_span ∧
      (Day (ts_TimeStart leap_span) = Day (ts_TimeEnd leap_span) ∨
       sec_of_day (ts_TimeEnd leap_span) = 0)
  end.
Proof.
  split; [split; vm_compute; reflexivity|].
  assert (span_ok leap_span) as Hok by (split; vm_compute; intuition discriminate).
  destruct (SplitByRatingPlan_SplitByDay_partition leap_span leap_plan Hok
    eq_refl eq_refl) as [_ H]. exact H.
Defined.

(** ** Increments *)

(** Decompression is element by element. *)
Definition members (incr : Increment) : Increments :=
  let cf := norm_cf (inc_CompressFactor incr) in
  decompressed incr cf <$> seq 0 (Z.to_nat cf).

Lemma Decompress_members incs : Increments_Decompress incs = incs ≫= members.
Proof.
  unfold Increments_Decompress.
  assert (∀ acc, foldl (λ cIncrs cIncr, cIncrs ++ members cIncr) acc incs
                 = acc ++ (incs ≫= members)) as Hgen.
  { induction incs as [|x incs IH]; intros acc; simpl; [by rewrite app_nil_r|].
    by rewrite IH, <- app_assoc. }
  exact (Hgen []).
Qed.

Lemma Decompress_app a b :
  Increments_Decompress (a ++ b) = Increments_Decompress a ++ Increments_Decompress b.
Proof. rewrite !Decompress_members. apply bind_app. Qed.

Lemma Decompress_single incr : Increments_Decompress [incr] = members incr.
Proof. rewrite Decompress_members. simpl. apply app_nil_r. Qed.

(** What a charge keeps through compression: its duration, its cost up to the sign of
    zero and the account that paid. *)
Definition charge (i : Increment) : Z * float64 * option string :=
  (inc_Duration i, inc_Cost i, di_AccountID <$> inc_BalanceInfo i).
Definition same_charge (a b : Z * float64 * option string) : Prop :=
  a.1.1 = b.1.1 ∧ (a.1.2 = b.1.2 ∨ feqb a.1.2 b.1.2 = true) ∧ a.2 = b.2.

(** All of the increments carry balance information, or none does. *)
Definition uniform (incs : Increments) : Prop :=
  Forall (λ i, inc_BalanceInfo i = None) incs ∨
  Forall (λ i, is_Some (inc_BalanceInfo i)) incs.

Lemma Increment_Equal_charge a b :
  Increment_Equal a b = Ok true → same_charge (charge a) (charge b).
Proof.
  unfold Increment_Equal, same_charge, charge. intros E. simpl.
  destruct (Z.eqb_spec (inc_Duration a) (inc_Duration b)) as [Hd|]; [|done].
  destruct (feqb _ _) eqn:Hc; [|done].
  split_and!; [done|by right|]. simpl in E.
  destruct (inc_BalanceInfo a) as [x|], (inc_BalanceInfo b) as [y|]; try done.
  injection E as E. unfold DebitInfo_Equal in E. apply andb_true_iff in E as [_ E].
  apply bool_decide_eq_true in E. simpl. by rewrite E.
Qed.

Lemma Increment_Equal_total a b :
  (inc_BalanceInfo a = None ↔ inc_BalanceInfo b = None) → ∃ e, Increment_Equal a b = Ok e.
Proof.
  intros Hi. unfold Increment_Equal. repeat (destruct (negb _); [by eexists|]).
  destruct (inc_BalanceInfo a), (inc_BalanceInfo b); try by eexists.
  - discriminate (proj2 Hi eq_refl).
  - discriminate (proj1 Hi eq_refl).
Qed.

(** The members of a compressed increment all have its charge. *)
Lemma members_charge incr : 1 ≤ inc_CompressFactor incr →
  charge <$> members incr = replicate (Z.to_nat (inc_CompressFactor incr)) (charge incr).
Proof.
  intros H. unfold members, norm_cf. rewrite (proj2 (Z.eqb_neq _ _)) by lia.
  symmetry. apply replicate_as_Forall. rewrite !length_fmap, length_seq. split; [done|].
  apply Forall_fmap, Forall_fmap, Forall_true. intros i. simpl.
  unfold charge, decompressed, Increment_Clone, DebitInfo_Clone. simpl.
  by destruct (inc_BalanceInfo incr).
Qed.

(** The increment that replaces the last one when a further member joins it. *)
Definition joined (l incr : Increment) : Increment :=
  mkIncrement (inc_Duration l) (inc_Cost l)
    (merge_values (inc_BalanceInfo l) (inc_BalanceInfo incr))
    (add64 (inc_CompressFactor l) 1) (inc_paid l).

Lemma joined_charge l incr : charge (joined l incr) = charge l.
Proof.
  unfold charge, joined, merge_values. simpl.
  by destruct (inc_BalanceInfo l), (inc_BalanceInfo incr).
Qed.

Lemma joined_nil_info l incr :
  inc_BalanceInfo (joined l incr) = None ↔ inc_BalanceInfo l = None.
Proof.
  simpl. unfold merge_values. by destruct (inc_BalanceInfo l), (inc_BalanceInfo incr).
Qed.

(** The charges a compressed list stands for. *)
Definition charges (incs : Increments) : list (Z * float64 * option string) :=
  charge <$> Increments_Decompress incs.

Lemma charges_app a b : charges (a ++ b) = charges a ++ charges b.
Proof. unfold charges. by rewrite Decompress_app, fmap_app. Qed.

Lemma charges_single incr : 1 ≤ inc_CompressFactor incr →
  charges [incr] = replicate (Z.to_nat (inc_CompressFactor incr)) (charge incr).
Proof. intros. unfold charges. rewrite Decompress_single. by apply members_charge. Qed.

Lemma charges_joined l incr :
  1 ≤ inc_CompressFactor l < max_int64 →
  charges [joined l incr] = charges [l] ++ [charge l].
Proof.
  intros H. assert (inc_CompressFactor (joined l incr) = inc_CompressFactor l + 1) as E.
  { simpl. apply add64_id. unfold int64_range, min_int64, max_int64 in *. lia. }
  rewrite !charges_single by (rewrite ?E; lia). rewrite joined_charge, E, Z2Nat.inj_add by lia.
  by rewrite replicate_add.
Qed.

(** Increments that are not compressed yet. *)
Definition single (incs : Increments) : Prop :=
  Forall (λ i, inc_CompressFactor i = 0 ∨ inc_CompressFactor i = 1) incs.

Definition info_like (nil : bool) (i : Increment) : Prop :=
  inc_BalanceInfo i = None ↔ nil = true.

Lemma charges_first incr :
  inc_CompressFactor incr = 0 ∨ inc_CompressFactor incr = 1 →
  charges [(Increment_GetCompressFactor incr).2] = [charge incr].
Proof.
  intros Hs. rewrite charges_single; simpl; destruct Hs as [-> | ->]; unfold norm_cf; simpl;
    done || lia.
Qed.

Lemma compress_loop_ok nil incs acc :
  Forall (info_like nil) incs → Forall (info_like nil) acc → single incs →
  Forall (λ i, 1 ≤ inc_CompressFactor i ≤ Z.of_nat (length (charges acc))) acc →
  Z.of_nat (length (charges acc) + length incs) ≤ max_int64 →
  ∃ c tl, compress_loop incs acc = Ok c ∧ charges c = charges acc ++ tl ∧
    Forall2 same_charge tl (charge <$> incs) ∧
    Forall (λ i, 1 ≤ inc_CompressFactor i) c.
Proof.
  revert acc. induction incs as [|incr incs IH]; intros acc Hn Ha Hs Hcf Hmax; simpl.
  { exists acc, []. rewrite app_nil_r. split_and!; [done..|constructor|].
    eapply Forall_impl; [exact Hcf|]. simpl. lia. }
  apply Forall_cons in Hn as [Hn1 Hn]. apply Forall_cons in Hs as [Hs1 Hs].
  pose proof (charges_first incr Hs1) as E1.
  assert (∃ c tl, compress_loop incs (acc ++ [(Increment_GetCompressFactor incr).2]) = Ok c ∧
    charges c = charges acc ++ tl ∧ Forall2 same_charge tl (charge <$> incr :: incs) ∧
    Forall (λ i, 1 ≤ inc_CompressFactor i) c) as Hpush.
  { destruct (IH (acc ++ [(Increment_GetCompressFactor incr).2])) as (c & tl & Ec & Et & Hf & Hc);
      [done|apply Forall_app; split; [done|by constructor]|done| | |].
    - rewrite charges_app, E1, length_app. apply Forall_app. split.
      + eapply Forall_impl; [exact Hcf|]. simpl. lia.
      + constructor; [|constructor]. simpl. destruct Hs1 as [-> | ->]; unfold norm_cf; simpl; lia.
    - rewrite charges_app, E1, length_app. simpl in *. lia.
    - exists c, (charge incr :: tl). rewrite charges_app, E1, <- app_assoc in Et.
      split_and!; [done|done| |done]. csimpl. constructor; [|done].
      split_and!; [done|by left|done]. }
  destruct (last acc) as [l|] eqn:El; [|exact Hpush].
  apply last_Some in El as [pre ->]. apply Forall_app in Ha as [Hpre Hl].
  apply Forall_cons in Hl as [Hl _].
  destruct (Increment_Equal_total l incr) as [e Ee]; [unfold info_like in *; tauto|].
  rewrite Ee. simpl. destruct e; simpl; [|exact Hpush].
  rewrite removelast_last. fold (joined l incr).
  apply Forall_app in Hcf as [Hcf1 Hcf2]. apply Forall_cons in Hcf2 as [Hcf2 _].
  assert (charges (pre ++ [joined l incr]) = charges (pre ++ [l]) ++ [charge l]) as E2.
  { rewrite !charges_app, charges_joined, app_assoc; [done|]. simpl in *. lia. }
  destruct (IH (pre ++ [joined l incr])) as (c & tl & Ec & Et & Hf & Hc);
    [done| |done| | |].
  - apply Forall_app. split; [done|]. constructor; [|constructor].
    unfold info_like. by rewrite joined_nil_info.
  - rewrite E2, length_app. apply Forall_app. split.
    + eapply Forall_impl; [exact Hcf1|]. simpl. lia.
    + constructor; [|constructor]. simpl.
      rewrite add64_id by (unfold int64_range, min_int64, max_int64 in *; simpl in *; lia). lia.
  - rewrite E2, length_app. simpl in *. lia.
  - exists c, (charge l :: tl). rewrite E2, <- app_assoc in Et.
    split_and!; [done|done| |done]. csimpl. constructor; [|done].
    by apply Increment_Equal_charge.
Qed.

Lemma Increments_Length_charges incs :
  Forall (λ i, 1 ≤ inc_CompressFactor i) incs →
  Z.of_nat (length (charges incs)) ≤ max_int64 →
  Increments_Length incs = Z.of_nat (length (charges incs)).
Proof.
  unfold Increments_Length. intros Hc Hmax.
  assert (∀ n, 0 ≤ n → n + Z.of_nat (length (charges incs)) ≤ max_int64 →
    foldl (λ length incr, add64 length (Increment_GetCompressFactor incr).1) n incs
    = n + Z.of_nat (length (charges incs))) as Hgen; [|by apply Hgen].
  clear Hmax. induction Hc as [|i incs Hi Hc IH]; intros n Hn Hmax; [simpl; lia|].
  change (i :: incs) with ([i] ++ incs) in *.
  rewrite charges_app, length_app, (charges_single i Hi), length_replicate in *.
  simpl. unfold norm_cf. rewrite (proj2 (Z.eqb_neq _ _)) by lia.
  assert (add64 n (inc_CompressFactor i) = n + inc_CompressFactor i) as ->
    by (apply add64_id; unfold int64_range, min_int64 in *; lia).
  rewrite IH by lia. lia.
Qed.

(** Compressing increments that all carry balance information, or all lack it,
    returns a list that stands for the same charges in the same order:
    decompressing it gives back, one for one, the durations, the paying accounts and
    the costs of the original, and its length counts the original increments. *)
Theorem Increments_Compress_Decompress (incs : Increments)
    (Hu : uniform incs) (Hs : single incs) (Hmax : Z.of_nat (length incs) ≤ max_int64) :
  ∃ c, Increments_Compress incs = Ok c ∧
    Forall2 same_charge (charge <$> Increments_Decompress c) (charge <$> incs) ∧
    Increments_Length c = Z.of_nat (length incs).
Proof.
  assert (∃ nil, Forall (info_like nil) incs) as [nil Hn].
  { destruct Hu as [Hu|Hu]; [exists true|exists false];
      (eapply Forall_impl; [exact Hu|]); unfold info_like; intros i.
    - intros ->. done.
    - intros [b ->]. done. }
  destruct (compress_loop_ok nil incs []) as (c & tl & Ec & Et & Hf & Hc);
    [done|constructor|done|constructor|done|].
  simpl in Et. subst tl. exists c. split_and!; [done|done|].
  pose proof (Forall2_length _ _ _ Hf) as El. rewrite length_fmap in El.
  rewrite Increments_Length_charges; [by rewrite El|done|by rewrite El].
Qed.

Lemma Increments_Compress_Decompress_witness :
  let inc d := mkIncrement d f_half (Some (mkDebitInfo None None "a")) 0 false in
  let incs := [inc 1; inc 1; inc 2] in
  (length <$> Increments_Compress incs) = Ok 2%nat ∧
  ∃ c, Increments_Compress incs = Ok c ∧
    Forall2 same_charge (charge <$> Increments_Decompress c) (charge <$> incs) ∧
    Increments_Length c = Z.of_nat (length incs).
Proof.
  intros inc incs. split; [vm_compute; reflexivity|].
  apply Increments_Compress_Decompress.
  - right. repeat constructor; eexists; reflexivity.
  - repeat constructor.
  - vm_compute. discriminate.
Defined.

(** ** Overlapping spans *)

(** Non-empty spans, each starting where the one before ends, the first at [t]. *)
Fixpoint chain (t : Z) (l : TimeSpans) : Prop :=
  match l with
  | [] => True
  | x :: l' => t_ns (ts_TimeStart x) = t ∧ t < t_ns (ts_TimeEnd x) ∧
               chain (t_ns (ts_TimeEnd x)) l'
  end.

(** Where the chain ends. *)
Fixpoint end_of (t : Z) (l : TimeSpans) : Z :=
  match l with [] => t | x :: l' => end_of (t_ns (ts_TimeEnd x)) l' end.

Lemma chain_end t l : chain t l → t ≤ end_of t l.
Proof.
  revert t. induction l as [|x l IH]; intros t; simpl; [lia|].
  intros (_ & Hlt & Hc). specialize (IH _ Hc). lia.
Qed.

(** Beyond the overlap nothing changes. *)
Lemma overlap_loop_beyond e i rest k t :
  chain t rest → t_ns e ≤ t → overlap_loop e i rest k = (k, rest).
Proof.
  revert i t. induction rest as [|x rest IH]; intros i t; simpl; [done|].
  intros (Hs & Hlt & Hc) Hle. unfold Before, TimeEqual in *.
  assert ((t_ns (ts_TimeEnd x) <? t_ns e) || (t_ns (ts_TimeEnd x) =? t_ns e) = false) as -> by lia.
  assert ((t_ns (ts_TimeStart x) <? t_ns e) = false) as -> by lia.
  by rewrite (IH (S i) _ Hc) by lia.
Qed.

Lemma overlap_loop_chain e k rest t :
  chain t rest → t ≤ t_ns e →
  let '(k', r) := overlap_loop e (S k) rest k in
  (k ≤ k')%nat ∧ length r = length rest ∧ chain (t_ns e) (drop (k' - k) r) ∧
  end_of (t_ns e) (drop (k' - k) r) = Z.max (t_ns e) (end_of t rest).
Proof.
  revert k t. induction rest as [|x rest IH]; intros k t; simpl.
  { intros _ Hle. rewrite Nat.sub_diag. simpl. lia. }
  intros (Hs & Hlt & Hc) Hle. unfold Before, TimeEqual.
  destruct (_ || _) eqn:E.
  - specialize (IH (S k) _ Hc ltac:(lia)).
    destruct (overlap_loop e (S (S k)) rest (S k)) as [k' r]. destruct IH as (H1 & El & H2 & H3).
    split; [lia|]. split; [simpl; lia|]. replace (k' - k)%nat with (S (k' - S k)) by lia. done.
  - destruct (Z.ltb_spec (t_ns (ts_TimeStart x)) (t_ns e)) as [Hlt'|Hge].
    + rewrite Nat.sub_diag. simpl. pose proof (chain_end _ _ Hc). split_and!; [done..|lia|done|lia].
    + rewrite (overlap_loop_beyond e _ rest k _ Hc) by lia. rewrite Nat.sub_diag. simpl.
      pose proof (chain_end _ _ Hc). split_and!; [done|done|lia|lia|done|lia].
Qed.

Lemma RemoveOverlapedFromIndex_ok pre rest ts t :
  chain t rest → t ≤ t_ns (ts_TimeEnd ts) →
  ∃ rest', RemoveOverlapedFromIndex (pre ++ ts :: rest) (length pre) = Ok (pre ++ ts :: rest') ∧
    (length rest' ≤ length rest)%nat ∧ chain (t_ns (ts_TimeEnd ts)) rest' ∧
    end_of (t_ns (ts_TimeEnd ts)) rest' = Z.max (t_ns (ts_TimeEnd ts)) (end_of t rest).
Proof.
  intros Hc Hle. unfold RemoveOverlapedFromIndex. unfold TimeSpans in *.
  rewrite list_lookup_middle by done. simpl.
  rewrite (cons_middle ts pre rest), app_assoc.
  assert (S (length pre) = length (pre ++ [ts])) as El by (rewrite length_app; simpl; lia).
  rewrite El, drop_app_length, take_app_length, <- El.
  pose proof (overlap_loop_chain (ts_TimeEnd ts) (length pre) rest t Hc Hle) as H.
  destruct (overlap_loop _ _ _ _) as [k r]. destruct H as (_ & Hl & H1 & H2).
  exists (drop (k - length pre) r). rewrite <- app_assoc, length_drop. split_and!; [done|lia|done..].
Qed.

(** When a span has been extended over its contiguous successors, removing the
    overlap leaves the spans before it and the extended span as they are, and after
    them a contiguous chain that starts where the extended span now ends and reaches
    as far as before: covered spans go, the one that sticks out is trimmed. *)
Theorem RemoveOverlapedFromIndex_contiguous (pre rest : TimeSpans) (ts : TimeSpan) (t : Z)
    (Hc : chain t rest) (Hle : t ≤ t_ns (ts_TimeEnd ts)) :
  ∃ rest', RemoveOverlapedFromIndex (pre ++ ts :: rest) (length pre) = Ok (pre ++ ts :: rest') ∧
    chain (t_ns (ts_TimeEnd ts)) rest' ∧
    end_of (t_ns (ts_TimeEnd ts)) rest' = Z.max (t_ns (ts_TimeEnd ts)) (end_of t rest).
Proof.
  destruct (RemoveOverlapedFromIndex_ok pre rest ts t Hc Hle) as (r & E & _ & H1 & H2). eauto.
Qed.

Definition minute_span (m : Z) : TimeSpan :=
  new_span (Date 2020 3 2 10 m 0 0 UTC) (Date 2020 3 2 10 (m + 1) 0 0 UTC).

Lemma RemoveOverlapedFromIndex_contiguous_witness :
  let long := new_span (Date 2020 3 2 10 0 0 0 UTC) (Date 2020 3 2 10 2 30 0 UTC) in
  let l := [minute_span 1; minute_span 2; minute_span 3] in
  (map TimeSpan_GetDuration <$> RemoveOverlapedFromIndex (long :: l) 0)
    = Ok [150 * Second; 30 * Second; Minute] ∧
  ∃ rest', RemoveOverlapedFromIndex ([] ++ long :: l) 0 = Ok ([] ++ long :: rest') ∧
    chain (t_ns (ts_TimeEnd long)) rest' ∧
    end_of (t_ns (ts_TimeEnd long)) rest'
      = Z.max (t_ns (ts_TimeEnd long)) (end_of (t_ns (Date 2020 3 2 10 1 0 0 UTC)) l).
Proof.
  intros long l. split; [vm_compute; reflexivity|].
  apply (RemoveOverlapedFromIndex_contiguous [] l long (t_ns (Date 2020 3 2 10 1 0 0 UTC))).
  - vm_compute. intuition discriminate.
  - vm_compute. discriminate.
Defined.

(** Paid spans that end exactly where a span ends do not only replace the spans
    under them: the next span, which nothing covers, is deleted as well. *)
Theorem OverlapWithTimeSpans_drops_uncovered :
  ∃ tsList paidTs, chain (t_ns (Date 2020 3 2 10 0 0 0 UTC)) tsList ∧ paidTs ⊆ tsList ∧
    (∀ x, x ∈ tsList → x ∉ paidTs →
       ∀ p, p ∈ paidTs → t_ns (ts_TimeEnd p) ≤ t_ns (ts_TimeStart x)) ∧
    OverlapWithTimeSpans tsList paidTs None 0 = Ok (true, paidTs, None) ∧
    length tsList = 2%nat ∧ length paidTs = 1%nat.
Proof.
  exists [minute_span 0; minute_span 1], [minute_span 0].
  split; [vm_compute; intuition discriminate|].
  split; [set_solver|]. split; [|split_and!; vm_compute; reflexivity].
  intros x Hx Hn p Hp. apply list_elem_of_singleton in Hp as ->.
  apply elem_of_cons in Hx as [->|Hx]; [set_solver|].
  apply list_elem_of_singleton in Hx as ->. vm_compute. discriminate.
Qed.

(** ** Increments of a span *)

Definition sum_durations (incs : Increments) : Z :=
  foldr (λ i n, inc_Duration i + n) 0 incs.

Lemma sum_durations_replicate n inc :
  sum_durations (replicate n inc) = Z.of_nat n * inc_Duration inc.
Proof. induction n as [|n IH]; simpl; [done|]. rewrite IH. lia. Qed.

(** The start of an increment is that of the span plus the increments before it. *)
Lemma GetTimeStartForIncrement_sum ts index :
  GetTimeStartForIncrement ts index =
  Add (ts_TimeStart ts) (sum_durations (take (Z.to_nat index) (ts_increments ts))).
Proof.
  unfold GetTimeStartForIncrement.
  assert (∀ l k start, foldl (λ start '(incIndex, inc),
      if Z.of_nat incIndex <? index then Add start (inc_Duration inc) else start) start
      (zip (seq k (length l)) l)
    = Add start (sum_durations (take (Z.to_nat index - k) l))) as Hgen.
  { induction l as [|x l IH]; intros k start; simpl.
    - rewrite take_nil. unfold Add. simpl. rewrite Z.add_0_r. by destruct start.
    - rewrite IH. destruct (Z.ltb_spec (Z.of_nat k) index) as [Hk|Hk].
      + replace (Z.to_nat index - k)%nat with (S (Z.to_nat index - S k)) by lia. simpl.
        unfold Add. simpl. f_equal. lia.
      + replace (Z.to_nat index - S k)%nat with 0%nat by lia.
        by replace (Z.to_nat index - k)%nat with 0%nat by lia. }
  rewrite Hgen. by rewrite Nat.sub_0_r.
Qed.

(** Cutting a span between two of its increments. *)
Lemma SplitByIncrement_splits ts k :
  span_ok ts → 0 < k < Z.of_nat (length (ts_increments ts)) →
  0 < sum_durations (take (Z.to_nat k) (ts_increments ts)) < TimeSpan_GetDuration ts →
  ∃ ts1 ts2, SplitByIncrement ts k = (ts1, Some ts2) ∧ splits ts ts1 ts2 ∧
    ts_increments ts1 = take (Z.to_nat k) (ts_increments ts) ∧
    ts_increments ts2 = drop (Z.to_nat k) (ts_increments ts) ∧
    t_ns (ts_TimeStart ts2) =
      t_ns (ts_TimeStart ts) + sum_durations (take (Z.to_nat k) (ts_increments ts)).
Proof.
  intros Hok Hk Hd. unfold SplitByIncrement.
  destruct (_ || _) eqn:E; [lia|]. clear E. rewrite GetTimeStartForIncrement_sum.
  set (split := Add _ _). set (nts := ts_set_Increments (copyRatingInfo _ _) _).
  set (ts0 := ts_set_Increments ts _).
  rewrite span_duration in Hd by done.
  pose proof (finish_split_splits ts ts0 nts split Hok eq_refl eq_refl) as Hs.
  assert (ts_TimeStart nts = split) as Hn1
    by (unfold nts; simpl; by rewrite copyRatingInfo_start).
  assert (ts_TimeEnd nts = ts_TimeEnd ts) as Hn2
    by (unfold nts; simpl; by rewrite copyRatingInfo_end).
  specialize (Hs Hn1 Hn2 eq_refl ltac:(unfold split; simpl; lia)).
  assert (let '(a, b) := finish_split ts0 nts split in
    ts_increments a = take (Z.to_nat k) (ts_increments ts) ∧
    ts_increments b = drop (Z.to_nat k) (ts_increments ts) ∧ ts_TimeStart b = split) as Hi
    by (by split_and!).
  destruct (finish_split ts0 nts split) as [ts1 ts2]. destruct Hs as (Hs & _ & _).
  destruct Hi as (Hi1 & Hi2 & Hi3).
  exists ts1, ts2. split_and!; [done..|]. by rewrite Hi3.
Qed.

Lemma Increments_Length_replicate n inc :
  inc_CompressFactor inc = 0 → Z.of_nat n ≤ max_int64 →
  Increments_Length (replicate n inc) = Z.of_nat n.
Proof.
  intros Hc Hn. unfold Increments_Length.
  assert (∀ m, 0 ≤ m → m + Z.of_nat n ≤ max_int64 →
    foldl (λ length incr, add64 length (Increment_GetCompressFactor incr).1) m (replicate n inc)
    = m + Z.of_nat n) as Hgen; [|by apply Hgen].
  clear Hn. induction n as [|n IH]; intros m Hm Hmax; simpl; [lia|].
  rewrite Hc. assert (add64 m (norm_cf 0) = m + 1) as ->
    by (apply add64_id; unfold int64_range, min_int64, norm_cf; simpl; lia).
  rewrite IH by lia. lia.
Qed.


