(* ===== verification/CallDescriptor.v ===== *)
(** * Call descriptors

    The data of [engine/calldesc.go] and the operations that only read or write the
    descriptor: the input of rating, its rating infos and the keys it looks up.  The
    cached account and the cost injected by tests are not part of the record: the
    operations modelled here and in Rating do not read them.  The rating infos that
    the code shares by pointer are values; Rating keeps them in a store where it
    matters.  An operation that changes the descriptor returns it. *)
From S2P Require Import Prelude GoFloat FloatExact GoStrings GoTime CoreUtils RateInterval TimeSpans.

Definition META_OUT : string := "*out".
Definition META_ANY : string := "*any".
Definition VOICE : string := "*voice".
Definition FALLBACK_SUBJECT : string := META_ANY.
Definition MIN_PREFIX_MATCH : Z := 1.
Definition RECURSION_MAX_DEPTH : Z := 3.

Definition RatingInfos := list RatingInfo.

Record CallDescriptor := mkCallDescriptor {
  cd_Category : string; cd_Tenant : string; cd_Subject : string; cd_Account : string;
  cd_Destination : string; cd_TimeStart : Time; cd_TimeEnd : Time;
  cd_LoopIndex : float64; cd_DurationIndex : Z; cd_FallbackSubject : string;
  cd_RatingInfos : RatingInfos; cd_Increments : option Increments; cd_ToR : string;
  cd_ExtraFields : gmap string string; cd_MaxRate : float64; cd_MaxRateUnit : Z;
  cd_MaxCostSoFar : float64; cd_CgrID : string; cd_RunID : string;
  cd_ForceDuration : bool; cd_PerformRounding : bool; cd_DryRun : bool;
  cd_DenyNegativeAccount : bool }.

(** Assignments to one field. *)
Definition cd_set_Destination (cd : CallDescriptor) (d : string) : CallDescriptor :=
  mkCallDescriptor (cd_Category cd) (cd_Tenant cd) (cd_Subject cd) (cd_Account cd) d
    (cd_TimeStart cd) (cd_TimeEnd cd) (cd_LoopIndex cd) (cd_DurationIndex cd)
    (cd_FallbackSubject cd) (cd_RatingInfos cd) (cd_Increments cd) (cd_ToR cd)
    (cd_ExtraFields cd) (cd_MaxRate cd) (cd_MaxRateUnit cd) (cd_MaxCostSoFar cd)
    (cd_CgrID cd) (cd_RunID cd) (cd_ForceDuration cd) (cd_PerformRounding cd)
    (cd_DryRun cd) (cd_DenyNegativeAccount cd).
Definition cd_set_RatingInfos (cd : CallDescriptor) (ris : RatingInfos) : CallDescriptor :=
  mkCallDescriptor (cd_Category cd) (cd_Tenant cd) (cd_Subject cd) (cd_Account cd)
    (cd_Destination cd) (cd_TimeStart cd) (cd_TimeEnd cd) (cd_LoopIndex cd)
    (cd_DurationIndex cd) (cd_FallbackSubject cd) ris (cd_Increments cd) (cd_ToR cd)
    (cd_ExtraFields cd) (cd_MaxRate cd) (cd_MaxRateUnit cd) (cd_MaxCostSoFar cd)
    (cd_CgrID cd) (cd_RunID cd) (cd_ForceDuration cd) (cd_PerformRounding cd)
    (cd_DryRun cd) (cd_DenyNegativeAccount cd).
Definition cd_set_rated (cd : CallDescriptor) (durationIndex : Z) (tor : string)
    (maxCostSoFar : float64) : CallDescriptor :=
  mkCallDescriptor (cd_Category cd) (cd_Tenant cd) (cd_Subject cd) (cd_Account cd)
    (cd_Destination cd) (cd_TimeStart cd) (cd_TimeEnd cd) (cd_LoopIndex cd)
    durationIndex (cd_FallbackSubject cd) (cd_RatingInfos cd) (cd_Increments cd) tor
    (cd_ExtraFields cd) (cd_MaxRate cd) (cd_MaxRateUnit cd) maxCostSoFar
    (cd_CgrID cd) (cd_RunID cd) (cd_ForceDuration cd) (cd_PerformRounding cd)
    (cd_DryRun cd) (cd_DenyNegativeAccount cd).

(** [&CallDescriptor{Category: c, Tenant: t, Destination: d}] with its times. *)
Definition new_descriptor (c t d : string) (s e : Time) : CallDescriptor :=
  mkCallDescriptor c t "" "" d s e f0 0 "" [] None "" ∅ f0 0 f0 "" "" false false false false.

Definition CallDescriptor_GetDuration (cd : CallDescriptor) : Z :=
  Sub (cd_TimeEnd cd) (cd_TimeStart cd).

Definition ValidateCallData (cd : CallDescriptor) : res () :=
  if After (cd_TimeStart cd) (cd_TimeEnd cd) || TimeEqual (cd_TimeStart cd) (cd_TimeEnd cd)
  then Err "TimeStart must be strctly before TimeEnd"
  else if Sub (cd_TimeEnd cd) (cd_TimeStart cd) <? cd_DurationIndex cd
  then Err "DurationIndex must be equal or greater than TimeEnd - TimeStart"
  else Ok ().

Definition AddRatingInfo (cd : CallDescriptor) (ris : RatingInfos) : CallDescriptor :=
  cd_set_RatingInfos cd (cd_RatingInfos cd ++ ris).

(** Is there rating information for the whole call? *)
Definition continousRatingInfos (cd : CallDescriptor) : bool :=
  match cd_RatingInfos cd with
  | [] => false
  | ri :: _ =>
      if After (rinf_ActivationTime ri) (cd_TimeStart cd) then false
      else forallb (λ ri, bool_decide (is_Some (rinf_RateIntervals ri))) (cd_RatingInfos cd)
  end.

Definition RatingInfos_Less (a b : RatingInfo) : bool :=
  Before (rinf_ActivationTime a) (rinf_ActivationTime b).
Definition RatingInfos_Sort `{GoRuntime} (ris : RatingInfos) : RatingInfos :=
  go_sort RatingInfos_Less ris.

(** When there are infos already, only the first new one is considered; the loop at
    the end of the code has no effect.  The answer is always true; the first new
    info of an empty list panics when it is read. *)
Definition addRatingInfos `{GoRuntime} (cd : CallDescriptor) (ris : RatingInfos)
    : res (bool * CallDescriptor) :=
  match cd_RatingInfos cd with
  | [] => Ok (true, cd_set_RatingInfos cd ris)
  | _ =>
      let own := RatingInfos_Sort (cd_RatingInfos cd) in
      first ← deref (head own);
      if After (rinf_ActivationTime first) (cd_TimeStart cd) then
        new ← deref (head ris);
        if Before (rinf_ActivationTime new) (rinf_ActivationTime first)
        then Ok (true, cd_set_RatingInfos cd (RatingInfos_Sort (own ++ [new])))
        else Ok (true, cd_set_RatingInfos cd own)
      else Ok (true, cd_set_RatingInfos cd own)
  end.

Definition GetKey (cd : CallDescriptor) (subject : string) : string :=
  ConcatenatedKey [META_OUT; cd_Tenant cd; cd_Category cd; subject].

Definition GetAccountKey (cd : CallDescriptor) : string :=
  let subj := if decide (cd_Account cd ≠ "") then cd_Account cd else cd_Subject cd in
  ConcatenatedKey [cd_Tenant cd; subj].

(** The rating infos, increments, extra fields and the denial of negative accounts
    are not copied. *)
Definition CallDescriptor_Clone (cd : CallDescriptor) : CallDescriptor :=
  mkCallDescriptor (cd_Category cd) (cd_Tenant cd) (cd_Subject cd) (cd_Account cd)
    (cd_Destination cd) (cd_TimeStart cd) (cd_TimeEnd cd) (cd_LoopIndex cd)
    (cd_DurationIndex cd) (cd_FallbackSubject cd) [] None (cd_ToR cd) ∅ (cd_MaxRate cd)
    (cd_MaxRateUnit cd) (cd_MaxCostSoFar cd) (cd_CgrID cd) (cd_RunID cd)
    (cd_ForceDuration cd) (cd_PerformRounding cd) (cd_DryRun cd) false.
