(* ===== verification/RatingProfile.v ===== *)
(** * Rating profiles

    [engine/ratingprofile.go]: the activations of rating plans of a subject, the
    plans in force during a call, and the rate intervals a span can be rated by.
    What the data manager answers is a class, [RatingData]; the code only reads it.
    An answer without error may still be nil. *)
From S2P Require Import Prelude GoFloat FloatExact GoStrings GoTime CoreUtils RateInterval RatingPlan TimeSpans CallDescriptor.

Definition ErrNotFound : string := "NOT_FOUND".

Record RatingPlanActivation := mkRatingPlanActivation {
  rpa_ActivationTime : Time; rpa_RatingPlanId : string; rpa_FallbackKeys : list string }.

Definition RatingPlanActivations := list RatingPlanActivation.

Record RatingProfile := mkRatingProfile {
  rpf_Id : string; rpf_RatingPlanActivations : RatingPlanActivations }.

(** The structural comparison of the times: same instant, same location. *)
Definition RatingPlanActivation_Equal (rpa orpa : RatingPlanActivation) : bool :=
  (t_ns (rpa_ActivationTime rpa) =? t_ns (rpa_ActivationTime orpa)) &&
  bool_decide (loc_name (t_loc (rpa_ActivationTime rpa))
               = loc_name (t_loc (rpa_ActivationTime orpa))) &&
  bool_decide (rpa_RatingPlanId rpa = rpa_RatingPlanId orpa).

Definition RatingPlanActivations_Less (a b : RatingPlanActivation) : bool :=
  Before (rpa_ActivationTime a) (rpa_ActivationTime b).

(** The data manager, and the option that lets shorter subjects match. *)
Class RatingData := {
  dm_GetRatingProfile : string → res (option RatingProfile);
  dm_GetRatingPlan : string → res (option RatingPlan);
  dm_GetReverseDestination : string → res (list string);
  rpSubjectPrefixMatching : bool
}.

Section rating_profile.
Context `{GoRuntime}.

Definition RatingPlanActivations_Sort (rpas : RatingPlanActivations) : RatingPlanActivations :=
  go_sort RatingPlanActivations_Less rpas.

(** The loop over the sorted activations from position [index]. *)
Fixpoint active_loop (cd : CallDescriptor) (index : nat) (rpas : RatingPlanActivations)
    (lastBeforeCallStart firstAfterCallEnd : nat) : nat * nat :=
  match rpas with
  | [] => (lastBeforeCallStart, firstAfterCallEnd)
  | rpa :: rpas' =>
      let lastBeforeCallStart :=
        if Before (rpa_ActivationTime rpa) (cd_TimeStart cd) ||
           TimeEqual (rpa_ActivationTime rpa) (cd_TimeStart cd)
        then index else lastBeforeCallStart in
      if After (rpa_ActivationTime rpa) (cd_TimeEnd cd) then (lastBeforeCallStart, index)
      else active_loop cd (S index) rpas' lastBeforeCallStart firstAfterCallEnd
  end.

(** Sorts the receiver, whose activations are the result's prefix and suffix too. *)
Definition GetActiveForCall (rpas : RatingPlanActivations) (cd : CallDescriptor)
    : RatingPlanActivations :=
  let rpas := RatingPlanActivations_Sort rpas in
  let '(lastBeforeCallStart, firstAfterCallEnd) := active_loop cd 0 rpas 0 (length rpas) in
  drop lastBeforeCallStart (take firstAfterCallEnd rpas).

(** ** The rate intervals of a span *)

(** The loop that looks for the active interval with the latest start among those of
    the greatest weight: position, weight and distance found so far. *)
Fixpoint best_loop (ts : TimeSpan) (index : nat) (rateIntervals : list RateInterval)
    (bestRateIntervalIndex : nat) (bestIntervalWeight : float64) (delta : Z)
    : res (nat * float64) :=
  match rateIntervals with
  | [] => Ok (bestRateIntervalIndex, bestIntervalWeight)
  | rateInterval :: rest =>
      inside ← RateInterval_Contains rateInterval (ts_TimeStart ts) false;
      if negb inside then
        best_loop ts (S index) rest bestRateIntervalIndex bestIntervalWeight delta
      else if fltb (ri_Weight rateInterval) bestIntervalWeight then
        Ok (bestRateIntervalIndex, bestIntervalWeight)
      else
        timing ← deref (ri_Timing rateInterval);
        startTime ← getLeftMargin timing (ts_TimeStart ts);
        let tmpDelta := Sub (ts_TimeStart ts) startTime in
        if (Before startTime (ts_TimeStart ts) || TimeEqual startTime (ts_TimeStart ts)) &&
           ((delta =? -1) || (tmpDelta <? delta))
        then best_loop ts (S index) rest index (ri_Weight rateInterval) tmpDelta
        else best_loop ts (S index) rest bestRateIntervalIndex bestIntervalWeight delta
  end.

(** The later intervals, of no lower weight, that start before the span ends. *)
Fixpoint later_loop (ts : TimeSpan) (bestIntervalWeight : float64)
    (rateIntervals : list RateInterval) : res (list RateInterval) :=
  match rateIntervals with
  | [] => Ok []
  | rateInterval :: rest =>
      if fltb (ri_Weight rateInterval) bestIntervalWeight then Ok []
      else
        timing ← deref (ri_Timing rateInterval);
        startTime ← getLeftMargin timing (ts_TimeStart ts);
        result ← later_loop ts bestIntervalWeight rest;
        Ok (if Before startTime (ts_TimeEnd ts) then rateInterval :: result else result)
  end.

(** The selection, and the intervals as the sort leaves them in the rating info. *)
Definition SelectRatingIntevalsForTimespan (ri : RatingInfo) (ts : TimeSpan)
    : res (list RateInterval * list RateInterval) :=
  rateIntervals ← TimeSorter_Sort (ts_TimeStart ts) (elems (rinf_RateIntervals ri));
  '(best, weight) ← best_loop ts 0 rateIntervals 0 f0 (-1);
  bestInterval ← deref (rateIntervals !! best);
  later ← later_loop ts weight (drop (S best) rateIntervals);
  Ok (bestInterval :: later, rateIntervals).

Context `{RatingData}.

(** ** The rating infos of a call *)

(** The destinations of one prefix: the heaviest list of intervals among those with
    an interval active at the start of the call. *)
Fixpoint dest_loop (rpl : RatingPlan) (t : Time) (destIDs : list string)
    (best : option (float64 * list RateInterval * string))
    : res (option (float64 * list RateInterval * string)) :=
  match destIDs with
  | [] => Ok best
  | dID :: rest =>
      match default ∅ (rp_DestinationRates rpl) !! dID with
      | None => dest_loop rpl t rest best
      | Some _ =>
          let ril := RatingPlan_RateIntervalList rpl dID in
          timeChecker ← res_existsb (λ ri, timing ← deref (ri_Timing ri); IsActiveAt timing t) ril;
          let currentWeight := RateIntervalList_GetWeight ril in
          let heavier := match best with
                         | None => true | Some (w, _, _) => fgtb currentWeight w end in
          dest_loop rpl t rest
            (if timeChecker && heavier then Some (currentWeight, ril, dID) else best)
      end
  end.

(** The prefixes, longest first, until one has a destination of the plan. *)
Fixpoint prefix_loop (rpl : RatingPlan) (t : Time) (prefixes : list string)
    : res (option (list RateInterval * string * string)) :=
  match prefixes with
  | [] => Ok None
  | p :: rest =>
      match dm_GetReverseDestination p with
      | Panic => Panic
      | Err _ => prefix_loop rpl t rest
      | Ok destIDs =>
          best ← dest_loop rpl t destIDs None;
          match best with
          | Some (_, rps, dID) => Ok (Some (rps, p, dID))
          | None => prefix_loop rpl t rest
          end
      end
  end.

Definition any_intervals (rpl : RatingPlan) : option (list RateInterval * string * string) :=
  match default ∅ (rp_DestinationRates rpl) !! META_ANY with
  | Some _ => Some (RatingPlan_RateIntervalList rpl META_ANY, META_ANY, META_ANY)
  | None => None
  end.

(** What a plan offers for the destination of the call: intervals, prefix and
    destination identifier; and the descriptor, an empty destination becoming any. *)
Definition plan_intervals (rpl : RatingPlan) (cd : CallDescriptor)
    : res (option (list RateInterval * string * string) * CallDescriptor) :=
  if decide (cd_Destination cd = META_ANY ∨ cd_Destination cd = "") then
    Ok (any_intervals rpl, cd_set_Destination cd META_ANY)
  else
    prefixes ← SplitPrefix (cd_Destination cd) MIN_PREFIX_MATCH;
    found ← prefix_loop rpl (cd_TimeStart cd) prefixes;
    Ok (match found with Some _ => found | None => any_intervals rpl end, cd).

(** One activation: the infos it adds. *)
Definition activation_infos (rpfId : string) (index : nat) (rpa : RatingPlanActivation)
    (rpl : RatingPlan) (cd : CallDescriptor) : res (RatingInfos * CallDescriptor) :=
  '(found, cd) ← plan_intervals rpl cd;
  let blank :=
    if (index =? 0)%nat && Before (cd_TimeStart cd) (rpa_ActivationTime rpa)
    then [mkRatingInfo "" "" "" "" (cd_TimeStart cd) None [GetKey cd FALLBACK_SUBJECT]]
    else [] in
  Ok (blank ++
      match found with
      | Some (rps, prefix, destinationId) =>
          [mkRatingInfo rpfId (rp_Id rpl) prefix destinationId (rpa_ActivationTime rpa)
             (Some rps) (rpa_FallbackKeys rpa)]
      | None =>
          match rpa_FallbackKeys rpa with
          | [] => []
          | keys => [mkRatingInfo "" "" "" "" (rpa_ActivationTime rpa) None keys]
          end
      end, cd).

Fixpoint activations_loop (rpfId : string) (index : nat) (rpas : RatingPlanActivations)
    (cd : CallDescriptor) (ris : RatingInfos) : res (RatingInfos * CallDescriptor) :=
  match rpas with
  | [] => Ok (ris, cd)
  | rpa :: rest =>
      match dm_GetRatingPlan (rpa_RatingPlanId rpa) with
      | Panic => Panic
      | Err _ | Ok None => activations_loop rpfId (S index) rest cd ris
      | Ok (Some rpl) =>
          '(new, cd) ← activation_infos rpfId index rpa rpl cd;
          activations_loop rpfId (S index) rest cd (ris ++ new)
      end
  end.

(** Returns the descriptor and the error, nil being [None]. *)
Definition GetRatingPlansForPrefix (rpf : RatingProfile) (cd : CallDescriptor)
    : res (option string * CallDescriptor) :=
  '(ris, cd) ← activations_loop (rpf_Id rpf) 0
                 (GetActiveForCall (rpf_RatingPlanActivations rpf) cd) cd [];
  match ris with
  | [] => Ok (Some ErrNotFound, cd)
  | _ => '(_, cd) ← addRatingInfos cd ris; Ok (None, cd)
  end.

(** ** Looking up the profile of a subject *)

Fixpoint subject_loop (baseKey subject : string) (cuts : list nat)
    (last : res (option RatingProfile)) : res (option RatingProfile) :=
  match cuts with
  | [] => last
  | i :: rest =>
      s ← slice subject 0 (slen subject - Z.of_nat i);
      match dm_GetRatingProfile (baseKey +:+ s) with
      | Ok (Some rp) => Ok (Some rp)
      | Panic => Panic
      | r => subject_loop baseKey subject rest r
      end
  end.

Definition RatingProfileSubjectPrefixMatching (key : string) : res (option RatingProfile) :=
  if negb rpSubjectPrefixMatching || HasSuffix key META_ANY then dm_GetRatingProfile key
  else
    match dm_GetRatingProfile key with
    | Ok (Some rp) => Ok (Some rp)
    | Panic => Panic
    | first =>
        let lastIndex := LastIndex key CONCATENATED_KEY_SEP in
        baseKey ← slice key 0 lastIndex;
        subject ← slice key lastIndex (slen key);
        let lenSubject := slen subject in
        subject_loop baseKey subject (seq 1 (Z.to_nat (lenSubject - 2))) first
    end.
End rating_profile.

(** * Lemmas *)

Section active.
Context `{GoRuntime} (cd : CallDescriptor).
Abbreviation act r := (t_ns (rpa_ActivationTime r)).
Let s := t_ns (cd_TimeStart cd).
Let e := t_ns (cd_TimeEnd cd).

Lemma active_loop_before i b r lb fa :
  s ≤ e → Forall (λ x, act x ≤ s) b →
  active_loop cd i (b ++ r) lb fa
  = active_loop cd (i + length b) r (match b with [] => lb | _ => i + length b - 1 end)%nat fa.
Proof.
  intros Hse Hb. revert i lb. induction Hb as [|x b Hx Hb IH]; intros i lb; simpl.
  { by rewrite Nat.add_0_r. }
  unfold Before, TimeEqual, After. fold s e.
  assert ((act x <? s) || (act x =? s) = true) as -> by lia.
  assert ((e <? act x) = false) as -> by lia.
  rewrite IH. destruct b as [|y b]; simpl; f_equal; lia.
Qed.

Lemma active_loop_during i d r lb fa :
  Forall (λ x, s < act x ∧ act x ≤ e) d →
  active_loop cd i (d ++ r) lb fa = active_loop cd (i + length d) r lb fa.
Proof.
  intros Hd. revert i. induction Hd as [|x d Hx Hd IH]; intros i; simpl.
  { by rewrite Nat.add_0_r. }
  unfold Before, TimeEqual, After. fold s e.
  assert ((act x <? s) || (act x =? s) = false) as -> by lia.
  assert ((e <? act x) = false) as -> by lia.
  rewrite IH. f_equal. lia.
Qed.

Lemma active_loop_after i a lb :
  s ≤ e → Forall (λ x, e < act x) a → active_loop cd i a lb (i + length a) = (lb, i).
Proof.
  intros Hse [|x a' Hx Ha]; simpl; [by rewrite Nat.add_0_r|].
  unfold Before, TimeEqual, After. fold s e.
  assert ((act x <? s) || (act x =? s) = false) as -> by lia.
  by assert ((e <? act x) = true) as -> by lia.
Qed.

Lemma activations_sorted rpas :
  StronglySorted (λ a b, act a ≤ act b) (RatingPlanActivations_Sort rpas).
Proof.
  unfold RatingPlanActivations_Sort.
  assert (StrictWeak RatingPlanActivations_Less) as Hw by exact (strict_weak_key _).
  pose proof (go_sort_all RatingPlanActivations_Less rpas) as Hs.
  refine (StronglySorted_impl _ _ _ _ Hs). unfold RatingPlanActivations_Less, Before.
  intros a b ?. simpl in *. lia.
Qed.

(** The sorted activations in three parts: before, during and after the call. *)
Lemma activations_parts rpas :
  let l := RatingPlanActivations_Sort rpas in
  l = filter (λ r, act r ≤ s) l ++ filter (λ r, act r ≤ e ∧ s < act r) l
      ++ filter (λ r, e < act r ∧ s < act r) l.
Proof.
  intros l. pose proof (activations_sorted rpas) as Hs. fold l in Hs.
  assert (StronglySorted (λ a b, act a ≤ act b) (filter (λ r, s < act r) l)) as Hs2
    by (by apply StronglySorted_filter).
  etrans; [apply (sorted_filter_split (λ r, act r) s _ Hs)|]. f_equal.
  etrans; [apply (sorted_filter_split (λ r, act r) e _ Hs2)|].
  f_equal; apply list_filter_filter.
Qed.
End active.

Lemma last_or_nil {A} (l : list A) : l = [] ∨ ∃ pre x, l = pre ++ [x].
Proof. destruct l as [|y l _] using rev_ind; [by left|right; eauto]. Qed.

(** C8: the activations in force during a call are the last one that is not after its
    start, if there is one, and all those after the start that are not after the end,
    in the order of their times. *)
Theorem GetActiveForCall_spec `{GoRuntime} (rpas : RatingPlanActivations) (cd : CallDescriptor)
    (Hse : t_ns (cd_TimeStart cd) ≤ t_ns (cd_TimeEnd cd)) :
  let l := RatingPlanActivations_Sort rpas in
  GetActiveForCall rpas cd =
    option_list (last (filter (λ r, t_ns (rpa_ActivationTime r) ≤ t_ns (cd_TimeStart cd)) l)) ++
    filter (λ r, t_ns (rpa_ActivationTime r) ≤ t_ns (cd_TimeEnd cd) ∧
                 t_ns (cd_TimeStart cd) < t_ns (rpa_ActivationTime r)) l.
Proof.
  intros l. pose proof (activations_parts cd rpas) as Hl. cbv zeta in Hl. fold l in Hl.
  unfold GetActiveForCall. fold l.
  set (b := filter (λ r, t_ns (rpa_ActivationTime r) ≤ t_ns (cd_TimeStart cd)) l) in *.
  set (d := filter (λ r, t_ns (rpa_ActivationTime r) ≤ t_ns (cd_TimeEnd cd) ∧
                         t_ns (cd_TimeStart cd) < t_ns (rpa_ActivationTime r)) l) in *.
  set (a := filter (λ r, t_ns (cd_TimeEnd cd) < t_ns (rpa_ActivationTime r) ∧
                         t_ns (cd_TimeStart cd) < t_ns (rpa_ActivationTime r)) l) in Hl.
  assert (Forall (λ r, t_ns (rpa_ActivationTime r) ≤ t_ns (cd_TimeStart cd)) b) as Hb
    by (apply Forall_forall; intros x [Hx _]%list_elem_of_filter; done).
  assert (Forall (λ r, t_ns (cd_TimeStart cd) < t_ns (rpa_ActivationTime r) ∧
                       t_ns (rpa_ActivationTime r) ≤ t_ns (cd_TimeEnd cd)) d) as Hd
    by (apply Forall_forall; intros x [Hx _]%list_elem_of_filter; tauto).
  assert (Forall (λ r, t_ns (cd_TimeEnd cd) < t_ns (rpa_ActivationTime r)) a) as Ha
    by (apply Forall_forall; intros x [Hx _]%list_elem_of_filter; tauto).
  clearbody b d a. rewrite Hl at 1 2.
  rewrite (active_loop_before cd), (active_loop_during cd) by done.
  replace (length (b ++ d ++ a)) with (0 + length b + length d + length a)%nat
    by (rewrite !length_app; lia).
  rewrite (active_loop_after cd) by done.
  rewrite Hl, app_assoc, take_app_length' by (rewrite length_app; lia).
  destruct (last_or_nil b) as [->|(pre & x & ->)]; [done|].
  rewrite last_snoc, length_app. destruct (pre ++ [x]) eqn:E; [by destruct pre|].
  rewrite <- E. simpl. rewrite <- app_assoc. by rewrite drop_app_length' by lia.
Qed.

Definition at_day (d : Z) (id : string) : RatingPlanActivation :=
  mkRatingPlanActivation (Date 2020 3 d 0 0 0 0 UTC) id [].

Lemma GetActiveForCall_spec_witness :
  let cd := new_descriptor "call" "t" "49" (Date 2020 3 3 12 0 0 0 UTC)
              (Date 2020 3 4 12 0 0 0 UTC) in
  let rpas := [at_day 4 "c"; at_day 1 "a"; at_day 6 "d"; at_day 3 "b"] in
  map rpa_RatingPlanId (@GetActiveForCall reference_runtime rpas cd) = ["b"; "c"] ∧
  @GetActiveForCall reference_runtime rpas cd =
    option_list (last (filter (λ r, t_ns (rpa_ActivationTime r) ≤ t_ns (cd_TimeStart cd))
                         (@RatingPlanActivations_Sort reference_runtime rpas))) ++
    filter (λ r, t_ns (rpa_ActivationTime r) ≤ t_ns (cd_TimeEnd cd) ∧
                 t_ns (cd_TimeStart cd) < t_ns (rpa_ActivationTime r))
      (@RatingPlanActivations_Sort reference_runtime rpas).
Proof.
  intros cd rpas. split; [vm_compute; reflexivity|].
  apply (@GetActiveForCall_spec reference_runtime). vm_compute. discriminate.
Defined.
