(* ===== verification/CallCost.v ===== *)
(** * Call costs

    [engine/callcost.go] and the data of [engine/datacost.go]: the rated spans of a
    call and their total.  The account summary, which only a debit fills, is not part
    of the record.  A method that changes its receiver returns it; a span whose cost
    is computed comes back with its interval as the lookup leaves it. *)
From S2P Require Import Prelude GoFloat FloatExact GoStrings GoTime CoreUtils RateInterval TimeSpans CallDescriptor.

Record CallCost := mkCallCost {
  cc_Category : string; cc_Tenant : string; cc_Subject : string; cc_Account : string;
  cc_Destination : string; cc_ToR : string; cc_Cost : float64; cc_Timespans : TimeSpans;
  cc_RatedUsage : float64; cc_deductConnectFee : bool; cc_negativeConnectFee : bool;
  cc_maxCostDisconect : bool }.

(** Assignments of the cost, the spans and the usage. *)
Definition cc_set (cc : CallCost) (cost : float64) (tss : TimeSpans) (usage : float64)
    : CallCost :=
  mkCallCost (cc_Category cc) (cc_Tenant cc) (cc_Subject cc) (cc_Account cc)
    (cc_Destination cc) (cc_ToR cc) cost tss usage (cc_deductConnectFee cc)
    (cc_negativeConnectFee cc) (cc_maxCostDisconect cc).
Definition cc_set_Cost (cc : CallCost) (cost : float64) : CallCost :=
  cc_set cc cost (cc_Timespans cc) (cc_RatedUsage cc).
Definition cc_set_Timespans (cc : CallCost) (tss : TimeSpans) : CallCost :=
  cc_set cc (cc_Cost cc) tss (cc_RatedUsage cc).

(** [&CallCost{Cost: c}] *)
Definition cost_only (c : float64) : CallCost :=
  mkCallCost "" "" "" "" "" "" c [] f0 false false false.

(** [CallDescriptor.CreateCallCost] *)
Definition CreateCallCost (cd : CallDescriptor) : CallCost :=
  mkCallCost (cd_Category cd) (cd_Tenant cd) (cd_Subject cd) (cd_Account cd)
    (cd_Destination cd) (cd_ToR cd) f0 [] f0 (feqb (cd_LoopIndex cd) f0) false false.

Definition CreateCallDescriptor (cc : CallCost) : CallDescriptor :=
  mkCallDescriptor (cc_Category cc) (cc_Tenant cc) (cc_Subject cc) (cc_Account cc)
    (cc_Destination cc) zero_time zero_time f0 0 "" [] None (cc_ToR cc) ∅ f0 0 f0 "" ""
    false false false false.

Definition CallCost_Merge (cc other : CallCost) : CallCost :=
  cc_set cc (fadd (cc_Cost cc) (cc_Cost other)) (cc_Timespans cc ++ cc_Timespans other)
    (cc_RatedUsage cc).

(** [now] is what the clock answers. *)
Definition GetStartTime (now : Time) (cc : CallCost) : Time :=
  match cc_Timespans cc with [] => now | ts :: _ => ts_TimeStart ts end.
Definition GetEndTime (now : Time) (cc : CallCost) : Time :=
  match last (cc_Timespans cc) with None => now | Some ts => ts_TimeEnd ts end.

Definition CallCost_GetDuration (cc : CallCost) : Z :=
  foldl (λ td ts, add64 td (TimeSpan_GetDuration ts)) 0 (cc_Timespans cc).

Definition UpdateRatedUsage (cc : option CallCost) : Z * option CallCost :=
  match cc with
  | None => (0, None)
  | Some cc =>
      let totalDuration := CallCost_GetDuration cc in
      (totalDuration, Some (cc_set cc (cc_Cost cc) (cc_Timespans cc) (f_of_Z totalDuration)))
  end.

Definition GetConnectFee (cc : CallCost) : float64 :=
  match cc_Timespans cc with
  | [] => f0
  | ts :: _ =>
      match ts_RateInterval ts with
      | None => f0
      | Some i => match ri_Rating i with None => f0 | Some r => rir_ConnectFee r end
      end
  end.

Definition CallCost_IsPaid (cc : CallCost) : bool :=
  forallb (λ ts, (IsPaid ts).1) (cc_Timespans cc).

(** ** Data costs *)

Record DataIncrement := mkDataIncrement {
  dinc_Amount : float64; dinc_Cost : float64; dinc_BalanceInfo : option DebitInfo;
  dinc_CompressFactor : Z; dinc_paid : bool }.

Record DataSpan := mkDataSpan {
  ds_DataStart : float64; ds_DataEnd : float64; ds_Cost : float64;
  ds_ratingInfo : option RatingInfo; ds_RateInterval : option RateInterval;
  ds_DataIndex : float64; ds_Increments : list DataIncrement;
  ds_MatchedSubject : string; ds_MatchedPrefix : string; ds_MatchedDestId : string;
  ds_RatingPlanId : string }.

Record DataCost := mkDataCost {
  dc_Category : string; dc_Tenant : string; dc_Subject : string; dc_Account : string;
  dc_Destination : string; dc_ToR : string; dc_Cost : float64; dc_DataSpans : list DataSpan;
  dc_deductConnectFee : bool }.

Definition data_increment (incr : Increment) : DataIncrement :=
  mkDataIncrement (f_of_Z (inc_Duration incr)) (inc_Cost incr) (inc_BalanceInfo incr)
    (inc_CompressFactor incr) (inc_paid incr).

Definition data_span (ts : TimeSpan) : DataSpan :=
  let length := Sub (ts_TimeEnd ts) (ts_TimeStart ts) in
  let callDuration := ts_DurationIndex ts in
  mkDataSpan (f_of_Z (sub64 callDuration length)) (f_of_Z callDuration) (ts_Cost ts)
    (ts_ratingInfo ts) (ts_RateInterval ts) (f_of_Z callDuration)
    (data_increment <$> ts_increments ts) (ts_MatchedSubject ts) (ts_MatchedPrefix ts)
    (ts_MatchedDestId ts) (ts_RatingPlanId ts).

Definition ToDataCost (cc : CallCost) : res DataCost :=
  if decide (cc_ToR cc = VOICE) then Err "Not a data call!"
  else Ok (mkDataCost (cc_Category cc) (cc_Tenant cc) (cc_Subject cc) (cc_Account cc)
             (cc_Destination cc) (cc_ToR cc) (cc_Cost cc) (data_span <$> cc_Timespans cc)
             (cc_deductConnectFee cc)).

(** ** Rounding *)

(** An interval without a rating panics. *)
Definition rating_of (ts : TimeSpan) : res (option RIRate) :=
  match ts_RateInterval ts with
  | None => Ok None
  | Some i => r ← deref (ri_Rating i); Ok (Some r)
  end.

Definition GetLongestRounding (cc : CallCost) : res (Z * string) :=
  foldl (λ acc ts,
    '(roundingDecimals, roundingMethod) ← acc;
    rating ← rating_of ts;
    Ok (match rating with
        | Some r =>
            if roundingDecimals <? rir_RoundingDecimals r
            then (rir_RoundingDecimals r, rir_RoundingMethod r)
            else (roundingDecimals, roundingMethod)
        | None => (roundingDecimals, roundingMethod)
        end)) (Ok (0, "")) (cc_Timespans cc).

Section costs.
Context `{GoRuntime}.

(** [ts.Cost = ts.CalculateCost()] *)
Definition recost (ts : TimeSpan) : TimeSpan :=
  let '(c, ts) := CalculateCost ts in ts_set_Cost ts c.

Definition updateCost (cc : CallCost) : CallCost :=
  let tss := recost <$> cc_Timespans cc in
  let cost := foldl (λ cost ts,
    Round (fadd cost (ts_Cost ts)) globalRoundingDecimals ROUNDING_MIDDLE) f0 tss in
  cc_set cc cost tss (cc_RatedUsage cc).

Definition UpdateCost (cc : CallCost) : CallCost :=
  updateCost
    (mkCallCost (cc_Category cc) (cc_Tenant cc) (cc_Subject cc) (cc_Account cc)
       (cc_Destination cc) (cc_ToR cc) (cc_Cost cc) (cc_Timespans cc) (cc_RatedUsage cc)
       true (cc_negativeConnectFee cc) (cc_maxCostDisconect cc)).

Definition ts_set_RoundIncrement (ts : TimeSpan) (inc : option Increment) : TimeSpan :=
  mkTimeSpan (ts_TimeStart ts) (ts_TimeEnd ts) (ts_Cost ts) (ts_RateInterval ts)
    (ts_DurationIndex ts) (ts_Increments ts) inc (ts_MatchedSubject ts)
    (ts_MatchedPrefix ts) (ts_MatchedDestId ts) (ts_RatingPlanId ts)
    (ts_CompressFactor ts) (ts_ratingInfo ts).

(** One span of [Round]: the correction and the span with its round increment. *)
Definition round_span (ts : TimeSpan) : res (float64 * TimeSpan) :=
  match ts_increments ts with
  | [] => Ok (f0, ts)
  | inc :: _ =>
      match inc_BalanceInfo inc with
      | None => Ok (f0, ts)
      | Some bi =>
          match di_Monetary bi with
          | None => Ok (f0, ts)
          | Some _ =>
              if feqb (inc_Cost inc) f0 then Ok (f0, ts)
              else
                let '(cost, ts) := CalculateCost ts in
                i ← deref (ts_RateInterval ts);
                r ← deref (ri_Rating i);
                let roundedCost := Round cost (rir_RoundingDecimals r) (rir_RoundingMethod r) in
                let correctionCost := fsub roundedCost cost in
                if negb (feqb correctionCost f0) then
                  let inc := mkIncrement 0 correctionCost (Some bi) 1 false in
                  let ts := ts_set_RoundIncrement ts (Some inc) in
                  Ok (correctionCost, ts_set_Cost ts (fadd (ts_Cost ts) correctionCost))
                else Ok (f0, ts)
          end
      end
  end.

(** The sum of the corrections; a span that is left out adds nothing. *)
Fixpoint correction_loop (tss : TimeSpans) (totalCorrectionCost : float64)
    : res (float64 * TimeSpans) :=
  match tss with
  | [] => Ok (totalCorrectionCost, [])
  | ts :: tss' =>
      '(c, ts') ← round_span ts;
      '(total, rest) ← correction_loop tss'
        (if feqb c f0 then totalCorrectionCost else fadd totalCorrectionCost c);
      Ok (total, ts' :: rest)
  end.

Definition CallCost_Round (cc : CallCost) : res CallCost :=
  match cc_Timespans cc with
  | [] => Ok cc
  | _ =>
      '(total, tss) ← correction_loop (cc_Timespans cc) f0;
      Ok (cc_set cc (fadd (cc_Cost cc) total) tss (cc_RatedUsage cc))
  end.
End costs.

Definition GetRoundIncrements (cc : CallCost) : Increments :=
  omap (λ ts, match ts_RoundIncrement ts with
              | Some inc => if negb (feqb (inc_Cost inc) f0) then Some inc else None
              | None => None
              end) (cc_Timespans cc).
