(* ===== verification/Rating.v ===== *)
(** * Rating a call

    The rating part of [engine/calldesc.go]: which rating infos apply to a call, how
    the call is cut into spans that one rate interval each can rate, and what it
    costs.  The debiting part (accounts, balances, refunds) is not modelled.

    Spans point to the rating info they are rated by and selecting intervals sorts
    that info in place, so the spans carry the position of their info in the
    descriptor while they are cut.  The loops whose length is not that of a list
    take a fuel; running out of it is the error [out_of_fuel], which the code never
    returns, and the termination theorems show how much is enough. *)
From S2P Require Import Prelude GoFloat FloatExact GoStrings GoTime CoreUtils RateInterval RatingPlan TimeSpans CallDescriptor RatingProfile CallCost.

Definition out_of_fuel : string := "out of fuel".
Definition ErrMaxRecursionDepth : string := "MAX_RECURSION_DEPTH".
Definition ErrRatingPlanNotFound : string := "RATING_PLAN_NOT_FOUND".
Definition ErrUnauthorizedDestination : string := "UNAUTHORIZED_DESTINATION".
Definition MAX_COST_FREE : string := "*free".

Section rating.
Context `{GoRuntime} `{RatingData}.

(** ** The rating infos of a call *)

(** Inserting into a slice by appending, copying and assigning. *)
Definition slice_insert {A} (l : list A) (i : nat) (x : A) : res (list A) :=
  if (i <=? length l)%nat then Ok (take i l ++ x :: drop i l) else Panic.

(** The infos of a fallback: a filled one replaces the info at [index] when it is
    the first, and is inserted after it otherwise. *)
Fixpoint fill_loop (index newIndex : nat) (news : RatingInfos) (ris : RatingInfos)
    : res RatingInfos :=
  match news with
  | [] => Ok ris
  | newRI :: news' =>
      match elems (rinf_RateIntervals newRI) with
      | [] => fill_loop index (S newIndex) news' ris
      | _ =>
          ris ← (if (newIndex =? 0)%nat then Ok (<[index := newRI]> ris)
                 else slice_insert ris (index + newIndex) newRI);
          fill_loop index (S newIndex) news' ris
      end
  end.

(** The period the info at [index] has to cover. *)
Definition gap_descriptor (cd : CallDescriptor) (index : nat) (ri : RatingInfo)
    : CallDescriptor :=
  let s := if (index =? 0)%nat then cd_TimeStart cd else rinf_ActivationTime ri in
  let e := match cd_RatingInfos cd !! S index with
           | Some next => rinf_ActivationTime next | None => cd_TimeEnd cd end in
  new_descriptor (cd_Category cd) (cd_Tenant cd) (cd_Destination cd) s e.

Section fallback.
(** The recursive call, one level deeper. *)
Context (rec : string → CallDescriptor → res (option string * Z * CallDescriptor)).

Fixpoint keys_loop (index : nat) (keys : list string) (tempCD : CallDescriptor)
    (ris : RatingInfos) : res RatingInfos :=
  match keys with
  | [] => Ok ris
  | fbk :: keys' =>
      '(err, _, tempCD) ← rec fbk tempCD;
      match err with
      | Some _ => keys_loop index keys' tempCD ris
      | None =>
          ris ← fill_loop index 0 (cd_RatingInfos tempCD) ris;
          if continousRatingInfos tempCD then Ok ris
          else keys_loop index keys' tempCD ris
      end
  end.

Fixpoint fallback_loop (fuel index : nat) (cd : CallDescriptor) : res CallDescriptor :=
  match cd_RatingInfos cd !! index with
  | None => Ok cd
  | Some ri =>
      match fuel with
      | O => Err out_of_fuel
      | S fuel' =>
          match elems (rinf_RateIntervals ri), rinf_FallbackKeys ri with
          | _ :: _, _ | [], [] => fallback_loop fuel' (S index) cd
          | [], keys =>
              ris ← keys_loop index keys (gap_descriptor cd index ri) (cd_RatingInfos cd);
              fallback_loop fuel' (S index) (cd_set_RatingInfos cd ris)
          end
      end
  end.
End fallback.

(** [levels] counts the recursive calls left, [RECURSION_MAX_DEPTH + 1 - depth].  The
    error is the first component, nil being [None]; an error of the profile itself is
    dropped by the code. *)
Fixpoint rating_plans_loop (fuel levels : nat) (key : string) (cd : CallDescriptor)
    : res (option string * Z * CallDescriptor) :=
  let recursionDepth := RECURSION_MAX_DEPTH + 1 - Z.of_nat levels in
  match levels with
  | O => Ok (Some ErrMaxRecursionDepth, recursionDepth, cd)
  | S levels' =>
      match RatingProfileSubjectPrefixMatching key with
      | Panic => Panic
      | Err _ | Ok None => Ok (Some ErrNotFound, recursionDepth, cd)
      | Ok (Some rpf) =>
          '(err, cd) ← GetRatingPlansForPrefix rpf cd;
          if bool_decide (is_Some err) || negb (continousRatingInfos cd) then
            cd ← fallback_loop (rating_plans_loop fuel levels') fuel 0 cd;
            Ok (None, recursionDepth + 1, cd)
          else Ok (None, recursionDepth, cd)
      end
  end.

Definition getRatingPlansForPrefix (fuel : nat) (key : string) (recursionDepth : Z)
    (cd : CallDescriptor) : res (option string * Z * CallDescriptor) :=
  if RECURSION_MAX_DEPTH <? recursionDepth then
    Ok (Some ErrMaxRecursionDepth, recursionDepth, cd)
  else rating_plans_loop fuel (Z.to_nat (RECURSION_MAX_DEPTH + 1 - recursionDepth)) key cd.

Definition LoadRatingPlans (fuel : nat) (cd : CallDescriptor)
    : res (option string * CallDescriptor) :=
  '(err, rec, cd) ← getRatingPlansForPrefix fuel (GetKey cd (cd_Subject cd)) 1 cd;
  '(err, cd) ←
    (if decide (err = Some ErrNotFound ∧ rec = 1) then
       '(err, _, cd) ← getRatingPlansForPrefix fuel (GetKey cd FALLBACK_SUBJECT) 1 cd;
       Ok (err, cd)
     else Ok (err, cd));
  match err with
  | Some _ => Ok (Some ErrRatingPlanNotFound, cd)
  | None =>
      if negb (continousRatingInfos cd) then Ok (Some ErrUnauthorizedDestination, cd)
      else Ok (None, cd)
  end.

(** ** Cutting the call into spans

    A span with the position of its rating info. *)
Definition RatedSpan : Type := TimeSpan * nat.

(** One rating info over all spans: the loop ends at the first span it does not cut;
    was there one? *)
Fixpoint plan_loop (fuel i : nat) (rp : RatingInfo) (timespans : list RatedSpan)
    : res (bool * list RatedSpan) :=
  match timespans !! i with
  | None => Ok (false, timespans)
  | Some (ts, k) =>
      match fuel with
      | O => Err out_of_fuel
      | S fuel' =>
          match SplitByRatingPlan ts rp with
          | (_, None) => Ok (true, timespans)
          | (ts, Some newTs) => plan_loop fuel' (S i) rp (<[i := (ts, k)]> timespans ++ [(newTs, k)])
          end
      end
  end.

(** The rating infos in order, [index] being the position of the first of them. *)
Fixpoint plans_loop (fuel : nat) (start : Time) (index : nat) (ris : RatingInfos)
    (afterStart afterEnd : bool) (timespans : list RatedSpan) : res (list RatedSpan) :=
  match ris with
  | [] => Ok timespans
  | rp :: ris' =>
      if negb afterStart && negb afterEnd && Before (rinf_ActivationTime rp) start then
        plans_loop fuel start (S index) ris' afterStart afterEnd
          (match timespans with
           | (ts, _) :: rest => (setRatingInfo ts rp, index) :: rest | [] => [] end)
      else
        '(stopped, timespans) ← plan_loop fuel 0 rp timespans;
        plans_loop fuel start (S index) ris' true (afterEnd || stopped) timespans
  end.

(** The new span of each cut is cut next. *)
Fixpoint day_loop (fuel : nat) (ts : TimeSpan) : res TimeSpans :=
  match SplitByDay ts with
  | (ts, None) => Ok [ts]
  | (ts, Some newTs) =>
      match fuel with
      | O => Err out_of_fuel
      | S fuel' => rest ← day_loop fuel' newTs; Ok (ts :: rest)
      end
  end.

Definition days_loop (fuel : nat) (timespans : list RatedSpan) : res (list RatedSpan) :=
  parts ← res_map (λ '(ts, k), l ← day_loop fuel ts; Ok (map (λ t, (t, k)) l)) timespans;
  Ok (concat parts).

(** One span over its intervals, until it is cut and has an interval: the span and
    the new spans in the order they end up in. *)
Fixpoint intervals_loop (data : bool) (rp : RatingInfo) (ts : TimeSpan)
    (rateIntervals : list RateInterval) : res (TimeSpan * TimeSpans) :=
  match rateIntervals with
  | [] => Ok (ts, [])
  | interval :: rest =>
      '(ts, newTs) ← SplitByRateInterval ts interval data;
      match newTs with
      | None => intervals_loop data rp ts rest
      | Some newTs =>
          let newTs := setRatingInfo newTs rp in
          match ts_RateInterval ts with
          | Some _ => Ok (ts, [newTs])
          | None => '(ts, news) ← intervals_loop data rp ts rest; Ok (ts, news ++ [newTs])
          end
      end
  end.

(** The rating info with its intervals as sorted. *)
Definition rinf_set_intervals (rp : RatingInfo) (l : list RateInterval) : RatingInfo :=
  mkRatingInfo (rinf_MatchedSubject rp) (rinf_RatingPlanId rp) (rinf_MatchedPrefix rp)
    (rinf_MatchedDestId rp) (rinf_ActivationTime rp)
    (match rinf_RateIntervals rp with Some _ => Some l | None => None end)
    (rinf_FallbackKeys rp).

Fixpoint spans_loop (fuel : nat) (data : bool) (ris : RatingInfos)
    (timespans : list RatedSpan) : res (list RatedSpan * RatingInfos) :=
  match timespans with
  | [] => Ok ([], ris)
  | (ts, k) :: rest =>
      match fuel with
      | O => Err out_of_fuel
      | S fuel' =>
          rp ← deref (ris !! k);
          '(rateIntervals, sorted) ← SelectRatingIntevalsForTimespan rp ts;
          let rp := rinf_set_intervals rp sorted in
          '(ts, news) ← intervals_loop data rp ts rateIntervals;
          '(done, ris) ← spans_loop fuel' data (<[k := rp]> ris)
                           (map (λ t, (t, k)) news ++ rest);
          Ok ((ts, k) :: done, ris)
      end
  end.

(** *** Rounding spans to their increments *)

Definition round_to_increment (ts : TimeSpan) : bool * TimeSpan :=
  match ts_RateInterval ts with
  | None => (false, ts)
  | Some i =>
      let '((_, rateIncrement, _), i') := GetRateParameters i (GetGroupStart ts) in
      let ts := ts_set_interval ts (Some i') in
      let rateIncrement :=
        if rateIncrement <? TimeSpan_GetDuration ts
        then RoundDuration rateIncrement (TimeSpan_GetDuration ts) else rateIncrement in
      if TimeSpan_GetDuration ts <? rateIncrement then
        let initialDuration := TimeSpan_GetDuration ts in
        let ts := ts_set_TimeEnd ts (Add (ts_TimeStart ts) rateIncrement) in
        (true, ts_set_DurationIndex ts
                 (add64 (ts_DurationIndex ts) (sub64 rateIncrement initialDuration)))
      else (false, ts)
  end.

(** The spans from position [length done] on; the list never grows, so its length is
    fuel enough. *)
Fixpoint round_loop (fuel : nat) (done todo : TimeSpans) : res TimeSpans :=
  match todo, fuel with
  | [], _ => Ok done
  | _ :: _, O => Err out_of_fuel
  | ts :: rest, S fuel' =>
      let '(extended, ts) := round_to_increment ts in
      if extended then
        all ← RemoveOverlapedFromIndex (done ++ ts :: rest) (length done);
        round_loop fuel' (take (S (length done)) all) (drop (S (length done)) all)
      else round_loop fuel' (done ++ [ts]) rest
  end.

Definition roundTimeSpansToIncrement (timespans : TimeSpans) : res TimeSpans :=
  round_loop (length timespans) [] timespans.

(** The spans point to the rating infos as they are at the end. *)
Definition attach (ris : RatingInfos) (s : RatedSpan) : TimeSpan :=
  match ris !! s.2 with Some rp => setRatingInfo s.1 rp | None => s.1 end.

Definition splitInTimeSpans (fuel : nat) (cd : CallDescriptor)
    : res (TimeSpans * CallDescriptor) :=
  let firstSpan :=
    ts_set_DurationIndex (new_span (cd_TimeStart cd) (cd_TimeEnd cd)) (cd_DurationIndex cd) in
  match cd_RatingInfos cd with
  | [] => Ok ([firstSpan], cd)
  | rp :: _ =>
      let timespans := [(setRatingInfo firstSpan rp, 0%nat)] in
      let voice := bool_decide (cd_ToR cd = VOICE) in
      timespans ←
        (if voice then
           timespans ← plans_loop fuel (cd_TimeStart cd) 0 (cd_RatingInfos cd) false false
                         timespans;
           days_loop fuel timespans
         else Ok timespans);
      '(timespans, ris) ← spans_loop fuel (negb voice) (cd_RatingInfos cd) timespans;
      timespans ← roundTimeSpansToIncrement (attach ris <$> timespans);
      Ok (timespans, cd_set_RatingInfos cd ris)
  end.

(** ** Cost *)

(** The connect fee of the first span of the first request. *)
Definition connect_fee (cd : CallDescriptor) (i : nat) (ts : TimeSpan) : res (option float64) :=
  if feqb (cd_LoopIndex cd) f0 && (i =? 0)%nat then
    rating ← rating_of ts;
    Ok (match rating with Some r => Some (rir_ConnectFee r) | None => None end)
  else Ok None.

Fixpoint cost_loop (maxIncrements : Z) (cd : CallDescriptor) (i : nat) (tss : TimeSpans)
    (cost : float64) : res (float64 * TimeSpans) :=
  match tss with
  | [] => Ok (cost, [])
  | ts :: tss' =>
      ts ← createIncrementsSlice maxIncrements ts;
      fee ← connect_fee cd i ts;
      let cost := match fee with Some f => fadd cost f | None => cost end in
      let '(c, ts) := CalculateCost ts in
      '(cost, rest) ← cost_loop maxIncrements cd (S i) tss' (fadd cost c);
      Ok (cost, ts :: rest)
  end.

Context (maxIncrements : Z) (fuel : nat).

(** The call cost, the error and the descriptor afterwards. *)
Definition getCost (cd : CallDescriptor) : res (CallCost * option string * CallDescriptor) :=
  if CallDescriptor_GetDuration cd =? 0 then
    let cc := CreateCallCost cd in
    '(err, cd) ← LoadRatingPlans fuel cd;
    match err, cd_RatingInfos cd with
    | None, ri :: _ =>
        let ts := setRatingInfo (new_span (cd_TimeStart cd) (cd_TimeEnd cd)) ri in
        Ok (cc_set_Timespans cc (cc_Timespans cc ++ [ts]), None, cd)
    | _, _ => Ok (cc, None, cd)
    end
  else
    let d := Sub (cd_TimeEnd cd) (cd_TimeStart cd) in
    let cd := cd_set_rated cd (if cd_DurationIndex cd <? d then d else cd_DurationIndex cd)
                (if decide (cd_ToR cd = "") then VOICE else cd_ToR cd) (cd_MaxCostSoFar cd) in
    '(err, cd) ← LoadRatingPlans fuel cd;
    match err with
    | Some e => Ok (cost_only (f_of_Z (-1)), Some e, cd)
    | None =>
        '(timespans, cd) ← splitInTimeSpans fuel cd;
        '(cost, timespans) ← cost_loop maxIncrements cd 0 timespans f0;
        let cc := cc_set_Timespans (cc_set_Cost (CreateCallCost cd) cost) timespans in
        '(roundingDecimals, roundingMethod) ← GetLongestRounding cc;
        let cc := cc_set_Cost cc (Round (cc_Cost cc) roundingDecimals roundingMethod) in
        tss ← TimeSpans_Compress (cc_Timespans cc);
        let cc := cc_set_Timespans cc tss in
        Ok (default cc (UpdateRatedUsage (Some cc)).2, None, cd)
    end.

(** The increment of the connect fee. *)
Definition fee_increment (fee : float64) : Increment :=
  mkIncrement 0 fee (Some (mkDebitInfo None None "")) 1 false.

(** One span of [GetCost]: the span, the cost and the maximum cost so far.  A span
    without an interval panics. *)
Definition max_cost_step (cd : CallDescriptor) (i : nat) (ts : TimeSpan)
    (cost maxCostSoFar : float64) : res (TimeSpan * float64 * float64) :=
  fee ← connect_fee cd i ts;
  let ts := match fee with
            | Some f =>
                let ts := ts_set_Increments ts (Some (fee_increment f :: ts_increments ts)) in
                ts_set_Cost ts (fadd (ts_Cost ts) f)
            | None => ts end in
  interval ← deref (ts_RateInterval ts);
  let '(maxCost, strategy) := GetMaxCost interval in
  let '(c, ts) := CalculateCost ts in
  let ts := ts_set_Cost ts c in
  let cost := fadd cost (ts_Cost ts) in
  let maxCostSoFar := fadd maxCostSoFar cost in
  if negb (bool_decide (strategy = "")) && fgtb maxCost f0 &&
     bool_decide (strategy = MAX_COST_FREE) && fgeb maxCostSoFar maxCost
  then Ok (ts, maxCost, maxCost)
  else Ok (ts, cost, maxCostSoFar).

Fixpoint max_cost_loop (cd : CallDescriptor) (i : nat) (tss : TimeSpans)
    (cost maxCostSoFar : float64) : res (TimeSpans * float64 * float64) :=
  match tss with
  | [] => Ok ([], cost, maxCostSoFar)
  | ts :: tss' =>
      '(ts, cost, maxCostSoFar) ← max_cost_step cd i ts cost maxCostSoFar;
      '(rest, cost, maxCostSoFar) ← max_cost_loop cd (S i) tss' cost maxCostSoFar;
      Ok (ts :: rest, cost, maxCostSoFar)
  end.

Definition GetCost (cd : CallDescriptor) : res (CallCost * option string * CallDescriptor) :=
  '(cc, err, cd) ← getCost cd;
  match err with
  | Some e => Ok (cc, Some e, cd)
  | None =>
      if CallDescriptor_GetDuration cd =? 0 then Ok (cc, None, cd)
      else
        '(tss, cost, maxCostSoFar) ←
          max_cost_loop cd 0 (cc_Timespans cc) f0 (cd_MaxCostSoFar cd);
        let cd := cd_set_rated cd (cd_DurationIndex cd) (cd_ToR cd) maxCostSoFar in
        let cc := cc_set_Cost (cc_set_Timespans cc tss) cost in
        '(roundingDecimals, roundingMethod) ← GetLongestRounding cc;
        Ok (cc_set_Cost cc (Round (cc_Cost cc) roundingDecimals roundingMethod), None, cd)
  end.
End rating.
