(* ===== verification/RatingLookup.v ===== *)
(** * Termination of the rating plan lookup

    The lookup of [Rating.v] follows fallback subjects recursively and inserts rating
    infos into the slice it iterates over.  It comes to an end on every database,
    cycles of fallback subjects included: the depth of the recursion is bounded, and
    an iteration only inserts infos that have intervals, which are skipped later. *)
From S2P Require Import Prelude GoStrings CoreUtils RateInterval RatingPlan TimeSpans CallDescriptor RatingProfile Rating.

(** A result that is not an error, that is a value or a panic. *)
Definition no_error {A} (r : res A) : Prop := ∀ e, r ≠ Err e.

(** With enough fuel the result is always the same, and not an error. *)
Definition settles {A} (f : nat → res A) : Prop :=
  ∃ n r, no_error r ∧ ∀ m, (n ≤ m)%nat → f m = r.

Lemma no_error_ok {A} (a : A) : no_error (Ok a).
Proof. by intros e. Qed.
Lemma no_error_panic {A} : no_error (@Panic A).
Proof. by intros e. Qed.
Lemma no_error_bind {A B} (m : res A) (f : A → res B) :
  no_error m → (∀ a, no_error (f a)) → no_error (m ≫= f).
Proof. intros Hm Hf e. destruct m; [apply Hf|by destruct (Hm e0)|done]. Qed.
Lemma no_error_deref {A} (p : option A) : no_error (deref p).
Proof. by destruct p. Qed.
Lemma no_error_index {A} (l : list A) i : no_error (index l i).
Proof. unfold index. case_decide; [apply no_error_deref|done]. Qed.
Lemma no_error_map {A B} (f : A → res B) l : (∀ a, no_error (f a)) → no_error (res_map f l).
Proof.
  intros Hf. induction l as [|x l IH]; simpl; [done|].
  apply no_error_bind; [done|]. intros y. by apply no_error_bind.
Qed.
Lemma no_error_existsb {A} (f : A → res bool) l :
  (∀ a, no_error (f a)) → no_error (res_existsb f l).
Proof.
  intros Hf. induction l as [|x l IH]; simpl; [done|].
  apply no_error_bind; [done|]. by intros [].
Qed.
Create HintDb errors.
#[export] Hint Resolve no_error_ok no_error_panic no_error_bind no_error_deref
  no_error_index no_error_map no_error_existsb : errors.

(** Splits on what a result is computed from until a hint applies. *)
Ltac no_errors :=
  repeat (intros; match goal with
  | |- no_error (match ?x with _ => _ end) => destruct x
  | |- _ => progress auto with errors
  | |- no_error (_ ≫= _) => apply no_error_bind
  end).

Lemma settles_const {A} (r : res A) : no_error r → settles (λ _, r).
Proof. intros Hr. by exists 0%nat, r. Qed.

Lemma settles_bind {A B} (f : nat → res A) (g : nat → A → res B) :
  settles f → (∀ a, settles (λ n, g n a)) → settles (λ n, f n ≫= g n).
Proof.
  intros (n & r & Hr & Hf) Hg. destruct r as [a|e|]; [|by destruct (Hr e)|].
  - destruct (Hg a) as (n' & r & Hr' & Hg'). exists (max n n'), r. split; [done|].
    intros m Hm. rewrite Hf by lia. apply Hg'. lia.
  - exists n, Panic. split; [done|]. intros m Hm. by rewrite Hf.
Qed.

(** ** The parts that need no fuel *)

Lemma clock_parts_no_error s : no_error (clock_parts s).
Proof. unfold clock_parts. no_errors. Qed.
#[export] Hint Resolve clock_parts_no_error : errors.

Lemma IsActiveAt_no_error rit t : no_error (IsActiveAt rit t).
Proof. unfold IsActiveAt, getLeftMargin, getRightMargin. no_errors. Qed.
#[export] Hint Resolve IsActiveAt_no_error : errors.

Lemma SplitPrefix_no_error s n : no_error (SplitPrefix s n).
Proof. apply no_error_map. intros i. unfold slice. no_errors. Qed.
#[export] Hint Resolve SplitPrefix_no_error : errors.

Section lookup.
Context `{GoRuntime} `{RatingData}.

Lemma dest_loop_no_error rpl t ids best : no_error (dest_loop rpl t ids best).
Proof.
  revert best. induction ids as [|d ids IH]; intros best; simpl; [done|].
  no_errors.
Qed.

Lemma prefix_loop_no_error rpl t ps : no_error (prefix_loop rpl t ps).
Proof.
  induction ps as [|p ps IH]; simpl; [done|].
  destruct (dm_GetReverseDestination p); [|done..].
  apply no_error_bind; [apply dest_loop_no_error|]. by intros [[[]]|].
Qed.

Lemma activation_infos_no_error id i rpa rpl cd :
  no_error (activation_infos id i rpa rpl cd).
Proof.
  unfold activation_infos, plan_intervals.
  apply no_error_bind; [|no_errors]. case_decide; [done|].
  apply no_error_bind; [auto with errors|]. intros ps.
  apply no_error_bind; [apply prefix_loop_no_error|done].
Qed.

Lemma activations_loop_no_error id i rpas cd ris :
  no_error (activations_loop id i rpas cd ris).
Proof.
  revert i cd ris. induction rpas as [|rpa rpas IH]; intros i cd ris; simpl; [done|].
  destruct (dm_GetRatingPlan _) as [[rpl|]| |]; [|done..].
  apply no_error_bind; [apply activation_infos_no_error|]. by intros [].
Qed.

Lemma GetRatingPlansForPrefix_no_error rpf cd : no_error (GetRatingPlansForPrefix rpf cd).
Proof.
  unfold GetRatingPlansForPrefix. apply no_error_bind; [apply activations_loop_no_error|].
  intros [[|ri ris] cd']; [done|]. unfold addRatingInfos. no_errors.
Qed.

(** ** Filling the gaps *)

Abbreviation filled ri := (elems (rinf_RateIntervals ri) ≠ []).
Definition unfilled (ris : list RatingInfo) : nat :=
  length (filter (λ ri, elems (rinf_RateIntervals ri) = []) ris).

Lemma unfilled_cons ri ris : (unfilled ris ≤ unfilled (ri :: ris))%nat.
Proof. unfold unfilled. rewrite filter_cons. case_decide; simpl; lia. Qed.
Lemma unfilled_empty ri ris :
  elems (rinf_RateIntervals ri) = [] → unfilled (ri :: ris) = S (unfilled ris).
Proof. intros E. unfold unfilled. by rewrite filter_cons_True. Qed.
Lemma unfilled_insert ri l1 l2 : filled ri → unfilled (l1 ++ ri :: l2) = unfilled (l1 ++ l2).
Proof. intros E. unfold unfilled. by rewrite !filter_app, filter_cons_False. Qed.

(** The infos after [index] without intervals do not become more. *)
Lemma fill_loop_settles index news : ∀ newIndex ris,
  (index < length ris)%nat →
  fill_loop index newIndex news ris = Panic ∨
  ∃ ris', fill_loop index newIndex news ris = Ok ris' ∧ (length ris ≤ length ris')%nat ∧
    (unfilled (drop (S index) ris') ≤ unfilled (drop (S index) ris))%nat.
Proof.
  induction news as [|ri news IH]; intros newIndex ris Hi; simpl; [right; by exists ris|].
  destruct (elems (rinf_RateIntervals ri)) as [|x l] eqn:E; [by apply IH|].
  assert (filled ri) as Hf by (by rewrite E). case_match eqn:En; simpl.
  - destruct (IH (S newIndex) (<[index:=ri]> ris)) as [Hp|(ris' & Er & Hl & Hu)];
      [by rewrite length_insert|by left|right].
    rewrite length_insert in Hl. rewrite drop_insert_lt in Hu by lia. eauto.
  - unfold slice_insert. case_match eqn:El; simpl; [|by left].
    apply Nat.leb_le in El. apply Nat.eqb_neq in En.
    destruct (IH (S newIndex) (take (index + newIndex) ris ++ ri :: drop (index + newIndex) ris))
      as [Hp|(ris' & Er & Hl & Hu)]; [rewrite length_app, length_take; simpl; lia|by left|right].
    rewrite length_app, length_take in Hl. simpl in Hl. rewrite length_drop in Hl.
    rewrite drop_app_le, unfilled_insert, <- drop_app_le, take_drop in Hu
      by (done || (rewrite length_take; lia)).
    exists ris'. split_and!; [done|lia|done].
Qed.

Section rec.
Context (rec : nat → string → CallDescriptor → res (option string * Z * CallDescriptor)).
Context (Hrec : ∀ key cd, settles (λ n, rec n key cd)).

Lemma keys_loop_settles index keys : ∀ tempCD ris, (index < length ris)%nat →
  ∃ n r, no_error r ∧ (∀ m, (n ≤ m)%nat → keys_loop (rec m) index keys tempCD ris = r) ∧
    ∀ ris', r = Ok ris' → (unfilled (drop (S index) ris') ≤ unfilled (drop (S index) ris))%nat.
Proof.
  induction keys as [|k keys IH]; intros tempCD ris Hi; simpl.
  { exists 0%nat, (Ok ris). split_and!; [done..|]. by intros ris' [= <-]. }
  destruct (Hrec k tempCD) as (n & r & Hr & Hn).
  destruct r as [[[err d] cd']|e|]; [|by destruct (Hr e)|].
  2:{ exists n, Panic. split_and!; [done| |done]. intros m Hm. by rewrite Hn. }
  destruct err as [err|].
  - destruct (IH cd' ris Hi) as (n' & r & Hr' & Hn' & Hu). exists (max n n'), r.
    split_and!; [done| |done]. intros m Hm. rewrite Hn by lia. apply Hn'. lia.
  - destruct (fill_loop_settles index (cd_RatingInfos cd') 0 ris Hi)
      as [Ep|(ris1 & Eo & Hl & Hu)].
    { exists n, Panic. split_and!; [done| |done]. intros m Hm. rewrite Hn by lia. simpl.
      by rewrite Ep. }
    destruct (continousRatingInfos cd') eqn:Ec.
    + exists n, (Ok ris1). split_and!; [done| |by intros ris' [= <-]].
      intros m Hm. rewrite Hn by lia. simpl. rewrite Eo. simpl. by rewrite Ec.
    + destruct (IH cd' ris1 ltac:(lia)) as (n' & r & Hr' & Hn' & Hu'). exists (max n n'), r.
      split_and!; [done| |intros ris' E; specialize (Hu' ris' E); lia].
      intros m Hm. rewrite Hn by lia. simpl. rewrite Eo. simpl. rewrite Ec. apply Hn'. lia.
Qed.

(** Fuel for the loop and fuel for the recursive calls. *)
Lemma fallback_loop_settles : ∀ u len index cd,
  (unfilled (drop index (cd_RatingInfos cd)) ≤ u)%nat →
  (length (cd_RatingInfos cd) - index ≤ len)%nat →
  ∃ n r, no_error r ∧
    ∀ m fuel, (n ≤ m)%nat → (n ≤ fuel)%nat → fallback_loop (rec m) fuel index cd = r.
Proof.
  intros u. induction u as [u IHu] using lt_wf_ind.
  intros len. induction len as [len IHl] using lt_wf_ind. intros index cd Hu Hl.
  destruct (cd_RatingInfos cd !! index) as [ri|] eqn:Ei.
  2:{ exists 0%nat, (Ok cd). split; [done|]. intros m [|fuel] _ _; simpl; by rewrite Ei. }
  pose proof (lookup_lt_Some _ _ _ Ei) as Hlt. rewrite (drop_S _ _ _ Ei) in Hu.
  assert (∀ cd', (unfilled (drop (S index) (cd_RatingInfos cd')) < u)%nat ∨ cd' = cd →
    ∃ n r, no_error r ∧ ∀ m fuel, (n ≤ m)%nat → (n ≤ fuel)%nat →
      fallback_loop (rec m) fuel (S index) cd' = r) as Hnext.
  { intros cd' [Hu' | ->]; [by eapply (IHu _ Hu')|].
    apply (IHl (length (cd_RatingInfos cd) - S index)%nat); [lia| |done].
    pose proof (unfilled_cons ri (drop (S index) (cd_RatingInfos cd))). lia. }
  assert (∃ n r, no_error r ∧ ∀ m fuel, (n ≤ m)%nat → (n ≤ fuel)%nat →
      fallback_loop (rec m) fuel (S index) cd = r) as (n & r & Hr & Hn) by (by apply Hnext; right).
  destruct (elems (rinf_RateIntervals ri)) as [|x l] eqn:E.
  2:{ exists (S n), r. split; [done|]. intros m [|fuel] Hm Hf; [lia|]. simpl.
      rewrite Ei, E. apply Hn; lia. }
  destruct (rinf_FallbackKeys ri) as [|k keys] eqn:Ek.
  { exists (S n), r. split; [done|]. intros m [|fuel] Hm Hf; [lia|]. simpl.
    rewrite Ei, E, Ek. apply Hn; lia. }
  clear n r Hr Hn.
  destruct (keys_loop_settles index (k :: keys) (gap_descriptor cd index ri) _ Hlt)
    as (n1 & r1 & Hr1 & Hn1 & Hu1).
  destruct r1 as [ris|e|]; [|by destruct (Hr1 e)|].
  - rewrite unfilled_empty in Hu by done. specialize (Hu1 ris eq_refl).
    destruct (Hnext (cd_set_RatingInfos cd ris)) as (n & r & Hr & Hn); [left; simpl; lia|].
    exists (max n1 (S n)), r. split; [done|]. intros m [|fuel] Hm Hf; [lia|]. cbn [fallback_loop].
    rewrite Ei, E, Ek, Hn1 by lia. simpl. apply Hn; lia.
  - exists (S n1), Panic. split; [done|]. intros m [|fuel] Hm Hf; [lia|]. cbn [fallback_loop].
    rewrite Ei, E, Ek, Hn1 by lia. done.
Qed.
End rec.

Lemma rating_plans_loop_settles levels : ∀ key cd,
  settles (λ fuel, rating_plans_loop fuel levels key cd).
Proof.
  induction levels as [|levels IH]; intros key cd; simpl; [by apply settles_const|].
  destruct (RatingProfileSubjectPrefixMatching key) as [[rpf|]| |]; [|by apply settles_const..].
  apply settles_bind; [apply settles_const, GetRatingPlansForPrefix_no_error|].
  intros [err cd']. case_match; [|by apply settles_const].
  destruct (fallback_loop_settles (λ n, rating_plans_loop n levels) IH _ _ 0 cd'
              (le_n _) (le_n _)) as (n & r & Hr & Hn).
  apply settles_bind; [|intros; by apply settles_const]. exists n, r. split; [done|].
  intros m Hm. by apply Hn.
Qed.

(** C2: the rating plans of a call are found, or found missing, in finitely many steps
    whatever the rating profiles say, fallback subjects that refer to each other
    included: enough fuel makes no difference any more, and the lookup never reports
    to have run out of it. *)
Theorem LoadRatingPlans_terminates (cd : CallDescriptor) :
  ∃ n r, (∀ e, r ≠ Err e) ∧ ∀ fuel, (n ≤ fuel)%nat → LoadRatingPlans fuel cd = r.
Proof.
  assert (∀ key, settles (λ fuel, getRatingPlansForPrefix fuel key 1 cd)) as Hs
    by (intros; apply rating_plans_loop_settles).
  change (settles (λ fuel, LoadRatingPlans fuel cd)). unfold LoadRatingPlans.
  apply settles_bind; [apply Hs|]. intros [[err rec] cd'].
  apply settles_bind; [|intros [[] ?]; apply settles_const; [done|by case_match]].
  case_decide; [|by apply settles_const].
  apply settles_bind; [apply rating_plans_loop_settles|].
  intros [[] ?]; by apply settles_const.
Qed.
End lookup.
