(* ===== verification/Cutting.v ===== *)
(** * Cutting a call into spans: correctness

    The theory of [splitInTimeSpans] (Rating): every loop that cuts terminates, and
    what it leaves covers the call, span after span, without gaps or overlaps.  The
    statements are about contiguous chains of spans (TimeSpans); the side conditions
    that later cuts need are collected in [good]. *)
From S2P Require Import Prelude GoFloat FloatExact GoStrings GoTime CoreUtils RateInterval RatingPlan TimeSpans CallDescriptor RatingProfile CallCost Rating.

(** The spans follow one another from [s] to [e]. *)
Definition covers (s e : Z) (l : TimeSpans) : Prop := chain s l ∧ end_of s l = e.

Lemma chain_app s l1 l2 : chain s (l1 ++ l2) ↔ chain s l1 ∧ chain (end_of s l1) l2.
Proof.
  revert s. induction l1 as [|x l1 IH]; intros s; simpl; [tauto|].
  rewrite IH. tauto.
Qed.

Lemma end_of_app s l1 l2 : end_of s (l1 ++ l2) = end_of (end_of s l1) l2.
Proof. revert s. induction l1 as [|x l1 IH]; intros s; simpl; [done|apply IH]. Qed.

Lemma covers_app s m e l1 l2 : covers s m l1 → covers m e l2 → covers s e (l1 ++ l2).
Proof.
  intros [H1 E1] [H2 E2]. split; [rewrite chain_app, E1; done|]. by rewrite end_of_app, E1.
Qed.

Lemma covers_nil s : covers s s [].
Proof. done. Qed.

Lemma covers_single ts :
  t_ns (ts_TimeStart ts) < t_ns (ts_TimeEnd ts) →
  covers (t_ns (ts_TimeStart ts)) (t_ns (ts_TimeEnd ts)) [ts].
Proof. intros H. split; simpl; done. Qed.

Lemma covers_cons_inv s e x l : covers s e (x :: l) →
  t_ns (ts_TimeStart x) = s ∧ s < t_ns (ts_TimeEnd x) ∧ covers (t_ns (ts_TimeEnd x)) e l.
Proof. intros [(H1 & H2 & H3) E]. done. Qed.

Lemma covers_cons x e l : t_ns (ts_TimeStart x) < t_ns (ts_TimeEnd x) →
  covers (t_ns (ts_TimeEnd x)) e l → covers (t_ns (ts_TimeStart x)) e (x :: l).
Proof. intros H [H1 E]. split; simpl; done. Qed.

Lemma covers_le s e l : covers s e l → s ≤ e.
Proof. intros [H <-]. by apply chain_end. Qed.

(** The spans of a call in the location [loc], numbered so that the index of a span is
    [K] after its end; their instants are whole seconds. *)
Record good (loc : Location) (K : Z) (x : TimeSpan) : Prop := {
  g_ok : span_ok x;
  g_lt : t_ns (ts_TimeStart x) < t_ns (ts_TimeEnd x);
  g_start : t_loc (ts_TimeStart x) = loc;
  g_end : t_loc (ts_TimeEnd x) = loc;
  g_index : ts_DurationIndex x - t_ns (ts_TimeEnd x) = K;
  g_own : own_timed x;
  g_whole : whole_span x
}.

Lemma good_times loc K x y :
  ts_TimeStart y = ts_TimeStart x → ts_TimeEnd y = ts_TimeEnd x →
  ts_DurationIndex y = ts_DurationIndex x → own_timed y → good loc K x → good loc K y.
Proof.
  intros E1 E2 E3 Ho [[O1 O2] ? ? ? ? ? (W1 & W2 & W3)].
  split; rewrite ?E1, ?E2, ?E3; try done; split; rewrite ?E1, ?E2, ?E3; done.
Qed.

Lemma good_setRatingInfo loc K x rp : good loc K x → good loc K (setRatingInfo x rp).
Proof. intros H. apply (good_times loc K x); try done. exact (g_own _ _ _ H). Qed.

(** Both sides of a cut on a whole second. *)
Lemma splits_good loc K ts ts1 ts2 :
  good loc K ts → splits ts ts1 ts2 → span_ok ts1 → span_ok ts2 →
  own_timed ts1 → own_timed ts2 → (Second | t_ns (ts_TimeStart ts2)) →
  good loc K ts1 ∧ good loc K ts2 ∧
  covers (t_ns (ts_TimeStart ts)) (t_ns (ts_TimeEnd ts)) [ts1; ts2].
Proof.
  intros [Hok Hlt Hl1 Hl2 Hi Ho (W1 & W2 & W3)] [E1 E2 E3 Hin Hloc _ Hge _ Hgm] Hok1 Hok2 Ho1 Ho2 Hw.
  unfold GetGroupEnd in Hge, Hgm. rewrite (span_group_start _ Hok2), E3 in Hgm.
  rewrite E2 in Hin, Hloc. split_and!.
  - split; rewrite ?E1, ?E2; try done; [lia|congruence|lia|].
    split; [by rewrite E1|]. split; [by rewrite E2|]. rewrite Hgm, Hge.
    apply Z.divide_sub_r; [done|]. by apply Z.divide_sub_r.
  - split; rewrite ?E3; try done; [lia|congruence|lia|].
    split; [done|]. split; [by rewrite E3|by rewrite Hge].
  - split; simpl; rewrite ?E1, ?E2, ?E3; [|done]. split_and!; [done|lia|done|lia|done].
Qed.

Lemma whole_distance a b : (Second | a) → (Second | b) → a < b → a + Second ≤ b.
Proof. intros [x ->] [y ->]. unfold Second. lia. Qed.

(** ** Rating plans *)

(** What the rating plan stage keeps: one span, or two of which the first ends at or
    before every activation still to come. *)
Definition planned (rest : RatingInfos) (afterStart : bool) (l : list RatedSpan) : Prop :=
  (∃ x k, l = [(x, k)]) ∨
  (∃ x y k, l = [(x, k); (y, k)] ∧ afterStart = true ∧
     Forall (λ rp, t_ns (ts_TimeEnd x) ≤ t_ns (rinf_ActivationTime rp)) rest).

(** Every span refers to a rating info, and all are good and in order. *)
Definition rated_spans (loc : Location) (K s e : Z) (n : nat) (l : list RatedSpan) : Prop :=
  covers s e l.*1 ∧ Forall (λ x, good loc K x.1 ∧ (x.2 < n)%nat) l.

(** The instants that end the spans satisfy [P]. *)
Definition ends (P : Time → Prop) (l : list RatedSpan) : Prop :=
  Forall (λ x, P (ts_TimeEnd x.1)) l.

Lemma plan_loop_ok P loc K s e n fuel rp rest afterStart l :
  (2 ≤ fuel)%nat → ends P l → P (In_loc (rinf_ActivationTime rp) loc) → rated_spans loc K s e n l → planned (rp :: rest) afterStart l →
  (Second | t_ns (rinf_ActivationTime rp)) →
  Forall (λ r, t_ns (rinf_ActivationTime rp) ≤ t_ns (rinf_ActivationTime r)) rest →
  ∃ l', plan_loop fuel 0 rp l = Ok (true, l') ∧ rated_spans loc K s e n l' ∧
    planned rest true l' ∧ ends P l'.
Proof.
  intros Hf HP HPa [Hc Hg] Hp Hw Hsorted. destruct fuel as [|[|fuel]]; [lia|lia|].
  destruct Hp as [(x & k & ->)|(x & y & k & -> & Has & Hr)]; simpl.
  - pose proof Hg as [[Hx Hk] _]%Forall_cons. simpl in Hx, Hk.
    pose proof (SplitByRatingPlan_ok x rp (g_ok _ _ _ Hx)) as Hsp.
    destruct (SplitByRatingPlan x rp) as [ts1 [ts2|]].
    + destruct Hsp as (Hs & Ho1 & Ho2 & Ea & Er1 & Er2).
      assert (own_timed ts1) as Ht1 by (intros own; rewrite Er1; apply (g_own _ _ _ Hx)).
      assert (own_timed ts2) as Ht2 by (intros own; rewrite Er2; discriminate).
      destruct (splits_good loc K x ts1 ts2) as (G1 & G2 & Hcov); try done; [by rewrite Ea|].
      assert (SplitByRatingPlan ts2 rp = (ts2, None)) as ->.
      { unfold SplitByRatingPlan, TimeSpan_Contains, After. simpl. rewrite Ea.
        by rewrite Z.ltb_irrefl. }
      assert (ts_TimeEnd ts1 = In_loc (rinf_ActivationTime rp) loc) as Eend.
      { rewrite (sp_meet _ _ _ Hs). pose proof (g_start _ _ _ G2) as El.
        destruct (ts_TimeStart ts2). simpl in *. by subst. }
      eexists. split; [done|]. split; [|split].
      * destruct Hc as [(Hcs & _) He]. simpl in Hcs, He. split; [by rewrite <- Hcs, <- He|].
        do 2 (apply Forall_cons; split; [done|]). done.
      * right. exists ts1, ts2, k. split; [done|]. split; [done|].
        rewrite (sp_meet _ _ _ Hs), Ea. done.
      * apply Forall_cons in HP as [HP _]. apply Forall_cons. rewrite <- Eend in HPa.
        split; [done|]. apply Forall_cons. split; [|done]. simpl.
        by rewrite (sp_end _ _ _ Hs).
    + eexists. split; [done|]. split; [done|]. split; [left; eauto|done].
  - pose proof Hg as [[Hx _] _]%Forall_cons. simpl in Hx. apply Forall_cons in Hr as [Hr1 Hr].
    pose proof (SplitByRatingPlan_ok x rp (g_ok _ _ _ Hx)) as Hsp.
    destruct (SplitByRatingPlan x rp) as [ts1 [ts2|]].
    + destruct Hsp as (Hs & _ & _ & Ea & _).
      pose proof (sp_inside _ _ _ Hs) as Hin. rewrite (sp_meet _ _ _ Hs), Ea in Hin. lia.
    + eexists. split; [done|]. split; [done|]. split; [|done]. right. by exists x, y, k.
Qed.

(** The rating infos in the order of their activation, on whole seconds. *)
Definition activations_ok (ris : RatingInfos) : Prop :=
  StronglySorted (λ a b, t_ns (rinf_ActivationTime a) ≤ t_ns (rinf_ActivationTime b)) ris ∧
  Forall (λ rp, (Second | t_ns (rinf_ActivationTime rp))) ris.

Lemma plans_loop_ok (P : Time → Prop) loc K s e n fuel start index ris afterStart afterEnd l :
  (2 ≤ fuel)%nat → ends P l → Forall (λ rp, P (In_loc (rinf_ActivationTime rp) loc)) ris →
  rated_spans loc K s e n l → planned ris afterStart l →
  activations_ok ris → (index + length ris ≤ n)%nat →
  ∃ l', plans_loop fuel start index ris afterStart afterEnd l = Ok l' ∧
    rated_spans loc K s e n l' ∧ ends P l'.
Proof.
  intros Hf. revert index afterStart afterEnd l.
  induction ris as [|rp ris IH]; intros index afterStart afterEnd l HP HPr Hr Hp [Hs Hw] Hn;
    simpl; [by eexists|]. apply Forall_cons in HPr as [HPr1 HPr].
  apply StronglySorted_inv in Hs as [Hs Hall]. apply Forall_cons in Hw as [Hw1 Hw].
  simpl in Hn. destruct (_ && _) eqn:Eb.
  - apply IH; [| done| | |done|lia].
    + destruct l as [|[x k] l]; [done|]. by apply Forall_cons in HP as [HP1 HP2]; apply Forall_cons.
    + destruct Hp as [(x & k & ->)|(x & y & k & -> & -> & _)]; [|simpl in Eb; discriminate].
      destruct Hr as [Hc Hg]. split; [exact Hc|]. apply Forall_cons in Hg as [[Hg _] _].
      apply Forall_cons. split; [|done]. split; [by apply good_setRatingInfo|simpl; lia].
    + left. destruct Hp as [(x & k & ->)|(x & y & k & -> & -> & _)];
        [by eexists _, _|simpl in Eb; discriminate].
  - destruct (plan_loop_ok P loc K s e n fuel rp ris afterStart l) as (l' & -> & Hr' & Hp' & HP');
      [done..|]. simpl. by apply IH; [..|lia].
Qed.

(** ** Days *)

(** An instant that ends a span safely for the cut by day: at most a day after the
    start of the call, or not at midnight. *)
Definition day_safe (s : Z) (t : Time) : Prop :=
  sec_of_day t ≠ 0 ∨ t_ns t ≤ s + 86400 * Second.

Lemma midnight_mono t u : fixed (t_loc t) → t_loc u = t_loc t → t_ns t ≤ t_ns u →
  day_number t ≤ day_number u.
Proof.
  intros Hf Hl Hle. unfold day_number. rewrite !fixed_local_sec by (by rewrite ?Hl).
  rewrite Hl. apply Z.div_le_mono; [done|]. apply Z.add_le_mono_r.
  by apply Z.div_le_mono.
Qed.

(** A span that the cut by day leaves alone is on one day. *)
Lemma uncut_one_day loc K x :
  fixed loc → good loc K x → t_ns (ts_TimeEnd x) - t_ns (ts_TimeStart x) < 27 * 86400 * Second →
  day_safe (t_ns (ts_TimeStart x)) (ts_TimeEnd x) →
  Day (ts_TimeStart x) = Day (ts_TimeEnd x) ∨ sec_of_day (ts_TimeEnd x) = 0 →
  one_day x.
Proof.
  intros Hf [Hok Hlt Hl1 Hl2 _ _ (W1 & W2 & _)] Hlong Hsafe Hd.
  pose proof (whole_distance _ _ W1 W2 Hlt) as Hsec.
  set (s := ts_TimeStart x) in *. set (e := ts_TimeEnd x) in *.
  assert (fixed (t_loc s)) as Hfs by (by rewrite Hl1).
  assert (t_loc e = t_loc s) as Hle by congruence.
  pose proof (fixed_t_ns s Hfs) as Es. pose proof (fixed_t_ns e ltac:(by rewrite Hle)) as Ee.
  pose proof (sec_of_day_range s). pose proof (sec_of_day_range e).
  pose proof (TNanosecond_range s). pose proof (TNanosecond_range e).
  pose proof (midnight_mono s e Hfs Hle ltac:(lia)) as Hmono.
  rewrite Hle in Ee. split; fold s e; try done.
  assert (day_number s = day_number e ∨
          (day_number e = day_number s + 1 ∧ sec_of_day e = 0 ∧ TNanosecond e = 0)) as Hdn.
  { destruct Hd as [Hd|Hz].
    - left. apply Day_within_month; [|done]. unfold Second in *. lia.
    - destruct Hsafe as [?|Hsafe]; [done|].
      assert (TNanosecond e = 0) by (by apply Z.mod_divide).
      destruct (Z.eq_dec (day_number s) (day_number e)); [by left|right].
      unfold Second in *. lia. }
  rewrite Ee. destruct Hdn as [E|(E & -> & ->)]; rewrite <- ?E, ?E; unfold Second in *; lia.
Qed.

Lemma next_midnight_day s t : fixed (t_loc s) → t_loc t = t_loc s →
  t_ns t = midnight_ns s + 86400 * Second → day_number t = day_number s + 1.
Proof.
  intros Hf Hl Et. unfold day_number at 1. rewrite fixed_local_sec by (by rewrite Hl).
  rewrite Et, Hl. unfold midnight_ns. rewrite <- Z.mul_add_distr_r, Z.div_mul by done. lia.
Qed.

(** The first side of a cut at the next midnight is on one day. *)
Lemma first_day x ts1 ts2 loc K :
  splits x ts1 ts2 → good loc K ts1 → fixed (t_loc (ts_TimeStart x)) →
  t_ns (ts_TimeStart ts2) = midnight_ns (ts_TimeStart x) + 86400 * Second → one_day ts1.
Proof.
  intros Hs [_ Hlt Hl1 Hl2 _ _ (W1 & W2 & _)] Hf Em. pose proof (sp_start _ _ _ Hs) as E.
  split; [by rewrite E|congruence|by apply whole_distance|].
  rewrite (sp_meet _ _ _ Hs), Em, E. unfold midnight_ns. lia.
Qed.

(** One cut by day: nothing and the span is on a day, or a first day and a rest that
    starts on the next. *)
Lemma day_step loc K x :
  fixed loc → good loc K x → t_ns (ts_TimeEnd x) - t_ns (ts_TimeStart x) < 27 * 86400 * Second →
  day_safe (t_ns (ts_TimeStart x)) (ts_TimeEnd x) →
  match SplitByDay x with
  | (ts1, None) => ts1 = x ∧ one_day x
  | (ts1, Some ts2) => good loc K ts1 ∧ one_day ts1 ∧ good loc K ts2 ∧
      ts_TimeEnd ts2 = ts_TimeEnd x ∧ t_ns (ts_TimeStart x) < t_ns (ts_TimeStart ts2) ∧
      day_number (ts_TimeStart ts2) = day_number (ts_TimeStart x) + 1 ∧
      covers (t_ns (ts_TimeStart x)) (t_ns (ts_TimeStart ts2)) [ts1]
  end.
Proof.
  intros Hf Hg Hlong Hsafe.
  pose proof (g_start _ _ _ Hg) as Hl1. pose proof (g_end _ _ _ Hg) as Hl2.
  assert (fixed (t_loc (ts_TimeStart x))) as Hfx by (by rewrite Hl1).
  pose proof (SplitByDay_ok x (g_ok _ _ _ Hg) Hfx ltac:(congruence)) as Hsp.
  destruct (SplitByDay x) as [ts1 [ts2|]];
    [|destruct Hsp as [-> Hd]; split; [done|by apply (uncut_one_day loc K)]].
  destruct Hsp as (Hs & Ho1 & Ho2 & Em & Er1 & Er2).
  assert (own_timed ts1) as Ht1 by (intros own; rewrite Er1; apply (g_own _ _ _ Hg)).
  assert (own_timed ts2) as Ht2 by (intros own; rewrite Er2; discriminate).
  assert ((Second | t_ns (ts_TimeStart ts2))) as Hw
    by (rewrite Em; unfold midnight_ns; apply Z.divide_add_r; apply Z.divide_factor_r).
  destruct (splits_good loc K x ts1 ts2) as (G1 & G2 & Hcov); try done.
  pose proof (sp_inside _ _ _ Hs) as Hin. rewrite (sp_meet _ _ _ Hs) in Hin.
  pose proof (g_start _ _ _ G2) as Hl3.
  split_and!; [done|by apply (first_day x ts1 ts2 loc K)|done|apply (sp_end _ _ _ Hs)|lia| |].
  - apply next_midnight_day; [done|congruence|done].
  - apply covers_cons_inv in Hcov as (E1 & Hlt & _). rewrite <- E1.
    apply covers_cons; [lia|]. by rewrite (sp_meet _ _ _ Hs).
Qed.

Lemma day_loop_ok loc K fuel x :
  fixed loc → good loc K x → t_ns (ts_TimeEnd x) - t_ns (ts_TimeStart x) < 27 * 86400 * Second →
  day_safe (t_ns (ts_TimeStart x)) (ts_TimeEnd x) →
  day_number (ts_TimeEnd x) - day_number (ts_TimeStart x) ≤ Z.of_nat fuel →
  ∃ l, day_loop fuel x = Ok l ∧
    covers (t_ns (ts_TimeStart x)) (t_ns (ts_TimeEnd x)) l ∧
    Forall (λ y, good loc K y ∧ one_day y) l.
Proof.
  intros Hf. revert x. induction fuel as [|fuel IH]; intros x Hg Hlong Hsafe Hfuel; simpl;
    pose proof (day_step loc K x Hf Hg Hlong Hsafe) as Hst;
    destruct (SplitByDay x) as [ts1 [ts2|]].
  2,4: destruct Hst as [-> Hd]; eexists; split; [done|];
    (split; [apply covers_single, (g_lt _ _ _ Hg)|apply Forall_cons; split; done]).
  all: destruct Hst as (G1 & Hd1 & G2 & Ee & Hlt & Edn & Hcov).
  - assert (day_number (ts_TimeStart ts2) ≤ day_number (ts_TimeEnd ts2)) as Hmono
      by (apply midnight_mono; [by rewrite (g_start _ _ _ G2)|
            by rewrite (g_start _ _ _ G2), (g_end _ _ _ G2)|pose proof (g_lt _ _ _ G2); lia]).
    rewrite Ee in Hmono. lia.
  - destruct (IH ts2) as (l & -> & Hcov2 & Hl); [done|rewrite Ee; lia| |rewrite Ee; lia|].
    { destruct Hsafe as [?|?]; [left|right]; rewrite Ee; [done|lia]. }
    simpl. eexists. split; [done|]. rewrite Ee in Hcov2.
    split; [exact (covers_app _ _ _ [ts1] l Hcov Hcov2)|]. by apply Forall_cons.
Qed.

(** The rated spans of one day each. *)
Definition day_spans (loc : Location) (K s e : Z) (n : nat) (l : list RatedSpan) : Prop :=
  covers s e l.*1 ∧ Forall (λ x, good loc K x.1 ∧ one_day x.1 ∧ (x.2 < n)%nat) l.

Lemma fst_map_pair (l : TimeSpans) (k : nat) : (map (λ t, (t, k)) l).*1 = l.
Proof. induction l as [|x l IH]; csimpl; [done|]. by rewrite IH. Qed.

Lemma days_loop_ok loc K s0 s e n fuel l :
  fixed loc → rated_spans loc K s e n l → s0 ≤ s → e - s0 < 27 * 86400 * Second →
  Forall (λ x, day_safe s0 (ts_TimeEnd x.1)) l →
  Forall (λ x, day_number (ts_TimeEnd x.1) - day_number (ts_TimeStart x.1) ≤ Z.of_nat fuel) l →
  ∃ l', days_loop fuel l = Ok l' ∧ day_spans loc K s e n l'.
Proof.
  intros Hf [Hc Hg] Hs0 Hlong. revert s Hs0 Hc.
  induction l as [|[x k] l IH]; intros s Hs0 Hc Hsafe Hfuel.
  { eexists. split; [done|]. by split. }
  csimpl in Hc. apply covers_cons_inv in Hc as (Es & Hlt & Hc).
  apply Forall_cons in Hg as [[Hx Hk] Hg]. apply Forall_cons in Hsafe as [Hsx Hsafe].
  apply Forall_cons in Hfuel as [Hfx Hfuel]. simpl in *.
  pose proof (covers_le _ _ _ Hc) as Hle.
  destruct (day_loop_ok loc K fuel x) as (lx & Ex & Hcx & Hlx); [done|done|lia| |done|].
  { destruct Hsx as [?|?]; [by left|right; lia]. }
  destruct (IH Hg (t_ns (ts_TimeEnd x)) ltac:(lia) Hc Hsafe Hfuel) as (l' & El & [Hc' Hl']).
  apply bind_ok_inv in El as (parts & Ep & [= <-]).
  unfold days_loop. simpl. rewrite Ex. simpl. rewrite Ep. simpl.
  eexists. split; [done|]. split.
  - rewrite fmap_app, fst_map_pair. rewrite Es in Hcx. by apply (covers_app _ _ _ _ _ Hcx).
  - apply Forall_app. split; [|done]. apply Forall_map. eapply Forall_impl; [exact Hlx|].
    simpl. tauto.
Qed.

(** ** Rate intervals *)

(** Rating infos with intervals to choose from, all with clock times and groups that
    start on whole seconds. *)
Definition infos_ok (ris : RatingInfos) : Prop :=
  Forall (λ rp, elems (rinf_RateIntervals rp) ≠ [] ∧
                Forall (λ i, timed i ∧ whole_rates i) (elems (rinf_RateIntervals rp))) ris.

Section with_runtime.
Context `{GoRuntime}.

Lemma TimeSorter_Less_ok t a b : timed a → timed b → is_ok (TimeSorter_Less t a b) = true.
Proof.
  intros (ra & ca & ea & Ea & Ha) (rb & cb & eb & Eb & Hb). unfold TimeSorter_Less.
  destruct (fltb _ _); [done|]. rewrite Eb. simpl.
  destruct (timed_left_margin b rb t) as [m ->]; [by exists rb, cb, eb|done|]. simpl.
  rewrite Ea. simpl.
  by destruct (timed_left_margin a ra t) as [m' ->]; [by exists ra, ca, ea|done|].
Qed.

Lemma TimeSorter_Sort_ok t l : Forall timed l → ∃ s, TimeSorter_Sort t l = Ok s ∧ s ≡ₚ l.
Proof.
  intros Hl. unfold TimeSorter_Sort. rewrite Forall_forall in Hl.
  assert (forallb (λ a, forallb (λ b, is_ok (TimeSorter_Less t a b)) l) l = true) as ->.
  { apply forallb_forall. intros a Ha%list_elem_of_In. apply forallb_forall.
    intros b Hb%list_elem_of_In. apply TimeSorter_Less_ok; by apply Hl. }
  eexists. split; [done|]. apply go_sort_perm.
Qed.

Lemma Contains_ok i t b : timed i → fixed (t_loc t) → ∃ r, RateInterval_Contains i t b = Ok r.
Proof.
  intros (rit & cs & ce & Et & Hs & He & _) Hf. unfold RateInterval_Contains. rewrite Et. simpl.
  edestruct (IsActiveAt_ok rit) as (r & Hr & _); [|exact Hs|exact He|by exists r].
  by destruct b; [destruct (TimeIs0h t)|].
Qed.

Lemma best_loop_ok ts k rest best w delta :
  fixed (t_loc (ts_TimeStart ts)) → Forall timed rest → (best < k + length rest)%nat →
  ∃ b w', best_loop ts k rest best w delta = Ok (b, w') ∧ (b < k + length rest)%nat.
Proof.
  intros Hf Hr. revert k best w delta. induction Hr as [|i rest Hi Hr IH];
    intros k best w delta Hb; simpl in *; [by eexists _, _|].
  destruct (Contains_ok i (ts_TimeStart ts) false Hi Hf) as [r ->]. simpl.
  destruct r; simpl.
  - destruct (fltb _ _); [by eexists _, _|]. destruct Hi as (rit & Hrit).
    pose proof Hrit as (cs & ce & Et & _). rewrite Et. simpl.
    destruct (timed_left_margin i rit (ts_TimeStart ts)) as [m ->]; [by exists rit|done|]. simpl.
    destruct (_ && _).
    + destruct (IH (S k) k (ri_Weight i) (Sub (ts_TimeStart ts) m)) as (b & w' & E & Hlt);
        [lia|]. exists b, w'. split; [done|lia].
    + destruct (IH (S k) best w delta) as (b & w' & E & Hlt); [lia|].
      exists b, w'. split; [done|lia].
  - destruct (IH (S k) best w delta) as (b & w' & E & Hlt); [lia|].
    exists b, w'. split; [done|lia].
Qed.

Lemma later_loop_ok ts w l : Forall timed l →
  ∃ r, later_loop ts w l = Ok r ∧ ∀ x, x ∈ r → x ∈ l.
Proof.
  induction 1 as [|i l Hi Hl (r & IH & Hin)]; simpl; [by eexists|].
  destruct (fltb _ _); [eexists; split; [done|set_solver]|].
  destruct Hi as (rit & Hrit). pose proof Hrit as (cs & ce & Et & _). rewrite Et. simpl.
  destruct (timed_left_margin i rit (ts_TimeStart ts)) as [m ->]; [by exists rit|done|]. simpl.
  rewrite IH. simpl. eexists. split; [done|]. destruct (Before m (ts_TimeEnd ts)); set_solver.
Qed.

(** Selecting never panics and returns some of the info's intervals. *)
Lemma Select_ok rp ts :
  fixed (t_loc (ts_TimeStart ts)) → elems (rinf_RateIntervals rp) ≠ [] →
  Forall timed (elems (rinf_RateIntervals rp)) →
  ∃ l s, SelectRatingIntevalsForTimespan rp ts = Ok (l, s) ∧ l ≠ [] ∧
    s ≡ₚ elems (rinf_RateIntervals rp) ∧ ∀ x, x ∈ l → x ∈ elems (rinf_RateIntervals rp).
Proof.
  intros Hf Hne Ht. unfold SelectRatingIntevalsForTimespan.
  destruct (TimeSorter_Sort_ok (ts_TimeStart ts) _ Ht) as (s & -> & Hp). simpl.
  assert (Forall timed s) as Hts by (by rewrite Hp).
  assert (0 < length s)%nat as Hlen
    by (rewrite Hp; destruct (elems (rinf_RateIntervals rp)); [done|simpl; lia]).
  destruct (best_loop_ok ts 0 s 0 f0 (-1) Hf Hts Hlen) as (b & w & -> & Hb). simpl.
  destruct (lookup_lt_is_Some_2 s b Hb) as [i Ei]. rewrite Ei. simpl.
  destruct (later_loop_ok ts w (drop (S b) s)) as (r & -> & Hin).
  { apply Forall_drop, Hts. }
  simpl. eexists _, _. split; [done|]. split; [done|]. split; [done|].
  intros x. rewrite <- Hp, elem_of_cons. intros [->|Hx].
  - by apply list_elem_of_lookup_2 in Ei.
  - apply Hin in Hx. eapply subseteq_drop. exact Hx.
Qed.

(** Both sides of a cut inside a day are on that day. *)
Lemma splits_one_day loc K x ts1 ts2 :
  one_day x → splits x ts1 ts2 → good loc K ts1 → good loc K ts2 → one_day ts1 ∧ one_day ts2.
Proof.
  intros [Hf Hl Hsec Hd] Hs G1 G2. pose proof (sp_start _ _ _ Hs) as E1.
  pose proof (sp_end _ _ _ Hs) as E2. pose proof (sp_inside _ _ _ Hs) as Hin.
  rewrite (sp_meet _ _ _ Hs) in Hin.
  assert (t_loc (ts_TimeStart ts2) = t_loc (ts_TimeStart x)) as El2
    by (rewrite (g_start _ _ _ G2), <- E1; symmetry; apply (g_start _ _ _ G1)).
  pose proof (midnight_mono _ _ Hf El2 ltac:(lia)) as Hmono.
  destruct (g_whole _ _ _ G1) as (A1 & A2 & _). destruct (g_whole _ _ _ G2) as (B1 & B2 & _).
  split; split.
  - by rewrite E1.
  - rewrite (g_end _ _ _ G1). symmetry. apply (g_start _ _ _ G1).
  - apply whole_distance; [done|done|apply (g_lt _ _ _ G1)].
  - rewrite (sp_meet _ _ _ Hs), E1. lia.
  - by rewrite El2.
  - rewrite (g_end _ _ _ G2). symmetry. apply (g_start _ _ _ G2).
  - apply whole_distance; [done|done|apply (g_lt _ _ _ G2)].
  - rewrite E2, El2. unfold Second in *. lia.
Qed.

Lemma one_day_times x y : ts_TimeStart y = ts_TimeStart x → ts_TimeEnd y = ts_TimeEnd x →
  one_day x → one_day y.
Proof. intros E1 E2 [? ? ? ?]. split; rewrite ?E1, ?E2; done. Qed.

Lemma intervals_loop_ok loc K data rp ts l :
  good loc K ts → one_day ts → Forall (λ i, timed i ∧ whole_rates i) l →
  ∃ ts' news, intervals_loop data rp ts l = Ok (ts', news) ∧
    covers (t_ns (ts_TimeStart ts)) (t_ns (ts_TimeEnd ts)) (ts' :: news) ∧
    Forall (λ x, good loc K x ∧ one_day x) (ts' :: news).
Proof.
  intros Hg Hd Hl. revert ts Hg Hd. induction Hl as [|i l [Hi Hw] Hl IH]; intros ts Hg Hd; simpl.
  { exists ts, []. split; [done|]. split; [apply covers_single, (g_lt _ _ _ Hg)|].
    by apply Forall_cons. }
  destruct (SplitByRateInterval_ok ts i data (g_ok _ _ _ Hg) Hd Hi (g_own _ _ _ Hg))
    as ([ts1 [ts2|]] & -> & Hr & Hk1 & Hk2); simpl in Hk1, Hk2 |- *.
  - destruct Hr as (Hs & Ho1 & Ho2). destruct Hk2 as [Hk2 Hw2].
    destruct (splits_good loc K ts ts1 ts2) as (G1 & G2 & Hcov); try done;
      [apply Hw2; [apply (g_whole _ _ _ Hg)|done]|].
    destruct (splits_one_day loc K ts ts1 ts2 Hd Hs G1 G2) as [D1 D2].
    pose proof (good_setRatingInfo loc K ts2 rp G2) as G2'.
    pose proof (one_day_times ts2 (setRatingInfo ts2 rp) eq_refl eq_refl D2) as D2'.
    destruct (ts_RateInterval ts1) eqn:Er.
    + exists ts1, [setRatingInfo ts2 rp]. split; [done|]. split; [exact Hcov|].
      do 2 (apply Forall_cons; split; [done|]). done.
    + destruct (IH ts1 G1 D1) as (ts' & news & -> & Hc & Hn). simpl.
      exists ts', (news ++ [setRatingInfo ts2 rp]). split; [done|].
      apply covers_cons_inv in Hcov as (E1 & _ & Hcov2).
      change (covers (t_ns (ts_TimeEnd ts1)) (t_ns (ts_TimeEnd ts)) [setRatingInfo ts2 rp]) in Hcov2.
      split.
      * rewrite <- E1. exact (covers_app _ _ _ (ts' :: news) _ Hc Hcov2).
      * rewrite app_comm_cons. apply Forall_app. split; [done|]. by apply Forall_cons.
  - destruct Hr as [oi ->]. apply (IH (ts_set_interval ts oi)); [|by apply (one_day_times ts)].
    by apply (good_times loc K ts).
Qed.

Lemma infos_ok_sorted ris k rp s :
  infos_ok ris → ris !! k = Some rp → s ≡ₚ elems (rinf_RateIntervals rp) →
  infos_ok (<[k := rinf_set_intervals rp s]> ris).
Proof.
  intros Hi Hk Hp. apply Forall_insert; [done|].
  pose proof (Forall_lookup_1 _ _ _ _ Hi Hk) as [Hne Hall].
  unfold rinf_set_intervals. destruct rp as [? ? ? ? ? [l|] ?]; simpl in *; [|done].
  split; [intros ->; by destruct l; [|apply Permutation_nil_cons in Hp]|by rewrite Hp].
Qed.

(** Every step leaves behind a span of at least a second, so as many steps as the
    call has seconds are enough. *)
Lemma spans_loop_ok loc K s e data fuel ris l :
  fixed loc → infos_ok ris → day_spans loc K s e (length ris) l →
  e - s ≤ Z.of_nat fuel * Second →
  ∃ l' ris', spans_loop fuel data ris l = Ok (l', ris') ∧ length ris' = length ris ∧
    day_spans loc K s e (length ris) l'.
Proof.
  intros Hf. revert s ris l.
  induction fuel as [|fuel IH]; intros s ris l Hi [Hc Hg] Hfuel; destruct l as [|[ts k] rest]; simpl; try (by exists [], ris).
  { csimpl in Hc. apply covers_cons_inv in Hc as (_ & Hlt & Hc).
    pose proof (covers_le _ _ _ Hc). unfold Second in *. lia. }
  csimpl in Hc. apply covers_cons_inv in Hc as (Es & Hlt & Hc).
  apply Forall_cons in Hg as [(Hts & Hday & Hk) Hg]. simpl in Hts, Hday, Hk.
  destruct (lookup_lt_is_Some_2 ris k Hk) as [rp Erp]. unfold RatingInfos in *.
  rewrite Erp. simpl. pose proof (Forall_lookup_1 _ _ _ _ Hi Erp) as [Hne Hall].
  destruct (Select_ok rp ts) as (sel & srt & -> & Hsel & Hp & Hin);
    [by rewrite (g_start _ _ _ Hts)|done|by eapply Forall_impl; [exact Hall|intros ? [? _]]|]. simpl.
  destruct (intervals_loop_ok loc K data (rinf_set_intervals rp srt) ts sel Hts Hday)
    as (ts' & news & -> & Hcov & Hnews).
  { rewrite Forall_forall in Hall |- *. intros x Hx. by apply Hall, Hin. }
  simpl. apply Forall_cons in Hnews as [[Hg' Hd'] Hnews].
  apply covers_cons_inv in Hcov as (Es' & Hlt' & Hcov).
  destruct (g_whole _ _ _ Hg') as (W1 & W2 & _).
  pose proof (whole_distance _ _ W1 W2 (g_lt _ _ _ Hg')) as Hsec.
  destruct (IH (t_ns (ts_TimeEnd ts')) (<[k := rinf_set_intervals rp srt]> ris)
              (map (λ t, (t, k)) news ++ rest)) as (l' & ris' & -> & El & Hc' & Hl').
  - by apply infos_ok_sorted.
  - split; [rewrite fmap_app, fst_map_pair; exact (covers_app _ _ _ _ _ Hcov Hc)|].
    rewrite length_insert. apply Forall_app. split; [|done]. apply Forall_map.
    eapply Forall_impl; [exact Hnews|]. simpl. tauto.
  - rewrite Es' in Hsec. lia.
  - rewrite length_insert in El, Hl'. simpl. exists ((ts', k) :: l'), ris'.
    split; [done|]. split; [done|]. split.
    + csimpl. rewrite <- Es, <- Es'. apply covers_cons; [by rewrite Es'|done].
    + by apply Forall_cons.
Qed.

(** ** Rounding *)

Lemma round_to_increment_times ts :
  TimeSpan_GetDuration ts = t_ns (ts_TimeEnd ts) - t_ns (ts_TimeStart ts) →
  let '(extended, ts') := round_to_increment ts in
  ts_TimeStart ts' = ts_TimeStart ts ∧
  if extended then t_ns (ts_TimeEnd ts) < t_ns (ts_TimeEnd ts')
  else ts_TimeEnd ts' = ts_TimeEnd ts.
Proof.
  intros Hd. unfold round_to_increment. destruct (ts_RateInterval ts) as [i|]; [|done].
  destruct (GetRateParameters i _) as [[[? inc] ?] i'].
  change (TimeSpan_GetDuration (ts_set_interval ts (Some i'))) with (TimeSpan_GetDuration ts).
  set (inc' := if inc <? TimeSpan_GetDuration ts then _ else inc).
  destruct (Z.ltb_spec (TimeSpan_GetDuration ts) inc') as [Hlt|]; [|done].
  split; [done|]. simpl. lia.
Qed.

(** Rounding keeps the chain contiguous and never ends before it did. *)
Lemma round_loop_ok fuel s m done_ todo :
  covers s m done_ → chain m todo → (length todo ≤ fuel)%nat →
  (todo = [] ∨ end_of m todo - m ≤ max_int64) →
  ∃ l, round_loop fuel done_ todo = Ok l ∧ chain s l ∧ end_of m todo ≤ end_of s l.
Proof.
  revert m done_ todo. induction fuel as [|fuel IH]; intros m done_ todo Hd Hc Hlen Hr;
    destruct todo as [|ts rest]; simpl in Hlen; try lia; simpl;
    try (destruct Hd as [Hd1 Hd2]; exists done_; split_and!; [done|done|by rewrite Hd2]).
  simpl in Hc. destruct Hc as (Es & Hlt & Hc). pose proof (chain_end _ _ Hc) as Hend.
  assert (TimeSpan_GetDuration ts = t_ns (ts_TimeEnd ts) - t_ns (ts_TimeStart ts)) as Edur.
  { apply Sub_exact. destruct Hr as [?|Hr]; [done|]. simpl in Hr.
    unfold int64_range, min_int64, max_int64 in *. lia. }
  pose proof (round_to_increment_times ts Edur) as Hrt.
  destruct (round_to_increment ts) as [[] ts']; destruct Hrt as [Es' He'].
  - destruct (RemoveOverlapedFromIndex_ok done_ rest ts' (t_ns (ts_TimeEnd ts)) Hc ltac:(lia))
      as (rest' & -> & Hl & Hc' & Hend'). simpl.
    rewrite (cons_middle ts' done_ rest'), app_assoc.
    assert (S (length done_) = length (done_ ++ [ts'])) as El by (rewrite length_app; simpl; lia).
    rewrite El, take_app_length, drop_app_length.
    destruct (IH (t_ns (ts_TimeEnd ts')) (done_ ++ [ts']) rest') as (l & -> & Hcl & Hel);
      [|done|lia| |exists l; split_and!; [done|done|lia]].
    + apply (covers_app _ m); [done|]. rewrite <- Es, <- Es'. apply covers_single.
      rewrite Es'. lia.
    + destruct rest' as [|x rest']; [by left|right]. simpl in Hend' |- *. destruct Hc' as (_ & Hx & Hcx).
      pose proof (chain_end _ _ Hcx). destruct Hr as [?|Hr]; [done|]. simpl in Hr. lia.
  - destruct (IH (t_ns (ts_TimeEnd ts)) (done_ ++ [ts']) rest) as (l & -> & Hcl & Hel);
      [|done|lia| |by exists l].
    + apply (covers_app _ m); [done|]. rewrite <- Es, <- Es', <- He'. apply covers_single.
      rewrite Es', He'. lia.
    + right. destruct Hr as [?|Hr]; [done|]. simpl in Hr. lia.
Qed.
End with_runtime.

(** ** The whole cut *)

(** A voice call of less than 27 days on whole seconds, in a location without
    transitions, whose rating infos are in order and have intervals with clock times.
    No instant that can end a span is a midnight more than a day after the start. *)
Record call_ok (cd : CallDescriptor) : Prop := {
  co_voice : cd_ToR cd = VOICE;
  co_fixed : fixed (t_loc (cd_TimeStart cd));
  co_loc : t_loc (cd_TimeEnd cd) = t_loc (cd_TimeStart cd);
  co_order : t_ns (cd_TimeStart cd) < t_ns (cd_TimeEnd cd);
  co_length : t_ns (cd_TimeEnd cd) - t_ns (cd_TimeStart cd) < 27 * 86400 * Second;
  co_index : t_ns (cd_TimeEnd cd) - t_ns (cd_TimeStart cd) ≤ cd_DurationIndex cd ≤ max_int64;
  co_whole : (Second | t_ns (cd_TimeStart cd)) ∧ (Second | t_ns (cd_TimeEnd cd)) ∧
             (Second | cd_DurationIndex cd);
  co_some : cd_RatingInfos cd ≠ [];
  co_infos : infos_ok (cd_RatingInfos cd);
  co_activations : activations_ok (cd_RatingInfos cd);
  co_safe : day_safe (t_ns (cd_TimeStart cd)) (cd_TimeEnd cd) ∧
    Forall (λ rp, day_safe (t_ns (cd_TimeStart cd))
      (In_loc (rinf_ActivationTime rp) (t_loc (cd_TimeStart cd)))) (cd_RatingInfos cd)
}.

Lemma covers_bounds s e l j x : covers s e l → l !! j = Some x →
  s ≤ t_ns (ts_TimeStart x) < t_ns (ts_TimeEnd x) ∧ t_ns (ts_TimeEnd x) ≤ e.
Proof.
  revert s j. induction l as [|y l IH]; intros s j Hc Hj; [done|].
  apply covers_cons_inv in Hc as (<- & Hlt & Hc). pose proof (covers_le _ _ _ Hc).
  destruct j as [|j]; simpl in Hj; [injection Hj as <-; lia|].
  specialize (IH _ _ Hc Hj). lia.
Qed.

Lemma days_between s e : fixed (t_loc s) → t_loc e = t_loc s → t_ns s ≤ t_ns e →
  day_number e - day_number s ≤ (t_ns e - t_ns s) / Second + 2.
Proof.
  intros Hf Hl Hle. unfold day_number. rewrite !fixed_local_sec by (by rewrite ?Hl).
  rewrite Hl. unfold Second. lia.
Qed.

Lemma attach_covers s e ris l : covers s e l.*1 → covers s e (attach ris <$> l).
Proof.
  revert s. induction l as [|[x k] l IH]; intros s Hc; [done|]. csimpl in Hc.
  apply covers_cons_inv in Hc as (<- & Hlt & Hc). csimpl.
  assert (ts_TimeStart (attach ris (x, k)) = ts_TimeStart x ∧
          ts_TimeEnd (attach ris (x, k)) = ts_TimeEnd x) as [E1 E2]
    by (unfold attach; simpl; by destruct (ris !! k)).
  rewrite <- E1. apply covers_cons; rewrite ?E1, ?E2; [done|by apply IH].
Qed.

(** The first three stages: the plans and days of a voice call, then the intervals. *)
Lemma cut_ok `{GoRuntime} cd fuel :
  call_ok cd → (t_ns (cd_TimeEnd cd) - t_ns (cd_TimeStart cd)) / Second + 2 ≤ Z.of_nat fuel →
  ∃ rp rest, cd_RatingInfos cd = rp :: rest ∧
  let first := ts_set_DurationIndex (new_span (cd_TimeStart cd) (cd_TimeEnd cd))
                 (cd_DurationIndex cd) in
  ∃ l1 l2 l3 ris', 
    plans_loop fuel (cd_TimeStart cd) 0 (cd_RatingInfos cd) false false
      [(setRatingInfo first rp, 0%nat)] = Ok l1 ∧
    days_loop fuel l1 = Ok l2 ∧
    spans_loop fuel false (cd_RatingInfos cd) l2 = Ok (l3, ris') ∧
    covers (t_ns (cd_TimeStart cd)) (t_ns (cd_TimeEnd cd)) l3.*1.
Proof.
  intros [_ Hf Hl Ho Hlen Hidx Hw Hne Hi Ha [Hs1 Hs2]] Hfuel.
  destruct (cd_RatingInfos cd) as [|rp rest] eqn:Er; [done|]. exists rp, rest. split; [done|].
  intros first. set (loc := t_loc (cd_TimeStart cd)) in *.
  set (K := cd_DurationIndex cd - t_ns (cd_TimeEnd cd)).
  set (s := t_ns (cd_TimeStart cd)) in *. set (e := t_ns (cd_TimeEnd cd)) in *.
  assert (good loc K (setRatingInfo first rp)) as Hg.
  { apply good_setRatingInfo. split; try done. split; simpl; lia. }
  assert (0 ≤ (e - s) / Second) as Hpos by (apply Z.div_pos; [lia|done]).
  destruct (plans_loop_ok (day_safe s) loc K s e (length (rp :: rest)) fuel (cd_TimeStart cd) 0
              (rp :: rest) false false [(setRatingInfo first rp, 0%nat)])
    as (l1 & E1 & Hr1 & Hp1); try done; try lia.
  { by apply Forall_cons. }
  { split; [apply (covers_single (setRatingInfo first rp)); simpl; lia|].
    apply Forall_cons. split; [split; [done|simpl; lia]|done]. }
  { left. by eexists _, _. }
  destruct (days_loop_ok loc K s s e (length (rp :: rest)) fuel l1) as (l2 & E2 & Hd2); try done.
  { destruct Hr1 as [Hc1 Hg1]. apply Forall_lookup_2. intros j x Hj.
    pose proof (Forall_lookup_1 _ _ _ _ Hg1 Hj) as [Hx _].
    assert (l1.*1 !! j = Some x.1) as Hj' by (by rewrite list_lookup_fmap, Hj).
    pose proof (covers_bounds s e l1.*1 j x.1 Hc1 Hj') as Hb.
    pose proof (g_start _ _ _ Hx). pose proof (g_end _ _ _ Hx).
    pose proof (days_between (ts_TimeStart x.1) (ts_TimeEnd x.1) ltac:(congruence)
                  ltac:(congruence) ltac:(lia)) as Hdays.
    assert ((t_ns (ts_TimeEnd x.1) - t_ns (ts_TimeStart x.1)) / Second ≤ (e - s) / Second)
      by (apply Z.div_le_mono; [done|lia]). lia. }
  destruct (spans_loop_ok loc K s e false fuel (rp :: rest) l2) as (l3 & ris' & E3 & _ & Hc3 & _);
    try done.
  { pose proof (Z.div_mod (e - s) Second ltac:(done)).
    pose proof (Z.mod_pos_bound (e - s) Second ltac:(done)). unfold Second in *. nia. }
  by exists l1, l2, l3, ris'.
Qed.

(** C1: the cut of a voice call terminates without panic, in as many steps as the call
    has seconds, and yields a contiguous sequence of non-empty spans that starts with
    the call and covers it: no part of the call is left unrated or rated twice.
    Rounding spans up to their rate increment may only move the end forward. *)
Theorem splitInTimeSpans_partition `{GoRuntime} (cd : CallDescriptor) (fuel : nat)
    (Hcall : call_ok cd)
    (Hfuel : (t_ns (cd_TimeEnd cd) - t_ns (cd_TimeStart cd)) / Second + 2 ≤ Z.of_nat fuel) :
  ∃ timespans cd', splitInTimeSpans fuel cd = Ok (timespans, cd') ∧
    chain (t_ns (cd_TimeStart cd)) timespans ∧
    t_ns (cd_TimeEnd cd) ≤ end_of (t_ns (cd_TimeStart cd)) timespans.
Proof.
  destruct (cut_ok cd fuel Hcall Hfuel)
    as (rp & rest & Er & l1 & l2 & l3 & ris' & E1 & E2 & E3 & Hc).
  unfold splitInTimeSpans. rewrite Er in *. rewrite (co_voice _ Hcall), bool_decide_eq_true_2 by done.
  simpl in E1 |- *. rewrite E1. simpl. rewrite E2. simpl. rewrite E3. simpl.
  apply (attach_covers _ _ ris') in Hc as [Hc He].
  destruct (round_loop_ok (length (attach ris' <$> l3)) (t_ns (cd_TimeStart cd))
              (t_ns (cd_TimeStart cd)) [] (attach ris' <$> l3)) as (l & El & Hcl & Hel);
    [done|done|done|right|].
  { rewrite He. pose proof (co_index _ Hcall). lia. }
  unfold roundTimeSpansToIncrement. rewrite El. simpl. eexists _, _. split; [done|].
  split; [done|]. by rewrite He in Hel.
Qed.

(** The call of the witness: a minute around a midnight, rated by day and night. *)
Definition night_interval (start : string) (w : float64) : RateInterval :=
  mkRateInterval (Some (mkRITiming None None None None start "" "" ""))
    (Some (mkRIRate f0 "*middle" 4 f0 "" (Some [mkRate 0 f1 (7 * Second) Minute]) "")) w.
Definition midnight_call : CallDescriptor :=
  cd_set_rated
    (cd_set_RatingInfos
      (new_descriptor "call" "cgrates.org" "49" (Date 2020 3 2 23 59 30 0 UTC)
         (Date 2020 3 3 0 0 30 0 UTC))
      [mkRatingInfo "1001" "RP" "49" "DST" (Date 2012 1 1 0 0 0 0 UTC)
         (Some [night_interval "00:00:00" f0; night_interval "20:00:00" f1]) []])
    Minute VOICE f0.

Lemma timed_night start w h m s :
  clock_parts start = Ok (h, m, s) → start ≠ "" → 0 ≤ h * 3600 + m * 60 + s →
  timed (night_interval start w) ∧ whole_rates (night_interval start w).
Proof.
  intros Hc Hne Hp. split.
  - exists (mkRITiming None None None None start "" "" ""), (h, m, s), (24, 0, 0).
    split; [done|]. unfold start_clock, end_clock. simpl.
    by rewrite decide_True by done.
  - intros r Hr. apply list_elem_of_singleton in Hr as ->. by exists 0.
Qed.

Lemma splitInTimeSpans_partition_witness :
  (match @splitInTimeSpans reference_runtime 62 midnight_call with
   | Ok (l, _) => map TimeSpan_GetDuration l | _ => [] end) = [35 * Second; 28 * Second] ∧
  ∃ timespans cd', @splitInTimeSpans reference_runtime 62 midnight_call = Ok (timespans, cd') ∧
    chain (t_ns (cd_TimeStart midnight_call)) timespans ∧
    t_ns (cd_TimeEnd midnight_call) ≤ end_of (t_ns (cd_TimeStart midnight_call)) timespans.
Proof.
  split; [vm_compute; reflexivity|].
  apply (@splitInTimeSpans_partition reference_runtime); [|vm_compute; discriminate].
  split.
  - reflexivity.
  - reflexivity.
  - reflexivity.
  - vm_compute. reflexivity.
  - vm_compute. reflexivity.
  - vm_compute. split; discriminate.
  - split_and!; [exists 63718790370|exists 63718790430|exists 60]; vm_compute; reflexivity.
  - discriminate.
  - apply Forall_cons. split; [|by apply Forall_nil]. split; [done|].
    apply Forall_cons. split; [by apply (timed_night "00:00:00" f0 0 0 0)|].
    apply Forall_cons. split; [by apply (timed_night "20:00:00" f1 20 0 0)|by apply Forall_nil].
  - split; [by repeat constructor|]. apply Forall_cons. split; [|by apply Forall_nil].
    exists 63460972800. vm_compute. reflexivity.
  - split; [right; vm_compute; discriminate|]. apply Forall_cons.
    split; [right; vm_compute; discriminate|by apply Forall_nil].
Defined.
