(* ===== verification/OnePlan.v ===== *)
(** * The rating info that rates a call

    A call during which another rating plan is activated is cut at that time, but the
    new span keeps the rating info of the span it is cut from: whatever the
    activations, the spans of one call are all rated by the same info, the last one of
    the leading infos activated before the call. *)
From S2P Require Import Prelude GoFloat GoStrings GoTime RateInterval RatingPlan TimeSpans CallDescriptor RatingProfile Rating.

(** Every span refers to the info at [k]. *)
Abbreviation all_at k := (Forall (λ x : RatedSpan, x.2 = k)).

Lemma plan_loop_at k fuel : ∀ i rp l b l',
  all_at k l → plan_loop fuel i rp l = Ok (b, l') → all_at k l'.
Proof.
  induction fuel as [|fuel IH]; intros i rp l b l' Hl; simpl;
    destruct (l !! i) as [[ts k1]|] eqn:Ei; try (by intros [= _ <-]); try done.
  destruct (SplitByRatingPlan ts rp) as [ts' [newTs|]]; [|by intros [= _ <-]].
  pose proof (Forall_lookup_1 _ _ _ _ Hl Ei) as Hk. simpl in Hk. subst k1.
  apply IH. apply Forall_app. split; [by apply Forall_insert|by apply Forall_singleton].
Qed.

Lemma plans_loop_at fuel start : ∀ ris index k aS aE l l',
  all_at k l → (aS = false → length l = 1%nat) →
  plans_loop fuel start index ris aS aE l = Ok l' →
  ∃ k', all_at k' l' ∧
    (k' = k ∨ ∃ n rp, k' = (index + n)%nat ∧ ris !! n = Some rp ∧
                      Before (rinf_ActivationTime rp) start = true).
Proof.
  induction ris as [|rp ris IH]; intros index k aS aE l l' Hl Hlen; simpl.
  { intros [= <-]. eauto. }
  destruct (negb aS && negb aE && Before (rinf_ActivationTime rp) start) eqn:E.
  - apply andb_true_iff in E as [[->%negb_true_iff _]%andb_true_iff Hb].
    destruct l as [|[ts k0] [|? ?]]; try discriminate (Hlen eq_refl).
    intros E. apply (IH (S index) index) in E; [|by apply Forall_singleton|done].
    destruct E as (k' & Hk' & [-> |(n & rp' & -> & Hn & Hb')]); exists k' || eexists;
      (split; [done|right]); [exists 0%nat, rp|exists (S n), rp']; split_and!; done || lia.
  - intros E'. apply bind_ok_inv in E' as ([stopped l1] & E1 & E2).
    apply (plan_loop_at k) in E1; [|done].
    apply (IH (S index) k) in E2; [|done|done].
    destruct E2 as (k' & Hk' & [-> |(n & rp' & -> & Hn & Hb')]); eexists;
      (split; [done|]); [by left|right]. exists (S n), rp'. split_and!; done || lia.
Qed.

Lemma days_loop_at k fuel l l' : all_at k l → days_loop fuel l = Ok l' → all_at k l'.
Proof.
  intros Hl. unfold days_loop. intros E. apply bind_ok_inv in E as (parts & E & [= <-]).
  revert parts E. induction Hl as [|[ts k1] l Hk Hl IH]; simpl; intros parts E; [by injection E as <-|].
  apply bind_ok_inv in E as (p & E1 & E). apply bind_ok_inv in E as (ps & E2 & [= <-]).
  apply bind_ok_inv in E1 as (q & _ & [= <-]). simpl in Hk. subst k1. simpl.
  apply Forall_app. split; [by apply Forall_fmap, Forall_true|by apply IH].
Qed.

(** The infos as sorted have the same activation times. *)
Lemma spans_loop_at `{GoRuntime} k data fuel : ∀ l ris l' ris',
  all_at k l → spans_loop fuel data ris l = Ok (l', ris') →
  all_at k l' ∧ rinf_ActivationTime <$> ris' = rinf_ActivationTime <$> ris.
Proof.
  induction fuel as [|fuel IH]; intros [|[ts k1] l] ris l' ris' Hl; simpl; try done;
    try (by intros [= <- <-]).
  apply Forall_cons in Hl as [Hk Hl]. simpl in Hk. subst k1. intros E.
  apply bind_ok_inv in E as (rp & E1 & E).
  assert (ris !! k = Some rp) as Hk by (destruct (ris !! k); [by injection E1 as ->|done]).
  apply bind_ok_inv in E as ([sel sorted] & _ & E).
  apply bind_ok_inv in E as ([ts' news] & _ & E).
  apply bind_ok_inv in E as ([done_ ris1] & E2 & [= <- <-]).
  apply IH in E2 as [Hd Ha]; [|apply Forall_app; split; [by apply Forall_fmap, Forall_true|done]].
  split; [by apply Forall_cons|]. rewrite Ha. unfold RatingInfos in *.
  rewrite list_fmap_insert. apply list_insert_id. rewrite list_lookup_fmap, Hk. done.
Qed.

(** Rounding keeps the rating infos of the spans. *)
Abbreviation all_of rp := (Forall (λ x : TimeSpan, ts_ratingInfo x = rp)).

Lemma overlap_loop_of rp e : ∀ rest i k k' r,
  all_of rp rest → overlap_loop e i rest k = (k', r) → all_of rp r.
Proof.
  induction rest as [|x rest IH]; intros i k k' r Hl; simpl; [by intros [= _ <-]|].
  apply Forall_cons in Hl as [Hx Hl].
  destruct (_ || _).
  - destruct (overlap_loop e (S i) rest i) eqn:E. intros [= _ <-]. apply Forall_cons. eauto.
  - destruct (Before _ _); [intros [= _ <-]; by apply Forall_cons|].
    destruct (overlap_loop e (S i) rest k) eqn:E. intros [= _ <-]. apply Forall_cons. eauto.
Qed.

Lemma RemoveOverlapedFromIndex_of rp l i l' :
  all_of rp l → RemoveOverlapedFromIndex l i = Ok l' → all_of rp l'.
Proof.
  intros Hl. unfold RemoveOverlapedFromIndex. intros E.
  apply bind_ok_inv in E as (ts & _ & E).
  destruct (overlap_loop _ _ _ _) as [k r] eqn:Eo. injection E as <-.
  apply Forall_app. split; [by apply Forall_take|].
  apply Forall_drop. eapply overlap_loop_of; [|exact Eo]. by apply Forall_drop.
Qed.

Lemma round_to_increment_of `{GoRuntime} ts : ts_ratingInfo (round_to_increment ts).2 = ts_ratingInfo ts.
Proof.
  unfold round_to_increment. destruct (ts_RateInterval ts); [|done].
  destruct (GetRateParameters _ _) as [[[? ?] ?] ?]. by repeat case_match.
Qed.

Lemma round_loop_of `{GoRuntime} rp fuel : ∀ done_ todo l,
  all_of rp done_ → all_of rp todo → round_loop fuel done_ todo = Ok l → all_of rp l.
Proof.
  induction fuel as [|fuel IH]; intros done_ [|ts todo] l Hd Ht; simpl; try done;
    try (by intros [= <-]).
  apply Forall_cons in Ht as [Hts Ht]. pose proof (round_to_increment_of ts) as Hr.
  destruct (round_to_increment ts) as [[] ts']; simpl in Hr.
  - intros E. apply bind_ok_inv in E as (all & E1 & E).
    apply (RemoveOverlapedFromIndex_of rp) in E1;
      [|apply Forall_app; split; [done|apply Forall_cons; split; [congruence|done]]].
    eapply IH; [| |exact E]; [by apply (Forall_take _ (S (length done_)))|].
    by apply (Forall_drop _ (S (length done_))).
  - apply IH; [|done]. apply Forall_app. split; [done|apply Forall_singleton; congruence].
Qed.


(** A call of two minutes; the price changes from 1 to 2 after the first one. *)
Definition priced (v : float64) : RateInterval :=
  mkRateInterval (Some (mkRITiming None None None None "00:00:00" "" "" ""))
    (Some (mkRIRate f0 "*middle" 4 f0 "" (Some [mkRate 0 v Minute Minute]) "")) f0.
Definition changed_call : CallDescriptor :=
  let info m v := mkRatingInfo "1001" "RP" "49" "DST" (Date 2020 3 2 10 m 0 0 UTC)
                    (Some [priced v]) [] in
  cd_set_rated
    (cd_set_RatingInfos
      (new_descriptor "call" "cgrates.org" "49" (Date 2020 3 2 10 1 0 0 UTC)
         (Date 2020 3 2 10 3 0 0 UTC)) [info 0 f1; info 2 (f_of_Z 2)])
    (2 * Minute) VOICE f0.

