(* ===== verification/PricingExamples.v ===== *)
(** * Pricing against a small database

    The definitions of [Rating.v] evaluated end to end: a database with three
    subjects, two of which fall back on others, and a plan of one price per minute
    before and after noon. *)
From S2P Require Import Prelude GoFloat GoStrings GoTime CoreUtils RateInterval RatingPlan TimeSpans CallDescriptor RatingProfile CallCost Rating RatingLookup.

Definition from (clock : string) : RITiming := mkRITiming None None None None clock "" "" clock.

(** A unit per started minute, free of charge from [maxCost] on when it is positive. *)
Definition per_minute (maxCost : float64) : RIRate :=
  mkRIRate f0 "*middle" 4 maxCost MAX_COST_FREE (Some [mkRate 0 f1 Minute Minute]) "per_minute".

Definition minute_plan (maxCost : float64) : RatingPlan :=
  AddRateInterval rit_tag rir_tag (mkRatingPlan "RP" ∅ ∅ None) META_ANY
    [mkRateInterval (Some (from "00:00:00")) (Some (per_minute maxCost)) f0;
     mkRateInterval (Some (from "12:00:00")) (Some (per_minute maxCost)) f0].

(** "1001" has prices; "1002" and "1003" have none of their own and fall back on
    each other and on "1001", in different orders. *)
Definition profile (plan : string) (fallbacks : list string) : RatingProfile :=
  mkRatingProfile "" [mkRatingPlanActivation (Date 2020 1 1 0 0 0 0 UTC) plan fallbacks].
Definition profiles : gmap string RatingProfile :=
  <["*out:t:call:1001" := profile "RP" []]>
  (<["*out:t:call:1002" := profile "EMPTY" ["*out:t:call:1001"; "*out:t:call:1003"]]>
  (<["*out:t:call:1003" := profile "EMPTY" ["*out:t:call:1003"; "*out:t:call:1001"]]> ∅)).

Definition minute_prices (maxCost : float64) : RatingData := {|
  dm_GetRatingProfile key :=
    match profiles !! key with Some rpf => Ok (Some rpf) | None => Err ErrNotFound end;
  dm_GetRatingPlan id :=
    if decide (id = "RP") then Ok (Some (minute_plan maxCost))
    else if decide (id = "EMPTY") then Ok (Some (mkRatingPlan "EMPTY" ∅ ∅ (Some ∅)))
    else Err ErrNotFound;
  dm_GetReverseDestination _ := Err ErrNotFound;
  rpSubjectPrefixMatching := false
|}.

(** Two minutes around a noon. *)
Definition noon_request (subject : string) : CallDescriptor :=
  mkCallDescriptor "call" "t" subject subject "49" (Date 2020 3 2 11 59 0 0 UTC)
    (Date 2020 3 2 12 1 0 0 UTC) f0 0 "" [] None "" ∅ f0 0 f0 "" "" false false false false.

Definition price (maxCost : float64) (subject : string) : res (float64 * option string) :=
  '(cc, err, _) ← @GetCost reference_runtime (minute_prices maxCost) 1000 9
                    (noon_request subject);
  Ok (cc_Cost cc, err).

Lemma per_minute_price : price f0 "1001" = Ok (f_of_Z 2, None).
Proof. vm_compute. reflexivity. Qed.

Lemma unknown_subject : price f0 "1004" = Ok (f_of_Z (-1), Some ErrRatingPlanNotFound).
Proof. vm_compute. reflexivity. Qed.

(** A call is not priced by a fallback subject that has prices when an earlier one
    in the list has none and fallbacks of its own: the info it leaves behind keeps the
    later subject's info out, and the destination is reported as unauthorized.  In the
    other order the call is priced. *)
Theorem fallback_order_matters :
  price f0 "1002" = Ok (f_of_Z 2, None) ∧
  price f0 "1003" = Ok (f_of_Z (-1), Some ErrUnauthorizedDestination).
Proof. split; vm_compute; reflexivity. Qed.

(** A call of two minutes at one unit each with a maximum of three is charged the
    maximum, three units: the cost so far is added up anew at every span, so the
    first minute counts twice.  A maximum above that sum leaves the price at two. *)
Theorem GetCost_counts_the_maximum_twice :
  price (f_of_Z 3) "1001" = Ok (f_of_Z 3, None) ∧
  price (f_of_Z 4) "1001" = Ok (f_of_Z 2, None).
Proof. split; vm_compute; reflexivity. Qed.
