(* ===== verification/Balances.v ===== *)
(** * Balances

    [engine/balances.go] and [engine/balance_filter.go]: what an account has, of units or
    of money, the filters that select balances and make new ones, with [ValueFormula] of
    [utils/value_formula.go] for the values computed from the calendar.  The operations
    here are those on one balance or one list; a balance points to its account by the
    account's position in the store of Accounts, where the debits are.  A nil factor is
    [None].  Left out: publishing events, JSON and the parsing of filter values. *)
From S2P Require Import Prelude GoFloat GoStrings GoTime DateSeries CoreUtils Collections Values RateInterval RatingProfile.

Definition MetaDefault : string := "*default".
Definition ZERO_RATING_SUBJECT_PREFIX : string := "*zero".
Definition ValueFactor := gmap string float64.

Record Balance := mkBalance {
  b_Uuid : string; b_ID : string; b_Value : float64; b_ExpirationDate : Time;
  b_Weight : float64; b_DestinationIDs : StringMap; b_RatingSubject : string;
  b_Categories : StringMap; b_SharedGroups : StringMap; b_Timings : list RITiming;
  b_TimingIDs : StringMap; b_Disabled : bool; b_Factor : option ValueFactor;
  b_Blocker : bool; b_precision : Z; b_account : option nat; b_dirty : bool }.

(** [&Balance{Uuid: uuid, ID: id, Value: value}] *)
Definition new_balance (uuid id : string) (value : float64) : Balance :=
  mkBalance uuid id value zero_time f0 None "" None None [] None false None false 0 None false.

(** Assignments to one field. *)
Definition b_set_Value (b : Balance) (v : float64) : Balance :=
  mkBalance (b_Uuid b) (b_ID b) v (b_ExpirationDate b) (b_Weight b) (b_DestinationIDs b)
    (b_RatingSubject b) (b_Categories b) (b_SharedGroups b) (b_Timings b) (b_TimingIDs b)
    (b_Disabled b) (b_Factor b) (b_Blocker b) (b_precision b) (b_account b) (b_dirty b).
Definition b_set_dirty (b : Balance) (d : bool) : Balance :=
  mkBalance (b_Uuid b) (b_ID b) (b_Value b) (b_ExpirationDate b) (b_Weight b)
    (b_DestinationIDs b) (b_RatingSubject b) (b_Categories b) (b_SharedGroups b) (b_Timings b)
    (b_TimingIDs b) (b_Disabled b) (b_Factor b) (b_Blocker b) (b_precision b) (b_account b) d.
Definition b_set_precision (b : Balance) (p : Z) : Balance :=
  mkBalance (b_Uuid b) (b_ID b) (b_Value b) (b_ExpirationDate b) (b_Weight b)
    (b_DestinationIDs b) (b_RatingSubject b) (b_Categories b) (b_SharedGroups b) (b_Timings b)
    (b_TimingIDs b) (b_Disabled b) (b_Factor b) (b_Blocker b) p (b_account b) (b_dirty b).
Definition b_set_account (b : Balance) (a : option nat) : Balance :=
  mkBalance (b_Uuid b) (b_ID b) (b_Value b) (b_ExpirationDate b) (b_Weight b)
    (b_DestinationIDs b) (b_RatingSubject b) (b_Categories b) (b_SharedGroups b) (b_Timings b)
    (b_TimingIDs b) (b_Disabled b) (b_Factor b) (b_Blocker b) (b_precision b) a (b_dirty b).
Definition b_set_DestinationIDs (b : Balance) (d : StringMap) : Balance :=
  mkBalance (b_Uuid b) (b_ID b) (b_Value b) (b_ExpirationDate b) (b_Weight b) d
    (b_RatingSubject b) (b_Categories b) (b_SharedGroups b) (b_Timings b) (b_TimingIDs b)
    (b_Disabled b) (b_Factor b) (b_Blocker b) (b_precision b) (b_account b) (b_dirty b).
Definition b_set_Factor (b : Balance) (f : option ValueFactor) : Balance :=
  mkBalance (b_Uuid b) (b_ID b) (b_Value b) (b_ExpirationDate b) (b_Weight b)
    (b_DestinationIDs b) (b_RatingSubject b) (b_Categories b) (b_SharedGroups b) (b_Timings b)
    (b_TimingIDs b) (b_Disabled b) f (b_Blocker b) (b_precision b) (b_account b) (b_dirty b).

(** ** Values computed from the calendar *)

(** A parameter of a formula: a number, a string or its bytes, anything else. *)
Inductive formula_param := PFloat (f : float64) | PString (s : string) | POther.

Record ValueFormula := mkValueFormula {
  vf_Method : string; vf_Params : gmap string formula_param; vf_Static : float64 }.

Definition incrementalFormula (now : Time) (params : gmap string formula_param) : float64 :=
  match params !! "Units", params !! "Interval", params !! "Increment" with
  | Some (PFloat units), Some (PString interval), Some (PString increment) =>
      let div d := fdiv units d in
      let per a b := bool_decide (increment = a ∧ interval = b) in
      if per "day" "week" then div (f_of_Z 7)
      else if per "day" "month" then div (DaysInMonth (Year now) (Month now))
      else if per "day" "year" then div (DaysInYear (Year now))
      else if per "hour" "day" then div (f_of_Z 24)
      else if per "hour" "month" then div (fmul (DaysInMonth (Year now) (Month now)) (f_of_Z 24))
      else if per "hour" "year" then div (fmul (DaysInYear (Year now)) (f_of_Z 24))
      else if per "minute" "hour" then div (f_of_Z 60)
      else f0
  | _, _, _ => f0
  end.

(** ** Filters of balances

    A nil field does not restrict. *)
Record BalanceFilter := mkBalanceFilter {
  bf_Uuid : option string; bf_ID : option string; bf_Type : option string;
  bf_Value : option ValueFormula; bf_ExpirationDate : option Time; bf_Weight : option float64;
  bf_DestinationIDs : option StringMap; bf_RatingSubject : option string;
  bf_Categories : option StringMap; bf_SharedGroups : option StringMap;
  bf_TimingIDs : option StringMap; bf_Timings : list RITiming; bf_Disabled : option bool;
  bf_Factor : option (option ValueFactor); bf_Blocker : option bool }.

(** A field of a filter that may be nil. *)
Definition bf_get {A} (f : BalanceFilter → option A) (bp : option BalanceFilter) (d : A) : A :=
  match bp with Some bp => default d (f bp) | None => d end.

Definition bf_GetValue (now : Time) (bp : option BalanceFilter) : float64 :=
  match bp ≫= bf_Value with
  | None => f0
  | Some v =>
      if decide (vf_Method v = "") then vf_Static v
      else if decide (vf_Method v = "*incremental") then incrementalFormula now (vf_Params v)
      else f0
  end.
Definition bf_GetType (bp : option BalanceFilter) : string := bf_get bf_Type bp "".
Definition bf_GetUuid (bp : option BalanceFilter) : string := bf_get bf_Uuid bp "".
Definition bf_GetID (bp : option BalanceFilter) : string := bf_get bf_ID bp "".
Definition bf_GetDestinationIDs (bp : option BalanceFilter) : StringMap :=
  bf_get bf_DestinationIDs bp (Some ∅).
Definition bf_GetCategories (bp : option BalanceFilter) : StringMap :=
  bf_get bf_Categories bp (Some ∅).
Definition bf_GetTimingIDs (bp : option BalanceFilter) : StringMap :=
  bf_get bf_TimingIDs bp (Some ∅).
Definition bf_GetSharedGroups (bp : option BalanceFilter) : StringMap :=
  bf_get bf_SharedGroups bp (Some ∅).
Definition bf_GetWeight (bp : option BalanceFilter) : float64 := bf_get bf_Weight bp f0.
Definition bf_GetRatingSubject (bp : option BalanceFilter) : string :=
  bf_get bf_RatingSubject bp "".
Definition bf_GetDisabled (bp : option BalanceFilter) : bool := bf_get bf_Disabled bp false.
Definition bf_GetBlocker (bp : option BalanceFilter) : bool := bf_get bf_Blocker bp false.
Definition bf_GetExpirationDate (bp : option BalanceFilter) : Time :=
  bf_get bf_ExpirationDate bp zero_time.
Definition bf_GetFactor (bp : option BalanceFilter) : option ValueFactor :=
  bf_get bf_Factor bp (Some ∅).
Definition EmptyExpirationDate (bp : BalanceFilter) : bool :=
  match bf_ExpirationDate bp with None => true | Some t => IsZero t end.

(** ** One balance *)

(** The factor, the precision and the account are not copied. *)
Definition Balance_Clone (b : Balance) : Balance :=
  mkBalance (b_Uuid b) (b_ID b) (b_Value b) (b_ExpirationDate b) (b_Weight b)
    (b_DestinationIDs b) (b_RatingSubject b) (b_Categories b) (b_SharedGroups b) (b_Timings b)
    (b_TimingIDs b) (b_Disabled b) None (b_Blocker b) 0 None (b_dirty b).

(** The filter itself must not be nil. *)
Definition CreateBalance (now : Time) (bp : option BalanceFilter) : res Balance :=
  bf ← deref bp;
  Ok (Balance_Clone
    (mkBalance (bf_GetUuid bp) (bf_GetID bp) (bf_GetValue now bp) (bf_GetExpirationDate bp)
       (bf_GetWeight bp) (bf_GetDestinationIDs bp) (bf_GetRatingSubject bp)
       (bf_GetCategories bp) (bf_GetSharedGroups bp) (bf_Timings bf) (bf_GetTimingIDs bp)
       (bf_GetDisabled bp) (bf_GetFactor bp) (bf_GetBlocker bp) 0 None false)).

(** The factor of the filter is not among the fields it sets. *)
Definition ModifyBalance (now : Time) (bf : BalanceFilter) (b : Balance) : Balance :=
  mkBalance (b_Uuid b) (default (b_ID b) (bf_ID bf))
    (match bf_Value bf with Some _ => bf_GetValue now (Some bf) | None => b_Value b end)
    (default (b_ExpirationDate b) (bf_ExpirationDate bf)) (default (b_Weight b) (bf_Weight bf))
    (default (b_DestinationIDs b) (bf_DestinationIDs bf))
    (default (b_RatingSubject b) (bf_RatingSubject bf))
    (default (b_Categories b) (bf_Categories bf))
    (default (b_SharedGroups b) (bf_SharedGroups bf))
    (match bf_Timings bf with [] => b_Timings b | l => l end)
    (default (b_TimingIDs b) (bf_TimingIDs bf)) (default (b_Disabled b) (bf_Disabled bf))
    (b_Factor b) (default (b_Blocker b) (bf_Blocker bf)) (b_precision b) (b_account b) true.

(** Assigning the value to a filter without one panics; the timings are always those of
    the balance. *)
Definition nonempty (s : string) (d : option string) : option string :=
  if decide (s = "") then d else Some s.
Definition flag (b : bool) (d : option bool) : option bool := if b then Some true else d.
Definition LoadFromBalance `{GoRuntime} (bf : BalanceFilter) (b : Balance) : res BalanceFilter :=
  value ← (if feqb (b_Value b) f0 then Ok (bf_Value bf)
           else v ← deref (bf_Value bf);
                Ok (Some (mkValueFormula (vf_Method v) (vf_Params v) (b_Value b))));
  let sm m d := if StringMap_IsEmpty m then d else Some m in
  Ok (mkBalanceFilter (nonempty (b_Uuid b) (bf_Uuid bf)) (nonempty (b_ID b) (bf_ID bf))
        (bf_Type bf) value
        (if IsZero (b_ExpirationDate b) then bf_ExpirationDate bf else Some (b_ExpirationDate b))
        (if feqb (b_Weight b) f0 then bf_Weight bf else Some (b_Weight b))
        (sm (b_DestinationIDs b) (bf_DestinationIDs bf))
        (nonempty (b_RatingSubject b) (bf_RatingSubject bf))
        (sm (b_Categories b) (bf_Categories bf)) (sm (b_SharedGroups b) (bf_SharedGroups bf))
        (sm (b_TimingIDs b) (bf_TimingIDs bf)) (b_Timings b)
        (flag (b_Disabled b) (bf_Disabled bf))
        (match b_Factor b with
         | Some f => if decide (f = ∅) then bf_Factor bf else Some (b_Factor b)
         | None => bf_Factor bf end)
        (flag (b_Blocker b) (bf_Blocker bf))).

Definition IsDefault (b : Balance) : bool := bool_decide (b_ID b = MetaDefault).
Definition IsExpiredAt (b : Balance) (t : Time) : bool :=
  negb (IsZero (b_ExpirationDate b)) && Before (b_ExpirationDate b) t.

Definition Balance_IsActiveAt (b : Balance) (t : Time) : res bool :=
  if b_Disabled b then Ok false
  else match b_Timings b with
       | [] => Ok true
       | timings => res_existsb (λ tim, IsActiveAt tim t) timings
       end.

Definition MatchCategory (b : Balance) (category : string) : bool :=
  (size (sm_entries (b_Categories b)) =? 0)%nat || sm_lookup (b_Categories b) category.
Definition HasDestination (b : Balance) : bool :=
  (0 <? size (sm_entries (b_DestinationIDs b)))%nat &&
  negb (sm_lookup (b_DestinationIDs b) ANY).
Definition MatchDestination (b : Balance) (destinationID : string) : bool :=
  negb (HasDestination b) || sm_lookup (b_DestinationIDs b) destinationID.

Definition SetValue (b : Balance) (amount : float64) : Balance :=
  b_set_dirty (b_set_Value b (Round amount globalRoundingDecimals ROUNDING_MIDDLE)) true.
Definition AddValue (b : Balance) (amount : float64) : Balance :=
  SetValue b (fadd (b_Value b) amount).
Definition SubstractValue (b : Balance) (amount : float64) : Balance :=
  SetValue b (fsub (b_Value b) amount).

Definition ValueFactor_GetValue (f : option ValueFactor) (tor : string) : float64 :=
  default (f_of_Z 1) (default ∅ f !! tor).

Section balances.
Context `{GoRuntime}.

(** A filter field that is nil, or one the balance compares well with. *)
Definition unless {A} (f : option A) (test : A → bool) : bool :=
  match f with None => true | Some x => test x end.

(** The tests on the identifiers: the answer, if one of them decides. *)
Definition by_id (b : Balance) (o : BalanceFilter) (skipIds : bool) : option bool :=
  if skipIds then None
  else match bf_Uuid o, bf_ID o with
       | Some uuid, id =>
           if decide (uuid = "") then
             match id with
             | Some id => if decide (id = "") then None else Some (bool_decide (b_ID b = id))
             | None => None
             end
           else Some (bool_decide (b_Uuid b = uuid))
       | None, Some id => if decide (id = "") then None else Some (bool_decide (b_ID b = id))
       | None, None => None
       end.

Definition same_expiry (b : Balance) (o : BalanceFilter) : bool :=
  unless (bf_ExpirationDate o) (TimeEqual (b_ExpirationDate b)).

(** The tests on the other fields, with a comparison of maps. *)
Definition match_restrictions (sm : StringMap → StringMap → bool) (b : Balance) (o : BalanceFilter)
    : bool :=
  unless (bf_Weight o) (feqb (b_Weight b)) &&
  unless (bf_Blocker o) (Bool.eqb (b_Blocker b)) &&
  unless (bf_Disabled o) (Bool.eqb (b_Disabled b)) &&
  unless (bf_DestinationIDs o) (sm (b_DestinationIDs b)) &&
  unless (bf_Categories o) (sm (b_Categories b)) &&
  unless (bf_TimingIDs o) (sm (b_TimingIDs b)) &&
  unless (bf_SharedGroups o) (sm (b_SharedGroups b)) &&
  unless (bf_RatingSubject o) (λ s, bool_decide (b_RatingSubject b = s)).

Definition MatchFilter (b : Balance) (o : option BalanceFilter) (skipIds skipExpiry : bool)
    : bool :=
  match o with
  | None => true
  | Some o =>
      match by_id b o skipIds with
      | Some r => r
      | None => (skipExpiry || same_expiry b o) && match_restrictions StringMap_Includes b o
      end
  end.
Definition HardMatchFilter (b : Balance) (o : option BalanceFilter) (skipIds : bool) : bool :=
  match o with
  | None => true
  | Some o =>
      match by_id b o skipIds with
      | Some r => r
      | None => same_expiry b o && match_restrictions StringMap_Equal b o
      end
  end.

(** Comparing writes the destination "any" into balances without destinations. *)
Definition any_destination (b : Balance) : Balance :=
  if (size (sm_entries (b_DestinationIDs b)) =? 0)%nat
  then b_set_DestinationIDs b (Some {[ANY := true]}) else b.
Definition Balance_Equal (b o : Balance) : bool * Balance * Balance :=
  let b := any_destination b in
  let o := any_destination o in
  (bool_decide (b_Uuid b = b_Uuid o) && bool_decide (b_ID b = b_ID o) &&
   TimeEqual (b_ExpirationDate b) (b_ExpirationDate o) && feqb (b_Weight b) (b_Weight o) &&
   StringMap_Equal (b_DestinationIDs b) (b_DestinationIDs o) &&
   bool_decide (b_RatingSubject b = b_RatingSubject o) &&
   StringMap_Equal (b_Categories b) (b_Categories o) &&
   StringMap_Equal (b_SharedGroups b) (b_SharedGroups o) &&
   Bool.eqb (b_Disabled b) (b_Disabled o) && Bool.eqb (b_Blocker b) (b_Blocker o), b, o).

(** ** Lists of balances

    What comparing writes into the balances of a list is not returned. *)

Definition Balances_Less (a b : Balance) : bool :=
  (b_precision b <? b_precision a) ||
  ((b_precision b =? b_precision a) && fltb (b_Weight b) (b_Weight a)).
Definition Balances_Sort (bc : list Balance) : list Balance := go_sort Balances_Less bc.

Definition GetTotalValue (now : Time) (bc : list Balance) : res float64 :=
  total ← foldl (λ acc b,
    total ← acc;
    if IsExpiredAt b now then Ok total
    else active ← Balance_IsActiveAt b now;
         Ok (if (active : bool) then fadd total (b_Value b) else total)) (Ok f0) bc;
  Ok (Round total globalRoundingDecimals ROUNDING_MIDDLE).

Fixpoint equal_loop (bc o : list Balance) : bool :=
  match bc, o with
  | b :: bc', x :: o' => (Balance_Equal b x).1.1 && equal_loop bc' o'
  | _, _ => true
  end.
Definition Balances_Equal (bc o : list Balance) : bool :=
  if (length bc =? length o)%nat then equal_loop (Balances_Sort bc) (Balances_Sort o) else false.

Definition HasBalance (bc : list Balance) (balance : Balance) : bool :=
  existsb (λ b, (Balance_Equal b balance).1.1) bc.
End balances.

Definition Balances_Clone (bc : list Balance) : list Balance := Balance_Clone <$> bc.
Definition Balances_GetBalance (bc : list Balance) (uuid : string) : option Balance :=
  List.find (λ b, bool_decide (b_Uuid b = uuid)) bc.

(** ** Summaries *)

Record BalanceSummary := mkBalanceSummary {
  bs_UUID : string; bs_ID : string; bs_Type : string; bs_Value : float64; bs_Disabled : bool }.
Definition AsBalanceSummary (b : Balance) (typ : string) : BalanceSummary :=
  mkBalanceSummary (b_Uuid b) (if decide (b_ID b = "") then b_Uuid b else b_ID b) typ
    (b_Value b) (b_Disabled b).
Definition BalanceSummaryWithUUD (bs : list BalanceSummary) (bsUUID : string)
    : option BalanceSummary :=
  List.find (λ blc, bool_decide (bs_UUID blc = bsUUID)) bs.
Definition BalanceSummary_FieldAsInterface (bl : BalanceSummary) (fldPath : list string)
    : res iface :=
  match fldPath with
  | [f] =>
      if decide (f = "UUID") then Ok (IString (bs_UUID bl))
      else if decide (f = "ID") then Ok (IString (bs_ID bl))
      else if decide (f = "Type") then Ok (IString (bs_Type bl))
      else if decide (f = "Value") then Ok (IFloat64 (bs_Value bl))
      else if decide (f = "Disabled") then Ok (IBool (bs_Disabled bl))
      else Err ("unsupported field prefix: <" +:+ f +:+ ">")
  | _ => Err NOT_FOUND
  end.
