(* ===== verification/Accounts.v ===== *)
(** * Accounts

    [engine/account.go] and [engine/sharedgroup.go] without the debits: the accounts with
    their balances, which balances serve a call and in which order, those shared with
    other accounts, cloning and saving.

    Accounts and balances are shared by pointer: a debit changes the balance an account, a
    list of useful balances and a shared group have in common.  They are a store, and a
    pointer is a position in it; every account read from the database is a new object.
    The call descriptor, which the debits change as well, is part of the state.  Left out:
    unit counters and action triggers (what would be counted is recorded), the events sent
    to statistics and thresholds, remote databases. *)
From S2P Require Import Prelude GoFloat GoStrings GoTime CoreUtils Collections Values RateInterval TimeSpans CallDescriptor RatingProfile CallCost Stateful Balances.

Definition MONETARY : string := "*monetary".
Definition GENERIC : string := "*generic".
Definition MINE_PREFIX : string := "*mine_".

Record Account := mkAccount {
  acc_ID : string; acc_BalanceMap : gmap string (list nat); acc_AllowNegative : bool;
  acc_Disabled : bool }.

(** An account in the database, with its balances. *)
Record StoredAccount := mkStoredAccount {
  sa_ID : string; sa_BalanceMap : gmap string (list Balance); sa_AllowNegative : bool;
  sa_Disabled : bool }.

Record SharingParameters := mkSharingParameters { sp_Strategy : string; sp_RatingSubject : string }.
Record SharedGroup := mkSharedGroup {
  sg_Id : string; sg_AccountParameters : gmap string (option SharingParameters);
  sg_MemberIds : StringMap }.

(** [as_uuids] and [as_rands] count the identifiers and the permutations drawn. *)
Record AccountState := mkAccountState {
  as_cd : CallDescriptor; as_balances : list Balance; as_accounts : list Account;
  as_db : gmap string StoredAccount; as_uuids : nat; as_rands : nat;
  as_counted : list (nat * float64 * string) }.

Class AccountData := {
  GenUUID : nat → string;
  (** the permutations of [rand.Perm] *)
  rand_Perm : nat → nat → list nat;
  rand_Perm_perm k n : rand_Perm k n ≡ₚ seq 0 n;
  dm_GetSharedGroup : string → res (option SharedGroup);
  (** the errors of the database, none for an account that is only missing *)
  dm_GetAccount_error : string → option string;
  dm_SetAccount_error : string → option string;
  (** the clock, which does not move during one operation *)
  acc_now : Time;
  BalanceRatingSubject : gmap string string
}.

#[local] Abbreviation M := (SM AccountState).

Definition set_cd (cd : CallDescriptor) : M () := modify (λ st,
  mkAccountState cd (as_balances st) (as_accounts st) (as_db st) (as_uuids st) (as_rands st)
    (as_counted st)).
Definition set_balances (bs : list Balance) (st : AccountState) : AccountState :=
  mkAccountState (as_cd st) bs (as_accounts st) (as_db st) (as_uuids st) (as_rands st)
    (as_counted st).
Definition set_accounts (accs : list Account) (st : AccountState) : AccountState :=
  mkAccountState (as_cd st) (as_balances st) accs (as_db st) (as_uuids st) (as_rands st)
    (as_counted st).
Definition set_accounts_db (db : gmap string StoredAccount) (st : AccountState) : AccountState :=
  mkAccountState (as_cd st) (as_balances st) (as_accounts st) db (as_uuids st) (as_rands st)
    (as_counted st).

(** Reading and changing what a pointer points to; a new object gets the next position. *)
Definition balance (l : nat) : M Balance := λ st, (deref (as_balances st !! l), st).
Definition set_balance (l : nat) (b : Balance) : M () :=
  modify (λ st, set_balances (<[l := b]> (as_balances st)) st).
Definition account (a : nat) : M Account := λ st, (deref (as_accounts st !! a), st).
Definition alloc_balance (b : Balance) : M nat := λ st,
  (Ok (length (as_balances st)), set_balances (as_balances st ++ [b]) st).
Definition alloc_account (acc : Account) : M nat := λ st,
  (Ok (length (as_accounts st)), set_accounts (as_accounts st ++ [acc]) st).

(** The value at a position, for the comparisons of sorting. *)
Definition balance_at (st : AccountState) (l : nat) : Balance :=
  default (new_balance "" "" f0) (as_balances st !! l).

Section accounts.
Context `{GoRuntime} `{RatingData} `{AccountData}.

Definition new_uuid : M string := λ st,
  (Ok (GenUUID (as_uuids st)),
   mkAccountState (as_cd st) (as_balances st) (as_accounts st) (as_db st) (S (as_uuids st))
     (as_rands st) (as_counted st)).
(** What [Account.countUnits] is called with. *)
Definition countUnits (a : nat) (amount : float64) (kind : string) : M () := modify (λ st,
  mkAccountState (as_cd st) (as_balances st) (as_accounts st) (as_db st) (as_uuids st)
    (as_rands st) (as_counted st ++ [(a, amount, kind)])).

(** ** Balances for a destination *)

(** One prefix of the destination: the precision of the balance and whether it serves. *)
Definition prefix_match (dests : StringMap) (p : string) (destIDs : list string)
    (precision : Z) : Z * bool :=
  let found := omap (λ dID, sm_entries dests !! dID) destIDs in
  let foundResult := negb (bool_decide (found = [])) in
  let allInclude := forallb id found in
  let allExclude := forallb (λ kv, negb kv.2) (go_range (sm_entries dests)) in
  if foundResult || allExclude then
    if allInclude then (slen p, true) else (1, false)
  else (precision, false).

(** The prefixes, until the balance has a precision. *)
Fixpoint destination_precision (dests : StringMap) (prefixes : list string) (precision : Z) (useful : bool)
    : Z * bool :=
  match prefixes with
  | [] => (precision, useful)
  | p :: prefixes' =>
      let '(precision, u) :=
        match dm_GetReverseDestination p with
        | Ok destIDs => prefix_match dests p destIDs precision
        | _ => (precision, false)
        end in
      if 0 <? precision then (precision, useful || u)
      else destination_precision dests prefixes' precision (useful || u)
  end.

Definition unusable (b : Balance) (category sharedGroup : string) (aTime : Time) : bool :=
  b_Disabled b || IsExpiredAt b aTime ||
  ((size (sm_entries (b_SharedGroups b)) =? 0)%nat && fleb (b_Value b) f0 && negb (b_Blocker b)) ||
  (negb (bool_decide (sharedGroup = "")) && negb (sm_lookup (b_SharedGroups b) sharedGroup)) ||
  negb (MatchCategory b category).

(** One balance of the account: added to the useful ones or not. *)
Definition useful_step (a : nat) (prefix category sharedGroup : string) (aTime : Time)
    (usefulBalances : list nat) (l : nat) : M (list nat) :=
  b ← balance l;
  if unusable b category sharedGroup aTime then mret usefulBalances
  else
    let b := b_set_account b (Some a) in
    if HasDestination b then
      prefixes ← lift (SplitPrefix prefix MIN_PREFIX_MATCH);
      let '(precision, useful) := destination_precision (b_DestinationIDs b) prefixes (b_precision b) false in
      _ ← set_balance l (b_set_precision b precision);
      mret (if (useful : bool) then usefulBalances ++ [l] else usefulBalances)
    else _ ← set_balance l b; mret (usefulBalances ++ [l]).

Definition clear_precision (l : nat) : M () :=
  b ← balance l; set_balance l (b_set_precision b 0).
Definition sort_useful (ls : list nat) : M (list nat) :=
  gets (λ st, go_sort (λ x y, Balances_Less (balance_at st x) (balance_at st y)) ls).

Definition getBalancesForPrefix (a : nat) (prefix category tor sharedGroup : string)
    (aTime : Time) : M (list nat) :=
  acc ← account a;
  let balances := default [] (acc_BalanceMap acc !! tor) ++
    (if decide (tor ≠ MONETARY ∧ tor ≠ GENERIC) then default [] (acc_BalanceMap acc !! GENERIC)
     else []) in
  usefulBalances ← visit (useful_step a prefix category sharedGroup aTime) [] balances;
  usefulBalances ← sort_useful usefulBalances;
  _ ← visit (λ _ l, clear_precision l) () usefulBalances;
  mret usefulBalances.

(** ** The database *)

(** The exported fields. *)
Definition stored_balance (b : Balance) : Balance :=
  b_set_dirty (b_set_precision (b_set_account b None) 0) false.

(** A new copy of the account of the database, nil when it cannot be read. *)
Definition dm_GetAccount (id : string) : M (option nat) :=
  db ← gets as_db;
  match dm_GetAccount_error id, db !! id with
  | Some _, _ | None, None => mret None
  | None, Some sa =>
      balanceMap ← visit (λ bm kv,
          ls ← visit (λ ls b, l ← alloc_balance b; mret (ls ++ [l])) [] kv.2;
          mret (<[kv.1 := ls]> bm)) ∅ (go_range (sa_BalanceMap sa));
      a ← alloc_account (mkAccount id balanceMap (sa_AllowNegative sa) (sa_Disabled sa));
      mret (Some a)
  end.

Definition snapshot (st : AccountState) (acc : Account) : StoredAccount :=
  mkStoredAccount (acc_ID acc) (map (λ l, stored_balance (balance_at st l)) <$> acc_BalanceMap acc)
    (acc_AllowNegative acc) (acc_Disabled acc).
Definition allBalancesExpired (sa : StoredAccount) : bool :=
  forallb (λ kv, forallb (λ b, IsExpiredAt b acc_now) kv.2) (map_to_list (sa_BalanceMap sa)).

(** An account without balances does not replace one with balances.  The callers do not
    look at the error. *)
Definition dm_SetAccount (a : nat) : M () :=
  acc ← account a;
  modify (λ st,
    match dm_SetAccount_error (acc_ID acc) with
    | Some _ => st
    | None =>
        let sa := snapshot st acc in
        let sa := match as_db st !! acc_ID acc with
                  | Some ac =>
                      if bool_decide (acc_BalanceMap acc = ∅) && negb (allBalancesExpired ac)
                      then mkStoredAccount (acc_ID acc) (sa_BalanceMap ac) (acc_AllowNegative acc)
                             (acc_Disabled acc)
                      else sa
                  | None => sa
                  end in
        set_accounts_db (<[acc_ID acc := sa]> (as_db st)) st
    end).

Definition Account_Clone (a : nat) : M nat :=
  acc ← account a;
  balanceMap ← visit (λ bm kv,
      ls ← visit (λ ls l, b ← balance l; l' ← alloc_balance (Balance_Clone b); mret (ls ++ [l']))
             [] kv.2;
      mret (<[kv.1 := ls]> bm)) ∅ (go_range (acc_BalanceMap acc));
  alloc_account (mkAccount (acc_ID acc) balanceMap (acc_AllowNegative acc) (acc_Disabled acc)).

(** ** Shared groups *)

(** The balances of all members; a member counts also when it is listed as false. *)
Definition member_balances (sg : SharedGroup) (destination category balanceType : string)
    (ub : nat) (aTime : Time) (bc : list nat) (ubId : string) : M (list nat) :=
  own ← account ub;
  nUb ← (if decide (ubId = acc_ID own) then mret (Some ub)
         else
           nUb ← dm_GetAccount ubId;
           match nUb with
           | None => mret None
           | Some a => acc ← account a; mret (if acc_Disabled acc then None else Some a)
           end);
  match nUb with
  | None => mret bc
  | Some a =>
      sb ← getBalancesForPrefix a destination category balanceType (sg_Id sg) aTime;
      mret (bc ++ sb)
  end.
Definition SharedGroup_GetBalances (sg : SharedGroup) (destination category balanceType : string)
    (ub : nat) (aTime : Time) : M (list nat) :=
  visit (member_balances sg destination category balanceType ub aTime) []
    (go_range (sm_entries (sg_MemberIds sg))).*1.

Definition group_strategy (sg : SharedGroup) (accID : string) : string :=
  let params := match sg_AccountParameters sg !! accID with
                | Some sp => sp
                | None => default None (sg_AccountParameters sg !! ANY)
                end in
  match params with
  | Some sp => if decide (sp_Strategy sp = "") then "*mine_random" else sp_Strategy sp
  | None => "*mine_random"
  end.

(** [dest[perm[i]] = src[i]] *)
Definition shuffle (perm : list nat) (src : list nat) : list nat :=
  foldl (λ dest vi, <[vi.1 := vi.2]> dest) (replicate (length src) 0%nat) (zip perm src).

(** An unknown strategy is replaced by the default one. *)
Definition sort_by_strategy (strategy : string) (bc : list nat) : M (list nat * string) := λ st,
  let value l := b_Value (balance_at st l) in
  if bool_decide (strategy = "*lowest" ∨ strategy = "*mine_lowest") then
    (Ok (go_sort (λ x y, fltb (value x) (value y)) bc, strategy), st)
  else if bool_decide (strategy = "*highest" ∨ strategy = "*mine_highest") then
    (Ok (go_sort (λ x y, fgtb (value x) (value y)) bc, strategy), st)
  else
    (Ok (shuffle (rand_Perm (as_rands st) (length bc)) bc,
         if bool_decide (strategy = "*random" ∨ strategy = "*mine_random") then strategy
         else "*mine_random"),
     mkAccountState (as_cd st) (as_balances st) (as_accounts st) (as_db st) (as_uuids st)
       (S (as_rands st)) (as_counted st)).

(** [bc[0], bc[index] = bc[index], bc[0]] *)
Definition move_first (bc : list nat) (i : nat) : res (list nat) :=
  x ← deref (bc !! 0%nat); y ← deref (bc !! i); Ok (<[i := x]> (<[0%nat := y]> bc)).

Definition SortBalancesByStrategy (sg : SharedGroup) (myBalance : nat) (bc : list nat)
    : M (list nat) :=
  my ← balance myBalance;
  a ← lift (deref (b_account my));
  acc ← account a;
  r ← sort_by_strategy (group_strategy sg (acc_ID acc)) bc;
  let '(bc, strategy) := r in
  if HasPrefix strategy MINE_PREFIX then
    i ← gets (λ st, match list_find (λ l, b_Uuid (balance_at st l) = b_Uuid my) bc with
                    | Some (i, _) => i | None => 0%nat end);
    lift (move_first bc i)
  else mret bc.

(** The balances one useful balance stands for: itself, or those of its groups. *)
Definition expand_balance (a : nat) (destination category balanceType : string) (aTime : Time)
    (bc : list nat) (l : nat) : M (list nat) :=
  b ← balance l;
  match (go_range (sm_entries (b_SharedGroups b))).*1 with
  | [] => mret (bc ++ [l])
  | groups =>
      visit (λ bc sgID,
        match dm_GetSharedGroup sgID with
        | Panic => lift Panic
        | Err _ | Ok None => mret bc
        | Ok (Some sg) =>
            shared ← SharedGroup_GetBalances sg destination category balanceType a aTime;
            shared ← SortBalancesByStrategy sg l shared;
            mret (bc ++ shared)
        end) bc groups
  end.
Definition getAlldBalancesForPrefix (a : nat) (destination category balanceType : string)
    (aTime : Time) : M (list nat) :=
  balances ← getBalancesForPrefix a destination category balanceType "" aTime;
  visit (expand_balance a destination category balanceType aTime) [] balances.

(** Saves the other accounts whose balances have changed, each name once. *)
Definition save_dirty (own : nat) (saved : gset string) (l : nat) : M (gset string) :=
  b ← balance l;
  match b_account b with
  | Some a =>
      if negb (bool_decide (a = own)) && b_dirty b then
        acc ← account a;
        if decide (acc_ID acc ∈ saved) then mret saved
        else _ ← dm_SetAccount a; mret (saved ∪ {[acc_ID acc]})
      else mret saved
  | None => mret saved
  end.
Definition SaveDirtyBalances (bc : list nat) (own : nat) : M () :=
  _ ← visit (save_dirty own) ∅ bc; mret ().

(** ** The account *)

(** The first default balance, made when there is none. *)
Definition GetDefaultMoneyBalance (a : nat) : M nat :=
  acc ← account a;
  let money := default [] (acc_BalanceMap acc !! MONETARY) in
  found ← gets (λ st, list_find (λ l, IsDefault (balance_at st l) = true) money);
  match found with
  | Some (_, l) => mret l
  | None =>
      uuid ← new_uuid;
      l ← alloc_balance (new_balance uuid MetaDefault f0);
      _ ← modify (λ st, set_accounts (<[a := mkAccount (acc_ID acc)
             (<[MONETARY := money ++ [l]]> (acc_BalanceMap acc)) (acc_AllowNegative acc)
             (acc_Disabled acc)]> (as_accounts st)) st);
      mret l
  end.

Definition GetUniqueSharedGroupMembers (a : nat) (cd : CallDescriptor) : M (gset string) :=
  money ← getBalancesForPrefix a (cd_Destination cd) (cd_Category cd) MONETARY "" (cd_TimeStart cd);
  units ← getBalancesForPrefix a (cd_Destination cd) (cd_Category cd) (cd_ToR cd) ""
            (cd_TimeStart cd);
  sharedGroupIds ← visit (λ ids l,
    b ← balance l; mret (ids ++ (go_range (sm_entries (b_SharedGroups b))).*1)) [] (money ++ units);
  visit (λ ms sgID,
    sg ← lift (dm_GetSharedGroup sgID);
    match sg with
    | None => lift Panic
    | Some sg => mret (ms ∪ dom (sm_entries (sg_MemberIds sg)))
    end) (∅ : gset string) sharedGroupIds.

Definition GetBalanceWithID (a : nat) (blcType blcID : string) : M (option nat) :=
  acc ← account a;
  gets (λ st, match list_find (λ l, b_ID (balance_at st l) = blcID)
                      (default [] (acc_BalanceMap acc !! blcType)) with
              | Some (_, l) => Some l | None => None end).
Definition GetSharedGroups (a : nat) : M (list string) :=
  acc ← account a;
  gets (λ st, concat (map (λ kv, concat (map (λ l,
    (go_range (sm_entries (b_SharedGroups (balance_at st l)))).*1) kv.2))
    (go_range (acc_BalanceMap acc)))).
End accounts.

(** ** Names and summaries *)

Definition Account_GetID (acc : Account) : string :=
  match Split (acc_ID acc) CONCATENATED_KEY_SEP with [_; id] => id | _ => "" end.

Record AccountSummary := mkAccountSummary {
  asm_Tenant : string; asm_ID : string; asm_BalanceSummaries : list BalanceSummary;
  asm_AllowNegative : bool; asm_Disabled : bool }.
Definition AsAccountSummary (acc : Account) : M AccountSummary := gets (λ st,
  let '(tenant, id) := match Split (acc_ID acc) CONCATENATED_KEY_SEP with
                       | [id] => ("", id) | [tenant; id] => (tenant, id) | _ => ("", "") end in
  mkAccountSummary tenant id
    (concat (map (λ typ, map (λ l, AsBalanceSummary (balance_at st l) typ)
                           (default [] (acc_BalanceMap acc !! typ)))
       ["*data"; "*sms"; "*mms"; "*voice"; GENERIC; MONETARY]))
    (acc_AllowNegative acc) (acc_Disabled acc)).
