(* ===== verification/Debits.v ===== *)
(** * Debits

    The debits of [engine/balances.go], [engine/account.go] and [engine/calldesc.go]: a
    call is rated and its increments are paid, one after the other, from the balances
    that serve it; what is left goes to the default balance when that is allowed.

    The rated spans are values here.  In the code the spans that [Decompress] separates
    have their increments in common, so that what is written into those of the last span
    shows in the others too; the balances do not depend on it.  The loops that go on as
    long as a balance pays something take a fuel. *)
From S2P Require Import Prelude GoFloat GoStrings GoTime CoreUtils Collections Values RateInterval TimeSpans CallDescriptor RatingProfile CallCost Rating Stateful Balances Accounts.

Definition MAX_COST_DISCONNECT : string := "*disconnect".
Definition META_NONE : string := "*none".

#[local] Abbreviation M := (SM AccountState).

Definition cd_set_TimeStart (cd : CallDescriptor) (t : Time) : CallDescriptor :=
  mkCallDescriptor (cd_Category cd) (cd_Tenant cd) (cd_Subject cd) (cd_Account cd)
    (cd_Destination cd) t (cd_TimeEnd cd) (cd_LoopIndex cd) (cd_DurationIndex cd)
    (cd_FallbackSubject cd) (cd_RatingInfos cd) (cd_Increments cd) (cd_ToR cd)
    (cd_ExtraFields cd) (cd_MaxRate cd) (cd_MaxRateUnit cd) (cd_MaxCostSoFar cd) (cd_CgrID cd)
    (cd_RunID cd) (cd_ForceDuration cd) (cd_PerformRounding cd) (cd_DryRun cd)
    (cd_DenyNegativeAccount cd).
Definition cd_set_TimeEnd (cd : CallDescriptor) (t : Time) : CallDescriptor :=
  mkCallDescriptor (cd_Category cd) (cd_Tenant cd) (cd_Subject cd) (cd_Account cd)
    (cd_Destination cd) (cd_TimeStart cd) t (cd_LoopIndex cd) (cd_DurationIndex cd)
    (cd_FallbackSubject cd) (cd_RatingInfos cd) (cd_Increments cd) (cd_ToR cd)
    (cd_ExtraFields cd) (cd_MaxRate cd) (cd_MaxRateUnit cd) (cd_MaxCostSoFar cd) (cd_CgrID cd)
    (cd_RunID cd) (cd_ForceDuration cd) (cd_PerformRounding cd) (cd_DryRun cd)
    (cd_DenyNegativeAccount cd).
Definition cd_set_subject (cd : CallDescriptor) (subject acc : string) : CallDescriptor :=
  mkCallDescriptor (cd_Category cd) (cd_Tenant cd) subject acc (cd_Destination cd)
    (cd_TimeStart cd) (cd_TimeEnd cd) (cd_LoopIndex cd) (cd_DurationIndex cd)
    (cd_FallbackSubject cd) (cd_RatingInfos cd) (cd_Increments cd) (cd_ToR cd)
    (cd_ExtraFields cd) (cd_MaxRate cd) (cd_MaxRateUnit cd) (cd_MaxCostSoFar cd) (cd_CgrID cd)
    (cd_RunID cd) (cd_ForceDuration cd) (cd_PerformRounding cd) (cd_DryRun cd)
    (cd_DenyNegativeAccount cd).
Definition add_MaxCostSoFar (cost : float64) : M () :=
  cd ← gets as_cd;
  set_cd (cd_set_rated cd (cd_DurationIndex cd) (cd_ToR cd) (fadd (cd_MaxCostSoFar cd) cost)).

Definition cc_set_flags (cc : CallCost) (negative disconnect : bool) : CallCost :=
  mkCallCost (cc_Category cc) (cc_Tenant cc) (cc_Subject cc) (cc_Account cc)
    (cc_Destination cc) (cc_ToR cc) (cc_Cost cc) (cc_Timespans cc) (cc_RatedUsage cc)
    (cc_deductConnectFee cc) negative disconnect.

(** ** Paid increments *)

(** Writing the balance information; without one the code panics. *)
Definition with_info (f : DebitInfo → DebitInfo) (paid : bool) (cost : float64) (inc : Increment)
    : res Increment :=
  i ← deref (inc_BalanceInfo inc);
  Ok (mkIncrement (inc_Duration inc) cost (Some (f i)) (inc_CompressFactor inc) paid).
Definition unpaid (inc : Increment) : Increment :=
  mkIncrement (inc_Duration inc) (inc_Cost inc) (inc_BalanceInfo inc) (inc_CompressFactor inc) false.

Definition unit_info (b : Balance) (cc : CallCost) (consumed : float64)
    (interval : option RateInterval) : UnitInfo :=
  mkUnitInfo (b_Uuid b) (b_ID b) (b_Value b) (cc_Destination cc) consumed (cc_ToR cc) interval.
Definition money_info (b : Balance) (interval : option RateInterval) : MonetaryInfo :=
  mkMonetaryInfo (b_Uuid b) (b_ID b) (b_Value b) interval.
Definition set_unit (u : UnitInfo) (accID : string) (i : DebitInfo) : DebitInfo :=
  mkDebitInfo (Some u) (di_Monetary i) accID.
Definition set_money (m : MonetaryInfo) (accID : string) (i : DebitInfo) : DebitInfo :=
  mkDebitInfo (di_Unit i) (Some m) accID.

(** The increments of a span after an attempt to pay them: why the attempt stopped, if
    it did, and at which increment; was the maximum cost reached on the way? *)
Inductive stop := Unpaid (i : nat) | Disconnected (i : nat).
Record span_result := mkSpanResult {
  sr_incs : Increments; sr_stop : option stop; sr_max : bool }.

(** The spans up to the one cut at an increment, which goes when nothing of it is left. *)
Definition cut_spans (before : TimeSpans) (ts : TimeSpan) (incIndex : nat) : TimeSpans :=
  if (incIndex =? 0)%nat then before
  else before ++ [(SplitByIncrement ts (Z.of_nat incIndex)).1].

Section debits.
Context `{GoText} `{GoRuntime} `{RatingData} `{AccountData} (maxIncrements : Z) (fuel : nat).

(** ** One balance *)

Fixpoint matching_destination (dests : StringMap) (prefixes : list string) : string * string :=
  match prefixes with
  | [] => ("", "")
  | p :: prefixes' =>
      match dm_GetReverseDestination p with
      | Ok destIDs =>
          match List.find (sm_lookup dests) destIDs with
          | Some dID => (p, dID)
          | None => matching_destination dests prefixes'
          end
      | _ => matching_destination dests prefixes'
      end
  end.
Definition getMatchingPrefixAndDestID (b : Balance) (dest : string) : res (string * string) :=
  if HasDestination b then
    prefixes ← SplitPrefix dest MIN_PREFIX_MATCH;
    Ok (matching_destination (b_DestinationIDs b) prefixes)
  else Ok ("", "").

(** The duration in a subject like "*zero1s". *)
Definition ParseZeroRatingSubject (tor rateSubj : string) (defaultRateSubj : gmap string string)
    : res Z :=
  let rateSubj := TrimSpace rateSubj in
  let rateSubj :=
    if bool_decide (rateSubj = "" ∨ rateSubj = ANY) then
      match defaultRateSubj !! tor with
      | Some s => s | None => default "" (defaultRateSubj !! META_ANY) end
    else rateSubj in
  if negb (HasPrefix rateSubj ZERO_RATING_SUBJECT_PREFIX) then
    Err ("malformed rating subject: " +:+ rateSubj)
  else
    let durStr := sdrop 5 rateSubj in
    ParseDuration (if is_ok (ParseFloat durStr) then durStr +:+ "ns" else durStr).

(** [cd.getCost()], which leaves what it loads in the descriptor. *)
Definition cd_getCost (cd : CallDescriptor) : M (CallCost * option string) :=
  r ← lift (getCost maxIncrements fuel cd);
  let '(cc, err, cd) := r in
  _ ← set_cd cd; mret (cc, err).

Definition Balance_GetCost (b : Balance) (getStandardIfEmpty : bool) : M CallCost :=
  cd ← gets as_cd;
  let plain := bool_decide (b_RatingSubject b = "") ||
               HasPrefix (b_RatingSubject b) ZERO_RATING_SUBJECT_PREFIX in
  if negb plain then
    let rated := cd_set_RatingInfos (cd_set_subject cd (b_RatingSubject b) (b_RatingSubject b)) [] in
    r ← cd_getCost rated;
    cd' ← gets as_cd;
    _ ← set_cd (cd_set_subject cd' (cd_Subject cd) (cd_Account cd));
    match r with (cc, None) => mret cc | (_, Some e) => fails e end
  else if getStandardIfEmpty then
    r ← cd_getCost (cd_set_RatingInfos cd []);
    match r with (cc, None) => mret cc | (_, Some e) => fails e end
  else mret (cc_set_Cost (CreateCallCost cd) f0).

(** The first of the balances with so much money, then the default one. *)
Definition money_for (cost : float64) (moneyBalances : list nat) : M (option nat) :=
  gets (λ st, List.find (λ l, fgeb (b_Value (balance_at st l)) cost) moneyBalances).

Definition debit_fee (a : nat) (connectFee : float64) (count : bool) (l : nat) : M Balance :=
  b ← balance l;
  let b := SubstractValue b connectFee in
  _ ← set_balance l b;
  _ ← (if count then countUnits a connectFee MONETARY else mret ());
  mret b.
(** The first balance that can pay the fee, unless a blocker comes before it. *)
Fixpoint fee_loop (a : nat) (connectFee : float64) (count block : bool) (moneyBalances : list nat)
    : M (option (option Balance)) :=
  match moneyBalances with
  | [] => mret (Some None)
  | l :: rest =>
      b ← balance l;
      if fgeb (b_Value b) connectFee then
        b ← debit_fee a connectFee count l; mret (Some (Some b))
      else if b_Blocker b && block then mret None
      else fee_loop a connectFee count block rest
  end.
(** False when a blocker was found; the balance debited; the cost, marked when the fee
    was not paid. *)
Definition DebitConnectionFee (a : nat) (cc : CallCost) (moneyBalances : list nat)
    (count block : bool) : M (bool * Balance * CallCost) :=
  let none := new_balance "" "" f0 in
  if negb (cc_deductConnectFee cc) then mret (true, none, cc)
  else
    let connectFee := GetConnectFee cc in
    r ← fee_loop a connectFee count block moneyBalances;
    match r with
    | None => mret (false, none, cc)
    | Some (Some b) => mret (true, b, cc)
    | Some None =>
        if fgtb connectFee f0 then
          l ← GetDefaultMoneyBalance a;
          b ← debit_fee a connectFee count l;
          mret (true, b, cc_set_flags cc true (cc_maxCostDisconect cc))
        else mret (true, none, cc)
    end.

Definition inc_amount (b : Balance) (tor : string) (inc : Increment) : float64 :=
  let amount := f_of_Z (inc_Duration inc) in
  match b_Factor b with
  | None => amount
  | Some _ => Round (fdiv amount (ValueFactor_GetValue (b_Factor b) tor))
                globalRoundingDecimals ROUNDING_UP
  end.
Definition account_id (a : nat) : M string := acc ← account a; mret (acc_ID acc).
Definition counted (count : bool) (a : nat) (amount : float64) (kind : string) : M () :=
  if count then countUnits a amount kind else mret ().

(** Increments that cost nothing but units. *)
Fixpoint zero_loop (bl ub : nat) (tor : string) (cc : CallCost) (count : bool) (i : nat)
    (incs done : Increments) : M span_result :=
  match incs with
  | [] => mret (mkSpanResult done None false)
  | inc :: incs' =>
      b ← balance bl;
      let amount := inc_amount b tor inc in
      if fgeb (b_Value b) amount then
        let b := SubstractValue b amount in
        _ ← set_balance bl b;
        accID ← account_id ub;
        inc ← lift (with_info (set_unit (unit_info b cc amount None) accID) true f0 inc);
        _ ← counted count ub amount (cc_ToR cc);
        zero_loop bl ub tor cc count (S i) incs' (done ++ [inc])
      else mret (mkSpanResult (done ++ unpaid inc :: incs') (Some (Unpaid i)) false)
  end.

Definition zero_interval (duration : Z) : RateInterval :=
  mkRateInterval None
    (Some (mkRIRate f0 "" 0 f0 "" (Some [mkRate 0 f0 duration duration]) "")) f0.

Definition debit_zero_units (bl ub : nat) (duration : Z) (count : bool) : M (option CallCost) :=
  b ← balance bl;
  cd ← gets as_cd;
  let ts := RoundToDuration (new_span (cd_TimeStart cd) (cd_TimeEnd cd)) duration in
  let ts := ts_set_interval ts (Some (zero_interval duration)) in
  pd ← lift (getMatchingPrefixAndDestID b (cd_Destination cd));
  let prefix := if decide (pd.1 = "") then cd_Destination cd else pd.1 in
  let destid := if decide (pd.2 = "") then ANY else pd.2 in
  let ts := setRatingInfo ts (mkRatingInfo (b_Uuid b) META_NONE prefix destid zero_time None []) in
  ts ← lift (createIncrementsSlice maxIncrements ts);
  let cc := CreateCallCost cd in
  r ← zero_loop bl ub (cd_ToR cd) cc count 0 (ts_increments ts) [];
  let ts := match ts_Increments ts with
            | None => ts | Some _ => ts_set_Increments ts (Some (sr_incs r)) end in
  match sr_stop r with
  | None => mret (Some (cc_set_Timespans cc [ts]))
  | Some (Unpaid i) | Some (Disconnected i) =>
      match cut_spans [] ts i with
      | [] => mret None
      | tss => mret (Some (cc_set_Timespans cc tss))
      end
  end.

(** Has the maximum cost of the interval been reached, with this strategy? *)
Definition at_max (strategy wanted : string) (maxCost : float64) : M bool :=
  gets (λ st, bool_decide (strategy = wanted) && fgeb (cd_MaxCostSoFar (as_cd st)) maxCost).

(** An increment beyond the maximum cost is free. *)
Definition free_increment (b : Balance) (ub : nat) (interval : option RateInterval) (count : bool)
    (inc : Increment) : M Increment :=
  accID ← account_id ub;
  inc ← lift (with_info (set_money (money_info b interval) accID) true f0 inc);
  _ ← counted count ub f0 MONETARY;
  mret inc.

(** One increment paid with units, and with money when it costs some. *)
Definition pay_units (bl ub : nat) (moneyBalances : list nat) (tor : string) (cc : CallCost)
    (interval : option RateInterval) (count dryRun : bool) (inc : Increment)
    : M (option Increment) :=
  b ← balance bl;
  acc ← account ub;
  let amount := inc_amount b tor inc in
  let cost := inc_Cost inc in
  moneyBal ← money_for cost moneyBalances;
  moneyBal ← (if negb (feqb cost f0) && bool_decide (moneyBal = None) &&
                  (negb dryRun || acc_AllowNegative acc)
               then l ← GetDefaultMoneyBalance ub; mret (Some l) else mret moneyBal);
  if fgeb (b_Value b) amount && (bool_decide (is_Some moneyBal) || feqb cost f0) then
    let b := SubstractValue b amount in
    _ ← set_balance bl b;
    inc ← lift (with_info (set_unit (unit_info b cc amount interval) (acc_ID acc)) true cost inc);
    inc ← (if feqb cost f0 then mret inc
           else
             ml ← lift (deref moneyBal);
             m ← balance ml;
             let m := SubstractValue m cost in
             _ ← set_balance ml m;
             _ ← add_MaxCostSoFar cost;
             lift (with_info (set_money (money_info m None) (acc_ID acc)) true cost inc));
    _ ← counted count ub amount (cc_ToR cc);
    _ ← counted (count && negb (feqb cost f0)) ub cost MONETARY;
    mret (Some inc)
  else mret None.

(** One increment paid with money. *)
Definition pay_money (bl ub : nat) (interval : option RateInterval) (count : bool)
    (inc : Increment) : M (option Increment) :=
  b ← balance bl;
  let amount := inc_Cost inc in
  if fgeb (b_Value b) amount then
    let b := SubstractValue b amount in
    _ ← set_balance bl b;
    _ ← add_MaxCostSoFar amount;
    accID ← account_id ub;
    inc ← lift (with_info (set_money (money_info b
                  (if decide (b_RatingSubject b = "") then None else interval)) accID) true amount inc);
    _ ← counted count ub amount MONETARY;
    mret (Some inc)
  else mret None.

(** The increments of one span, [pay] for one of them; the one of the connect fee, which
    is the first when it was added, is passed over. *)
Fixpoint inc_loop (pay : Increment → M (option Increment)) (free : Increment → M Increment)
    (strategy : string) (maxCost : float64) (dryRun fee : bool) (i : nat)
    (incs done : Increments) (max : bool) : M span_result :=
  match incs with
  | [] => mret (mkSpanResult done None max)
  | inc :: incs' =>
      if fee && (i =? 0)%nat then
        inc_loop pay free strategy maxCost dryRun fee (S i) incs' (done ++ [inc]) max
      else
        disconnect ← at_max strategy MAX_COST_DISCONNECT maxCost;
        if disconnect && dryRun then
          mret (mkSpanResult (done ++ unpaid inc :: incs') (Some (Disconnected i)) true)
        else
          let max := max || disconnect in
          isFree ← at_max strategy MAX_COST_FREE maxCost;
          if (isFree : bool) then
            inc ← free inc;
            inc_loop pay free strategy maxCost dryRun fee (S i) incs' (done ++ [inc]) max
          else
            r ← pay inc;
            match r with
            | Some inc =>
                inc_loop pay free strategy maxCost dryRun fee (S i) incs' (done ++ [inc]) max
            | None => mret (mkSpanResult (done ++ unpaid inc :: incs') (Some (Unpaid i)) max)
            end
  end.

(** The connect fee as an increment of its own, which takes no time. *)
Definition connect_increment (fee : float64) (debited : Balance) (accID : string) : Increment :=
  mkIncrement 0 fee (Some (mkDebitInfo None (Some (money_info debited None)) accID)) 0 false.

(** A rated span before it is paid: with its increments, and that of the connect fee when
    it is the first. *)
Definition prepare_span (ub : nat) (feePaid : option Balance) (i : nat) (ts : TimeSpan)
    : M (TimeSpan * RateInterval * bool) :=
  ts ← lift (match ts_Increments ts with
             | None => createIncrementsSlice maxIncrements ts | Some _ => Ok ts end);
  match ts_RateInterval ts with
  | None => fails "timespan with no rate interval assigned"
  | Some interval =>
      if (i =? 0)%nat then
        rating ← lift (deref (ri_Rating interval));
        match feePaid with
        | Some debited =>
            if fgtb (rir_ConnectFee rating) f0 then
              accID ← account_id ub;
              let inc := connect_increment (rir_ConnectFee rating) debited accID in
              mret (ts_set_Increments ts (Some (inc :: ts_increments ts)), interval, true)
            else mret (ts, interval, false)
        | None => mret (ts, interval, false)
        end
      else mret (ts, interval, false)
  end.

(** The spans in order: those that are paid, the last one cut; did it stop, and was a
    maximum cost reached? *)
Fixpoint pay_spans (pay : option RateInterval → Increment → M (option Increment))
    (free : option RateInterval → Increment → M Increment) (ub : nat) (dryRun : bool)
    (feePaid : option Balance) (i : nat) (tss done : TimeSpans) (max : bool)
    : M (TimeSpans * option stop * bool) :=
  match tss with
  | [] => mret (done, None, max)
  | ts :: tss' =>
      p ← prepare_span ub feePaid i ts;
      let '(ts, interval, fee) := p in
      let '(maxCost, strategy) := GetMaxCost interval in
      r ← inc_loop (pay (Some interval)) (free (Some interval)) strategy maxCost dryRun fee 0
            (ts_increments ts) [] max;
      let ts := ts_set_Increments ts (Some (sr_incs r)) in
      match sr_stop r with
      | None => pay_spans pay free ub dryRun feePaid (S i) tss' (done ++ [ts]) (sr_max r)
      | Some (Unpaid k) => mret (cut_spans done ts k, Some (Unpaid k), sr_max r)
      | Some (Disconnected k) => mret (cut_spans done ts k, Some (Disconnected k), sr_max r)
      end
  end.

(** Rated and paid with money, or with units and money; nothing when a blocker stands
    before the connect fee. *)
Definition debit_rated (units : bool) (bl ub : nat) (moneyBalances : list nat)
    (count dryRun debitConnectFee : bool) : M (option CallCost) :=
  b ← balance bl;
  cd ← gets as_cd;
  cc ← Balance_GetCost b true;
  r ← (if debitConnectFee then DebitConnectionFee ub cc moneyBalances count true
       else mret (false, new_balance "" "" f0, cc));
  let '(ok, debited, cc) := r in
  if debitConnectFee && negb ok then mret None
  else
    tss ← lift (TimeSpans_Decompress (cc_Timespans cc));
    tor ← gets (λ st, cd_ToR (as_cd st));
    let pay interval :=
      if units then pay_units bl ub moneyBalances tor cc interval count dryRun
      else pay_money bl ub interval count in
    let free interval inc :=
      b ← balance bl;
      free_increment b ub
        (if units || negb (bool_decide (b_RatingSubject b = "")) then interval else None) count inc in
    r ← pay_spans pay free ub dryRun
          (if debitConnectFee && cc_deductConnectFee cc then Some debited else None) 0 tss [] false;
    let '(tss, stopped, max) := r in
    let cc := cc_set_flags (cc_set_Timespans cc tss) (cc_negativeConnectFee cc) max in
    match stopped, tss with
    | Some (Disconnected _), _ => mret (Some cc)
    | Some (Unpaid _), [] => mret None
    | None, [] => mret (if units then Some cc else None)
    | _, _ => mret (Some cc)
    end.

Definition usable (b : Balance) : M bool :=
  cd ← gets as_cd;
  active ← lift (Balance_IsActiveAt b (cd_TimeStart cd));
  mret (active && negb (fleb (b_Value b) f0)).

Definition debitUnits (bl ub : nat) (moneyBalances : list nat)
    (count dryRun debitConnectFee : bool) : M (option CallCost) :=
  b ← balance bl;
  ok ← usable b;
  if negb ok then mret None
  else
    cd ← gets as_cd;
    match ParseZeroRatingSubject (cd_ToR cd) (b_RatingSubject b) BalanceRatingSubject with
    | Ok duration => debit_zero_units bl ub duration count
    | Err _ => debit_rated true bl ub moneyBalances count dryRun debitConnectFee
    | Panic => lift Panic
    end.
Definition debitMoney (bl ub : nat) (moneyBalances : list nat)
    (count dryRun debitConnectFee : bool) : M (option CallCost) :=
  b ← balance bl;
  ok ← usable b;
  if negb ok then mret None
  else debit_rated false bl ub moneyBalances count dryRun debitConnectFee.

(** ** All balances of an account *)

(** Why a pass over the balances ended. *)
Inductive pass_end := Covered | Returned | Finished.
Record pass_result := mkPassResult {
  pr_cc : CallCost; pr_end : pass_end; pr_progress : bool; pr_subject : bool }.

Definition has_own_rating (b : Balance) : bool :=
  negb (bool_decide (b_RatingSubject b = "")) &&
  negb (HasPrefix (b_RatingSubject b) ZERO_RATING_SUBJECT_PREFIX).

(** The part of the cost a balance has paid: the cost so far, and is the call covered? *)
Definition append_part (cc part : CallCost) : M (CallCost * bool) :=
  let cc := cc_set_flags (cc_set_Timespans cc (cc_Timespans cc ++ cc_Timespans part))
              (cc_negativeConnectFee part) (cc_maxCostDisconect cc) in
  cd ← gets as_cd;
  let cd := cd_set_TimeStart cd (GetEndTime acc_now cc) in
  _ ← set_cd cd;
  mret (cc, CallDescriptor_GetDuration cd <=? 0).

Fixpoint pass_loop (debit : nat → nat → bool → M (option CallCost)) (units dryRun : bool)
    (bls : list nat) (cc : CallCost) (progress subject : bool) : M pass_result :=
  match bls with
  | [] => mret (mkPassResult cc Finished progress subject)
  | bl :: bls' =>
      b ← balance bl;
      ub ← lift (deref (b_account b));
      part ← debit bl ub (bool_decide (cc_Timespans cc = []));
      let subject := subject || (units && has_own_rating b) in
      match part with
      | None =>
          if dryRun && b_Blocker b then mret (mkPassResult cc Returned progress subject)
          else pass_loop debit units dryRun bls' cc progress subject
      | Some part =>
          r ← append_part cc part;
          let '(cc, covered) := r in
          if (covered : bool) then mret (mkPassResult cc Covered true subject)
          else if dryRun && cc_maxCostDisconect part then
            mret (mkPassResult cc Returned true subject)
          else if dryRun && b_Blocker b then mret (mkPassResult cc Returned true subject)
          else pass_loop debit units dryRun bls' cc true subject
      end
  end.

(** Passes over the balances as long as one of them pays something. *)
Fixpoint retry_loop (n : nat) (debit : nat → nat → bool → M (option CallCost))
    (units dryRun : bool) (bls : list nat) (cc : CallCost) (progress subject : bool)
    : M pass_result :=
  match n with
  | O => fails out_of_fuel
  | S n' =>
      r ← pass_loop debit units dryRun bls cc false subject;
      match pr_end r with
      | Finished =>
          if pr_progress r then
            retry_loop n' debit units dryRun bls (pr_cc r) true (pr_subject r)
          else mret (mkPassResult (pr_cc r) Finished progress (pr_subject r))
      | _ => mret r
      end
  end.

(** Units, then money, again as long as something was paid. *)
Fixpoint general_loop (n : nat) (unitBalances moneyBalances : list nat) (count dryRun : bool)
    (cc : CallCost) (subject : bool) : M pass_result :=
  match n with
  | O => fails out_of_fuel
  | S n' =>
      let debit_units bl ub first := debitUnits bl ub moneyBalances count dryRun first in
      let debit_money bl ub first := debitMoney bl ub moneyBalances count dryRun first in
      r ← retry_loop fuel debit_units true dryRun unitBalances cc false subject;
      match pr_end r with
      | Finished =>
          r' ← retry_loop fuel debit_money false dryRun moneyBalances (pr_cc r) false (pr_subject r);
          match pr_end r' with
          | Finished =>
              if pr_progress r || pr_progress r' then
                general_loop n' unitBalances moneyBalances count dryRun (pr_cc r') (pr_subject r')
              else mret r'
          | _ => mret r'
          end
      | _ => mret r
      end
  end.

(** *** What no balance has paid *)

Definition with_account (accID : string) (inc : Increment) : Increment :=
  let i := default (mkDebitInfo None None "") (inc_BalanceInfo inc) in
  mkIncrement (inc_Duration inc) (inc_Cost inc)
    (Some (mkDebitInfo (di_Unit i) (di_Monetary i) accID)) (inc_CompressFactor inc) (inc_paid inc).
Definition ts_with_account (accID : string) (ts : TimeSpan) : TimeSpan :=
  match ts_Increments ts with
  | None => ts | Some incs => ts_set_Increments ts (Some (with_account accID <$> incs)) end.

(** One increment on the default balance, whatever it has. *)
Definition overdraw (a : nat) (accID : string) (count : bool) (inc : Increment) : M Increment :=
  l ← GetDefaultMoneyBalance a;
  b ← balance l;
  let b := SubstractValue b (inc_Cost inc) in
  _ ← set_balance l b;
  inc' ← lift (with_info (set_money (money_info b None) accID) true (inc_Cost inc) inc);
  _ ← counted count a (inc_Cost inc) MONETARY;
  mret inc'.
Fixpoint overdraw_spans (a : nat) (accID : string) (count : bool) (feePaid : option Balance)
    (i : nat) (tss done : TimeSpans) : M TimeSpans :=
  match tss with
  | [] => mret done
  | ts :: tss' =>
      ts ← lift (match ts_Increments ts with
                 | None => createIncrementsSlice maxIncrements ts | Some _ => Ok ts end);
      fee ← lift (if (i =? 0)%nat then
                    interval ← deref (ts_RateInterval ts);
                    rating ← deref (ri_Rating interval);
                    Ok (match feePaid with
                        | Some b => if fgtb (rir_ConnectFee rating) f0
                                    then [connect_increment (rir_ConnectFee rating) b accID] else []
                        | None => [] end)
                  else Ok []);
      incs ← visit (λ incs inc, inc ← overdraw a accID count inc; mret (incs ++ [inc])) fee
               (ts_increments ts);
      overdraw_spans a accID count feePaid (S i) tss' (done ++ [ts_set_Increments ts (Some incs)])
  end.

(** The spans [Decompress] makes of one come one after the other, the original last; the
    cost of the call has the originals only. *)
Fixpoint originals (factors : list Z) (tss : TimeSpans) : TimeSpans :=
  match factors with
  | [] => []
  | cf :: factors' =>
      let n := Z.to_nat cf in
      option_list (last (take n tss)) ++ originals factors' (drop n tss)
  end.

Definition pay_rest (a : nat) (moneyBalances : list nat) (count : bool) (cc leftCC : CallCost)
    : M CallCost :=
  acc ← account a;
  let accID := acc_ID acc in
  let paid := cc_Timespans cc in
  let cc := cc_set_Timespans cc (paid ++ cc_Timespans leftCC) in
  r ← (if decide (paid = []) then DebitConnectionFee a cc moneyBalances count true
       else mret (false, new_balance "" "" f0, cc));
  let '(ok, debited, cc) := r in
  tss ← lift (TimeSpans_Decompress (cc_Timespans leftCC));
  tss ← overdraw_spans a accID count
          (if cc_deductConnectFee cc && ok then Some debited else None) 0 tss [];
  mret (cc_set_Timespans cc
          (paid ++ originals (map (λ ts, (TimeSpan_GetCompressFactor ts).1) (cc_Timespans leftCC)) tss)).

Definition debitCreditBalance (a : nat) (count dryRun goNegative : bool) : M CallCost :=
  cd ← gets as_cd;
  unitBalances ← getAlldBalancesForPrefix a (cd_Destination cd) (cd_Category cd) (cd_ToR cd)
                   (cd_TimeStart cd);
  moneyBalances ← getAlldBalancesForPrefix a (cd_Destination cd) (cd_Category cd) MONETARY
                    (cd_TimeStart cd);
  r ← general_loop fuel unitBalances moneyBalances count dryRun (CreateCallCost cd) false;
  let commit := if (dryRun : bool) then mret ()
                else _ ← SaveDirtyBalances moneyBalances a; SaveDirtyBalances unitBalances a in
  match pr_end r with
  | Returned => mret (pr_cc r)
  | Covered => _ ← commit; mret (pr_cc r)
  | Finished =>
      cd ← gets as_cd;
      left ← cd_getCost (if pr_subject r then cd_set_RatingInfos cd [] else cd);
      let '(leftCC, err) := left in
      acc ← account a;
      let cc := pr_cc r in
      cc ← (if feqb (cc_Cost leftCC) f0 then
              mret (cc_set_Timespans cc (cc_Timespans cc ++
                      (ts_with_account (acc_ID acc) <$> cc_Timespans leftCC)))
            else if fgtb (cc_Cost leftCC) f0 && goNegative then
              pay_rest a moneyBalances count cc leftCC
            else mret cc);
      _ ← commit;
      match err with Some e => fails e | None => mret cc end
  end.

(** ** The operations on a call descriptor *)

(** The cost of a call that takes no time. *)
Definition zero_duration_cost : M CallCost :=
  cd ← gets as_cd;
  let cc := CreateCallCost cd in
  r ← lift (LoadRatingPlans fuel cd);
  let '(err, cd) := r in
  _ ← set_cd cd;
  match err, cd_RatingInfos cd with
  | None, ri :: _ =>
      mret (cc_set_Timespans cc
              [setRatingInfo (new_span (cd_TimeStart cd) (cd_TimeEnd cd)) ri])
  | _, _ => mret cc
  end.

Definition set_voice : M () :=
  cd ← gets as_cd;
  set_cd (cd_set_rated cd (cd_DurationIndex cd)
            (if decide (cd_ToR cd = "") then VOICE else cd_ToR cd) (cd_MaxCostSoFar cd)).

(** The account read for the first increment that names it is kept until the end. *)
Definition cached_account (accID : string) (cache : gmap string nat) : M (option nat * gmap string nat) :=
  match cache !! accID with
  | Some a => mret (Some a, cache)
  | None =>
      a ← dm_GetAccount accID;
      mret (match a with Some a => (Some a, <[accID := a]> cache) | None => (None, cache) end)
  end.

(** The balance with the identifier among those of a type. *)
Definition find_balance (a : nat) (typ uuid : string) : M (option nat) :=
  acc ← account a;
  gets (λ st, List.find (λ l, bool_decide (b_Uuid (balance_at st l) = uuid))
                (default [] (acc_BalanceMap acc !! typ))).
Definition refund_to (a l : nat) (amount : float64) (kind : string) : M () :=
  b ← balance l;
  _ ← set_balance l (AddValue b amount);
  countUnits a (fneg amount) kind.

(** One part of an increment; false when the balance is not found. *)
Definition refund_part (a : nat) (typ uuid : string) (amount : float64) : M bool :=
  l ← find_balance a typ uuid;
  match l with
  | None => mret false
  | Some l => _ ← refund_to a l amount typ; mret true
  end.
Definition unit_uuid (i : DebitInfo) : string :=
  match di_Unit i with Some u => ui_UUID u | None => "" end.
Definition money_uuid (i : DebitInfo) : string :=
  match di_Monetary i with Some m => mi_UUID m | None => "" end.

(** The increments until one cannot be refunded, which ends everything. *)
Fixpoint refund_loop (tor : string) (incs : Increments) (cache : gmap string nat)
    : M (gmap string nat * bool) :=
  match incs with
  | [] => mret (cache, true)
  | inc :: incs' =>
      match inc_BalanceInfo inc with
      | None => refund_loop tor incs' cache
      | Some i =>
          r ← cached_account (di_AccountID i) cache;
          match r with
          | (None, cache) => refund_loop tor incs' cache
          | (Some a, cache) =>
              unit ← (if decide (unit_uuid i = "") then mret true
                      else refund_part a tor (unit_uuid i) (f_of_Z (inc_Duration inc)));
              if negb unit then mret (cache, false)
              else
                money ← (if decide (money_uuid i = "") then mret true
                         else refund_part a MONETARY (money_uuid i) (inc_Cost inc));
                if negb money then mret (cache, false) else refund_loop tor incs' cache
          end
      end
  end.
(** The accounts are saved at the end, the last one read first. *)
Definition save_accounts (accs : list nat) : M () := visit (λ _ a, dm_SetAccount a) () (rev accs).

Definition refundIncrements (cd : CallDescriptor) : M (option nat) :=
  first ← gets (λ st, length (as_accounts st));
  r ← refund_loop (cd_ToR cd) (elems (cd_Increments cd)) ∅;
  last ← gets (λ st, length (as_accounts st));
  _ ← save_accounts (seq first (last - first));
  mret (if (r.2 : bool) then r.1 !! ConcatenatedKey [cd_Tenant cd; cd_Account cd] else None).
Definition RefundIncrements (cd : CallDescriptor) : M (option nat) :=
  refundIncrements
    (mkCallDescriptor (cd_Category cd) (cd_Tenant cd) (cd_Subject cd) (cd_Account cd)
       (cd_Destination cd) (cd_TimeStart cd) (cd_TimeEnd cd) (cd_LoopIndex cd)
       (cd_DurationIndex cd) (cd_FallbackSubject cd) (cd_RatingInfos cd)
       (Increments_Decompress <$> cd_Increments cd) (cd_ToR cd) (cd_ExtraFields cd)
       (cd_MaxRate cd) (cd_MaxRateUnit cd) (cd_MaxCostSoFar cd) (cd_CgrID cd) (cd_RunID cd)
       (cd_ForceDuration cd) (cd_PerformRounding cd) (cd_DryRun cd) (cd_DenyNegativeAccount cd)).

(** The corrections of the rounding; an increment without information panics. *)
Fixpoint refund_round_loop (incs : Increments) (cache : gmap string nat) : M () :=
  match incs with
  | [] => mret ()
  | inc :: incs' =>
      i ← lift (deref (inc_BalanceInfo inc));
      r ← cached_account (di_AccountID i) cache;
      match r with
      | (None, cache) => refund_round_loop incs' cache
      | (Some a, cache) =>
          match di_Monetary i with
          | None => refund_round_loop incs' cache
          | Some m =>
              ok ← refund_part a MONETARY (mi_UUID m) (fneg (inc_Cost inc));
              if (ok : bool) then refund_round_loop incs' cache else mret ()
          end
      end
  end.
Definition refundRounding (incs : Increments) : M () :=
  first ← gets (λ st, length (as_accounts st));
  _ ← refund_round_loop incs ∅;
  last ← gets (λ st, length (as_accounts st));
  save_accounts (seq first (last - first)).

(** A correction of the rounding goes to the stored account, also in a dry run. *)
Definition debit (a : nat) (dryRun goNegative : bool) : M CallCost :=
  cd ← gets as_cd;
  if CallDescriptor_GetDuration cd =? 0 then zero_duration_cost
  else
    _ ← set_voice;
    cc ← debitCreditBalance a (negb dryRun) dryRun goNegative;
    let cc := updateCost cc in
    let cc := default cc (UpdateRatedUsage (Some cc)).2 in
    tss ← lift (TimeSpans_Compress (cc_Timespans cc));
    let cc := cc_set_Timespans cc tss in
    _ ← (if dryRun then mret () else dm_SetAccount a);
    cd ← gets as_cd;
    if cd_PerformRounding cd then
      cc ← lift (CallCost_Round cc);
      _ ← (match GetRoundIncrements cc with
           | [] => mret () | incs => refundRounding incs end);
      mret cc
    else mret cc.

(** *** The longest session an account can pay *)

(** Is the rate of the span above the one the request allows? *)
Definition rate_exceeded (cd : CallDescriptor) (ts : TimeSpan) : res bool :=
  if fgtb (cd_MaxRate cd) f0 && (0 <? cd_MaxRateUnit cd) then
    interval ← deref (ts_RateInterval ts);
    let '((rate, _, rateUnit), _) := GetRateParameters interval (GetGroupStart ts) in
    Ok (fgtb (fdiv rate (f_of_Z rateUnit)) (fdiv (cd_MaxRate cd) (f_of_Z (cd_MaxRateUnit cd))))
  else Ok false.

(** The increments of a span: the money left of the default balance and the duration; a
    result when the end is reached. *)
Fixpoint session_incs (initialDuration : Z) (defaultUuid : string) (incs : Increments)
    (money : float64) (totalDuration : Z) : res (option Z * float64 * Z) :=
  match incs with
  | [] => Ok (None, money, totalDuration)
  | incr :: incs' =>
      i ← deref (inc_BalanceInfo incr);
      let own := match di_Monetary i with
                 | Some m => bool_decide (mi_UUID m = defaultUuid) | None => false end in
      let money := if own then fsub money (inc_Cost incr) else money in
      if own && fltb money f0 then
        Ok (Some (MinDuration initialDuration totalDuration), money, totalDuration)
      else
        let totalDuration := add64 totalDuration (inc_Duration incr) in
        if initialDuration <=? totalDuration then Ok (Some initialDuration, money, totalDuration)
        else session_incs initialDuration defaultUuid incs' money totalDuration
  end.
Fixpoint session_spans (cd : CallDescriptor) (initialDuration : Z) (defaultUuid : string)
    (tss : TimeSpans) (money : float64) (totalDuration : Z) : res Z :=
  match tss with
  | [] => Ok (MinDuration initialDuration totalDuration)
  | ts :: tss' =>
      exceeded ← rate_exceeded cd ts;
      if (exceeded : bool) then Ok (MinDuration initialDuration totalDuration)
      else
        ts ← (match ts_Increments ts with
              | None => createIncrementsSlice maxIncrements ts | Some _ => Ok ts end);
        '(result, money, totalDuration) ←
          session_incs initialDuration defaultUuid (ts_increments ts) money totalDuration;
        match result with
        | Some d => Ok d
        | None => session_spans cd initialDuration defaultUuid tss' money totalDuration
        end
  end.

(** A computation on another descriptor, which it may change. *)
Definition on_descriptor {A} (cd : CallDescriptor) (m : M A) : M (A * CallDescriptor) := λ st,
  let '(r, st') := (_ ← set_cd cd; a ← m; cd' ← gets as_cd; mret (a, cd')) st in
  (r, (set_cd (as_cd st) st').2).

(** A dry run on clones of the account and the descriptor. *)
Definition getMaxSessionDuration (origAcc : nat) : M Z :=
  a ← Account_Clone origAcc;
  acc ← account a;
  if acc_AllowNegative acc then mret (-1)
  else
    origCD ← gets as_cd;
    let d := Sub (cd_TimeEnd origCD) (cd_TimeStart origCD) in
    let origCD := cd_set_rated origCD
          (if cd_DurationIndex origCD <? d then d else cd_DurationIndex origCD)
          (if decide (cd_ToR origCD = "") then VOICE else cd_ToR origCD) (cd_MaxCostSoFar origCD) in
    _ ← set_cd origCD;
    l ← GetDefaultMoneyBalance a;
    defaultBalance ← balance l;
    r ← on_descriptor (CallDescriptor_Clone origCD) (debit a true false);
    let '(cc, cd) := r in
    if cc_negativeConnectFee cc then mret 0
    else
      tss ← lift (TimeSpans_Decompress (cc_Timespans cc));
      lift (session_spans cd d (b_Uuid defaultBalance) tss (b_Value defaultBalance) 0).

(** *** The calls

    Without the locks on the account and the members of its groups. *)

Definition getAccount : M nat :=
  cd ← gets as_cd;
  r ← dm_GetAccount (GetAccountKey cd);
  match r with
  | None => fails "ACCOUNT_NOT_FOUND"
  | Some a => acc ← account a; if acc_Disabled acc then fails "ACCOUNT_DISABLED" else mret a
  end.

(** The account, with the members of its groups looked up for the locks. *)
Definition locked_account : M nat :=
  a ← getAccount;
  cd ← gets as_cd;
  _ ← GetUniqueSharedGroupMembers a cd;
  mret a.

Definition with_summary (a : nat) (cc : CallCost) : M (CallCost * AccountSummary) :=
  acc ← account a; summary ← AsAccountSummary acc; mret (cc, summary).

Definition GetMaxSessionDuration : M Z := a ← locked_account; getMaxSessionDuration a.

Definition Debit : M (CallCost * AccountSummary) :=
  a ← locked_account;
  cd ← gets as_cd;
  cc ← debit a (cd_DryRun cd) (negb (cd_DenyNegativeAccount cd));
  with_summary a cc.

(** The answer when there is nothing to debit. *)
Definition nothing_debited (a : nat) : M (CallCost * AccountSummary) :=
  cd ← gets as_cd;
  r ← with_summary a (CreateCallCost cd);
  if CallDescriptor_GetDuration cd =? 0 then
    l ← lift (LoadRatingPlans fuel cd);
    let '(err, cd) := l in
    _ ← set_cd cd;
    match err, cd_RatingInfos cd with
    | Some e, _ => fails e
    | None, ri :: _ =>
        mret (cc_set_Timespans r.1
                [setRatingInfo (new_span (cd_TimeStart cd) (cd_TimeEnd cd)) ri], r.2)
    | None, [] => mret r
    end
  else mret r.

(** The session is cut to what the account can pay. *)
Definition limit_session (remainingDuration : Z) : M () :=
  cd ← gets as_cd;
  if 0 <? remainingDuration then
    let cut := sub64 (CallDescriptor_GetDuration cd) remainingDuration in
    let cd := cd_set_TimeEnd cd (Add (cd_TimeStart cd) remainingDuration) in
    set_cd (cd_set_rated cd (sub64 (cd_DurationIndex cd) cut) (cd_ToR cd) (cd_MaxCostSoFar cd))
  else mret ().

(** With the duration the account can pay, or the error of computing it. *)
Definition max_debit_with (a : nat) (remaining : res Z) : M (CallCost * AccountSummary) :=
  cd ← gets as_cd;
  match remaining with
  | Panic => lift Panic
  | Err e => if 0 <? CallDescriptor_GetDuration cd then fails e else nothing_debited a
  | Ok remaining =>
      acc ← account a;
      if cd_ForceDuration cd && negb (acc_AllowNegative acc) &&
         (remaining <? CallDescriptor_GetDuration cd) then fails "INSUFFICIENT_CREDIT"
      else if remaining =? 0 then nothing_debited a
      else
        _ ← limit_session remaining;
        cc ← debit a (cd_DryRun cd) (negb (cd_DenyNegativeAccount cd));
        with_summary a cc
  end.
Definition MaxDebit : M (CallCost * AccountSummary) :=
  a ← locked_account;
  remaining ← (λ st, let '(r, st) := getMaxSessionDuration a st in (Ok r, st)) : M (res Z);
  max_debit_with a remaining.
End debits.
