(* ===== verification/Ledger.v ===== *)
(** * The ledger of a debit

    What the debits of [Debits.v] do to the balances, as steps of an abstract ledger: an
    increment of the cost is paid by taking its price from a balance that has as much, or
    is free; the record of the increment names the balance and what is left of it. *)
From S2P Require Import Prelude GoFloat FloatExact GoStrings GoTime CoreUtils Collections Values RateInterval TimeSpans CallDescriptor RatingProfile CallCost Rating Stateful Balances Accounts Debits.

(** ** Steps on the store *)

(** Everything but the balances, the descriptor and the counters. *)
Definition elsewhere (st st' : AccountState) : Prop :=
  as_accounts st' = as_accounts st ∧ as_db st' = as_db st ∧
  as_uuids st' = as_uuids st ∧ as_rands st' = as_rands st.
Definition quiet (st st' : AccountState) : Prop :=
  as_balances st' = as_balances st ∧ elsewhere st st'.
#[export] Instance elsewhere_preorder : PreOrder elsewhere.
Proof. split; [done|]. unfold elsewhere. intros ??? (?&?&?&?) (?&?&?&?). split_and!; congruence. Qed.
#[export] Instance quiet_preorder : PreOrder quiet.
Proof.
  split; [done|]. unfold quiet. intros ??? [??] [??]. split; [congruence|]. by etrans.
Qed.

(** One balance is replaced. *)
Definition replaced (l : nat) (b b' : Balance) (st st' : AccountState) : Prop :=
  as_balances st !! l = Some b ∧ as_balances st' = <[l := b']> (as_balances st) ∧
  elsewhere st st'.

Lemma replaced_quiet l b b' st st1 st' :
  replaced l b b' st st1 → quiet st1 st' → replaced l b b' st st'.
Proof. intros (?&?&?) (?&?). split_and!; [done|congruence|by etrans]. Qed.
Lemma quiet_replaced l b b' st st1 st' :
  quiet st st1 → replaced l b b' st1 st' → replaced l b b' st st'.
Proof. intros (E&?) (?&?&?). rewrite E in *. split_and!; [done..|by etrans]. Qed.
Lemma quiet_replaced_same l b st st' :
  as_balances st !! l = Some b → quiet st st' → replaced l b b st st'.
Proof. intros Hl [E He]. split_and!; [done| |done]. by rewrite list_insert_id. Qed.

(** A run of steps, each of which makes one increment of the cost. *)
Inductive trace (P : AccountState → Increment → AccountState → Prop)
    : AccountState → Increments → AccountState → Prop :=
| trace_nil st : trace P st [] st
| trace_cons st inc st1 incs st' :
    P st inc st1 → trace P st1 incs st' → trace P st (inc :: incs) st'.

#[local] Abbreviation step := (AccountState → Increment → AccountState → Prop).
Lemma trace_elsewhere (P : step) st incs st' :
  (∀ st inc st', P st inc st' → elsewhere st st') → trace P st incs st' → elsewhere st st'.
Proof. intros HP. induction 1 as [|? ? s ? ? H1 ? IH]; [done|]. etrans; [by eapply HP|done]. Qed.

Section traces.
Context (P : AccountState → Increment → AccountState → Prop).

Lemma trace_app st incs st1 incs' st' :
  trace P st incs st1 → trace P st1 incs' st' → trace P st (incs ++ incs') st'.
Proof. induction 1; [done|]. intros. econstructor; eauto. Qed.
Lemma trace_snoc st incs st1 inc st' :
  trace P st incs st1 → P st1 inc st' → trace P st (incs ++ [inc]) st'.
Proof. intros H1 H2. eapply trace_app; [exact H1|]. econstructor; [exact H2|constructor]. Qed.
End traces.

(** ** Inverting the basic steps *)

Lemma balance_inv l st b st' :
  balance l st = (Ok b, st') → as_balances st !! l = Some b ∧ st' = st.
Proof. unfold balance. destruct (as_balances st !! l); simpl; by intros [= -> ->]. Qed.
Lemma account_inv a st acc st' :
  account a st = (Ok acc, st') → as_accounts st !! a = Some acc ∧ st' = st.
Proof. unfold account. destruct (as_accounts st !! a); simpl; by intros [= -> ->]. Qed.
Lemma set_balance_inv l b b' st u st' :
  as_balances st !! l = Some b → set_balance l b' st = (Ok u, st') → replaced l b b' st st'.
Proof. intros Hl [= _ <-]. split_and!; done. Qed.
Lemma lift_inv {A} (m : res A) (st : AccountState) a st' :
  lift m st = (Ok a, st') → m = Ok a ∧ st' = st.
Proof. by intros [= -> ->]. Qed.
Lemma gets_inv {A} (f : AccountState → A) st a st' :
  gets f st = (Ok a, st') → a = f st ∧ st' = st.
Proof. by intros [= <- <-]. Qed.
Lemma ret_inv {A} (x : A) (st : AccountState) a st' :
  (mret x : SM AccountState A) st = (Ok a, st') → a = x ∧ st' = st.
Proof. by intros [= <- <-]. Qed.
Lemma along_inv {R : relation AccountState} {A} (m : SM AccountState A) st a st' :
  along R m → m st = (Ok a, st') → R st st'.
Proof. intros Hm E. specialize (Hm st). by rewrite E in Hm. Qed.

(** Inverts the steps of a computation that gave a result. *)
Ltac inv_run :=
  repeat match goal with
  | H : mbind _ _ _ = (Ok _, _) |- _ =>
      let a := fresh "r" in let s := fresh "s" in let E := fresh "E" in
      apply bind_ok in H as (a & s & E & H); cbv beta zeta in H
  | H : balance _ _ = (Ok _, _) |- _ => apply balance_inv in H as [H ->]
  | H : account _ _ = (Ok _, _) |- _ => apply account_inv in H as [H ->]
  | H : lift _ _ = (Ok _, _) |- _ => apply lift_inv in H as [H ->]
  | H : deref (Some _) = Ok _ |- _ => injection H as <-
  | H : fails _ _ = (Ok _, _) |- _ => discriminate H
  | H : gets _ _ = (Ok _, _) |- _ => apply gets_inv in H as [-> ->]
  | H : at_max _ _ _ _ = (Ok _, _) |- _ => apply gets_inv in H as [-> ->]
  | H : mret _ _ = (Ok _, _) |- _ => 
      first [apply ret_inv in H as [-> ->]|apply ret_inv in H as [H ->]; simplify_eq]
  end.

(** ** Computations that leave the balances alone *)
Section quiet_steps.
Lemma along_quiet_id {A} (m : SM AccountState A) : (∀ st, (m st).2 = st) → along quiet m.
Proof. intros E st. by rewrite E. Qed.
Lemma quiet_balance l : along quiet (balance l).
Proof. by apply along_quiet_id. Qed.
Lemma quiet_account a : along quiet (account a).
Proof. by apply along_quiet_id. Qed.
Lemma quiet_set_cd cd : along quiet (set_cd cd).
Proof. by apply along_modify. Qed.
Lemma quiet_countUnits a amount kind : along quiet (countUnits a amount kind).
Proof. by apply along_modify. Qed.
End quiet_steps.
#[export] Hint Resolve quiet_balance quiet_account quiet_set_cd quiet_countUnits : along.

Section quiet_debits.
Context `{GoText} `{GoRuntime} `{RatingData} `{AccountData} (maxIncrements : Z) (fuel : nat).

Lemma quiet_counted count a amount kind : along quiet (counted count a amount kind).
Proof. unfold counted. along_steps. Qed.
Lemma quiet_account_id a : along quiet (account_id a).
Proof. unfold account_id. along_steps. Qed.
Lemma quiet_add_MaxCostSoFar cost : along quiet (add_MaxCostSoFar cost).
Proof. unfold add_MaxCostSoFar. along_steps. Qed.
Lemma quiet_cd_getCost cd : along quiet (cd_getCost maxIncrements fuel cd).
Proof. unfold cd_getCost. along_steps. Qed.
Hint Resolve quiet_cd_getCost : along.
Lemma quiet_Balance_GetCost b std : along quiet (Balance_GetCost maxIncrements fuel b std).
Proof. unfold Balance_GetCost. along_steps. Qed.
Lemma quiet_usable b : along quiet (usable b).
Proof. unfold usable. along_steps. Qed.
End quiet_debits.
#[export] Hint Resolve quiet_counted quiet_account_id quiet_add_MaxCostSoFar quiet_cd_getCost
  quiet_Balance_GetCost quiet_usable : along.

(** What the steps that leave the balances alone say about the states, and a chain of
    them. *)
Ltac quiet_steps :=
  repeat match goal with
  | H : _ ?st = (Ok _, ?st') |- _ =>
      apply (along_inv (R := quiet)) in H; [|solve [auto with along]]
  end.
Ltac quiet_run := solve [repeat first [assumption|reflexivity|etrans; [eassumption|]]].

(** ** Money *)

(** What the record of an increment says about the money. *)
Definition money_record (inc : Increment) (b : Balance) : Prop :=
  ∃ i m, inc_BalanceInfo inc = Some i ∧ di_Monetary i = Some m ∧
         mi_UUID m = b_Uuid b ∧ mi_Value m = b_Value b.

(** One increment free of charge. *)
Definition given_free (l : nat) (st : AccountState) (inc : Increment) (st' : AccountState) : Prop :=
  ∃ b, inc_Cost inc = f0 ∧ inc_paid inc = true ∧ money_record inc b ∧ replaced l b b st st'.

(** One increment paid from a balance with as much, or free. *)
Inductive pays (l : nat) (st : AccountState) (inc : Increment) (st' : AccountState) : Prop :=
| pays_charge b :
    fgeb (b_Value b) (inc_Cost inc) = true →
    inc_paid inc = true → money_record inc (SubstractValue b (inc_Cost inc)) →
    replaced l b (SubstractValue b (inc_Cost inc)) st st' → pays l st inc st'
| pays_free : given_free l st inc st' → pays l st inc st'.

Lemma pays_elsewhere l st inc st' : pays l st inc st' → elsewhere st st'.
Proof. by intros [? _ _ _ (_ & _ & ?)|(? & _ & _ & _ & (_ & _ & ?))]. Qed.

Lemma with_info_money b interval accID cost inc inc' :
  with_info (set_money (money_info b interval) accID) true cost inc = Ok inc' →
  inc_Cost inc' = cost ∧ inc_paid inc' = true ∧ money_record inc' b.
Proof.
  unfold with_info. intros E. apply bind_ok_inv in E as (i & Ei & [= <-]).
  split_and!; [done..|]. by repeat eexists.
Qed.

(** *** Whole amounts

    Integers with room for the six decimals of [Round] are exact. *)

Definition whole (x : float64) (z : Z) : Prop := x = f_of_Z z ∧ exact_range (z * 1000000).
(** The costs of increments, none below zero. *)
Definition whole_costs : Increments → list Z → Prop :=
  Forall2 (λ inc z, whole (inc_Cost inc) z ∧ 0 ≤ z).

Lemma whole_exact x z : whole x z → exact_range z.
Proof. intros [_ Hz]. unfold exact_range in *. lia. Qed.
Lemma whole_f0 z : whole f0 z → z = 0.
Proof.
  intros Hw. pose proof (whole_exact _ _ Hw). destruct Hw as [Hz _].
  destruct (decide (z = 0)); [done|].
  by destruct (f_of_Z_finite z) as (s & m & e & E & _); [done..|rewrite E in Hz].
Qed.
Lemma SubstractValue_whole b x v z :
  whole (b_Value b) v → whole x z → 0 ≤ z ≤ v → whole (b_Value (SubstractValue b x)) (v - z).
Proof.
  intros [Hv Hr] [-> _] Hz. unfold exact_range in *. split; [|unfold exact_range; lia].
  simpl. rewrite Hv, fsub_exact, Round_exact; [done|unfold exact_range; lia..].
Qed.

Lemma pays_whole l st inc st' b v z :
  pays l st inc st' → as_balances st !! l = Some b → whole (b_Value b) v →
  whole (inc_Cost inc) z → 0 ≤ v → 0 ≤ z →
  z ≤ v ∧ ∃ b', as_balances st' = <[l := b']> (as_balances st) ∧ b_Uuid b' = b_Uuid b ∧
                whole (b_Value b') (v - z).
Proof.
  intros Hp Hb Hv Hz Hv0 Hz0.
  destruct Hp as [b1 Hg _ _ (Hb1 & Es & _)|(b1 & Hf & _ & _ & (Hb1 & Es & _))];
    rewrite Hb in Hb1; injection Hb1 as <-.
  - assert (z ≤ v) as Hle.
    { apply Z.leb_le. rewrite <- Hg, (proj1 Hv), (proj1 Hz), fgeb_exact; [done|..];
        by eapply whole_exact. }
    split; [done|]. eexists. split_and!; [exact Es|done|by apply SubstractValue_whole].
  - rewrite Hf in Hz. apply whole_f0 in Hz as ->. split; [done|]. exists b.
    by rewrite Z.sub_0_r.
Qed.

Definition sum_Z : list Z → Z := foldr Z.add 0.

(** The increments of a run take their costs from the balance, which never goes below
    zero; the other balances stay. *)
Lemma trace_pays_whole l st incs st' b v zs :
  trace (pays l) st incs st' → as_balances st !! l = Some b → whole (b_Value b) v → 0 ≤ v →
  whole_costs incs zs →
  sum_Z zs ≤ v ∧ ∃ b', as_balances st' = <[l := b']> (as_balances st) ∧ b_Uuid b' = b_Uuid b ∧
                       whole (b_Value b') (v - sum_Z zs).
Proof.
  intros Ht. revert b v zs.
  induction Ht as [st|st inc st1 incs st' Hp Ht IH]; intros b v zs Hb Hv Hv0 Hzs.
  - inversion_clear Hzs. simpl. split; [done|]. exists b. rewrite list_insert_id by done.
    by rewrite Z.sub_0_r.
  - inversion Hzs as [|? z ? zs' [Hz Hz0] Hzs']; subst.
    destruct (pays_whole _ _ _ _ _ _ _ Hp Hb Hv Hz Hv0 Hz0) as (Hle & b1 & E1 & U1 & V1).
    assert (as_balances st1 !! l = Some b1) as Hb1.
    { rewrite E1. apply list_lookup_insert_eq. by eapply lookup_lt_Some. }
    destruct (IH b1 (v - z) zs' Hb1 V1 ltac:(lia) Hzs') as (Hle' & b' & E' & U' & V').
    simpl. split; [lia|]. exists b'. split_and!; [|congruence|].
    + rewrite E', E1. apply list_insert_insert_eq.
    + by replace (v - (z + sum_Z zs')) with (v - z - sum_Z zs') by lia.
Qed.

Section ledger.
Context `{GoText} `{GoRuntime} `{RatingData} `{AccountData} (maxIncrements : Z) (fuel : nat).

Lemma pay_money_spec bl ub interval count inc st r st' :
  pay_money bl ub interval count inc st = (Ok r, st') →
  match r with Some inc' => pays bl st inc' st' | None => st' = st end.
Proof.
  unfold pay_money. intros E. inv_run. destruct (fgeb _ _) eqn:Eg; [|by inv_run].
  inv_run. select (with_info _ _ _ _ = _) (fun H => apply with_info_money in H as (Hc & Hp & Hm)).
  select (set_balance _ _ _ = _) (fun H => eapply set_balance_inv in H as Hr; [|done]).
  quiet_steps. eapply pays_charge; rewrite ?Hc; [done..|].
  eapply replaced_quiet; [exact Hr|quiet_run].
Qed.

Lemma free_increment_spec b bl ub interval count inc st inc' st' :
  as_balances st !! bl = Some b →
  free_increment b ub interval count inc st = (Ok inc', st') → given_free bl st inc' st'.
Proof.
  unfold free_increment. intros Hb E. inv_run.
  select (with_info _ _ _ _ = _) (fun H => apply with_info_money in H as (Hc & Hp & Hm)).
  quiet_steps. exists b. split_and!; [done..|]. apply quiet_replaced_same; [done|quiet_run].
Qed.

(** *** The loops

    For one way to pay and one to give for free: [P] holds of the steps that pay, [Q] of
    the attempt that does not. *)
Section loops.
Context (P : AccountState → Increment → AccountState → Prop) (Q : relation AccountState)
  `{!Reflexive Q}.

Definition pays_with (pay : Increment → SM AccountState (option Increment)) : Prop :=
  ∀ inc st r st', pay inc st = (Ok r, st') →
  match r with Some inc' => P st inc' st' | None => Q st st' end.
Definition gives_with (free : Increment → SM AccountState Increment) : Prop :=
  ∀ inc st inc' st', free inc st = (Ok inc', st') → P st inc' st'.

Definition stop_index (s : stop) : nat :=
  match s with Unpaid k => k | Disconnected k => k end.
(** Where the loop stopped: at the increment after those that were paid. *)
Definition stopped_at (n : nat) (rest : Increments) (st1 st' : AccountState) (s : option stop)
    : Prop :=
  match s with
  | None => rest = [] ∧ st1 = st'
  | Some s => stop_index s = n ∧ rest ≠ [] ∧ Q st1 st'
  end.

(** What the loop over the increments of a span has done. *)
Definition loop_outcome (i : nat) (before : Increments) (st : AccountState) (r : span_result)
    (st' : AccountState) : Prop :=
  ∃ paid rest st1, trace P st paid st1 ∧ sr_incs r = before ++ paid ++ rest ∧
                   stopped_at (i + length paid) rest st1 st' (sr_stop r).

Lemma outcome_end i before st max : loop_outcome i before st (mkSpanResult before None max) st.
Proof.
  exists [], [], st. split_and!; [constructor|by rewrite app_nil_r|done].
Qed.
Lemma outcome_stop i before st s max inc incs st' :
  Q st st' → stop_index s = i →
  loop_outcome i before st (mkSpanResult (before ++ unpaid inc :: incs) (Some s) max) st'.
Proof.
  intros HQ Hi. exists [], (unpaid inc :: incs), st.
  split_and!; [constructor|done|]. split_and!; simpl; [lia|done..].
Qed.
Lemma outcome_next i before st inc st1 r st' :
  P st inc st1 → loop_outcome (S i) (before ++ [inc]) st1 r st' → loop_outcome i before st r st'.
Proof.
  intros HP (paid & rest & st2 & Ht & Er & Hs). exists (inc :: paid), rest, st2.
  split_and!; [by econstructor|by rewrite Er, <- app_assoc|].
  simpl. by rewrite Nat.add_succ_r.
Qed.

Lemma inc_loop_outcome pay free strategy maxCost dryRun fee i incs before max st r st' :
  pays_with pay → gives_with free → fee && (i =? 0)%nat = false →
  inc_loop pay free strategy maxCost dryRun fee i incs before max st = (Ok r, st') →
  loop_outcome i before st r st'.
Proof.
  intros Hpay Hfree. revert i before max st.
  induction incs as [|inc incs IH]; intros i before max st Hi E; simpl in E.
  - inv_run. apply outcome_end.
  - rewrite Hi in E. inv_run. destruct (_ && dryRun).
    { inv_run. by apply outcome_stop. }
    inv_run. destruct (bool_decide _ && _).
    + inv_run. eapply outcome_next; [by eapply Hfree|].
      eapply IH; [by rewrite andb_false_r|done].
    + inv_run. select (pay _ _ = _) (fun E => pose proof (Hpay _ _ _ _ E) as Hp).
      match type of Hp with match ?r with _ => _ end => destruct r as [inc'|] end.
      * eapply outcome_next; [done|]. eapply IH; [by rewrite andb_false_r|done].
      * inv_run. by apply outcome_stop.
Qed.

(** *** The spans *)

(** The increment of the connect fee, which the loop passes over. *)
Definition fee_lead (i : nat) (feePaid : option Balance) (lead : Increments) : Prop :=
  lead = [] ∨ i = 0%nat ∧ ∃ b fee accID, feePaid = Some b ∧ fgtb fee f0 = true ∧
                                        lead = [connect_increment fee b accID].
Definition spans_incs (tss : TimeSpans) : Increments := concat (ts_increments <$> tss).

Lemma spans_incs_snoc tss ts : spans_incs (tss ++ [ts]) = spans_incs tss ++ ts_increments ts.
Proof. unfold spans_incs. rewrite fmap_app, concat_app. simpl. by rewrite app_nil_r. Qed.

Lemma prepare_span_lead ub feePaid i ts st ts' interval fee st' :
  prepare_span maxIncrements ub feePaid i ts st = (Ok (ts', interval, fee), st') →
  st' = st ∧ if (fee : bool) then ∃ lead incs, fee_lead i feePaid lead ∧ length lead = 1%nat ∧
                i = 0%nat ∧ ts_increments ts' = lead ++ incs
             else True.
Proof.
  unfold prepare_span. intros E. inv_run. destruct (ts_RateInterval _); [|by inv_run].
  destruct (Nat.eqb_spec i 0) as [->|]; [|by inv_run].
  inv_run. destruct feePaid as [b|]; [|by inv_run].
  destruct (fgtb _ _) eqn:Ef; [|by inv_run].
  unfold account_id in *. inv_run. split; [done|].
  eexists [_], _. split_and!; [|done..]. right. split; [done|]. by repeat eexists.
Qed.

Lemma cut_spans_incs before ts n rest :
  ts_increments ts = n ++ rest → rest ≠ [] →
  spans_incs (cut_spans before ts (length n)) = spans_incs before ++ n.
Proof.
  intros Hi Hr. unfold cut_spans. destruct (Nat.eqb_spec (length n) 0) as [E|E].
  { apply nil_length_inv in E as ->. by rewrite app_nil_r. }
  rewrite spans_incs_snoc. f_equal. unfold SplitByIncrement.
  assert (length rest ≠ 0%nat) by (by intros ?%nil_length_inv).
  rewrite (proj2 (orb_false_iff _ _)) by (rewrite Hi, length_app; split; lia).
  simpl. unfold SetNewDurationIndex, ts_increments at 1. simpl.
  by rewrite Nat2Z.id, Hi, take_app_length.
Qed.

Lemma span_outcome pay free strategy maxCost dryRun ub feePaid i ts ts' interval fee max st0 st r st' :
  pays_with pay → gives_with free →
  prepare_span maxIncrements ub feePaid i ts st0 = (Ok (ts', interval, fee), st) →
  inc_loop pay free strategy maxCost dryRun fee 0 (ts_increments ts') [] max st = (Ok r, st') →
  st = st0 ∧ ∃ lead, fee_lead i feePaid lead ∧ loop_outcome (length lead) lead st r st'.
Proof.
  intros Hpay Hfree [-> Hlead]%prepare_span_lead E. split; [done|].
  destruct fee; cycle 1.
  { exists []. split; [by left|]. by eapply inc_loop_outcome in E. }
  destruct Hlead as (lead & incs & Hlead & Hn & _ & Ei). exists lead. split; [done|].
  rewrite Ei in E. destruct lead as [|c [|]]; simplify_eq/=.
  by eapply inc_loop_outcome in E.
Qed.

Lemma fee_lead_none i feePaid lead : i ≠ 0%nat → fee_lead i feePaid lead → lead = [].
Proof. intros Hi [?|[??]]; done. Qed.

Lemma pay_spans_trace pay free ub dryRun feePaid i tss before max st tss' stopped max' st' :
  (∀ interval, pays_with (pay interval)) → (∀ interval, gives_with (free interval)) →
  pay_spans maxIncrements pay free ub dryRun feePaid i tss before max st
    = (Ok (tss', stopped, max'), st') →
  ∃ lead paid st1, fee_lead i feePaid lead ∧ trace P st paid st1 ∧
    spans_incs tss' = spans_incs before ++ lead ++ paid ∧
    match stopped with None => st1 = st' | Some _ => Q st1 st' end.
Proof.
  intros Hpay Hfree. revert i before max st.
  induction tss as [|ts tss IH]; intros i before max st E; simpl in E; inv_run.
  { eexists [], [], _. split_and!; [by left|constructor|by rewrite app_nil_r|done]. }
  select (_ * _ * _)%type (fun p => destruct p as [[ts' interval] fee]).
  destruct (GetMaxCost interval) as [maxCost strategy]. inv_run.
  select (inc_loop _ _ _ _ _ _ _ _ _ _ _ = _)
    (fun E => eapply span_outcome in E as [-> (lead & Hl & paid & rest & st1 & Ht & Er & Hs)]; [|done..]).
  select span_result (fun r => destruct r as [incs why m]). simpl in *. destruct why as [why|]; simpl in *.
  - destruct Hs as (Hn & Hr & HQ).
    assert (tss' = cut_spans before (ts_set_Increments ts' (Some incs)) (length (lead ++ paid)) ∧
            Q st1 st' ∧ stopped ≠ None) as (-> & HQ' & Hsn).
    { rewrite length_app, <- Hn. destruct why; inv_run; done. }
    exists lead, paid, st1. split_and!; [done..| |by destruct stopped].
    rewrite (cut_spans_incs _ _ _ rest); [done| |done]. simpl. by rewrite Er, app_assoc.
  - destruct Hs as [-> ->]. eapply IH in E as (lead' & paid' & st2 & Hl' & Ht' & Ei & Hs).
    apply fee_lead_none in Hl' as ->; [|done].
    exists lead, (paid ++ paid'), st2. split_and!; [done|by eapply trace_app| |done].
    rewrite Ei, spans_incs_snoc. change (ts_increments _) with incs.
    by rewrite Er, app_nil_r, <- !app_assoc.
Qed.
End loops.

(** ** One balance *)

Lemma debit_rated_trace P Q `{!Reflexive Q} units bl ub mb count dryRun dcf st b r st' :
  (∀ tor cc interval, pays_with P Q
     (if (units : bool) then pay_units bl ub mb tor cc interval count dryRun
      else pay_money bl ub interval count)) →
  (∀ st b, as_balances st !! bl = Some b →
     ∀ interval inc inc' st', free_increment b ub interval count inc st = (Ok inc', st') →
     P st inc' st') →
  as_balances st !! bl = Some b →
  debit_rated maxIncrements fuel units bl ub mb count dryRun dcf st = (Ok r, st') →
  ∃ cc s ok debited cc' s1,
    quiet st s ∧
    (if dcf then DebitConnectionFee ub cc mb count true
     else mret (false, new_balance "" "" f0, cc)) s = (Ok (ok, debited, cc'), s1) ∧
    if dcf && negb ok then r = None ∧ st' = s1
    else ∃ lead paid s2,
      fee_lead 0 (if dcf && cc_deductConnectFee cc' then Some debited else None) lead ∧
      trace P s1 paid s2 ∧ Q s2 st' ∧
      default [] ((spans_incs ∘ cc_Timespans) <$> r) = lead ++ paid.
Proof.
  intros Hpay Hfree Hb E. unfold debit_rated in E. inv_run.
  select (Balance_GetCost _ _ _ _ _ = _) (fun E =>
    apply (along_inv (R := quiet)) in E as Hq; [|auto with along]).
  select (bool * _ * _)%type (fun p => destruct p as [[ok debited] cc']).
  do 6 eexists. split; [exact Hq|]. split; [eassumption|].
  destruct (dcf && negb ok); [by inv_run|]. inv_run.
  select (_ * _ * _)%type (fun p => destruct p as [[tss stopped] max]).
  select (pay_spans _ _ _ _ _ _ _ _ _ _ _ = _) (fun E =>
    eapply (pay_spans_trace P Q) in E as (lead & paid & s' & Hl & Ht & Ei & Hs)).
  - simpl in Ei. exists lead, paid, s'. split; [done|]. split; [done|]. rewrite <- Ei.
    destruct stopped as [[]|], tss as [|ts tss]; try destruct units; inv_run; by subst.
  - intros interval. apply Hpay.
  - intros interval inc st1 inc' st2 E'. inv_run. eauto.
Qed.

(** *** Money alone *)

Lemma usable_inv (b : Balance) st ok st' : usable b st = (Ok ok, st') → st' = st.
Proof. unfold usable. intros E. by inv_run. Qed.


(** *** Units *)

(** What the record of an increment says about the units. *)
Definition unit_record (inc : Increment) (b : Balance) (consumed : float64) : Prop :=
  ∃ i u, inc_BalanceInfo inc = Some i ∧ di_Unit i = Some u ∧
         ui_UUID u = b_Uuid b ∧ ui_Value u = b_Value b ∧ ui_Consumed u = consumed.

(** Units of a balance with as many. *)
Definition takes_units (l : nat) (tor : string) (st : AccountState) (inc : Increment)
    (st' : AccountState) : Prop :=
  ∃ b, let amount := inc_amount b tor inc in
  fgeb (b_Value b) amount = true ∧ inc_paid inc = true ∧
  unit_record inc (SubstractValue b amount) amount ∧
  replaced l b (SubstractValue b amount) st st'.
(** Without a price of their own. *)
Definition takes_free_units (l : nat) (tor : string) (st : AccountState) (inc : Increment)
    (st' : AccountState) : Prop :=
  inc_Cost inc = f0 ∧ takes_units l tor st inc st'.

Lemma zero_loop_outcome bl ub tor cc count i incs before st r st' :
  zero_loop bl ub tor cc count i incs before st = (Ok r, st') →
  loop_outcome (takes_free_units bl tor) eq i before st r st'.
Proof.
  revert i before st. induction incs as [|inc incs IH]; intros i before st E; simpl in E; inv_run.
  { apply outcome_end. }
  destruct (fgeb _ _) eqn:Eg; inv_run; [|by apply outcome_stop].
  eapply outcome_next; [|by eapply IH].
  select (with_info _ _ _ _ = _) (fun E => apply bind_ok_inv in E as (i' & Ei & [= <-])).
  select (set_balance _ _ _ = _) (fun H => eapply set_balance_inv in H as Hr; [|done]).
  quiet_steps. split; [done|]. eexists. split_and!; [exact Eg|done| |].
  - by do 2 eexists.
  - eapply replaced_quiet; [exact Hr|quiet_run].
Qed.

Lemma debit_zero_units_trace bl ub duration count st r st' :
  debit_zero_units maxIncrements bl ub duration count st = (Ok r, st') →
  ∃ paid, trace (takes_free_units bl (cd_ToR (as_cd st))) st paid st' ∧
          default [] ((spans_incs ∘ cc_Timespans) <$> r) = paid.
Proof.
  unfold debit_zero_units. intros E. inv_run.
  select (zero_loop _ _ _ _ _ _ _ _ _ = _) (fun E =>
    rename E into Ez; pose proof (zero_loop_outcome _ _ _ _ _ _ _ _ _ _ _ Ez)
      as (paid & rest & s & Ht & Er & Hs)).
  exists paid. simpl in Er. rewrite Nat.add_0_l in Hs.
  set (ts' := match ts_Increments _ with Some _ => _ | None => _ end) in E.
  assert (ts_increments ts' = paid ++ rest) as Ei.
  { subst ts'. unfold ts_increments in Ez |- *. destruct (ts_Increments _) eqn:Et; [done|].
    simpl in Ez. inv_run. by rewrite Et. }
  clearbody ts'. destruct (sr_stop _) as [why|]; simpl in Hs.
  - destruct Hs as (Hn & Hr & ->).
    assert (default [] ((spans_incs ∘ cc_Timespans) <$> r)
            = spans_incs (cut_spans [] ts' (length paid)) ∧ st' = s3) as [-> ->].
    { rewrite <- Hn. destruct why; simpl in *; destruct (cut_spans _ _ _); inv_run; done. }
    by rewrite (cut_spans_incs _ _ _ rest).
  - destruct Hs as [-> ->]. inv_run. split; [done|].
    unfold spans_incs. simpl. by rewrite Ei, !app_nil_r.
Qed.

(** *** Units with a price *)

(** The default balance of an account: one that is there, or a new one without money. *)
Inductive default_money (a l : nat) (st : AccountState) : AccountState → Prop :=
| default_found acc :
    as_accounts st !! a = Some acc → l ∈ default [] (acc_BalanceMap acc !! MONETARY) →
    IsDefault (balance_at st l) = true → default_money a l st st
| default_opened acc uuid st' :
    as_accounts st !! a = Some acc → l = length (as_balances st) →
    as_balances st' = as_balances st ++ [new_balance uuid MetaDefault f0] →
    (∃ acc', as_accounts st' = <[a := acc']> (as_accounts st) ∧ acc_ID acc' = acc_ID acc ∧
       acc_BalanceMap acc' = <[MONETARY := default [] (acc_BalanceMap acc !! MONETARY) ++ [l]]>
                               (acc_BalanceMap acc)) →
    as_db st' = as_db st → default_money a l st st'.

Lemma GetDefaultMoneyBalance_spec a st l st' :
  GetDefaultMoneyBalance a st = (Ok l, st') → default_money a l st st'.
Proof.
  unfold GetDefaultMoneyBalance. intros E. inv_run.
  match type of E with match ?f with _ => _ end _ = _ => destruct f as [[i l']|] eqn:Ef end.
  - inv_run. apply list_find_Some in Ef as (Hi & Hd & _).
    eapply default_found; [done| |done]. by eapply list_elem_of_lookup_2.
  - unfold new_uuid, alloc_balance, modify in E.
    apply bind_ok in E as (uuid & s1 & [= <- <-] & E).
    apply bind_ok in E as (l' & s2 & [= <- <-] & E).
    apply bind_ok in E as ([] & s3 & [= <-] & [= <- <-]).
    eapply default_opened; [done..|by eexists|done].
Qed.

(** Every balance keeps its place. *)
Lemma default_money_lookup a l st st' k b :
  default_money a l st st' → as_balances st !! k = Some b → as_balances st' !! k = Some b.
Proof.
  intros [|acc uuid s _ _ Eb _ _] Hk; [done|]. rewrite Eb. by apply lookup_app_l_Some.
Qed.

(** The money that goes with the units: of the first balance with as much, or of the
    default one. *)
Definition money_source (ub : nat) (mb : list nat) (cost : float64) (ml : nat)
    (st st' : AccountState) : Prop :=
  (ml ∈ mb ∧ fgeb (b_Value (balance_at st ml)) cost = true ∧ st' = st) ∨
  default_money ub ml st st'.

Inductive pays_units (l ub : nat) (mb : list nat) (tor : string) (st : AccountState)
    (inc : Increment) (st' : AccountState) : Prop :=
| pays_units_only :
    feqb (inc_Cost inc) f0 = true → takes_units l tor st inc st' →
    pays_units l ub mb tor st inc st'
| pays_units_money b m ml s1 s2 :
    let amount := inc_amount b tor inc in
    feqb (inc_Cost inc) f0 = false → inc_paid inc = true →
    money_source ub mb (inc_Cost inc) ml st s1 →
    fgeb (b_Value b) amount = true → replaced l b (SubstractValue b amount) s1 s2 →
    unit_record inc (SubstractValue b amount) amount →
    replaced ml m (SubstractValue m (inc_Cost inc)) s2 st' →
    money_record inc (SubstractValue m (inc_Cost inc)) →
    pays_units l ub mb tor st inc st'
| pays_units_free : given_free l st inc st' → pays_units l ub mb tor st inc st'.

(** An attempt that does not pay may open the default balance. *)
Definition may_open (ub : nat) (st st' : AccountState) : Prop :=
  st' = st ∨ ∃ l, default_money ub l st st'.
#[export] Instance may_open_refl ub : Reflexive (may_open ub).
Proof. by left. Qed.

Lemma money_for_spec cost mb st ml st' :
  money_for cost mb st = (Ok ml, st') →
  st' = st ∧ match ml with
             | Some l => l ∈ mb ∧ fgeb (b_Value (balance_at st l)) cost = true
             | None => True end.
Proof.
  intros [= <- <-]. split; [done|]. destruct (List.find _ _) eqn:Ef; [|done].
  apply List.find_some in Ef as [Hin Hf]. split; [by apply list_elem_of_In|done].
Qed.

Lemma pay_units_spec bl ub mb tor cc interval count dryRun inc st r st' :
  pay_units bl ub mb tor cc interval count dryRun inc st = (Ok r, st') →
  match r with Some inc' => pays_units bl ub mb tor st inc' st' | None => may_open ub st st' end.
Proof.
  unfold pay_units. intros E. inv_run.
  select (money_for _ _ _ = _) (fun E => apply money_for_spec in E as [-> Hm]).
  assert ((feqb (inc_Cost inc) f0 = true → s2 = st) ∧ may_open ub st s2 ∧
          match r3 with Some ml => feqb (inc_Cost inc) f0 = false →
                          money_source ub mb (inc_Cost inc) ml st s2
                   | None => True end) as (Hz & Hopen & Hsrc).
  { destruct (negb (feqb (inc_Cost inc) f0) && bool_decide (r2 = None) && _) eqn:Ed; inv_run.
    - select (GetDefaultMoneyBalance _ _ = _) (fun E =>
        apply GetDefaultMoneyBalance_spec in E as Hd).
      split; [by destruct (feqb (inc_Cost inc) f0)|].
      split; [right; by eexists|]. intros _. by right.
    - split_and!; [done|by left|]. destruct r2 as [ml|]; [|done]. intros _. left. by destruct Hm. }
  clear E3 Hm. destruct (fgeb _ _ && _) eqn:Eg; inv_run; [|done].
  apply andb_prop in Eg as [Eg Em].
  select (with_info _ _ _ _ = _) (fun E => apply bind_ok_inv in E as (i & Ei & [= <-])).
  assert (as_balances s2 !! bl = Some r0) as Hb.
  { destruct Hopen as [->|[l Hd]]; [done|]. by eapply default_money_lookup. }
  select (set_balance _ _ _ = _) (fun H => eapply set_balance_inv in H as Hr; [|done]).
  destruct (feqb (inc_Cost inc) f0) eqn:Ec.
  - rewrite Hz in * by done. inv_run. quiet_steps. apply pays_units_only; [done|].
    eexists. split_and!; [exact Eg|done|by do 2 eexists|].
    eapply replaced_quiet; [exact Hr|quiet_run].
  - destruct r3 as [ml|]; [|done]. inv_run.
    select (with_info _ _ _ _ = _) (fun E => apply bind_ok_inv in E as (i' & Ei' & [= <-])).
    select (set_balance _ (SubstractValue _ (inc_Cost inc)) _ = _) (fun H => eapply set_balance_inv in H as Hr'; [|done]).
    injection Ei' as <-. simplify_eq. quiet_steps.
    eapply pays_units_money; simpl; [done|done|by apply Hsrc|exact Eg|exact Hr|..].
    + by do 2 eexists.
    + eapply replaced_quiet; [exact Hr'|quiet_run].
    + by do 2 eexists.
Qed.

(** *** The connect fee *)

Lemma debit_fee_spec a fee count l st b' st' :
  debit_fee a fee count l st = (Ok b', st') →
  ∃ b, b' = SubstractValue b fee ∧ replaced l b b' st st'.
Proof.
  unfold debit_fee. intros E. inv_run.
  select (set_balance _ _ _ = _) (fun H => eapply set_balance_inv in H as Hr; [|done]).
  eexists. split; [done|].
  match goal with H : (if count then _ else _) _ = _ |- _ =>
    apply (along_inv (R := quiet)) in H; [|by destruct count; along_steps] end.
  by eapply replaced_quiet.
Qed.

(** A balance the search for one that can pay the fee goes past. *)
Definition passed_over (fee : float64) (block : bool) (st : AccountState) (l : nat) : Prop :=
  fgeb (b_Value (balance_at st l)) fee = false ∧ b_Blocker (balance_at st l) && block = false.

Lemma fee_loop_spec a fee count block mb st r st' :
  fee_loop a fee count block mb st = (Ok r, st') →
  (∃ pre l post b, mb = pre ++ l :: post ∧ Forall (passed_over fee block st) pre ∧
     as_balances st !! l = Some b ∧
     if fgeb (b_Value b) fee then
       r = Some (Some (SubstractValue b fee)) ∧ replaced l b (SubstractValue b fee) st st'
     else b_Blocker b && block = true ∧ r = None ∧ st' = st) ∨
  Forall (passed_over fee block st) mb ∧ r = Some None ∧ st' = st.
Proof.
  induction mb as [|l mb IH]; intros E; simpl in E; inv_run; [by right|].
  rename select (as_balances st !! l = _) into Hl.
  destruct (fgeb _ _) eqn:Eg.
  - inv_run. select (debit_fee _ _ _ _ _ = _) (fun E => apply debit_fee_spec in E as (b & -> & Hr)).
    destruct Hr as (Hl' & Hr). rewrite Hl in Hl'. injection Hl' as <-.
    left. exists [], l, mb, r0. rewrite Eg. split_and!; [done|constructor|done|done|done|apply Hr..].
  - destruct (b_Blocker _ && block) eqn:Eb.
    + inv_run. left. eexists [], l, mb, _. split_and!; [done|constructor|exact Hl|].
      by rewrite Eg.
    + assert (passed_over fee block st l) as Hp.
      { unfold passed_over, balance_at. by rewrite Hl. }
      destruct (IH E) as [(pre & k & post & b & -> & Hpre & Hk)|(Hall & Hk)].
      * left. exists (l :: pre), k, post, b. split; [done|]. split; [by constructor|done].
      * right. split; [by constructor|done].
Qed.

(** What the fee does to the balances. *)
Inductive fee_taken (a : nat) (mb : list nat) (fee : float64) (st st' : AccountState) : Prop :=
| fee_untouched : st' = st → fee_taken a mb fee st st'
| fee_charged l b :
    l ∈ mb → fgeb (b_Value b) fee = true → replaced l b (SubstractValue b fee) st st' →
    fee_taken a mb fee st st'
| fee_overdrawn l b s :
    fgtb fee f0 = true → default_money a l st s → replaced l b (SubstractValue b fee) s st' →
    fee_taken a mb fee st st'.

Lemma DebitConnectionFee_cases a cc mb count block st ok debited cc' st' :
  DebitConnectionFee a cc mb count block st = (Ok (ok, debited, cc'), st') →
  let fee := GetConnectFee cc in
  if negb (cc_deductConnectFee cc) then ok = true ∧ cc' = cc ∧ st' = st
  else
    (∃ pre l post b, mb = pre ++ l :: post ∧ Forall (passed_over fee block st) pre ∧
       as_balances st !! l = Some b ∧ cc' = cc ∧
       if fgeb (b_Value b) fee then
         ok = true ∧ debited = SubstractValue b fee ∧ replaced l b debited st st'
       else b_Blocker b && block = true ∧ ok = false ∧ st' = st) ∨
    (Forall (passed_over fee block st) mb ∧ ok = true ∧
     if fgtb fee f0 then
       ∃ l b s, default_money a l st s ∧ debited = SubstractValue b fee ∧
                replaced l b debited s st' ∧ cc_negativeConnectFee cc' = true
     else cc' = cc ∧ st' = st).
Proof.
  intros E. cbv zeta. unfold DebitConnectionFee in E. destruct (cc_deductConnectFee cc); simpl in *.
  2: { by inv_run. }
  inv_run. select (fee_loop _ _ _ _ _ _ = _) (fun E => apply fee_loop_spec in E
    as [(pre & l & post & b & -> & Hp & Hb & Hc)|(Hall & -> & ->)]).
  - left. exists pre, l, post, b. destruct (fgeb _ _) eqn:Eg.
    + destruct Hc as [-> Hr]. by inv_run.
    + destruct Hc as (Hbl & -> & ->). by inv_run.
  - right. destruct (fgtb _ _); inv_run; [|done].
    select (GetDefaultMoneyBalance _ _ = _) (fun E => apply GetDefaultMoneyBalance_spec in E as Hd).
    select (debit_fee _ _ _ _ _ = _) (fun E => apply debit_fee_spec in E as (b & -> & Hr)).
    split_and!; [done..|]. do 3 eexists. split_and!; [exact Hd|done|exact Hr|done].
Qed.

Lemma DebitConnectionFee_taken a cc mb count block st ok debited cc' st' :
  DebitConnectionFee a cc mb count block st = (Ok (ok, debited, cc'), st') →
  fee_taken a mb (GetConnectFee cc) st st' ∧ (ok = false → st' = st).
Proof.
  intros E. apply DebitConnectionFee_cases in E. cbv zeta in E.
  destruct (negb _); [by destruct E as (-> & _ & ->); split; [by apply fee_untouched|]|].
  destruct E as [(pre & l & post & b & -> & Hp & Hb & _ & Hc)|(Hall & -> & Hc)].
  - destruct (fgeb _ _) eqn:Eg; [|destruct Hc as (_ & _ & ->); split; [by apply fee_untouched|done]].
    destruct Hc as (-> & -> & Hr). split; [|done]. apply (fee_charged _ _ _ _ _ l b); [set_solver|done|exact Hr].
  - split; [|done]. destruct (fgtb _ _) eqn:Ef; [|by destruct Hc as [_ ->]; apply fee_untouched].
    destruct Hc as (l & b & s & Hd & -> & Hr & _). by eapply fee_overdrawn.
Qed.

(** *** The two debits *)

(** A debit: the call is rated, the connect fee is taken when asked for, and every
    increment of the cost but that of the fee is a step of the ledger. *)
Definition ledger_run (P : AccountState → Increment → AccountState → Prop) (Q : relation AccountState)
    (ub : nat) (mb : list nat) (dcf : bool) (st : AccountState) (r : option CallCost)
    (st' : AccountState) : Prop :=
  ∃ fee s0 s1 s2 feePaid lead paid,
    quiet st s0 ∧ (if dcf then fee_taken ub mb fee s0 s1 else s1 = s0) ∧
    trace P s1 paid s2 ∧ Q s2 st' ∧ fee_lead 0 feePaid lead ∧ (dcf = false → lead = []) ∧
    default [] ((spans_incs ∘ cc_Timespans) <$> r) = lead ++ paid.

Lemma ledger_run_nothing P Q `{!Reflexive Q} ub mb dcf st : ledger_run P Q ub mb dcf st None st.
Proof.
  exists f0, st, st, st, None, [], []. split_and!; [done|by destruct dcf; [apply fee_untouched|]|
    constructor|reflexivity|by left|done|done].
Qed.

Lemma debit_rated_run P Q `{!Reflexive Q} units bl ub mb count dryRun dcf st b r st' :
  (∀ tor cc interval, pays_with P Q
     (if (units : bool) then pay_units bl ub mb tor cc interval count dryRun
      else pay_money bl ub interval count)) →
  (∀ st b, as_balances st !! bl = Some b →
     ∀ interval inc inc' st', free_increment b ub interval count inc st = (Ok inc', st') →
     P st inc' st') →
  as_balances st !! bl = Some b →
  debit_rated maxIncrements fuel units bl ub mb count dryRun dcf st = (Ok r, st') →
  ledger_run P Q ub mb dcf st r st'.
Proof.
  intros Hpay Hfree Hb E. eapply (debit_rated_trace P Q) in E
    as (cc & s & ok & debited & cc' & s1 & Hq & Efee & Ht); [|done..].
  assert ((if dcf then fee_taken ub mb (GetConnectFee cc) s s1 else s1 = s) ∧
          (dcf && negb ok = true → s1 = s)) as [Hfee Hno].
  { destruct dcf; [|by inv_run]. apply DebitConnectionFee_taken in Efee as [Hf Hok].
    split; [done|]. destruct ok; [done|auto]. }
  destruct (dcf && negb ok).
  - destruct Ht as [-> ->]. exists (GetConnectFee cc), s, s1, s1, None, [], [].
    split_and!; [done..|constructor|reflexivity|by left|done|done].
  - destruct Ht as (lead & paid & s2 & Hl & Ht & HQ & Ei).
    eexists (GetConnectFee cc), s, s1, s2, _, lead, paid. split_and!; [done..|exact Hl| |done].
    intros ->. destruct Hl as [->|(_ & ? & ? & ? & [=] & _)]. done.
Qed.

Lemma debit_rated_money bl ub mb count dryRun dcf st b r st' :
  as_balances st !! bl = Some b →
  debit_rated maxIncrements fuel false bl ub mb count dryRun dcf st = (Ok r, st') →
  ledger_run (pays bl) eq ub mb dcf st r st'.
Proof.
  intros Hb E. eapply (debit_rated_run (pays bl) eq); [..|exact Hb|exact E].
  - intros tor cc interval inc st1 r' st2 E'. apply pay_money_spec in E'. by destruct r'.
  - intros st1 b1 Hb1 interval inc inc' st2 E'. eapply pays_free, free_increment_spec; done.
Qed.

(** Units with a price: the type of the call is the same for all of them. *)
Definition some_units (l ub : nat) (mb : list nat) (st : AccountState) (inc : Increment)
    (st' : AccountState) : Prop := ∃ tor, pays_units l ub mb tor st inc st'.

Lemma debit_rated_units bl ub mb count dryRun dcf st b r st' :
  as_balances st !! bl = Some b →
  debit_rated maxIncrements fuel true bl ub mb count dryRun dcf st = (Ok r, st') →
  ledger_run (some_units bl ub mb) (may_open ub) ub mb dcf st r st'.
Proof.
  intros Hb E. eapply (debit_rated_run (some_units bl ub mb) (may_open ub)); [..|exact Hb|exact E].
  - intros tor cc interval inc st1 r' st2 E'. apply pay_units_spec in E'.
    destruct r'; [by eexists|done].
  - intros st1 b1 Hb1 interval inc inc' st2 E'. exists "".
    by eapply pays_units_free, free_increment_spec.
Qed.

Lemma debitMoney_run bl ub mb count dryRun dcf st r st' :
  debitMoney maxIncrements fuel bl ub mb count dryRun dcf st = (Ok r, st') →
  ledger_run (pays bl) eq ub mb dcf st r st'.
Proof.
  unfold debitMoney. intros E. inv_run.
  select (usable _ _ = _) (fun E => apply usable_inv in E as ->).
  match type of E with (if negb ?ok then _ else _) _ = _ => destruct ok end; simpl in E.
  - by eapply debit_rated_money.
  - inv_run. apply ledger_run_nothing, _.
Qed.

Lemma debitUnits_run bl ub mb count dryRun dcf st r st' :
  debitUnits maxIncrements fuel bl ub mb count dryRun dcf st = (Ok r, st') →
  trace (takes_free_units bl (cd_ToR (as_cd st))) st
    (default [] ((spans_incs ∘ cc_Timespans) <$> r)) st' ∨
  ledger_run (some_units bl ub mb) (may_open ub) ub mb dcf st r st'.
Proof.
  unfold debitUnits. intros E. inv_run.
  select (usable _ _ = _) (fun E => apply usable_inv in E as ->).
  match type of E with (if negb ?ok then _ else _) _ = _ => destruct ok end; simpl in E.
  - inv_run. destruct (ParseZeroRatingSubject _ _ _).
    + left. by apply debit_zero_units_trace in E as (paid & Ht & ->).
    + right. by eapply debit_rated_units.
    + done.
  - inv_run. right. apply ledger_run_nothing, _.
Qed.

(** *** All balances of an account *)

(** The increments one debit adds, from a balance of either list. *)
Definition balance_part (units money : list nat) (st : AccountState) (incs : Increments)
    (st' : AccountState) : Prop :=
  ∃ bl ub dcf r, incs = default [] ((spans_incs ∘ cc_Timespans) <$> r) ∧
  (bl ∈ money ∧ ledger_run (pays bl) eq ub money dcf st r st' ∨
   bl ∈ units ∧ ledger_run (some_units bl ub money) (may_open ub) ub money dcf st r st' ∨
   bl ∈ units ∧ ∃ tor, trace (takes_free_units bl tor) st incs st').

(** Debits one after the other. *)
Inductive account_run (units money : list nat) : AccountState → Increments → AccountState → Prop :=
| run_nil st : account_run units money st [] st
| run_quiet st s incs st' :
    quiet st s → account_run units money s incs st' → account_run units money st incs st'
| run_part st part s incs st' :
    balance_part units money st part s → account_run units money s incs st' →
    account_run units money st (part ++ incs) st'.

Lemma account_run_trans units money st incs s incs' st' :
  account_run units money st incs s → account_run units money s incs' st' →
  account_run units money st (incs ++ incs') st'.
Proof.
  induction 1 as [|st s1 incs s Hq _ IH|st part s1 incs s Hp _ IH]; intros Hr; [done|..].
  - eapply run_quiet; [done|auto].
  - rewrite <- app_assoc. eapply run_part; [done|auto].
Qed.

(** A stretch of the loops: from a cost to one with the increments of the run. *)
Definition adds (units money : list nat) (cc : CallCost) (st : AccountState) (cc' : CallCost)
    (st' : AccountState) : Prop :=
  ∃ incs, account_run units money st incs st' ∧
          spans_incs (cc_Timespans cc') = spans_incs (cc_Timespans cc) ++ incs.
Lemma adds_nothing units money cc st : adds units money cc st cc st.
Proof. exists []. split; [constructor|by rewrite app_nil_r]. Qed.
Lemma adds_trans units money cc st cc1 st1 cc2 st2 :
  adds units money cc st cc1 st1 → adds units money cc1 st1 cc2 st2 →
  adds units money cc st cc2 st2.
Proof.
  intros (i1 & R1 & E1) (i2 & R2 & E2). exists (i1 ++ i2). split; [by eapply account_run_trans|].
  by rewrite E2, E1, app_assoc.
Qed.

Lemma append_part_adds units money cc part st0 st r st' :
  balance_part units money st0 (spans_incs (cc_Timespans part)) st →
  append_part cc part st = (Ok r, st') → adds units money cc st0 r.1 st'.
Proof.
  intros Hp E. unfold append_part in E. inv_run. quiet_steps.
  exists (spans_incs (cc_Timespans part)). split.
  - rewrite <- (app_nil_r (spans_incs _)). eapply run_part; [exact Hp|].
    eapply run_quiet; [eassumption|constructor].
  - simpl. unfold spans_incs. by rewrite fmap_app, concat_app.
Qed.

Definition pays_parts (units money : list nat)
    (debit : nat → nat → bool → SM AccountState (option CallCost)) (bls : list nat) : Prop :=
  ∀ bl ub dcf st r st', bl ∈ bls → debit bl ub dcf st = (Ok r, st') →
  balance_part units money st (default [] ((spans_incs ∘ cc_Timespans) <$> r)) st'.

Lemma pass_loop_adds units money debit isUnits dryRun bls cc progress subject st r st' :
  pays_parts units money debit bls →
  pass_loop debit isUnits dryRun bls cc progress subject st = (Ok r, st') →
  adds units money cc st (pr_cc r) st'.
Proof.
  revert cc progress subject st.
  induction bls as [|bl bls IH]; intros cc progress subject st Hd E; simpl in E; inv_run.
  { apply adds_nothing. }
  assert (pays_parts units money debit bls) as Hd' by (intros ? **; eapply Hd; [by right|done]).
  select (debit _ _ _ _ = _) (fun E => apply Hd in E as Hp; [|by left]).
  match type of Hp with context [_ <$> ?x] => destruct x as [part|] end; simpl in Hp.
  - inv_run. select (append_part _ _ _ = _) (fun E => eapply append_part_adds in E as Ha; [|exact Hp]).
    select (CallCost * bool)%type (fun p => destruct p as [cc1 covered]). simpl in Ha.
    destruct covered; [by inv_run|]. destruct (_ && _); [by inv_run|].
    destruct (_ && _); [by inv_run|]. eapply adds_trans; [exact Ha|by eapply IH].
  - eapply (adds_trans _ _ _ _ cc).
    + exists []. split; [|by rewrite app_nil_r]. rewrite <- (app_nil_r []).
      eapply run_part; [exact Hp|constructor].
    + destruct (_ && _); [inv_run; apply adds_nothing|by eapply IH].
Qed.

Lemma retry_loop_adds units money n debit isUnits dryRun bls cc progress subject st r st' :
  pays_parts units money debit bls →
  retry_loop n debit isUnits dryRun bls cc progress subject st = (Ok r, st') →
  adds units money cc st (pr_cc r) st'.
Proof.
  intros Hd. revert cc progress subject st.
  induction n as [|n IH]; intros cc progress subject st E; simpl in E; [by inv_run|].
  inv_run. select (pass_loop _ _ _ _ _ _ _ _ = _) (fun E => eapply pass_loop_adds in E as Hp; [|done]).
  destruct (pr_end _); [by inv_run..|]. destruct (pr_progress _); [|by inv_run].
  eapply adds_trans; [exact Hp|by eapply IH].
Qed.

Lemma debitUnits_parts units money count dryRun :
  pays_parts units money
    (λ bl ub first, debitUnits maxIncrements fuel bl ub money count dryRun first) units.
Proof.
  intros bl ub dcf st r st' Hin [Ht|Hr]%debitUnits_run; exists bl, ub, dcf, r; (split; [done|]).
  - right. right. split; [done|by eexists].
  - right. by left.
Qed.
Lemma debitMoney_parts units money count dryRun :
  pays_parts units money
    (λ bl ub first, debitMoney maxIncrements fuel bl ub money count dryRun first) money.
Proof.
  intros bl ub dcf st r st' Hin Hr%debitMoney_run. exists bl, ub, dcf, r. split; [done|]. by left.
Qed.

Lemma general_loop_adds n units money count dryRun cc subject st r st' :
  general_loop maxIncrements fuel n units money count dryRun cc subject st = (Ok r, st') →
  adds units money cc st (pr_cc r) st'.
Proof.
  revert cc subject st. induction n as [|n IH]; intros cc subject st E; simpl in E; [by inv_run|].
  inv_run. select (retry_loop _ _ true _ _ _ _ _ _ = _) (fun E =>
    eapply retry_loop_adds in E as Hu; [|apply debitUnits_parts]).
  destruct (pr_end _); [by inv_run..|]. inv_run.
  select (retry_loop _ _ false _ _ _ _ _ _ = _) (fun E =>
    eapply retry_loop_adds in E as Hm; [|apply debitMoney_parts]).
  assert (adds units money cc st (pr_cc r1) s0) as Ha by by eapply adds_trans.
  destruct (pr_end r1); [by inv_run..|]. destruct (_ || _); [|by inv_run].
  eapply adds_trans; [exact Ha|by eapply IH].
Qed.


(** C19: the connect fee is taken from the first of the balances that can pay it; a blocker
    that cannot and comes before it stops the debit without any change.  When none can
    pay, a positive fee is taken from the default balance, made for it when there is none,
    which the cost marks; a cost without a fee to deduct changes nothing. *)
Theorem DebitConnectionFee_spec a cc mb count block st ok debited cc' st' :
  DebitConnectionFee a cc mb count block st = (Ok (ok, debited, cc'), st') →
  let fee := GetConnectFee cc in
  if negb (cc_deductConnectFee cc) then ok = true ∧ cc' = cc ∧ st' = st
  else
    (∃ pre l post b, mb = pre ++ l :: post ∧ Forall (passed_over fee block st) pre ∧
       as_balances st !! l = Some b ∧ cc' = cc ∧
       if fgeb (b_Value b) fee then
         ok = true ∧ debited = SubstractValue b fee ∧ replaced l b debited st st'
       else b_Blocker b && block = true ∧ ok = false ∧ st' = st) ∨
    (Forall (passed_over fee block st) mb ∧ ok = true ∧
     if fgtb fee f0 then
       ∃ l b s, default_money a l st s ∧ debited = SubstractValue b fee ∧
                replaced l b debited s st' ∧ cc_negativeConnectFee cc' = true
     else cc' = cc ∧ st' = st).
Proof. apply DebitConnectionFee_cases. Qed.

End ledger.
