(* ===== verification/AccountStore.v ===== *)
(** * Loading and saving accounts

    What reading an account from the database and writing it back do: the objects that are
    read are new and equal to the stored ones, and an account that was only read is
    written back as it was. *)
From S2P Require Import Prelude GoFloat GoStrings GoTime CoreUtils Collections Values RateInterval TimeSpans CallDescriptor RatingProfile CallCost Stateful Balances Accounts.

#[local] Abbreviation M := (SM AccountState).

(** Different positions and what is there. *)
Definition at_positions (bals : list Balance) (ls : list nat) (bs : list Balance) : Prop :=
  NoDup ls ∧ Forall2 (λ l b, bals !! l = Some b) ls bs.
Definition map_at (bals : list Balance) (bm : gmap string (list nat))
    (sm : gmap string (list Balance)) : Prop :=
  ∀ k, option_Forall2 (at_positions bals) (bm !! k) (sm !! k).

Lemma at_positions_app bals new ls bs :
  at_positions bals ls bs → at_positions (bals ++ new) ls bs.
Proof.
  intros [Hn H]. split; [done|]. eapply Forall2_impl; [exact H|].
  intros l b. apply lookup_app_l_Some.
Qed.
Lemma map_at_app bals new bm sm : map_at bals bm sm → map_at (bals ++ new) bm sm.
Proof.
  intros H k. destruct (H k) as [ls bs Hl|]; constructor. by apply at_positions_app.
Qed.
Lemma map_at_insert bals bm sm k ls bs :
  map_at bals bm sm → at_positions bals ls bs → map_at bals (<[k := ls]> bm) (<[k := bs]> sm).
Proof.
  intros Hm Hl k'. destruct (decide (k' = k)) as [->|Hk].
  - rewrite !lookup_insert_eq. by constructor.
  - by rewrite !lookup_insert_ne by done.
Qed.
Lemma map_at_empty bals : map_at bals ∅ ∅.
Proof. intros k. rewrite !lookup_empty. constructor. Qed.

(** A state with other balances. *)
Definition with_balances (st : AccountState) (bals : list Balance) : AccountState :=
  set_balances bals st.
Lemma with_balances_twice st b1 b2 : with_balances (with_balances st b1) b2 = with_balances st b2.
Proof. done. Qed.

(** Filling positions one after the other, each with a balance of [f]. *)
Lemma visit_alloc {A} (f : A → M nat) (g : A → Balance) xs ls st :
  (∀ x st, x ∈ xs → ∃ l, f x st = (Ok l, with_balances st (as_balances st ++ [g x])) ∧
                  l = length (as_balances st)) →
  visit (λ ls x, l ← f x; mret (ls ++ [l])) ls xs st
  = (Ok (ls ++ seq (length (as_balances st)) (length xs)),
     with_balances st (as_balances st ++ (g <$> xs))).
Proof.
  revert ls st. induction xs as [|x xs IH]; intros ls st Hf; simpl.
  - rewrite !app_nil_r. by destruct st.
  - destruct (Hf x st) as (l & E & ->); [by left|].
    rewrite (run _ _ _ (ls ++ [length (as_balances st)]) (with_balances st (as_balances st ++ [g x])))
      by by rewrite (run _ _ _ _ _ E).
    rewrite IH by (intros; apply Hf; by right). simpl. rewrite length_app, <- !app_assoc. simpl.
    by rewrite Nat.add_1_r.
Qed.

Lemma at_positions_seq bals new n :
  n = length bals → at_positions (bals ++ new) (seq n (length new)) new.
Proof.
  intros ->. split; [apply NoDup_seq|]. revert bals. induction new as [|b new IH]; intros bals; simpl; [constructor|].
  constructor; [by rewrite lookup_app_r, Nat.sub_diag by done|].
  specialize (IH (bals ++ [b])). rewrite length_app, <- app_assoc in IH. simpl in IH.
  by rewrite Nat.add_1_r in IH.
Qed.

(** The maps of balances, the kinds in any order. *)
Lemma visit_kinds {A} (f : A → M nat) (g : A → Balance) kvs bm sm st :
  (∀ kv x st, kv ∈ kvs → x ∈ kv.2 → ∃ l,
     f x st = (Ok l, with_balances st (as_balances st ++ [g x])) ∧ l = length (as_balances st)) →
  map_at (as_balances st) bm sm →
  ∃ bm' new, visit (λ bm kv, ls ← visit (λ ls x, l ← f x; mret (ls ++ [l])) [] kv.2;
                             mret (<[kv.1 := ls]> bm)) bm kvs st
             = (Ok bm', with_balances st (as_balances st ++ new)) ∧
             map_at (as_balances st ++ new) bm' (foldl (λ m kv, <[kv.1 := g <$> kv.2]> m) sm kvs).
Proof.
  revert bm sm st. induction kvs as [|[k xs] kvs IH]; intros bm sm st Hf Hm; simpl.
  { exists bm, []. rewrite app_nil_r. split; [by destruct st|done]. }
  rewrite (run _ _ _ (<[k := seq (length (as_balances st)) (length xs)]> bm)
             (with_balances st (as_balances st ++ (g <$> xs)))).
  2: { rewrite (run _ _ _ _ _ (visit_alloc f g xs [] st
         ltac:(intros x s Hx; apply (Hf (k, xs)); [by left|done]))). done. }
  destruct (IH (<[k := seq (length (as_balances st)) (length xs)]> bm) (<[k := g <$> xs]> sm)
              (with_balances st (as_balances st ++ (g <$> xs)))) as (bm' & new & E & Hm').
  - intros kv x s Hkv. apply Hf. by right.
  - apply map_at_insert; [by apply map_at_app|]. simpl.
    rewrite <- (length_fmap g xs). by apply at_positions_seq.
  - exists bm', ((g <$> xs) ++ new). rewrite E. simpl in *. rewrite app_assoc. done.
Qed.

Lemma foldl_kinds_lookup {A B} (F : A → B) kvs (m0 : gmap string B) k :
  NoDup kvs.*1 →
  foldl (λ m kv, <[kv.1 := F kv.2]> m) m0 kvs !! k
  = match (list_to_map kvs : gmap string A) !! k with Some v => Some (F v) | None => m0 !! k end.
Proof.
  revert m0. induction kvs as [|[k' v] kvs IH]; intros m0 Hn; [done|].
  inversion Hn as [|? ? Hk Hn']; subst. simpl. rewrite IH by done.
  destruct (decide (k = k')) as [->|Hne].
  - rewrite lookup_insert_eq. rewrite not_elem_of_list_to_map_1 by done.
    by rewrite lookup_insert_eq.
  - by rewrite !lookup_insert_ne by done.
Qed.
Lemma foldl_go_range `{GoRuntime} {A B} (F : A → B) (m : gmap string A) :
  foldl (λ m kv, <[kv.1 := F kv.2]> m) ∅ (go_range m) = F <$> m.
Proof.
  apply map_eq. intros k. rewrite foldl_kinds_lookup by apply go_range_keys_NoDup.
  rewrite lookup_fmap, lookup_empty.
  replace (list_to_map (go_range m)) with m; [by destruct (m !! k)|].
  rewrite <- (list_to_map_to_list m) at 1.
  apply list_to_map_proper; [apply NoDup_fst_map_to_list|by rewrite go_range_perm].
Qed.

Section store.
Context `{GoRuntime} `{RatingData} `{AccountData}.

(** The new objects an account is read into. *)
Definition loaded (key : string) (sa : StoredAccount) (st : AccountState) (a : nat)
    (st' : AccountState) : Prop :=
  ∃ bm new, st' = set_accounts
        (as_accounts st ++ [mkAccount key bm (sa_AllowNegative sa) (sa_Disabled sa)])
        (with_balances st (as_balances st ++ new)) ∧
    a = length (as_accounts st) ∧
    map_at (as_balances st ++ new) bm (sa_BalanceMap sa).

Lemma dm_GetAccount_loaded key sa st :
  as_db st !! key = Some sa → dm_GetAccount_error key = None →
  ∃ a st', dm_GetAccount key st = (Ok (Some a), st') ∧ loaded key sa st a st'.
Proof.
  intros Hdb He. unfold dm_GetAccount. rewrite (run _ _ _ (as_db st) st) by done.
  rewrite He, Hdb.
  destruct (visit_kinds alloc_balance id (go_range (sa_BalanceMap sa)) ∅ ∅ st)
    as (bm & new & E & Hm).
  { intros kv b s _ _. by eexists. }
  { apply map_at_empty. }
  rewrite (run _ _ _ _ _ E). unfold alloc_account. do 2 eexists. split; [reflexivity|].
  exists bm, new. split_and!; [done|done|].
  rewrite (foldl_go_range (fmap (M := list) id)) in Hm.
  replace (fmap (M := list) id <$> sa_BalanceMap sa) with (sa_BalanceMap sa) in Hm; [done|].
  apply map_eq. intros k. rewrite lookup_fmap. destruct (sa_BalanceMap sa !! k); simpl; [|done].
  by rewrite list_fmap_id.
Qed.

Lemma at_positions_stored (st : AccountState) ls bs :
  at_positions (as_balances st) ls bs → map (λ l, stored_balance (balance_at st l)) ls = stored_balance <$> bs.
Proof.
  intros [_ Hl]. induction Hl as [|l b ls bs Hl _ IH]; [done|]. simpl. f_equal; [|exact IH].
  unfold balance_at. by rewrite Hl.
Qed.

(** What the database holds has the form it is stored in. *)
Definition as_stored (sa : StoredAccount) : Prop :=
  map_Forall (λ _, Forall (λ b, stored_balance b = b)) (sa_BalanceMap sa).

Lemma snapshot_at st acc sa :
  map_at (as_balances st) (acc_BalanceMap acc) (sa_BalanceMap sa) → as_stored sa →
  sa_ID sa = acc_ID acc → sa_AllowNegative sa = acc_AllowNegative acc →
  sa_Disabled sa = acc_Disabled acc → snapshot st acc = sa.
Proof.
  intros Hm Hs. destruct sa as [i m n d]; simpl. intros -> -> ->. unfold snapshot. f_equal.
  apply map_eq. intros k. rewrite lookup_fmap. specialize (Hm k). simpl in Hm.
  inversion Hm as [ls bs Hl E1 E2|E1 E2]; [|done]. simpl. f_equal.
  rewrite (at_positions_stored st ls bs) by done. symmetry in E2. apply Hs in E2.
  clear -E2. induction E2 as [|b bs Hb _ IH]; [done|]. simpl. f_equal; [exact Hb|exact IH].
Qed.

Lemma dm_SetAccount_stores a st acc :
  as_accounts st !! a = Some acc → dm_SetAccount_error (acc_ID acc) = None →
  (acc_BalanceMap acc = ∅ → ∀ sa, as_db st !! acc_ID acc = Some sa → sa_BalanceMap sa = ∅) →
  dm_SetAccount a st = (Ok (), set_accounts_db (<[acc_ID acc := snapshot st acc]> (as_db st)) st).
Proof.
  intros Ha He Hemp. unfold dm_SetAccount.
  rewrite (run _ _ _ acc st) by (unfold account; by rewrite Ha).
  unfold modify. rewrite He. do 3 f_equal.
  destruct (as_db st !! acc_ID acc) as [sa|] eqn:Ed; [|done].
  case_bool_decide as Hm; [|done]. destruct (negb _); [|done]. simpl.
  rewrite (Hemp Hm sa eq_refl). unfold snapshot. by rewrite Hm, fmap_empty.
Qed.

(** Reading an account and writing it back leaves the database as it was, with the
    order of the kinds of balances left open. *)
Theorem load_save_account key sa st :
  as_db st !! key = Some sa → dm_GetAccount_error key = None → dm_SetAccount_error key = None →
  sa_ID sa = key → as_stored sa →
  ∃ a st1, dm_GetAccount key st = (Ok (Some a), st1) ∧ as_db st1 = as_db st ∧
           (dm_SetAccount a st1).1 = Ok () ∧ as_db (dm_SetAccount a st1).2 = as_db st.
Proof.
  intros Hdb Hg Hs Hid Hf.
  destruct (dm_GetAccount_loaded key sa st Hdb Hg) as (a & st1 & E & bm & new & -> & -> & Hm).
  do 2 eexists. split; [exact E|]. split; [done|].
  rewrite (dm_SetAccount_stores _ _ (mkAccount key bm (sa_AllowNegative sa) (sa_Disabled sa))).
  - split; [done|]. simpl. rewrite (snapshot_at _ _ sa); [by rewrite insert_id|done..].
  - simpl. by rewrite lookup_app_r, Nat.sub_diag by done.
  - done.
  - simpl. intros -> sa' Hsa'. rewrite Hdb in Hsa'. injection Hsa' as <-.
    apply map_empty. intros k. specialize (Hm k). rewrite lookup_empty in Hm. by inversion Hm.
Qed.
End store.
