(* ===== verification/Refunds.v ===== *)
(** * Refunds

    Increments paid with money are given back to the balance they were taken from, in the
    account as the database has it. *)
From S2P Require Import Prelude GoFloat FloatExact GoStrings GoTime CoreUtils Collections Values RateInterval TimeSpans CallDescriptor RatingProfile CallCost Rating Stateful Balances Accounts Debits Ledger AccountStore.

(** The increment was paid with money of the balance. *)
Definition paid_from (key uuid : string) (inc : Increment) : Prop :=
  ∃ i, inc_BalanceInfo inc = Some i ∧ di_AccountID i = key ∧ di_Unit i = None ∧
       money_uuid i = uuid.

Lemma AddValue_whole b x v z :
  whole (b_Value b) v → whole x z → exact_range ((v + z) * 1000000) →
  whole (b_Value (AddValue b x)) (v + z).
Proof.
  intros [Hv Hr] [-> Hzr] Hz. split; [|done]. unfold exact_range in *.
  simpl. rewrite Hv, fadd_exact, Round_exact; [done|unfold exact_range; lia..].
Qed.

(** The balance apart from its value and the mark that it has changed. *)
Definition revalued (b b' : Balance) : Prop :=
  stored_balance b' = stored_balance (b_set_Value b (b_Value b')).
Lemma revalued_refl b : revalued b b.
Proof. by destruct b. Qed.
Lemma revalued_AddValue b b' x : revalued (AddValue b x) b' → revalued b b'.
Proof. unfold revalued. intros ->. by destruct b, b'. Qed.

Section refunds.
Context `{GoText} `{GoRuntime} `{RatingData} `{AccountData}.

(** The balance of the account that has the identifier. *)
Definition money_at (st : AccountState) (a : nat) (uuid : string) (l : nat) (b : Balance) : Prop :=
  ∃ acc ls, as_accounts st !! a = Some acc ∧ acc_BalanceMap acc !! MONETARY = Some ls ∧
    List.find (λ l, bool_decide (b_Uuid (balance_at st l) = uuid)) ls = Some l ∧
    as_balances st !! l = Some b.

Lemma find_same_uuids (st st' : AccountState) uuid ls :
  (∀ k, b_Uuid (balance_at st' k) = b_Uuid (balance_at st k)) →
  List.find (λ l, bool_decide (b_Uuid (balance_at st' l) = uuid)) ls
  = List.find (λ l, bool_decide (b_Uuid (balance_at st l) = uuid)) ls.
Proof. intros E. induction ls as [|k ls IH]; [done|]. simpl. by rewrite E, IH. Qed.

Lemma refund_part_money st a uuid l b x :
  money_at st a uuid l b →
  ∃ st', refund_part a MONETARY uuid x st = (Ok true, st') ∧
         replaced l b (AddValue b x) st st' ∧ money_at st' a uuid l (AddValue b x).
Proof.
  intros (acc & ls & Ha & Hm & Hf & Hb). unfold refund_part, find_balance.
  rewrite (run _ _ _ (Some l) st).
  2: { rewrite (run _ _ _ acc st) by (unfold account; by rewrite Ha). unfold gets.
       rewrite Hm. simpl. by rewrite Hf. }
  unfold refund_to.
  rewrite (run _ _ _ () (set_balances (<[l := AddValue b x]> (as_balances st))
    (countUnits a (fneg x) MONETARY st).2)).
  2: { rewrite (run _ _ _ b st) by (unfold balance; by rewrite Hb). done. }
  eexists. split; [reflexivity|]. split.
  { split_and!; done. }
  exists acc, ls. split_and!; [done|done| |apply list_lookup_insert_eq; by eapply lookup_lt_Some].
  rewrite <- Hf. apply find_same_uuids. intros k. unfold balance_at. simpl.
  destruct (decide (k = l)) as [->|Hk].
  - rewrite list_lookup_insert_eq by by eapply lookup_lt_Some. by rewrite Hb.
  - by rewrite list_lookup_insert_ne.
Qed.

(** Every increment of the list adds its cost to the balance. *)
Lemma refund_loop_money tor key uuid cache a l incs st b v zs :
  cache !! key = Some a → money_at st a uuid l b → uuid ≠ "" →
  Forall (paid_from key uuid) incs → whole_costs incs zs → whole (b_Value b) v → 0 ≤ v →
  exact_range ((v + sum_Z zs) * 1000000) →
  ∃ st' b', refund_loop tor incs cache st = (Ok (cache, true), st') ∧ replaced l b b' st st' ∧
            revalued b b' ∧ whole (b_Value b') (v + sum_Z zs).
Proof.
  intros Hc Hb Hu Hp Hzs. revert st b v Hb. revert Hp. 
  induction Hzs as [|inc z incs zs [Hz Hz0] Hzs IH]; intros Hp st b v Hb Hv Hv0 Hr.
  - destruct Hb as (acc & ls & Ha & Hm & Hf & Hb). exists st, b. simpl. rewrite Z.add_0_r.
    split_and!; [done| |apply revalued_refl|done]. by apply quiet_replaced_same.
  - inversion Hp as [|? ? (i & Hi & Hk & Hun & Hmu) Hp']; subst. simpl in Hr.
    assert (0 ≤ sum_Z zs) as Hs.
    { clear -Hzs. induction Hzs as [|? ? ? ? [_ ?] _ IH]; simpl; lia. }
    destruct (refund_part_money st a (money_uuid i) l b (inc_Cost inc) Hb) as (s & E & Hrep & Hb1).
    destruct (IH Hp' s _ (v + z) Hb1) as (st' & b' & E' & Hrep' & Hre & Hv').
    { apply AddValue_whole; [done..|]. unfold exact_range in *. lia. }
    { lia. }
    { by replace (v + z + sum_Z zs) with (v + (z + sum_Z zs)) by lia. }
    exists st', b'. split_and!.
    + cbn [refund_loop]. rewrite Hi.
      rewrite (run _ _ _ (Some a, cache) st) by (unfold cached_account; by rewrite Hc). cbv iota. unfold unit_uuid. rewrite Hun.
      rewrite (run _ _ _ true st) by (by rewrite decide_True). change (negb true) with false. cbv iota.
      rewrite (run _ _ _ true s) by (rewrite decide_False by done; exact E). exact E'.
    + destruct Hrep as (? & Es & He), Hrep' as (? & Es' & He').
      split_and!; [done| |by etrans]. rewrite Es', Es. apply list_insert_insert_eq.
    + by eapply revalued_AddValue.
    + simpl. by replace (v + (z + sum_Z zs)) with (v + z + sum_Z zs) by lia.
Qed.

Lemma refund_loop_first tor key inc incs a st st1 :
  (∃ i, inc_BalanceInfo inc = Some i ∧ di_AccountID i = key) →
  dm_GetAccount key st = (Ok (Some a), st1) →
  refund_loop tor (inc :: incs) ∅ st = refund_loop tor (inc :: incs) {[key := a]} st1.
Proof.
  intros (i & Hi & <-) E. cbn [refund_loop]. rewrite Hi.
  rewrite (run _ _ _ (Some a, {[di_AccountID i := a]}) st1).
  2: { unfold cached_account. rewrite lookup_empty. rewrite (run _ _ _ _ _ E). done. }
  rewrite (run _ _ _ (Some a, {[di_AccountID i := a]}) st1); [done|].
  unfold cached_account. by rewrite lookup_singleton_eq.
Qed.

Lemma find_position st ls bs uuid i b :
  at_positions (as_balances st) ls bs → list_find (λ b, b_Uuid b = uuid) bs = Some (i, b) →
  ∃ l, ls !! i = Some l ∧ as_balances st !! l = Some b ∧
       List.find (λ l, bool_decide (b_Uuid (balance_at st l) = uuid)) ls = Some l.
Proof.
  intros [_ Hl]. revert i. induction Hl as [|l b1 ls bs Hlb _ IH]; intros i Hf; [done|].
  simpl in *. assert (balance_at st l = b1) as -> by (unfold balance_at; by rewrite Hlb).
  destruct (decide (b_Uuid b1 = uuid)) as [Hu|Hu].
  - injection Hf as <- <-. exists l. by rewrite bool_decide_eq_true_2.
  - rewrite bool_decide_eq_false_2 by done.
    destruct (list_find _ bs) as [[j b2]|]; [|done]. injection Hf as <- <-. by apply IH.
Qed.

(** What is saved of the balances when one of them has changed. *)
Lemma stored_after st st' ls bs i l b' :
  at_positions (as_balances st) ls bs → ls !! i = Some l →
  as_balances st' = <[l := b']> (as_balances st) →
  map (λ l, stored_balance (balance_at st' l)) ls = stored_balance <$> <[i := b']> bs.
Proof.
  intros [Hn Hl] Hi Es. apply at_positions_stored. split; [done|].
  apply Forall2_same_length_lookup. split.
  { rewrite length_insert. by eapply Forall2_length. }
  intros j k b Hj Hb. rewrite Es. destruct (decide (j = i)) as [->|Hji].
  - rewrite Hi in Hj. injection Hj as <-.
    rewrite list_lookup_insert_eq in Hb by (apply lookup_lt_Some in Hi; by rewrite <- (Forall2_length _ _ _ Hl)).
    injection Hb as <-. apply list_lookup_insert_eq.
    destruct (Forall2_lookup_l _ _ _ _ _ Hl Hi) as (b & _ & Hlb). by eapply lookup_lt_Some.
  - rewrite list_lookup_insert_ne in Hb by done. rewrite list_lookup_insert_ne.
    + destruct (Forall2_lookup_lr _ _ _ _ _ _ Hl Hj Hb). done.
    + intros ->. apply Hji. eapply NoDup_lookup; done.
Qed.

(** The increments that are refunded all name the account: it is read once. *)
Lemma refund_reads_once cd st key sa uuid incs zs bs i b v :
  cd_Increments cd = Some incs → incs ≠ [] → Forall (paid_from key uuid) incs → uuid ≠ "" →
  as_db st !! key = Some sa → sa_BalanceMap sa !! MONETARY = Some bs →
  list_find (λ b, b_Uuid b = uuid) bs = Some (i, b) → dm_GetAccount_error key = None →
  whole (b_Value b) v → 0 ≤ v → whole_costs incs zs → exact_range ((v + sum_Z zs) * 1000000) →
  ∃ st1 st2 acc ls b', loaded key sa st (length (as_accounts st)) st1 ∧
    refund_loop (cd_ToR cd) (elems (cd_Increments cd)) ∅ st
      = (Ok ({[key := length (as_accounts st)]}, true), st2) ∧
    as_accounts st1 = as_accounts st ++ [acc] ∧ acc_ID acc = key ∧
    acc_BalanceMap acc !! MONETARY = Some ls ∧ elsewhere st1 st2 ∧
    map (λ l, stored_balance (balance_at st2 l)) ls = stored_balance <$> <[i := b']> bs ∧
    revalued b b' ∧ whole (b_Value b') (v + sum_Z zs).
Proof.
  intros Hi Hne Hp Hu Hdb Hbs Hf Hg Hv Hv0 Hzs Hr.
  destruct (dm_GetAccount_loaded key sa st Hdb Hg) as (a & st1 & E & bm & new & Est & -> & Hm).
  pose proof (Hm MONETARY) as Hls. rewrite Hbs in Hls.
  inversion Hls as [ls ? Hpos E1 E2|]; simplify_eq.
  set (st1 := set_accounts _ _) in *.
  destruct (find_position st1 ls bs uuid i b Hpos Hf) as (l & Hli & Hlb & Hfind).
  set (acc := mkAccount key bm (sa_AllowNegative sa) (sa_Disabled sa)) in *.
  destruct (refund_loop_money (cd_ToR cd) key uuid {[key := length (as_accounts st)]}
    (length (as_accounts st)) l incs st1 b v zs) as (st2 & b' & El & (_ & Eb & He) & Hre & Hv');
    [by rewrite lookup_singleton_eq| |done..|].
  { exists acc, ls. split_and!; [|done..]. simpl. by rewrite lookup_app_r, Nat.sub_diag by done. }
  exists st1, st2, acc, ls, b'. split_and!; [by do 2 eexists| |done..| |done|done].
  - rewrite Hi. simpl elems. destruct incs as [|inc incs]; [done|].
    rewrite (refund_loop_first _ key inc incs (length (as_accounts st)) st st1); [done| |done].
    inversion Hp as [|? ? (j & Hj & Hk & _) _]. by exists j.
  - by apply (stored_after st1 st2 ls bs i l).
Qed.

End refunds.
