(* ===== verification/DebitExamples.v ===== *)
(** * Debits of a small account

    The definitions of [Debits.v] evaluated end to end against the prices of
    [PricingExamples.v], and the inputs at which the theorems about them are applied. *)
From S2P Require Import Prelude GoFloat FloatExact GoStrings GoTime CoreUtils Collections Values RateInterval RatingPlan TimeSpans CallDescriptor RatingProfile CallCost Rating PricingExamples Stateful Balances Accounts Debits Ledger AccountStore Refunds.

(** Only the texts the examples need have a meaning. *)
Definition plain_text : GoText := {|
  ParseFloat s := Err "no float";
  ParseDuration s := if decide (s = "1s") then Ok Second else Err "no duration";
  ParseTimeDetectLayout s tz := Err "no time"; FormatFloat f := ""; Duration_String d := Itoa d;
  Format_RFC3339 t := ""; ToJSON v := ""; sprint v := ""; type_name v := "";
  opaque_field n := None; opaque_elem n i := Err NOT_FOUND; opaque_paths n s := [];
  opaque_type n := n; opaque_comparable n := false; opaque_struct n := false |}.

(** A group shared by two accounts, with the strategy that does not look for the
    account's own balance. *)
Definition family : SharedGroup :=
  mkSharedGroup "family" {["*any" := Some (mkSharingParameters "*lowest" "")]}
    (Some {["t:1001" := true; "t:1002" := true]}).

Definition plain_accounts : AccountData := {|
  GenUUID n := Itoa (Z.of_nat n);
  rand_Perm k n := seq 0 n;
  rand_Perm_perm k n := Permutation_refl _;
  dm_GetSharedGroup s := if decide (s = "family") then Ok (Some family) else Err ErrNotFound;
  dm_GetAccount_error s := None;
  dm_SetAccount_error s := None;
  acc_now := zero_time;
  BalanceRatingSubject := {["*any" := "*zero1ns"; "*voice" := "*zero1s"]} |}.

Section examples.
#[local] Existing Instances plain_text plain_accounts reference_runtime.
#[local] Instance prices : RatingData := minute_prices (f_of_Z 100).

Definition money (uuid : string) (value : Z) : Balance := new_balance uuid "money" (f_of_Z value).
Definition account_of (name : string) (balances : gmap string (list Balance)) : StoredAccount :=
  mkStoredAccount name balances false false.
(** A call of two minutes, one unit a minute, of "1001". *)
Definition before (db : gmap string StoredAccount) : AccountState :=
  mkAccountState (noon_request "1001") [] [] db 0 0 [].

(** The values of the balances of an account in the database. *)
Definition values (st : AccountState) (name kind : string) : list (string * float64) :=
  match as_db st !! name with
  | Some sa => map (λ b, (b_Uuid b, b_Value b)) (default [] (sa_BalanceMap sa !! kind))
  | None => []
  end.
Definition charged (r : res (CallCost * AccountSummary)) : option float64 :=
  match r with Ok (cc, _) => Some (cc_Cost cc) | _ => None end.

Definition one_account (value : Z) : AccountState :=
  before {["t:1001" := account_of "t:1001" {[MONETARY := [money "m" value]]}]}.

Lemma Debit_two_minutes :
  let '(r, st) := Debit 1000 9 (one_account 5) in
  charged r = Some (f_of_Z 2) ∧ values st "t:1001" MONETARY = [("m", f_of_Z 3)].
Proof. vm_compute. split; reflexivity. Qed.

(** The increments of a debit, as the refund gets them. *)
Definition refund_request (r : res (CallCost * AccountSummary)) : CallDescriptor :=
  match r with
  | Ok (cc, _) =>
      let cd := noon_request "1001" in
      mkCallDescriptor (cd_Category cd) (cd_Tenant cd) (cd_Subject cd) (cd_Account cd)
        (cd_Destination cd) (cd_TimeStart cd) (cd_TimeEnd cd) (cd_LoopIndex cd)
        (cd_DurationIndex cd) "" [] (Some (spans_incs (cc_Timespans cc))) VOICE ∅ f0 0 f0 "" ""
        false false false false
  | _ => noon_request ""
  end.
(** A debit and the refund of all of its increments. *)
Definition debit_and_refund (st : AccountState) : AccountState :=
  let '(r, st) := Debit 1000 9 st in (RefundIncrements (refund_request r) st).2.

Lemma refund_after_debit : values (debit_and_refund (one_account 5)) "t:1001" MONETARY = [("m", f_of_Z 5)].
Proof. vm_compute. reflexivity. Qed.

(** *** Two balances *)

Definition units_of (b : Balance) (subject : string) (groups : list string) : Balance :=
  mkBalance (b_Uuid b) (b_ID b) (b_Value b) (b_ExpirationDate b) (b_Weight b) (b_DestinationIDs b)
    subject (b_Categories b) (Some (list_to_map (map (λ g, (g, true)) groups))) (b_Timings b)
    (b_TimingIDs b) (b_Disabled b) (b_Factor b) (b_Blocker b) (b_precision b) (b_account b)
    (b_dirty b).
Definition two_balances (kind : string) (units money : Balance) : gmap string (list Balance) :=
  <[kind := [units]]> {[MONETARY := [money]]}.

(** One of the two minutes is paid with units of this kind. *)
Definition half (kind : string) : AccountState :=
  before {["t:1001" := account_of "t:1001"
    (two_balances kind (units_of (money "u" (60 * Second)) "*zero1s" []) (money "m" 5))]}.

(** Refunding a call that a generic balance paid in part gives nothing back, not even the
    money: the balance is looked for among those of the type of the call, and the first
    increment that is not found ends the refund. *)
Theorem refund_of_generic_units_stops :
  values (debit_and_refund (half VOICE)) "t:1001" VOICE = [("u", f_of_Z (60 * Second))] ∧
  values (debit_and_refund (half VOICE)) "t:1001" MONETARY = [("m", f_of_Z 5)] ∧
  values (debit_and_refund (half GENERIC)) "t:1001" GENERIC = [("u", f0)] ∧
  values (debit_and_refund (half GENERIC)) "t:1001" MONETARY = [("m", f_of_Z 4)].
Proof. vm_compute. split_and!; reflexivity. Qed.

(** Units with a price of their own and no money; the account may not become negative. *)
Definition denied : AccountState :=
  let st := before {["t:1001" := account_of "t:1001"
    (two_balances VOICE (units_of (money "u" (120 * Second)) "1001" []) (money "m" 0))]} in
  let cd := noon_request "1001" in
  (set_cd (mkCallDescriptor (cd_Category cd) (cd_Tenant cd) (cd_Subject cd) (cd_Account cd)
     (cd_Destination cd) (cd_TimeStart cd) (cd_TimeEnd cd) (cd_LoopIndex cd) (cd_DurationIndex cd)
     "" [] None "" ∅ f0 0 f0 "" "" false false false true) st).2.

(** A request that denies a negative account makes it negative: units with a price of
    their own take the money from the default balance, whatever it has, when no other has
    enough; the flag of the request is not looked at. *)
Theorem priced_units_overdraw_denied_account :
  cd_DenyNegativeAccount (as_cd denied) = true ∧
  let '(r, st) := Debit 1000 9 denied in
  charged r = Some (f_of_Z 2) ∧
  values st "t:1001" MONETARY = [("m", f0); ("0", f_of_Z (-2))].
Proof. vm_compute. split_and!; reflexivity. Qed.

(** The caller has empty balances in the group; the other member has a minute and money. *)
Definition shared : AccountState :=
  let in_family b := units_of b "" ["family"] in
  before (<["t:1001" := account_of "t:1001"
             (two_balances VOICE (in_family (money "v" 0)) (in_family (money "m" 0)))]>
          {["t:1002" := account_of "t:1002"
             (two_balances VOICE (units_of (money "u" (60 * Second)) "*zero1s" ["family"])
                (in_family (money "n" 5)))]}).

(** A call that a shared minute and shared money of the same other member pay is charged
    its price, and the money is not taken: the member is read from the database once for
    the units and once for the money, and of the two copies the one with the units, saved
    last, overwrites the other. *)
Theorem shared_money_debit_is_lost :
  let '(r, st) := Debit 1000 9 shared in
  charged r = Some f1 ∧
  values st "t:1002" VOICE = [("u", f0)] ∧
  values st "t:1002" MONETARY = [("n", f_of_Z 5)].
Proof. vm_compute. split_and!; reflexivity. Qed.

(** *** Rounding *)

(** Four tenths a minute, rounded to whole units. *)
Definition rounded_prices : RatingData :=
  let rate := mkRIRate f0 ROUNDING_MIDDLE 0 f0 "" (Some [mkRate 0 (f_of_ratio 4 10) Minute Minute]) "r" in
  {| dm_GetRatingProfile key :=
       match profiles !! key with Some rpf => Ok (Some rpf) | None => Err ErrNotFound end;
     dm_GetRatingPlan id :=
       Ok (Some (AddRateInterval rit_tag rir_tag (mkRatingPlan "RP" ∅ ∅ None) META_ANY
                   [mkRateInterval (Some (from "00:00:00")) (Some rate) f0]));
     dm_GetReverseDestination _ := Err ErrNotFound;
     rpSubjectPrefixMatching := false |}.

Definition asks_rounding (st : AccountState) : AccountState :=
  let cd := as_cd st in
  (set_cd (mkCallDescriptor (cd_Category cd) (cd_Tenant cd) (cd_Subject cd) (cd_Account cd)
     (cd_Destination cd) (cd_TimeStart cd) (cd_TimeEnd cd) (cd_LoopIndex cd) (cd_DurationIndex cd)
     "" [] None "" ∅ f0 0 f0 "" "" false true false false) st).2.

(** Asking how long a session may last takes money from the account: the dry run works on
    a copy, and the correction of its rounding is made in the database. *)
Theorem session_query_moves_money :
  let '(r, st) := @GetMaxSessionDuration _ _ rounded_prices _ 1000 9 (asks_rounding (one_account 5)) in
  r = Ok (2 * Minute) ∧
  values (one_account 5) "t:1001" MONETARY = [("m", f_of_Z 5)] ∧
  values st "t:1001" MONETARY = [("m", f_of_ratio 48 10)].
Proof. vm_compute. split_and!; reflexivity. Qed.

(** ** Where the theorems apply *)

(** The account in memory, with a balance of five units. *)
Definition in_memory (cd : CallDescriptor) : AccountState :=
  mkAccountState cd [b_set_account (money "m" 5) (Some 0%nat)]
    [mkAccount "t:1001" {[MONETARY := [0%nat]]} false false] ∅ 0 0 [].
Definition loops := general_loop 1000 9 9 [] [0%nat] true false
  (CreateCallCost (noon_request "1001")) false (in_memory (noon_request "1001")).


Definition one_debit := debitMoney 1000 9 0 0 [0%nat] true false false (in_memory (noon_request "1001")).
Definition part_incs (r : option CallCost) : Increments := default [] ((spans_incs ∘ cc_Timespans) <$> r).

Lemma whole_small (z : Z) : - 9000000000 <= z <= 9000000000 → whole (f_of_Z z) z.
Proof. intros Hz. split; [reflexivity|]. unfold exact_range. lia. Qed.

Lemma whole_costs_of (incs : Increments) (zs : list Z) :
  inc_Cost <$> incs = f_of_Z <$> zs → Forall (λ z, 0 <= z <= 9000000000) zs → whole_costs incs zs.
Proof.
  revert zs. induction incs as [|inc incs IH]; intros [|z zs] E Hz; [constructor|discriminate..|].
  injection E as E1 E2. inversion Hz; subst. constructor; [|by apply IH].
  rewrite E1. split; [apply whole_small; lia|lia].
Qed.


Definition fee_cost : CallCost :=
  cc_set_Timespans (CreateCallCost (noon_request "1001"))
    [ts_set_interval (new_span (Date 2020 3 2 11 59 0 0 UTC) (Date 2020 3 2 12 1 0 0 UTC))
       (Some (mkRateInterval None (Some (mkRIRate f1 "*middle" 4 f0 "" None "fee")) f0))].

Lemma DebitConnectionFee_spec_witness :
  ∃ debited st', DebitConnectionFee 0 fee_cost [0%nat] true true (in_memory (noon_request "1001"))
                 = (Ok (true, debited, fee_cost), st') ∧
                 replaced 0 (b_set_account (money "m" 5) (Some 0%nat)) debited
                   (in_memory (noon_request "1001")) st' ∧ b_Value debited = f_of_Z 4.
Proof.
  assert (match DebitConnectionFee 0 fee_cost [0%nat] true true (in_memory (noon_request "1001")) with
          | (Ok (ok, b, cc), _) => ok = true ∧ b_Value b = f_of_Z 4 ∧ cc = fee_cost | _ => False end) as Hl
    by (vm_compute; split_and!; reflexivity).
  destruct (DebitConnectionFee _ _ _ _ _ _) as [[[[ok b] cc]|e|] st'] eqn:E; [|destruct Hl..].
  destruct Hl as (-> & Hb & ->). exists b, st'. split; [reflexivity|].
  destruct (DebitConnectionFee_spec 0 fee_cost [0%nat] true true _ _ _ _ _ E)
    as [(pre & l & post & b0 & Em & _ & Hb0 & _ & Hc)|(Hall & _)].
  - destruct pre as [|? []]; [|discriminate..]. injection Em as <- _. injection Hb0 as <-.
    destruct Hc as (_ & -> & Hr). split; [exact Hr|exact Hb].
  - exfalso. inversion Hall as [|? ? [Hp _]]. discriminate Hp.
Defined.

Lemma load_save_account_witness :
  ∃ a st1, dm_GetAccount "t:1001" (one_account 5) = (Ok (Some a), st1) ∧
           as_db (dm_SetAccount a st1).2 = as_db (one_account 5).
Proof.
  destruct (load_save_account "t:1001" (account_of "t:1001" {[MONETARY := [money "m" 5]]})
              (one_account 5)) as (a & st1 & E & _ & _ & Hdb);
    [reflexivity|reflexivity|reflexivity|reflexivity| |].
  - apply map_Forall_singleton. repeat constructor.
  - exists a, st1. split; [exact E|exact Hdb].
Defined.

Definition paid_minute : Increment :=
  mkIncrement Minute f1 (Some (mkDebitInfo None (Some (mkMonetaryInfo "m" "money" f0 None)) "t:1001"))
    0 true.
Definition two_minutes_back : CallDescriptor :=
  let cd := noon_request "1001" in
  mkCallDescriptor (cd_Category cd) (cd_Tenant cd) (cd_Subject cd) (cd_Account cd)
    (cd_Destination cd) (cd_TimeStart cd) (cd_TimeEnd cd) (cd_LoopIndex cd) (cd_DurationIndex cd)
    "" [] (Some [paid_minute; paid_minute]) VOICE ∅ f0 0 f0 "" "" false false false false.

End examples.
