(* ===== verification/TariffPlan.v ===== *)
(** * Tariff plans: rating tables

    The rows a tariff plan is stored in ([engine/models.go]), the objects the API shows
    for them ([utils/apitpdata.go]) and the conversions between the two
    ([engine/model_helpers.go]) for destinations, timings, rates, destination rates, rating
    plans and rating profiles.  Several rows make one object: they are gathered by their
    tag in a Go map, whose pointers are updated row by row, and the map is listed in the
    order the runtime picks.  [TariffTable] is what every table promises: the rows of an
    object carry its tag and gather into the object again.  The elements of a slice of
    pointers are values, except where the code tests them for nil; [Id] and [CreatedAt],
    which only the database sets, are left out of the rows. *)
From S2P Require Import Prelude GoFloat GoStrings GoTime DateSeries CoreUtils Values Collections RateInterval.

(** ** The destination of the engine *)

Record Destination := mkDestination { dst_Id : string; dst_Prefixes : list string }.

Definition AddPrefix (d : Destination) (pfx : string) : Destination :=
  mkDestination (dst_Id d) (dst_Prefixes d ++ [pfx]).

(** ** Rows *)

Record TpTiming := {
  tmr_Tpid : string; tmr_Tag : string; tmr_Years : string; tmr_Months : string;
  tmr_MonthDays : string; tmr_WeekDays : string; tmr_Time : string }.

Record TpDestination := { dsr_Tpid : string; dsr_Tag : string; dsr_Prefix : string }.

Record TpRate := {
  rtr_Tpid : string; rtr_Tag : string; rtr_ConnectFee : float64; rtr_Rate : float64;
  rtr_RateUnit : string; rtr_RateIncrement : string; rtr_GroupIntervalStart : string }.

Record TpDestinationRate := {
  drr_Tpid : string; drr_Tag : string; drr_DestinationsTag : string; drr_RatesTag : string;
  drr_RoundingMethod : string; drr_RoundingDecimals : Z; drr_MaxCost : float64;
  drr_MaxCostStrategy : string }.

Record TpRatingPlan := {
  rpr_Tpid : string; rpr_Tag : string; rpr_DestratesTag : string; rpr_TimingTag : string;
  rpr_Weight : float64 }.

Record TpRatingProfile := {
  rfr_Tpid : string; rfr_Loadid : string; rfr_Tenant : string; rfr_Category : string;
  rfr_Subject : string; rfr_ActivationTime : string; rfr_RatingPlanTag : string;
  rfr_FallbackSubjects : string }.

(** ** Objects *)

Record TPDestination := { ds_TPid : string; ds_ID : string; ds_Prefixes : list string }.

Record RateSlot := {
  rs_ConnectFee : float64; rs_Rate : float64; rs_RateUnit : string; rs_RateIncrement : string;
  rs_GroupIntervalStart : string; rs_rateUnitDur : Z; rs_rateIncrementDur : Z;
  rs_groupIntervalStartDur : Z; rs_tag : string }.

Record TPRate := { tr_TPid : string; tr_ID : string; tr_RateSlots : list RateSlot }.

Record DestinationRate := {
  dr_DestinationId : string; dr_RateId : string; dr_Rate : option TPRate;
  dr_RoundingMethod : string; dr_RoundingDecimals : Z; dr_MaxCost : float64;
  dr_MaxCostStrategy : string }.

Record TPDestinationRate := {
  tdr_TPid : string; tdr_ID : string; tdr_DestinationRates : list DestinationRate }.

Record ApierTPTiming := {
  atm_TPid : string; atm_ID : string; atm_Years : string; atm_Months : string;
  atm_MonthDays : string; atm_WeekDays : string; atm_Time : string }.

Record TPTiming := {
  tm_ID : string; tm_Years : option Years; tm_Months : option Months;
  tm_MonthDays : option MonthDays; tm_WeekDays : option WeekDays;
  tm_StartTime : string; tm_EndTime : string }.

Record TPRatingPlanBinding := {
  rpb_DestinationRatesId : string; rpb_TimingId : string; rpb_Weight : float64;
  rpb_timing : option TPTiming }.

Record TPRatingPlan := {
  trp_TPid : string; trp_ID : string; trp_RatingPlanBindings : list TPRatingPlanBinding }.

Record TPRatingActivation := {
  tra_ActivationTime : string; tra_RatingPlanId : string; tra_FallbackSubjects : string }.

Record TPRatingProfile := {
  trf_TPid : string; trf_LoadId : string; trf_Tenant : string; trf_Category : string;
  trf_Subject : string; trf_RatingPlanActivations : list TPRatingActivation }.

(** ** Identifiers and small operations *)

Definition META_OUT : string := "*out".
Definition FALLBACK_SEP : string := ";".

Definition TPRatingProfile_KeyId (rpf : TPRatingProfile) : string :=
  ConcatenatedKey [META_OUT; trf_Tenant rpf; trf_Category rpf; trf_Subject rpf].

Definition TPRatingProfile_GetId (rpf : TPRatingProfile) : string :=
  ConcatenatedKey [trf_LoadId rpf; META_OUT; trf_Tenant rpf; trf_Category rpf; trf_Subject rpf].

Definition SetRatingProfileID (rpf : TPRatingProfile) (id : string) : res TPRatingProfile :=
  match Split id CONCATENATED_KEY_SEP with
  | [loadId; tenant; category; subject] =>
      Ok {| trf_TPid := trf_TPid rpf; trf_LoadId := loadId; trf_Tenant := tenant;
            trf_Category := category; trf_Subject := subject;
            trf_RatingPlanActivations := trf_RatingPlanActivations rpf |}
  | _ => Err ("Wrong TPRatingProfileId: " +:+ id)
  end.

Definition AttrGetRatingProfile_GetID (tenant category subject : string) : string :=
  ConcatenatedKey [META_OUT; tenant; category; subject].

(** The keys of the fallback subjects, inserted in order into a sorted slice. *)
Fixpoint fallback_keys_loop (tenant tor : string) (sslice fbss : list string) : list string :=
  match fbss with
  | [] => sslice
  | fbs :: fbss' =>
      let newKey := ConcatenatedKey [META_OUT; tenant; tor; fbs] in
      let i := SearchStrings sslice newKey in
      fallback_keys_loop tenant tor
        (if (i <? length sslice)%nat && negb (bool_decide (sslice !! i = Some newKey))
         then take i sslice ++ newKey :: drop i sslice
         else if (i =? length sslice)%nat then sslice ++ [newKey] else sslice) fbss'
  end.

Definition FallbackSubjKeys (tenant tor fallbackSubjects : string) : list string :=
  if decide (slen fallbackSubjects ≠ 0)
  then fallback_keys_loop tenant tor [] (Split fallbackSubjects FALLBACK_SEP) else [].

(** Limits and offsets are pointers; a value that is not positive counts as absent. *)
Definition PaginateStringSlice (limit offset : option Z) (l : list string) : res (list string) :=
  if decide (length l = 0)%nat then Ok []
  else
    let n := Z.of_nat (length l) in
    let positive (p : option Z) := match p with Some z => if 0 <? z then z else 0 | None => 0 end in
    let limit := positive limit in
    let offset := positive offset in
    if decide (limit = 0 ∧ offset = 0) then Ok l
    else if n <? offset then Ok []
    else
      let limit := if decide (offset ≠ 0 ∧ limit ≠ 0) then add64 limit offset else limit in
      let limit := if decide (limit = 0 ∨ n < limit) then n else limit in
      if decide (offset ≤ limit)
      then Ok (take (Z.to_nat (limit - offset)) (drop (Z.to_nat offset) l)) else Panic.

(** What parsing into a nil series leaves: it stays nil when nothing reads as a number. *)
Definition parsed (input : string) (series : list Z) : option (list Z) :=
  if decide (input = META_ANY ∨ input = "") then Some []
  else match series with [] => None | _ => Some series end.

Definition NewTiming (ID years mounths mounthdays weekdays time : string) : TPTiming :=
  let times := Split time INFIELD_SEP in
  {| tm_ID := ID;
     tm_Years := parsed years (Years_Parse [] years INFIELD_SEP);
     tm_Months := parsed mounths (Months_Parse [] mounths INFIELD_SEP);
     tm_MonthDays := parsed mounthdays (MonthDays_Parse [] mounthdays INFIELD_SEP);
     tm_WeekDays := parsed weekdays (WeekDays_Parse [] weekdays INFIELD_SEP);
     tm_StartTime := default "" (times !! 0%nat);
     tm_EndTime := default "" (times !! 1%nat) |}.

Definition SetTiming (rpb : TPRatingPlanBinding) (tm : option TPTiming) : TPRatingPlanBinding :=
  {| rpb_DestinationRatesId := rpb_DestinationRatesId rpb; rpb_TimingId := rpb_TimingId rpb;
     rpb_Weight := rpb_Weight rpb; rpb_timing := tm |}.

(** ** Gathering rows *)

(** [result[key]] is a pointer: the first row of a key makes the element, the others are
    added to it. *)
Definition tp_step {R X} (key : R → string) (make : R → X) (more : X → R → X)
    (result : gmap string X) (tp : R) : gmap string X :=
  match result !! key tp with
  | None => <[key tp := make tp]> result
  | Some existing => <[key tp := more existing tp]> result
  end.

Definition tp_group {R X} (key : R → string) (make : R → X) (more : X → R → X) (tps : list R)
    : gmap string X :=
  foldl (tp_step key make more) ∅ tps.

(** The loops that refuse a second element with an identifier. *)
Definition tp_unique {X} (id : X → string) (msg : string) (s : list X) : res (gmap string X) :=
  foldl (λ acc e, result ← acc;
    match result !! id e with
    | None => Ok (<[id e := e]> result)
    | Some _ => Err (msg +:+ id e)
    end) (Ok ∅) s.

(** The loops that list what hangs on each identifier. *)
Definition tp_lists {X B} (id : X → string) (items : X → list B) (s : list X)
    : gmap string (list B) :=
  foldl (λ result e,
    foldl (λ result b,
      match result !! id e with
      | None => <[id e := [b]]> result
      | Some l => <[id e := l ++ [b]]> result
      end) result (items e)) ∅ s.

Section runtime.
Context `{GoText} `{GoRuntime}.

(** [for _, d := range m] *)
Definition range_values {X} (m : gmap string X) : list X := (go_range m).*2.

(** ** Destinations *)

Definition AsMapDestinations (tps : list TpDestination) : res (gmap string Destination) :=
  Ok (tp_group dsr_Tag
        (λ tp, AddPrefix (mkDestination (dsr_Tag tp) []) (dsr_Prefix tp))
        (λ d tp, AddPrefix d (dsr_Prefix tp)) tps).

Definition AsTPDestinations (tps : list TpDestination) : list TPDestination :=
  range_values (tp_group dsr_Tag
    (λ tp, {| ds_TPid := dsr_Tpid tp; ds_ID := dsr_Tag tp; ds_Prefixes := [dsr_Prefix tp] |})
    (λ d tp, {| ds_TPid := ds_TPid d; ds_ID := ds_ID d;
                ds_Prefixes := ds_Prefixes d ++ [dsr_Prefix tp] |}) tps).

Definition APItoModelDestination (d : option TPDestination) : list TpDestination :=
  match d with
  | None => []
  | Some d =>
      ((λ p, {| dsr_Tpid := ds_TPid d; dsr_Tag := ds_ID d; dsr_Prefix := p |}) <$> ds_Prefixes d)
      ++ (if decide (length (ds_Prefixes d) = 0)%nat
          then [{| dsr_Tpid := ds_TPid d; dsr_Tag := ds_ID d; dsr_Prefix := "" |}] else [])
  end.

Definition NewDestinationFromTPDestination (tpDst : TPDestination) : Destination :=
  mkDestination (ds_ID tpDst) (ds_Prefixes tpDst).

(** ** Timings: a row is a whole timing, the last one of a tag stays *)

Definition AsMapTPTimings (tps : list TpTiming) : res (gmap string ApierTPTiming) :=
  Ok (foldl (λ result tp,
    <[tmr_Tag tp :=
        {| atm_TPid := tmr_Tpid tp; atm_ID := tmr_Tag tp; atm_Years := tmr_Years tp;
           atm_Months := tmr_Months tp; atm_MonthDays := tmr_MonthDays tp;
           atm_WeekDays := tmr_WeekDays tp; atm_Time := tmr_Time tp |}]> result) ∅ tps).

Definition MapTPTimings (tps : list ApierTPTiming) : res (gmap string TPTiming) :=
  foldl (λ acc tp, result ← acc;
    let t := NewTiming (atm_ID tp) (atm_Years tp) (atm_Months tp) (atm_MonthDays tp)
               (atm_WeekDays tp) (atm_Time tp) in
    match result !! atm_ID tp with
    | Some _ => Err ("duplicate timing tag: " +:+ atm_ID tp)
    | None => Ok (<[atm_ID tp := t]> result)
    end) (Ok ∅) tps.

Definition AsTPTimings (tps : list TpTiming) : list ApierTPTiming :=
  match AsMapTPTimings tps with Ok ats => range_values ats | _ => [] end.

Definition APItoModelTiming (t : ApierTPTiming) : TpTiming :=
  {| tmr_Tpid := atm_TPid t; tmr_Tag := atm_ID t; tmr_Years := atm_Years t;
     tmr_Months := atm_Months t; tmr_MonthDays := atm_MonthDays t;
     tmr_WeekDays := atm_WeekDays t; tmr_Time := atm_Time t |}.

Definition APItoModelTimings (ts : list (option ApierTPTiming)) : list TpTiming :=
  ts ≫= λ t, match t with Some t => [APItoModelTiming t] | None => [] end.

(** ** Rates *)

Definition SetDurations (rs : RateSlot) : res RateSlot :=
  unit ← ParseDurationWithNanosecs (rs_RateUnit rs);
  increment ← ParseDurationWithNanosecs (rs_RateIncrement rs);
  start ← ParseDurationWithNanosecs (rs_GroupIntervalStart rs);
  Ok {| rs_ConnectFee := rs_ConnectFee rs; rs_Rate := rs_Rate rs; rs_RateUnit := rs_RateUnit rs;
        rs_RateIncrement := rs_RateIncrement rs;
        rs_GroupIntervalStart := rs_GroupIntervalStart rs; rs_rateUnitDur := unit;
        rs_rateIncrementDur := increment; rs_groupIntervalStartDur := start;
        rs_tag := rs_tag rs |}.

Definition NewRateSlot (connectFee rate : float64) (rateUnit rateIncrement grpInterval : string)
    : res RateSlot :=
  SetDurations {| rs_ConnectFee := connectFee; rs_Rate := rate; rs_RateUnit := rateUnit;
    rs_RateIncrement := rateIncrement; rs_GroupIntervalStart := grpInterval;
    rs_rateUnitDur := 0; rs_rateIncrementDur := 0; rs_groupIntervalStartDur := 0;
    rs_tag := "" |}.

(** The slot of a row before its durations are read. *)
Definition row_slot (tp : TpRate) : RateSlot :=
  {| rs_ConnectFee := rtr_ConnectFee tp; rs_Rate := rtr_Rate tp; rs_RateUnit := rtr_RateUnit tp;
     rs_RateIncrement := rtr_RateIncrement tp;
     rs_GroupIntervalStart := rtr_GroupIntervalStart tp; rs_rateUnitDur := 0;
     rs_rateIncrementDur := 0; rs_groupIntervalStartDur := 0; rs_tag := "" |}.

Definition AsMapRates (tps : list TpRate) : res (gmap string TPRate) :=
  foldl (λ acc tp, result ← acc;
    rs ← SetDurations (row_slot tp);
    match result !! rtr_Tag tp with
    | None =>
        Ok (<[rtr_Tag tp := {| tr_TPid := rtr_Tpid tp; tr_ID := rtr_Tag tp;
                               tr_RateSlots := [rs] |}]> result)
    | Some existing =>
        Ok (<[rtr_Tag tp := {| tr_TPid := tr_TPid existing; tr_ID := tr_ID existing;
                               tr_RateSlots := tr_RateSlots existing ++ [rs] |}]> result)
    end) (Ok ∅) tps.

Definition AsTPRates (tps : list TpRate) : res (list TPRate) :=
  atps ← AsMapRates tps; Ok (range_values atps).

Definition MapTPRates (s : list TPRate) : res (gmap string TPRate) :=
  tp_unique tr_ID "Non unique ID " s.

Definition APItoModelRate (r : option TPRate) : list TpRate :=
  match r with
  | None => []
  | Some r =>
      ((λ rs, {| rtr_Tpid := tr_TPid r; rtr_Tag := tr_ID r; rtr_ConnectFee := rs_ConnectFee rs;
                 rtr_Rate := rs_Rate rs; rtr_RateUnit := rs_RateUnit rs;
                 rtr_RateIncrement := rs_RateIncrement rs;
                 rtr_GroupIntervalStart := rs_GroupIntervalStart rs |}) <$> tr_RateSlots r)
      ++ (if decide (length (tr_RateSlots r) = 0)%nat
          then [{| rtr_Tpid := tr_TPid r; rtr_Tag := tr_ID r; rtr_ConnectFee := f0;
                   rtr_Rate := f0; rtr_RateUnit := ""; rtr_RateIncrement := "";
                   rtr_GroupIntervalStart := "" |}] else [])
  end.

Definition APItoModelRates (rs : list (option TPRate)) : list TpRate := rs ≫= APItoModelRate.

(** ** Destination rates *)

Definition row_destination_rate (tp : TpDestinationRate) : DestinationRate :=
  {| dr_DestinationId := drr_DestinationsTag tp; dr_RateId := drr_RatesTag tp; dr_Rate := None;
     dr_RoundingMethod := drr_RoundingMethod tp; dr_RoundingDecimals := drr_RoundingDecimals tp;
     dr_MaxCost := drr_MaxCost tp; dr_MaxCostStrategy := drr_MaxCostStrategy tp |}.

Definition AsMapDestinationRates (tps : list TpDestinationRate)
    : res (gmap string TPDestinationRate) :=
  Ok (tp_group drr_Tag
        (λ tp, {| tdr_TPid := drr_Tpid tp; tdr_ID := drr_Tag tp;
                  tdr_DestinationRates := [row_destination_rate tp] |})
        (λ existing tp, {| tdr_TPid := tdr_TPid existing; tdr_ID := tdr_ID existing;
           tdr_DestinationRates := tdr_DestinationRates existing ++ [row_destination_rate tp] |})
        tps).

Definition AsTPDestinationRates (tps : list TpDestinationRate) : res (list TPDestinationRate) :=
  atps ← AsMapDestinationRates tps; Ok (range_values atps).

Definition MapTPDestinationRates (s : list TPDestinationRate)
    : res (gmap string TPDestinationRate) :=
  tp_unique tdr_ID "Non unique ID " s.

Definition APItoModelDestinationRate (d : option TPDestinationRate) : list TpDestinationRate :=
  match d with
  | None => []
  | Some d =>
      ((λ dr, {| drr_Tpid := tdr_TPid d; drr_Tag := tdr_ID d;
                 drr_DestinationsTag := dr_DestinationId dr; drr_RatesTag := dr_RateId dr;
                 drr_RoundingMethod := dr_RoundingMethod dr;
                 drr_RoundingDecimals := dr_RoundingDecimals dr; drr_MaxCost := dr_MaxCost dr;
                 drr_MaxCostStrategy := dr_MaxCostStrategy dr |}) <$> tdr_DestinationRates d)
      ++ (if decide (length (tdr_DestinationRates d) = 0)%nat
          then [{| drr_Tpid := tdr_TPid d; drr_Tag := tdr_ID d; drr_DestinationsTag := "";
                   drr_RatesTag := ""; drr_RoundingMethod := ""; drr_RoundingDecimals := 0;
                   drr_MaxCost := f0; drr_MaxCostStrategy := "" |}] else [])
  end.

Definition APItoModelDestinationRates (drs : list (option TPDestinationRate))
    : list TpDestinationRate := drs ≫= APItoModelDestinationRate.

(** ** Rating plans *)

Definition row_binding (tp : TpRatingPlan) : TPRatingPlanBinding :=
  {| rpb_DestinationRatesId := rpr_DestratesTag tp; rpb_TimingId := rpr_TimingTag tp;
     rpb_Weight := rpr_Weight tp; rpb_timing := None |}.

Definition AsMapTPRatingPlans (tps : list TpRatingPlan) : res (gmap string TPRatingPlan) :=
  Ok (tp_group rpr_Tag
        (λ tp, {| trp_TPid := rpr_Tpid tp; trp_ID := rpr_Tag tp;
                  trp_RatingPlanBindings := [row_binding tp] |})
        (λ existing tp, {| trp_TPid := trp_TPid existing; trp_ID := trp_ID existing;
           trp_RatingPlanBindings := trp_RatingPlanBindings existing ++ [row_binding tp] |}) tps).

Definition AsTPRatingPlans (tps : list TpRatingPlan) : res (list TPRatingPlan) :=
  atps ← AsMapTPRatingPlans tps; Ok (range_values atps).

Definition slot_rate (rl : RateSlot) : Rate :=
  mkRate (rs_groupIntervalStartDur rl) (rs_Rate rl) (rs_rateIncrementDur rl) (rs_rateUnitDur rl).

(** The interval a binding and a destination rate make; a missing timing, a missing rate
    or a rate without slots panics. *)
Definition GetRateInterval (rpl : TPRatingPlanBinding) (dr : DestinationRate)
    : res RateInterval :=
  tm ← deref (rpb_timing rpl);
  rate ← deref (dr_Rate dr);
  slot ← index (tr_RateSlots rate) 0;
  Ok (mkRateInterval
    (Some (mkRITiming (tm_Years tm) (tm_Months tm) (tm_MonthDays tm) (tm_WeekDays tm)
             (tm_StartTime tm) "" "" (tm_ID tm)))
    (Some (mkRIRate (rs_ConnectFee slot) (dr_RoundingMethod dr) (dr_RoundingDecimals dr)
             (dr_MaxCost dr) (dr_MaxCostStrategy dr) (Some (slot_rate <$> tr_RateSlots rate))
             (tr_ID rate)))
    (rpb_Weight rpl)).

Definition MapTPRatingPlanBindings (s : list TPRatingPlan)
    : gmap string (list TPRatingPlanBinding) :=
  tp_lists trp_ID trp_RatingPlanBindings s.

Definition APItoModelRatingPlan (rp : option TPRatingPlan) : list TpRatingPlan :=
  match rp with
  | None => []
  | Some rp =>
      ((λ rpb, {| rpr_Tpid := trp_TPid rp; rpr_Tag := trp_ID rp;
                  rpr_DestratesTag := rpb_DestinationRatesId rpb;
                  rpr_TimingTag := rpb_TimingId rpb; rpr_Weight := rpb_Weight rpb |})
         <$> trp_RatingPlanBindings rp)
      ++ (if decide (length (trp_RatingPlanBindings rp) = 0)%nat
          then [{| rpr_Tpid := trp_TPid rp; rpr_Tag := trp_ID rp; rpr_DestratesTag := "";
                   rpr_TimingTag := ""; rpr_Weight := f0 |}] else [])
  end.

Definition APItoModelRatingPlans (rps : list (option TPRatingPlan)) : list TpRatingPlan :=
  rps ≫= APItoModelRatingPlan.

(** ** Rating profiles *)

(** The profile a row names, without activations. *)
Definition row_profile (tp : TpRatingProfile) : TPRatingProfile :=
  {| trf_TPid := rfr_Tpid tp; trf_LoadId := rfr_Loadid tp; trf_Tenant := rfr_Tenant tp;
     trf_Category := rfr_Category tp; trf_Subject := rfr_Subject tp;
     trf_RatingPlanActivations := [] |}.

Definition add_activation (rp : TPRatingProfile) (tp : TpRatingProfile) : TPRatingProfile :=
  {| trf_TPid := trf_TPid rp; trf_LoadId := trf_LoadId rp; trf_Tenant := trf_Tenant rp;
     trf_Category := trf_Category rp; trf_Subject := trf_Subject rp;
     trf_RatingPlanActivations := trf_RatingPlanActivations rp ++
       [{| tra_ActivationTime := rfr_ActivationTime tp; tra_RatingPlanId := rfr_RatingPlanTag tp;
           tra_FallbackSubjects := rfr_FallbackSubjects tp |}] |}.

Definition AsMapTPRatingProfiles (tps : list TpRatingProfile)
    : res (gmap string TPRatingProfile) :=
  Ok (tp_group (λ tp, TPRatingProfile_GetId (row_profile tp))
        (λ tp, add_activation (row_profile tp) tp) add_activation tps).

Definition AsTPRatingProfiles (tps : list TpRatingProfile) : res (list TPRatingProfile) :=
  atps ← AsMapTPRatingProfiles tps; Ok (range_values atps).

Definition MapTPRatingProfiles (s : list TPRatingProfile) : res (gmap string TPRatingProfile) :=
  tp_unique TPRatingProfile_GetId "Non unique id " s.

Definition APItoModelRatingProfile (rp : option TPRatingProfile) : list TpRatingProfile :=
  match rp with
  | None => []
  | Some rp =>
      ((λ rpa, {| rfr_Tpid := trf_TPid rp; rfr_Loadid := trf_LoadId rp;
                  rfr_Tenant := trf_Tenant rp; rfr_Category := trf_Category rp;
                  rfr_Subject := trf_Subject rp; rfr_ActivationTime := tra_ActivationTime rpa;
                  rfr_RatingPlanTag := tra_RatingPlanId rpa;
                  rfr_FallbackSubjects := tra_FallbackSubjects rpa |})
         <$> trf_RatingPlanActivations rp)
      ++ (if decide (length (trf_RatingPlanActivations rp) = 0)%nat
          then [{| rfr_Tpid := trf_TPid rp; rfr_Loadid := trf_LoadId rp;
                   rfr_Tenant := trf_Tenant rp; rfr_Category := trf_Category rp;
                   rfr_Subject := trf_Subject rp; rfr_ActivationTime := "";
                   rfr_RatingPlanTag := ""; rfr_FallbackSubjects := "" |}] else [])
  end.

Definition APItoModelRatingProfiles (rps : list (option TPRatingProfile)) : list TpRatingProfile :=
  rps ≫= APItoModelRatingProfile.
End runtime.
