(* ===== verification/TariffActions.v ===== *)
(** * Tariff plans: actions and accounts

    The rows and objects of the shared groups, the actions, the action plans, the triggers
    and the account actions of a tariff plan, and their conversions, as in [TariffPlan]. *)
From S2P Require Import Prelude GoFloat GoStrings CoreUtils Collections TariffPlan.

(** ** Rows *)

Record TpSharedGroup := {
  sgr_Tpid : string; sgr_Tag : string; sgr_Account : string; sgr_Strategy : string;
  sgr_RatingSubject : string }.

Record TpAction := {
  acr_Tpid : string; acr_Tag : string; acr_Action : string; acr_ExtraParameters : string;
  acr_Filter : string; acr_BalanceTag : string; acr_BalanceType : string;
  acr_Categories : string; acr_DestinationTags : string; acr_RatingSubject : string;
  acr_SharedGroups : string; acr_ExpiryTime : string; acr_TimingTags : string;
  acr_Units : string; acr_BalanceWeight : string; acr_BalanceBlocker : string;
  acr_BalanceDisabled : string; acr_Weight : float64 }.

Record TpActionPlan := {
  apr_Tpid : string; apr_Tag : string; apr_ActionsTag : string; apr_TimingTag : string;
  apr_Weight : float64 }.

Record TpActionTrigger := {
  atr_Tpid : string; atr_Tag : string; atr_UniqueId : string; atr_ThresholdType : string;
  atr_ThresholdValue : float64; atr_Recurrent : bool; atr_MinSleep : string;
  atr_ExpiryTime : string; atr_ActivationTime : string; atr_BalanceTag : string;
  atr_BalanceType : string; atr_BalanceCategories : string; atr_BalanceDestinationTags : string;
  atr_BalanceRatingSubject : string; atr_BalanceSharedGroups : string;
  atr_BalanceExpiryTime : string; atr_BalanceTimingTags : string; atr_BalanceWeight : string;
  atr_BalanceBlocker : string; atr_BalanceDisabled : string; atr_ActionsTag : string;
  atr_Weight : float64 }.

Record TpAccountAction := {
  aar_Tpid : string; aar_Loadid : string; aar_Tenant : string; aar_Account : string;
  aar_ActionPlanTag : string; aar_ActionTriggersTag : string; aar_AllowNegative : bool;
  aar_Disabled : bool }.

(** ** Objects *)

Record TPSharedGroup := {
  sg_Account : string; sg_Strategy : string; sg_RatingSubject : string }.

Record TPSharedGroups := {
  sgs_TPid : string; sgs_ID : string; sgs_SharedGroups : list TPSharedGroup }.

Record TPAction := {
  ta_Identifier : string; ta_BalanceId : string; ta_BalanceUuid : string;
  ta_BalanceType : string; ta_Units : string; ta_ExpiryTime : string; ta_Filter : string;
  ta_TimingTags : string; ta_DestinationIds : string; ta_RatingSubject : string;
  ta_Categories : string; ta_SharedGroups : string; ta_BalanceWeight : string;
  ta_ExtraParameters : string; ta_BalanceBlocker : string; ta_BalanceDisabled : string;
  ta_Weight : float64 }.

Record TPActions := {
  tas_TPid : string; tas_ID : string; tas_Actions : list TPAction }.

Record TPActionTiming := {
  tat_ActionsId : string; tat_TimingId : string; tat_Weight : float64 }.

Record TPActionPlan := {
  tap_TPid : string; tap_ID : string; tap_ActionPlan : list TPActionTiming }.

Record TPActionTrigger := {
  tri_Id : string; tri_UniqueID : string; tri_ThresholdType : string;
  tri_ThresholdValue : float64; tri_Recurrent : bool; tri_MinSleep : string;
  tri_ExpirationDate : string; tri_ActivationDate : string; tri_BalanceId : string;
  tri_BalanceType : string; tri_BalanceDestinationIds : string; tri_BalanceWeight : string;
  tri_BalanceExpirationDate : string; tri_BalanceTimingTags : string;
  tri_BalanceRatingSubject : string; tri_BalanceCategories : string;
  tri_BalanceSharedGroups : string; tri_BalanceBlocker : string; tri_BalanceDisabled : string;
  tri_ActionsId : string; tri_Weight : float64 }.

Record TPActionTriggers := {
  tris_TPid : string; tris_ID : string; tris_ActionTriggers : list TPActionTrigger }.

Record TPAccountActions := {
  taa_TPid : string; taa_LoadId : string; taa_Tenant : string; taa_Account : string;
  taa_ActionPlanId : string; taa_ActionTriggersId : string; taa_AllowNegative : bool;
  taa_Disabled : bool }.

(** ** Identifiers *)

Definition TPAccountActions_KeyId (aa : TPAccountActions) : string :=
  ConcatenatedKey [taa_Tenant aa; taa_Account aa].

Definition TPAccountActions_GetId (aa : TPAccountActions) : string :=
  taa_LoadId aa +:+ CONCATENATED_KEY_SEP +:+ taa_Tenant aa +:+ CONCATENATED_KEY_SEP +:+
  taa_Account aa.

Definition SetAccountActionsId (aa : TPAccountActions) (id : string) : res TPAccountActions :=
  match Split id CONCATENATED_KEY_SEP with
  | [loadId; tenant; account] =>
      Ok {| taa_TPid := taa_TPid aa; taa_LoadId := loadId; taa_Tenant := tenant;
            taa_Account := account; taa_ActionPlanId := taa_ActionPlanId aa;
            taa_ActionTriggersId := taa_ActionTriggersId aa;
            taa_AllowNegative := taa_AllowNegative aa; taa_Disabled := taa_Disabled aa |}
  | _ => Err ("Wrong TP Account Action Id: " +:+ id)
  end.

Definition SetAccountActionId (aa : TpAccountAction) (id : string) : res TpAccountAction :=
  match Split id CONCATENATED_KEY_SEP with
  | [loadId; tenant; account] =>
      Ok {| aar_Tpid := aar_Tpid aa; aar_Loadid := loadId; aar_Tenant := tenant;
            aar_Account := account; aar_ActionPlanTag := aar_ActionPlanTag aa;
            aar_ActionTriggersTag := aar_ActionTriggersTag aa;
            aar_AllowNegative := aar_AllowNegative aa; aar_Disabled := aar_Disabled aa |}
  | _ => Err ("Wrong TP Account Action Id: " +:+ id)
  end.

Definition GetAccountActionId (aa : TpAccountAction) : string :=
  ConcatenatedKey [aar_Tenant aa; aar_Account aa].

(** The key of an account, split again. *)
Definition NewTAFromAccountKey (accountKey : string) : res (string * string) :=
  match Split accountKey CONCATENATED_KEY_SEP with
  | [tenant; account] => Ok (tenant, account)
  | _ => Err ("Unsupported format for TenantAccount: " +:+ accountKey)
  end.

Section runtime.
Context `{GoRuntime}.

(** ** Shared groups *)

Definition row_shared_group (tp : TpSharedGroup) : TPSharedGroup :=
  {| sg_Account := sgr_Account tp; sg_Strategy := sgr_Strategy tp;
     sg_RatingSubject := sgr_RatingSubject tp |}.

Definition AsMapTPSharedGroups (tps : list TpSharedGroup) : res (gmap string TPSharedGroups) :=
  Ok (tp_group sgr_Tag
        (λ tp, {| sgs_TPid := sgr_Tpid tp; sgs_ID := sgr_Tag tp;
                  sgs_SharedGroups := [row_shared_group tp] |})
        (λ existing tp, {| sgs_TPid := sgs_TPid existing; sgs_ID := sgs_ID existing;
           sgs_SharedGroups := sgs_SharedGroups existing ++ [row_shared_group tp] |}) tps).

Definition AsTPSharedGroups (tps : list TpSharedGroup) : res (list TPSharedGroups) :=
  atps ← AsMapTPSharedGroups tps; Ok (range_values atps).

Definition MapTPSharedGroup (s : list TPSharedGroups) : gmap string (list TPSharedGroup) :=
  tp_lists sgs_ID sgs_SharedGroups s.

Definition APItoModelSharedGroup (sgs : option TPSharedGroups) : list TpSharedGroup :=
  match sgs with
  | None => []
  | Some sgs =>
      ((λ sg, {| sgr_Tpid := sgs_TPid sgs; sgr_Tag := sgs_ID sgs;
                  sgr_Account := sg_Account sg; sgr_Strategy := sg_Strategy sg;
                  sgr_RatingSubject := sg_RatingSubject sg |})
         <$> sgs_SharedGroups sgs)
      ++ (if decide (length (sgs_SharedGroups sgs) = 0)%nat
          then [{| sgr_Tpid := sgs_TPid sgs; sgr_Tag := sgs_ID sgs; sgr_Account := ""; sgr_Strategy := "";
                sgr_RatingSubject := "" |}] else [])
  end.

Definition APItoModelSharedGroups (sgss : list (option TPSharedGroups)) : list TpSharedGroup :=
  sgss ≫= APItoModelSharedGroup.

(** ** Actions *)

Definition row_action (tp : TpAction) : TPAction :=
  {| ta_Identifier := acr_Action tp; ta_BalanceId := acr_BalanceTag tp;
     ta_BalanceUuid := ""; ta_BalanceType := acr_BalanceType tp; ta_Units := acr_Units tp;
     ta_ExpiryTime := acr_ExpiryTime tp; ta_Filter := acr_Filter tp;
     ta_TimingTags := acr_TimingTags tp; ta_DestinationIds := acr_DestinationTags tp;
     ta_RatingSubject := acr_RatingSubject tp; ta_Categories := acr_Categories tp;
     ta_SharedGroups := acr_SharedGroups tp; ta_BalanceWeight := acr_BalanceWeight tp;
     ta_BalanceBlocker := acr_BalanceBlocker tp; ta_BalanceDisabled := acr_BalanceDisabled tp;
     ta_ExtraParameters := acr_ExtraParameters tp; ta_Weight := acr_Weight tp |}.

Definition AsMapTPActions (tps : list TpAction) : res (gmap string TPActions) :=
  Ok (tp_group acr_Tag
        (λ tp, {| tas_TPid := acr_Tpid tp; tas_ID := acr_Tag tp;
                  tas_Actions := [row_action tp] |})
        (λ existing tp, {| tas_TPid := tas_TPid existing; tas_ID := tas_ID existing;
           tas_Actions := tas_Actions existing ++ [row_action tp] |}) tps).

Definition AsTPActions (tps : list TpAction) : res (list TPActions) :=
  atps ← AsMapTPActions tps; Ok (range_values atps).

Definition MapTPActions (s : list TPActions) : gmap string (list TPAction) :=
  tp_lists tas_ID tas_Actions s.

Definition APItoModelAction (acts : option TPActions) : list TpAction :=
  match acts with
  | None => []
  | Some acts =>
      ((λ a, {| acr_Tpid := tas_TPid acts; acr_Tag := tas_ID acts;
                  acr_Action := ta_Identifier a; acr_BalanceTag := ta_BalanceId a;
                  acr_BalanceType := ta_BalanceType a; acr_Units := ta_Units a;
                  acr_ExpiryTime := ta_ExpiryTime a; acr_Filter := ta_Filter a;
                  acr_TimingTags := ta_TimingTags a;
                  acr_DestinationTags := ta_DestinationIds a;
                  acr_RatingSubject := ta_RatingSubject a; acr_Categories := ta_Categories a;
                  acr_SharedGroups := ta_SharedGroups a;
                  acr_BalanceWeight := ta_BalanceWeight a;
                  acr_BalanceBlocker := ta_BalanceBlocker a;
                  acr_BalanceDisabled := ta_BalanceDisabled a;
                  acr_ExtraParameters := ta_ExtraParameters a; acr_Weight := ta_Weight a |})
         <$> tas_Actions acts)
      ++ (if decide (length (tas_Actions acts) = 0)%nat
          then [{| acr_Tpid := tas_TPid acts; acr_Tag := tas_ID acts; acr_Action := "";
                acr_ExtraParameters := ""; acr_Filter := ""; acr_BalanceTag := ""; acr_BalanceType := "";
                acr_Categories := ""; acr_DestinationTags := ""; acr_RatingSubject := "";
                acr_SharedGroups := ""; acr_ExpiryTime := ""; acr_TimingTags := ""; acr_Units := "";
                acr_BalanceWeight := ""; acr_BalanceBlocker := ""; acr_BalanceDisabled := "";
                acr_Weight := f0 |}] else [])
  end.

Definition APItoModelActions (acts : list (option TPActions)) : list TpAction :=
  acts ≫= APItoModelAction.

(** ** Action plans *)

Definition row_action_timing (tp : TpActionPlan) : TPActionTiming :=
  {| tat_ActionsId := apr_ActionsTag tp; tat_TimingId := apr_TimingTag tp;
     tat_Weight := apr_Weight tp |}.

Definition AsMapTPActionPlans (tps : list TpActionPlan) : res (gmap string TPActionPlan) :=
  Ok (tp_group apr_Tag
        (λ tp, {| tap_TPid := apr_Tpid tp; tap_ID := apr_Tag tp;
                  tap_ActionPlan := [row_action_timing tp] |})
        (λ existing tp, {| tap_TPid := tap_TPid existing; tap_ID := tap_ID existing;
           tap_ActionPlan := tap_ActionPlan existing ++ [row_action_timing tp] |}) tps).

Definition AsTPActionPlans (tps : list TpActionPlan) : res (list TPActionPlan) :=
  atps ← AsMapTPActionPlans tps; Ok (range_values atps).

Definition MapTPActionTimings (s : list TPActionPlan) : gmap string (list TPActionTiming) :=
  tp_lists tap_ID tap_ActionPlan s.

Definition APItoModelActionPlan (a : option TPActionPlan) : list TpActionPlan :=
  match a with
  | None => []
  | Some a =>
      ((λ ap, {| apr_Tpid := tap_TPid a; apr_Tag := tap_ID a;
                  apr_ActionsTag := tat_ActionsId ap; apr_TimingTag := tat_TimingId ap;
                  apr_Weight := tat_Weight ap |})
         <$> tap_ActionPlan a)
      ++ (if decide (length (tap_ActionPlan a) = 0)%nat
          then [{| apr_Tpid := tap_TPid a; apr_Tag := tap_ID a; apr_ActionsTag := ""; apr_TimingTag := "";
                apr_Weight := f0 |}] else [])
  end.

Definition APItoModelActionPlans (aps : list (option TPActionPlan)) : list TpActionPlan :=
  aps ≫= APItoModelActionPlan.

(** ** Action triggers *)

Definition row_action_trigger (tp : TpActionTrigger) : TPActionTrigger :=
  {| tri_Id := atr_Tag tp; tri_UniqueID := atr_UniqueId tp;
     tri_ThresholdType := atr_ThresholdType tp; tri_ThresholdValue := atr_ThresholdValue tp;
     tri_Recurrent := atr_Recurrent tp; tri_MinSleep := atr_MinSleep tp;
     tri_ExpirationDate := atr_ExpiryTime tp; tri_ActivationDate := atr_ActivationTime tp;
     tri_BalanceId := atr_BalanceTag tp; tri_BalanceType := atr_BalanceType tp;
     tri_BalanceDestinationIds := atr_BalanceDestinationTags tp;
     tri_BalanceWeight := atr_BalanceWeight tp;
     tri_BalanceExpirationDate := atr_BalanceExpiryTime tp;
     tri_BalanceTimingTags := atr_BalanceTimingTags tp;
     tri_BalanceRatingSubject := atr_BalanceRatingSubject tp;
     tri_BalanceCategories := atr_BalanceCategories tp;
     tri_BalanceSharedGroups := atr_BalanceSharedGroups tp;
     tri_BalanceBlocker := atr_BalanceBlocker tp;
     tri_BalanceDisabled := atr_BalanceDisabled tp; tri_Weight := atr_Weight tp;
     tri_ActionsId := atr_ActionsTag tp |}.

Definition AsMapTPActionTriggers (tps : list TpActionTrigger) : res (gmap string TPActionTriggers) :=
  Ok (tp_group atr_Tag
        (λ tp, {| tris_TPid := atr_Tpid tp; tris_ID := atr_Tag tp;
                  tris_ActionTriggers := [row_action_trigger tp] |})
        (λ existing tp, {| tris_TPid := tris_TPid existing; tris_ID := tris_ID existing;
           tris_ActionTriggers := tris_ActionTriggers existing ++ [row_action_trigger tp] |}) tps).

Definition AsTPActionTriggers (tps : list TpActionTrigger) : res (list TPActionTriggers) :=
  atps ← AsMapTPActionTriggers tps; Ok (range_values atps).

Definition MapTPActionTriggers (s : list TPActionTriggers) : gmap string (list TPActionTrigger) :=
  tp_lists tris_ID tris_ActionTriggers s.

Definition APItoModelActionTrigger (ts : option TPActionTriggers) : list TpActionTrigger :=
  match ts with
  | None => []
  | Some ts =>
      ((λ t, {| atr_Tpid := tris_TPid ts; atr_Tag := tris_ID ts;
                  atr_UniqueId := tri_UniqueID t; atr_ThresholdType := tri_ThresholdType t;
                  atr_ThresholdValue := tri_ThresholdValue t;
                  atr_Recurrent := tri_Recurrent t; atr_MinSleep := tri_MinSleep t;
                  atr_ExpiryTime := tri_ExpirationDate t;
                  atr_ActivationTime := tri_ActivationDate t;
                  atr_BalanceTag := tri_BalanceId t; atr_BalanceType := tri_BalanceType t;
                  atr_BalanceDestinationTags := tri_BalanceDestinationIds t;
                  atr_BalanceWeight := tri_BalanceWeight t;
                  atr_BalanceExpiryTime := tri_BalanceExpirationDate t;
                  atr_BalanceTimingTags := tri_BalanceTimingTags t;
                  atr_BalanceRatingSubject := tri_BalanceRatingSubject t;
                  atr_BalanceCategories := tri_BalanceCategories t;
                  atr_BalanceSharedGroups := tri_BalanceSharedGroups t;
                  atr_BalanceBlocker := tri_BalanceBlocker t;
                  atr_BalanceDisabled := tri_BalanceDisabled t;
                  atr_ActionsTag := tri_ActionsId t; atr_Weight := tri_Weight t |})
         <$> tris_ActionTriggers ts)
      ++ (if decide (length (tris_ActionTriggers ts) = 0)%nat
          then [{| atr_Tpid := tris_TPid ts; atr_Tag := tris_ID ts; atr_UniqueId := "";
                atr_ThresholdType := ""; atr_ThresholdValue := f0; atr_Recurrent := false;
                atr_MinSleep := ""; atr_ExpiryTime := ""; atr_ActivationTime := ""; atr_BalanceTag := "";
                atr_BalanceType := ""; atr_BalanceCategories := ""; atr_BalanceDestinationTags := "";
                atr_BalanceRatingSubject := ""; atr_BalanceSharedGroups := "";
                atr_BalanceExpiryTime := ""; atr_BalanceTimingTags := ""; atr_BalanceWeight := "";
                atr_BalanceBlocker := ""; atr_BalanceDisabled := ""; atr_ActionsTag := "";
                atr_Weight := f0 |}] else [])
  end.

Definition APItoModelActionTriggers (atss : list (option TPActionTriggers)) : list TpActionTrigger :=
  atss ≫= APItoModelActionTrigger.

(** ** Account actions: one row each, the last one of an account stays *)

Definition row_account_actions (tp : TpAccountAction) : TPAccountActions :=
  {| taa_TPid := aar_Tpid tp; taa_LoadId := aar_Loadid tp; taa_Tenant := aar_Tenant tp;
     taa_Account := aar_Account tp; taa_ActionPlanId := aar_ActionPlanTag tp;
     taa_ActionTriggersId := aar_ActionTriggersTag tp;
     taa_AllowNegative := aar_AllowNegative tp; taa_Disabled := aar_Disabled tp |}.

Definition AsMapTPAccountActions (tps : list TpAccountAction)
    : res (gmap string TPAccountActions) :=
  Ok (foldl (λ result tp,
        let aas := row_account_actions tp in <[TPAccountActions_KeyId aas := aas]> result) ∅ tps).

Definition AsTPAccountActions (tps : list TpAccountAction) : res (list TPAccountActions) :=
  atps ← AsMapTPAccountActions tps; Ok (range_values atps).

Definition MapTPAccountActions (s : list TPAccountActions) : res (gmap string TPAccountActions) :=
  tp_unique TPAccountActions_KeyId "Non unique ID " s.

Definition APItoModelAccountAction (aa : TPAccountActions) : TpAccountAction :=
  {| aar_Tpid := taa_TPid aa; aar_Loadid := taa_LoadId aa; aar_Tenant := taa_Tenant aa;
     aar_Account := taa_Account aa; aar_ActionPlanTag := taa_ActionPlanId aa;
     aar_ActionTriggersTag := taa_ActionTriggersId aa;
     aar_AllowNegative := taa_AllowNegative aa; aar_Disabled := taa_Disabled aa |}.

Definition APItoModelAccountActions (aas : list (option TPAccountActions))
    : list TpAccountAction :=
  aas ≫= λ aa, match aa with Some aa => [APItoModelAccountAction aa] | None => [] end.
End runtime.
