(* ===== verification/TariffTables.v ===== *)
(** * The promise of the tariff plan tables

    [TariffTable] states what a table has to keep for its objects to survive being stored
    as rows: the rows of an object carry its tag, and adding them one by one gives the
    object back.  The theorems on gathering are proved against the class; its instances
    are the tables of [TariffPlan] and [TariffActions]. *)
From S2P Require Import Prelude GoFloat GoStrings CoreUtils Values Collections TariffPlan TariffActions.

(** ** Gathering, row by row *)

Section gather.
Context {R X : Type} (key : R → string) (make : R → X) (more : X → R → X).

(** What a block of rows with one key leaves under it. *)
Definition gathered (rs : list R) (old : option X) : option X :=
  foldl (λ acc r, Some (match acc with None => make r | Some x => more x r end)) old rs.

Lemma tp_step_lookup m r k :
  tp_step key make more m r !! k = if decide (key r = k)
                  then Some (match m !! k with None => make r | Some x => more x r end)
                  else m !! k.
Proof.
  unfold tp_step. destruct (decide (key r = k)) as [<-|Hk].
  - destruct (m !! key r); by rewrite lookup_insert_eq.
  - destruct (m !! key r); by rewrite lookup_insert_ne.
Qed.

(** The element of a key depends on the rows of that key alone, in their order. *)
Lemma tp_fold_lookup rs m k :
  foldl (tp_step key make more) m rs !! k = gathered (filter (λ r, key r = k) rs) (m !! k).
Proof.
  revert m. induction rs as [|r rs IH]; intros m; [done|]. simpl.
  rewrite IH, tp_step_lookup. destruct (decide (key r = k)) as [Hk|Hk].
  - by rewrite filter_cons_True.
  - by rewrite filter_cons_False.
Qed.

Lemma gathered_Some rs x : gathered rs (Some x) = Some (foldl more x rs).
Proof. revert x. induction rs as [|r rs IH]; intros x; [done|]. apply IH. Qed.

Lemma gathered_cons r rs : gathered (r :: rs) None = Some (foldl more (make r) rs).
Proof. apply gathered_Some. Qed.

Lemma tp_group_lookup rs k :
  tp_group key make more rs !! k = gathered (filter (λ r, key r = k) rs) None.
Proof. unfold tp_group. by rewrite tp_fold_lookup, lookup_empty. Qed.
End gather.

(** ** Tables *)

Class TariffTable (R X : Type) := {
  row_key : R → string;
  table_id : X → string;
  of_row : R → X;
  add_row : X → R → X;
  to_rows : X → list R;
  (** the objects that are worth storing: those the rows can hold *)
  whole : X → Prop;
  to_rows_key x r : r ∈ to_rows x → row_key r = table_id x;
  to_rows_whole x : whole x →
    ∃ r rs, to_rows x = r :: rs ∧ foldl add_row (of_row r) rs = x
}.

Section tables.
Context `{TariffTable R X}.

Definition table_of (xs : list X) : gmap string X := list_to_map ((λ x, (table_id x, x)) <$> xs).

Lemma filter_other_rows xs x :
  table_id x ∉ table_id <$> xs →
  filter (λ r, row_key r = table_id x) (xs ≫= to_rows) = [].
Proof.
  intros Hx. apply filter_none, Forall_forall. intros r (y & Hr & Hy)%list_elem_of_bind Hk.
  apply Hx. rewrite <- Hk, (to_rows_key _ _ Hr). by apply list_elem_of_fmap_2.
Qed.

Lemma filter_own_rows x : filter (λ r, row_key r = table_id x) (to_rows x) = to_rows x.
Proof. apply filter_all, Forall_forall. apply to_rows_key. Qed.

Lemma filter_rows xs x : NoDup (table_id <$> xs) → x ∈ xs →
  filter (λ r, row_key r = table_id x) (xs ≫= to_rows) = to_rows x.
Proof.
  induction xs as [|y xs IH]; [by intros _ ?%elem_of_nil|].
  intros [Hy Hnd]%NoDup_cons Hx. rewrite bind_cons, filter_app. apply elem_of_cons in Hx as [->|Hx].
  - by rewrite filter_own_rows, filter_other_rows, app_nil_r.
  - rewrite (filter_none (λ r, row_key r = table_id x) (to_rows y)); [by rewrite IH|].
    apply Forall_forall. intros r Hr Hk. apply Hy.
    rewrite <- (to_rows_key _ _ Hr), Hk. by apply list_elem_of_fmap_2.
Qed.

(** The rows of objects with different tags gather into the objects. *)
Lemma tp_group_rows xs : NoDup (table_id <$> xs) → Forall whole xs →
  tp_group row_key of_row add_row (xs ≫= to_rows) = table_of xs.
Proof.
  intros Hnd Hw. apply map_eq. intros k. rewrite tp_group_lookup.
  destruct (decide (k ∈ table_id <$> xs)) as [(x & -> & Hx)%list_elem_of_fmap|Hk].
  - rewrite filter_rows by done.
    unfold table_of. rewrite (elem_of_list_to_map_1 _ (table_id x) x).
    + rewrite Forall_forall in Hw. destruct (to_rows_whole x (Hw x Hx)) as (r & rs & -> & E).
      by rewrite gathered_cons, E.
    + by rewrite <- list_fmap_compose.
    + by apply (list_elem_of_fmap_2 (λ x, (table_id x, x))).
  - rewrite filter_none.
    + symmetry. apply not_elem_of_list_to_map_1. by rewrite <- list_fmap_compose.
    + apply Forall_forall. intros r (x & Hr & Hx)%list_elem_of_bind <-. apply Hk.
      rewrite (to_rows_key _ _ Hr). by apply list_elem_of_fmap_2.
Qed.

Context `{GoRuntime}.

Lemma range_table_of xs : NoDup (table_id <$> xs) → range_values (table_of xs) ≡ₚ xs.
Proof.
  intros Hnd. unfold range_values, table_of. rewrite go_range_perm, map_to_list_to_map.
  - rewrite <- list_fmap_compose. unfold compose. simpl. by rewrite list_fmap_id.
  - by rewrite <- list_fmap_compose.
Qed.

Lemma tp_group_range xs : NoDup (table_id <$> xs) → Forall whole xs →
  range_values (tp_group row_key of_row add_row (xs ≫= to_rows)) ≡ₚ xs.
Proof. intros Hnd Hw. rewrite tp_group_rows by done. by apply range_table_of. Qed.
End tables.

(** Slices of pointers without nil. *)
Lemma bind_Some {X R} (f : option X → list R) (xs : list X) :
  (Some <$> xs) ≫= f = xs ≫= λ x, f (Some x).
Proof.
  induction xs as [|x xs IH]; [done|]. by rewrite fmap_cons, !bind_cons, IH.
Qed.

(** ** The shape the tables share: one row per item, one blank row when there is none *)
Section items.
Context {R X B : Type} (key : R → string) (id : X → string) (items : X → list B)
  (row : X → B → R) (blank : X → R) (first : R → X) (add : X → R → X)
  (with_items : X → list B → X).
Hypothesis row_id : ∀ x b, key (row x b) = id x.
Hypothesis blank_id : ∀ x, key (blank x) = id x.
Variable ok : X → B → Prop.
Hypothesis first_row : ∀ x b, ok x b → first (row x b) = with_items x [b].
Hypothesis add_item : ∀ x l b, ok x b → add (with_items x l) (row x b) = with_items x (l ++ [b]).
Hypothesis with_all : ∀ x, with_items x (items x) = x.

Definition whole_items (x : X) : Prop := items x ≠ [] ∧ Forall (ok x) (items x).

Lemma item_rows_key x r :
  r ∈ (row x <$> items x) ++ (if decide (length (items x) = 0)%nat then [blank x] else []) →
  key r = id x.
Proof.
  rewrite elem_of_app, list_elem_of_fmap.
  intros [(b & -> & _)|Hr]; [done|]. destruct (decide _); [|by apply elem_of_nil in Hr].
  by apply list_elem_of_singleton in Hr as ->.
Qed.

Lemma fold_items x l bs : Forall (ok x) bs →
  foldl add (with_items x l) (row x <$> bs) = with_items x (l ++ bs).
Proof.
  intros Hb. revert l. induction Hb as [|b bs Hb Hbs IH]; intros l; simpl.
  - by rewrite app_nil_r.
  - by rewrite add_item, IH, <- app_assoc.
Qed.

Lemma item_rows_whole x : whole_items x →
  ∃ r rs, (row x <$> items x) ++ (if decide (length (items x) = 0)%nat then [blank x] else []) = r :: rs
    ∧ foldl add (first r) rs = x.
Proof.
  intros [Hne Hok]. rewrite decide_False by (by destruct (items x)).
  rewrite app_nil_r. pose proof (with_all x) as Hx. revert Hne Hok Hx.
  destruct (items x) as [|b bs]; [done|]. intros _ [Hb Hbs]%Forall_cons Hx.
  exists (row x b), (row x <$> bs). split; [done|]. by rewrite first_row, fold_items.
Qed.
End items.

(** When any item will do. *)
Lemma item_rows_nonempty {R X B : Type} (items : X → list B) (row : X → B → R) (blank : X → R)
    (first : R → X) (add : X → R → X) (with_items : X → list B → X) :
  (∀ x b, first (row x b) = with_items x [b]) →
  (∀ x l b, add (with_items x l) (row x b) = with_items x (l ++ [b])) →
  (∀ x, with_items x (items x) = x) →
  ∀ x, items x ≠ [] →
  ∃ r rs, (row x <$> items x)
          ++ (if decide (length (items x) = 0)%nat then [blank x] else []) = r :: rs
    ∧ foldl add (first r) rs = x.
Proof.
  intros Hf Ha Hw x Hne.
  apply (item_rows_whole items row blank first add with_items (λ _ _, True)); auto.
  split; [done|]. by apply Forall_forall.
Qed.

(** ** The tables of the rating side *)

Definition ds_whole (d : TPDestination) : Prop := ds_Prefixes d ≠ [].
Definition tdr_whole (d : TPDestinationRate) : Prop :=
  tdr_DestinationRates d ≠ [] ∧ Forall (λ dr, dr_Rate dr = None) (tdr_DestinationRates d).
Definition trp_whole (rp : TPRatingPlan) : Prop :=
  trp_RatingPlanBindings rp ≠ [] ∧ Forall (λ b, rpb_timing b = None) (trp_RatingPlanBindings rp).
Definition trf_whole (rp : TPRatingProfile) : Prop := trf_RatingPlanActivations rp ≠ [].
Definition sgs_whole (sgs : TPSharedGroups) : Prop := sgs_SharedGroups sgs ≠ [].
Definition tas_whole (acts : TPActions) : Prop :=
  tas_Actions acts ≠ [] ∧ Forall (λ a, ta_BalanceUuid a = "") (tas_Actions acts).
Definition tap_whole (a : TPActionPlan) : Prop := tap_ActionPlan a ≠ [].
Definition tris_whole (ts : TPActionTriggers) : Prop :=
  tris_ActionTriggers ts ≠ [] ∧ Forall (λ t, tri_Id t = tris_ID ts) (tris_ActionTriggers ts).

(** The obligations of an instance, from the lemmas of the section above; [f] is the
    function that makes the rows. *)
Ltac rows_key f key id items :=
  unfold f; unshelve eapply (item_rows_key key id items _ _); done.
Ltac rows_nonempty f items with_items :=
  unfold f; unshelve eapply (item_rows_nonempty items _ _ _ _ with_items);
  try done; intros x; destruct x; try done; intros;
  match goal with b : _ |- _ = _ => destruct b; simpl in *; by subst end.
Ltac rows_whole f items with_items ok :=
  unfold f; unshelve eapply (item_rows_whole items _ _ _ _ with_items ok);
  try done; intros x; destruct x; try done; intros;
  match goal with b : _ |- _ = _ => destruct b; simpl in *; by subst end.

#[export] Instance destination_table : TariffTable TpDestination TPDestination.
Proof.
  refine {| row_key := dsr_Tag; table_id := ds_ID;
    of_row tp := {| ds_TPid := dsr_Tpid tp; ds_ID := dsr_Tag tp; ds_Prefixes := [dsr_Prefix tp] |};
    add_row d tp := {| ds_TPid := ds_TPid d; ds_ID := ds_ID d;
                       ds_Prefixes := ds_Prefixes d ++ [dsr_Prefix tp] |};
    to_rows d := APItoModelDestination (Some d); whole := ds_whole |}.
  - rows_key APItoModelDestination dsr_Tag ds_ID ds_Prefixes.
  - rows_nonempty APItoModelDestination ds_Prefixes
      (λ d l, {| ds_TPid := ds_TPid d; ds_ID := ds_ID d; ds_Prefixes := l |}).
Defined.

#[export] Instance destination_rate_table : TariffTable TpDestinationRate TPDestinationRate.
Proof.
  refine {| row_key := drr_Tag; table_id := tdr_ID;
    of_row tp := {| tdr_TPid := drr_Tpid tp; tdr_ID := drr_Tag tp;
                   tdr_DestinationRates := [row_destination_rate tp] |};
    add_row x tp := {| tdr_TPid := tdr_TPid x; tdr_ID := tdr_ID x;
                       tdr_DestinationRates := tdr_DestinationRates x ++ [row_destination_rate tp] |};
    to_rows x := APItoModelDestinationRate (Some x); whole := tdr_whole |}.
  - rows_key APItoModelDestinationRate drr_Tag tdr_ID tdr_DestinationRates.
  - rows_whole APItoModelDestinationRate tdr_DestinationRates
      (λ x l, {| tdr_TPid := tdr_TPid x; tdr_ID := tdr_ID x; tdr_DestinationRates := l |})
      (λ (x : TPDestinationRate) (b : DestinationRate), dr_Rate b = None).
Defined.

#[export] Instance rating_plan_table : TariffTable TpRatingPlan TPRatingPlan.
Proof.
  refine {| row_key := rpr_Tag; table_id := trp_ID;
    of_row tp := {| trp_TPid := rpr_Tpid tp; trp_ID := rpr_Tag tp;
                   trp_RatingPlanBindings := [row_binding tp] |};
    add_row x tp := {| trp_TPid := trp_TPid x; trp_ID := trp_ID x;
                       trp_RatingPlanBindings := trp_RatingPlanBindings x ++ [row_binding tp] |};
    to_rows x := APItoModelRatingPlan (Some x); whole := trp_whole |}.
  - rows_key APItoModelRatingPlan rpr_Tag trp_ID trp_RatingPlanBindings.
  - rows_whole APItoModelRatingPlan trp_RatingPlanBindings
      (λ x l, {| trp_TPid := trp_TPid x; trp_ID := trp_ID x; trp_RatingPlanBindings := l |})
      (λ (x : TPRatingPlan) (b : TPRatingPlanBinding), rpb_timing b = None).
Defined.

#[export] Instance rating_profile_table : TariffTable TpRatingProfile TPRatingProfile.
Proof.
  refine {| row_key tp := TPRatingProfile_GetId (row_profile tp);
    table_id := TPRatingProfile_GetId; of_row tp := add_activation (row_profile tp) tp;
    add_row := add_activation; to_rows x := APItoModelRatingProfile (Some x);
    whole := trf_whole |}.
  - rows_key APItoModelRatingProfile (λ tp, TPRatingProfile_GetId (row_profile tp))
      TPRatingProfile_GetId trf_RatingPlanActivations.
  - rows_nonempty APItoModelRatingProfile trf_RatingPlanActivations
      (λ x l, {| trf_TPid := trf_TPid x; trf_LoadId := trf_LoadId x; trf_Tenant := trf_Tenant x;
                 trf_Category := trf_Category x; trf_Subject := trf_Subject x;
                 trf_RatingPlanActivations := l |}).
Defined.

#[export] Instance shared_group_table : TariffTable TpSharedGroup TPSharedGroups.
Proof.
  refine {| row_key := sgr_Tag; table_id := sgs_ID;
    of_row tp := {| sgs_TPid := sgr_Tpid tp; sgs_ID := sgr_Tag tp;
                   sgs_SharedGroups := [row_shared_group tp] |};
    add_row x tp := {| sgs_TPid := sgs_TPid x; sgs_ID := sgs_ID x;
                       sgs_SharedGroups := sgs_SharedGroups x ++ [row_shared_group tp] |};
    to_rows x := APItoModelSharedGroup (Some x); whole := sgs_whole |}.
  - rows_key APItoModelSharedGroup sgr_Tag sgs_ID sgs_SharedGroups.
  - rows_nonempty APItoModelSharedGroup sgs_SharedGroups
      (λ x l, {| sgs_TPid := sgs_TPid x; sgs_ID := sgs_ID x; sgs_SharedGroups := l |}).
Defined.

#[export] Instance action_table : TariffTable TpAction TPActions.
Proof.
  refine {| row_key := acr_Tag; table_id := tas_ID;
    of_row tp := {| tas_TPid := acr_Tpid tp; tas_ID := acr_Tag tp;
                   tas_Actions := [row_action tp] |};
    add_row x tp := {| tas_TPid := tas_TPid x; tas_ID := tas_ID x;
                       tas_Actions := tas_Actions x ++ [row_action tp] |};
    to_rows x := APItoModelAction (Some x); whole := tas_whole |}.
  - rows_key APItoModelAction acr_Tag tas_ID tas_Actions.
  - rows_whole APItoModelAction tas_Actions
      (λ x l, {| tas_TPid := tas_TPid x; tas_ID := tas_ID x; tas_Actions := l |})
      (λ (x : TPActions) (b : TPAction), ta_BalanceUuid b = "").
Defined.

#[export] Instance action_plan_table : TariffTable TpActionPlan TPActionPlan.
Proof.
  refine {| row_key := apr_Tag; table_id := tap_ID;
    of_row tp := {| tap_TPid := apr_Tpid tp; tap_ID := apr_Tag tp;
                   tap_ActionPlan := [row_action_timing tp] |};
    add_row x tp := {| tap_TPid := tap_TPid x; tap_ID := tap_ID x;
                       tap_ActionPlan := tap_ActionPlan x ++ [row_action_timing tp] |};
    to_rows x := APItoModelActionPlan (Some x); whole := tap_whole |}.
  - rows_key APItoModelActionPlan apr_Tag tap_ID tap_ActionPlan.
  - rows_nonempty APItoModelActionPlan tap_ActionPlan
      (λ x l, {| tap_TPid := tap_TPid x; tap_ID := tap_ID x; tap_ActionPlan := l |}).
Defined.

#[export] Instance action_trigger_table : TariffTable TpActionTrigger TPActionTriggers.
Proof.
  refine {| row_key := atr_Tag; table_id := tris_ID;
    of_row tp := {| tris_TPid := atr_Tpid tp; tris_ID := atr_Tag tp;
                   tris_ActionTriggers := [row_action_trigger tp] |};
    add_row x tp := {| tris_TPid := tris_TPid x; tris_ID := tris_ID x;
                       tris_ActionTriggers := tris_ActionTriggers x ++ [row_action_trigger tp] |};
    to_rows x := APItoModelActionTrigger (Some x); whole := tris_whole |}.
  - rows_key APItoModelActionTrigger atr_Tag tris_ID tris_ActionTriggers.
  - rows_whole APItoModelActionTrigger tris_ActionTriggers
      (λ x l, {| tris_TPid := tris_TPid x; tris_ID := tris_ID x; tris_ActionTriggers := l |})
      (λ (x : TPActionTriggers) (b : TPActionTrigger), tri_Id b = tris_ID x).
Defined.

(** ** Rates: the durations are read while gathering *)

Section rates.
Context `{GoText} `{GoRuntime}.

(** A slot whose durations are those of its texts, as [NewRateSlot] makes it. *)
Definition durations_set (rs : RateSlot) : Prop := SetDurations rs = Ok rs ∧ rs_tag rs = "".
Definition tr_whole (r : TPRate) : Prop :=
  tr_RateSlots r ≠ [] ∧ Forall durations_set (tr_RateSlots r).

Definition read_slot (tp : TpRate) : RateSlot :=
  match SetDurations (row_slot tp) with Ok rs => rs | _ => row_slot tp end.

Lemma read_slot_set tp rs : durations_set rs →
  rtr_ConnectFee tp = rs_ConnectFee rs → rtr_Rate tp = rs_Rate rs →
  rtr_RateUnit tp = rs_RateUnit rs → rtr_RateIncrement tp = rs_RateIncrement rs →
  rtr_GroupIntervalStart tp = rs_GroupIntervalStart rs →
  SetDurations (row_slot tp) = Ok rs.
Proof.
  intros [Hrs Ht]. unfold SetDurations, row_slot in *. simpl. intros -> -> -> -> ->.
  rewrite Ht in Hrs. by rewrite <- Hrs.
Qed.

#[export] Instance rate_table : TariffTable TpRate TPRate.
Proof.
  refine {| row_key := rtr_Tag; table_id := tr_ID;
    of_row tp := {| tr_TPid := rtr_Tpid tp; tr_ID := rtr_Tag tp; tr_RateSlots := [read_slot tp] |};
    add_row x tp := {| tr_TPid := tr_TPid x; tr_ID := tr_ID x;
                       tr_RateSlots := tr_RateSlots x ++ [read_slot tp] |};
    to_rows x := APItoModelRate (Some x); whole := tr_whole |}.
  - rows_key APItoModelRate rtr_Tag tr_ID tr_RateSlots.
  - unfold APItoModelRate. unshelve eapply (item_rows_whole tr_RateSlots _ _ _ _
      (λ x l, {| tr_TPid := tr_TPid x; tr_ID := tr_ID x; tr_RateSlots := l |})
      (λ _ rs, durations_set rs)); simpl.
    + intros x rs Hrs. unfold read_slot. by rewrite (read_slot_set _ rs).
    + intros x l rs Hrs. unfold read_slot. by rewrite (read_slot_set _ rs).
    + by intros [].
Defined.

Lemma AsMapRates_group tps :
  Forall (λ tp, is_ok (SetDurations (row_slot tp)) = true) tps →
  AsMapRates tps = Ok (tp_group row_key of_row add_row tps).
Proof.
  unfold AsMapRates, tp_group. generalize (∅ : gmap string TPRate).
  induction tps as [|tp tps IH]; intros m; [done|]. intros [Htp Htps]%Forall_cons. simpl.
  rewrite <- IH by done. f_equal. unfold tp_step. simpl. unfold read_slot.
  destruct (SetDurations (row_slot tp)); try done. simpl. by destruct (m !! rtr_Tag tp).
Qed.

Lemma rate_rows_ok rs : Forall tr_whole rs →
  Forall (λ tp, is_ok (SetDurations (row_slot tp)) = true) (APItoModelRates (Some <$> rs)).
Proof.
  intros Hrs. apply Forall_forall. intros tp. unfold APItoModelRates. rewrite bind_Some.
  intros (r & Htp & Hr)%list_elem_of_bind. rewrite Forall_forall in Hrs.
  destruct (Hrs r Hr) as [Hne Hset]. unfold APItoModelRate in Htp.
  rewrite decide_False, app_nil_r in Htp by (by destruct (tr_RateSlots r)).
  apply list_elem_of_fmap in Htp as (s & -> & Hs).
  rewrite Forall_forall in Hset. by rewrite (read_slot_set _ s) by auto.
Qed.
End rates.

(** ** Tables of one row an object *)

Lemma foldl_insert_group {R X} (key : R → string) (make : R → X) (tps : list R) :
  foldl (λ result tp, <[key tp := make tp]> result) ∅ tps =
  tp_group key make (λ _, make) tps.
Proof.
  unfold tp_group. generalize (∅ : gmap string X).
  induction tps as [|tp tps IH]; intros m; [done|]. simpl. rewrite IH. f_equal.
  unfold tp_step. by destruct (m !! key tp).
Qed.

#[export] Instance timing_table : TariffTable TpTiming ApierTPTiming.
Proof.
  refine {| row_key := tmr_Tag; table_id := atm_ID;
    of_row tp := {| atm_TPid := tmr_Tpid tp; atm_ID := tmr_Tag tp; atm_Years := tmr_Years tp;
           atm_Months := tmr_Months tp; atm_MonthDays := tmr_MonthDays tp;
           atm_WeekDays := tmr_WeekDays tp; atm_Time := tmr_Time tp |};
    add_row _ tp := {| atm_TPid := tmr_Tpid tp; atm_ID := tmr_Tag tp; atm_Years := tmr_Years tp;
           atm_Months := tmr_Months tp; atm_MonthDays := tmr_MonthDays tp;
           atm_WeekDays := tmr_WeekDays tp; atm_Time := tmr_Time tp |};
    to_rows x := [APItoModelTiming x]; whole _ := True |}.
  - by intros x r ->%list_elem_of_singleton.
  - intros x _. eexists _, []. split; [done|]. by destruct x.
Defined.

#[export] Instance account_actions_table : TariffTable TpAccountAction TPAccountActions.
Proof.
  refine {| row_key tp := TPAccountActions_KeyId (row_account_actions tp);
    table_id := TPAccountActions_KeyId; of_row := row_account_actions;
    add_row _ := row_account_actions; to_rows x := [APItoModelAccountAction x];
    whole _ := True |}.
  - by intros x r ->%list_elem_of_singleton.
  - intros x _. eexists _, []. split; [done|]. by destruct x.
Defined.

(** ** Objects survive their rows *)

Section roundtrips.
Context `{GoText} `{GoRuntime}.

(** A table whose gathering cannot fail. *)
Lemma table_roundtrip `{TariffTable R X} xs :
  NoDup (table_id <$> xs) → Forall whole xs →
  ∃ out, (atps ← Ok (tp_group row_key of_row add_row (xs ≫= to_rows)); Ok (range_values atps))
         = Ok out ∧ out ≡ₚ xs.
Proof. intros. eexists. split; [done|]. by apply tp_group_range. Qed.

(** C38: the rating side of a tariff plan survives being stored as rows.  Destinations,
    timings, rates, destination rates, rating plans and rating profiles with different
    tags (identifiers, for the profiles), each with at least one item, are read back from
    their rows as they were, in whatever order the runtime lists the map: the items of each
    keep their order.  For rates the durations are those read from their texts; rates of
    destination rates and timings of bindings are not stored. *)
Theorem rating_tables_roundtrip :
  (∀ dsts, NoDup (ds_ID <$> dsts) → Forall ds_whole dsts →
     AsTPDestinations (dsts ≫= λ d, APItoModelDestination (Some d)) ≡ₚ dsts) ∧
  (∀ ts, NoDup (atm_ID <$> ts) →
     AsTPTimings (APItoModelTimings (Some <$> ts)) ≡ₚ ts) ∧
  (∀ rs, NoDup (tr_ID <$> rs) → Forall tr_whole rs →
     ∃ out, AsTPRates (APItoModelRates (Some <$> rs)) = Ok out ∧ out ≡ₚ rs) ∧
  (∀ drs, NoDup (tdr_ID <$> drs) → Forall tdr_whole drs →
     ∃ out, AsTPDestinationRates (APItoModelDestinationRates (Some <$> drs)) = Ok out ∧ out ≡ₚ drs) ∧
  (∀ rps, NoDup (trp_ID <$> rps) → Forall trp_whole rps →
     ∃ out, AsTPRatingPlans (APItoModelRatingPlans (Some <$> rps)) = Ok out ∧ out ≡ₚ rps) ∧
  (∀ rpfs, NoDup (TPRatingProfile_GetId <$> rpfs) → Forall trf_whole rpfs →
     ∃ out, AsTPRatingProfiles (APItoModelRatingProfiles (Some <$> rpfs)) = Ok out ∧ out ≡ₚ rpfs).
Proof.
  split_and!.
  - intros dsts Hnd Hw. by apply (tp_group_range (H := destination_table)).
  - intros ts Hnd. unfold AsTPTimings, AsMapTPTimings, APItoModelTimings. rewrite bind_Some.
    rewrite (foldl_insert_group tmr_Tag).
    apply (tp_group_range (H := timing_table)); [done|]. by apply Forall_forall.
  - intros rs Hnd Hw. unfold AsTPRates. rewrite AsMapRates_group by by apply rate_rows_ok.
    unfold APItoModelRates. rewrite bind_Some.
    exact (table_roundtrip (R := TpRate) rs Hnd Hw).
  - intros drs Hnd Hw. unfold APItoModelDestinationRates. rewrite bind_Some.
    exact (table_roundtrip (R := TpDestinationRate) drs Hnd Hw).
  - intros rps Hnd Hw. unfold APItoModelRatingPlans. rewrite bind_Some.
    exact (table_roundtrip (R := TpRatingPlan) rps Hnd Hw).
  - intros rpfs Hnd Hw. unfold APItoModelRatingProfiles. rewrite bind_Some.
    exact (table_roundtrip (R := TpRatingProfile) rpfs Hnd Hw).
Qed.

(** The actions side survives its rows likewise: shared groups, actions, action plans
    and triggers with different tags and at least one item each, and account actions of
    different accounts.  Two things are not stored: the global identifier of the balance of
    an action, and an identifier of a trigger that is not the tag of its set. *)
Theorem action_tables_roundtrip :
  (∀ sgs, NoDup (sgs_ID <$> sgs) → Forall sgs_whole sgs →
     ∃ out, AsTPSharedGroups (APItoModelSharedGroups (Some <$> sgs)) = Ok out ∧ out ≡ₚ sgs) ∧
  (∀ acts, NoDup (tas_ID <$> acts) → Forall tas_whole acts →
     ∃ out, AsTPActions (APItoModelActions (Some <$> acts)) = Ok out ∧ out ≡ₚ acts) ∧
  (∀ aps, NoDup (tap_ID <$> aps) → Forall tap_whole aps →
     ∃ out, AsTPActionPlans (APItoModelActionPlans (Some <$> aps)) = Ok out ∧ out ≡ₚ aps) ∧
  (∀ ts, NoDup (tris_ID <$> ts) → Forall tris_whole ts →
     ∃ out, AsTPActionTriggers (APItoModelActionTriggers (Some <$> ts)) = Ok out ∧ out ≡ₚ ts) ∧
  (∀ aas, NoDup (TPAccountActions_KeyId <$> aas) →
     ∃ out, AsTPAccountActions (APItoModelAccountActions (Some <$> aas)) = Ok out ∧ out ≡ₚ aas).
Proof.
  split_and!.
  - intros sgs Hnd Hw. unfold APItoModelSharedGroups. rewrite bind_Some.
    exact (table_roundtrip (R := TpSharedGroup) sgs Hnd Hw).
  - intros acts Hnd Hw. unfold APItoModelActions. rewrite bind_Some.
    exact (table_roundtrip (R := TpAction) acts Hnd Hw).
  - intros aps Hnd Hw. unfold APItoModelActionPlans. rewrite bind_Some.
    exact (table_roundtrip (R := TpActionPlan) aps Hnd Hw).
  - intros ts Hnd Hw. unfold APItoModelActionTriggers. rewrite bind_Some.
    exact (table_roundtrip (R := TpActionTrigger) ts Hnd Hw).
  - intros aas Hnd. unfold AsTPAccountActions, AsMapTPAccountActions, APItoModelAccountActions.
    rewrite bind_Some.
    rewrite (foldl_insert_group (λ tp, TPAccountActions_KeyId (row_account_actions tp))).
    assert (Forall whole aas) as Hw by by apply Forall_forall.
    exact (table_roundtrip (R := TpAccountAction) aas Hnd Hw).
Qed.
End roundtrips.

(** ** Identifiers *)

Lemma Split_go_app c a b :
  Split_go (String c "") 0 (a +:+ String c b) =
    let '(h, t) := Split_go (String c "") 0 a in
    (h, t ++ (let '(h', t') := Split_go (String c "") 0 b in h' :: t')).
Proof.
  induction a as [|d a IH]; simpl.
  - destruct (ascii_dec c c); [|done]. destruct (Split_go (String c "") 0 b).
    by destruct (b : string).
  - rewrite IH. destruct (Split_go (String c "") 0 a) as [h t].
    destruct (ascii_dec c d); [|done].
    assert (∀ s, String.prefix "" s = true) as -> by (by intros []). by destruct a.
Qed.

(** The parts of a joined key are the parts of its elements. *)
Lemma Split_Join_parts c l : l ≠ [] →
  Split (Join l (String c "")) (String c "") = l ≫= λ p, Split p (String c "").
Proof.
  intros Hl. induction l as [|x [|y l] IH]; [done|simpl; by rewrite app_nil_r|].
  rewrite Join_cons, bind_cons by done. rewrite <- IH by done.
  change (String c "" +:+ ?s) with (String c s). unfold Split. rewrite Split_go_app.
  by destruct (Split_go _ 0 x), (Split_go _ 0 (Join _ _)).
Qed.

Lemma Split_length_pos s c : (1 ≤ length (Split s (String c "")))%nat.
Proof. destruct (Split_nonempty s c) as (h & t & ->). simpl. lia. Qed.

Lemma Split_one s c : has_char c s = false → Split s (String c "") = [s].
Proof. intros Hs. unfold Split. by rewrite Split_go_last. Qed.

Lemma Split_many s c : has_char c s = true → (2 ≤ length (Split s (String c "")))%nat.
Proof. intros (h & h' & t & ->)%Split_has_char. simpl. lia. Qed.

Lemma parts_length c l : (length l ≤ length (l ≫= λ p, Split p (String c "")))%nat.
Proof.
  induction l as [|x l IH]; [done|]. rewrite bind_cons, length_app, length_cons.
  pose proof (Split_length_pos x c). lia.
Qed.

(** Splitting adds no part exactly when no element holds the separator. *)
Lemma parts_exact c l :
  length (l ≫= λ p, Split p (String c "")) = length l ↔ Forall (λ p, has_char c p = false) l.
Proof.
  induction l as [|x l IH]; [done|]. rewrite Forall_cons, <- IH, bind_cons, length_app, length_cons.
  pose proof (parts_length c l). destruct (has_char c x) eqn:Hx.
  - pose proof (Split_many x c Hx). split; [lia|]. by intros [? _].
  - rewrite (Split_one x c Hx). simpl length at 1. split; [split; [done|lia]|intros [_ ?]; lia].
Qed.

(** Identifiers of tariff plan objects.  The identifier of account actions is read back
    exactly when no part has a colon, and refused otherwise; the identifier a row of account
    actions gives of itself has two parts where the setter of the same row wants three, so
    without colons it is always refused; and the identifier of a rating profile, which has
    five parts, is refused by its setter, which wants four, whatever the parts are. *)
Theorem identifiers_read_back :
  (∀ aa old : TPAccountActions,
     if decide (Forall (λ p, has_char ":" p = false) [taa_LoadId aa; taa_Tenant aa; taa_Account aa])
     then ∃ aa', SetAccountActionsId old (TPAccountActions_GetId aa) = Ok aa' ∧
                 TPAccountActions_GetId aa' = TPAccountActions_GetId aa ∧
                 TPAccountActions_KeyId aa' = TPAccountActions_KeyId aa
     else SetAccountActionsId old (TPAccountActions_GetId aa) =
          Err ("Wrong TP Account Action Id: " +:+ TPAccountActions_GetId aa)) ∧
  (∀ aa old : TpAccountAction,
     Forall (λ p, has_char ":" p = false) [aar_Tenant aa; aar_Account aa] →
     SetAccountActionId old (GetAccountActionId aa) =
       Err ("Wrong TP Account Action Id: " +:+ GetAccountActionId aa)) ∧
  (∀ rpf old : TPRatingProfile,
     SetRatingProfileID old (TPRatingProfile_GetId rpf) =
       Err ("Wrong TPRatingProfileId: " +:+ TPRatingProfile_GetId rpf)).
Proof.
  split_and!.
  - intros aa old.
    assert (TPAccountActions_GetId aa = Join [taa_LoadId aa; taa_Tenant aa; taa_Account aa] ":")
      as Hid by done.
    unfold SetAccountActionsId. rewrite !Hid, Split_Join_parts by done. case_decide as Hd.
    + rewrite <- (Split_Join_parts ":"), Split_Join by done. eexists. by split_and!.
    + rewrite <- parts_exact in Hd.
      destruct (_ ≫= _) as [|? [|? [|? []]]]; done.
  - intros aa old Hd. unfold SetAccountActionId, GetAccountActionId, ConcatenatedKey.
    change CONCATENATED_KEY_SEP with ":". by rewrite Split_Join by done.
  - intros rpf old. unfold SetRatingProfileID, TPRatingProfile_GetId, ConcatenatedKey.
    change CONCATENATED_KEY_SEP with ":". rewrite Split_Join_parts by done.
    pose proof (parts_length ":"
      [trf_LoadId rpf; META_OUT; trf_Tenant rpf; trf_Category rpf; trf_Subject rpf]) as Hl.
    revert Hl. destruct (_ ≫= _) as [|? [|? [|? [|? []]]]]; simpl; intros; first [done|lia].
Qed.

(** ** Examples *)

Definition example_rating_plan : TPRatingPlan :=
  {| trp_TPid := "tp"; trp_ID := "RP_1"; trp_RatingPlanBindings :=
       [{| rpb_DestinationRatesId := "DR_1"; rpb_TimingId := "*any"; rpb_Weight := f0;
           rpb_timing := None |};
        {| rpb_DestinationRatesId := "DR_2"; rpb_TimingId := "WEEKEND"; rpb_Weight := f1;
           rpb_timing := None |}] |}.

Lemma rating_tables_roundtrip_witness :
  ∃ out, @AsTPRatingPlans reference_runtime (APItoModelRatingPlans [Some example_rating_plan]) =
    Ok out ∧ out ≡ₚ [example_rating_plan].
Proof.
  apply (@rating_tables_roundtrip reference_text reference_runtime) with
    (rps := [example_rating_plan]).
  - apply NoDup_singleton.
  - apply Forall_singleton. split; [done|]. by repeat constructor.
Defined.

Definition example_trigger : TPActionTriggers :=
  {| tris_TPid := "tp"; tris_ID := "TRG"; tris_ActionTriggers :=
       [{| tri_Id := "TRG"; tri_UniqueID := "1"; tri_ThresholdType := "*min_balance";
           tri_ThresholdValue := f1; tri_Recurrent := false; tri_MinSleep := "";
           tri_ExpirationDate := ""; tri_ActivationDate := ""; tri_BalanceId := "";
           tri_BalanceType := "*monetary"; tri_BalanceDestinationIds := "";
           tri_BalanceWeight := ""; tri_BalanceExpirationDate := ""; tri_BalanceTimingTags := "";
           tri_BalanceRatingSubject := ""; tri_BalanceCategories := "";
           tri_BalanceSharedGroups := ""; tri_BalanceBlocker := ""; tri_BalanceDisabled := "";
           tri_ActionsId := "LOG_WARNING"; tri_Weight := f1 |}] |}.

Lemma action_tables_roundtrip_witness :
  ∃ out, @AsTPActionTriggers reference_runtime (APItoModelActionTriggers [Some example_trigger]) =
    Ok out ∧ out ≡ₚ [example_trigger].
Proof.
  apply (@action_tables_roundtrip reference_runtime) with (ts := [example_trigger]).
  - apply NoDup_singleton.
  - apply Forall_singleton. split; [done|]. by repeat constructor.
Defined.

Lemma identifiers_read_back_witness :
  SetAccountActionId (APItoModelAccountAction
    {| taa_TPid := "tp"; taa_LoadId := "load"; taa_Tenant := "cgrates.org"; taa_Account := "1001";
       taa_ActionPlanId := "AP"; taa_ActionTriggersId := "AT"; taa_AllowNegative := false;
       taa_Disabled := false |}) "cgrates.org:1001" =
  Err "Wrong TP Account Action Id: cgrates.org:1001".
Proof.
  apply identifiers_read_back with (aa :=
    {| aar_Tpid := ""; aar_Loadid := ""; aar_Tenant := "cgrates.org"; aar_Account := "1001";
       aar_ActionPlanTag := ""; aar_ActionTriggersTag := ""; aar_AllowNegative := false;
       aar_Disabled := false |}).
  by repeat constructor.
Defined.
