(* ===== verification/TariffProfiles.v ===== *)
(** * Tariff plans: profiles of resources, statistics, thresholds and filters

    The rows of these profiles, the objects the API shows and the profiles the engine works
    with ([engine/model_helpers.go], [engine/models.go], [utils/apitpdata.go]).  Lists of
    identifiers are stored joined by semicolons; when rows are gathered they go through a
    Go map, so their order is the one the runtime picks.  Slices of pointers hold values;
    [PK] and [CreatedAt], which only the database sets, are left out of the rows. *)
From S2P Require Import Prelude GoFloat GoStrings GoTime CoreUtils Values Filters StatMetrics StatQueue Resources Thresholds.

(** ** Rows *)

Record TpResource := {
  rsr_Tpid : string; rsr_Tenant : string; rsr_ID : string; rsr_FilterIDs : string;
  rsr_ActivationInterval : string; rsr_UsageTTL : string; rsr_Limit : string;
  rsr_AllocationMessage : string; rsr_Blocker : bool; rsr_Stored : bool; rsr_Weight : float64;
  rsr_ThresholdIDs : string }.

Record TpStat := {
  str_Tpid : string; str_Tenant : string; str_ID : string; str_FilterIDs : string;
  str_ActivationInterval : string; str_QueueLength : Z; str_TTL : string; str_MinItems : Z;
  str_MetricIDs : string; str_MetricFilterIDs : string; str_Stored : bool; str_Blocker : bool;
  str_Weight : float64; str_ThresholdIDs : string }.

Record TpThreshold := {
  thr_Tpid : string; thr_Tenant : string; thr_ID : string; thr_FilterIDs : string;
  thr_ActivationInterval : string; thr_MaxHits : Z; thr_MinHits : Z; thr_MinSleep : string;
  thr_Blocker : bool; thr_Weight : float64; thr_ActionIDs : string; thr_Async : bool }.

Record TpFilter := {
  flr_Tpid : string; flr_Tenant : string; flr_ID : string; flr_Type : string;
  flr_Element : string; flr_Values : string; flr_ActivationInterval : string }.

(** ** Objects *)

Record TPActivationInterval := {
  tai_ActivationTime : string; tai_ExpiryTime : string }.

Record TPResourceProfile := {
  trs_TPid : string; trs_Tenant : string; trs_ID : string; trs_FilterIDs : list string;
  trs_ActivationInterval : option TPActivationInterval; trs_UsageTTL : string;
  trs_Limit : string; trs_AllocationMessage : string; trs_Blocker : bool; trs_Stored : bool;
  trs_Weight : float64; trs_ThresholdIDs : list string }.

Record utils_MetricWithFilters := {
  mwf_FilterIDs : list string; mwf_MetricID : string }.

Record TPStatProfile := {
  tst_TPid : string; tst_Tenant : string; tst_ID : string; tst_FilterIDs : list string;
  tst_ActivationInterval : option TPActivationInterval; tst_QueueLength : Z; tst_TTL : string;
  tst_Metrics : list utils_MetricWithFilters; tst_Blocker : bool; tst_Stored : bool;
  tst_Weight : float64; tst_MinItems : Z; tst_ThresholdIDs : list string }.

Record TPThresholdProfile := {
  tth_TPid : string; tth_Tenant : string; tth_ID : string; tth_FilterIDs : list string;
  tth_ActivationInterval : option TPActivationInterval; tth_MaxHits : Z; tth_MinHits : Z;
  tth_MinSleep : string; tth_Blocker : bool; tth_Weight : float64; tth_ActionIDs : list string;
  tth_Async : bool }.

Record TPFilter := {
  tfr_Type : string; tfr_Element : string; tfr_Values : list string }.

Record TPFilterProfile := {
  tfl_TPid : string; tfl_Tenant : string; tfl_ID : string; tfl_Filters : list TPFilter;
  tfl_ActivationInterval : option TPActivationInterval }.

(** ** What all the profiles share *)

Definition tenant_key (tenant id : string) : string := TenantID_TenantID (mkTenantID tenant id).

(** A field that a later row replaces unless it is blank there. *)
Definition keep_text (old new : string) : string := if decide (new = "") then old else new.
Definition keep_weight (old new : float64) : float64 := if feqb new f0 then old else new.
Definition keep_int (old new : Z) : Z := if decide (new = 0) then old else new.
Definition keep_flag (old new : bool) : bool := if new then new else old.

(** The validity of a row: one text or two. *)
Definition read_interval (s : string) : TPActivationInterval :=
  match Split s INFIELD_SEP with
  | [at_; et] => {| tai_ActivationTime := at_; tai_ExpiryTime := et |}
  | [at_] => {| tai_ActivationTime := at_; tai_ExpiryTime := "" |}
  | _ => {| tai_ActivationTime := ""; tai_ExpiryTime := "" |}
  end.
Definition keep_interval (old : option TPActivationInterval) (s : string)
    : option TPActivationInterval :=
  if decide (slen s ≠ 0) then Some (read_interval s) else old.

Definition interval_text (ai : option TPActivationInterval) : string :=
  match ai with
  | None => ""
  | Some ai =>
      let s := if decide (tai_ActivationTime ai ≠ "") then tai_ActivationTime ai else "" in
      if decide (tai_ExpiryTime ai ≠ "") then s +:+ INFIELD_SEP +:+ tai_ExpiryTime ai else s
  end.

(** The sets of identifiers gathered for each profile. *)
Definition IDSets := gmap string (gmap string bool).

Definition add_ids (sets : IDSets) (key ids : string) : IDSets :=
  if decide (ids ≠ "") then
    <[key := foldl (λ set id, <[id := true]> set) (default ∅ (sets !! key))
               (Split ids INFIELD_SEP)]> sets
  else sets.

(** The loop that joins identifiers; the text starts empty. *)
Fixpoint join_loop (i : nat) (vals : list string) (text : string) : string :=
  match vals with
  | [] => text
  | val :: vals' =>
      let text := if decide (i ≠ 0)%nat then text +:+ INFIELD_SEP else text in
      join_loop (S i) vals' (text +:+ val)
  end.
Definition join_ids (vals : list string) : string := join_loop 0 vals "".

Section profiles.
Context `{GoText} `{GoRuntime} `{FilterData}.

Definition listed_ids (sets : IDSets) (key : string) : list string :=
  (go_range (default ∅ (sets !! key))).*1.

Definition AsActivationInterval (tpAI : TPActivationInterval) (timezone : string)
    : res ActivationInterval :=
  at_ ← ParseTimeDetectLayout (tai_ActivationTime tpAI) timezone;
  et ← ParseTimeDetectLayout (tai_ExpiryTime tpAI) timezone;
  Ok (mkActivationInterval at_ et).

(** [if tp.ActivationInterval != nil] *)
Definition read_validity (ai : option TPActivationInterval) (timezone : string)
    : res (option ActivationInterval) :=
  match ai with
  | None => Ok None
  | Some ai => v ← AsActivationInterval ai timezone; Ok (Some v)
  end.

(** [if text != ""], otherwise the zero value *)
Definition read_duration (s : string) : res Z :=
  if decide (s ≠ "") then ParseDurationWithNanosecs s else Ok 0.

(** ** Resources *)

Definition gather_resource (acc : gmap string TPResourceProfile * IDSets * IDSets)
    (tp : TpResource) : gmap string TPResourceProfile * IDSets * IDSets :=
  let '(mrl, filterMap, thresholdMap) := acc in
  let key := tenant_key (rsr_Tenant tp) (rsr_ID tp) in
  let rl := default
    {| trs_TPid := rsr_Tpid tp; trs_Tenant := rsr_Tenant tp; trs_ID := rsr_ID tp;
       trs_FilterIDs := []; trs_ActivationInterval := None; trs_UsageTTL := "";
       trs_Limit := ""; trs_AllocationMessage := ""; trs_Blocker := rsr_Blocker tp;
       trs_Stored := rsr_Stored tp; trs_Weight := f0; trs_ThresholdIDs := [] |} (mrl !! key) in
  let rl :=
    {| trs_TPid := trs_TPid rl; trs_Tenant := trs_Tenant rl; trs_ID := trs_ID rl;
       trs_FilterIDs := trs_FilterIDs rl;
       trs_ActivationInterval :=
         keep_interval (trs_ActivationInterval rl) (rsr_ActivationInterval tp);
       trs_UsageTTL := keep_text (trs_UsageTTL rl) (rsr_UsageTTL tp);
       trs_Limit := keep_text (trs_Limit rl) (rsr_Limit tp);
       trs_AllocationMessage :=
         keep_text (trs_AllocationMessage rl) (rsr_AllocationMessage tp);
       trs_Blocker := rsr_Blocker tp; trs_Stored := rsr_Stored tp;
       trs_Weight := keep_weight (trs_Weight rl) (rsr_Weight tp);
       trs_ThresholdIDs := trs_ThresholdIDs rl |} in
  (<[key := rl]> mrl, add_ids filterMap key (rsr_FilterIDs tp),
   add_ids thresholdMap key (rsr_ThresholdIDs tp)).

Definition AsTPResources (tps : list TpResource) : list TPResourceProfile :=
  let '(mrl, filterMap, thresholdMap) := foldl gather_resource (∅, ∅, ∅) tps in
  (λ '(tntID, rl),
     {| trs_TPid := trs_TPid rl; trs_Tenant := trs_Tenant rl; trs_ID := trs_ID rl;
        trs_FilterIDs := trs_FilterIDs rl ++ listed_ids filterMap tntID;
        trs_ActivationInterval := trs_ActivationInterval rl; trs_UsageTTL := trs_UsageTTL rl;
        trs_Limit := trs_Limit rl; trs_AllocationMessage := trs_AllocationMessage rl;
        trs_Blocker := trs_Blocker rl; trs_Stored := trs_Stored rl;
        trs_Weight := trs_Weight rl;
        trs_ThresholdIDs := trs_ThresholdIDs rl ++ listed_ids thresholdMap tntID |})
  <$> go_range mrl.

(** The first row carries the fields of the profile, the others a filter each. *)
Definition resource_row (rl : TPResourceProfile) (lead : bool) (filter : string) : TpResource :=
  {| rsr_Tpid := trs_TPid rl; rsr_Tenant := trs_Tenant rl; rsr_ID := trs_ID rl;
     rsr_FilterIDs := filter;
     rsr_ActivationInterval := if lead then interval_text (trs_ActivationInterval rl) else "";
     rsr_UsageTTL := if lead then trs_UsageTTL rl else "";
     rsr_Limit := if lead then trs_Limit rl else "";
     rsr_AllocationMessage := if lead then trs_AllocationMessage rl else "";
     rsr_Blocker := trs_Blocker rl; rsr_Stored := trs_Stored rl;
     rsr_Weight := if lead then trs_Weight rl else f0;
     rsr_ThresholdIDs := if lead then join_ids (trs_ThresholdIDs rl) else "" |}.

Definition APItoModelResource (rl : option TPResourceProfile) : list TpResource :=
  match rl with
  | None => []
  | Some rl =>
      (if decide (length (trs_FilterIDs rl) = 0)%nat then [resource_row rl true ""] else [])
      ++ imap (λ i fltr, resource_row rl (i =? 0)%nat fltr) (trs_FilterIDs rl)
  end.

Definition APItoResource (tpRL : TPResourceProfile) (timezone : string) : res ResourceProfile :=
  usageTTL ← read_duration (trs_UsageTTL tpRL);
  ai ← read_validity (trs_ActivationInterval tpRL) timezone;
  limit ← (if decide (trs_Limit tpRL ≠ "") then ParseFloat (trs_Limit tpRL) else Ok f0);
  Ok (mkResourceProfile (trs_Tenant tpRL) (trs_ID tpRL) (trs_FilterIDs tpRL) ai usageTTL limit
        (trs_AllocationMessage tpRL) (trs_Blocker tpRL) (trs_Stored tpRL) (trs_Weight tpRL)
        (trs_ThresholdIDs tpRL)).

(** ** Statistics *)

Definition MetricSets := gmap string (gmap string utils_MetricWithFilters).

(** The metrics a row names, each with the filters of the row added to those it has. *)
Definition gather_metrics (sets : MetricSets) (key metricIDs filterIDs : string) : MetricSets :=
  if decide (metricIDs ≠ "") then
    <[key := foldl (λ metrics metricID,
        let stsMetric := default {| mwf_FilterIDs := []; mwf_MetricID := metricID |}
                           (metrics !! metricID) in
        <[metricID :=
            if decide (filterIDs ≠ "") then
              {| mwf_FilterIDs := mwf_FilterIDs stsMetric ++ Split filterIDs INFIELD_SEP;
                 mwf_MetricID := mwf_MetricID stsMetric |}
            else stsMetric]> metrics) (default ∅ (sets !! key))
      (Split metricIDs INFIELD_SEP)]> sets
  else sets.

Definition gather_stats
    (acc : gmap string TPStatProfile * IDSets * IDSets * MetricSets) (model : TpStat)
    : gmap string TPStatProfile * IDSets * IDSets * MetricSets :=
  let '(mst, filterMap, thresholdMap, statMetricsMap) := acc in
  let key := tenant_key (str_Tenant model) (str_ID model) in
  let st := default
    {| tst_TPid := str_Tpid model; tst_Tenant := str_Tenant model; tst_ID := str_ID model;
       tst_FilterIDs := []; tst_ActivationInterval := None;
       tst_QueueLength := str_QueueLength model; tst_TTL := str_TTL model; tst_Metrics := [];
       tst_Blocker := str_Blocker model; tst_Stored := str_Stored model;
       tst_Weight := str_Weight model; tst_MinItems := str_MinItems model;
       tst_ThresholdIDs := [] |} (mst !! key) in
  let st :=
    {| tst_TPid := tst_TPid st; tst_Tenant := tst_Tenant st; tst_ID := tst_ID st;
       tst_FilterIDs := tst_FilterIDs st;
       tst_ActivationInterval :=
         keep_interval (tst_ActivationInterval st) (str_ActivationInterval model);
       tst_QueueLength := keep_int (tst_QueueLength st) (str_QueueLength model);
       tst_TTL := keep_text (tst_TTL st) (str_TTL model); tst_Metrics := tst_Metrics st;
       tst_Blocker := keep_flag (tst_Blocker st) (str_Blocker model);
       tst_Stored := keep_flag (tst_Stored st) (str_Stored model);
       tst_Weight := keep_weight (tst_Weight st) (str_Weight model);
       tst_MinItems := keep_int (tst_MinItems st) (str_MinItems model);
       tst_ThresholdIDs := tst_ThresholdIDs st |} in
  (<[key := st]> mst, add_ids filterMap key (str_FilterIDs model),
   add_ids thresholdMap key (str_ThresholdIDs model),
   gather_metrics statMetricsMap key (str_MetricIDs model) (str_MetricFilterIDs model)).

Definition AsTPStats (models : list TpStat) : list TPStatProfile :=
  let '(mst, filterMap, thresholdMap, statMetricsMap) :=
    foldl gather_stats (∅, ∅, ∅, ∅) models in
  (λ '(tntID, st),
     {| tst_TPid := tst_TPid st; tst_Tenant := tst_Tenant st; tst_ID := tst_ID st;
        tst_FilterIDs := tst_FilterIDs st ++ listed_ids filterMap tntID;
        tst_ActivationInterval := tst_ActivationInterval st;
        tst_QueueLength := tst_QueueLength st; tst_TTL := tst_TTL st;
        tst_Metrics := tst_Metrics st ++ (go_range (default ∅ (statMetricsMap !! tntID))).*2;
        tst_Blocker := tst_Blocker st; tst_Stored := tst_Stored st;
        tst_Weight := tst_Weight st; tst_MinItems := tst_MinItems st;
        tst_ThresholdIDs := tst_ThresholdIDs st ++ listed_ids thresholdMap tntID |})
  <$> go_range mst.

Definition stat_row (st : TPStatProfile) (lead : bool) (metric : utils_MetricWithFilters) : TpStat :=
  {| str_Tpid := tst_TPid st; str_Tenant := tst_Tenant st; str_ID := tst_ID st;
     str_FilterIDs := if lead then join_ids (tst_FilterIDs st) else "";
     str_ActivationInterval := if lead then interval_text (tst_ActivationInterval st) else "";
     str_QueueLength := if lead then tst_QueueLength st else 0;
     str_TTL := if lead then tst_TTL st else "";
     str_MinItems := if lead then tst_MinItems st else 0; str_MetricIDs := mwf_MetricID metric;
     str_MetricFilterIDs := join_ids (mwf_FilterIDs metric);
     str_Stored := lead && tst_Stored st; str_Blocker := lead && tst_Blocker st;
     str_Weight := if lead then tst_Weight st else f0;
     str_ThresholdIDs := if lead then join_ids (tst_ThresholdIDs st) else "" |}.

(** A profile without metrics makes no row. *)
Definition APItoModelStats (st : option TPStatProfile) : list TpStat :=
  match st with
  | None => []
  | Some st => imap (λ i metric, stat_row st (i =? 0)%nat metric) (tst_Metrics st)
  end.

Definition APItoStats (tpST : TPStatProfile) (timezone : string) : res StatQueueProfile :=
  ttl ← read_duration (tst_TTL tpST);
  ai ← read_validity (tst_ActivationInterval tpST) timezone;
  Ok (mkStatQueueProfile (tst_Tenant tpST) (tst_ID tpST) (tst_FilterIDs tpST) ai
        (tst_QueueLength tpST) ttl (tst_MinItems tpST)
        ((λ metric, mkMetricWithFilters (mwf_FilterIDs metric) (mwf_MetricID metric))
           <$> tst_Metrics tpST)
        (tst_Stored tpST) (tst_Blocker tpST) (tst_Weight tpST) (tst_ThresholdIDs tpST)).

(** ** Thresholds *)

Definition gather_threshold (acc : gmap string TPThresholdProfile * IDSets * IDSets)
    (tp : TpThreshold) : gmap string TPThresholdProfile * IDSets * IDSets :=
  let '(mst, filterMap, actionMap) := acc in
  let key := tenant_key (thr_Tenant tp) (thr_ID tp) in
  let th := default
    {| tth_TPid := thr_Tpid tp; tth_Tenant := thr_Tenant tp; tth_ID := thr_ID tp;
       tth_FilterIDs := []; tth_ActivationInterval := None; tth_MaxHits := thr_MaxHits tp;
       tth_MinHits := thr_MinHits tp; tth_MinSleep := thr_MinSleep tp;
       tth_Blocker := thr_Blocker tp; tth_Weight := f0; tth_ActionIDs := [];
       tth_Async := thr_Async tp |} (mst !! key) in
  let th :=
    {| tth_TPid := tth_TPid th; tth_Tenant := tth_Tenant th; tth_ID := tth_ID th;
       tth_FilterIDs := tth_FilterIDs th;
       tth_ActivationInterval :=
         keep_interval (tth_ActivationInterval th) (thr_ActivationInterval tp);
       tth_MaxHits := tth_MaxHits th; tth_MinHits := tth_MinHits th;
       tth_MinSleep := tth_MinSleep th; tth_Blocker := tth_Blocker th;
       tth_Weight := keep_weight (tth_Weight th) (thr_Weight tp);
       tth_ActionIDs := tth_ActionIDs th; tth_Async := tth_Async th |} in
  (<[key := th]> mst, add_ids filterMap key (thr_FilterIDs tp),
   add_ids actionMap key (thr_ActionIDs tp)).

Definition AsTPThreshold (tps : list TpThreshold) : list TPThresholdProfile :=
  let '(mst, filterMap, actionMap) := foldl gather_threshold (∅, ∅, ∅) tps in
  (λ '(tntID, th),
     {| tth_TPid := tth_TPid th; tth_Tenant := tth_Tenant th; tth_ID := tth_ID th;
        tth_FilterIDs := tth_FilterIDs th ++ listed_ids filterMap tntID;
        tth_ActivationInterval := tth_ActivationInterval th; tth_MaxHits := tth_MaxHits th;
        tth_MinHits := tth_MinHits th; tth_MinSleep := tth_MinSleep th;
        tth_Blocker := tth_Blocker th; tth_Weight := tth_Weight th;
        tth_ActionIDs := tth_ActionIDs th ++ listed_ids actionMap tntID;
        tth_Async := tth_Async th |})
  <$> go_range mst.

Definition threshold_row (th : TPThresholdProfile) (lead : bool) (filter action : string)
    : TpThreshold :=
  {| thr_Tpid := tth_TPid th; thr_Tenant := tth_Tenant th; thr_ID := tth_ID th;
     thr_FilterIDs := filter;
     thr_ActivationInterval := if lead then interval_text (tth_ActivationInterval th) else "";
     thr_MaxHits := if lead then tth_MaxHits th else 0;
     thr_MinHits := if lead then tth_MinHits th else 0;
     thr_MinSleep := if lead then tth_MinSleep th else "";
     thr_Blocker := lead && tth_Blocker th; thr_Weight := if lead then tth_Weight th else f0;
     thr_ActionIDs := action; thr_Async := lead && tth_Async th |}.

(** Filters and actions side by side, then what is left of either; a profile without
    actions makes no row. *)
Definition APItoModelTPThreshold (th : option TPThresholdProfile) : list TpThreshold :=
  match th with
  | None => []
  | Some th =>
      if decide (length (tth_ActionIDs th) = 0)%nat then []
      else
        let min := Nat.min (length (tth_FilterIDs th)) (length (tth_ActionIDs th)) in
        imap (λ i fa, threshold_row th (i =? 0)%nat fa.1 fa.2)
          (zip (tth_FilterIDs th) (tth_ActionIDs th))
        ++ ((λ fltr, threshold_row th false fltr "") <$> drop min (tth_FilterIDs th))
        ++ imap (λ i action, threshold_row th ((min =? 0) && (min + i =? 0))%nat "" action)
             (drop min (tth_ActionIDs th))
  end.

Definition APItoThresholdProfile (tpTH : TPThresholdProfile) (timezone : string)
    : res ThresholdProfile :=
  minSleep ← read_duration (tth_MinSleep tpTH);
  ai ← read_validity (tth_ActivationInterval tpTH) timezone;
  Ok (mkThresholdProfile (tth_Tenant tpTH) (tth_ID tpTH) (tth_FilterIDs tpTH) ai
        (tth_MaxHits tpTH) (tth_MinHits tpTH) minSleep (tth_Blocker tpTH) (tth_Weight tpTH)
        (tth_ActionIDs tpTH) (tth_Async tpTH)).

(** ** Filters *)

Definition gather_filter (mst : gmap string TPFilterProfile) (tp : TpFilter)
    : gmap string TPFilterProfile :=
  let key := tenant_key (flr_Tenant tp) (flr_ID tp) in
  let th := default
    {| tfl_TPid := flr_Tpid tp; tfl_Tenant := flr_Tenant tp; tfl_ID := flr_ID tp;
       tfl_Filters := []; tfl_ActivationInterval := None |} (mst !! key) in
  <[key :=
      {| tfl_TPid := tfl_TPid th; tfl_Tenant := tfl_Tenant th; tfl_ID := tfl_ID th;
         tfl_Filters := tfl_Filters th ++
           (if decide (flr_Type tp ≠ "")
            then [{| tfr_Type := flr_Type tp; tfr_Element := flr_Element tp;
                     tfr_Values := Split (flr_Values tp) INFIELD_SEP |}] else []);
         tfl_ActivationInterval :=
           keep_interval (tfl_ActivationInterval th) (flr_ActivationInterval tp) |}]> mst.

Definition AsTPFilter (tps : list TpFilter) : list TPFilterProfile :=
  (go_range (foldl gather_filter ∅ tps)).*2.

(** A profile without rules makes no row. *)
Definition APItoModelTPFilter (th : TPFilterProfile) : list TpFilter :=
  (λ fltr, {| flr_Tpid := tfl_TPid th; flr_Tenant := tfl_Tenant th; flr_ID := tfl_ID th;
              flr_Type := tfr_Type fltr; flr_Element := tfr_Element fltr;
              flr_Values := join_ids (tfr_Values fltr);
              flr_ActivationInterval := interval_text (tfl_ActivationInterval th) |})
  <$> tfl_Filters th.

Definition APItoFilter (tpTH : TPFilterProfile) (timezone : string) : res Filter :=
  rules ← res_map (λ f, let rf := mkFilterRule (tfr_Type f) (tfr_Element f) (tfr_Values f) None in
                        _ ← CompileValues rf; Ok rf) (tfl_Filters tpTH);
  ai ← read_validity (tfl_ActivationInterval tpTH) timezone;
  Ok (mkFilter (tfl_Tenant tpTH) (tfl_ID tpTH) rules ai).

Definition FilterToTPFilter (f : Filter) : TPFilterProfile :=
  {| tfl_TPid := ""; tfl_Tenant := fl_Tenant f; tfl_ID := fl_ID f;
     tfl_Filters := (λ reqFltr, {| tfr_Type := fr_Type reqFltr; tfr_Element := fr_Element reqFltr;
                                   tfr_Values := fr_Values reqFltr |}) <$> fl_Rules f;
     tfl_ActivationInterval :=
       (λ ai, {| tai_ActivationTime := Format_RFC3339 (ai_ActivationTime ai);
                 tai_ExpiryTime := Format_RFC3339 (ai_ExpiryTime ai) |})
       <$> fl_ActivationInterval f |}.
End profiles.
