(* ===== verification/TariffRouting.v ===== *)
(** * Tariff plans: profiles of suppliers, attributes, chargers and dispatchers

    The rows of these profiles, the objects of the API and the profiles of the engine
    ([engine/model_helpers.go], [engine/models.go], [utils/apitpdata.go],
    [engine/libattributes.go], [engine/libchargers.go], [engine/dispatcherprfl.go],
    [engine/suppliers.go]), as in [TariffProfiles].  The values of attributes are compiled
    by the parsers of [RSR].  The hash of a set of filters is a parameter. *)
From S2P Require Import Prelude GoFloat GoStrings GoTime CoreUtils Values RSR Filters Collections TariffProfiles.

Definition StringSet_Sha1 `{GoHash} `{GoRuntime} (s : StringSet) : string :=
  Sha1 (StringSet_AsOrderedSlice s).

(** ** Rows *)

Record TpSupplier := {
  spr_Tpid : string; spr_Tenant : string; spr_ID : string; spr_FilterIDs : string;
  spr_ActivationInterval : string; spr_Sorting : string; spr_SortingParameters : string;
  spr_SupplierID : string; spr_SupplierFilterIDs : string; spr_SupplierAccountIDs : string;
  spr_SupplierRatingplanIDs : string; spr_SupplierResourceIDs : string;
  spr_SupplierStatIDs : string; spr_SupplierWeight : float64; spr_SupplierBlocker : bool;
  spr_SupplierParameters : string; spr_Weight : float64 }.

Record TPAttribute_row := {
  atrr_Tpid : string; atrr_Tenant : string; atrr_ID : string; atrr_Contexts : string;
  atrr_FilterIDs : string; atrr_ActivationInterval : string; atrr_AttributeFilterIDs : string;
  atrr_Path : string; atrr_Type : string; atrr_Value : string; atrr_Blocker : bool;
  atrr_Weight : float64 }.

Record TPCharger := {
  chr_Tpid : string; chr_Tenant : string; chr_ID : string; chr_FilterIDs : string;
  chr_ActivationInterval : string; chr_RunID : string; chr_AttributeIDs : string;
  chr_Weight : float64 }.

Record TPDispatcherProfile_row := {
  dpr_Tpid : string; dpr_Tenant : string; dpr_ID : string; dpr_Subsystems : string;
  dpr_FilterIDs : string; dpr_ActivationInterval : string; dpr_Strategy : string;
  dpr_StrategyParameters : string; dpr_ConnID : string; dpr_ConnFilterIDs : string;
  dpr_ConnWeight : float64; dpr_ConnBlocker : bool; dpr_ConnParameters : string;
  dpr_Weight : float64 }.

Record TPDispatcherHost_row := {
  dhr_Tpid : string; dhr_Tenant : string; dhr_ID : string; dhr_Address : string;
  dhr_Transport : string; dhr_TLS : bool }.

(** ** Objects *)

Record TPSupplier := {
  tsu_ID : string; tsu_FilterIDs : list string; tsu_AccountIDs : list string;
  tsu_RatingPlanIDs : list string; tsu_ResourceIDs : list string; tsu_StatIDs : list string;
  tsu_Weight : float64; tsu_Blocker : bool; tsu_SupplierParameters : string }.

Record TPSupplierProfile := {
  tsp_TPid : string; tsp_Tenant : string; tsp_ID : string; tsp_FilterIDs : list string;
  tsp_ActivationInterval : option TPActivationInterval; tsp_Sorting : string;
  tsp_SortingParameters : list string; tsp_Suppliers : list TPSupplier; tsp_Weight : float64 }.

Record TPAttribute := {
  tpa_FilterIDs : list string; tpa_Path : string; tpa_Type : string; tpa_Value : string }.

Record TPAttributeProfile := {
  tapr_TPid : string; tapr_Tenant : string; tapr_ID : string; tapr_FilterIDs : list string;
  tapr_ActivationInterval : option TPActivationInterval; tapr_Contexts : list string;
  tapr_Attributes : list TPAttribute; tapr_Blocker : bool; tapr_Weight : float64 }.

Record TPChargerProfile := {
  tcp_TPid : string; tcp_Tenant : string; tcp_ID : string; tcp_FilterIDs : list string;
  tcp_ActivationInterval : option TPActivationInterval; tcp_RunID : string;
  tcp_AttributeIDs : list string; tcp_Weight : float64 }.

Record TPDispatcherHostProfile := {
  tdh_ID : string; tdh_FilterIDs : list string; tdh_Weight : float64; tdh_Params : list iface;
  tdh_Blocker : bool }.

Record TPDispatcherProfile := {
  tdp_TPid : string; tdp_Tenant : string; tdp_ID : string; tdp_Subsystems : list string;
  tdp_FilterIDs : list string; tdp_ActivationInterval : option TPActivationInterval;
  tdp_Strategy : string; tdp_StrategyParams : list iface; tdp_Weight : float64;
  tdp_Hosts : list TPDispatcherHostProfile }.

Record TPDispatcherHostConn := {
  tdc_Address : string; tdc_Transport : string; tdc_TLS : bool }.

Record TPDispatcherHost := {
  tdo_TPid : string; tdo_Tenant : string; tdo_ID : string;
  tdo_Conns : list TPDispatcherHostConn }.

(** ** Profiles of the engine *)

Record Supplier := mkSupplier {
  su_ID : string; su_FilterIDs : list string; su_AccountIDs : list string;
  su_RatingPlanIDs : list string; su_ResourceIDs : list string; su_StatIDs : list string;
  su_Weight : float64; su_Blocker : bool; su_SupplierParameters : string;
  su_cacheSupplier : gmap string iface }.

Record SupplierProfile := mkSupplierProfile {
  spp_Tenant : string; spp_ID : string; spp_FilterIDs : list string;
  spp_ActivationInterval : option ActivationInterval; spp_Sorting : string;
  spp_SortingParameters : list string; spp_Suppliers : list Supplier; spp_Weight : float64 }.

Record Attribute := mkAttribute {
  att_FilterIDs : list string; att_Path : string; att_Type : string;
  att_Value : list RSRParser }.

Record AttributeProfile := mkAttributeProfile {
  ap_Tenant : string; ap_ID : string; ap_Contexts : list string; ap_FilterIDs : list string;
  ap_ActivationInterval : option ActivationInterval; ap_Attributes : list Attribute;
  ap_Blocker : bool; ap_Weight : float64 }.

Record ChargerProfile := mkChargerProfile {
  cpp_Tenant : string; cpp_ID : string; cpp_FilterIDs : list string;
  cpp_ActivationInterval : option ActivationInterval; cpp_RunID : string;
  cpp_AttributeIDs : list string; cpp_Weight : float64 }.

Record DispatcherHostProfile := mkDispatcherHostProfile {
  dhp_ID : string; dhp_FilterIDs : list string; dhp_Weight : float64;
  dhp_Params : gmap string iface; dhp_Blocker : bool }.

Record DispatcherProfile := mkDispatcherProfile {
  dpp_Tenant : string; dpp_ID : string; dpp_Subsystems : list string;
  dpp_FilterIDs : list string; dpp_ActivationInterval : option ActivationInterval;
  dpp_Strategy : string; dpp_StrategyParams : gmap string iface; dpp_Weight : float64;
  dpp_Hosts : list DispatcherHostProfile }.

Record RemoteHost := mkRemoteHost {
  rh_Address : string; rh_Transport : string; rh_Synchronous : bool; rh_TLS : bool }.

Record DispatcherHost := mkDispatcherHost {
  dho_Tenant : string; dho_ID : string; dho_Conns : list RemoteHost }.

Definition SupplierProfile_TenantID (sp : SupplierProfile) : string :=
  ConcatenatedKey [spp_Tenant sp; spp_ID sp].
Definition AttributeProfile_TenantID (ap : AttributeProfile) : string :=
  ConcatenatedKey [ap_Tenant ap; ap_ID ap].
Definition ChargerProfile_TenantID (cP : ChargerProfile) : string :=
  ConcatenatedKey [cpp_Tenant cP; cpp_ID cP].
Definition DispatcherProfile_TenantID (dP : DispatcherProfile) : string :=
  ConcatenatedKey [dpp_Tenant dP; dpp_ID dP].
Definition DispatcherHost_TenantID (dH : DispatcherHost) : string :=
  ConcatenatedKey [dho_Tenant dH; dho_ID dH].

Definition SupplierProfiles_Sort `{GoRuntime} (lps : list SupplierProfile)
    : list SupplierProfile := go_sort (λ a b, fgtb (spp_Weight a) (spp_Weight b)) lps.
Definition AttributeProfiles_Sort `{GoRuntime} (aps : list AttributeProfile)
    : list AttributeProfile := go_sort (λ a b, fgtb (ap_Weight a) (ap_Weight b)) aps.
Definition ChargerProfiles_Sort `{GoRuntime} (cps : list ChargerProfile) : list ChargerProfile :=
  go_sort (λ a b, fgtb (cpp_Weight a) (cpp_Weight b)) cps.
Definition DispatcherProfiles_Sort `{GoRuntime} (dps : list DispatcherProfile)
    : list DispatcherProfile := go_sort (λ a b, fgtb (dpp_Weight a) (dpp_Weight b)) dps.

Section routing.
Context `{GoText} `{GoRegexp} `{GoRuntime} `{GoHash}.

(** ** Suppliers *)

(** A list of identifiers in a row, appended to those there are. *)
Definition append_ids (l : list string) (ids : string) : list string :=
  if decide (ids ≠ "") then l ++ Split ids INFIELD_SEP else l.

Definition SupplierSets := gmap string (gmap string TPSupplier).

(** The supplier of a row: rows with the same supplier and the same filters make one. *)
Definition add_supplier (sets : SupplierSets) (key : string) (tp : TpSupplier) : SupplierSets :=
  if decide (spr_SupplierID tp ≠ "") then
    let suppliers := default ∅ (sets !! key) in
    let supID :=
      if decide (spr_SupplierFilterIDs tp ≠ "") then
        ConcatenatedKey [spr_SupplierID tp;
          StringSet_Sha1 (NewStringSet (Split (spr_SupplierFilterIDs tp) INFIELD_SEP))]
      else spr_SupplierID tp in
    let sup := default
      {| tsu_ID := spr_SupplierID tp; tsu_FilterIDs := []; tsu_AccountIDs := [];
         tsu_RatingPlanIDs := []; tsu_ResourceIDs := []; tsu_StatIDs := [];
         tsu_Weight := spr_SupplierWeight tp; tsu_Blocker := spr_SupplierBlocker tp;
         tsu_SupplierParameters := spr_SupplierParameters tp |} (suppliers !! supID) in
    <[key := <[supID :=
      {| tsu_ID := tsu_ID sup;
         tsu_FilterIDs := append_ids (tsu_FilterIDs sup) (spr_SupplierFilterIDs tp);
         tsu_AccountIDs := append_ids (tsu_AccountIDs sup) (spr_SupplierAccountIDs tp);
         tsu_RatingPlanIDs := append_ids (tsu_RatingPlanIDs sup) (spr_SupplierRatingplanIDs tp);
         tsu_ResourceIDs := append_ids (tsu_ResourceIDs sup) (spr_SupplierResourceIDs tp);
         tsu_StatIDs := append_ids (tsu_StatIDs sup) (spr_SupplierStatIDs tp);
         tsu_Weight := tsu_Weight sup; tsu_Blocker := tsu_Blocker sup;
         tsu_SupplierParameters := tsu_SupplierParameters sup |}]> suppliers]> sets
  else sets.

Definition gather_suppliers
    (acc : gmap string TPSupplierProfile * IDSets * SupplierSets * IDSets) (tp : TpSupplier)
    : gmap string TPSupplierProfile * IDSets * SupplierSets * IDSets :=
  let '(mst, filtermap, suppliersMap, sortingParameterMap) := acc in
  let tenID := tenant_key (spr_Tenant tp) (spr_ID tp) in
  let th := default
    {| tsp_TPid := spr_Tpid tp; tsp_Tenant := spr_Tenant tp; tsp_ID := spr_ID tp;
       tsp_FilterIDs := []; tsp_ActivationInterval := None; tsp_Sorting := "";
       tsp_SortingParameters := []; tsp_Suppliers := []; tsp_Weight := f0 |} (mst !! tenID) in
  let th :=
    {| tsp_TPid := tsp_TPid th; tsp_Tenant := tsp_Tenant th; tsp_ID := tsp_ID th;
       tsp_FilterIDs := tsp_FilterIDs th;
       tsp_ActivationInterval :=
         keep_interval (tsp_ActivationInterval th) (spr_ActivationInterval tp);
       tsp_Sorting := keep_text (tsp_Sorting th) (spr_Sorting tp);
       tsp_SortingParameters := tsp_SortingParameters th; tsp_Suppliers := tsp_Suppliers th;
       tsp_Weight := keep_weight (tsp_Weight th) (spr_Weight tp) |} in
  (<[tenID := th]> mst, add_ids filtermap tenID (spr_FilterIDs tp),
   add_supplier suppliersMap tenID tp,
   add_ids sortingParameterMap tenID (spr_SortingParameters tp)).

Definition AsTPSuppliers (tps : list TpSupplier) : list TPSupplierProfile :=
  let '(mst, filtermap, suppliersMap, sortingParameterMap) :=
    foldl gather_suppliers (∅, ∅, ∅, ∅) tps in
  (λ '(tntID, th),
     {| tsp_TPid := tsp_TPid th; tsp_Tenant := tsp_Tenant th; tsp_ID := tsp_ID th;
        tsp_FilterIDs := tsp_FilterIDs th ++ listed_ids filtermap tntID;
        tsp_ActivationInterval := tsp_ActivationInterval th; tsp_Sorting := tsp_Sorting th;
        tsp_SortingParameters :=
          tsp_SortingParameters th ++ listed_ids sortingParameterMap tntID;
        tsp_Suppliers :=
          tsp_Suppliers th ++ (go_range (default ∅ (suppliersMap !! tntID))).*2;
        tsp_Weight := tsp_Weight th |})
  <$> go_range mst.

Definition supplier_row (st : TPSupplierProfile) (lead : bool) (supl : TPSupplier) : TpSupplier :=
  {| spr_Tpid := tsp_TPid st; spr_Tenant := tsp_Tenant st; spr_ID := tsp_ID st;
     spr_FilterIDs := if lead then join_ids (tsp_FilterIDs st) else "";
     spr_ActivationInterval := if lead then interval_text (tsp_ActivationInterval st) else "";
     spr_Sorting := if lead then tsp_Sorting st else "";
     spr_SortingParameters := if lead then join_ids (tsp_SortingParameters st) else "";
     spr_SupplierID := tsu_ID supl; spr_SupplierFilterIDs := join_ids (tsu_FilterIDs supl);
     spr_SupplierAccountIDs := join_ids (tsu_AccountIDs supl);
     spr_SupplierRatingplanIDs := join_ids (tsu_RatingPlanIDs supl);
     spr_SupplierResourceIDs := join_ids (tsu_ResourceIDs supl);
     spr_SupplierStatIDs := join_ids (tsu_StatIDs supl); spr_SupplierWeight := tsu_Weight supl;
     spr_SupplierBlocker := tsu_Blocker supl; spr_SupplierParameters := tsu_SupplierParameters supl;
     spr_Weight := if lead then tsp_Weight st else f0 |}.

(** A profile without suppliers makes no row. *)
Definition APItoModelTPSuppliers (st : TPSupplierProfile) : list TpSupplier :=
  imap (λ i supl, supplier_row st (i =? 0)%nat supl) (tsp_Suppliers st).

Definition APItoSupplierProfile (tpSPP : TPSupplierProfile) (timezone : string)
    : res SupplierProfile :=
  ai ← read_validity (tsp_ActivationInterval tpSPP) timezone;
  Ok (mkSupplierProfile (tsp_Tenant tpSPP) (tsp_ID tpSPP) (tsp_FilterIDs tpSPP) ai
        (tsp_Sorting tpSPP) (tsp_SortingParameters tpSPP)
        ((λ suplier, mkSupplier (tsu_ID suplier) (tsu_FilterIDs suplier) (tsu_AccountIDs suplier)
            (tsu_RatingPlanIDs suplier) (tsu_ResourceIDs suplier) (tsu_StatIDs suplier)
            (tsu_Weight suplier) (tsu_Blocker suplier) (tsu_SupplierParameters suplier) ∅)
           <$> tsp_Suppliers tpSPP)
        (tsp_Weight tpSPP)).

(** ** Attributes *)

Definition gather_attributes (acc : gmap string TPAttributeProfile * IDSets * IDSets)
    (tp : TPAttribute_row) : gmap string TPAttributeProfile * IDSets * IDSets :=
  let '(mst, filterMap, contextMap) := acc in
  let key := tenant_key (atrr_Tenant tp) (atrr_ID tp) in
  let th := default
    {| tapr_TPid := atrr_Tpid tp; tapr_Tenant := atrr_Tenant tp; tapr_ID := atrr_ID tp;
       tapr_FilterIDs := []; tapr_ActivationInterval := None; tapr_Contexts := [];
       tapr_Attributes := []; tapr_Blocker := atrr_Blocker tp; tapr_Weight := f0 |}
    (mst !! key) in
  let th :=
    {| tapr_TPid := tapr_TPid th; tapr_Tenant := tapr_Tenant th; tapr_ID := tapr_ID th;
       tapr_FilterIDs := tapr_FilterIDs th;
       tapr_ActivationInterval :=
         keep_interval (tapr_ActivationInterval th) (atrr_ActivationInterval tp);
       tapr_Contexts := tapr_Contexts th;
       tapr_Attributes := tapr_Attributes th ++
         (if decide (atrr_Path tp ≠ "")
          then [{| tpa_FilterIDs := append_ids [] (atrr_AttributeFilterIDs tp);
                   tpa_Path := atrr_Path tp; tpa_Type := atrr_Type tp;
                   tpa_Value := atrr_Value tp |}] else []);
       tapr_Blocker := tapr_Blocker th;
       tapr_Weight := keep_weight (tapr_Weight th) (atrr_Weight tp) |} in
  (<[key := th]> mst, add_ids filterMap key (atrr_FilterIDs tp),
   add_ids contextMap key (atrr_Contexts tp)).

Definition AsTPAttributes (tps : list TPAttribute_row) : list TPAttributeProfile :=
  let '(mst, filterMap, contextMap) := foldl gather_attributes (∅, ∅, ∅) tps in
  (λ '(tntID, th),
     {| tapr_TPid := tapr_TPid th; tapr_Tenant := tapr_Tenant th; tapr_ID := tapr_ID th;
        tapr_FilterIDs := tapr_FilterIDs th ++ listed_ids filterMap tntID;
        tapr_ActivationInterval := tapr_ActivationInterval th;
        tapr_Contexts := tapr_Contexts th ++ listed_ids contextMap tntID;
        tapr_Attributes := tapr_Attributes th; tapr_Blocker := tapr_Blocker th;
        tapr_Weight := tapr_Weight th |})
  <$> go_range mst.

(** The filters of an attribute are written for the first attribute only. *)
Definition attribute_row (th : TPAttributeProfile) (lead : bool) (reqAttribute : TPAttribute)
    : TPAttribute_row :=
  {| atrr_Tpid := tapr_TPid th; atrr_Tenant := tapr_Tenant th; atrr_ID := tapr_ID th;
     atrr_Contexts := if lead then join_ids (tapr_Contexts th) else "";
     atrr_FilterIDs := if lead then join_ids (tapr_FilterIDs th) else "";
     atrr_ActivationInterval := if lead then interval_text (tapr_ActivationInterval th) else "";
     atrr_AttributeFilterIDs := if lead then join_ids (tpa_FilterIDs reqAttribute) else "";
     atrr_Path := tpa_Path reqAttribute; atrr_Type := tpa_Type reqAttribute;
     atrr_Value := tpa_Value reqAttribute; atrr_Blocker := lead && tapr_Blocker th;
     atrr_Weight := if lead then keep_weight f0 (tapr_Weight th) else f0 |}.

(** A profile without attributes makes no row. *)
Definition APItoModelTPAttribute (th : TPAttributeProfile) : list TPAttribute_row :=
  imap (λ i reqAttribute, attribute_row th (i =? 0)%nat reqAttribute) (tapr_Attributes th).

Definition APItoAttributeProfile (rsrSep : string) (tpAttr : TPAttributeProfile)
    (timezone : string) : res AttributeProfile :=
  attrs ← res_map (λ reqAttr,
    sbstPrsr ← NewRSRParsers (tpa_Value reqAttr) true rsrSep;
    Ok (mkAttribute (tpa_FilterIDs reqAttr) (tpa_Path reqAttr) (tpa_Type reqAttr) sbstPrsr))
    (tapr_Attributes tpAttr);
  ai ← read_validity (tapr_ActivationInterval tpAttr) timezone;
  Ok (mkAttributeProfile (tapr_Tenant tpAttr) (tapr_ID tpAttr) (tapr_Contexts tpAttr)
        (tapr_FilterIDs tpAttr) ai attrs (tapr_Blocker tpAttr) (tapr_Weight tpAttr)).

(** ** Chargers *)

Definition gather_chargers (acc : gmap string TPChargerProfile * IDSets * IDSets)
    (tp : TPCharger) : gmap string TPChargerProfile * IDSets * IDSets :=
  let '(mst, filterMap, attributeMap) := acc in
  let key := tenant_key (chr_Tenant tp) (chr_ID tp) in
  let tpCPP := default
    {| tcp_TPid := chr_Tpid tp; tcp_Tenant := chr_Tenant tp; tcp_ID := chr_ID tp;
       tcp_FilterIDs := []; tcp_ActivationInterval := None; tcp_RunID := "";
       tcp_AttributeIDs := []; tcp_Weight := f0 |} (mst !! key) in
  let tpCPP :=
    {| tcp_TPid := tcp_TPid tpCPP; tcp_Tenant := tcp_Tenant tpCPP; tcp_ID := tcp_ID tpCPP;
       tcp_FilterIDs := tcp_FilterIDs tpCPP;
       tcp_ActivationInterval :=
         keep_interval (tcp_ActivationInterval tpCPP) (chr_ActivationInterval tp);
       tcp_RunID := keep_text (tcp_RunID tpCPP) (chr_RunID tp);
       tcp_AttributeIDs := tcp_AttributeIDs tpCPP;
       tcp_Weight := keep_weight (tcp_Weight tpCPP) (chr_Weight tp) |} in
  (<[key := tpCPP]> mst, add_ids filterMap key (chr_FilterIDs tp),
   add_ids attributeMap key (chr_AttributeIDs tp)).

Definition AsTPChargers (tps : list TPCharger) : list TPChargerProfile :=
  let '(mst, filterMap, attributeMap) := foldl gather_chargers (∅, ∅, ∅) tps in
  (λ '(tntID, tp),
     {| tcp_TPid := tcp_TPid tp; tcp_Tenant := tcp_Tenant tp; tcp_ID := tcp_ID tp;
        tcp_FilterIDs := tcp_FilterIDs tp ++ listed_ids filterMap tntID;
        tcp_ActivationInterval := tcp_ActivationInterval tp; tcp_RunID := tcp_RunID tp;
        tcp_AttributeIDs := tcp_AttributeIDs tp ++ listed_ids attributeMap tntID;
        tcp_Weight := tcp_Weight tp |})
  <$> go_range mst.

Definition charger_row (tpCPP : TPChargerProfile) (lead : bool) (filter attribute : string)
    : TPCharger :=
  {| chr_Tpid := tcp_TPid tpCPP; chr_Tenant := tcp_Tenant tpCPP; chr_ID := tcp_ID tpCPP;
     chr_FilterIDs := filter;
     chr_ActivationInterval := if lead then interval_text (tcp_ActivationInterval tpCPP) else "";
     chr_RunID := if lead then tcp_RunID tpCPP else ""; chr_AttributeIDs := attribute;
     chr_Weight := if lead then tcp_Weight tpCPP else f0 |}.

(** Filters and attributes side by side, at least one row, then what is left of either. *)
Definition APItoModelTPCharger (tpCPP : option TPChargerProfile) : list TPCharger :=
  match tpCPP with
  | None => []
  | Some tpCPP =>
      let filters := tcp_FilterIDs tpCPP in
      let attributes := tcp_AttributeIDs tpCPP in
      let isFilter := (length filters <=? length attributes)%nat in
      let min := Nat.min (length filters) (length attributes) in
      let '(head, min) :=
        if decide (min = 0)%nat then
          ([if isFilter && (0 <? length attributes)%nat
            then charger_row tpCPP true "" (default "" (attributes !! 0%nat))
            else charger_row tpCPP true (default "" (filters !! 0%nat)) ""], 1%nat)
        else
          (imap (λ i fa, charger_row tpCPP (i =? 0)%nat fa.1 fa.2) (zip filters attributes), min) in
      head ++ ((λ f, charger_row tpCPP false f "") <$> drop min filters)
           ++ ((λ a, charger_row tpCPP false "" a) <$> drop min attributes)
  end.

Definition APItoChargerProfile (tpCPP : TPChargerProfile) (timezone : string)
    : res ChargerProfile :=
  ai ← read_validity (tcp_ActivationInterval tpCPP) timezone;
  Ok (mkChargerProfile (tcp_Tenant tpCPP) (tcp_ID tpCPP) (tcp_FilterIDs tpCPP) ai
        (tcp_RunID tpCPP) (tcp_AttributeIDs tpCPP) (tcp_Weight tpCPP)).

(** ** Dispatchers *)

Definition HostSets := gmap string (gmap string TPDispatcherHostProfile).
Definition HostFilters := gmap string (gmap string (gmap string bool)).

Definition add_host (sets : HostSets) (key : string) (tp : TPDispatcherProfile_row) : HostSets :=
  let conns := default ∅ (sets !! key) in
  let conn := default
    {| tdh_ID := dpr_ConnID tp; tdh_FilterIDs := []; tdh_Weight := dpr_ConnWeight tp;
       tdh_Params := []; tdh_Blocker := dpr_ConnBlocker tp |} (conns !! dpr_ConnID tp) in
  <[key := <[dpr_ConnID tp :=
    {| tdh_ID := tdh_ID conn; tdh_FilterIDs := tdh_FilterIDs conn; tdh_Weight := tdh_Weight conn;
       tdh_Params := tdh_Params conn ++ (IString <$> Split (dpr_ConnParameters tp) INFIELD_SEP);
       tdh_Blocker := tdh_Blocker conn |}]> conns]> sets.

Definition add_host_filters (sets : HostFilters) (key : string) (tp : TPDispatcherProfile_row)
    : HostFilters :=
  let dFilter := default ∅ (sets !! key) in
  <[key := <[dpr_ConnID tp :=
      foldl (λ set filter, <[filter := true]> set) (default ∅ (dFilter !! dpr_ConnID tp))
        (Split (dpr_ConnFilterIDs tp) INFIELD_SEP)]> dFilter]> sets.

Definition gather_dispatchers
    (acc : gmap string TPDispatcherProfile * IDSets * IDSets * HostSets * HostFilters)
    (tp : TPDispatcherProfile_row)
    : gmap string TPDispatcherProfile * IDSets * IDSets * HostSets * HostFilters :=
  let '(mst, filterMap, contextMap, connsMap, connsFilterMap) := acc in
  let tenantID := tenant_key (dpr_Tenant tp) (dpr_ID tp) in
  let tpDPP := default
    {| tdp_TPid := dpr_Tpid tp; tdp_Tenant := dpr_Tenant tp; tdp_ID := dpr_ID tp;
       tdp_Subsystems := []; tdp_FilterIDs := []; tdp_ActivationInterval := None;
       tdp_Strategy := ""; tdp_StrategyParams := []; tdp_Weight := f0; tdp_Hosts := [] |}
    (mst !! tenantID) in
  let tpDPP :=
    {| tdp_TPid := tdp_TPid tpDPP; tdp_Tenant := tdp_Tenant tpDPP; tdp_ID := tdp_ID tpDPP;
       tdp_Subsystems := tdp_Subsystems tpDPP; tdp_FilterIDs := tdp_FilterIDs tpDPP;
       tdp_ActivationInterval :=
         keep_interval (tdp_ActivationInterval tpDPP) (dpr_ActivationInterval tp);
       tdp_Strategy := keep_text (tdp_Strategy tpDPP) (dpr_Strategy tp);
       tdp_StrategyParams := tdp_StrategyParams tpDPP ++
         (if decide (dpr_StrategyParameters tp ≠ "")
          then IString <$> Split (dpr_StrategyParameters tp) INFIELD_SEP else []);
       tdp_Weight := keep_weight (tdp_Weight tpDPP) (dpr_Weight tp);
       tdp_Hosts := tdp_Hosts tpDPP |} in
  let '(connsMap, connsFilterMap) :=
    if decide (dpr_ConnID tp ≠ "")
    then (add_host connsMap tenantID tp, add_host_filters connsFilterMap tenantID tp)
    else (connsMap, connsFilterMap) in
  (<[tenantID := tpDPP]> mst, add_ids filterMap tenantID (dpr_FilterIDs tp),
   add_ids contextMap tenantID (dpr_Subsystems tp), connsMap, connsFilterMap).

(** Blank identifiers are left out. *)
Definition not_blank (ids : list string) : list string := filter (λ id, id ≠ "") ids.

Definition AsTPDispatcherProfiles (tps : list TPDispatcherProfile_row)
    : list TPDispatcherProfile :=
  let '(mst, filterMap, contextMap, connsMap, connsFilterMap) :=
    foldl gather_dispatchers (∅, ∅, ∅, ∅, ∅) tps in
  (λ '(tntID, tp),
     {| tdp_TPid := tdp_TPid tp; tdp_Tenant := tdp_Tenant tp; tdp_ID := tdp_ID tp;
        tdp_Subsystems := tdp_Subsystems tp ++ not_blank (listed_ids contextMap tntID);
        tdp_FilterIDs := tdp_FilterIDs tp ++ not_blank (listed_ids filterMap tntID);
        tdp_ActivationInterval := tdp_ActivationInterval tp; tdp_Strategy := tdp_Strategy tp;
        tdp_StrategyParams := tdp_StrategyParams tp; tdp_Weight := tdp_Weight tp;
        tdp_Hosts := tdp_Hosts tp ++
          ((λ '(conID, conn),
              {| tdh_ID := tdh_ID conn;
                 tdh_FilterIDs := tdh_FilterIDs conn ++
                   not_blank (listed_ids (default ∅ (connsFilterMap !! tntID)) conID);
                 tdh_Weight := tdh_Weight conn; tdh_Params := tdh_Params conn;
                 tdh_Blocker := tdh_Blocker conn |})
           <$> go_range (default ∅ (connsMap !! tntID))) |})
  <$> go_range mst.

(** A parameter that is not a text panics. *)
Definition text_of (param : iface) : res string :=
  match param with IString s => Ok s | _ => Panic end.
Definition paramsToString (sp : list iface) : res string :=
  texts ← res_map text_of sp; Ok (Join texts INFIELD_SEP).

(** The first row carries the fields of the profile, each row a host when there is one. *)
Definition dispatcher_row (tpDPP : TPDispatcherProfile) (lead : bool)
    (host : option TPDispatcherHostProfile) : res TPDispatcherProfile_row :=
  strategy ← paramsToString (tdp_StrategyParams tpDPP);
  conparam ← match host with Some h => paramsToString (tdh_Params h) | None => Ok "" end;
  Ok {| dpr_Tpid := tdp_TPid tpDPP; dpr_Tenant := tdp_Tenant tpDPP; dpr_ID := tdp_ID tpDPP;
        dpr_Subsystems := if lead then Join (tdp_Subsystems tpDPP) INFIELD_SEP else "";
        dpr_FilterIDs := if lead then Join (tdp_FilterIDs tpDPP) INFIELD_SEP else "";
        dpr_ActivationInterval :=
          if lead then interval_text (tdp_ActivationInterval tpDPP) else "";
        dpr_Strategy := if lead then tdp_Strategy tpDPP else "";
        dpr_StrategyParameters := if lead then strategy else "";
        dpr_ConnID := from_option tdh_ID "" host;
        dpr_ConnFilterIDs := from_option (λ h, Join (tdh_FilterIDs h) INFIELD_SEP) "" host;
        dpr_ConnWeight := from_option tdh_Weight f0 host;
        dpr_ConnBlocker := from_option tdh_Blocker false host; dpr_ConnParameters := conparam;
        dpr_Weight := if lead then tdp_Weight tpDPP else f0 |}.

Definition APItoModelTPDispatcherProfile (tpDPP : option TPDispatcherProfile)
    : res (list TPDispatcherProfile_row) :=
  match tpDPP with
  | None => Ok []
  | Some tpDPP =>
      match tdp_Hosts tpDPP with
      | [] => row ← dispatcher_row tpDPP true None; Ok [row]
      | host :: hosts =>
          row ← dispatcher_row tpDPP true (Some host);
          rows ← res_map (λ h, dispatcher_row tpDPP false (Some h)) hosts;
          Ok (row :: rows)
      end
  end.

(** [strings.SplitN] with two parts. *)
Definition SplitN2 (s sep : string) : list string :=
  match Split s sep with
  | [] => []
  | [x] => [x]
  | h :: t => [h; Join t sep]
  end.

Definition is_blank (param : iface) : bool :=
  match param with IString s => bool_decide (s = "") | _ => false end.

(** A parameter with a colon is named by what is before it, another by its position; blank
    ones are left out. *)
Definition host_params (params : list iface) : gmap string iface :=
  foldl (λ m '(j, param),
    if is_blank param then m
    else match SplitN2 (IfaceAsString param) CONCATENATED_KEY_SEP with
         | [p; v] => <[p := IString v]> m
         | p :: _ => <[Itoa j := IString p]> m
         | [] => m
         end) ∅ (imap (λ j param, (Z.of_nat j, param)) params).

Definition strategy_params (params : list iface) : gmap string iface :=
  foldl (λ m '(i, param), if is_blank param then m else <[Itoa i := param]> m) ∅
    (imap (λ i param, (Z.of_nat i, param)) params).

Definition APItoDispatcherProfile (tpDPP : TPDispatcherProfile) (timezone : string)
    : res DispatcherProfile :=
  ai ← read_validity (tdp_ActivationInterval tpDPP) timezone;
  Ok (mkDispatcherProfile (tdp_Tenant tpDPP) (tdp_ID tpDPP) (tdp_Subsystems tpDPP)
        (tdp_FilterIDs tpDPP) ai (tdp_Strategy tpDPP) (strategy_params (tdp_StrategyParams tpDPP))
        (tdp_Weight tpDPP)
        ((λ conn, mkDispatcherHostProfile (tdh_ID conn) (tdh_FilterIDs conn) (tdh_Weight conn)
                    (host_params (tdh_Params conn)) (tdh_Blocker conn)) <$> tdp_Hosts tpDPP)).

(** Rows without an address are passed over; a blank transport is JSON. *)
Definition gather_hosts (hostsMap : gmap string TPDispatcherHost) (tp : TPDispatcherHost_row)
    : gmap string TPDispatcherHost :=
  if decide (slen (dhr_Address tp) = 0) then hostsMap
  else
    let transport := if decide (slen (dhr_Transport tp) = 0) then "*json" else dhr_Transport tp in
    let conn := {| tdc_Address := dhr_Address tp; tdc_Transport := transport;
                   tdc_TLS := dhr_TLS tp |} in
    let tenantID := ConcatenatedKey [dhr_Tenant tp; dhr_ID tp] in
    match hostsMap !! tenantID with
    | None =>
        <[tenantID := {| tdo_TPid := dhr_Tpid tp; tdo_Tenant := dhr_Tenant tp;
                         tdo_ID := dhr_ID tp; tdo_Conns := [conn] |}]> hostsMap
    | Some h =>
        <[tenantID := {| tdo_TPid := tdo_TPid h; tdo_Tenant := tdo_Tenant h; tdo_ID := tdo_ID h;
                         tdo_Conns := tdo_Conns h ++ [conn] |}]> hostsMap
    end.

Definition AsTPDispatcherHosts (tps : list TPDispatcherHost_row) : list TPDispatcherHost :=
  (go_range (foldl gather_hosts ∅ tps)).*2.

Definition APItoModelTPDispatcherHost (tpDPH : option TPDispatcherHost)
    : list TPDispatcherHost_row :=
  match tpDPH with
  | None => []
  | Some h =>
      (λ conn, {| dhr_Tpid := tdo_TPid h; dhr_Tenant := tdo_Tenant h; dhr_ID := tdo_ID h;
                  dhr_Address := tdc_Address conn; dhr_Transport := tdc_Transport conn;
                  dhr_TLS := tdc_TLS conn |}) <$> tdo_Conns h
  end.

Definition APItoDispatcherHost (tpDPH : option TPDispatcherHost) : option DispatcherHost :=
  (λ h, mkDispatcherHost (tdo_Tenant h) (tdo_ID h)
          ((λ conn, mkRemoteHost (tdc_Address conn) (tdc_Transport conn) false (tdc_TLS conn))
             <$> tdo_Conns h)) <$> tpDPH.
End routing.
