(* ===== verification/TariffRoundtrips.v ===== *)
(** * Profiles and their rows

    What of a profile survives being stored as rows of a tariff plan: resources and
    chargers come back with their lists in another order, thresholds only when they have
    actions, and of the attributes only the first keeps its filters. *)
From S2P Require Import Prelude GoFloat GoStrings GoTime CoreUtils Values RSR Filters TariffProfiles TariffRouting.

(** ** Identifiers joined by semicolons *)

Definition plain_id (p : string) : Prop := p ≠ "" ∧ has_char ";" p = false.
(** Identifiers that a row can hold. *)
Definition plain_ids (l : list string) : Prop := NoDup l ∧ Forall plain_id l.

Lemma join_loop_spec i vals text : (0 < i)%nat →
  join_loop i vals text =
  match vals with [] => text | _ => text +:+ INFIELD_SEP +:+ Join vals INFIELD_SEP end.
Proof.
  revert i text. induction vals as [|v vals IH]; intros i text Hi; [done|]. cbn [join_loop].
  rewrite decide_True by lia. rewrite IH by lia.
  destruct vals as [|w vals]; [by rewrite Join_single, sapp_assoc|].
  rewrite (Join_cons _ v) by done. by rewrite !sapp_assoc.
Qed.

Lemma join_ids_Join vals : join_ids vals = Join vals INFIELD_SEP.
Proof.
  unfold join_ids. destruct vals as [|v vals]; [done|]. simpl. rewrite join_loop_spec by lia.
  destruct vals as [|w vals]; [done|]. by rewrite (Join_cons _ v).
Qed.

Lemma Join_plain_nonempty v vals : plain_id v → Join (v :: vals) INFIELD_SEP ≠ "".
Proof.
  intros [Hv _]. destruct vals as [|w vals]; [done|]. rewrite Join_cons by done.
  by destruct v.
Qed.

Lemma Split_join_ids vals : vals ≠ [] → Forall plain_id vals →
  Split (join_ids vals) INFIELD_SEP = vals.
Proof.
  intros Hne Hv. rewrite join_ids_Join. apply (Split_Join ";"); [done|].
  eapply Forall_impl; [exact Hv|]. by intros x [_ ?].
Qed.

(** ** Sets of identifiers *)

Definition set_of (l : list string) (s : gmap string bool) : gmap string bool :=
  foldl (λ set id, <[id := true]> set) s l.

Lemma add_ids_blank sets key : add_ids sets key "" = sets.
Proof. done. Qed.

Lemma add_ids_join sets key l : Forall plain_id l →
  add_ids sets key (join_ids l) =
  match l with [] => sets | _ => <[key := set_of l (default ∅ (sets !! key))]> sets end.
Proof.
  intros Hl. destruct l as [|v l]; [done|]. unfold add_ids.
  rewrite decide_True; [by rewrite Split_join_ids|].
  rewrite join_ids_Join. apply Join_plain_nonempty. by apply Forall_cons in Hl as [? _].
Qed.

Lemma add_ids_one sets key f : plain_id f →
  add_ids sets key f = <[key := set_of [f] (default ∅ (sets !! key))]> sets.
Proof.
  intros Hf. pose proof (add_ids_join sets key [f]) as E. rewrite join_ids_Join in E.
  apply E. by apply Forall_singleton.
Qed.

(** One identifier a row. *)
Lemma add_ids_each key fs sets : Forall plain_id fs →
  foldl (λ s f, add_ids s key f) sets fs =
  match fs with [] => sets | _ => <[key := set_of fs (default ∅ (sets !! key))]> sets end.
Proof.
  intros Hf. revert sets. induction Hf as [|f fs Hf Hfs IH]; intros sets; [done|]. simpl.
  rewrite IH, add_ids_one by done. destruct fs as [|g fs]; [done|].
  unfold IDSets in *. by rewrite lookup_insert_eq, insert_insert_eq.
Qed.

Section listed.
Context `{GoRuntime}.

Lemma set_of_keys l s : NoDup l → Forall (λ id, s !! id = None) l →
  (map_to_list (set_of l s)).*1 ≡ₚ l ++ (map_to_list s).*1.
Proof.
  intros Hnd. revert s. induction Hnd as [|x l Hx Hl IH]; intros s Hs; [done|].
  apply Forall_cons in Hs as [Hsx Hs]. simpl. rewrite IH.
  - rewrite map_to_list_insert by done. simpl. by rewrite Permutation_middle.
  - apply Forall_forall. intros y Hy. rewrite lookup_insert_ne by (by intros ->).
    rewrite Forall_forall in Hs. by apply Hs.
Qed.

(** What was gathered is listed again, in some order. *)
Lemma listed_set_of key l : NoDup l →
  listed_ids (match l with
              | [] => ∅
              | _ => <[key := set_of l (default ∅ ((∅ : IDSets) !! key))]> ∅
              end) key ≡ₚ l.
Proof.
  intros Hnd. unfold listed_ids, IDSets in *. rewrite lookup_empty.
  destruct l as [|x l]; [rewrite lookup_empty; simpl; by rewrite go_range_empty|].
  rewrite lookup_insert_eq. change (default ∅ None) with (∅ : gmap string bool).
  change (default ∅ (Some ?s)) with s. rewrite go_range_perm, set_of_keys; [|done|].
  2: { apply Forall_forall. intros y _. apply lookup_empty. }
  by rewrite (map_to_list_empty (M := gmap string)), app_nil_r.
Qed.
End listed.

(** ** Validity and weight *)

Definition interval_ok (ai : option TPActivationInterval) : Prop :=
  match ai with
  | None => True
  | Some ai => has_char ";" (tai_ActivationTime ai) = false ∧
               has_char ";" (tai_ExpiryTime ai) = false ∧
               (tai_ActivationTime ai ≠ "" ∨ tai_ExpiryTime ai ≠ "")
  end.

Lemma keep_interval_text ai : interval_ok ai → keep_interval None (interval_text ai) = ai.
Proof.
  destruct ai as [[a e]|]; [|done]. intros (Ha & He & Hne). simpl in *.
  assert (slen (interval_text (Some {| tai_ActivationTime := a; tai_ExpiryTime := e |})) ≠ 0
    ∧ read_interval (interval_text (Some {| tai_ActivationTime := a; tai_ExpiryTime := e |})) =
      {| tai_ActivationTime := a; tai_ExpiryTime := e |}) as [Hl Hr].
  2: { unfold keep_interval. rewrite (decide_True _ _ Hl). by f_equal. }
  unfold interval_text, read_interval. simpl. destruct (decide (e = "")) as [->|He'].
  - destruct Hne as [Hne|]; [|done]. rewrite !(decide_True _ _ Hne). simpl.
    split; [by destruct a|]. unfold INFIELD_SEP.
    pose proof (Split_Join ";" [a] ltac:(done)) as Hs. rewrite Join_single in Hs.
    rewrite Hs; [done|]. by apply Forall_singleton.
  - rewrite (decide_True _ _ He').
    assert ((if decide (a ≠ "") then a else "") = a) as ->.
    { destruct (decide (a ≠ "")) as [|Ha']; [done|]. by apply dec_stable in Ha' as ->. }
    split; [rewrite !slen_app; unfold slen; simpl; lia|].
    pose proof (Split_Join ";" [a; e] ltac:(done)) as Hs. rewrite Join_cons, Join_single in Hs by done.
    change (String ";" "" +:+ e) with (String ";" e) in Hs. unfold INFIELD_SEP.
    rewrite Hs; [done|]. by repeat constructor.
Qed.

(** Minus zero is read back as zero. *)
Definition weight_ok (w : float64) : Prop := feqb w f0 = true → w = f0.

Lemma keep_weight_ok w : weight_ok w → keep_weight f0 w = w.
Proof. unfold keep_weight, weight_ok. destruct (feqb w f0); [|done]. intros Hw. by rewrite Hw. Qed.

Lemma keep_weight_blank w : keep_weight w f0 = w.
Proof. done. Qed.
Lemma keep_text_new s : keep_text "" s = s.
Proof. unfold keep_text. by destruct (decide (s = "")) as [->|]. Qed.

Section roundtrips.
Context `{GoRuntime}.

(** ** Resources *)

(** What a profile is when it comes back, with the lists as they come. *)
Definition resource_with (rl : TPResourceProfile) (filters thresholds : list string)
    : TPResourceProfile :=
  {| trs_TPid := trs_TPid rl; trs_Tenant := trs_Tenant rl; trs_ID := trs_ID rl;
     trs_FilterIDs := filters; trs_ActivationInterval := trs_ActivationInterval rl;
     trs_UsageTTL := trs_UsageTTL rl; trs_Limit := trs_Limit rl;
     trs_AllocationMessage := trs_AllocationMessage rl; trs_Blocker := trs_Blocker rl;
     trs_Stored := trs_Stored rl; trs_Weight := trs_Weight rl; trs_ThresholdIDs := thresholds |}.

Definition trs_key (rl : TPResourceProfile) : string := tenant_key (trs_Tenant rl) (trs_ID rl).

Lemma gather_resource_lead rl f :
  interval_ok (trs_ActivationInterval rl) → weight_ok (trs_Weight rl) →
  gather_resource (∅, ∅, ∅) (resource_row rl true f) =
    ({[trs_key rl := resource_with rl [] []]}, add_ids ∅ (trs_key rl) f,
     add_ids ∅ (trs_key rl) (join_ids (trs_ThresholdIDs rl))).
Proof.
  intros Hai Hw. unfold gather_resource. simpl. rewrite lookup_empty. simpl.
  by rewrite keep_interval_text, keep_weight_ok, !keep_text_new by done.
Qed.

Lemma gather_resource_rest rl fs F T :
  foldl gather_resource ({[trs_key rl := resource_with rl [] []]}, F, T)
    (resource_row rl false <$> fs) =
  ({[trs_key rl := resource_with rl [] []]}, foldl (λ s f, add_ids s (trs_key rl) f) F fs, T).
Proof.
  revert F. induction fs as [|f fs IH]; intros F; [done|]. simpl. rewrite <- IH. f_equal.
  unfold gather_resource. simpl. fold (trs_key rl). rewrite lookup_singleton_eq. simpl.
  by rewrite insert_singleton_eq.
Qed.

Lemma imap_lead {A B} (g : bool → A → B) (f : A) (fs : list A) :
  imap (λ i x, g (i =? 0)%nat x) (f :: fs) = g true f :: (g false <$> fs).
Proof.
  simpl. f_equal. unfold compose. simpl.
  induction fs as [|x fs IH] using rev_ind; [done|]. by rewrite imap_app, fmap_app, IH.
Qed.

Lemma resource_rows rl :
  APItoModelResource (Some rl) =
  match trs_FilterIDs rl with
  | [] => [resource_row rl true ""]
  | f :: fs => resource_row rl true f :: (resource_row rl false <$> fs)
  end.
Proof.
  unfold APItoModelResource. destruct (trs_FilterIDs rl) as [|f fs]; [done|].
  apply (imap_lead (resource_row rl)).
Qed.

(** A resource profile survives its rows.  With distinct, non-blank identifiers without
    semicolons, a validity that is not blank and a weight that is not minus zero, the rows
    of a profile gather into that one profile, its filters and thresholds in the order the
    runtime lists them. *)
Theorem resource_rows_roundtrip rl :
  plain_ids (trs_FilterIDs rl) → plain_ids (trs_ThresholdIDs rl) →
  interval_ok (trs_ActivationInterval rl) → weight_ok (trs_Weight rl) →
  ∃ filters thresholds,
    AsTPResources (APItoModelResource (Some rl)) = [resource_with rl filters thresholds] ∧
    filters ≡ₚ trs_FilterIDs rl ∧ thresholds ≡ₚ trs_ThresholdIDs rl.
Proof.
  intros [Hfn Hf] [Htn Ht] Hai Hw.
  assert (foldl gather_resource (∅, ∅, ∅) (APItoModelResource (Some rl)) =
    ({[trs_key rl := resource_with rl [] []]},
     foldl (λ s f, add_ids s (trs_key rl) f) ∅ (trs_FilterIDs rl),
     add_ids ∅ (trs_key rl) (join_ids (trs_ThresholdIDs rl)))) as E.
  { rewrite resource_rows. destruct (trs_FilterIDs rl) as [|f fs]; cbn [foldl];
      rewrite gather_resource_lead by done; [done|apply gather_resource_rest]. }
  unfold AsTPResources. rewrite E, go_range_singleton. do 2 eexists. split; [done|].
  rewrite add_ids_each, add_ids_join by done. split; by apply listed_set_of.
Qed.

(** ** Two lists side by side, the shorter one filled with blanks *)

Fixpoint pad (l1 l2 : list string) : list (string * string) :=
  match l1, l2 with
  | x :: l1', y :: l2' => (x, y) :: pad l1' l2'
  | [], _ => pair "" <$> l2
  | _, [] => (λ x, (x, "")) <$> l1
  end.

Lemma pad_zip l1 l2 :
  pad l1 l2 = zip l1 l2 ++ ((λ x, (x, "")) <$> drop (Nat.min (length l1) (length l2)) l1)
                        ++ (pair "" <$> drop (Nat.min (length l1) (length l2)) l2).
Proof.
  revert l2. induction l1 as [|x l1 IH]; intros [|y l2]; simpl; [done..| |by rewrite IH].
  by rewrite app_nil_r.
Qed.

Lemma pad_nil l1 l2 : pad l1 l2 = [] ↔ l1 = [] ∧ l2 = [].
Proof. by destruct l1, l2; simpl; split; try done; intros []. Qed.

Lemma not_blank_plain l : Forall plain_id l → not_blank l = l.
Proof. intros Hl. apply filter_all. eapply Forall_impl; [exact Hl|]. by intros x []. Qed.

Lemma not_blank_blanks {A} (l : list A) : not_blank ((λ _, "") <$> l) = [].
Proof. apply filter_none, Forall_fmap, Forall_forall. by intros x _ []. Qed.

Lemma pad_nil_l l2 : pad [] l2 = pair "" <$> l2.
Proof. done. Qed.
Lemma pad_nil_r l1 : pad l1 [] = (λ x, (x, "")) <$> l1.
Proof. by destruct l1. Qed.

Lemma pad_fst l1 l2 : Forall plain_id l1 → not_blank (pad l1 l2).*1 = l1.
Proof.
  intros H1. revert l2. induction H1 as [|x l1 Hx H1 IH]; intros [|y l2].
  - done.
  - rewrite pad_nil_l, <- list_fmap_compose. apply (not_blank_blanks (y :: l2)).
  - rewrite pad_nil_r, <- list_fmap_compose, list_fmap_id. by apply not_blank_plain, Forall_cons.
  - cbn [pad]. rewrite fmap_cons. unfold not_blank.
    rewrite filter_cons_True by apply Hx. f_equal. apply IH.
Qed.

Lemma pad_snd l1 l2 : Forall plain_id l2 → not_blank (pad l1 l2).*2 = l2.
Proof.
  intros H2. revert l1. induction H2 as [|y l2 Hy H2 IH]; intros [|x l1].
  - done.
  - rewrite pad_nil_r, <- list_fmap_compose. apply (not_blank_blanks (x :: l1)).
  - rewrite pad_nil_l, <- list_fmap_compose, list_fmap_id. by apply not_blank_plain, Forall_cons.
  - cbn [pad]. rewrite fmap_cons. unfold not_blank.
    rewrite filter_cons_True by apply Hy. f_equal. apply IH.
Qed.

Lemma add_ids_not_blank key fs sets :
  foldl (λ s f, add_ids s key f) sets fs = foldl (λ s f, add_ids s key f) sets (not_blank fs).
Proof.
  revert sets. induction fs as [|f fs IH]; intros sets; [done|]. unfold not_blank in *. simpl.
  destruct (decide (f = "")) as [->|Hf].
  - rewrite filter_cons_False by (intros []; done). apply IH.
  - rewrite filter_cons_True by done. apply IH.
Qed.

(** The sets that gathering the rows of two lists side by side makes. *)
Lemma padded_sets key l1 l2 : plain_ids l1 → plain_ids l2 →
  listed_ids (foldl (λ s f, add_ids s key f) ∅ (pad l1 l2).*1) key ≡ₚ l1 ∧
  listed_ids (foldl (λ s f, add_ids s key f) ∅ (pad l1 l2).*2) key ≡ₚ l2.
Proof.
  intros [Hn1 H1] [Hn2 H2].
  rewrite (add_ids_not_blank _ (pad l1 l2).*1), (add_ids_not_blank _ (pad l1 l2).*2).
  rewrite pad_fst, pad_snd, !add_ids_each by done. split; by apply listed_set_of.
Qed.

(** Rows made side by side, the first one marked. *)
Lemma rows_side_by_side {R} (g : bool → string → string → R) x l1 y l2 :
  let min := Nat.min (length (x :: l1)) (length (y :: l2)) in
  imap (λ i fa, g (i =? 0)%nat fa.1 fa.2) (zip (x :: l1) (y :: l2))
  ++ ((λ f, g false f "") <$> drop min (x :: l1)) ++ ((λ a, g false "" a) <$> drop min (y :: l2))
  = g true x y :: ((λ fa, g false fa.1 fa.2) <$> pad l1 l2).
Proof.
  cbv zeta. change (zip (x :: l1) (y :: l2)) with ((x, y) :: zip l1 l2).
  rewrite (imap_lead (λ lead fa, g lead fa.1 fa.2)). rewrite pad_zip, !fmap_app, <- !list_fmap_compose.
  done.
Qed.

(** ** Chargers *)

Definition charger_with (p : TPChargerProfile) (filters attributes : list string)
    : TPChargerProfile :=
  {| tcp_TPid := tcp_TPid p; tcp_Tenant := tcp_Tenant p; tcp_ID := tcp_ID p;
     tcp_FilterIDs := filters; tcp_ActivationInterval := tcp_ActivationInterval p;
     tcp_RunID := tcp_RunID p; tcp_AttributeIDs := attributes; tcp_Weight := tcp_Weight p |}.

Definition tcp_key (p : TPChargerProfile) : string := tenant_key (tcp_Tenant p) (tcp_ID p).

(** The rows: the first carries the profile, and there is always one. *)
Lemma charger_rows p :
  ∃ fa rest, APItoModelTPCharger (Some p) =
    charger_row p true fa.1 fa.2 :: ((λ fa, charger_row p false fa.1 fa.2) <$> rest) ∧
    match pad (tcp_FilterIDs p) (tcp_AttributeIDs p) with
    | [] => fa = ("", "") ∧ rest = []
    | l => fa :: rest = l
    end.
Proof.
  unfold APItoModelTPCharger.
  destruct (tcp_FilterIDs p) as [|f fs], (tcp_AttributeIDs p) as [|a l].
  - by exists ("", ""), [].
  - exists ("", a), (pair "" <$> l). split; [|done]. rewrite <- list_fmap_compose. done.
  - exists (f, ""), ((λ x, (x, "")) <$> fs). split; [|done]. rewrite <- list_fmap_compose.
    change (charger_row p true f "" :: (((λ f, charger_row p false f "") <$> fs) ++ []) = 
      charger_row p true f "" :: ((λ f, charger_row p false f "") <$> fs)).
    by rewrite app_nil_r.
  - exists (f, a), (pad fs l). split; [|done]. apply (rows_side_by_side (charger_row p)).
Qed.

Lemma gather_chargers_lead p fa :
  interval_ok (tcp_ActivationInterval p) → weight_ok (tcp_Weight p) →
  gather_chargers (∅, ∅, ∅) (charger_row p true fa.1 fa.2) =
    ({[tcp_key p := charger_with p [] []]}, add_ids ∅ (tcp_key p) fa.1,
     add_ids ∅ (tcp_key p) fa.2).
Proof.
  intros Hai Hw. unfold gather_chargers. simpl. rewrite lookup_empty. simpl.
  by rewrite keep_interval_text, keep_weight_ok, !keep_text_new by done.
Qed.

Lemma gather_chargers_rest p fas F A :
  foldl gather_chargers ({[tcp_key p := charger_with p [] []]}, F, A)
    ((λ fa, charger_row p false fa.1 fa.2) <$> fas) =
  ({[tcp_key p := charger_with p [] []]}, foldl (λ s f, add_ids s (tcp_key p) f) F fas.*1,
   foldl (λ s f, add_ids s (tcp_key p) f) A fas.*2).
Proof.
  revert F A. induction fas as [|fa fas IH]; intros F A; [done|]. simpl. rewrite <- IH. f_equal.
  unfold gather_chargers. simpl. fold (tcp_key p). rewrite lookup_singleton_eq. simpl.
  by rewrite insert_singleton_eq.
Qed.

(** A charger profile survives its rows, the first filter beside the first attribute and
    so on: with distinct, non-blank identifiers without semicolons, a validity that is not
    blank and a weight that is not minus zero, the rows gather into that one profile, its
    filters and attributes in the order the runtime lists them. *)
Theorem charger_rows_roundtrip p :
  plain_ids (tcp_FilterIDs p) → plain_ids (tcp_AttributeIDs p) →
  interval_ok (tcp_ActivationInterval p) → weight_ok (tcp_Weight p) →
  ∃ filters attributes,
    AsTPChargers (APItoModelTPCharger (Some p)) = [charger_with p filters attributes] ∧
    filters ≡ₚ tcp_FilterIDs p ∧ attributes ≡ₚ tcp_AttributeIDs p.
Proof.
  intros Hf Ha Hai Hw. destruct (charger_rows p) as (fa & rest & Hr & Hpad).
  unfold AsTPChargers. rewrite Hr. cbn [foldl].
  rewrite gather_chargers_lead, gather_chargers_rest, go_range_singleton by done.
  do 2 eexists. split; [done|].
  pose proof (padded_sets (tcp_key p) _ _ Hf Ha) as Hs. revert Hs.
  destruct (pad _ _) as [|fa' rest'].
  - destruct Hpad as [-> ->]. done.
  - by injection Hpad as -> ->.
Qed.

(** ** Thresholds *)

Definition threshold_with (p : TPThresholdProfile) (filters actions : list string)
    : TPThresholdProfile :=
  {| tth_TPid := tth_TPid p; tth_Tenant := tth_Tenant p; tth_ID := tth_ID p;
     tth_FilterIDs := filters; tth_ActivationInterval := tth_ActivationInterval p;
     tth_MaxHits := tth_MaxHits p; tth_MinHits := tth_MinHits p; tth_MinSleep := tth_MinSleep p;
     tth_Blocker := tth_Blocker p; tth_Weight := tth_Weight p; tth_ActionIDs := actions;
     tth_Async := tth_Async p |}.

Definition tth_key (p : TPThresholdProfile) : string := tenant_key (tth_Tenant p) (tth_ID p).

Lemma threshold_rows p : tth_ActionIDs p ≠ [] →
  ∃ fa rest, APItoModelTPThreshold (Some p) =
    threshold_row p true fa.1 fa.2 :: ((λ fa, threshold_row p false fa.1 fa.2) <$> rest) ∧
    fa :: rest = pad (tth_FilterIDs p) (tth_ActionIDs p).
Proof.
  unfold APItoModelTPThreshold.
  destruct (tth_ActionIDs p) as [|a l]; [done|]. intros _. rewrite decide_False by done.
  destruct (tth_FilterIDs p) as [|f fs].
  - exists ("", a), (pair "" <$> l). split; [|done]. rewrite <- list_fmap_compose.
    apply (imap_lead (λ lead a, threshold_row p lead "" a)).
  - exists (f, a), (pad fs l). split; [|done].
    rewrite <- (rows_side_by_side (threshold_row p)). cbv zeta. cbn [fst snd]. do 2 f_equal.
    clear. generalize (drop (Nat.min (length (f :: fs)) (length (a :: l))) (a :: l)).
    intros k. simpl. induction k as [|x k IH] using rev_ind; [done|].
    by rewrite imap_app, fmap_app, IH.
Qed.

Lemma gather_threshold_lead p fa :
  interval_ok (tth_ActivationInterval p) → weight_ok (tth_Weight p) →
  gather_threshold (∅, ∅, ∅) (threshold_row p true fa.1 fa.2) =
    ({[tth_key p := threshold_with p [] []]}, add_ids ∅ (tth_key p) fa.1,
     add_ids ∅ (tth_key p) fa.2).
Proof.
  intros Hai Hw. unfold gather_threshold. simpl. rewrite lookup_empty. simpl.
  by rewrite keep_interval_text, keep_weight_ok by done.
Qed.

Lemma gather_threshold_rest p fas F A :
  foldl gather_threshold ({[tth_key p := threshold_with p [] []]}, F, A)
    ((λ fa, threshold_row p false fa.1 fa.2) <$> fas) =
  ({[tth_key p := threshold_with p [] []]}, foldl (λ s f, add_ids s (tth_key p) f) F fas.*1,
   foldl (λ s f, add_ids s (tth_key p) f) A fas.*2).
Proof.
  revert F A. induction fas as [|fa fas IH]; intros F A; [done|]. simpl. rewrite <- IH. f_equal.
  unfold gather_threshold. simpl. fold (tth_key p). rewrite lookup_singleton_eq. simpl.
  by rewrite insert_singleton_eq.
Qed.

(** A threshold profile survives its rows only when it has actions.  With the same
    conditions as a charger the rows gather into that one profile, up to the order of its
    filters and actions; a profile without actions makes no row and is gone. *)
Theorem threshold_rows_roundtrip p :
  plain_ids (tth_FilterIDs p) → plain_ids (tth_ActionIDs p) →
  interval_ok (tth_ActivationInterval p) → weight_ok (tth_Weight p) →
  if decide (tth_ActionIDs p = []) then AsTPThreshold (APItoModelTPThreshold (Some p)) = []
  else ∃ filters actions,
    AsTPThreshold (APItoModelTPThreshold (Some p)) = [threshold_with p filters actions] ∧
    filters ≡ₚ tth_FilterIDs p ∧ actions ≡ₚ tth_ActionIDs p.
Proof.
  intros Hf Ha Hai Hw. case_decide as Hd.
  { unfold APItoModelTPThreshold. rewrite Hd. unfold AsTPThreshold. simpl.
    by rewrite go_range_empty. }
  destruct (threshold_rows p Hd) as (fa & rest & Hr & Hpad).
  unfold AsTPThreshold. rewrite Hr. cbn [foldl].
  rewrite gather_threshold_lead, gather_threshold_rest, go_range_singleton by done.
  do 2 eexists. split; [done|].
  pose proof (padded_sets (tth_key p) _ _ Hf Ha) as Hs. by rewrite <- Hpad in Hs.
Qed.

(** ** Attributes *)

Definition attributes_with (p : TPAttributeProfile) (filters contexts : list string)
    (attributes : list TPAttribute) : TPAttributeProfile :=
  {| tapr_TPid := tapr_TPid p; tapr_Tenant := tapr_Tenant p; tapr_ID := tapr_ID p;
     tapr_FilterIDs := filters; tapr_ActivationInterval := tapr_ActivationInterval p;
     tapr_Contexts := contexts; tapr_Attributes := attributes; tapr_Blocker := tapr_Blocker p;
     tapr_Weight := tapr_Weight p |}.

Definition tapr_key (p : TPAttributeProfile) : string := tenant_key (tapr_Tenant p) (tapr_ID p).

Definition without_filters (a : TPAttribute) : TPAttribute :=
  {| tpa_FilterIDs := []; tpa_Path := tpa_Path a; tpa_Type := tpa_Type a;
     tpa_Value := tpa_Value a |}.

Lemma append_ids_join l : Forall plain_id l → append_ids [] (join_ids l) = l.
Proof.
  intros Hl. unfold append_ids. destruct l as [|v l]; [done|].
  rewrite decide_True; [by rewrite Split_join_ids|].
  rewrite join_ids_Join. apply Join_plain_nonempty. by apply Forall_cons in Hl as [? _].
Qed.

Lemma gather_attributes_lead p a :
  interval_ok (tapr_ActivationInterval p) → weight_ok (tapr_Weight p) →
  tpa_Path a ≠ "" → Forall plain_id (tpa_FilterIDs a) →
  gather_attributes (∅, ∅, ∅) (attribute_row p true a) =
    ({[tapr_key p := attributes_with p [] [] [a]]},
     add_ids ∅ (tapr_key p) (join_ids (tapr_FilterIDs p)),
     add_ids ∅ (tapr_key p) (join_ids (tapr_Contexts p))).
Proof.
  intros Hai Hw Ha Hf. unfold gather_attributes. simpl. rewrite lookup_empty. simpl.
  rewrite keep_interval_text by done. rewrite !(keep_weight_ok (tapr_Weight p)) by done.
  rewrite append_ids_join, decide_True by done. by destruct a.
Qed.

Lemma gather_attributes_rest p l F C attrs : Forall (λ a, tpa_Path a ≠ "") l →
  foldl gather_attributes ({[tapr_key p := attributes_with p [] [] attrs]}, F, C)
    (attribute_row p false <$> l) =
  ({[tapr_key p := attributes_with p [] [] (attrs ++ (without_filters <$> l))]}, F, C).
Proof.
  intros Hl. revert attrs. induction Hl as [|a l Ha Hl IH]; intros attrs.
  { simpl. by rewrite app_nil_r. }
  simpl. rewrite (cons_middle _ attrs), app_assoc, <- IH. f_equal.
  unfold gather_attributes. simpl. fold (tapr_key p). rewrite lookup_singleton_eq. simpl.
  rewrite insert_singleton_eq. by rewrite decide_True.
Qed.

(** An attribute profile loses the filters of its attributes, those of the first one
    excepted.  With attributes that have a path, distinct, plain identifiers, a validity that
    is not blank and a weight that is not minus zero, the rows gather into one profile whose
    filters and contexts are those stored, in some order, and whose attributes are in their
    order, every one after the first without its filters.  A profile without attributes
    makes no row. *)
Theorem attribute_rows_lose_filters p a attrs :
  tapr_Attributes p = a :: attrs → Forall (λ a, tpa_Path a ≠ "") (a :: attrs) →
  Forall plain_id (tpa_FilterIDs a) →
  plain_ids (tapr_FilterIDs p) → plain_ids (tapr_Contexts p) →
  interval_ok (tapr_ActivationInterval p) → weight_ok (tapr_Weight p) →
  ∃ filters contexts,
    AsTPAttributes (APItoModelTPAttribute p) =
      [attributes_with p filters contexts (a :: (without_filters <$> attrs))] ∧
    filters ≡ₚ tapr_FilterIDs p ∧ contexts ≡ₚ tapr_Contexts p.
Proof.
  intros Ha [Hp Hps]%Forall_cons Hf [Hfn Hfs] [Hcn Hcs] Hai Hw.
  unfold APItoModelTPAttribute. rewrite Ha, (imap_lead (attribute_row p)).
  unfold AsTPAttributes. cbn [foldl].
  rewrite gather_attributes_lead, gather_attributes_rest, go_range_singleton by done.
  do 2 eexists. split; [done|]. rewrite !add_ids_join by done.
  split; by apply listed_set_of.
Qed.
End roundtrips.

(** ** Examples *)

Definition example_interval : option TPActivationInterval :=
  Some {| tai_ActivationTime := "2014-07-29T15:00:00Z"; tai_ExpiryTime := "" |}.

Definition example_resource : TPResourceProfile :=
  {| trs_TPid := "tp"; trs_Tenant := "cgrates.org"; trs_ID := "RES";
     trs_FilterIDs := ["FLTR_1"; "FLTR_2"]; trs_ActivationInterval := example_interval;
     trs_UsageTTL := "1h"; trs_Limit := "7"; trs_AllocationMessage := ""; trs_Blocker := false;
     trs_Stored := true; trs_Weight := f1; trs_ThresholdIDs := ["THD_1"; "THD_2"] |}.

Ltac plain :=
  repeat first [progress split_and! | apply Forall_cons; split | apply Forall_nil_2
               | apply NoDup_cons; split | apply NoDup_nil_2 | set_solver | done].

Lemma resource_rows_roundtrip_witness :
  ∃ filters thresholds,
    @AsTPResources reference_runtime (APItoModelResource (Some example_resource)) =
      [resource_with example_resource filters thresholds] ∧
    filters ≡ₚ ["FLTR_1"; "FLTR_2"] ∧ thresholds ≡ₚ ["THD_1"; "THD_2"].
Proof.
  apply (@resource_rows_roundtrip reference_runtime example_resource);
    [by plain|by plain|split_and!; [done|done|by left]|done].
Defined.

Definition example_charger : TPChargerProfile :=
  {| tcp_TPid := "tp"; tcp_Tenant := "cgrates.org"; tcp_ID := "CHRG";
     tcp_FilterIDs := ["FLTR_1"]; tcp_ActivationInterval := example_interval;
     tcp_RunID := "*default"; tcp_AttributeIDs := ["ATTR_1"; "ATTR_2"]; tcp_Weight := f1 |}.

Lemma charger_rows_roundtrip_witness :
  ∃ filters attributes,
    @AsTPChargers reference_runtime (APItoModelTPCharger (Some example_charger)) =
      [charger_with example_charger filters attributes] ∧
    filters ≡ₚ ["FLTR_1"] ∧ attributes ≡ₚ ["ATTR_1"; "ATTR_2"].
Proof.
  apply (@charger_rows_roundtrip reference_runtime example_charger);
    [by plain|by plain|split_and!; [done|done|by left]|done].
Defined.

Definition example_threshold (actions : list string) : TPThresholdProfile :=
  {| tth_TPid := "tp"; tth_Tenant := "cgrates.org"; tth_ID := "THD";
     tth_FilterIDs := ["FLTR_1"; "FLTR_2"]; tth_ActivationInterval := example_interval;
     tth_MaxHits := -1; tth_MinHits := 1; tth_MinSleep := "1s"; tth_Blocker := false;
     tth_Weight := f1; tth_ActionIDs := actions; tth_Async := true |}.

Lemma threshold_rows_roundtrip_witness :
  @AsTPThreshold reference_runtime (APItoModelTPThreshold (Some (example_threshold []))) = [] ∧
  ∃ filters actions,
    @AsTPThreshold reference_runtime (APItoModelTPThreshold (Some (example_threshold ["A"]))) =
      [threshold_with (example_threshold ["A"]) filters actions] ∧
    filters ≡ₚ ["FLTR_1"; "FLTR_2"] ∧ actions ≡ₚ ["A"].
Proof.
  split.
  - apply (@threshold_rows_roundtrip reference_runtime (example_threshold []));
      [by plain|by plain|split_and!; [done|done|by left]|done].
  - apply (@threshold_rows_roundtrip reference_runtime (example_threshold ["A"]));
      [by plain|by plain|split_and!; [done|done|by left]|done].
Defined.

Definition example_attribute (path : string) : TPAttribute :=
  {| tpa_FilterIDs := ["*string:~*req.Account:1001"]; tpa_Path := path; tpa_Type := "*variable";
     tpa_Value := "1002" |}.
Definition example_attributes : TPAttributeProfile :=
  {| tapr_TPid := "tp"; tapr_Tenant := "cgrates.org"; tapr_ID := "ATTR";
     tapr_FilterIDs := ["FLTR_1"]; tapr_ActivationInterval := example_interval;
     tapr_Contexts := ["con1"; "con2"];
     tapr_Attributes := [example_attribute "*req.Account"; example_attribute "*req.Subject"];
     tapr_Blocker := false; tapr_Weight := f1 |}.

Lemma attribute_rows_lose_filters_witness :
  ∃ filters contexts,
    @AsTPAttributes reference_runtime (APItoModelTPAttribute example_attributes) =
      [attributes_with example_attributes filters contexts
         [example_attribute "*req.Account"; without_filters (example_attribute "*req.Subject")]] ∧
    filters ≡ₚ ["FLTR_1"] ∧ contexts ≡ₚ ["con1"; "con2"].
Proof.
  apply (@attribute_rows_lose_filters reference_runtime example_attributes
           (example_attribute "*req.Account") [example_attribute "*req.Subject"]);
    [done|by plain|by plain|by plain|by plain|split_and!; [done|done|by left]|done].
Defined.
