(* ===== verification/Profiles.v ===== *)
(** * Profiles that match an event

    What the services of suppliers, attributes and chargers share: from the items their
    indexes list for an event, the profiles that are in force and whose filters it passes.
    A service states what its profiles are with the class [Profile]. *)
From S2P Require Import Prelude GoFloat GoStrings GoTime CoreUtils Values Filters RSR RatingProfile TariffPlan TariffActions TariffProfiles TariffRouting.

Class Profile (A : Type) := {
  pf_FilterIDs : A → list string;
  pf_ActivationInterval : A → option ActivationInterval;
  pf_Weight : A → float64
}.

#[export] Instance supplier_profile : Profile SupplierProfile := {|
  pf_FilterIDs := spp_FilterIDs; pf_ActivationInterval := spp_ActivationInterval;
  pf_Weight := spp_Weight |}.
#[export] Instance attribute_profile : Profile AttributeProfile := {|
  pf_FilterIDs := ap_FilterIDs; pf_ActivationInterval := ap_ActivationInterval;
  pf_Weight := ap_Weight |}.
#[export] Instance charger_profile : Profile ChargerProfile := {|
  pf_FilterIDs := cpp_FilterIDs; pf_ActivationInterval := cpp_ActivationInterval;
  pf_Weight := cpp_Weight |}.

(** The text of the error of [strconv.Atoi]. *)
Class GoErrors := { Atoi_error : string → string }.

(** Errors of the handlers, but for not found, are errors of the server. *)
Definition NewErrServerError (e : string) : string := "SERVER_ERROR: " +:+ e.
Definition as_server_error {A} (m : res A) : res A :=
  match m with
  | Err e => Err (if decide (e = ErrNotFound) then e else NewErrServerError e)
  | r => r
  end.

(** The configuration of a service for the indexes of its profiles. *)
Record IndexConfig := mkIndexConfig {
  ix_StringIndexedFields : option (list string); ix_PrefixIndexedFields : option (list string);
  ix_IndexedSelects : bool; ix_NestedFields : bool }.

Section profiles.
Context `{GoText} `{GoRuntime} `{FilterData} {A : Type} `{!Profile A}.

Definition indexed_ids (cfg : IndexConfig) (cacheID prefix key : string) (ev : CGREvent)
    : res (gmap string bool) :=
  MatchingItemIDsForEvent (ev_Event ev) (ix_StringIndexedFields cfg) (ix_PrefixIndexedFields cfg)
    cacheID prefix key (ix_IndexedSelects cfg) (ix_NestedFields cfg).

Definition in_force (p : A) (t : option Time) : bool :=
  match pf_ActivationInterval p, t with
  | Some ai, Some t => IsActiveAtTime ai t
  | _, _ => true
  end.

(** What the filters of a profile see of an event. *)
Definition event_provider (ev : CGREvent) : DataProvider :=
  storage_provider [("*req", IMap (ev_Event ev))].

(** One item: no profile when it is not found, not in force or not passed. *)
Definition matching_profile (get : string → res A) (ev : CGREvent) (id : string) : res (option A) :=
  match get id with
  | Panic => Panic
  | Err e => if decide (e = NOT_FOUND) then Ok None else Err e
  | Ok p =>
      if negb (in_force p (ev_Time ev)) then Ok None
      else
        pass ← FilterS_Pass (ev_Tenant ev) (pf_FilterIDs p) (event_provider ev);
        Ok (if (pass : bool) then Some p else None)
  end.

(** The loop over the items; [add] puts a profile to those found so far. *)
Fixpoint match_profiles {B} (get : string → res A) (add : B → string → A → B) (ev : CGREvent)
    (ids : list string) (found : B) : res B :=
  match ids with
  | [] => Ok found
  | id :: ids =>
      p ← matching_profile get ev id;
      match_profiles get add ev ids (match p with Some p => add found id p | None => found end)
  end.

(** The first of the heaviest. *)
Definition heavier (best : option A) (_ : string) (p : A) : option A :=
  match best with
  | None => Some p
  | Some b => if fltb (pf_Weight b) (pf_Weight p) then Some p else best
  end.

Definition by_weight : list A → list A := go_sort (λ a b, fgtb (pf_Weight a) (pf_Weight b)).

(** ** Properties *)

(** The loop is a fold over the items that match. *)
Fixpoint matching_profiles (get : string → res A) (ev : CGREvent) (ids : list string)
    : res (list (string * A)) :=
  match ids with
  | [] => Ok []
  | id :: ids =>
      p ← matching_profile get ev id;
      ps ← matching_profiles get ev ids;
      Ok (match p with Some p => (id, p) :: ps | None => ps end)
  end.

Lemma match_profiles_fold {B} get (add : B → string → A → B) ev ids found :
  match_profiles get add ev ids found =
  ps ← matching_profiles get ev ids; Ok (foldl (λ b kp, add b kp.1 kp.2) found ps).
Proof.
  revert found. induction ids as [|id ids IH]; intros found; [done|].
  simpl. destruct (matching_profile get ev id) as [p|e|]; [|done..].
  simpl. rewrite IH. destruct (matching_profiles get ev ids) as [ps|e|]; [|done..]. simpl. by destruct p.
Qed.

Lemma matching_profiles_spec get ev ids ps :
  matching_profiles get ev ids = Ok ps →
  ∀ id p, (id, p) ∈ ps ↔ id ∈ ids ∧ get id = Ok p ∧ in_force p (ev_Time ev) = true ∧
    FilterS_Pass (ev_Tenant ev) (pf_FilterIDs p) (event_provider ev) = Ok true.
Proof.
  revert ps. induction ids as [|i ids IH]; intros ps; simpl.
  { intros [= <-] id p. rewrite elem_of_nil. split; [done|]. by intros [?%elem_of_nil _]. }
  destruct (matching_profile get ev i) as [op| |] eqn:Em; [|done..]. simpl.
  destruct (matching_profiles get ev ids) as [found|e|]; [|done..]. simpl. intros [= <-] id p.
  specialize (IH _ eq_refl id p). rewrite elem_of_cons.
  assert (op = Some p ∧ id = i ↔ id = i ∧ get id = Ok p ∧ in_force p (ev_Time ev) = true ∧
    FilterS_Pass (ev_Tenant ev) (pf_FilterIDs p) (event_provider ev) = Ok true) as Hop.
  { split.
    - intros [-> ->]. split; [done|]. revert Em. unfold matching_profile.
      destruct (get i) as [q| |]; [|by case_decide|done].
      destruct (in_force q _) eqn:Ef; simpl; [|done].
      destruct (FilterS_Pass _ (pf_FilterIDs q) _) as [[]| |] eqn:Ep; simpl; try done.
      intros Hq. by simplify_eq.
    - intros (-> & Hg & Hf & Hp). split; [|done]. revert Em. unfold matching_profile.
      rewrite Hg, Hf. simpl. rewrite Hp. simpl. by intros [= <-]. }
  destruct op as [q|]; simpl.
  - rewrite elem_of_cons, IH. split.
    + intros [[= -> ->]|(?&?)]; [|by auto]. destruct (proj1 Hop) as (?&?&?); auto.
    + intros [[->|?] Hrest]; [|by auto]. left. destruct (proj2 Hop) as [[= ->] _]; auto.
  - rewrite IH. split; [tauto|]. intros [[->|?] Hrest]; [|by auto].
    destruct (proj2 Hop) as [? _]; [by auto|done].
Qed.

(** The profile chosen is one of the heaviest, and the first of those. *)
Lemma heavier_spec (ps : list (string * A)) best :
  Forall (λ kp, is_nan (pf_Weight kp.2) = false) ps →
  (∀ b, best = Some b → is_nan (pf_Weight b) = false) →
  match foldl (λ b kp, heavier b kp.1 kp.2) best ps with
  | None => best = None ∧ ps = []
  | Some p =>
      (best = Some p ∨ p ∈ ps.*2) ∧
      (∀ b, best = Some b → fltb (pf_Weight p) (pf_Weight b) = false) ∧
      ∀ q, q ∈ ps.*2 → fltb (pf_Weight p) (pf_Weight q) = false
  end.
Proof.
  revert best. induction ps as [|[k p] ps IH]; intros best Hn Hb; simpl.
  { destruct best as [b|]; [|done]. split_and!; [by left| |by intros q ?%elem_of_nil].
    intros b' [= <-]. apply fltb_irrefl. }
  apply Forall_cons in Hn as [Hp Hn]. simpl in Hp.
  specialize (IH (heavier best k p) Hn).
  destruct (foldl _ (heavier best k p) ps) as [r|].
  - destruct IH as (Hin & Hbest & Hall).
    { intros b. unfold heavier. destruct best as [b'|]; [|by intros [= <-]].
      case_match; intros [= <-]; [done|by apply Hb]. }
    unfold heavier in *. destruct best as [b|].
    + specialize (Hb b eq_refl). destruct (fltb (pf_Weight b) (pf_Weight p)) eqn:E.
      * specialize (Hbest p eq_refl). split_and!.
        -- right. destruct Hin as [[= <-]|Hin]; [by left|by right].
        -- intros b' [= <-]. apply (fltb_negtrans _ (pf_Weight p)); [done|by apply fltb_asym|done].
        -- intros q [->|Hq]%elem_of_cons; [done|by apply Hall].
      * specialize (Hbest b eq_refl). split_and!.
        -- destruct Hin as [?|Hin]; [by left|by right; right].
        -- by intros b' [= <-].
        -- intros q [->|Hq]%elem_of_cons; [by apply (fltb_negtrans _ (pf_Weight b))|by apply Hall].
    + specialize (Hbest p eq_refl). split_and!; [|done|].
      * right. destruct Hin as [[= <-]|Hin]; [by left|by right].
      * intros q [->|Hq]%elem_of_cons; [done|by apply Hall].
  - destruct IH as [Hh _]; [|unfold heavier in Hh; destruct best as [b|]; [by destruct (fltb _ _)|done]].
    intros b. unfold heavier. destruct best as [b'|]; [|by intros [= <-]].
    case_match; intros [= <-]; [done|by apply Hb].
Qed.

Lemma by_weight_spec (l : list A) :
  Forall (λ p, is_nan (pf_Weight p) = false) l →
  by_weight l ≡ₚ l ∧ StronglySorted (λ a b, fltb (pf_Weight a) (pf_Weight b) = false) (by_weight l).
Proof.
  intros Hn. split; [apply go_sort_perm|].
  pose proof (go_sort_sorted _ l (strict_weak_on_float_desc pf_Weight l Hn)) as Hs. exact Hs.
Qed.

Definition profile_matches (get : string → res A) (ev : CGREvent) (ids : list string) (p : A) : Prop :=
  ∃ id, id ∈ ids ∧ get id = Ok p ∧ in_force p (ev_Time ev) = true ∧
    FilterS_Pass (ev_Tenant ev) (pf_FilterIDs p) (event_provider ev) = Ok true.

(** What the services that apply one profile apply. *)
Lemma match_heaviest get ev ids best :
  match_profiles get heavier ev ids None = Ok best →
  (∀ p, profile_matches get ev ids p → is_nan (pf_Weight p) = false) →
  match best with
  | None => ∀ p, ¬ profile_matches get ev ids p
  | Some p => profile_matches get ev ids p ∧
      ∀ q, profile_matches get ev ids q → fltb (pf_Weight p) (pf_Weight q) = false
  end.
Proof.
  intros Hm Hn. rewrite match_profiles_fold in Hm.
  destruct (matching_profiles get ev ids) as [ps| |] eqn:Eps; [|done..]. injection Hm as <-.
  assert (∀ p, p ∈ ps.*2 ↔ profile_matches get ev ids p) as Hps.
  { intros p. rewrite list_elem_of_fmap. split.
    - intros ([id p'] & -> & Hin). exists id. by apply (matching_profiles_spec _ _ _ _ Eps).
    - intros (id & Hin). exists (id, p). split; [done|]. by apply (matching_profiles_spec _ _ _ _ Eps). }
  pose proof (heavier_spec ps None) as Hs.
  destruct (foldl _ None ps) as [p|].
  - destruct Hs as ([?|Hp] & _ & Hall); [|done|done|].
    + apply Forall_forall. intros kp Hkp. apply Hn, Hps, list_elem_of_fmap. by exists kp.
    + split; [by apply Hps|]. intros q Hq. by apply Hall, Hps.
  - destruct Hs as [_ ->]; [|done|].
    + apply Forall_forall. intros kp Hkp. apply Hn, Hps, list_elem_of_fmap. by exists kp.
    + intros p Hp%Hps. by apply elem_of_nil in Hp.
Qed.
End profiles.
