(* ===== verification/Attributes.v ===== *)
(** * Attributes

    The service that alters events: [engine/attributes.go] and the profiles written inline
    ([engine/libattributes.go]).  Processing an event is a computation on what the code
    changes through pointers: the arguments with their event, and, while a profile is applied,
    the event beside the provider [evNm] that the paths of the attributes are set in. *)
From S2P Require Import Prelude GoFloat GoStrings GoTime CoreUtils Collections Values Filters RSR Stateful RatingProfile TariffPlan TariffActions TariffProfiles TariffRouting Profiles.

Class AttributeData := {
  GetAttributeProfileDrv : string → string → res AttributeProfile;
  parsers_JSON : list RSRParser → string;
  as_index : IndexConfig; as_ProcessRuns : Z; as_RoundingDecimals : Z
}.

(** [aa_nilEvent] tells an event without a map from one with an empty map. *)
Record AttrArgsProcessEvent := mkAttrArgsProcessEvent {
  aa_AttributeIDs : list string; aa_Context : option string; aa_ProcessRuns : option Z;
  aa_CGREvent : option CGREvent; aa_nilEvent : bool }.
Definition aa_set_CGREvent (ev : CGREvent) (args : AttrArgsProcessEvent) : AttrArgsProcessEvent :=
  mkAttrArgsProcessEvent (aa_AttributeIDs args) (aa_Context args) (aa_ProcessRuns args)
    (Some ev) (aa_nilEvent args).

(** The event of a reply is that of the arguments it was made for, except in the last reply. *)
Record AttrSProcessEventReply := mkAttrSProcessEventReply {
  are_MatchedProfiles : list string; are_AlteredFields : list string; are_blocker : bool }.

(** ** Profiles *)

Section profiles.
Context `{GoText} `{GoRegexp} `{AttributeData}.

Definition compileSubstitutes (ap : AttributeProfile) : res AttributeProfile :=
  attrs ← res_map (λ attr,
    v ← RSRParsers_Compile (att_Value attr);
    Ok (mkAttribute (att_FilterIDs attr) (att_Path attr) (att_Type attr) v)) (ap_Attributes ap);
  Ok (mkAttributeProfile (ap_Tenant ap) (ap_ID ap) (ap_Contexts ap) (ap_FilterIDs ap)
        (ap_ActivationInterval ap) attrs (ap_Blocker ap) (ap_Weight ap)).

(** The form used by the API, whose values are text. *)
Record ExternalAttribute := mkExternalAttribute {
  xat_FilterIDs : list string; xat_Path : string; xat_Type : string; xat_Value : string }.
Record ExternalAttributeProfile := mkExternalAttributeProfile {
  xap_Tenant : string; xap_ID : string; xap_Contexts : list string; xap_FilterIDs : list string;
  xap_ActivationInterval : option ActivationInterval; xap_Attributes : list ExternalAttribute;
  xap_Blocker : bool; xap_Weight : float64 }.

Definition AsAttributeProfile (ext : ExternalAttributeProfile) : res AttributeProfile :=
  if bool_decide (length (xap_Attributes ext) = 0%nat) then Err (NewErrMandatoryIeMissing ["Attributes"])
  else
    attrs ← res_map (λ extAttr,
      if decide (xat_Value extAttr = "") then Err (NewErrMandatoryIeMissing ["Value"])
      else
        vals ← NewRSRParsers (xat_Value extAttr) true ";";
        Ok (mkAttribute (xat_FilterIDs extAttr) (xat_Path extAttr) (xat_Type extAttr) vals))
      (xap_Attributes ext);
    Ok (mkAttributeProfile (xap_Tenant ext) (xap_ID ext) (xap_Contexts ext) (xap_FilterIDs ext)
          (xap_ActivationInterval ext) attrs (xap_Blocker ext) (xap_Weight ext)).

(** [*type:path:value], where the value may have further colons. *)
Definition NewAttributeFromInline (tenant inlnRule : string) : res AttributeProfile :=
  match Split inlnRule ":" with
  | typ :: path :: ((_ :: _) as rest) =>
      vals ← NewRSRParsers (Join rest ":") true ";";
      compileSubstitutes
        (mkAttributeProfile tenant inlnRule ["*any"] [] None [mkAttribute [] path typ vals] false f0)
  | _ => Err ("inline parse error for string: <" +:+ inlnRule +:+ ">")
  end.

Definition AttrInlineTypes : list string :=
  ["*constant"; "*variable"; "*composed"; "*usage_difference"; "*sum"; "*value_exponent"].

(** [GetAttributeProfile], without the cache. *)
Definition GetAttributeProfile (tenant id : string) : res AttributeProfile :=
  if existsb (HasPrefix id) AttrInlineTypes then NewAttributeFromInline tenant id
  else ap ← GetAttributeProfileDrv tenant id; compileSubstitutes ap.
End profiles.

(** ** What is changed while a profile is applied

    The map of the event is the one below [*req] of the provider until the path [*req] itself
    is set or removed ([wk_linked]). *)
Record Work := mkWork { wk_ev : CGREvent; wk_evNm : MapStorage; wk_linked : bool }.

Definition set_Event (m : MapStorage) (ev : CGREvent) : CGREvent :=
  mkCGREvent (ev_Tenant ev) (ev_ID ev) (ev_Time ev) m.
Definition set_Tenant (tenant : string) (ev : CGREvent) : CGREvent :=
  mkCGREvent tenant (ev_ID ev) (ev_Time ev) (ev_Event ev).

Definition put_evNm (evNm : MapStorage) (w : Work) : Work :=
  match ms_get "*req" evNm with
  | Some (IMap m) =>
      mkWork (if wk_linked w then set_Event m (wk_ev w) else wk_ev w) evNm (wk_linked w)
  | _ => mkWork (wk_ev w) evNm false
  end.

(** Setting and removing, whose errors nobody looks at. *)
Definition ignore_failure (change : MapStorage → res MapStorage) : SM Work () := λ w,
  match change (wk_evNm w) with
  | Ok evNm => (Ok (), put_evNm evNm w)
  | Err _ => (Ok (), w)
  | Panic => (Panic, w)
  end.

Section attributes.
Context `{GoText} `{GoRuntime} `{GoRegexp} `{GoErrors} `{FilterData} `{AttributeData}.

(** ** The profile of an event *)

Definition attribute_ids (args : AttrArgsProcessEvent) (ev : CGREvent) : res (list string) :=
  if negb (bool_decide (aa_AttributeIDs args = [])) then Ok (aa_AttributeIDs args)
  else
    let context := match aa_Context args with
                   | Some c => if decide (c = "") then "*default" else c
                   | None => "*default"
                   end in
    let matching key :=
      indexed_ids as_index "*attribute_filter_indexes" "alp_" (ConcatenatedKey [ev_Tenant ev; key]) ev in
    ids ← match matching context with
          | Err e => if decide (e = ErrNotFound) then matching "*any" else Err e
          | r => r
          end;
    Ok (go_range ids).*1.

Definition attributeProfileForEvent (args : AttrArgsProcessEvent) : res AttributeProfile :=
  ev ← deref (aa_CGREvent args);
  ids ← attribute_ids args ev;
  best ← match_profiles (GetAttributeProfile (ev_Tenant ev)) heavier ev ids None;
  match best with Some p => Ok p | None => Err ErrNotFound end.

(** ** The value of an attribute *)

Definition usage_difference (value : list RSRParser) (dP : DataProvider) : res string :=
  match value with
  | [v1; v2] =>
      strVal1 ← ParseDataProvider v1 dP NestingSep;
      strVal2 ← ParseDataProvider v2 dP NestingSep;
      tEnd ← ParseTimeDetectLayout strVal1 "";
      tStart ← ParseTimeDetectLayout strVal2 "";
      Ok (Duration_String (Sub tEnd tStart))
  | _ => Err ("invalid arguments <" +:+ parsers_JSON value +:+ ">")
  end.

Definition sum_of_values (value : list RSRParser) (dP : DataProvider) : res string :=
  iFaceVals ← res_map (λ val,
    strVal ← ParseDataProvider val dP NestingSep; Ok (StringToInterface strVal)) value;
  ifaceSum ← Sum iFaceVals;
  Ok (IfaceAsString ifaceSum).

Definition value_exponent (value : list RSRParser) (dP : DataProvider) : res string :=
  match value with
  | [v1; v2] =>
      strVal1 ← ParseDataProvider v1 dP NestingSep;
      match ParseFloat strVal1 with
      | Panic => Panic
      | Err _ => Err ("invalid value <" +:+ strVal1 +:+ "> to *value_exponent")
      | Ok val =>
          strVal2 ← ParseDataProvider v2 dP NestingSep;
          match Atoi strVal2 with
          | None => Err (Atoi_error strVal2)
          | Some exp =>
              Ok (FormatFloat (Round (fmul val (Pow10 exp)) as_RoundingDecimals "*middle"))
          end
      end
  | _ => Err ("invalid arguments <" +:+ parsers_JSON value +:+ "> to *value_exponent")
  end.

Definition substitute_value (attribute : Attribute) (dP : DataProvider) : res string :=
  let value := att_Value attribute in
  if decide (att_Type attribute = "*constant") then RSRParsers_ParseValue value (IString "")
  else if decide (att_Type attribute = "*usage_difference") then usage_difference value dP
  else if decide (att_Type attribute = "*sum") then sum_of_values value dP
  else if decide (att_Type attribute = "*value_exponent") then value_exponent value dP
  else RSRParsers_ParseDataProvider value dP NestingSep.

(** ** Applying a profile *)

Definition attribute_passes (tenant : string) (attribute : Attribute) (dP : DataProvider) : res bool :=
  if decide (att_FilterIDs attribute = []) then Ok true
  else FilterS_Pass tenant (att_FilterIDs attribute) dP.

(** A path is listed once; looking for it sorts the list. *)
Definition add_member (l : list string) (s : string) : list string :=
  let '(member, l) := IsSliceMember l s in if member then l else l ++ [s].

Definition composed (attribute : Attribute) : bool := bool_decide (att_Type attribute = "*composed").

(** The value set at a path, after what is there already if it is composed. *)
Definition value_to_set (attribute : Attribute) (evNm : MapStorage) (substitute : string)
    : res string :=
  if composed attribute then
    match FieldAsString evNm (Split (att_Path attribute) NestingSep) with
    | Ok val => Ok (val +:+ substitute)
    | Err _ => Ok substitute
    | Panic => Panic
    end
  else Ok substitute.

Definition alter_event (attribute : Attribute) (substitute : string) : SM Work () :=
  if decide (att_Path attribute = "*tenant") then
    modify (λ w, mkWork (set_Tenant
      (if composed attribute then ev_Tenant (wk_ev w) +:+ substitute else substitute) (wk_ev w))
      (wk_evNm w) (wk_linked w))
  else if decide (substitute = "*remove") then
    ignore_failure (λ evNm, ms_Remove evNm (Split (att_Path attribute) NestingSep))
  else
    evNm ← gets wk_evNm;
    value ← lift (value_to_set attribute evNm substitute);
    ignore_failure (λ evNm, ms_Set evNm (Split (att_Path attribute) NestingSep) (IString value)).

Definition process_attribute (altered : list string) (attribute : Attribute)
    : SM Work (list string) :=
  w ← gets id;
  let dP := storage_provider (wk_evNm w) in
  pass ← lift (attribute_passes (ev_Tenant (wk_ev w)) attribute dP);
  if negb pass then mret altered
  else
    substitute ← lift (substitute_value attribute dP);
    _ ← alter_event attribute substitute;
    mret (add_member altered (att_Path attribute)).

Definition apply_attributes (attributes : list Attribute) : SM Work (list string) :=
  visit process_attribute [] attributes.

(** With the provider made from the event, and without it afterwards. *)
Definition on_event {A} (m : SM Work A) : SM AttrArgsProcessEvent A := λ args,
  match aa_CGREvent args with
  | None => (Panic, args)
  | Some ev =>
      let '(r, w) := m (mkWork ev [("*req", IMap (ev_Event ev))] true) in
      (r, aa_set_CGREvent (wk_ev w) args)
  end.

Definition processEvent : SM AttrArgsProcessEvent AttrSProcessEventReply :=
  args ← gets id;
  attrPrf ← lift (attributeProfileForEvent args);
  altered ← on_event (apply_attributes (ap_Attributes attrPrf));
  mret (mkAttrSProcessEventReply [ap_ID attrPrf] altered (ap_Blocker attrPrf)).

(** ** Runs *)

(** What the replies so far and another one make; no reply when its profile was matched
    before, which ends the runs. *)
Definition merge_reply (api evRply : AttrSProcessEventReply) (matched : string)
    : bool * AttrSProcessEventReply :=
  let '(member, profiles) := IsSliceMember (are_MatchedProfiles api) matched in
  if member then (false, mkAttrSProcessEventReply profiles (are_AlteredFields api) (are_blocker api))
  else (true, mkAttrSProcessEventReply (profiles ++ [matched])
                (foldl add_member (are_AlteredFields api) (are_AlteredFields evRply)) (are_blocker api)).

(** The runs left, the aggregated reply and the error after them; not found ends the runs
    without error when there is a reply already. *)
Fixpoint process_runs (runs : nat) (api : option AttrSProcessEventReply)
    : SM AttrArgsProcessEvent (option AttrSProcessEventReply * option string) :=
  match runs with
  | O => mret (api, None)
  | S runs =>
      λ args,
        match processEvent args with
        | (Panic, args) => (Panic, args)
        | (Err e, args) =>
            (Ok (api, if decide (e = ErrNotFound)
                      then match api with Some _ => None | None => Some e end
                      else Some (NewErrServerError e)), args)
        | (Ok evRply, args) =>
            match api with
            | None => if are_blocker evRply then (Ok (Some evRply, None), args)
                      else process_runs runs (Some evRply) args
            | Some api =>
                match are_MatchedProfiles evRply with
                | [] => (Panic, args)
                | matched :: _ =>
                    let '(go_on, api) := merge_reply api evRply matched in
                    if negb go_on || are_blocker evRply then (Ok (Some api, None), args)
                    else process_runs runs (Some api) args
                end
            end
        end
  end.

(** The first field the attributes should have populated. *)
Definition unpopulated (ev : CGREvent) : option string :=
  fst <$> List.find (λ kv, match kv.2 with IString s => bool_decide (s = "*attributes") | _ => false end)
            (ev_Event ev).

Definition wanted_runs (args : AttrArgsProcessEvent) : Z :=
  match aa_ProcessRuns args with
  | None => as_ProcessRuns
  | Some n => if n =? 0 then as_ProcessRuns else n
  end.

(** The event is copied, so the map of the caller stays as it is. *)
Definition prepare (args : AttrArgsProcessEvent) (ev : CGREvent) : AttrArgsProcessEvent :=
  mkAttrArgsProcessEvent (aa_AttributeIDs args) (aa_Context args) (Some (wanted_runs args))
    (Some ev) (aa_nilEvent args).

(** The requested fields must have been populated, also when no profile matched. *)
Definition checked_reply (api : option AttrSProcessEventReply) (err : option string) (ev : CGREvent)
    : res (AttrSProcessEventReply * CGREvent) :=
  match err with
  | Some e =>
      Err (if decide (e = ErrNotFound)
           then match unpopulated ev with
                | Some val => NewErrMandatoryIeMissing [val] | None => e end
           else e)
  | None =>
      api ← deref api;
      match unpopulated ev with
      | Some val => Err (NewErrMandatoryIeMissing [val])
      | None => Ok (api, ev)
      end
  end.

(** The reply and the altered event; a copy of the event takes its place in the arguments. *)
Definition V1ProcessEvent : SM AttrArgsProcessEvent (AttrSProcessEventReply * CGREvent) := λ args,
  match aa_CGREvent args with
  | None => (Err (NewErrMandatoryIeMissing ["CGREvent"]), args)
  | Some ev =>
      if aa_nilEvent args then (Err (NewErrMandatoryIeMissing ["Event"]), args)
      else
        (r ← process_runs (Z.to_nat (wanted_runs args)) None;
         args ← gets id;
         ev ← lift (deref (aa_CGREvent args));
         lift (checked_reply r.1 r.2 ev)) (prepare args ev)
  end.

Definition V1GetAttributeForEvent (args : AttrArgsProcessEvent) : res AttributeProfile :=
  match aa_CGREvent args with
  | None => Err (NewErrMandatoryIeMissing ["CGREvent"])
  | Some _ => as_server_error (attributeProfileForEvent args)
  end.

(** ** The altered fields as one string *)

Fixpoint digest_loop (ev : CGREvent) (i : nat) (fields : list string) (rplyDigest : string) : string :=
  match fields with
  | [] => rplyDigest
  | fld :: fields =>
      let fld := TrimPrefix fld "*req." in
      digest_loop ev (S i) fields
        (match ms_get fld (ev_Event ev) with
         | None => rplyDigest
         | Some v => rplyDigest +:+ (if decide (i = 0%nat) then "" else ",") +:+ fld +:+ ":" +:+
                     IfaceAsString v
         end)
  end.
Definition AttrSProcessEventReply_Digest (reply : AttrSProcessEventReply) (ev : CGREvent) : string :=
  digest_loop ev 0 (are_AlteredFields reply) "".
End attributes.
