(* ===== verification/AttributeEffects.v ===== *)
(** * What attributes do to an event

    Which profile is applied, which fields of the event it may change, how the runs over
    several profiles end, and the profile that is applied twice. *)
From S2P Require Import Prelude GoFloat GoStrings GoTime CoreUtils Collections Values Filters RSR Stateful RatingProfile TariffPlan TariffActions TariffProfiles TariffRouting Profiles Attributes.

(** ** The profile that is applied *)

(** One of the items looked at, in force and with passing filters, and none of those is
    heavier. *)
Lemma attributeProfileForEvent_heaviest
    `{GoText} `{GoRuntime} `{GoRegexp} `{FilterData} `{AttributeData} args ev ids r :
  aa_CGREvent args = Some ev → attribute_ids args ev = Ok ids →
  let matches := profile_matches (GetAttributeProfile (ev_Tenant ev)) ev ids in
  (∀ p, matches p → is_nan (ap_Weight p) = false) →
  attributeProfileForEvent args = Ok r →
  matches r ∧ ∀ q, matches q → fltb (ap_Weight r) (ap_Weight q) = false.
Proof.
  intros Hev Hids matches Hn. unfold attributeProfileForEvent. rewrite Hev. simpl. rewrite Hids. simpl.
  destruct (match_profiles _ _ _ _ _) as [best| |] eqn:Em; [|done..]. simpl.
  pose proof (match_heaviest _ _ _ _ Em Hn) as Hb. by destruct best; [intros [= <-]|].
Qed.

(** ** Setting and removing below one path *)

Lemma ms_get_del k ms k' :
  ms_get k' (ms_del k ms) = if decide (k = k') then None else ms_get k' ms.
Proof.
  unfold ms_del, MapStorage in *. induction ms as [|[k0 v0] ms IH]; [by case_decide|].
  rewrite filter_cons. simpl. destruct (decide (k0 ≠ k)) as [Hk|Hk]; simpl; rewrite IH.
  - destruct (decide (k0 = k')) as [->|]; [|done]. by rewrite decide_False.
  - apply dec_stable in Hk as ->. by destruct (decide (k = k')).
Qed.

(** A change at a path: other names keep their values; below a map at the first name, other
    names of that map do. *)
Definition changes_at (fldPath : list string) (ms ms' : MapStorage) : Prop :=
  (∀ k, head fldPath ≠ Some k → ms_get k ms' = ms_get k ms) ∧
  ∀ p m m', ms_get p ms = Some (IMap m) → ms_get p ms' = Some (IMap m') →
    ∀ k, (∀ rest, fldPath ≠ p :: k :: rest) → ms_get k m' = ms_get k m.

Lemma changes_at_below p rest nv ms :
  (∀ m m', ms_get p ms = Some (IMap m) → nv = IMap m' →
     ∀ k, head rest ≠ Some k → ms_get k m' = ms_get k m) →
  changes_at (p :: rest) ms (ms_put p nv ms).
Proof.
  intros Hnv. split.
  - intros k Hk. rewrite ms_get_put, decide_False; [done|]. simpl in Hk. congruence.
  - intros q m m' Hm Hm' k Hk. rewrite ms_get_put in Hm'. case_decide as Hq.
    + subst q. injection Hm' as ->. apply (Hnv m m' Hm eq_refl).
      intros Hh. destruct rest as [|k' rest]; [done|]. injection Hh as ->. by apply (Hk rest).
    + assert (m = m') as -> by congruence. done.
Qed.

Lemma ms_Set_changes ms fldPath val ms' :
  (∀ m, val ≠ IMap m) → ms_Set ms fldPath val = Ok ms' → changes_at fldPath ms ms'.
Proof.
  intros Hval. revert ms ms'. induction fldPath as [|p rest IH]; intros ms ms' Hs; [done|].
  destruct rest as [|q rest].
  { injection Hs as <-. apply changes_at_below. intros m m' _ ->. by destruct (Hval m'). }
  set (r := q :: rest) in *.
  assert (match ms_get p ms with
    | None => nMap ← ms_Set [] r val; Ok (ms_put p (IStorage nMap) ms)
    | Some (IStorage dp) => dp' ← ms_Set dp r val; Ok (ms_put p (IStorage dp') ms)
    | Some (IMap dp) => dp' ← ms_Set dp r val; Ok (ms_put p (IMap dp') ms)
    | Some _ => Err ErrWrongPath
    end = Ok ms') as Hs' by exact Hs. clear Hs. clearbody r.
  destruct (ms_get p ms) as [[]|] eqn:Ep; try done; inv_bind;
    apply changes_at_below; intros m1 m2 Hm; try congruence.
  intros [= <-]. simplify_eq. by apply (IH _ _ E).
Qed.

Lemma ms_Remove_changes ms fldPath ms' :
  ms_Remove ms fldPath = Ok ms' → changes_at fldPath ms ms'.
Proof.
  revert ms ms'. induction fldPath as [|p rest IH]; intros ms ms' Hs; [done|]. simpl in Hs.
  destruct (ms_get p ms) as [v|] eqn:Ep.
  2: { injection Hs as <-. split; [done|]. intros q m m' Hm Hm'. assert (m = m') as -> by congruence. done. }
  destruct rest as [|q rest].
  { assert (Ok (ms_del p ms) = Ok ms') as [= <-] by (by destruct v). split.
    - intros k Hk. rewrite ms_get_del, decide_False; [done|]. simpl in Hk. congruence.
    - intros q m m' Hm Hm'. rewrite ms_get_del in Hm'. case_decide; [done|].
      assert (m = m') as -> by congruence. done. }
  set (r := q :: rest) in *. clearbody r.
  destruct v; try done; inv_bind; apply changes_at_below; intros m1 m2 Hm; try congruence.
  intros [= <-]. simplify_eq. by apply (IH _ _ E).
Qed.

(** ** The work on an event

    [kept altered w w']: after the work, what no altered path names is as before. *)
Definition names_field (path k : string) : Prop :=
  ∃ rest, Split path NestingSep = "*req" :: k :: rest.
Definition kept (altered : list string) (ev ev' : CGREvent) : Prop :=
  ev_ID ev' = ev_ID ev ∧ ev_Time ev' = ev_Time ev ∧
  ("*tenant" ∉ altered → ev_Tenant ev' = ev_Tenant ev) ∧
  ∀ k, (∀ path, path ∈ altered → ¬ names_field path k) →
    ms_get k (ev_Event ev') = ms_get k (ev_Event ev).

Lemma kept_refl altered ev : kept altered ev ev.
Proof. by split_and!. Qed.
Lemma kept_trans altered ev1 ev2 ev3 : kept altered ev1 ev2 → kept altered ev2 ev3 → kept altered ev1 ev3.
Proof.
  intros (Hi & Ht & Hn & Hf) (Hi' & Ht' & Hn' & Hf'). split_and!; [congruence..| |].
  - intros Hin. rewrite Hn' by done. by apply Hn.
  - intros k Hk. rewrite Hf' by done. by apply Hf.
Qed.
Lemma kept_mono altered altered' ev ev' : altered ⊆ altered' → kept altered ev ev' → kept altered' ev ev'.
Proof. intros Hsub (? & ? & Hn & Hf). split_and!; [done..|auto|]. intros k Hk. apply Hf. auto. Qed.

(** The map of the event is the one the provider shows, as long as they are linked. *)
Definition linked_well (w : Work) : Prop :=
  wk_linked w = true → ms_get "*req" (wk_evNm w) = Some (IMap (ev_Event (wk_ev w))).

Lemma put_evNm_kept path evNm w :
  changes_at (Split path NestingSep) (wk_evNm w) evNm → linked_well w →
  kept [path] (wk_ev w) (wk_ev (put_evNm evNm w)) ∧ linked_well (put_evNm evNm w).
Proof.
  intros [_ Hc] Hw. unfold put_evNm, linked_well in *.
  destruct (ms_get "*req" evNm) as [[]|] eqn:Eq; simpl; try (split; [apply kept_refl|done]).
  destruct (wk_linked w) eqn:El; [|split; [apply kept_refl|done]].
  split; [|by rewrite Eq]. split_and!; [done..|]. simpl. intros k Hk.
  apply (Hc "*req" _ _ (Hw eq_refl) Eq). intros rest Hp. apply (Hk path); [by apply list_elem_of_singleton|].
  by exists rest.
Qed.

Lemma ignore_failure_kept change path w u w' :
  (∀ ms ms', change ms = Ok ms' → changes_at (Split path NestingSep) ms ms') → linked_well w →
  ignore_failure change w = (Ok u, w') → kept [path] (wk_ev w) (wk_ev w') ∧ linked_well w'.
Proof.
  intros Hc Hw. unfold ignore_failure. destruct (change (wk_evNm w)) as [evNm|e|] eqn:E; [|..].
  - intros [= _ <-]. apply put_evNm_kept; [by apply Hc|done].
  - intros [= _ <-]. split; [apply kept_refl|done].
  - done.
Qed.

Section effects.
Context `{GoText} `{GoRuntime} `{GoRegexp} `{GoErrors} `{FilterData} `{AttributeData}.

Lemma alter_event_kept attribute substitute w u w' :
  linked_well w → alter_event attribute substitute w = (Ok u, w') →
  kept [att_Path attribute] (wk_ev w) (wk_ev w') ∧ linked_well w'.
Proof.
  intros Hw. unfold alter_event. case_decide as Ht; [|case_decide].
  - intros [= _ <-]. split; [|done]. split_and!; [done..| |done].
    rewrite Ht. intros Hin. by destruct Hin; apply list_elem_of_singleton.
  - apply ignore_failure_kept; [|done]. intros ms ms'. apply ms_Remove_changes.
  - intros Hr. apply bind_ok in Hr as (evNm & w1 & [= <- <-] & Hr).
    apply bind_ok in Hr as (value & w1 & Hv & Hr). unfold lift in Hv. injection Hv as _ <-.
    revert Hr. apply ignore_failure_kept; [|done]. intros ms ms'. by apply ms_Set_changes.
Qed.

Lemma add_member_elem l s x : x ∈ add_member l s ↔ x = s ∨ x ∈ l.
Proof.
  unfold add_member, IsSliceMember.
  assert (∀ y, y ∈ go_sort str_ltb l ↔ y ∈ l) as Hp by (intros y; by rewrite go_sort_perm).
  destruct (SliceHasMember _ s) eqn:E.
  - apply SliceHasMember_sorted in E; [|apply go_sort_all, _]. rewrite Hp in E.
    rewrite Hp. split; [by right|]. by intros [->|].
  - rewrite elem_of_app, list_elem_of_singleton, Hp. tauto.
Qed.

Lemma process_attribute_kept altered attribute w altered' w' :
  linked_well w → process_attribute altered attribute w = (Ok altered', w') →
  altered ⊆ altered' ∧ kept altered' (wk_ev w) (wk_ev w') ∧ linked_well w'.
Proof.
  intros Hw Hr. unfold process_attribute in Hr.
  apply bind_ok in Hr as (w0 & w1 & [= <- <-] & Hr).
  apply bind_ok in Hr as (pass & w1 & Hl & Hr). unfold lift in Hl. injection Hl as _ <-.
  destruct pass; simpl in Hr.
  2: { injection Hr as <- <-. split_and!; [done|apply kept_refl|done]. }
  apply bind_ok in Hr as (s & w1 & Hl & Hr). unfold lift in Hl. injection Hl as _ <-.
  apply bind_ok in Hr as (u & w1 & Ha & [= <- <-]).
  destruct (alter_event_kept _ _ _ _ _ Hw Ha) as [Hk Hw1].
  split_and!; [intros x; rewrite add_member_elem; by right| |done].
  eapply kept_mono; [|exact Hk]. intros x ->%list_elem_of_singleton. apply add_member_elem. by left.
Qed.

Lemma apply_attributes_kept attributes w altered w' :
  linked_well w → apply_attributes attributes w = (Ok altered, w') →
  kept altered (wk_ev w) (wk_ev w').
Proof.
  assert (∀ altered0, linked_well w → visit process_attribute altered0 attributes w = (Ok altered, w') →
    altered0 ⊆ altered ∧ kept altered (wk_ev w) (wk_ev w')) as Hgo.
  2: { intros Hw Hr. by apply (Hgo []). }
  revert w. induction attributes as [|attribute attributes IH]; intros w altered0 Hw; simpl.
  { intros [= -> ->]. split; [done|apply kept_refl]. }
  intros Hr. apply bind_ok in Hr as (altered1 & w1 & Ha & Hr).
  apply process_attribute_kept in Ha as (Hsub & Hk & Hw1); [|done].
  apply IH in Hr as [Hsub' Hk']; [|done]. split; [by etrans|].
  eapply kept_trans; [by eapply kept_mono|done].
Qed.

(** C26: Applying a profile changes only what the reply names as altered: the identifier and the
    time of the event stay, so does the tenant unless the reply names it, and so does every
    field that is not at or below an altered path. *)
Theorem processEvent_keeps_unaltered args r args' ev :
  processEvent args = (Ok r, args') → aa_CGREvent args = Some ev →
  ∃ ev', aa_CGREvent args' = Some ev' ∧ kept (are_AlteredFields r) ev ev'.
Proof.
  intros Hr Hev. unfold processEvent in Hr.
  apply bind_ok in Hr as (args0 & a1 & [= <- <-] & Hr).
  apply bind_ok in Hr as (prf & a1 & Hl & Hr). unfold lift in Hl. injection Hl as _ <-.
  apply bind_ok in Hr as (altered & a1 & Ho & [= <- <-]).
  revert Ho. unfold on_event. rewrite Hev.
  destruct (apply_attributes _ _) as [r' w] eqn:Ew. intros [= -> <-].
  eexists. split; [reflexivity|]. simpl.
  exact (apply_attributes_kept _ (mkWork ev [("*req", IMap (ev_Event ev))] true) _ _ (λ _, eq_refl) Ew).
Qed.

(** ** Runs *)

Lemma merge_reply_NoDup api evRply matched go_on api' :
  merge_reply api evRply matched = (go_on, api') → NoDup (are_MatchedProfiles api) →
  NoDup (are_MatchedProfiles api') ∧
  length (are_MatchedProfiles api') =
    (length (are_MatchedProfiles api) + (if go_on then 1 else 0))%nat.
Proof.
  unfold merge_reply, IsSliceMember. intros Hm Hnd.
  set (l := go_sort str_ltb (are_MatchedProfiles api)) in *.
  assert (l ≡ₚ are_MatchedProfiles api) as Hp by apply go_sort_perm.
  destruct (SliceHasMember l matched) eqn:E; injection Hm as <- <-; simpl.
  - split; [by rewrite Hp|]. rewrite (Permutation_length Hp). lia.
  - rewrite length_app, (Permutation_length Hp). simpl. split; [|lia]. rewrite NoDup_app. split_and!.
    + by rewrite Hp.
    + intros x Hx ->%list_elem_of_singleton. apply not_true_iff_false in E. apply E.
      apply SliceHasMember_sorted; [apply go_sort_all, _|done].
    + apply NoDup_singleton.
Qed.

Definition matched_of (api : option AttrSProcessEventReply) : list string :=
  match api with Some api => are_MatchedProfiles api | None => [] end.

Lemma processEvent_matched args r args' :
  processEvent args = (Ok r, args') → ∃ id, are_MatchedProfiles r = [id].
Proof.
  intros Hr. unfold processEvent in Hr.
  apply bind_ok in Hr as (? & ? & _ & Hr). apply bind_ok in Hr as (prf & ? & _ & Hr).
  apply bind_ok in Hr as (? & ? & _ & [= <- _]). by exists (ap_ID prf).
Qed.

Lemma process_runs_NoDup runs api args api' err args' :
  process_runs runs api args = (Ok (api', err), args') → NoDup (matched_of api) →
  NoDup (matched_of api') ∧ (length (matched_of api') ≤ length (matched_of api) + runs)%nat ∧
  (length (matched_of api) ≤ length (matched_of api'))%nat ∧
  (is_Some api' → api = None → (0 < length (matched_of api'))%nat).
Proof.
  revert api args. induction runs as [|runs IH]; intros api args; simpl.
  { intros [= <- _ _] Hnd. split_and!; [done|lia|lia|]. by intros [? ->]. }
  destruct (processEvent args) as [[r|e|] args1] eqn:Ep; [| |done].
  2: { intros [= <- _ _] Hnd. split_and!; [done|lia|lia|]. by intros [? ->]. }
  destruct (processEvent_matched _ _ _ Ep) as [id Hid]. rewrite Hid.
  destruct api as [api|].
  - destruct (merge_reply api r id) as [go_on api1] eqn:Em.
    intros Hr Hnd. destruct (merge_reply_NoDup _ _ _ _ _ Em Hnd) as [Hnd1 Hlen]. simpl in *.
    destruct (negb go_on || are_blocker r).
    + injection Hr as <- _ _. simpl. split_and!; [done|destruct go_on; lia|lia|done].
    + destruct (IH _ _ Hr Hnd1) as (?&?&?&_). simpl in *.
      split_and!; [done|destruct go_on; lia|destruct go_on; lia|done].
  - intros Hr Hnd. assert (NoDup (matched_of (Some r))) as Hnd1.
    { simpl. rewrite Hid. apply NoDup_singleton. }
    assert (length (matched_of (Some r)) = 1%nat) as Hlen by (simpl; by rewrite Hid).
    destruct (are_blocker r).
    + injection Hr as <- _ _. split_and!; [done|simpl in *; lia|simpl; lia|simpl in *; lia].
    + destruct (IH _ _ Hr Hnd1) as (?&?&?&_). split_and!; [done|simpl in *; lia|simpl; lia|lia].
Qed.

Lemma unpopulated_None ev : unpopulated ev = None → ∀ k, (k, IString "*attributes") ∉ ev_Event ev.
Proof.
  unfold unpopulated. intros Hf k Hin. apply fmap_None in Hf.
  apply list_elem_of_In in Hin. by apply (List.find_none _ _ Hf) in Hin.
Qed.


(** ** A profile that is applied twice *)

(** A profile with one composed attribute whose value does not depend on the event. *)
Definition appends (ap : AttributeProfile) (field text : string) : Prop :=
  ∃ value, ap_Attributes ap = [mkAttribute [] ("*req." +:+ field) "*composed" value] ∧
    (∀ dP, RSRParsers_ParseDataProvider value dP NestingSep = Ok text) ∧
    Split ("*req." +:+ field) NestingSep = ["*req"; field] ∧ plain field ∧
    "*req." +:+ field ≠ "*tenant" ∧ text ≠ "*remove" ∧ ap_Blocker ap = false.

Definition appended (field text : string) (ev : CGREvent) : CGREvent :=
  set_Event (ms_put field (IString
    (match ms_get field (ev_Event ev) with Some v => IfaceAsString v | None => "" end +:+ text))
    (ev_Event ev)) ev.

Lemma add_member_nil s : add_member [] s = [s].
Proof.
  unfold add_member, IsSliceMember.
  assert (go_sort str_ltb ([] : list string) = []) as -> by apply Permutation_nil_r, go_sort_perm. done.
Qed.

Lemma FieldAsString_req m field : plain field →
  FieldAsString [("*req", IMap m)] ["*req"; field] =
  match ms_get field m with Some v => Ok (IfaceAsString v) | None => Err NOT_FOUND end.
Proof.
  intros Hp. unfold FieldAsString.
  assert (FieldAsInterface [("*req", IMap m)] ["*req"; field] = FieldAsInterface m [field]) as ->
    by by rewrite FieldAsInterface_plain.
  rewrite FieldAsInterface_plain by done. by destruct (ms_get field m) as [[]|].
Qed.

Lemma processEvent_appends ap field text args ev :
  appends ap field text → aa_CGREvent args = Some ev → attributeProfileForEvent args = Ok ap →
  processEvent args =
    (Ok (mkAttrSProcessEventReply [ap_ID ap] ["*req." +:+ field] false),
     aa_set_CGREvent (appended field text ev) args).
Proof.
  intros (value & Hattr & Hval & Hsplit & Hplain & Ht & Hrem & Hb) Hev Hp.
  remember ("*req." +:+ field) as path eqn:Epath. clear Epath.
  unfold processEvent. erewrite run by reflexivity. simpl.
  erewrite run by (unfold lift; rewrite Hp; reflexivity).
  set (reply := mkAttrSProcessEventReply [ap_ID ap] [path] false).
  enough (on_event (apply_attributes (ap_Attributes ap)) args =
    (Ok [path], aa_set_CGREvent (appended field text ev) args)) as Ho.
  { erewrite run by exact Ho. unfold reply. by rewrite Hb. }
  unfold on_event. rewrite Hev, Hattr. unfold apply_attributes. simpl.
  set (w := mkWork ev [("*req", IMap (ev_Event ev))] true).
  set (attr := mkAttribute [] path "*composed" value).
  assert (alter_event attr text w =
    (Ok (), put_evNm [("*req", IMap (ev_Event (appended field text ev)))] w)) as Ha.
  { unfold alter_event. rewrite decide_False by done. rewrite decide_False by done.
    erewrite run by reflexivity. simpl. unfold value_to_set, composed. simpl.
    rewrite Hsplit, FieldAsString_req by done. unfold appended. destruct (ms_get field (ev_Event ev)) as [v|] eqn:Ef; simpl.
    - by erewrite run by (destruct v; reflexivity).
    - by erewrite run by reflexivity. }
  assert (process_attribute [] attr w = (Ok [path],
    put_evNm [("*req", IMap (ev_Event (appended field text ev)))] w)) as Hpa.
  { unfold process_attribute. erewrite run by reflexivity. simpl.
    erewrite run by reflexivity. simpl.
    erewrite run by (unfold lift, substitute_value; simpl; by rewrite Hval).
    erewrite run by exact Ha. by rewrite add_member_nil. }
  by erewrite run by exact Hpa.
Qed.
Lemma merge_reply_same api evRply id :
  are_MatchedProfiles api = [id] → merge_reply api evRply id = (false, api).
Proof.
  intros Hid. unfold merge_reply, IsSliceMember. rewrite Hid.
  assert (go_sort str_ltb [id] = [id]) as -> by apply Permutation_singleton_r, go_sort_perm.
  assert (SliceHasMember [id] id = true) as ->.
  { apply SliceHasMember_sorted; [|by left]. repeat constructor. }
  destruct api. simpl in *. by subst.
Qed.

(** With two runs or more, a profile that matches an event again after it was applied is
    applied again before the service sees that it was matched already: a composed value is
    appended twice, in a reply that names the profile and the field once. *)
Theorem V1ProcessEvent_appends_twice ap field text args ev :
  appends ap field text → aa_CGREvent args = Some ev → aa_nilEvent args = false →
  2 ≤ wanted_runs args →
  attributeProfileForEvent (prepare args ev) = Ok ap →
  attributeProfileForEvent (prepare args (appended field text ev)) = Ok ap →
  unpopulated (appended field text (appended field text ev)) = None →
  (V1ProcessEvent args).1 =
    Ok (mkAttrSProcessEventReply [ap_ID ap] ["*req." +:+ field] false,
        appended field text (appended field text ev)).
Proof.
  intros Hap Hev Hnil Hruns Hp1 Hp2 Hun. unfold V1ProcessEvent. rewrite Hev, Hnil.
  destruct (Z.to_nat (wanted_runs args)) as [|[|n]] eqn:En; [lia..|].
  set (reply := mkAttrSProcessEventReply [ap_ID ap] ["*req." +:+ field] false).
  assert (∀ args ev, aa_CGREvent args = Some ev → attributeProfileForEvent args = Ok ap →
    processEvent args = (Ok reply, aa_set_CGREvent (appended field text ev) args)) as Hstep
    by (intros args' ev'; by apply processEvent_appends).
  assert (are_blocker reply = false ∧ are_MatchedProfiles reply = [ap_ID ap]) as [Hb Hm] by done.
  assert (reply = mkAttrSProcessEventReply [ap_ID ap] ["*req." +:+ field] false) as Hreply by done.
  clearbody reply.
  assert (process_runs (S (S n)) None (prepare args ev) =
    (Ok (Some reply, None), prepare args (appended field text (appended field text ev)))) as Hr.
  { simpl. rewrite (Hstep _ ev), Hb by done.
    rewrite (Hstep _ (appended field text ev)), Hm by done.
    by rewrite (merge_reply_same reply reply (ap_ID ap)). }
  clear Hstep Hb Hm.
  erewrite run by exact Hr. unfold lift, checked_reply. simpl. by rewrite Hun, Hreply.
Qed.
End effects.

(** ** Examples *)
Section examples.
#[local] Existing Instances reference_text reference_runtime reference_regexp reference_filters.
#[local] Instance plain_errors : GoErrors := {| Atoi_error s := "" |}.

Definition constant_value (s : string) : list RSRParser := [mkRSRParser s true "" [] [] []].
Definition digits_profile : AttributeProfile :=
  mkAttributeProfile "t" "DIGITS" [] [] None
    [mkAttribute [] "*req.Digits" "*composed" (constant_value "7")] false f0.
Definition tenant_profile : AttributeProfile :=
  mkAttributeProfile "t" "TENANT" [] [] None
    [mkAttribute [] "*tenant" "*constant" (constant_value "other");
     mkAttribute [] "*req.Account" "*variable" (constant_value "*remove")] true f1.
#[local] Instance two_profiles : AttributeData := {|
  GetAttributeProfileDrv tenant id :=
    if decide (id = "DIGITS") then Ok digits_profile
    else if decide (id = "TENANT") then Ok tenant_profile else Err NOT_FOUND;
  parsers_JSON v := ""; as_index := mkIndexConfig None None false false; as_ProcessRuns := 1;
  as_RoundingDecimals := 5 |}.

Definition dialled : CGREvent :=
  mkCGREvent "t" "ev" None [("Digits", IString "00"); ("Account", IString "1001")].
Definition attribute_args (ids : list string) (runs : Z) : AttrArgsProcessEvent :=
  mkAttrArgsProcessEvent ids None (Some runs) (Some dialled) false.

(** The heavier profile of the two is applied; it sets the tenant and removes a field. *)
Example heavier_profile_applied :
  (V1ProcessEvent (attribute_args ["DIGITS"; "TENANT"] 2)).1 =
  Ok (mkAttrSProcessEventReply ["TENANT"] ["*tenant"; "*req.Account"] true,
      mkCGREvent "other" "ev" None [("Digits", IString "00")]).
Proof. vm_compute. reflexivity. Qed.

(** A removed field leaves its separator in the digest. *)
Example digest_keeps_separator :
  AttrSProcessEventReply_Digest (mkAttrSProcessEventReply [] ["*req.Account"; "*req.Digits"] false)
    (mkCGREvent "t" "ev" None [("Digits", IString "00")]) = ",Digits:00".
Proof. reflexivity. Qed.

(** Replacing the whole request by a value leaves the event as it is. *)
Example request_replaced :
  let w := mkWork dialled [("*req", IMap (ev_Event dialled))] true in
  (apply_attributes [mkAttribute [] "*req" "*constant" (constant_value "x");
                     mkAttribute [] "*req.Digits" "*constant" (constant_value "9")] w).2 =
  mkWork dialled [("*req", IString "x")] false.
Proof. vm_compute. reflexivity. Qed.

Lemma processEvent_keeps_unaltered_witness :
  ∃ ev', aa_CGREvent (processEvent (attribute_args ["TENANT"] 1)).2 = Some ev' ∧
    kept ["*tenant"; "*req.Account"] dialled ev'.
Proof.
  apply (processEvent_keeps_unaltered (attribute_args ["TENANT"] 1)
    (mkAttrSProcessEventReply ["TENANT"] ["*tenant"; "*req.Account"] true)); vm_compute; reflexivity.
Defined.


Lemma V1ProcessEvent_appends_twice_witness :
  (V1ProcessEvent (attribute_args ["DIGITS"] 3)).1 =
    Ok (mkAttrSProcessEventReply ["DIGITS"] ["*req.Digits"] false,
        mkCGREvent "t" "ev" None [("Digits", IString "0077"); ("Account", IString "1001")]).
Proof.
  apply (V1ProcessEvent_appends_twice digits_profile "Digits" "7" (attribute_args ["DIGITS"] 3) dialled);
    [|vm_compute; done..].
  exists (constant_value "7"). split_and!; [done|intros dP; vm_compute; done|vm_compute; done..].
Defined.
End examples.
