(* ===== verification/Chargers.v ===== *)
(** * Chargers

    The service that forks an event into one per charger profile: [engine/chargers.go], over
    the profiles of [engine/libchargers.go].  The service of attributes it calls is a function;
    [internal_attributes] is the one of [Attributes.v]. *)
From S2P Require Import Prelude GoFloat GoStrings GoTime CoreUtils Collections Values Filters RSR Stateful RatingProfile TariffPlan TariffActions TariffProfiles TariffRouting Profiles Attributes.

(** What a call of the attributes answers. *)
Definition AttributeService : Type :=
  AttrArgsProcessEvent → res (AttrSProcessEventReply * CGREvent).

Class ChargerData := {
  GetChargerProfileDrv : string → string → res ChargerProfile;
  chrg_attributes : AttributeService;
  chrg_index : IndexConfig
}.

Definition internal_attributes
    `{GoText} `{GoRuntime} `{GoRegexp} `{GoErrors} `{FilterData} `{AttributeData} : AttributeService :=
  λ args, (V1ProcessEvent args).1.

Record ChrgSProcessEventReply := mkChrgSProcessEventReply {
  cre_ChargerSProfile : string; cre_AttributeSProfiles : list string;
  cre_AlteredFields : list string; cre_CGREvent : CGREvent }.

Section chargers.
Context `{GoText} `{GoRuntime} `{FilterData} `{ChargerData}.

(** The profiles that match, under their items, then the heaviest first. *)
Definition matchingChargerProfilesForEvent (ev : CGREvent) : res (list ChargerProfile) :=
  ids ← indexed_ids chrg_index "*charger_filter_indexes" "cpp_" (ev_Tenant ev) ev;
  matchingCPs ← match_profiles (GetChargerProfileDrv (ev_Tenant ev))
    (λ (m : gmap string ChargerProfile) cpID cP, <[cpID := cP]> m) ev (go_range ids).*1 ∅;
  if decide (matchingCPs = ∅) then Err ErrNotFound
  else Ok (by_weight (go_range matchingCPs).*2).

Definition forked_event (ev : CGREvent) (cP : ChargerProfile) : CGREvent :=
  set_Event (ms_put "RunID" (IString (cpp_RunID cP)) (ev_Event ev)) ev.

Definition attribute_request (ev : CGREvent) (cP : ChargerProfile) : AttrArgsProcessEvent :=
  mkAttrArgsProcessEvent (cpp_AttributeIDs cP)
    (Some (FirstNonEmpty [IfaceAsString (default INil (ms_get "Context" (ev_Event ev))); "*chargers"]))
    None (Some ev) false.

Definition charge_profile (ev : CGREvent) (cP : ChargerProfile) : res ChrgSProcessEventReply :=
  let clonedEv := forked_event ev cP in
  if decide (cpp_AttributeIDs cP = ["*none"])
  then Ok (mkChrgSProcessEventReply (cpp_ID cP) [] ["*req.RunID"] clonedEv)
  else
    '(evReply, ev') ← chrg_attributes (attribute_request clonedEv cP);
    Ok (mkChrgSProcessEventReply (cpp_ID cP) (are_MatchedProfiles evReply)
          ("*req.RunID" :: are_AlteredFields evReply)
          (if decide (are_AlteredFields evReply = []) then clonedEv else ev')).

Definition chargers_processEvent (ev : CGREvent) : res (list ChrgSProcessEventReply) :=
  cPs ← matchingChargerProfilesForEvent ev;
  res_map (charge_profile ev) cPs.

Definition Chargers_V1ProcessEvent (ev : option CGREvent) (nilEvent : bool)
    : res (list ChrgSProcessEventReply) :=
  match ev with
  | None => Err (NewErrMandatoryIeMissing ["Event"])
  | Some ev => if nilEvent then Err (NewErrMandatoryIeMissing ["Event"])
               else as_server_error (chargers_processEvent ev)
  end.

Definition V1GetChargersForEvent (ev : option CGREvent) : res (list ChargerProfile) :=
  as_server_error (ev ← deref ev; matchingChargerProfilesForEvent ev).

(** ** Properties *)

Definition charger_matches (ev : CGREvent) (p : ChargerProfile) : Prop :=
  in_force p (ev_Time ev) = true ∧
  FilterS_Pass (ev_Tenant ev) (pf_FilterIDs p) (event_provider ev) = Ok true.

Lemma match_profiles_map get ev ids (m : gmap string ChargerProfile) :
  match_profiles get (λ m cpID cP, <[cpID := cP]> m) ev ids ∅ = Ok m →
  ∀ id p, m !! id = Some p ↔ id ∈ ids ∧ get id = Ok p ∧ charger_matches ev p.
Proof.
  intros Hm id p. rewrite match_profiles_fold in Hm.
  destruct (matching_profiles get ev ids) as [ps| |] eqn:Eps; [|done..]. injection Hm as <-.
  unfold charger_matches. rewrite <- (matching_profiles_spec get ev ids ps Eps id p).
  assert (∀ id p, (id, p) ∈ ps → get id = Ok p) as Hget.
  { intros id' p' Hin. by apply (matching_profiles_spec get ev ids ps Eps id' p') in Hin as (_ & ? & _). }
  clear Eps. assert (∀ m : gmap string ChargerProfile,
    (∀ id p, m !! id = Some p → get id = Ok p) →
    foldl (λ b kp, <[kp.1 := kp.2]> b) m ps !! id = Some p ↔ (id, p) ∈ ps ∨ m !! id = Some p) as Hgo.
  2: { rewrite Hgo; [|by intros ??]. rewrite lookup_empty. naive_solver. }
  induction ps as [|[k q] ps IH]; intros m Hm; simpl.
  { split; [by right|]. by intros [?%elem_of_nil|?]. }
  assert (get k = Ok q) as Hk by (apply Hget; by left).
  rewrite IH.
  - rewrite elem_of_cons, lookup_insert_Some. split.
    2: { intros [[[= -> ->]|?]|Hin]; auto. destruct (decide (k = id)) as [->|]; [|auto].
         apply Hm in Hin. right. left. split; congruence. }
    intros [?|[[-> ->]|[_ ?]]]; auto.
  - intros. apply Hget. by right.
  - intros id' p' [[-> ->]|[_ ?]]%lookup_insert_Some; auto.
Qed.

(** The reply of one profile. *)
Definition charged (ev : CGREvent) (cP : ChargerProfile) (r : ChrgSProcessEventReply) : Prop :=
  cre_ChargerSProfile r = cpp_ID cP ∧ head (cre_AlteredFields r) = Some "*req.RunID" ∧
  if decide (cpp_AttributeIDs cP = ["*none"])
  then cre_CGREvent r = forked_event ev cP ∧ cre_AlteredFields r = ["*req.RunID"]
  else ∃ evReply ev', chrg_attributes (attribute_request (forked_event ev cP) cP) = Ok (evReply, ev') ∧
    cre_AttributeSProfiles r = are_MatchedProfiles evReply ∧
    cre_AlteredFields r = "*req.RunID" :: are_AlteredFields evReply ∧
    cre_CGREvent r = if decide (are_AlteredFields evReply = []) then forked_event ev cP else ev'.

Lemma charge_profile_charged ev cP r : charge_profile ev cP = Ok r → charged ev cP r.
Proof.
  unfold charge_profile, charged. case_decide; [by intros [= <-]|].
  destruct (chrg_attributes _) as [[evReply ev']| |] eqn:E; [|done..]. intros [= <-].
  split_and!; [done..|]. by exists evReply, ev'.
Qed.


(** One profile whose attributes are not found fails the event for all. *)
Lemma attributes_not_found_fails ev cPs1 cP cPs2 rs :
  matchingChargerProfilesForEvent ev = Ok (cPs1 ++ cP :: cPs2) →
  res_map (charge_profile ev) cPs1 = Ok rs → cpp_AttributeIDs cP ≠ ["*none"] →
  chrg_attributes (attribute_request (forked_event ev cP) cP) = Err ErrNotFound →
  Chargers_V1ProcessEvent (Some ev) false = Err ErrNotFound.
Proof.
  intros Hm Hrs Hn Ha. unfold Chargers_V1ProcessEvent, chargers_processEvent. rewrite Hm. simpl.
  enough (res_map (charge_profile ev) (cPs1 ++ cP :: cPs2) = Err ErrNotFound) as -> by done.
  clear Hm. revert rs Hrs. induction cPs1 as [|cP1 cPs1 IH]; intros rs; simpl.
  - intros _. unfold charge_profile. by rewrite decide_False, Ha.
  - destruct (charge_profile ev cP1) as [r1| |]; [|done..]. simpl.
    destruct (res_map (charge_profile ev) cPs1) as [rs1| |]; [|done..]. simpl. intros _.
    by rewrite (IH rs1).
Qed.
End chargers.

(** ** Example: two chargers, one of which asks the attributes *)
Section example.
#[local] Existing Instances reference_text reference_runtime.
#[local] Instance listed_filters : FilterData := {|
  GetFilterDrv tenant id := Err NOT_FOUND; GetAccount key := Err NOT_FOUND;
  GetResource tenant id := Err NOT_FOUND; ReflectFieldMethodInterface obj fld := Err NOT_FOUND;
  stat_metrics tenant id := Err NOT_FOUND; fd_GetReverseDestination p := Err NOT_FOUND;
  fd_regexp := reference_regexp; MatchFilterIndex a b c d e := Err NOT_FOUND;
  GetKeysForPrefix p := Ok ["cpp_t:RAW"; "cpp_t:DEFAULT"; "cpp_t:GONE"];
  now := zero_time |}.

Definition plain_charger (id run : string) (attributes : list string) (weight : float64) : ChargerProfile :=
  mkChargerProfile "t" id [] None run attributes weight.
Definition tagged (args : AttrArgsProcessEvent) : res (AttrSProcessEventReply * CGREvent) :=
  ev ← deref (aa_CGREvent args);
  Ok (mkAttrSProcessEventReply ["TAG"] ["*req.Tag"] false,
      set_Event (ms_put "Tag" (IString "x") (ev_Event ev)) ev).
#[local] Instance two_chargers : ChargerData := {|
  GetChargerProfileDrv tenant id :=
    if decide (id = "RAW") then Ok (plain_charger "RAW" "*raw" ["*none"] f0)
    else if decide (id = "DEFAULT") then Ok (plain_charger "DEFAULT" "*default" [] f1)
    else Err NOT_FOUND;
  chrg_attributes := tagged;
  chrg_index := mkIndexConfig None None false false |}.

Definition charged_call : CGREvent := mkCGREvent "t" "ev" None [("Account", IString "1001")].
Definition forked_call (run : string) (tag : list (string * iface)) : CGREvent :=
  mkCGREvent "t" "ev" None ([("Account", IString "1001"); ("RunID", IString run)] ++ tag).
Definition forked_replies : list ChrgSProcessEventReply :=
  [mkChrgSProcessEventReply "DEFAULT" ["TAG"] ["*req.RunID"; "*req.Tag"]
     (forked_call "*default" [("Tag", IString "x")]);
   mkChrgSProcessEventReply "RAW" [] ["*req.RunID"] (forked_call "*raw" [])].

End example.
