(* ===== verification/StatService.v ===== *)
(** * The service of the statistics

    [engine/stats.go] and what [engine/datamanager.go] does for it.  As for the thresholds, the
    queues loaded from the database are a store and the cache holds pointers into it, so the
    queue that is matched, cached and waiting to be saved is one object.  Left out: locks,
    logging, the limits of the cache, replication and remote databases, the backup goroutine
    around [storeStats].  The database keeps the queues themselves; the profile and the time
    to live of a queue are set when it is matched and not read before. *)
From S2P Require Import Prelude GoFloat GoStrings GoTime CoreUtils Values Filters StatMetrics StatQueue Stateful RatingProfile TariffPlan TariffActions TariffProfiles TariffRouting Profiles.

(** A queue with its flag, nil when it is not to be saved. *)
Record StatEntry := mkStatEntry { se_queue : StatQueue; se_dirty : option bool }.
Definition se_TenantID (e : StatEntry) : string := sq_TenantID (se_queue e).

(** The event of a statistic, as sent to the thresholds it names. *)
Record ThresholdCall := mkThresholdCall { tcl_ThresholdIDs : list string; tcl_event : CGREvent }.

Record StatState := mkStatState {
  sst_heap : list StatEntry; sst_cache : gmap string (option nat); sst_db : gmap string StatQueue;
  sst_stored : gset string; sst_sent : list ThresholdCall }.

(** [sa_nilEvent] tells an event without a map from one with an empty map. *)
Record StatsArgsProcessEvent := mkStatsArgsProcessEvent {
  sa_StatIDs : list string; sa_CGREvent : option CGREvent; sa_nilEvent : bool }.

Class StatData := {
  GetStatQueueProfile : string → string → res StatQueueProfile;
  (** the errors of the database, none for a queue that is only missing *)
  GetStatQueue_error : string → option string;
  SetStatQueue_error : StatQueue → option string;
  (** the answer of the thresholds, after the calls before it, and the identifier of an event *)
  ThresholdS_error : list ThresholdCall → ThresholdCall → option string;
  stat_UUID : nat → string;
  stat_StoreInterval : Z; stat_ThresholdSConns : bool; stat_index : IndexConfig
}.

Definition PARTIALLY_EXECUTED : string := "PARTIALLY_EXECUTED".

#[local] Abbreviation M := (SM StatState).

Definition sst_set_heap (h : list StatEntry) (st : StatState) : StatState :=
  mkStatState h (sst_cache st) (sst_db st) (sst_stored st) (sst_sent st).
Definition sst_set_cache (c : gmap string (option nat)) (st : StatState) : StatState :=
  mkStatState (sst_heap st) c (sst_db st) (sst_stored st) (sst_sent st).
Definition sst_set_db (d : gmap string StatQueue) (st : StatState) : StatState :=
  mkStatState (sst_heap st) (sst_cache st) d (sst_stored st) (sst_sent st).
Definition sst_set_stored (s : gset string) (st : StatState) : StatState :=
  mkStatState (sst_heap st) (sst_cache st) (sst_db st) s (sst_sent st).
Definition sst_set_sent (s : list ThresholdCall) (st : StatState) : StatState :=
  mkStatState (sst_heap st) (sst_cache st) (sst_db st) (sst_stored st) s.

Definition set_dirty (d : bool) (e : StatEntry) : StatEntry := mkStatEntry (se_queue e) (Some d).
Definition set_queue (q : StatQueue) (e : StatEntry) : StatEntry := mkStatEntry q (se_dirty e).

Definition load_entry (l : nat) : M StatEntry := λ st, (deref (sst_heap st !! l), st).
Definition update_entry (l : nat) (f : StatEntry → StatEntry) : M () :=
  modify (λ st, sst_set_heap (alter f l (sst_heap st)) st).

Section stats.
Context `{GoText} `{GoRuntime} `{StatConfig} `{FilterData} `{StatData}.

(** ** The database and the cache *)

Definition GetStatQueue (tenant id : string) (cacheRead : bool) : M nat := λ st,
  let tntID := ConcatenatedKey [tenant; id] in
  let put x := sst_set_cache (<[tntID := x]> (sst_cache st)) in
  match (if cacheRead then sst_cache st !! tntID else None) with
  | Some (Some l) => (Ok l, st)
  | Some None => (Err NOT_FOUND, st)
  | None =>
      match GetStatQueue_error tntID, sst_db st !! tntID with
      | Some e, _ => (Err e, if decide (e = NOT_FOUND) then put None st else st)
      | None, Some q =>
          let l := length (sst_heap st) in
          (Ok l, put (Some l) (sst_set_heap (sst_heap st ++ [mkStatEntry q None]) st))
      | None, None => (Err NOT_FOUND, put None st)
      end
  end.

Definition SetStatQueue (q : StatQueue) : M () := λ st,
  match SetStatQueue_error q with
  | Some e => (Err e, st)
  | None => (Ok (), sst_set_db (<[sq_TenantID q := q]> (sst_db st)) st)
  end.

(** Loads a cached queue again, and forgets one that is gone. *)
Definition CacheStatQueueFromDB (dataID : string) : M () := λ st,
  match sst_cache st !! dataID with
  | None => (Ok (), st)
  | Some _ =>
      let tntID := NewTenantID dataID in
      match GetStatQueue (tid_Tenant tntID) (tid_ID tntID) false st with
      | (Ok _, st') => (Ok (), st')
      | (Err e, st') =>
          if decide (e = NOT_FOUND) then (Ok (), sst_set_cache (delete dataID (sst_cache st')) st')
          else (Err e, st')
      | (Panic, st') => (Panic, st')
      end
  end.

Definition StoreStatQueue (l : nat) : M () :=
  e ← load_entry l;
  if bool_decide (se_dirty e = Some true) then
    _ ← SetStatQueue (se_queue e);
    _ ← CacheStatQueueFromDB (se_TenantID e);
    update_entry l (set_dirty false)
  else mret ().

(** One task of backup: the queues waiting until none is left, the failed ones put back at the
    end. *)
Fixpoint store_stats_loop (fuel : nat) (failedSqIDs : list string) : M (list string) := λ st,
  match fuel, (go_range (gset_to_gmap () (sst_stored st))).*1 with
  | S fuel, sID :: _ =>
      let st := sst_set_stored (sst_stored st ∖ {[sID]}) st in
      match sst_cache st !! sID with
      | Some (Some l) =>
          (err ← attempt (StoreStatQueue l);
           store_stats_loop fuel
             (match err with None => failedSqIDs | Some _ => failedSqIDs ++ [sID] end)) st
      | _ => store_stats_loop fuel failedSqIDs st
      end
  | _, _ => (Ok failedSqIDs, st)
  end.
Definition storeStats : M () := λ st,
  (failedSqIDs ← store_stats_loop (size (sst_stored st)) [];
   modify (λ st, sst_set_stored (sst_stored st ∪ list_to_set failedSqIDs) st)) st.

(** ** The queues an event matches *)

Definition event_queues (args : StatsArgsProcessEvent) (ev : CGREvent) : res (list string) :=
  match sa_StatIDs args with
  | [] =>
      ids ← indexed_ids stat_index "*stat_filter_indexes" "sqp_" (ev_Tenant ev) ev;
      Ok (go_range ids).*1
  | ids => Ok ids
  end.

Definition stat_in_force (prf : StatQueueProfile) (t : option Time) : bool :=
  match sqp_ActivationInterval prf, t with
  | Some ai, Some t => IsActiveAtTime ai t
  | _, _ => true
  end.

(** The queue with its profile, the time to live of it, and the flag when it is to be saved. *)
Definition matched_entry (prf : StatQueueProfile) (e : StatEntry) : StatEntry :=
  let q := se_queue e in
  mkStatEntry (mkStatQueue (sq_Tenant q) (sq_ID q) (SQItems q) (SQMetrics q) prf
                 (if 0 <=? sqp_TTL prf then Some (sqp_TTL prf) else sq_ttl q))
    (if sqp_Stored prf && bool_decide (se_dirty e = None) then Some false else se_dirty e).

Fixpoint match_queues (ev : CGREvent) (sqIDs : list string) (matchingSQs : gmap string nat)
    : M (gmap string nat) :=
  match sqIDs with
  | [] => mret matchingSQs
  | sqID :: sqIDs' =>
      match GetStatQueueProfile (ev_Tenant ev) sqID with
      | Panic => lift Panic
      | Err e => if decide (e = NOT_FOUND) then match_queues ev sqIDs' matchingSQs else fails e
      | Ok prf =>
          if negb (stat_in_force prf (ev_Time ev)) then match_queues ev sqIDs' matchingSQs
          else
            pass ← lift (FilterS_Pass (ev_Tenant ev) (sqp_FilterIDs prf) (event_provider ev));
            if (pass : bool) then
              l ← GetStatQueue (sqp_Tenant prf) (sqp_ID prf) true;
              _ ← update_entry l (matched_entry prf);
              match_queues ev sqIDs' (<[sqp_ID prf := l]> matchingSQs)
            else match_queues ev sqIDs' matchingSQs
      end
  end.

Definition profile_at (st : StatState) (l : nat) : option StatQueueProfile :=
  sqPrfl ∘ se_queue <$> sst_heap st !! l.
Definition sort_queues (st : StatState) (ls : list nat) : list nat :=
  go_sort (λ a b, fgtb (default f0 (sqp_Weight <$> profile_at st a))
                       (default f0 (sqp_Weight <$> profile_at st b))) ls.
(** Up to the first blocker, included. *)
Fixpoint queues_to_blocker (st : StatState) (ls : list nat) : list nat :=
  match ls with
  | [] => []
  | l :: ls' => if default false (sqp_Blocker <$> profile_at st l) then [l]
                else l :: queues_to_blocker st ls'
  end.

Definition matchingStatQueuesForEvent (args : StatsArgsProcessEvent) (ev : CGREvent) : M (list nat) :=
  sqIDs ← lift (event_queues args ev);
  matchingSQs ← match_queues ev sqIDs ∅;
  gets (λ st, queues_to_blocker st (sort_queues st (go_range matchingSQs).*2)).

(** ** Processing an event *)

(** The value of a metric as an interface, and the metric with the value cached. *)
Definition GetValue (sm : StatMetric) : res (iface * StatMetric) :=
  match sm with
  | StatACD m => '(v, m) ← ACD_getValue m; Ok (IDuration v, StatACD m)
  | StatTCD m => '(v, m) ← TCD_getValue m; Ok (IDuration v, StatTCD m)
  | StatPDD m => '(v, m) ← PDD_getValue m; Ok (IDuration v, StatPDD m)
  | _ => r ← GetValues sm; Ok (IFloat64 r.1.1, r.2)
  end.

(** The values of the metrics in the order of the map. *)
Fixpoint metric_values {A} (value : StatMetric → res (A * StatMetric))
    (todo : list (string * StatMetric)) (metrics : gmap string StatMetric)
    : res (list (string * A) * gmap string StatMetric) :=
  match todo with
  | [] => Ok ([], metrics)
  | (metricID, metric) :: todo =>
      '(v, metric) ← value metric;
      '(vs, metrics) ← metric_values value todo (<[metricID := metric]> metrics);
      Ok ((metricID, v) :: vs, metrics)
  end.
Definition read_metrics {A} (value : StatMetric → res (A * StatMetric)) (l : nat)
    : M (list (string * A)) :=
  e ← load_entry l;
  '(vs, metrics) ← lift (metric_values value (go_range (SQMetrics (se_queue e))) (SQMetrics (se_queue e)));
  _ ← update_entry l (λ e, set_queue (with_metrics (se_queue e) metrics) e);
  mret vs.

(** Tells the thresholds; [true] is an error. *)
Definition threshold_call (l : nat) : M bool :=
  e ← load_entry l;
  let q := se_queue e in
  let thIDs := sqp_ThresholdIDs (sqPrfl q) in
  if negb stat_ThresholdSConns || bool_decide (thIDs = ["*none"]) then mret false
  else
    id ← gets (λ st, stat_UUID (length (sst_sent st)));
    vs ← read_metrics GetValue l;
    let call := mkThresholdCall thIDs (mkCGREvent (sq_Tenant q) id None
      (foldl (λ m kv, ms_put kv.1 kv.2 m)
         [("EventType", IString "StatUpdate"); ("StatID", IString (sq_ID q))] vs)) in
    err ← gets (λ st, ThresholdS_error (sst_sent st) call);
    _ ← modify (λ st, sst_set_sent (sst_sent st ++ [call]) st);
    mret match err with Some e => negb (bool_decide (e = NOT_FOUND)) | None => false end.

(** Saves the queue at once, or with the next backup. *)
Definition schedule_save (l : nat) : M () :=
  e ← load_entry l;
  if (stat_StoreInterval =? 0) || bool_decide (se_dirty e = None) then mret ()
  else
    _ ← update_entry l (set_dirty true);
    if stat_StoreInterval =? -1 then _ ← attempt (StoreStatQueue l); mret ()
    else modify (λ st, sst_set_stored (sst_stored st ∪ {[se_TenantID e]}) st).

Definition queue_event (ev : CGREvent) (l : nat) : M () :=
  e ← load_entry l;
  let '(r, q) := ProcessEvent (se_queue e) ev in
  _ ← update_entry l (set_queue q);
  lift r.

(** One queue: its name, and whether there were errors. *)
Definition process_queue (ev : CGREvent) (l : nat) : M (string * bool) :=
  e ← load_entry l;
  err ← attempt (queue_event ev l);
  _ ← schedule_save l;
  failed ← threshold_call l;
  mret (sq_ID (se_queue e), bool_decide (is_Some err) || failed).

Fixpoint process_queues (ev : CGREvent) (ls : list nat) : M (list string * bool) :=
  match ls with
  | [] => mret ([], false)
  | l :: ls' =>
      r ← process_queue ev l;
      rs ← process_queues ev ls';
      mret (r.1 :: rs.1, r.2 || rs.2)
  end.

Definition stats_processEvent (args : StatsArgsProcessEvent) (ev : CGREvent) : M (list string) :=
  matchSQs ← matchingStatQueuesForEvent args ev;
  r ← process_queues ev matchSQs;
  match r with
  | ([], _) => fails NOT_FOUND
  | (_, true) => fails PARTIALLY_EXECUTED
  | (stsIDs, false) => mret stsIDs
  end.

(** ** The calls *)

Definition stat_args (args : StatsArgsProcessEvent) : res CGREvent :=
  match sa_CGREvent args with
  | None => Err (NewErrMandatoryIeMissing ["CGREvent"])
  | Some ev =>
      let ev := mkCGREvent (TrimSpace (ev_Tenant ev)) (TrimSpace (ev_ID ev)) (ev_Time ev)
                  (ev_Event ev) in
      match (if decide (ev_Tenant ev = "") then ["Tenant"] else []) ++
            (if decide (ev_ID ev = "") then ["ID"] else []) with
      | [] => if sa_nilEvent args then Err (NewErrMandatoryIeMissing ["Event"]) else Ok ev
      | missing => Err (NewErrMandatoryIeMissing missing)
      end
  end.

Definition Stats_V1ProcessEvent (args : StatsArgsProcessEvent) : M (list string) :=
  ev ← lift (stat_args args); stats_processEvent args ev.
Definition V1GetStatQueuesForEvent (args : StatsArgsProcessEvent) : M (list string) :=
  ev ← lift (stat_args args);
  sQs ← matchingStatQueuesForEvent args ev;
  st ← gets id;
  lift (res_map (λ l, e ← deref (sst_heap st !! l); Ok (sq_ID (se_queue e))) sQs).
Definition V1GetStatQueue (tenant id : string) : M StatEntry :=
  l ← GetStatQueue tenant id true; load_entry l.

Definition queue_metrics {A} (value : StatMetric → res (A * StatMetric)) (tenant id : string)
    : M (list (string * A)) := λ st,
  let tenant := TrimSpace tenant in let id := TrimSpace id in
  match (if decide (tenant = "") then ["Tenant"] else []) ++ (if decide (id = "") then ["ID"] else []) with
  | [] =>
      let '(r, st) := GetStatQueue tenant id true st in
      (l ← lift (as_server_error r); read_metrics value l) st
  | missing => (Err (NewErrMandatoryIeMissing missing), st)
  end.
Definition V1GetQueueStringMetrics : string → string → M (list (string * string)) :=
  queue_metrics (λ sm, r ← GetValues sm; Ok (r.1.2, r.2)).
Definition V1GetQueueFloatMetrics : string → string → M (list (string * float64)) :=
  queue_metrics (λ sm, r ← GetValues sm; Ok (r.1.1, r.2)).

Definition V1GetQueueIDs (tenant : string) : res (list string) :=
  let prfx := "stq_" +:+ tenant +:+ ":" in
  keys ← GetKeysForPrefix prfx; res_map (λ key, slice key (slen prfx) (slen key)) keys.
End stats.
