(* ===== verification/StatSaves.v ===== *)
(** * No update of a statistic is forgotten

    Between backups, a cached queue that was changed and is to be saved waits under its name
    among those to store; events, queries and backups in any order keep it so.  A backup
    without errors of the database then leaves no cached queue unsaved. *)
From S2P Require Import Prelude GoFloat GoStrings GoTime CoreUtils Values Filters StatMetrics StatQueue Stateful RatingProfile TariffPlan TariffActions TariffProfiles TariffRouting Profiles StatService.

(** A cached queue is cached under its own name, so it is stored under its own name, and it
    waits if it is dirty, or it is among the names [F]. *)
Definition entry_waits (F : gset string) (st : StatState) (k : string) (l : nat) : Prop :=
  ∃ e, sst_heap st !! l = Some e ∧ se_TenantID e = k ∧
    (se_dirty e = Some true → k ∈ sst_stored st ∪ F).
Definition waiting (F : gset string) (st : StatState) : Prop :=
  (∀ k l, sst_cache st !! k = Some (Some l) → entry_waits F st k l) ∧
  (∀ k q, sst_db st !! k = Some q → sq_TenantID q = k).
Definition keeps (F : gset string) (st st' : StatState) : Prop := waiting F st → waiting F st'.

#[export] Instance keeps_preorder F : PreOrder (keeps F).
Proof. split; [by intros st Hw|]. intros st1 st2 st3 H12 H23 Hw. by apply H23, H12. Qed.

Lemma waiting_mono F F' st : F ⊆ F' → waiting F st → waiting F' st.
Proof.
  intros Hsub [Hc Hd]. split; [|done]. intros k l Hk.
  destruct (Hc k l Hk) as (e & He & Hn & Hw). exists e. split_and!; [done..|]. set_solver.
Qed.

(** An update of an entry that keeps its name and does not make it dirty. *)
Definition tame (f : StatEntry → StatEntry) : Prop :=
  ∀ e, se_TenantID (f e) = se_TenantID e ∧ (se_dirty (f e) = Some true → se_dirty e = Some true).

Lemma entry_waits_update F st k l0 f l :
  tame f → entry_waits F st k l →
  entry_waits F (sst_set_heap (alter f l0 (sst_heap st)) st) k l.
Proof.
  intros Hf (e & He & Hn & Hw). unfold entry_waits. simpl. rewrite list_lookup_alter.
  case_decide; [subst|by exists e]. exists (f e). destruct (Hf e) as [Hn' Hd'].
  rewrite He. split_and!; [done|congruence|auto].
Qed.
Lemma update_entry_keeps F l f : tame f → along (keeps F) (update_entry l f).
Proof. intros Hf st [Hc Hd]. split; [|done]. simpl. intros k l' Hk. apply entry_waits_update; auto. Qed.

Lemma along_load_entry (R : relation StatState) `{!PreOrder R} l : along R (load_entry l).
Proof. intros st. simpl. reflexivity. Qed.
#[export] Hint Resolve along_load_entry : along.

Lemma cache_waits F st k v : waiting F st →
  (∀ l, v = Some l → entry_waits F st k l) →
  waiting F (sst_set_cache (<[k := v]> (sst_cache st)) st).
Proof.
  intros [Hc Hd] Hv. split; [|done]. simpl. intros k' l. rewrite lookup_insert.
  case_decide as Ek; [|apply Hc]. intros [= ->]. subst k'. by apply Hv.
Qed.

Section saves.
Context `{GoText} `{GoRuntime} `{StatConfig} `{FilterData} `{StatData}.

Lemma GetStatQueue_keeps F tenant id read : along (keeps F) (GetStatQueue tenant id read).
Proof.
  intros st Hw. unfold GetStatQueue. destruct (if read then _ else _) as [[l|]|]; [done..|].
  destruct (GetStatQueue_error _) as [e|].
  { simpl. case_decide; [|done]. by apply cache_waits. }
  destruct (sst_db st !! _) as [q|] eqn:Eq; simpl; [|by apply cache_waits].
  apply (cache_waits F (sst_set_heap (sst_heap st ++ [mkStatEntry q None]) st)).
  - destruct Hw as [Hc Hd]. split; [|done]. simpl. intros k l Hk.
    destruct (Hc k l Hk) as (e & He & Hn & Hwt). exists e. simpl.
    split_and!; [by apply lookup_app_l_Some|done|done].
  - intros l [= <-]. exists (mkStatEntry q None). simpl. rewrite list_lookup_middle by done.
    split_and!; [done|by apply (proj2 Hw)|done].
Qed.
Lemma SetStatQueue_keeps F q : along (keeps F) (SetStatQueue q).
Proof.
  intros st [Hc Hd]. unfold SetStatQueue. destruct (SetStatQueue_error q); [done|].
  split; [done|]. simpl. intros k q'. rewrite lookup_insert. case_decide as Ek; [|apply Hd].
  by intros [= <-].
Qed.
Lemma CacheStatQueueFromDB_keeps F k : along (keeps F) (CacheStatQueueFromDB k).
Proof.
  intros st Hw. unfold CacheStatQueueFromDB. destruct (sst_cache st !! k); [|done].
  pose proof (GetStatQueue_keeps F (tid_Tenant (NewTenantID k)) (tid_ID (NewTenantID k)) false
                st Hw) as Hw'.
  destruct (GetStatQueue _ _ _ st) as [[l|e|] st1]; simpl in *; [done| |done].
  case_decide; [|done]. destruct Hw' as [Hc Hd]. split; [|done]. simpl.
  intros k' l [_ Hl]%lookup_delete_Some. by apply Hc.
Qed.

Lemma tame_dirty_false : tame (set_dirty false).
Proof. by intros e. Qed.
Lemma tame_set_queue q : (∀ e, sq_TenantID q = se_TenantID e) → tame (set_queue q).
Proof. intros Hq e. split; [apply Hq|done]. Qed.

Lemma StoreStatQueue_keeps F l : along (keeps F) (StoreStatQueue l).
Proof.
  unfold StoreStatQueue. along_steps;
    [apply SetStatQueue_keeps|apply CacheStatQueueFromDB_keeps|by apply update_entry_keeps].
Qed.

(** ** A queue that was saved *)

Definition clean (st : StatState) (k : string) : Prop :=
  ∀ l e, sst_cache st !! k = Some (Some l) → sst_heap st !! l = Some e → se_dirty e ≠ Some true.

(** Reloading keeps the pointer or replaces it by one to a clean queue. *)
Lemma CacheStatQueueFromDB_clean k st st' l :
  CacheStatQueueFromDB k st = (Ok (), st') → sst_cache st !! k = Some (Some l) →
  ∀ l', sst_cache st' !! k = Some (Some l') →
    l' = l ∨ ∃ e, sst_heap st' !! l' = Some e ∧ se_dirty e = None.
Proof.
  unfold CacheStatQueueFromDB. intros Hr Hk l' Hl'. rewrite Hk in Hr.
  unfold GetStatQueue in Hr. set (key := ConcatenatedKey _) in *.
  destruct (GetStatQueue_error key) as [e|].
  { simpl in Hr. case_decide as He; [|done]. injection Hr as <-. simpl in Hl'.
    by rewrite lookup_delete_eq in Hl'. }
  destruct (sst_db st !! key) as [q|]; simpl in Hr.
  - injection Hr as <-. simpl in Hl'. rewrite lookup_insert in Hl'. case_decide.
    + injection Hl' as <-. right. exists (mkStatEntry q None). simpl.
      by rewrite list_lookup_middle.
    + left. congruence.
  - injection Hr as <-. simpl in Hl'. by rewrite lookup_delete_eq in Hl'.
Qed.

Lemma StoreStatQueue_clean F k l st st' :
  StoreStatQueue l st = (Ok (), st') → sst_cache st !! k = Some (Some l) →
  waiting F st → clean st' k.
Proof.
  intros Hr Hk Hw. unfold StoreStatQueue in Hr.
  destruct (proj1 Hw k l Hk) as (e & He & Hn & _).
  apply bind_ok in Hr as (e' & st1 & Hl & Hr). unfold load_entry in Hl. rewrite He in Hl.
  injection Hl as <- <-. destruct (bool_decide_reflect (se_dirty e = Some true)) as [Hd|Hd].
  2: { injection Hr as <-. intros l' e' Hl' He' Hd'. simplify_eq. }
  apply bind_ok in Hr as ([] & st1 & Hs & Hr). apply bind_ok in Hr as ([] & st2 & Hc & Hr).
  unfold update_entry, modify in Hr. injection Hr as <-. rewrite Hn in Hc.
  assert (sst_cache st1 = sst_cache st) as Hst1.
  { revert Hs. unfold SetStatQueue. destruct (SetStatQueue_error _); [done|]. by intros [= <-]. }
  rewrite <- Hst1 in Hk.
  intros l' e' Hl' He'. simpl in Hl', He'. rewrite list_lookup_alter in He'.
  destruct (CacheStatQueueFromDB_clean _ _ _ _ Hc Hk l' Hl') as [->|(e2 & He2 & Hd2)].
  - rewrite decide_True in He' by done. destruct (sst_heap st2 !! l); [|done]. by injection He' as <-.
  - case_decide; [subst; rewrite He2 in He'; by injection He' as <-|]. simplify_eq. by rewrite Hd2.
Qed.

(** It ends with an answer or an error. *)
Lemma GetStatQueue_answers tenant id read st : (GetStatQueue tenant id read st).1 ≠ Panic.
Proof.
  unfold GetStatQueue. destruct (if read then _ else _) as [[l|]|]; [done..|].
  destruct (GetStatQueue_error _); [done|]. by destruct (_ !! _).
Qed.
Lemma CacheStatQueueFromDB_answers k st : (CacheStatQueueFromDB k st).1 ≠ Panic.
Proof.
  unfold CacheStatQueueFromDB. destruct (_ !! _); [|done].
  match goal with |- context [GetStatQueue ?t ?i ?b st] =>
    pose proof (GetStatQueue_answers t i b st) as Hn; destruct (GetStatQueue t i b st) as [[?|?|] ?] end;
    simpl in *; [done| |done]. by case_decide.
Qed.
Lemma StoreStatQueue_answers l st :
  is_Some (sst_heap st !! l) → (StoreStatQueue l st).1 ≠ Panic.
Proof.
  intros [e He]. unfold StoreStatQueue. erewrite run by (unfold load_entry; rewrite He; reflexivity).
  case_bool_decide; [|done]. unfold mbind, SM_bind, SetStatQueue.
  destruct (SetStatQueue_error _); [done|].
  match goal with |- context [CacheStatQueueFromDB ?k ?s] =>
    pose proof (CacheStatQueueFromDB_answers k s) as Hn; destruct (CacheStatQueueFromDB k s) as [[?|?|] ?] end;
    done.
Qed.

Definition saves_succeed : Prop :=
  (∀ q, SetStatQueue_error q = None) ∧ ∀ k, GetStatQueue_error k = None.
Lemma StoreStatQueue_saves l st :
  saves_succeed → is_Some (sst_heap st !! l) → (StoreStatQueue l st).1 = Ok ().
Proof.
  intros [Hset Hget] [e He]. unfold StoreStatQueue.
  erewrite run by (unfold load_entry; rewrite He; reflexivity).
  case_bool_decide; [|done]. unfold mbind, SM_bind, SetStatQueue. rewrite Hset.
  unfold CacheStatQueueFromDB, GetStatQueue. destruct (sst_cache _ !! _); [|done]. rewrite Hget.
  by destruct (sst_db _ !! _).
Qed.

(** Saving does not touch the names waiting. *)
Definition same_stored (st st' : StatState) : Prop := sst_stored st' = sst_stored st.
#[local] Instance same_stored_preorder : PreOrder same_stored.
Proof. split; [by intros st|]. unfold same_stored. intros ???. congruence. Qed.

Lemma GetStatQueue_stored tenant id read : along same_stored (GetStatQueue tenant id read).
Proof.
  intros st. unfold GetStatQueue, same_stored. destruct (if read then _ else _) as [[l|]|]; [done..|].
  destruct (GetStatQueue_error _); [simpl; by case_decide|]. by destruct (sst_db st !! _).
Qed.
Lemma StoreStatQueue_stored l : along same_stored (StoreStatQueue l).
Proof.
  unfold StoreStatQueue. along_steps.
  - intros st. unfold SetStatQueue, same_stored. by destruct (SetStatQueue_error _).
  - intros st. unfold CacheStatQueueFromDB. destruct (sst_cache st !! _); [|done].
    match goal with |- context [GetStatQueue ?t ?i ?b st] =>
      pose proof (GetStatQueue_stored t i b st) as Hs; destruct (GetStatQueue t i b st) as [[?|?|] ?] end;
      simpl in *; [done| |done]. by case_decide.
  - by intros st.
Qed.

(** ** A backup *)

Lemma waiting_saved F k st : waiting (F ∪ {[k]}) st → clean st k → waiting F st.
Proof.
  intros [Hc Hd] Hk. split; [|done]. intros k' l Hk'. destruct (Hc k' l Hk') as (e & He & Hn & Hw).
  exists e. split_and!; [done..|]. intros Hdirty. specialize (Hw Hdirty).
  destruct (decide (k' = k)) as [->|]; [|set_solver]. by destruct (Hk l e).
Qed.
Lemma clean_missing st k : (∀ l, sst_cache st !! k ≠ Some (Some l)) → clean st k.
Proof. intros Hk l e Hl. by destruct (Hk l). Qed.

Lemma waiting_weaken F F' st : F ⊆ F' → waiting F st → waiting F' st.
Proof. apply waiting_mono. Qed.

Lemma store_stats_loop_waits fuel failed st r st' :
  store_stats_loop fuel failed st = (r, st') →
  waiting (list_to_set failed) st →
  ∃ failed', r = Ok failed' ∧ waiting (list_to_set failed') st' ∧
    (size (sst_stored st) ≤ fuel → sst_stored st' = ∅)%nat ∧ (saves_succeed → failed' = failed).
Proof.
  revert failed st. induction fuel as [|fuel IH]; intros failed st; simpl.
  { intros [= <- <-] Hw. exists failed. split_and!; [done..| |done]. intros Hs.
    apply leibniz_equiv, size_empty_inv. lia. }
  assert ((go_range (gset_to_gmap () (sst_stored st))).*1 ≡ₚ elements (sst_stored st)) as Hp.
  { rewrite go_range_perm. by rewrite map_to_list_gset_to_gmap, <- list_fmap_compose, list_fmap_id. }
  destruct ((go_range _).*1) as [|sID rest].
  { intros [= <- <-] Hw. exists failed. split_and!; [done..| |done]. intros _.
    symmetry in Hp. apply Permutation_nil_r in Hp. by apply leibniz_equiv, elements_empty_inv. }
  assert (sID ∈ sst_stored st) as Hin by (apply elem_of_elements; rewrite <- Hp; by left).
  set (st1 := sst_set_stored (sst_stored st ∖ {[sID]}) st). intros Hr Hw.
  assert (size (sst_stored st1) < size (sst_stored st))%nat as Hsize.
  { apply subset_size. simpl. set_solver. }
  assert (waiting (list_to_set failed ∪ {[sID]}) st1) as Hw1.
  { destruct Hw as [Hc Hd]. split; [|done]. intros k l Hk.
    destruct (Hc k l Hk) as (e & He & Hn & Hwt). exists e. split_and!; [done..|]. simpl.
    intros Hdirty. specialize (Hwt Hdirty). destruct (decide (k = sID)); set_solver. }
  destruct (sst_cache st !! sID) as [[l|]|] eqn:Ec.
  - destruct (StoreStatQueue l st1) as [rs st2] eqn:Es.
    pose proof (StoreStatQueue_keeps _ l st1 Hw1) as Hk. rewrite Es in Hk. simpl in Hk.
    pose proof (StoreStatQueue_stored l st1) as Hst. rewrite Es in Hst. change (sst_stored st2 = sst_stored st1) in Hst.
    assert (rs ≠ Panic) as Hrs.
    { change rs with (rs, st2).1. rewrite <- Es. apply StoreStatQueue_answers.
      destruct (proj1 Hw1 sID l Ec) as (e & -> & _). eauto. }
    unfold mbind, SM_bind, attempt in Hr. rewrite Es in Hr.
    assert (saves_succeed → rs = Ok ()) as Hsv.
    { intros Hok. change rs with (rs, st2).1. rewrite <- Es. apply StoreStatQueue_saves; [done|].
      destruct (proj1 Hw1 sID l Ec) as (e & -> & _). eauto. }
    destruct rs as [[]|e|]; [..|done]; apply IH in Hr as (failed' & ? & ? & Hempty & Hfail).
    + exists failed'. split_and!; [done..| |done]. intros Hf. apply Hempty. rewrite Hst. lia.
    + eapply waiting_saved; [exact Hk|]. by eapply (StoreStatQueue_clean _ sID l st1).
    + exists failed'. split_and!; [done..| |by intros Hok%Hsv]. intros Hf. apply Hempty. rewrite Hst. lia.
    + revert Hk. apply waiting_mono. rewrite list_to_set_app_L. set_solver.
  - apply IH in Hr as (failed' & ? & ? & Hempty & ?).
    + exists failed'. split_and!; [done..| |done]. intros Hf. apply Hempty. lia.
    + eapply waiting_saved; [exact Hw1|]. apply clean_missing. simpl. congruence.
  - apply IH in Hr as (failed' & ? & ? & Hempty & ?).
    + exists failed'. split_and!; [done..| |done]. intros Hf. apply Hempty. lia.
    + eapply waiting_saved; [exact Hw1|]. apply clean_missing. simpl. congruence.
Qed.

(** ** Events and queries *)

Lemma tame_matched prf : tame (matched_entry prf).
Proof.
  intros e. split; [done|]. unfold matched_entry. simpl. by destruct (sqp_Stored prf && _).
Qed.

Lemma along_update_entry F l f : tame f → along (keeps F) (update_entry l f).
Proof. apply update_entry_keeps. Qed.
#[local] Hint Resolve GetStatQueue_keeps StoreStatQueue_keeps along_update_entry tame_matched : along.

Lemma match_queues_keeps F ev ids m : along (keeps F) (match_queues ev ids m).
Proof.
  revert m. induction ids as [|id ids IH]; intros m; simpl; along_steps.
Qed.
Lemma matching_keeps F args ev : along (keeps F) (matchingStatQueuesForEvent args ev).
Proof. unfold matchingStatQueuesForEvent. along_steps. apply match_queues_keeps. Qed.

(** The queue of an entry changes but keeps its name. *)
Lemma update_queue_keeps F l (g : StatEntry → StatQueue) :
  (∀ e, sq_TenantID (g e) = se_TenantID e) → along (keeps F) (update_entry l (λ e, set_queue (g e) e)).
Proof. intros Hg. apply update_entry_keeps. intros e. split; [apply Hg|done]. Qed.

Lemma read_metrics_keeps {A} F (value : StatMetric → res (A * StatMetric)) l :
  along (keeps F) (read_metrics value l).
Proof.
  unfold read_metrics. along_steps. by apply (update_queue_keeps F l (λ e, with_metrics (se_queue e) _)).
Qed.
Lemma modify_sent_keeps F f : along (keeps F) (modify (λ st, sst_set_sent (f st) st)).
Proof. by intros st [Hc Hd]. Qed.
Lemma threshold_call_keeps F l : along (keeps F) (threshold_call l).
Proof. unfold threshold_call. along_steps; [apply read_metrics_keeps|apply modify_sent_keeps]. Qed.

Lemma remEventWithID_name sq id : sq_TenantID (remEventWithID sq id).2 = sq_TenantID sq.
Proof. unfold remEventWithID. by destruct (rem_metrics _ _ _). Qed.
Lemma rem_expired_name sq items : sq_TenantID (rem_expired sq items).2 = sq_TenantID sq.
Proof.
  revert sq. induction items as [|item items IH]; intros sq; simpl; [done|].
  destruct (expired item); [|done].
  pose proof (remEventWithID_name sq (EventID item)) as Hn.
  destruct (remEventWithID sq (EventID item)) as [[]sq']; simpl in *; [|done..].
  by rewrite IH.
Qed.
Lemma remOnQueueLength_name sq : sq_TenantID (remOnQueueLength sq).2 = sq_TenantID sq.
Proof.
  unfold remOnQueueLength. cbv zeta. destruct (_ <=? 0); [done|]. destruct (_ =? _); [|done].
  destruct (SQItems sq) as [|item items]; [done|].
  pose proof (remEventWithID_name sq (EventID item)) as Hn.
  by destruct (remEventWithID sq (EventID item)) as [[]sq'].
Qed.
Lemma ProcessEvent_name sq ev : sq_TenantID (ProcessEvent sq ev).2 = sq_TenantID sq.
Proof.
  unfold ProcessEvent, remExpired. pose proof (rem_expired_name sq (SQItems sq)) as Hn1.
  destruct (rem_expired _ _) as [[] sq1]; simpl in *; [|done..].
  pose proof (remOnQueueLength_name sq1) as Hn2.
  destruct (remOnQueueLength sq1) as [[] sq2]; simpl in *; [|congruence..].
  unfold addStatEvent. destruct (add_metrics _ _ _). simpl. by transitivity (sq_TenantID sq1).
Qed.

Lemma queue_event_keeps F ev l : along (keeps F) (queue_event ev l).
Proof.
  intros st Hw. unfold queue_event, load_entry, mbind, SM_bind.
  destruct (sst_heap st !! l) as [e|] eqn:He; [|done]. simpl.
  pose proof (ProcessEvent_name (se_queue e) ev) as Hn.
  destruct (ProcessEvent (se_queue e) ev) as [r q]. simpl in *.
  destruct Hw as [Hc Hd]. split; [|done]. simpl. intros k l' Hk.
  destruct (Hc k l' Hk) as (e' & He' & Hn' & Hwt). unfold entry_waits. simpl.
  rewrite list_lookup_alter. case_decide; [subst l'|by exists e'].
  simplify_eq. exists (set_queue q e). by rewrite He.
Qed.

Hypothesis later : stat_StoreInterval ≠ -1.

Lemma schedule_save_keeps F l : along (keeps F) (schedule_save l).
Proof.
  intros st Hw. unfold schedule_save, load_entry, mbind, SM_bind.
  destruct (sst_heap st !! l) as [e|] eqn:He; [|done]. simpl.
  destruct (_ || _); [done|]. simpl. assert ((stat_StoreInterval =? -1) = false) as -> by lia.
  destruct Hw as [Hc Hd]. split; [|done]. simpl. intros k l' Hk.
  destruct (Hc k l' Hk) as (e' & He' & Hn & Hwt). unfold entry_waits. simpl.
  rewrite list_lookup_alter. case_decide; [subst l'|exists e'; split_and!; [done..|set_solver]].
  simplify_eq. exists (set_dirty true e). rewrite He. split_and!; [done..|]. intros _.
  unfold se_TenantID in *. simpl. set_solver.
Qed.

Lemma process_queues_keeps F ev ls : along (keeps F) (process_queues ev ls).
Proof.
  induction ls as [|l ls IH]; simpl; along_steps. unfold process_queue. along_steps;
    [apply queue_event_keeps|apply schedule_save_keeps|apply threshold_call_keeps].
Qed.

Lemma stats_processEvent_keeps F args : along (keeps F) (Stats_V1ProcessEvent args).
Proof.
  unfold Stats_V1ProcessEvent, stats_processEvent. along_steps; [apply matching_keeps|apply process_queues_keeps].
Qed.
Lemma V1GetStatQueuesForEvent_keeps F args : along (keeps F) (V1GetStatQueuesForEvent args).
Proof. unfold V1GetStatQueuesForEvent. along_steps. apply matching_keeps. Qed.
Lemma queue_metrics_keeps {A} F (value : StatMetric → res (A * StatMetric)) tenant id :
  along (keeps F) (queue_metrics value tenant id).
Proof.
  intros st. unfold queue_metrics. destruct (_ ++ _); [|done].
  pose proof (GetStatQueue_keeps F (TrimSpace tenant) (TrimSpace id) true st) as Hg.
  destruct (GetStatQueue _ _ _ st) as [r st1]. simpl in Hg. etrans; [exact Hg|].
  assert (along (keeps F) (l ← lift (as_server_error r); read_metrics value l)) as Ha
    by (along_steps; apply read_metrics_keeps). apply Ha.
Qed.

(** ** Any history *)

Inductive stat_step : StatState → StatState → Prop :=
  | step_event args st : stat_step st (Stats_V1ProcessEvent args st).2
  | step_match args st : stat_step st (V1GetStatQueuesForEvent args st).2
  | step_queue tenant id st : stat_step st (V1GetStatQueue tenant id st).2
  | step_texts tenant id st : stat_step st (V1GetQueueStringMetrics tenant id st).2
  | step_floats tenant id st : stat_step st (V1GetQueueFloatMetrics tenant id st).2
  | step_backup st : stat_step st (storeStats st).2.

Lemma storeStats_waits st : waiting ∅ st → waiting ∅ (storeStats st).2.
Proof.
  intros Hw. unfold storeStats, mbind, SM_bind.
  destruct (store_stats_loop (size (sst_stored st)) [] st) as [r st'] eqn:E.
  destruct (store_stats_loop_waits _ _ _ _ _ E Hw) as (failed & -> & [Hc Hd] & _ & _).
  split; [|done]. simpl. intros k l Hk. destruct (Hc k l Hk) as (e & He & Hn & Hwt).
  exists e. split_and!; [done..|]. simpl. set_solver.
Qed.

Lemma history_waits st st' : rtc stat_step st st' → waiting ∅ st → waiting ∅ st'.
Proof.
  induction 1 as [|st st1 st' Hstep _ IH]; [done|]. intros Hw. apply IH. clear IH.
  destruct Hstep; [by apply stats_processEvent_keeps|by apply V1GetStatQueuesForEvent_keeps| |
    by apply queue_metrics_keeps|by apply queue_metrics_keeps|by apply storeStats_waits].
  assert (along (keeps ∅) (V1GetStatQueue tenant id)) as Ha by (unfold V1GetStatQueue; along_steps).
  by apply Ha.
Qed.

End saves.

(** A profile whose queue is gone fails every event it matches, also for the other queues. *)
Lemma missing_queue_fails `{GoText} `{GoRuntime} `{FilterData} `{StatData} ev prf id rest m st :
  GetStatQueueProfile (ev_Tenant ev) id = Ok prf → stat_in_force prf (ev_Time ev) = true →
  FilterS_Pass (ev_Tenant ev) (sqp_FilterIDs prf) (event_provider ev) = Ok true →
  sst_cache st !! sqp_TenantID prf = None → sst_db st !! sqp_TenantID prf = None →
  GetStatQueue_error (sqp_TenantID prf) = None →
  (match_queues ev (id :: rest) m st).1 = Err NOT_FOUND.
Proof.
  intros Hp Hf Hpass Hc Hd He. simpl. rewrite Hp, Hf. simpl. rewrite Hpass.
  unfold mbind, SM_bind, lift. unfold GetStatQueue. unfold sqp_TenantID in *. by rewrite Hc, He, Hd.
Qed.

(** ** Example: one queue, an event and a backup *)
Section example.
#[local] Existing Instances reference_text reference_runtime reference_filters reference_config.

Definition calls_profile : StatQueueProfile :=
  mkStatQueueProfile "t" "CALLS" [] None 100 (-1) 0 [] true false f0 [].
#[local] Instance calls_data : StatData := {|
  GetStatQueueProfile tenant id := if decide (id = "CALLS") then Ok calls_profile else Err NOT_FOUND;
  GetStatQueue_error k := None; SetStatQueue_error q := None; ThresholdS_error calls call := None;
  stat_UUID n := ""; stat_StoreInterval := 60000000000; stat_ThresholdSConns := false;
  stat_index := mkIndexConfig None None false false |}.

Definition empty_queue : StatQueue := mkStatQueue "t" "CALLS" [] ∅ calls_profile None.
Definition stored_queue : StatState := mkStatState [] ∅ {["t:CALLS" := empty_queue]} ∅ [].
Definition call_event (id : string) : StatsArgsProcessEvent :=
  mkStatsArgsProcessEvent ["CALLS"] (Some (mkCGREvent "t" id None [])) false.
Definition two_events : StatState :=
  (Stats_V1ProcessEvent (call_event "b") (Stats_V1ProcessEvent (call_event "a") stored_queue).2).2.

Example update_waits :
  sst_stored two_events = {["t:CALLS"]} ∧
  map EventID ∘ SQItems ∘ se_queue <$> sst_heap two_events = [["a"; "b"]].
Proof. split; vm_compute; reflexivity. Qed.

(** Matching and processing an event are not one step: when a backup comes in between, the
    queue is loaded again and the event is put into one that is not cached any more.  The next
    backup then saves the queue without it, and nothing waits to be saved. *)
Definition interrupted : StatState :=
  let ev := mkCGREvent "t" "c" None [] in
  let '(r, st) := matchingStatQueuesForEvent (call_event "c") ev two_events in
  let st := (storeStats st).2 in
  let st := (process_queues ev (match r with Ok ls => ls | _ => [] end) st).2 in
  (storeStats st).2.
Example interleaved_backup_loses_event :
  (λ q, map EventID (SQItems q)) <$> sst_db interrupted !! "t:CALLS" = Some ["a"; "b"] ∧
  sst_stored interrupted = ∅.
Proof. split; vm_compute; reflexivity. Qed.

End example.
