(* ===== verification/FilterIndexes.v ===== *)
(** * Indexes of filters

    [engine/filterindexer.go], what [engine/datamanager.go] does for it and for the profiles
    whose filters are indexed, and two of the drivers that keep the indexes
    ([storage_internal_datadb.go], [storage_redis.go]).  An index maps the type of a rule with
    the name and a value of a field to the items that have such a rule.  The drivers are
    instances of the class [IndexDriver], which says what the indexer expects of them.
    Left out: locks, replication and remote databases, the driver for MongoDB. *)
From S2P Require Import Prelude GoFloat GoStrings GoTime CoreUtils Collections Values Filters StatMetrics StatQueue Resources Stateful Thresholds RatingProfile TariffPlan TariffActions TariffProfiles TariffRouting Profiles.

(** ** The items that are indexed *)

Inductive ItemType :=
  | ThresholdProfilePrefix | StatQueueProfilePrefix | ResourceProfilesPrefix
  | SupplierProfilePrefix | AttributeProfilePrefix | ChargerProfilePrefix
  | DispatcherProfilePrefix.
#[export] Instance ItemType_eq_dec : EqDecision ItemType.
Proof. solve_decision. Defined.
Definition item_prefix (t : ItemType) : string :=
  match t with
  | ThresholdProfilePrefix => "thp_" | StatQueueProfilePrefix => "sqp_"
  | ResourceProfilesPrefix => "rsp_" | SupplierProfilePrefix => "spp_"
  | AttributeProfilePrefix => "alp_" | ChargerProfilePrefix => "cpp_"
  | DispatcherProfilePrefix => "dpp_"
  end.
Definition PrefixToIndexCache (t : ItemType) : string :=
  match t with
  | ThresholdProfilePrefix => "*threshold_filter_indexes"
  | StatQueueProfilePrefix => "*stat_filter_indexes"
  | ResourceProfilesPrefix => "*resource_filter_indexes"
  | SupplierProfilePrefix => "*supplier_filter_indexes"
  | AttributeProfilePrefix => "*attribute_filter_indexes"
  | ChargerProfilePrefix => "*charger_filter_indexes"
  | DispatcherProfilePrefix => "*dispatcher_filter_indexes"
  end.
(** [CacheInstanceToPrefix] of the cache of the indexes of a type. *)
Definition index_prefix (t : ItemType) : string :=
  match t with
  | ThresholdProfilePrefix => "tfi_" | StatQueueProfilePrefix => "sfi_"
  | ResourceProfilesPrefix => "rfi_" | SupplierProfilePrefix => "spi_"
  | AttributeProfilePrefix => "afi_" | ChargerProfilePrefix => "cfi_"
  | DispatcherProfilePrefix => "dfi_"
  end.

Lemma index_prefix_inj t t' p p' : index_prefix t +:+ p = index_prefix t' +:+ p' → t = t' ∧ p = p'.
Proof. destruct t, t'; simpl; intros [=]; by subst. Qed.
#[export] Instance PrefixToIndexCache_inj : Inj (=) (=) PrefixToIndexCache.
Proof. by intros [] []. Qed.

(** The profiles, as one type. *)
Inductive AnyProfile :=
  | AThreshold (p : ThresholdProfile) | AStatQueue (p : StatQueueProfile)
  | AResource (p : ResourceProfile) | ASupplier (p : SupplierProfile)
  | AAttribute (p : AttributeProfile) | ACharger (p : ChargerProfile)
  | ADispatcher (p : DispatcherProfile).
Definition any_type (p : AnyProfile) : ItemType :=
  match p with
  | AThreshold _ => ThresholdProfilePrefix | AStatQueue _ => StatQueueProfilePrefix
  | AResource _ => ResourceProfilesPrefix | ASupplier _ => SupplierProfilePrefix
  | AAttribute _ => AttributeProfilePrefix | ACharger _ => ChargerProfilePrefix
  | ADispatcher _ => DispatcherProfilePrefix
  end.
Definition any_Tenant (p : AnyProfile) : string :=
  match p with
  | AThreshold p => tp_Tenant p | AStatQueue p => sqp_Tenant p | AResource p => rp_Tenant p
  | ASupplier p => spp_Tenant p | AAttribute p => ap_Tenant p | ACharger p => cpp_Tenant p
  | ADispatcher p => dpp_Tenant p
  end.
Definition any_ID (p : AnyProfile) : string :=
  match p with
  | AThreshold p => tp_ID p | AStatQueue p => sqp_ID p | AResource p => rp_ID p
  | ASupplier p => spp_ID p | AAttribute p => ap_ID p | ACharger p => cpp_ID p
  | ADispatcher p => dpp_ID p
  end.
Definition any_FilterIDs (p : AnyProfile) : list string :=
  match p with
  | AThreshold p => tp_FilterIDs p | AStatQueue p => sqp_FilterIDs p
  | AResource p => rp_FilterIDs p | ASupplier p => spp_FilterIDs p
  | AAttribute p => ap_FilterIDs p | ACharger p => cpp_FilterIDs p
  | ADispatcher p => dpp_FilterIDs p
  end.
(** The contexts whose indexes list the profile; one without a name where there are none. *)
Definition any_Contexts (p : AnyProfile) : list string :=
  match p with
  | AAttribute p => ap_Contexts p | ADispatcher p => dpp_Subsystems p | _ => [""]
  end.

(** ** What the indexer expects of a driver *)

Abbreviation Items := (gmap string bool).

(** [ix_items] are the items the database has under a key of an index. *)
Class IndexDriver (S : Type) := {
  GetFilterIndexesDrv : S → ItemType → string → string → gmap string string →
    res (gmap string Items);
  SetFilterIndexesDrv : ItemType → string → gmap string Items → bool → string → SM S ();
  MatchFilterIndexDrv : S → ItemType → string → string → string → string → res Items;
  ix_items : S → ItemType → string → string → gset string;
  drv_get s t p ft n v :
    let key := ConcatenatedKey [ft; n; v] in
    match GetFilterIndexesDrv s t p ft {[n := v]} with
    | Ok m => ∃ items, m = {[key := items]} ∧ dom items = ix_items s t p key
    | Err e => e = ErrNotFound → ix_items s t p key = ∅
    | Panic => True
    end;
  drv_set s t p indexes commit t' p' k :
    let '(r, s') := SetFilterIndexesDrv t p indexes commit "" s in
    let set := if decide (t' = t ∧ p' = p) then dom <$> indexes !! k else None in
    ix_items s' t' p' k = default (ix_items s t' p' k) set ∨
    (r ≠ Ok () ∧ ix_items s' t' p' k = ix_items s t' p' k);
  drv_match s t p ft n v :
    match MatchFilterIndexDrv s t p ft n v with
    | Ok items => dom items = ix_items s t p (ConcatenatedKey [ft; n; v])
    | Err e => e = ErrNotFound → ix_items s t p (ConcatenatedKey [ft; n; v]) = ∅
    | Panic => True
    end
}.

(** ** The internal database *)

(** What the internal database keeps under a cache and a key, nil included. *)
Abbreviation IndexDB := (gmap (string * string) (option (gmap string Items))).

Section internal.
Context `{GoRuntime}.

Definition idb_get (db : IndexDB) (t : ItemType) (p : string) : option (gmap string Items) :=
  db !! (PrefixToIndexCache t, index_prefix t +:+ p) ≫= id.

Definition idb_fields (rcvidx : gmap string Items) (filterType : string)
    (fldNameVal : gmap string string) : gmap string Items :=
  foldl (λ indexes '(fldName, fldVal),
      let key := ConcatenatedKey [filterType; fldName; fldVal] in
      <[key := ((λ _, true) <$> default ∅ (rcvidx !! key)) ∪ default ∅ (indexes !! key)]> indexes)
    ∅ (go_range fldNameVal).

Definition InternalDB_GetFilterIndexesDrv (db : IndexDB) (t : ItemType)
    (itemIDPrefix filterType : string) (fldNameVal : gmap string string)
    : res (gmap string Items) :=
  match idb_get db t itemIDPrefix with
  | None => Err ErrNotFound
  | Some rcvidx =>
      if decide (fldNameVal = ∅) then
        if decide (rcvidx = ∅) then Err ErrNotFound else Ok rcvidx
      else Ok (idb_fields rcvidx filterType fldNameVal)
  end.

Definition InternalDB_SetFilterIndexesDrv (t : ItemType) (itemIDPrefix : string)
    (indexes : gmap string Items) (commit : bool) (transactionID : string) : SM IndexDB () := λ db,
  let cacheID := PrefixToIndexCache t in
  let originKey := index_prefix t +:+ itemIDPrefix in
  let dbKey := if decide (transactionID = "") then originKey
               else "tmp_" +:+ ConcatenatedKey [originKey; transactionID] in
  if commit && negb (bool_decide (transactionID = "")) then
    let x := db !! (cacheID, dbKey) ≫= id in
    (Ok (), <[(cacheID, originKey) := x]> (delete (cacheID, dbKey) db))
  else
    let toBeAdded := filter (λ kv, kv.2 ≠ ∅) indexes in
    let stored := match db !! (cacheID, dbKey) ≫= id with
                  | None => toBeAdded
                  | Some mp => toBeAdded ∪ filter (λ kv, indexes !! kv.1 ≠ Some ∅) mp
                  end in
    (Ok (), <[(cacheID, dbKey) := Some stored]> db).

Definition InternalDB_RemoveFilterIndexesDrv (t : ItemType) (itemIDPrefix : string) : SM IndexDB () :=
  modify (delete (PrefixToIndexCache t, index_prefix t +:+ itemIDPrefix)).

Definition InternalDB_MatchFilterIndexDrv (db : IndexDB) (t : ItemType)
    (itemIDPrefix filterType fieldName fieldVal : string) : res Items :=
  match idb_get db t itemIDPrefix with
  | None => Err ErrNotFound
  | Some indexes =>
      let itemIDs := default ∅ (indexes !! ConcatenatedKey [filterType; fieldName; fieldVal]) in
      if decide (itemIDs = ∅) then Err ErrNotFound else Ok itemIDs
  end.

Definition idb_items (db : IndexDB) (t : ItemType) (p key : string) : gset string :=
  dom (default ∅ (default ∅ (idb_get db t p) !! key)).
Lemma idb_get_law db t p ft n v :
  let key := ConcatenatedKey [ft; n; v] in
  match InternalDB_GetFilterIndexesDrv db t p ft {[n := v]} with
  | Ok m => ∃ items, m = {[key := items]} ∧ dom items = idb_items db t p key
  | Err e => e = ErrNotFound → idb_items db t p key = ∅
  | Panic => True
  end.
Proof.
  intros key. unfold InternalDB_GetFilterIndexesDrv, idb_items. destruct (idb_get db t p) as [m|]; simpl.
  2:{ intros _. by rewrite lookup_empty. }
  rewrite decide_False by apply map_non_empty_singleton.
  unfold idb_fields.
  rewrite go_range_singleton. simpl. rewrite lookup_empty. simpl. eexists. split; [done|].
  rewrite (right_id_L ∅ (∪)). by rewrite dom_fmap_L.
Qed.

Lemma idb_set_law db t p indexes commit t' p' k :
  let '(r, db') := InternalDB_SetFilterIndexesDrv t p indexes commit "" db in
  let set := if decide (t' = t ∧ p' = p) then dom <$> indexes !! k else None in
  idb_items db' t' p' k = default (idb_items db t' p' k) set ∨
  (r ≠ Ok () ∧ idb_items db' t' p' k = idb_items db t' p' k).
Proof.
  unfold InternalDB_SetFilterIndexesDrv. rewrite decide_True by done.
  rewrite bool_decide_eq_true_2 by done. rewrite andb_false_r. left.
  unfold idb_items, idb_get. case_decide as Hd.
  - destruct Hd as [-> ->]. rewrite lookup_insert_eq. simpl.
    set (old := db !! _ ≫= id). destruct old as [mp|]; simpl.
    + rewrite lookup_union. destruct (indexes !! k) as [s|] eqn:Ek; simpl.
      * destruct (decide (s = ∅)) as [->|Hs].
        -- rewrite map_lookup_filter_None_2 by (right; intros ? Hx Hn; by simplify_eq).
           rewrite map_lookup_filter_None_2; [done|]. right. intros x _ Hx. by apply Hx.
        -- rewrite (map_lookup_filter_Some_2 _ _ k s) by done. by destruct (filter _ mp !! k).
      * rewrite map_lookup_filter_None_2 by (by left). rewrite (left_id None _).
        rewrite map_lookup_filter. destruct (mp !! k) as [x|]; simpl; [|done].
        rewrite option_guard_True; [done|]. by rewrite Ek.
    + rewrite map_lookup_filter. destruct (indexes !! k) as [s|] eqn:Ek; simpl.
      * destruct (decide (s = ∅)) as [->|Hs]; [by rewrite option_guard_False by auto|].
        by rewrite option_guard_True.
      * by rewrite lookup_empty.
  - rewrite lookup_insert_ne; [done|]. intros [= Ht Hp]. apply Hd.
    by apply index_prefix_inj in Hp as [-> ->].
Qed.

Lemma idb_match_law db t p ft n v :
  match InternalDB_MatchFilterIndexDrv db t p ft n v with
  | Ok items => dom items = idb_items db t p (ConcatenatedKey [ft; n; v])
  | Err e => e = ErrNotFound → idb_items db t p (ConcatenatedKey [ft; n; v]) = ∅
  | Panic => True
  end.
Proof.
  unfold InternalDB_MatchFilterIndexDrv, idb_items. destruct (idb_get db t p) as [m|]; simpl.
  - case_decide as Hd; [|done]. intros _. by rewrite Hd.
  - intros _. by rewrite lookup_empty.
Qed.

#[export] Instance internal_indexes : IndexDriver IndexDB := {|
  GetFilterIndexesDrv := InternalDB_GetFilterIndexesDrv;
  SetFilterIndexesDrv := InternalDB_SetFilterIndexesDrv;
  MatchFilterIndexDrv := InternalDB_MatchFilterIndexDrv;
  ix_items := idb_items;
  drv_get := idb_get_law; drv_set := idb_set_law; drv_match := idb_match_law |}.
End internal.

(** ** Redis

    The commands the driver sends, each on the hash kept under a key, and the encoding of the
    items.  A command that fails may have been executed or not, for every field.  [HMGET] of
    one field answers an empty text when the field is missing, [HGET] an error of its own. *)
Class RedisServer (R : Type) := {
  redis_hash : R → string → string → option string;
  redis_nil : string;
  HGETALL : R → string → res (gmap string string);
  HMGET : R → string → string → res string;
  HGET : R → string → string → res string;
  HDEL : string → list string → SM R ();
  HMSET : string → gmap string string → SM R ();
  DEL : string → SM R ();
  RENAME : string → string → SM R ();
  Marshal : Items → res string;
  Unmarshal : string → res Items;
  hmget_law s k f :
    match HMGET s k f with
    | Ok v => v = default "" (redis_hash s k f) | Err e => e ≠ ErrNotFound | Panic => False
    end;
  hget_law s k f :
    match HGET s k f with
    | Ok v => redis_hash s k f = Some v
    | Err e => e ≠ ErrNotFound ∧ (e = redis_nil → redis_hash s k f = None) | Panic => False
    end;
  hdel_law s k fs k' f :
    let '(r, s') := HDEL k fs s in
    redis_hash s' k' f = (if decide (k' = k ∧ f ∈ fs) then None else redis_hash s k' f) ∨
    (r ≠ Ok () ∧ redis_hash s' k' f = redis_hash s k' f);
  hmset_law s k mp k' f :
    let '(r, s') := HMSET k mp s in
    redis_hash s' k' f = (if decide (k' = k) then mp !! f else None) ∪ redis_hash s k' f ∨
    (r ≠ Ok () ∧ redis_hash s' k' f = redis_hash s k' f);
  marshal_law m v : Marshal m = Ok v → Unmarshal v = Ok m;
  unmarshal_empty : ∀ m, Unmarshal "" ≠ Ok m
}.

Section redis.
Context `{GoRuntime} {R : Type} `{!RedisServer R}.

Definition redis_key (t : ItemType) (itemIDPrefix : string) : string :=
  index_prefix t +:+ itemIDPrefix.

Definition redis_fields (s : R) (dbKey filterType : string) (fldNameVal : gmap string string)
    : res (gmap string string) :=
  foldl (λ acc '(fldName, fldVal),
      mp ← acc;
      let concatTypeNameVal := ConcatenatedKey [filterType; fldName; fldVal] in
      v ← HMGET s dbKey concatTypeNameVal;
      if decide (v = "") then Err ErrNotFound else Ok (<[concatTypeNameVal := v]> mp))
    (Ok ∅) (go_range fldNameVal).

Definition Redis_GetFilterIndexesDrv (s : R) (t : ItemType) (itemIDPrefix filterType : string)
    (fldNameVal : gmap string string) : res (gmap string Items) :=
  let dbKey := redis_key t itemIDPrefix in
  mp ← (if decide (fldNameVal = ∅) then
          mp ← HGETALL s dbKey;
          if decide (mp = ∅) then Err ErrNotFound else Ok mp
        else redis_fields s dbKey filterType fldNameVal);
  indexes ← res_map (λ '(k, v), (sm ← Unmarshal v; Ok (k, sm))) (go_range mp);
  Ok (list_to_map indexes).

(** The encoding of the entries that have items, and the names of those that have none. *)
Definition redis_entries (indexes : gmap string Items) : res (gmap string string * list string) :=
  mp ← res_map (λ '(k, sm), (v ← Marshal sm; Ok (k, v)))
         (go_range (filter (λ kv, kv.2 ≠ ∅) indexes));
  Ok (list_to_map mp, (go_range (filter (λ kv, kv.2 = ∅) indexes)).*1).

Definition Redis_SetFilterIndexesDrv (t : ItemType) (itemIDPrefix : string)
    (indexes : gmap string Items) (commit : bool) (transactionID : string) : SM R () :=
  let originKey := redis_key t itemIDPrefix in
  let dbKey := if decide (transactionID = "") then originKey
               else "tmp_" +:+ ConcatenatedKey [originKey; transactionID] in
  if commit && negb (bool_decide (transactionID = "")) then RENAME dbKey originKey
  else
    '(mp, nameValSls) ← lift (redis_entries indexes);
    _ ← (if decide (nameValSls = []) then mret tt else HDEL dbKey nameValSls);
    if decide (mp = ∅) then mret tt else HMSET dbKey mp.

Definition Redis_RemoveFilterIndexesDrv (t : ItemType) (itemIDPrefix : string) : SM R () :=
  DEL (redis_key t itemIDPrefix).

Definition Redis_MatchFilterIndexDrv (s : R) (t : ItemType)
    (itemIDPrefix filterType fldName fldVal : string) : res Items :=
  match HGET s (redis_key t itemIDPrefix) (ConcatenatedKey [filterType; fldName; fldVal]) with
  | Ok fldValBytes => Unmarshal fldValBytes
  | Err e => Err (if decide (e = redis_nil) then ErrNotFound else e)
  | Panic => Panic
  end.

Definition decoded (v : option string) : gset string :=
  match v with
  | Some v => match Unmarshal v with Ok m => dom m | _ => ∅ end
  | None => ∅
  end.
Definition redis_items (s : R) (t : ItemType) (p key : string) : gset string :=
  decoded (redis_hash s (redis_key t p) key).

Lemma decoded_empty v : default "" v = "" → decoded v = ∅.
Proof.
  destruct v as [v|]; simpl; [intros ->|done].
  destruct (Unmarshal "") as [m|e|] eqn:E; [by apply unmarshal_empty in E|done..].
Qed.

Lemma redis_get_law s t p ft n v :
  let key := ConcatenatedKey [ft; n; v] in
  match Redis_GetFilterIndexesDrv s t p ft {[n := v]} with
  | Ok m => ∃ items, m = {[key := items]} ∧ dom items = redis_items s t p key
  | Err e => e = ErrNotFound → redis_items s t p key = ∅
  | Panic => True
  end.
Proof.
  intros key. unfold Redis_GetFilterIndexesDrv, redis_items.
  rewrite decide_False by apply map_non_empty_singleton. unfold redis_fields.
  rewrite go_range_singleton. simpl. fold key. pose proof (hmget_law s (redis_key t p) key) as Hg.
  destruct (HMGET s (redis_key t p) key) as [w|e|]; simpl; [|done..].
  case_decide as Hw; simpl; [intros _; apply decoded_empty; by rewrite <- Hg|].
  rewrite insert_empty, go_range_singleton. simpl.
  destruct (redis_hash s (redis_key t p) key) as [x|]; simpl in *; [|done]. subst x.
  destruct (Unmarshal w) as [m|e|]; simpl; [|done..]. exists m. split; [|done]. apply insert_empty.
Qed.

Lemma redis_match_law s t p ft n v :
  match Redis_MatchFilterIndexDrv s t p ft n v with
  | Ok items => dom items = redis_items s t p (ConcatenatedKey [ft; n; v])
  | Err e => e = ErrNotFound → redis_items s t p (ConcatenatedKey [ft; n; v]) = ∅
  | Panic => True
  end.
Proof.
  unfold Redis_MatchFilterIndexDrv, redis_items.
  pose proof (hget_law s (redis_key t p) (ConcatenatedKey [ft; n; v])) as Hg.
  destruct (HGET _ _ _) as [w|e|]; [|destruct Hg as [Hne Hnil]|done].
  - rewrite Hg. simpl. by destruct (Unmarshal w).
  - case_decide; [|done]. intros _. by rewrite Hnil.
Qed.
Lemma redis_entries_spec indexes mp names k :
  redis_entries indexes = Ok (mp, names) →
  match indexes !! k with
  | Some s => if decide (s = ∅) then k ∈ names ∧ (mp !! k = None)
              else (k ∉ names) ∧ (∃ v, mp !! k = Some v ∧ Unmarshal v = Ok s)
  | None => (k ∉ names) ∧ mp !! k = None
  end.
Proof.
  unfold redis_entries. destruct (res_map _ _) as [l| |] eqn:El; [|done..]. simpl. intros [= <- <-].
  pose proof (res_map_Forall2 _ _ _ El) as Hf. apply res_map_elem in El as [Hfwd Hbwd].
  assert (k ∈ (go_range (filter (λ kv, kv.2 = ∅) indexes)).*1 ↔ indexes !! k = Some ∅) as Hnames.
  { rewrite list_elem_of_fmap. split.
    - intros ([k' x] & -> & Hin). apply go_range_elem, map_lookup_filter_Some in Hin as [Hk Hx].
      simpl in *. by subst.
    - intros Hk. exists (k, ∅). split; [done|]. by apply go_range_elem, map_lookup_filter_Some. }
  assert (∀ v, (k, v) ∈ l ↔ ∃ s, indexes !! k = Some s ∧ s ≠ ∅ ∧ Marshal s = Ok v) as Hl.
  { intros v. split.
    - intros Hin. destruct (Hbwd _ Hin) as ([k' s] & Hs & Hm).
      apply go_range_elem, map_lookup_filter_Some in Hs as [Hk Hs].
      destruct (Marshal s) as [w| |] eqn:Ew; [|done..]. simpl in *. simplify_eq. eauto.
    - intros (s & Hk & Hs & Hm).
      assert ((k, s) ∈ go_range (filter (λ kv, kv.2 ≠ ∅) indexes)) as Hin
        by (by apply go_range_elem, map_lookup_filter_Some).
      destruct (Hfwd _ Hin) as (y & Hy & Hm'). simpl in Hm'. rewrite Hm in Hm'.
      simpl in Hm'. by injection Hm' as <-. }
  assert (NoDup l.*1) as Hnd.
  { replace l.*1 with (go_range (filter (λ kv, kv.2 ≠ ∅) indexes)).*1.
    - apply go_range_keys_NoDup.
    - clear -Hf. induction Hf as [|[k x] [k' v] l1 l2 Hx _ IH]; simpl; [done|].
      destruct (Marshal x); [|done..]. simpl in Hx. injection Hx as -> ->. by f_equal. }
  assert (∀ v, (list_to_map l : gmap string string) !! k = Some v ↔ (k, v) ∈ l) as Hmap
    by (intros v; by rewrite elem_of_list_to_map).
  assert ((¬ ∃ v, (k, v) ∈ l) → (list_to_map l : gmap string string) !! k = None) as Hnone.
  { intros Hno. apply eq_None_not_Some. intros (v & Hv). apply Hno. exists v. by apply Hmap. }
  destruct (indexes !! k) as [s|] eqn:Ek; [case_decide as Hs|].
  - split; [apply Hnames; by subst|]. apply Hnone. intros (v & Hv). apply Hl in Hv. naive_solver.
  - split; [rewrite Hnames; naive_solver|].
    destruct (Marshal s) as [v| |] eqn:Ev.
    1: { exists v. split; [apply Hmap, Hl; eauto|by apply marshal_law]. }
    all: exfalso; assert ((k, s) ∈ go_range (filter (λ kv, kv.2 ≠ ∅) indexes)) as Hin
        by (by apply go_range_elem, map_lookup_filter_Some);
      destruct (Hfwd _ Hin) as (y & _ & Hm); simpl in Hm; by rewrite Ev in Hm.
  - split; [by rewrite Hnames|]. apply Hnone. intros (v & Hv). apply Hl in Hv. naive_solver.
Qed.

(** A command without arguments is not sent. *)
Lemma hdel_some s k names k' f :
  let '(r, s') := (if decide (names = []) then mret tt else HDEL k names) s in
  redis_hash s' k' f = (if decide (k' = k ∧ f ∈ names) then None else redis_hash s k' f) ∨
  (r ≠ Ok () ∧ redis_hash s' k' f = redis_hash s k' f).
Proof.
  destruct (decide (names = [])) as [->|_]; [|apply hdel_law]. left.
  rewrite decide_False; [done|]. by intros [_ ?%elem_of_nil].
Qed.
Lemma hmset_some s k mp k' f :
  let '(r, s') := (if decide (mp = ∅) then mret tt else HMSET k mp) s in
  redis_hash s' k' f = (if decide (k' = k) then mp !! f else None) ∪ redis_hash s k' f ∨
  (r ≠ Ok () ∧ redis_hash s' k' f = redis_hash s k' f).
Proof.
  destruct (decide (mp = ∅)) as [->|_]; [|apply hmset_law]. left.
  rewrite lookup_empty. by case_decide; rewrite (left_id None _).
Qed.

Lemma redis_set_law s t p indexes commit t' p' k :
  let '(r, s') := Redis_SetFilterIndexesDrv t p indexes commit "" s in
  let set := if decide (t' = t ∧ p' = p) then dom <$> indexes !! k else None in
  redis_items s' t' p' k = default (redis_items s t' p' k) set ∨
  (r ≠ Ok () ∧ redis_items s' t' p' k = redis_items s t' p' k).
Proof.
  unfold Redis_SetFilterIndexesDrv. rewrite decide_True by done.
  rewrite bool_decide_eq_true_2 by done. rewrite andb_false_r.
  destruct (redis_entries indexes) as [[mp names]|e|] eqn:Er.
  2,3: unfold mbind, SM_bind, lift; simpl; by right.
  pose proof (redis_entries_spec _ _ _ k Er) as Hk. unfold redis_items.
  set (key := redis_key t p). set (key' := redis_key t' p').
  assert (t' = t ∧ p' = p ↔ key' = key) as Hkey.
  { split; [by intros [-> ->]|]. intros E. by apply index_prefix_inj in E. }
  unfold mbind, SM_bind, lift; simpl.
  pose proof (hdel_some s key names key' k) as H1.
  destruct ((if decide (names = []) then mret tt else HDEL key names) s) as [r1 s1].
  destruct r1 as [[]|e|].
  2,3: destruct H1 as [->|[_ ->]]; [|by right];
    destruct (decide (key' = key ∧ k ∈ names)) as [[Hk1 Hk2]|Hno]; [|by right]; left;
    rewrite decide_True by (by apply Hkey); destruct (indexes !! k) as [x|]; [|by destruct Hk];
    destruct (decide (x = ∅)); [by subst|by destruct Hk].
  destruct H1 as [H1|[? _]]; [|done].
  pose proof (hmset_some s1 key mp key' k) as H2.
  destruct ((if decide (mp = ∅) then mret tt else HMSET key mp) s1) as [r2 s2].
  rewrite H1 in H2. clear H1.
  destruct (decide (key' = key)) as [E|E].
  - rewrite (decide_True (P := t' = t ∧ p' = p)) by (by apply Hkey).
    destruct (indexes !! k) as [x|]; [destruct (decide (x = ∅))|].
    + destruct Hk as [Hk Hmp]. rewrite Hmp, decide_True in H2 by done.
      left. simpl. subst x. by destruct H2 as [-> |[_ ->]].
    + destruct Hk as (Hk & v & Hmp & Hv). rewrite Hmp, decide_False in H2 by naive_solver.
      destruct H2 as [-> |[? ->]]; [left|by right]. simpl.
      destruct (redis_hash s key' k); simpl; by rewrite Hv.
    + destruct Hk as [Hk Hmp]. rewrite Hmp, decide_False in H2 by naive_solver.
      rewrite (left_id None _) in H2. left. by destruct H2 as [-> |[_ ->]].
  - rewrite (decide_False (P := t' = t ∧ p' = p)) by (by rewrite Hkey).
    rewrite decide_False in H2 by naive_solver. rewrite (left_id None _) in H2.
    left. by destruct H2 as [-> |[_ ->]].
Qed.

#[export] Instance redis_indexes : IndexDriver R := {|
  GetFilterIndexesDrv := Redis_GetFilterIndexesDrv;
  SetFilterIndexesDrv := Redis_SetFilterIndexesDrv;
  MatchFilterIndexDrv := Redis_MatchFilterIndexDrv;
  ix_items := redis_items;
  drv_get := redis_get_law; drv_set := redis_set_law; drv_match := redis_match_law |}.
End redis.

(** ** The indexer *)

Record FilterIndexer := mkFilterIndexer {
  fi_indexes : gmap string Items; fi_itemType : ItemType; fi_dbKeySuffix : string;
  fi_chngdIndxKeys : gset string }.
Definition NewFilterIndexer (itemType : ItemType) (dbKeySuffix : string) : FilterIndexer :=
  mkFilterIndexer ∅ itemType dbKeySuffix ∅.

(** The database of the indexes, the answers of the cache in front of it (nil for not found),
    the stored profiles with their cache, and the cache of the resources of events. *)
Record IndexState (S : Type) := mkIndexState {
  is_db : S; is_cache : gmap (string * string) (option Items);
  is_profiles : gmap (string * string) AnyProfile;
  is_profileCache : gmap (string * string) (option AnyProfile);
  is_eventResources : gmap string (list string) }.
Arguments mkIndexState {_} _ _ _ _ _.
Arguments is_db {_} _.
Arguments is_cache {_} _.
Arguments is_profiles {_} _.
Arguments is_profileCache {_} _.
Arguments is_eventResources {_} _.

(** Errors of the database of the profiles; those of reading include those of compiling what
    was read. *)
Class ProfileErrors := {
  read_error : ItemType → string → option string;
  write_error : ItemType → string → option string;
  remove_error : ItemType → string → option string
}.

Section indexer.
Context `{GoText} `{GoRuntime} `{FilterData} `{ProfileErrors} {S : Type} `{!IndexDriver S}.
#[local] Abbreviation M := (SM (IndexState S)).

Definition on_db {A} (m : SM S A) : M A := λ st,
  let '(r, db) := m (is_db st) in
  (r, mkIndexState db (is_cache st) (is_profiles st) (is_profileCache st) (is_eventResources st)).
Definition set_cache (c : gmap (string * string) (option Items)) (st : IndexState S) : IndexState S :=
  mkIndexState (is_db st) c (is_profiles st) (is_profileCache st) (is_eventResources st).
Definition set_profiles (ps : gmap (string * string) AnyProfile) (st : IndexState S) : IndexState S :=
  mkIndexState (is_db st) (is_cache st) ps (is_profileCache st) (is_eventResources st).

Definition index_add (itemID concatKey : string) (rfi : FilterIndexer) : FilterIndexer :=
  mkFilterIndexer
    (<[concatKey := <[itemID := true]> (default ∅ (fi_indexes rfi !! concatKey))]> (fi_indexes rfi))
    (fi_itemType rfi) (fi_dbKeySuffix rfi) ({[concatKey]} ∪ fi_chngdIndxKeys rfi).

(** The keys one rule is indexed under. *)
Definition index_rule (itemID : string) (rfi : FilterIndexer) (fltr : TPFilter) : FilterIndexer :=
  if bool_decide (tfr_Type fltr ∈ ["*string"; "*prefix"]) then
    foldl (λ rfi fldVal,
        index_add itemID (ConcatenatedKey [tfr_Type fltr; tfr_Element fltr; fldVal]) rfi)
      rfi (tfr_Values fltr)
  else if decide (tfr_Type fltr = "*none") then
    index_add itemID (ConcatenatedKey ["*none"; "*any"; "*any"]) rfi
  else rfi.
Definition IndexTPFilter (rfi : FilterIndexer) (tpFltr : TPFilterProfile) (itemID : string)
    : FilterIndexer :=
  foldl (index_rule itemID) rfi (tfl_Filters tpFltr).

(** The data manager; the errors of the driver are returned as they are. *)
Definition dm_GetFilterIndexes (t : ItemType) (itemIDPrefix filterType : string)
    (fldNameVal : gmap string string) : M (gmap string Items) := λ st,
  (GetFilterIndexesDrv (is_db st) t itemIDPrefix filterType fldNameVal, st).
Definition dm_SetFilterIndexes (t : ItemType) (itemIDPrefix : string) (indexes : gmap string Items)
    (commit : bool) (transactionID : string) : M () :=
  on_db (SetFilterIndexesDrv t itemIDPrefix indexes commit transactionID).

Definition dm_MatchFilterIndex (t : ItemType) (itemIDPrefix filterType fieldName fieldVal : string)
    : M Items := λ st,
  let cacheID := PrefixToIndexCache t in
  let fieldValKey := ConcatenatedKey [itemIDPrefix; filterType; fieldName; fieldVal] in
  match is_cache st !! (cacheID, fieldValKey) with
  | Some None => (Err ErrNotFound, st)
  | Some (Some items) => (Ok items, st)
  | None =>
      let keep x := set_cache (<[(cacheID, fieldValKey) := x]> (is_cache st)) st in
      match MatchFilterIndexDrv (is_db st) t itemIDPrefix filterType fieldName fieldVal with
      | Ok itemIDs => (Ok itemIDs, keep (Some itemIDs))
      | Err e => (Err e, if decide (e = ErrNotFound) then keep None else st)
      | Panic => (Panic, st)
      end
  end.

(** The prefix of the key may have several parts. *)
Definition MatchFilterIndexFromKey (t : ItemType) (key : string) : M () :=
  match reverse (SplitConcatenatedKey key) with
  | fieldVal :: fieldName :: filterType :: ((_ :: _) as prefix) =>
      _ ← dm_MatchFilterIndex t (ConcatenatedKey (reverse prefix)) filterType fieldName fieldVal;
      mret tt
  | _ => fails ErrNotFound
  end.

Definition cacheRemItemType (t : ItemType) : M () := modify (λ st,
  set_cache (filter (λ kv, kv.1.1 ≠ PrefixToIndexCache t) (is_cache st)) st).

Definition StoreIndexes (rfi : FilterIndexer) (commit : bool) (transactionID : string) : M () :=
  _ ← dm_SetFilterIndexes (fi_itemType rfi) (fi_dbKeySuffix rfi) (fi_indexes rfi) commit transactionID;
  cacheRemItemType (fi_itemType rfi).

Definition loadFldNameFldValIndex (filterType : string) (fldName : string) (rfi : FilterIndexer)
    (fldVal : string) : M FilterIndexer :=
  rcvIdx ← dm_GetFilterIndexes (fi_itemType rfi) (fi_dbKeySuffix rfi) filterType {[fldName := fldVal]};
  mret (mkFilterIndexer (rcvIdx ∪ fi_indexes rfi) (fi_itemType rfi) (fi_dbKeySuffix rfi)
          (fi_chngdIndxKeys rfi)).

(** Not found is no error where an index is loaded. *)
Definition load_value (filterType fldName : string) (rfi : FilterIndexer) (fldVal : string)
    : M FilterIndexer := λ st,
  match loadFldNameFldValIndex filterType fldName rfi fldVal st with
  | (Err e, st') => if decide (e = ErrNotFound) then (Ok rfi, st') else (Err e, st')
  | r => r
  end.
Definition load_rule (rfi : FilterIndexer) (flt : FilterRule) : M FilterIndexer :=
  if bool_decide (fr_Type flt ∈ ["*none"; "*prefix"; "*string"])
  then visit (load_value (fr_Type flt) (fr_Element flt)) rfi (fr_Values flt)
  else mret rfi.
Definition load_filter (rfi : FilterIndexer) (fltr : Filter) : M FilterIndexer :=
  visit load_rule rfi (fl_Rules fltr).

(** The filter of an item that has none. *)
Definition none_filter (tenant itemID : string) : Filter :=
  mkFilter tenant itemID [mkFilterRule "*none" "*any" ["*any"] None] None.
Definition indexed_filter (t : ItemType) (tenant itemID fltrID : string) : res Filter :=
  if decide (fltrID = "*none") then Ok (none_filter tenant itemID)
  else
    match GetFilter tenant fltrID with
    | Err e => Err (if decide (e = ErrNotFound)
        then "broken reference to filter: " +:+ fltrID +:+ " for itemType: " +:+ item_prefix t
             +:+ " and ID: " +:+ itemID
        else e)
    | r => r
    end.
Definition filters_or_none (filterIDs : list string) : list string :=
  if decide (filterIDs = []) then ["*none"] else filterIDs.

Definition index_key (tenant context : string) : string :=
  if decide (context = "") then tenant else ConcatenatedKey [tenant; context].

Definition createAndIndex (t : ItemType) (tenant context itemID : string) (filterIDs : list string)
    : M () :=
  rfi ← visit (λ rfi fltrID,
          fltr ← lift (indexed_filter t tenant itemID fltrID);
          rfi ← load_filter rfi fltr;
          mret (IndexTPFilter rfi (FilterToTPFilter fltr) itemID))
        (NewFilterIndexer t (index_key tenant context)) (filters_or_none filterIDs);
  StoreIndexes rfi true "".

(** ** The profiles *)

(** [Get...Profile] of the type, with the cache in front. *)
Definition dm_GetProfile (t : ItemType) (tenant id : string) : M AnyProfile := λ st,
  let tntID := ConcatenatedKey [tenant; id] in
  (match is_profileCache st !! (item_prefix t, tntID) with
   | Some None => Err ErrNotFound
   | Some (Some p) => Ok p
   | None =>
       match read_error t tntID, is_profiles st !! (item_prefix t, tntID) with
       | Some e, _ => Err e
       | None, Some p => Ok p
       | None, None => Err ErrNotFound
       end
   end, st).
(** Not found as nil. *)
Definition dm_FindProfile (t : ItemType) (tenant id : string) : M (option AnyProfile) := λ st,
  match dm_GetProfile t tenant id st with
  | (Ok p, st') => (Ok (Some p), st')
  | (Err e, st') => if decide (e = ErrNotFound) then (Ok None, st') else (Err e, st')
  | (Panic, st') => (Panic, st')
  end.
Definition SetProfileDrv (p : AnyProfile) : M () := λ st,
  let key := ConcatenatedKey [any_Tenant p; any_ID p] in
  match write_error (any_type p) key with
  | Some e => (Err e, st)
  | None => (Ok (), set_profiles (<[(item_prefix (any_type p), key) := p]> (is_profiles st)) st)
  end.
Definition RemoveProfileDrv (t : ItemType) (tenant id : string) : M () := λ st,
  let key := ConcatenatedKey [tenant; id] in
  match remove_error t key with
  | Some e => (Err e, st)
  | None => (Ok (), set_profiles (delete (item_prefix t, key) (is_profiles st)) st)
  end.

Definition remove_item (itemID : string) (rfi : FilterIndexer) : FilterIndexer :=
  mkFilterIndexer (delete itemID <$> fi_indexes rfi) (fi_itemType rfi) (fi_dbKeySuffix rfi)
    (fi_chngdIndxKeys rfi).

Definition RemoveItemFromIndex (rfi : FilterIndexer) (tenant itemID : string)
    (oldFilters : list string) : M () :=
  let t := fi_itemType rfi in
  p ← dm_FindProfile t tenant itemID;
  rfi ← visit (λ rfi fltrID,
          fltr ← lift (indexed_filter t tenant itemID fltrID);
          load_filter rfi fltr)
        rfi (filters_or_none (default [] (any_FilterIDs <$> p)) ++ oldFilters);
  StoreIndexes (remove_item itemID rfi) false "".

(** Is a filter of the old profile not one of the new?  Asking sorts the filters of the new
    profile, and it is these that are indexed. *)
Definition filters_dropped (old new : list string) : bool * list string :=
  foldl (λ '(needsRemove, new) fltrID,
      let '(member, new) := IsSliceMember new fltrID in ((needsRemove || negb member)%bool, new))
    (false, new) old.

(** The setters of the profiles without contexts. *)
Definition set_profile (p : AnyProfile) (withIndex : bool) : M () :=
  let t := any_type p in
  old ← dm_FindProfile t (any_Tenant p) (any_ID p);
  _ ← SetProfileDrv p;
  if (withIndex : bool) then
    let oldFilterIDs := default [] (any_FilterIDs <$> old) in
    let '(needsRemove, ids) := filters_dropped oldFilterIDs (any_FilterIDs p) in
    _ ← (if (needsRemove : bool)
         then RemoveItemFromIndex (NewFilterIndexer t (any_Tenant p)) (any_Tenant p) (any_ID p)
                oldFilterIDs
         else mret tt);
    createAndIndex t (any_Tenant p) "" (any_ID p) ids
  else mret tt.
Definition remove_profile (t : ItemType) (tenant id : string) (withIndex : bool) : M () :=
  old ← dm_FindProfile t tenant id;
  _ ← RemoveProfileDrv t tenant id;
  match old with
  | None => fails ErrNotFound
  | Some old =>
      if (withIndex : bool)
      then RemoveItemFromIndex (NewFilterIndexer t tenant) tenant id (any_FilterIDs old)
      else mret tt
  end.

(** The setters of the profiles with contexts; asking for a context sorts those of the new
    profile. *)
Definition leave_context (old p : AnyProfile) (new : list string * list string) (ctx : string)
    : M (list string * list string) :=
  let '(stays, ctxs) := IsSliceMember new.1 ctx in
  let '(needsRemove, ids) :=
    if (stays : bool) then filters_dropped (any_FilterIDs old) new.2 else (true, new.2) in
  _ ← (if (needsRemove : bool)
       then RemoveItemFromIndex
              (NewFilterIndexer (any_type p) (ConcatenatedKey [any_Tenant p; ctx]))
              (any_Tenant p) (any_ID p) (any_FilterIDs old)
       else mret tt);
  mret (ctxs, ids).
Definition set_context_profile (p : AnyProfile) (withIndex : bool) : M () :=
  let t := any_type p in
  old ← dm_FindProfile t (any_Tenant p) (any_ID p);
  _ ← SetProfileDrv p;
  if (withIndex : bool) then
    '(ctxs, ids) ← match old with
                   | Some old =>
                       visit (leave_context old p) (any_Contexts p, any_FilterIDs p) (any_Contexts old)
                   | None => mret (any_Contexts p, any_FilterIDs p)
                   end;
    visit (λ _ ctx, createAndIndex t (any_Tenant p) ctx (any_ID p) ids) () ctxs
  else mret tt.
Definition remove_contexts (t : ItemType) (tenant id : string) (old : AnyProfile) : M () :=
  visit (λ _ ctx, RemoveItemFromIndex (NewFilterIndexer t (ConcatenatedKey [tenant; ctx])) tenant id
                    (any_FilterIDs old)) () (any_Contexts old).

Definition SetThresholdProfile (th : ThresholdProfile) : bool → M () := set_profile (AThreshold th).
Definition RemoveThresholdProfile : string → string → bool → M () :=
  remove_profile ThresholdProfilePrefix.
Definition SetStatQueueProfile (sqp : StatQueueProfile) : bool → M () := set_profile (AStatQueue sqp).
Definition RemoveStatQueueProfile : string → string → bool → M () :=
  remove_profile StatQueueProfilePrefix.
Definition SetResourceProfile (rp : ResourceProfile) (withIndex : bool) : M () :=
  _ ← set_profile (AResource rp) withIndex;
  if (withIndex : bool) then
    modify (λ st, mkIndexState (is_db st) (is_cache st) (is_profiles st) (is_profileCache st) ∅)
  else mret tt.
Definition RemoveResourceProfile : string → string → bool → M () :=
  remove_profile ResourceProfilesPrefix.
Definition SetSupplierProfile (supp : SupplierProfile) : bool → M () := set_profile (ASupplier supp).
Definition RemoveSupplierProfile : string → string → bool → M () :=
  remove_profile SupplierProfilePrefix.
Definition SetChargerProfile (cpp : ChargerProfile) : bool → M () := set_profile (ACharger cpp).
Definition RemoveChargerProfile : string → string → bool → M () := remove_profile ChargerProfilePrefix.
Definition SetAttributeProfile (ap : AttributeProfile) : bool → M () :=
  set_context_profile (AAttribute ap).
(** Here not found is an error before anything is removed. *)
Definition RemoveAttributeProfile (tenant id : string) (withIndex : bool) : M () :=
  old ← dm_GetProfile AttributeProfilePrefix tenant id;
  _ ← RemoveProfileDrv AttributeProfilePrefix tenant id;
  if (withIndex : bool) then remove_contexts AttributeProfilePrefix tenant id old else mret tt.
Definition SetDispatcherProfile (dpp : DispatcherProfile) : bool → M () :=
  set_context_profile (ADispatcher dpp).
Definition RemoveDispatcherProfile (tenant id : string) (withIndex : bool) : M () :=
  old ← dm_FindProfile DispatcherProfilePrefix tenant id;
  _ ← RemoveProfileDrv DispatcherProfilePrefix tenant id;
  match old with
  | None => fails ErrNotFound
  | Some old =>
      if (withIndex : bool) then remove_contexts DispatcherProfilePrefix tenant id old else mret tt
  end.
End indexer.
