(* ===== verification/IndexLaws.v ===== *)
(** * What the indexes of filters promise

    Setting a profile adds it to the indexes of all rules of its filters and changes nothing
    else; removing takes it out; an event whose field has a value that a rule of the profile
    names finds it.  The theorems are about any driver of the class [IndexDriver]; those of
    the internal database and of Redis are two. *)
From S2P Require Import Prelude GoFloat GoStrings GoTime CoreUtils Collections Values Filters StatMetrics StatQueue Resources Stateful Thresholds RatingProfile TariffPlan TariffActions TariffProfiles TariffRouting Profiles FilterIndexes.

(** ** The keys of filters *)

Definition rule_keys (r : FilterRule) : list string :=
  if bool_decide (fr_Type r ∈ ["*string"; "*prefix"]) then
    (λ v, ConcatenatedKey [fr_Type r; fr_Element r; v]) <$> fr_Values r
  else if decide (fr_Type r = "*none") then [ConcatenatedKey ["*none"; "*any"; "*any"]]
  else [].
Definition filter_keys (f : Filter) : list string := fl_Rules f ≫= rule_keys.
Definition loaded_keys (r : FilterRule) : list string :=
  if bool_decide (fr_Type r ∈ ["*none"; "*prefix"; "*string"]) then
    (λ v, ConcatenatedKey [fr_Type r; fr_Element r; v]) <$> fr_Values r
  else [].
Definition load_keys (f : Filter) : list string := fl_Rules f ≫= loaded_keys.

(** A rule of the type for no filters is always listed under one key, so what the indexer loads
    for a filter can only differ for keys of that type. *)
Definition regular (good : string → Prop) (f : Filter) : Prop :=
  ∀ k, good k → k ∈ filter_keys f ↔ k ∈ load_keys f.
Definition named (k : string) : Prop := HasPrefix k "*none:" = false.

Lemma none_key e v : HasPrefix (ConcatenatedKey ["*none"; e; v]) "*none:" = true.
Proof.
  unfold ConcatenatedKey. rewrite Join_cons by done.
  exact (HasPrefix_app "*none:" (Join [e; v] CONCATENATED_KEY_SEP)).
Qed.
Lemma string_key_named e v : named (ConcatenatedKey ["*string"; e; v]).
Proof. unfold named, ConcatenatedKey. rewrite Join_cons by done. reflexivity. Qed.
Lemma regular_named f : regular named f.
Proof.
  intros k Hk. unfold filter_keys, load_keys. rewrite !list_elem_of_bind.
  assert (∀ r, k ∈ rule_keys r ↔ k ∈ loaded_keys r) as Hr; [|by setoid_rewrite Hr].
  intros r. unfold rule_keys, loaded_keys. destruct (decide (fr_Type r = "*none")) as [E|E].
  - rewrite E. simpl. split.
    + intros ->%list_elem_of_singleton. unfold named in Hk. by rewrite none_key in Hk.
    + intros (v & -> & _)%list_elem_of_fmap. unfold named in Hk. by rewrite none_key in Hk.
  - assert (fr_Type r ∈ ["*none"; "*prefix"; "*string"] ↔ fr_Type r ∈ ["*string"; "*prefix"]) as Hiff
      by set_solver.
    by rewrite (bool_decide_ext _ _ Hiff).
Qed.
Lemma regular_none good tenant itemID : regular good (none_filter tenant itemID).
Proof. done. Qed.

Lemma bind_singletons {A B} (f : A → B) (l : list A) : (l ≫= λ x, [f x]) = f <$> l.
Proof. induction l as [|x l IH]; [done|]. csimpl. by rewrite IH. Qed.

Lemma ConcatenatedKey_tail p l l' :
  l ≠ [] → l' ≠ [] → ConcatenatedKey (p :: l) = ConcatenatedKey (p :: l') →
  ConcatenatedKey l = ConcatenatedKey l'.
Proof.
  intros Hl Hl'. unfold ConcatenatedKey. rewrite !Join_cons by done. intros E.
  by do 2 apply (inj (String.append _)) in E.
Qed.

Lemma res_map_no_error {A B} (f : A → res B) l :
  (∀ x e, f x ≠ Err e) → ∀ e, res_map f l ≠ Err e.
Proof.
  intros Hf. induction l as [|x l IH]; intros e; simpl; [done|]. specialize (Hf x).
  destruct (f x) as [y|e'|]; simpl; [|by destruct (Hf e')|done]. specialize (IH e).
  by destruct (res_map f l); simpl in *.
Qed.

(** ** The items an event finds

    When the index answers every question with the items of [ix] or not found. *)
Section finding.
Context `{GoText} `{FilterData} (cacheID p : string) (ix : string → gset string).
Context (Hix : ∀ ft n v, match MatchFilterIndex cacheID p ft n v with
  | Ok l => list_to_set l.*1 = ix (ConcatenatedKey [ft; n; v])
  | Err e => e = NOT_FOUND ∧ ix (ConcatenatedKey [ft; n; v]) = ∅
  | Panic => False
  end).

Lemma first_match_total ft n vals : ∃ l, first_match cacheID p ft n vals = Ok l.
Proof.
  induction vals as [|w vals IH]; simpl; [by exists []|].
  pose proof (Hix ft n w) as Hw. destruct (MatchFilterIndex cacheID p ft n w) as [l|e|]; [by exists l| |done].
  destruct Hw as [-> _]. by rewrite decide_True.
Qed.
Lemma first_match_single ft n v l :
  first_match cacheID p ft n [v] = Ok l → list_to_set l.*1 = ix (ConcatenatedKey [ft; n; v]).
Proof.
  simpl. pose proof (Hix ft n v) as Hv. destruct (MatchFilterIndex cacheID p ft n v) as [l'|e|]; [|destruct Hv as [-> Hv]|done].
  - by intros [= <-].
  - rewrite decide_True by done. intros [= <-]. by rewrite Hv.
Qed.

Lemma add_items_dom its l : dom (add_items its l) = dom its ∪ list_to_set l.*1.
Proof.
  unfold add_items. revert its. induction l as [|[k b] l IH]; intros its; simpl; [set_solver|].
  rewrite IH. destruct (its !! k) eqn:E; [apply elem_of_dom_2 in E; set_solver|].
  rewrite dom_insert_L. set_solver.
Qed.

Context (ev : MapStorage).

(** The texts that are kept are those of the fields. *)
Definition field_texts (vals : gmap string string) : Prop :=
  vals !! "*any" = Some "*any" ∧ ∀ n v, vals !! n = Some v →
    n = "*any" ∨ ∀ x, FieldAsInterface ev (Split n ".") = Ok x → v = IfaceAsString x.

Lemma match_text ty vals its n x0 vals' its' :
  (let '(vals, fldVal) := match vals !! n with
     | Some v => (vals, v)
     | None => (<[n := IfaceAsString x0]> vals, IfaceAsString x0) end in
   fldVals ← index_values ty fldVal;
   dbItemIDs ← first_match cacheID p ty (if decide (n = "*any") then n else "~*req." +:+ n) fldVals;
   Ok (vals, add_items its dbItemIDs)) = Ok (vals', its') →
  field_texts vals → (∀ x, FieldAsInterface ev (Split n ".") = Ok x → x = x0) →
  field_texts vals' ∧ dom its ⊆ dom its' ∧
  (ty = "*string" → n ≠ "*any" → ∀ x, FieldAsInterface ev (Split n ".") = Ok x →
     ix (ConcatenatedKey ["*string"; "~*req." +:+ n; IfaceAsString x]) ⊆ dom its').
Proof.
  intros Hm Hv Hx. set (w := default (IfaceAsString x0) (vals !! n)).
  set (vals1 := match vals !! n with Some _ => vals | None => <[n := IfaceAsString x0]> vals end).
  assert (match vals !! n with Some v => (vals, v)
     | None => (<[n := IfaceAsString x0]> vals, IfaceAsString x0) end = (vals1, w)) as Ew
    by (unfold vals1, w; by destruct (vals !! n)).
  rewrite Ew in Hm. clear Ew.
  destruct (index_values ty w) as [fvs| |] eqn:Ei; [|done..]. simpl in Hm.
  destruct (first_match _ _ _ _ fvs) as [l| |] eqn:El; [|done..]. injection Hm as <- <-.
  rewrite add_items_dom. split_and!; [|set_solver|].
  - unfold vals1. destruct (vals !! n) eqn:En; [done|]. destruct Hv as [Hany Hv]. split.
    { rewrite lookup_insert_ne; [done|]. intros ->. congruence. }
    intros k v [[<- <-]|[_ Hk]]%lookup_insert_Some; [|by apply Hv].
    right. intros x E. by rewrite (Hx x E).
  - intros -> Hn x E. rewrite decide_False in El by done. injection Ei as <-.
    apply first_match_single in El. rewrite El.
    assert (w = IfaceAsString x) as ->; [|set_solver]. unfold w.
    destruct (vals !! n) as [v|] eqn:En; simpl; [|by rewrite (Hx x E)].
    destruct (proj2 Hv _ _ En) as [?|Hk]; [done|]. by apply Hk.
Qed.

Lemma match_field_found ty vals its n vals' its' :
  match_field cacheID p ty ev vals its n = Ok (vals', its') → field_texts vals →
  field_texts vals' ∧ dom its ⊆ dom its' ∧
  (ty = "*string" → n ≠ "*any" → ∀ x, FieldAsInterface ev (Split n ".") = Ok x →
     ix (ConcatenatedKey ["*string"; "~*req." +:+ n; IfaceAsString x]) ⊆ dom its').
Proof.
  unfold match_field. intros Hm Hv.
  destruct (FieldAsInterface ev (Split n ".")) as [y|e|] eqn:Ef; [|destruct (bool_decide (ty = "*none"))|done].
  - destruct (match_text ty vals its n y vals' its' Hm Hv) as (? & ? & Hx); [intros x; congruence|].
    split_and!; [done..|]. intros Ht Hn x [= <-]. by apply Hx.
  - destruct (match_text ty vals its n INil vals' its' Hm Hv) as (? & ? & _); [intros x; congruence|].
    split_and!; [done..|]. intros. congruence.
  - injection Hm as <- <-. by split_and!.
Qed.

Lemma match_field_no_error ty vals its n e : match_field cacheID p ty ev vals its n ≠ Err e.
Proof.
  assert (∀ v e, index_values ty v ≠ Err e) as Hi.
  { intros v e'. unfold index_values. case_decide; [|done]. unfold SplitPrefix.
    apply res_map_no_error. intros x e1. unfold slice. by case_match. }
  assert (∀ x0, (let '(vals, fldVal) := match vals !! n with
     | Some v => (vals, v)
     | None => (<[n := IfaceAsString x0]> vals, IfaceAsString x0) end in
   fldVals ← index_values ty fldVal;
   dbItemIDs ← first_match cacheID p ty (if decide (n = "*any") then n else "~*req." +:+ n) fldVals;
   Ok (vals, add_items its dbItemIDs)) ≠ Err e) as Ht.
  { intros x0. destruct (match vals !! n with Some _ => _ | None => _ end) as [vs w].
    destruct (index_values ty w) as [fvs|e'|] eqn:E; simpl; [|by apply Hi in E|done].
    match goal with |- context [first_match _ _ _ ?name fvs] =>
      destruct (first_match_total ty name fvs) as [l ->] end. done. }
  unfold match_field. destruct (FieldAsInterface ev (Split n ".")) as [y|e'|]; [apply Ht| |done].
  destruct (bool_decide (ty = "*none")); [apply Ht|done].
Qed.

Lemma match_fields_no_error ty ns st e : match_fields cacheID p ty ev ns st ≠ Err e.
Proof.
  revert st. induction ns as [|n ns IH]; intros st; simpl; [done|].
  destruct (match_field _ _ _ _ _ _ _); [apply IH|done..].
Qed.
Lemma match_fields_found ty ns vals its st' ended :
  match_fields cacheID p ty ev ns (vals, its) = Ok (st', ended) → field_texts vals →
  ended = false ∧ field_texts st'.1 ∧ dom its ⊆ dom st'.2 ∧
  (ty = "*string" → ∀ n x, n ∈ ns → n ≠ "*any" → FieldAsInterface ev (Split n ".") = Ok x →
     ix (ConcatenatedKey ["*string"; "~*req." +:+ n; IfaceAsString x]) ⊆ dom st'.2).
Proof.
  revert vals its. induction ns as [|n ns IH]; intros vals its; simpl.
  { intros [= <- <-] Hv. split_and!; [done..|]. by intros _ n x ?%elem_of_nil. }
  destruct (match_field cacheID p ty ev vals its n) as [[vals1 its1]|e|] eqn:E; [| |done].
  - intros Hm Hv. destruct (match_field_found _ _ _ _ _ _ E Hv) as (Hv1 & Hd1 & Hx1).
    destruct (IH _ _ Hm Hv1) as (He & Hv2 & Hd2 & Hx2). split_and!; [done|done|set_solver|].
    intros Ht m x [->|Hm']%elem_of_cons Hne Hf; [|by apply Hx2]. specialize (Hx1 Ht Hne x Hf). set_solver.
  - by apply match_field_no_error in E.
Qed.

(** The key of the items without filters. *)
Definition none_filters : string := ConcatenatedKey ["*none"; "*any"; "*any"].

Lemma match_none_found vals its st' ended :
  match_fields cacheID p "*none" ev ["*any"] (vals, its) = Ok (st', ended) → field_texts vals →
  ended = false ∧ dom its ⊆ dom st'.2 ∧ ix none_filters ⊆ dom st'.2.
Proof.
  intros Hm Hv. destruct (match_fields_found _ _ _ _ _ _ Hm Hv) as (-> & _ & Hd & _).
  split_and!; [done..|]. cbn [match_fields] in Hm.
  destruct (match_field _ _ _ _ _ _ _) as [[vals1 its1]|e|] eqn:E; [|done..]. injection Hm as <-. simpl.
  unfold match_field in E. cbn [fst snd] in E. rewrite (proj1 Hv) in E.
  assert (∃ l, first_match cacheID p "*none" "*any" ["*any"] = Ok l ∧ its1 = add_items its l) as (l & Hl & ->).
  { destruct (first_match_total "*none" "*any" ["*any"]) as [l Hl]. exists l. split; [done|].
    destruct (FieldAsInterface ev (Split "*any" ".")); [| |done]; simpl in E, Hl; rewrite Hl in E; simpl in E;
      by injection E as _ <-. }
  apply first_match_single in Hl. rewrite add_items_dom, Hl. set_solver.
Qed.

(** The items listed for the text of a field that is queried are found, and so are those
    without filters. *)
Lemma MatchingItemIDs_found (stringFldIDs prefixFldIDs : option (list string)) ixp nested itemID :
  itemID ∈ ix none_filters ∨
  (∃ n x, n ∈ default (GetKeys ev nested) stringFldIDs ∧ n ≠ "*any" ∧
    FieldAsInterface ev (Split n ".") = Ok x ∧
    itemID ∈ ix (ConcatenatedKey ["*string"; "~*req." +:+ n; IfaceAsString x])) →
  match MatchingItemIDsForEvent ev stringFldIDs prefixFldIDs cacheID ixp p true nested with
  | Ok items => itemID ∈ dom items | Err _ => False | Panic => True
  end.
Proof.
  intros Hin. unfold MatchingItemIDsForEvent, indexed_items. cbn [negb].
  assert (field_texts {["*any" := "*any"]}) as Hv0.
  { split; [apply lookup_singleton_eq|]. intros k v [<- <-]%lookup_singleton_Some. by left. }
  destruct (match_fields _ _ "*string" _ _ _) as [[[vals1 its1] e1]|e|] eqn:E1; [| |done].
  2:{ by apply match_fields_no_error in E1. }
  destruct (match_fields_found _ _ _ _ _ _ E1 Hv0) as (-> & Hv1 & _ & Hx). cbn [fst snd mbind res_bind] in *.
  destruct (match_fields _ _ "*prefix" _ _ _) as [[[vals2 its2] e2]|e|] eqn:E2; [| |done].
  2:{ by apply match_fields_no_error in E2. }
  destruct (match_fields_found _ _ _ _ _ _ E2 Hv1) as (-> & Hv2 & Hd2 & _). cbn [fst snd mbind res_bind] in *.
  destruct (match_fields _ _ "*none" _ _ _) as [[[vals3 its3] e3]|e|] eqn:E3; [| |done].
  2:{ by apply match_fields_no_error in E3. }
  destruct (match_none_found _ _ _ _ E3 Hv2) as (_ & Hd3 & Hnone). cbn [fst snd mbind res_bind] in *.
  assert (itemID ∈ dom its3) as Hit.
  { destruct Hin as [Hin|(n & x & Hn & Hne & Hf & Hin)]; [set_solver|].
    specialize (Hx eq_refl n x Hn Hne Hf). set_solver. }
  case_decide as Hempty; [|done]. subst its3. set_solver.
Qed.
End finding.

(** ** Rules that compare a field of the event with fixed values *)

Lemma Split_req s : Split ("*req." +:+ s) "." = "*req" :: Split s ".".
Proof.
  unfold Split. simpl. assert (String.prefix "" s = true) as -> by (by destruct s).
  by destruct (Split_go "." 0 s).
Qed.

Lemma event_field `{GoText} ev n :
  DPDynamicString ("~*req." +:+ n) (event_provider ev) = FieldAsString (ev_Event ev) (Split n ".").
Proof.
  unfold DPDynamicString. change ("~*req." +:+ n) with ("~" +:+ ("*req." +:+ n)).
  rewrite HasPrefix_app, TrimPrefix_app, Split_req. unfold event_provider, FieldAsString. simpl.
  unfold FieldAsString. destruct (Split_tilde n) as (h & t & -> & _). done.
Qed.

Lemma fixed_value `{GoText} w values dps :
  (∀ v, v ∈ values → HasPrefix v "~" = false) →
  any_value DPDynamicString (λ sval, Ok (bool_decide (w = sval))) values dps = Ok true → w ∈ values.
Proof.
  revert dps. induction values as [|v values IH]; intros dps Hv; simpl; [done|].
  destruct dps as [|dp dps]; [done|]. unfold DPDynamicString at 1. rewrite (Hv v (list_elem_of_here _ _)). simpl.
  case_bool_decide as Hw; [intros _; subst; by left|]. intros Ha. right.
  eapply IH; [|exact Ha]. intros x Hx. apply Hv. by right.
Qed.

Lemma string_rule_value `{GoText} `{FilterData} ev tenant r n :
  rule_verdict (event_provider ev) tenant r = Ok true →
  fr_Type r = "*string" → fr_Element r = "~*req." +:+ n → fr_negative r ≠ Some true →
  (∀ v, v ∈ fr_Values r → HasPrefix v "~" = false) →
  ∃ x, FieldAsInterface (ev_Event ev) (Split n ".") = Ok x ∧ IfaceAsString x ∈ fr_Values r.
Proof.
  intros Hr Ht He Hn Hv. unfold rule_verdict in Hr.
  assert (getFieldNameDataProvider (event_provider ev) (fr_Element r) tenant =
    Ok (Some (event_provider ev))) as Hname by (by rewrite He).
  rewrite Hname in Hr. simpl in Hr.
  destruct (getFieldValuesDataProviders _ _ _) as [dps| |]; [|done..]. simpl in Hr.
  unfold FilterRule_Pass, rule_test in Hr. rewrite Ht in Hr. simpl in Hr.
  unfold passString, pass_string_test in Hr. rewrite He, event_field in Hr. unfold FieldAsString in Hr.
  destruct (FieldAsInterface (ev_Event ev) (Split n ".")) as [x|e|]; simpl in Hr; [| |done].
  2:{ destruct (decide (e = NOT_FOUND)); simpl in Hr; [|done]. by destruct (fr_negative r) as [[]|]. }
  destruct (any_value _ _ _ _) as [b| |] eqn:Ea; [|done..]. simpl in Hr.
  exists x. split; [done|]. eapply fixed_value; [exact Hv|]. rewrite Ea.
  destruct b; [done|]. by destruct (fr_negative r) as [[]|].
Qed.

Section laws.
Context `{GoText} `{GoRuntime} `{FilterData} `{ProfileErrors} {S : Type} `{!IndexDriver S}.
#[local] Abbreviation St := (IndexState S).
Definition items (st : St) : ItemType → string → string → gset string := ix_items (is_db st).

(** ** Loading *)

Definition same_index (rfi rfi' : FilterIndexer) : Prop :=
  fi_itemType rfi' = fi_itemType rfi ∧ fi_dbKeySuffix rfi' = fi_dbKeySuffix rfi.
Lemma same_index_trans a b c : same_index a b → same_index b c → same_index a c.
Proof. unfold same_index. intros [-> ->] [-> ->]. done. Qed.

(** What the indexer has for the keys [K] is what the database has. *)
Definition loads (st : St) (K : list string) (rfi rfi' : FilterIndexer) : Prop :=
  same_index rfi rfi' ∧
  ∀ k, (k ∈ K ∧ ∃ s, fi_indexes rfi' !! k = Some s ∧
          dom s = items st (fi_itemType rfi) (fi_dbKeySuffix rfi) k) ∨
       ((k ∈ K → items st (fi_itemType rfi) (fi_dbKeySuffix rfi) k = ∅) ∧
        fi_indexes rfi' !! k = fi_indexes rfi !! k).

Lemma loads_nil st rfi : loads st [] rfi rfi.
Proof. split; [done|]. intros k. right. split; [by intros ?%elem_of_nil|done]. Qed.
Lemma loads_app st K1 K2 a b c : loads st K1 a b → loads st K2 b c → loads st (K1 ++ K2) a c.
Proof.
  intros [Hs1 Hab] [Hs2 Hbc]. pose proof Hs1 as [Et Ep]. split; [by eapply same_index_trans|].
  intros k. specialize (Hab k). specialize (Hbc k). rewrite Et, Ep in Hbc. rewrite elem_of_app.
  destruct Hbc as [[Hk Hex]|[Hk E2]]; [by left; auto|]. rewrite E2.
  destruct Hab as [[Hk1 Hex]|[Hk1 E1]]; [by left; auto|]. right. rewrite E1. tauto.
Qed.

(** A computation that only reads, and what it gives. *)
Definition reads {A} (m : SM St A) (P : St → A → Prop) : Prop :=
  ∀ st, (m st).2 = st ∧ ∀ a, (m st).1 = Ok a → P st a.

Lemma load_value_loads ft n rfi v :
  reads (load_value ft n rfi v) (λ st, loads st [ConcatenatedKey [ft; n; v]] rfi).
Proof.
  intros st. unfold load_value, loadFldNameFldValIndex, dm_GetFilterIndexes, mbind, SM_bind.
  set (key := ConcatenatedKey [ft; n; v]).
  pose proof (drv_get (is_db st) (fi_itemType rfi) (fi_dbKeySuffix rfi) ft n v) as Hg.
  fold key in Hg. destruct (GetFilterIndexesDrv _ _ _ _ _) as [m|e|]; simpl.
  - destruct Hg as (s & -> & Hs). split; [done|]. intros a [= <-]. split; [done|]. simpl. intros k.
    destruct (decide (k = key)) as [->|Hk].
    + left. split; [by left|]. exists s. split; [|done]. by apply lookup_union_Some_l, lookup_singleton_Some.
    + right. split; [by intros ->%list_elem_of_singleton|].
      rewrite lookup_union, lookup_singleton_ne by done. by rewrite (left_id None _).
  - case_decide as He; simpl; [|done]. split; [done|]. intros a [= <-]. split; [done|]. intros k. right.
    split; [|done]. intros ->%list_elem_of_singleton. by apply Hg.
  - done.
Qed.

Lemma visit_loads {A} (f : FilterIndexer → A → SM St FilterIndexer) (K : A → list string) l rfi :
  (∀ x rfi, x ∈ l → reads (f rfi x) (λ st, loads st (K x) rfi)) →
  reads (visit f rfi l) (λ st, loads st (l ≫= K) rfi).
Proof.
  revert rfi. induction l as [|x l IH]; intros rfi Hf st; simpl.
  { split; [done|]. intros a [= <-]. apply loads_nil. }
  unfold mbind, SM_bind. destruct (Hf x rfi (list_elem_of_here _ _) st) as [E1 P1].
  destruct (f rfi x st) as [[b|e|] st1]; simpl in *; subst st1; [|done..].
  destruct (IH b (λ y r Hy, Hf y r (list_elem_of_further _ _ _ Hy)) st) as [E2 P2].
  split; [done|]. intros a Ha. eapply loads_app; [by apply P1|by apply P2].
Qed.

Lemma load_rule_loads r rfi : reads (load_rule rfi r) (λ st, loads st (loaded_keys r) rfi).
Proof.
  unfold load_rule, loaded_keys. destruct (bool_decide _).
  - intros st. pose proof (visit_loads (load_value (fr_Type r) (fr_Element r))
      (λ v, [ConcatenatedKey [fr_Type r; fr_Element r; v]]) (fr_Values r) rfi) as Hv.
    destruct (Hv (λ v x _, load_value_loads _ _ x v) st) as [E P]. split; [done|].
    intros a Ha. specialize (P a Ha). by rewrite bind_singletons in P.
  - intros st. split; [done|]. intros a [= <-]. apply loads_nil.
Qed.
Lemma load_filter_loads f rfi : reads (load_filter rfi f) (λ st, loads st (load_keys f) rfi).
Proof. apply visit_loads. intros r b _. apply load_rule_loads. Qed.

(** ** Indexing *)

(** The item is added under the keys [K]. *)
Definition adds (itemID : string) (K : list string) (rfi rfi' : FilterIndexer) : Prop :=
  same_index rfi rfi' ∧
  ∀ k, (k ∈ K ∧ ∃ s, fi_indexes rfi' !! k = Some s ∧
          dom s = dom (default ∅ (fi_indexes rfi !! k)) ∪ {[itemID]}) ∨
       ((k ∉ K) ∧ fi_indexes rfi' !! k = fi_indexes rfi !! k).

Lemma adds_nil itemID rfi : adds itemID [] rfi rfi.
Proof. split; [done|]. intros k. right. split; [by intros ?%elem_of_nil|done]. Qed.
Lemma adds_app itemID K1 K2 a b c :
  adds itemID K1 a b → adds itemID K2 b c → adds itemID (K1 ++ K2) a c.
Proof.
  intros [Hs1 Hab] [Hs2 Hbc]. split; [by eapply same_index_trans|].
  intros k. specialize (Hab k). specialize (Hbc k). rewrite elem_of_app.
  destruct Hbc as [(Hk & s & E2 & Hd)|[Hk E2]].
  - left. split; [by right|]. exists s. split; [done|]. rewrite Hd.
    destruct Hab as [(_ & s1 & -> & Hd1)|[_ ->]]; simpl; [|done]. rewrite Hd1. set_solver.
  - rewrite E2. destruct Hab as [[Hk1 Hex]|[Hk1 E1]]; [by left; auto|]. right. rewrite E1. tauto.
Qed.

Lemma index_add_adds itemID k rfi : adds itemID [k] rfi (index_add itemID k rfi).
Proof.
  split; [done|]. intros j. simpl. destruct (decide (j = k)) as [->|Hj].
  - left. split; [by left|]. rewrite lookup_insert_eq. eexists. split; [done|].
    rewrite dom_insert_L. set_solver.
  - right. split; [by intros ->%list_elem_of_singleton|]. by rewrite lookup_insert_ne.
Qed.
Lemma foldl_adds {A} itemID (f : FilterIndexer → A → FilterIndexer) (K : A → list string) l rfi :
  (∀ x rfi, adds itemID (K x) rfi (f rfi x)) → adds itemID (l ≫= K) rfi (foldl f rfi l).
Proof.
  intros Hf. revert rfi. induction l as [|x l IH]; intros rfi; simpl; [apply adds_nil|].
  eapply adds_app; [apply Hf|apply IH].
Qed.
Lemma IndexTPFilter_adds itemID f rfi :
  adds itemID (filter_keys f) rfi (IndexTPFilter rfi (FilterToTPFilter f) itemID).
Proof.
  unfold IndexTPFilter, filter_keys. simpl. rewrite foldl_fmap. apply foldl_adds. clear rfi f.
  intros r rfi. unfold index_rule, rule_keys. simpl. destruct (bool_decide _).
  - rewrite <- bind_singletons. apply foldl_adds. intros v b. apply index_add_adds.
  - case_decide; [apply index_add_adds|apply adds_nil].
Qed.

(** ** Storing *)

Definition stored (rfi : FilterIndexer) (st st' : St) : Prop := ∀ t p k,
  items st' t p k =
  default (items st t p k)
    (if decide (t = fi_itemType rfi ∧ p = fi_dbKeySuffix rfi) then dom <$> fi_indexes rfi !! k
     else None).

(** What indexing a type never changes. *)
Definition aside (t : ItemType) (st st' : St) : Prop :=
  is_profiles st' = is_profiles st ∧ is_profileCache st' = is_profileCache st ∧
  ∀ t' key, t' ≠ t →
    is_cache st' !! (PrefixToIndexCache t', key) = is_cache st !! (PrefixToIndexCache t', key).
(** No answer is kept. *)
Definition cache_cleared (t : ItemType) (st : St) : Prop :=
  ∀ key, is_cache st !! (PrefixToIndexCache t, key) = None.

Lemma StoreIndexes_spec rfi commit st :
  let '(r, st') := StoreIndexes rfi commit "" st in
  aside (fi_itemType rfi) st st' ∧
  (r = Ok () → stored rfi st st' ∧ cache_cleared (fi_itemType rfi) st') ∧
  ∀ t p k, items st' t p k = items st t p k ∨
    (t = fi_itemType rfi ∧ p = fi_dbKeySuffix rfi ∧
     ∃ s, fi_indexes rfi !! k = Some s ∧ items st' t p k = dom s).
Proof.
  unfold StoreIndexes, dm_SetFilterIndexes, on_db, mbind, SM_bind.
  pose proof (drv_set (is_db st) (fi_itemType rfi) (fi_dbKeySuffix rfi) (fi_indexes rfi) commit) as Hd.
  destruct (SetFilterIndexesDrv _ _ _ _ _ _) as [r db].
  assert (∀ t p k, ix_items db t p k = items st t p k ∨
    (t = fi_itemType rfi ∧ p = fi_dbKeySuffix rfi ∧
     ∃ s, fi_indexes rfi !! k = Some s ∧ ix_items db t p k = dom s)) as Hpart.
  { intros t p k. destruct (Hd t p k) as [E|[_ E]]; [|by left].
    case_decide as Htp; [|by left]. destruct Htp as [-> ->].
    destruct (fi_indexes rfi !! k) as [s|] eqn:Es; [|by left]. right. split_and!; [done..|]. by exists s. }
  destruct r as [[]|e|]; simpl; split_and!; try done.
  { split_and!; [done..|]. intros t' key Ht. simpl. rewrite map_lookup_filter.
    destruct (is_cache st !! _) as [x|]; simpl; [|done]. apply option_guard_True. simpl.
    intros E. by apply (inj PrefixToIndexCache) in E. }
  intros _. split.
  - intros t p k. destruct (Hd t p k) as [E|[? _]]; [exact E|done].
  - intros key. apply map_lookup_filter_None. right. intros x _ Hx. by apply Hx.
Qed.

(** ** Adding an item *)

Definition item_keys (t : ItemType) (tenant itemID : string) (filterIDs : list string) (k : string)
    : Prop :=
  ∃ fltrID f, fltrID ∈ filters_or_none filterIDs ∧ indexed_filter t tenant itemID fltrID = Ok f ∧
    k ∈ filter_keys f.

Context (good : string → Prop).

(** What the indexer has after some filters: under their keys what the database has and the
    item, nothing else. *)
Definition indexing (st : St) (itemID : string) (K : string → Prop) (rfi0 rfi : FilterIndexer)
    : Prop :=
  same_index rfi0 rfi ∧ ∀ k, good k →
    (K k ∧ ∃ s, fi_indexes rfi !! k = Some s ∧
       dom s = items st (fi_itemType rfi0) (fi_dbKeySuffix rfi0) k ∪ {[itemID]}) ∨
    (¬ K k ∧ fi_indexes rfi !! k = None).

Lemma indexing_step st itemID K K' f rfi0 a b :
  regular good f → indexing st itemID K rfi0 a → loads st (load_keys f) a b →
  (∀ k, K' k ↔ K k ∨ k ∈ filter_keys f) →
  indexing st itemID K' rfi0 (IndexTPFilter b (FilterToTPFilter f) itemID).
Proof.
  intros Hreg [[Et Ep] Ha] [Hs2 Hl] HK'. destruct (IndexTPFilter_adds itemID f b) as [Hs3 Hi].
  split; [eapply same_index_trans; [|exact Hs3]; by eapply same_index_trans|].
  intros k Hg. specialize (Ha k Hg). specialize (Hl k). specialize (Hi k). rewrite Et, Ep in Hl.
  rewrite HK'. rewrite <- (Hreg k Hg) in Hl.
  destruct Hi as [(Hk & s & Es & Hd)|[Hk Es]].
  - left. split; [by right|]. exists s. split; [done|]. rewrite Hd.
    destruct Hl as [(_ & s1 & -> & Hd1)|[Hz ->]]; simpl; [by rewrite Hd1|].
    rewrite (Hz Hk). destruct Ha as [(_ & s1 & -> & Hd1)|[_ ->]]; simpl.
    + rewrite Hd1, (Hz Hk). set_solver.
    + by rewrite dom_empty_L.
  - rewrite Es. destruct Hl as [[Hk' _]|[_ ->]]; [done|].
    destruct Ha as [[Hk1 Hex]|[Hk1 Hn]]; [left; split; [by left|done]|right; tauto].
Qed.

Definition index_filters (t : ItemType) (tenant itemID : string) (rfi : FilterIndexer) (fltrID : string)
    : SM St FilterIndexer :=
  fltr ← lift (indexed_filter t tenant itemID fltrID);
  rfi ← load_filter rfi fltr;
  mret (IndexTPFilter rfi (FilterToTPFilter fltr) itemID).

Lemma indexing_visit t tenant itemID ids st rfi0 K a :
  (∀ fltrID f, fltrID ∈ ids → indexed_filter t tenant itemID fltrID = Ok f → regular good f) →
  indexing st itemID K rfi0 a →
  let m := visit (index_filters t tenant itemID) a ids st in
  m.2 = st ∧ ∀ b, m.1 = Ok b →
    indexing st itemID (λ k, K k ∨ ∃ fltrID f, fltrID ∈ ids ∧
      indexed_filter t tenant itemID fltrID = Ok f ∧ k ∈ filter_keys f) rfi0 b.
Proof.
  revert K a. induction ids as [|id ids IH]; intros K a Hreg Ha; simpl.
  { split; [done|]. intros b [= <-]. destruct Ha as [Hs Ha]. split; [done|]. intros k Hg.
    destruct (Ha k Hg) as [[Hk Hex]|[Hk Hn]]; [by left; auto|right]. split; [|done].
    intros [?|(x & f & Hx & _)]; [done|by apply elem_of_nil in Hx]. }
  unfold mbind, SM_bind, index_filters at 1 3, lift.
  destruct (indexed_filter t tenant itemID id) as [f|e|] eqn:Ef; simpl; [|done..].
  unfold mbind, SM_bind. destruct (load_filter_loads f a st) as [E1 P1].
  destruct (load_filter a f st) as [[b|e|] st1]; simpl in *; subst st1; [|done..].
  destruct (IH (λ k, K k ∨ k ∈ filter_keys f) (IndexTPFilter b (FilterToTPFilter f) itemID)) as [E2 P2].
  { intros x g Hx. apply Hreg. by right. }
  { eapply indexing_step; [|exact Ha|by apply P1|done]. eapply Hreg; [by left|done]. }
  split; [exact E2|]. intros c Hc. destruct (P2 c Hc) as [Hs Hk]. split; [done|]. intros k Hg.
  assert (((K k ∨ k ∈ filter_keys f) ∨ (∃ fltrID f, fltrID ∈ ids ∧
      indexed_filter t tenant itemID fltrID = Ok f ∧ k ∈ filter_keys f)) ↔
    (K k ∨ ∃ fltrID f, fltrID ∈ id :: ids ∧
      indexed_filter t tenant itemID fltrID = Ok f ∧ k ∈ filter_keys f)) as <-; [|by apply Hk].
  setoid_rewrite elem_of_cons. split.
  - intros [[?|?]|(x & g & ? & ? & ?)]; [by left| |]; right; eauto 10.
  - intros [?|(x & g & [->|?] & Eg & ?)]; [by auto| |by eauto 10].
    rewrite Ef in Eg. injection Eg as <-. auto.
Qed.

(** Items, and the keys of one prefix and type, apart from which nothing changes. *)
Definition only_item (t : ItemType) (p itemID : string) (st st' : St) : Prop :=
  (∀ t' p' k, t' ≠ t ∨ p' ≠ p → items st' t' p' k = items st t' p' k) ∧
  (∀ t' p' k j, good k → j ≠ itemID → j ∈ items st' t' p' k ↔ j ∈ items st t' p' k).

Lemma createAndIndex_spec t tenant context itemID filterIDs st :
  (∀ fltrID f, fltrID ∈ filters_or_none filterIDs →
     indexed_filter t tenant itemID fltrID = Ok f → regular good f) →
  let '(r, st') := createAndIndex t tenant context itemID filterIDs st in
  let p := index_key tenant context in
  aside t st st' ∧ only_item t p itemID st st' ∧
  (∀ k j, good k → j ∈ items st t p k → j ∈ items st' t p k) ∧
  (r = Ok () →
    (∀ k j, good k → j ∈ items st' t p k ↔
       j ∈ items st t p k ∨ (j = itemID ∧ item_keys t tenant itemID filterIDs k)) ∧
    cache_cleared t st').
Proof.
  intros Hreg. unfold createAndIndex. set (p := index_key tenant context).
  change (λ rfi fltrID, fltr ← lift (indexed_filter t tenant itemID fltrID);
          rfi ← load_filter rfi fltr; mret (IndexTPFilter rfi (FilterToTPFilter fltr) itemID))
    with (index_filters t tenant itemID).
  destruct (indexing_visit t tenant itemID (filters_or_none filterIDs) st (NewFilterIndexer t p)
    (λ _, False) (NewFilterIndexer t p) Hreg) as [E1 P1].
  { split; [done|]. intros k _. right. split; [by intros []|apply lookup_empty]. }
  unfold mbind at 1, SM_bind. destruct (visit _ _ _ st) as [[b|e|] st1]; simpl in *; subst st1.
  2,3: split_and!; try done; by split.
  destruct (P1 b eq_refl) as [[Et Ep] Hb]. simpl in Et, Ep. clear P1.
  pose proof (StoreIndexes_spec b true st) as Hs. destruct (StoreIndexes b true "" st) as [r st'].
  rewrite Et, Ep in Hs. destruct Hs as (Has & Hok & Hpart).
  assert (∀ k s, good k → fi_indexes b !! k = Some s →
    dom s = items st t p k ∪ {[itemID]} ∧ item_keys t tenant itemID filterIDs k) as Hsome.
  { intros k s Hg Es. destruct (Hb k Hg) as [([?|Hk] & s' & Es' & Hd)|[_ Hn]]; [done| |congruence].
    rewrite Es in Es'. by injection Es' as <-. }
  split_and!; [done| | |].
  - split.
    + intros t' p' k Hne. destruct (Hpart t' p' k) as [?|(-> & -> & _)]; [done|naive_solver].
    + intros t' p' k j Hg Hj. destruct (Hpart t' p' k) as [->|(-> & -> & s & Es & ->)]; [done|].
      destruct (Hsome k s Hg Es) as [-> _]. set_solver.
  - intros k j Hg Hj. destruct (Hpart t p k) as [->|(_ & _ & s & Es & ->)]; [done|].
    destruct (Hsome k s Hg Es) as [-> _]. set_solver.
  - intros Hr. destruct (Hok Hr) as [Hst Hc]. split; [|done]. intros k j Hg. rewrite (Hst t p k), Et, Ep.
    rewrite decide_True by done.
    destruct (Hb k Hg) as [([?|Hk] & s & Es & Hd)|[Hk Hn]]; [done| |].
    + rewrite Es. simpl. rewrite Hd. change (item_keys t tenant itemID filterIDs k) in Hk. set_solver.
    + rewrite Hn. simpl. assert (¬ item_keys t tenant itemID filterIDs k) by tauto. naive_solver.
Qed.

(** ** Removing an item *)

Definition listed_keys (t : ItemType) (tenant itemID : string) (ids : list string) (k : string) : Prop :=
  ∃ fltrID f, fltrID ∈ ids ∧ indexed_filter t tenant itemID fltrID = Ok f ∧ k ∈ load_keys f.

Definition load_filters (t : ItemType) (tenant itemID : string) (rfi : FilterIndexer) (fltrID : string)
    : SM St FilterIndexer :=
  fltr ← lift (indexed_filter t tenant itemID fltrID); load_filter rfi fltr.

Lemma load_filters_visit t tenant itemID ids rfi :
  reads (visit (load_filters t tenant itemID) rfi ids) (λ st b,
    ∃ K, (∀ k, k ∈ K ↔ listed_keys t tenant itemID ids k) ∧ loads st K rfi b).
Proof.
  set (K := λ id, match indexed_filter t tenant itemID id with Ok f => load_keys f | _ => [] end).
  intros st. destruct (visit_loads (load_filters t tenant itemID) K ids rfi) with (st := st) as [E P].
  { intros id b _ st'. unfold load_filters, K, mbind, SM_bind, lift.
    destruct (indexed_filter t tenant itemID id) as [f|e|] eqn:Ef; [|done..].
    apply load_filter_loads. }
  split; [done|]. intros b Hb. exists (ids ≫= K). split; [|by apply P]. intros k.
  rewrite list_elem_of_bind. unfold listed_keys, K. split.
  - intros (id & Hk & Hid). destruct (indexed_filter t tenant itemID id) as [f|e|] eqn:Ef;
      [by exists id, f|by apply elem_of_nil in Hk..].
  - intros (id & f & Hid & Ef & Hk). exists id. by rewrite Ef.
Qed.

Definition current_filters (st : St) (t : ItemType) (tenant itemID : string) : list string :=
  match (dm_FindProfile t tenant itemID st).1 with Ok (Some p) => any_FilterIDs p | _ => [] end.

Lemma dm_FindProfile_state t tenant id (st : St) : (dm_FindProfile t tenant id st).2 = st.
Proof.
  unfold dm_FindProfile, dm_GetProfile. destruct (match _ with Some _ => _ | None => _ end); [done| |done].
  by case_decide.
Qed.

Lemma RemoveItemFromIndex_spec t p tenant itemID oldFilters st :
  let '(r, st') := RemoveItemFromIndex (NewFilterIndexer t p) tenant itemID oldFilters st in
  aside t st st' ∧ only_item t p itemID st st' ∧
  (r = Ok () →
    (∀ k j, j ∈ items st' t p k ↔ j ∈ items st t p k ∧
       ¬ (j = itemID ∧ listed_keys t tenant itemID
            (filters_or_none (current_filters st t tenant itemID) ++ oldFilters) k)) ∧
    cache_cleared t st').
Proof.
  unfold RemoveItemFromIndex, current_filters. simpl. unfold mbind at 1, SM_bind.
  pose proof (dm_FindProfile_state t tenant itemID st) as E0.
  destruct (dm_FindProfile t tenant itemID st) as [[o|e|] st0]; simpl in *; subst st0.
  2,3: split_and!; try done; by split.
  set (ids := filters_or_none (default [] (any_FilterIDs <$> o)) ++ oldFilters).
  assert (filters_or_none (match o with Some p => any_FilterIDs p | None => [] end) ++ oldFilters = ids)
    as -> by (by destruct o).
  change (λ rfi fltrID, fltr ← lift (indexed_filter t tenant itemID fltrID); load_filter rfi fltr)
    with (load_filters t tenant itemID).
  destruct (load_filters_visit t tenant itemID ids (NewFilterIndexer t p) st) as [E1 P1].
  unfold mbind at 1, SM_bind. destruct (visit _ _ ids st) as [[b|e|] st1]; simpl in *; subst st1.
  2,3: split_and!; try done; by split.
  destruct (P1 b eq_refl) as (K & HK & [Et Ep] & Hl). simpl in Et, Ep, Hl. clear P1.
  pose proof (StoreIndexes_spec (remove_item itemID b) false st) as Hs.
  destruct (StoreIndexes (remove_item itemID b) false "" st) as [r st']. simpl in Hs.
  rewrite Et, Ep in Hs. destruct Hs as (Has & Hok & Hpart).
  assert (∀ k s, (delete itemID <$> fi_indexes b) !! k = Some s →
    dom s = items st t p k ∖ {[itemID]} ∧ k ∈ K) as Hsome.
  { intros k s. rewrite lookup_fmap. intros Es. destruct (Hl k) as [(Hk & s' & Es' & Hd)|[_ Hn]].
    - rewrite Es' in Es. simpl in Es. injection Es as <-. by rewrite dom_delete_L, Hd.
    - rewrite Hn, lookup_empty in Es. done. }
  split_and!; [done| |].
  - split.
    + intros t' p' k Hne. destruct (Hpart t' p' k) as [?|(-> & -> & _)]; [done|naive_solver].
    + intros t' p' k j _ Hj. destruct (Hpart t' p' k) as [->|(-> & -> & s & Es & ->)]; [done|].
      destruct (Hsome k s Es) as [-> _]. set_solver.
  - intros Hr. destruct (Hok Hr) as [Hst Hc]. split; [|done]. intros k j. rewrite (Hst t p k). simpl.
    rewrite Et, Ep, decide_True by done. rewrite <- HK.
    destruct ((delete itemID <$> fi_indexes b) !! k) as [s|] eqn:Es; simpl.
    + destruct (Hsome k s Es) as [-> Hk]. set_solver.
    + rewrite lookup_fmap in Es. destruct (Hl k) as [(_ & s & E & _)|[Hk _]]; [by rewrite E in Es|].
      split; [|tauto]. intros Hj. split; [done|]. intros [-> Hin]. rewrite (Hk Hin) in Hj. set_solver.
Qed.

(** ** Setting and removing profiles *)

Definition set_any (p : AnyProfile) : bool → SM St () :=
  match p with
  | AThreshold p => SetThresholdProfile p | AStatQueue p => SetStatQueueProfile p
  | AResource p => SetResourceProfile p | ASupplier p => SetSupplierProfile p
  | AAttribute p => SetAttributeProfile p | ACharger p => SetChargerProfile p
  | ADispatcher p => SetDispatcherProfile p
  end.
Definition remove_any (t : ItemType) : string → string → bool → SM St () :=
  match t with
  | ThresholdProfilePrefix => RemoveThresholdProfile
  | StatQueueProfilePrefix => RemoveStatQueueProfile
  | ResourceProfilesPrefix => RemoveResourceProfile
  | SupplierProfilePrefix => RemoveSupplierProfile
  | AttributeProfilePrefix => RemoveAttributeProfile
  | ChargerProfilePrefix => RemoveChargerProfile
  | DispatcherProfilePrefix => RemoveDispatcherProfile
  end.

Context (Hregular : ∀ f, regular good f).

(** Whatever happens, the indexes of other types and the entries of other items stay, and so
    do the answers kept for other types. *)
Definition confined (t : ItemType) (itemID : string) (st st' : St) : Prop :=
  (∀ t' p k j, good k → (t', j) ≠ (t, itemID) → j ∈ items st' t' p k ↔ j ∈ items st t' p k) ∧
  ∀ t' key, t' ≠ t →
    is_cache st' !! (PrefixToIndexCache t', key) = is_cache st !! (PrefixToIndexCache t', key).
#[local] Instance confined_preorder t itemID : PreOrder (confined t itemID).
Proof.
  split; [done|]. intros a b c [Hab Cab] [Hbc Cbc]. split.
  - intros t' p k j Hg Hj. by rewrite Hbc, Hab.
  - intros t' key Ht. by rewrite Cbc, Cab.
Qed.

Lemma only_item_confined t p itemID st st' :
  aside t st st' → only_item t p itemID st st' → confined t itemID st st'.
Proof.
  intros (_ & _ & Hc) [Hp Hj]. split; [|done]. intros t' p' k j Hg Hne.
  destruct (decide (t' = t)) as [->|Ht]; [apply Hj; [done|by intros ->]|]. by rewrite Hp by auto.
Qed.
Lemma createAndIndex_confined t tenant ctx itemID ids :
  along (confined t itemID) (createAndIndex t tenant ctx itemID ids).
Proof.
  intros st. pose proof (createAndIndex_spec t tenant ctx itemID ids st (λ _ f _ _, Hregular f)) as Hc.
  destruct (createAndIndex t tenant ctx itemID ids st) as [r st']. destruct Hc as (Ha & Ho & _).
  by eapply only_item_confined.
Qed.
Lemma RemoveItemFromIndex_confined t p tenant itemID old :
  along (confined t itemID) (RemoveItemFromIndex (NewFilterIndexer t p) tenant itemID old).
Proof.
  intros st. pose proof (RemoveItemFromIndex_spec t p tenant itemID old st) as Hc.
  destruct (RemoveItemFromIndex _ tenant itemID old st) as [r st']. destruct Hc as (Ha & Ho & _).
  by eapply only_item_confined.
Qed.
Lemma dm_FindProfile_confined (R : relation St) `{!PreOrder R} t tenant id : along R (dm_FindProfile t tenant id).
Proof. intros st. rewrite dm_FindProfile_state. reflexivity. Qed.
Lemma SetProfileDrv_confined t id p : along (confined t id) (SetProfileDrv p).
Proof. intros st. unfold SetProfileDrv. by destruct (write_error _ _). Qed.
Lemma RemoveProfileDrv_confined t id t' tenant' id' :
  along (confined t id) (RemoveProfileDrv t' tenant' id').
Proof. intros st. unfold RemoveProfileDrv. by destruct (remove_error _ _). Qed.
Lemma visit_confined {A B} (R : relation St) `{!PreOrder R} (f : B → A → SM St B) l acc :
  (∀ b x, along R (f b x)) → along R (visit f acc l).
Proof.
  intros Hf. revert acc. induction l as [|x l IH]; intros acc; simpl; [by apply along_ret|].
  apply along_bind; [done|apply Hf|]. intros b. apply IH.
Qed.
#[local] Hint Resolve createAndIndex_confined RemoveItemFromIndex_confined dm_FindProfile_confined
  SetProfileDrv_confined RemoveProfileDrv_confined visit_confined : along.

Lemma set_any_confined p w : along (confined (any_type p) (any_ID p)) (set_any p w).
Proof.
  assert (∀ q, along (confined (any_type q) (any_ID q)) (set_profile q w)) as Hs
    by (intros q; unfold set_profile; along_steps).
  assert (∀ q, along (confined (any_type q) (any_ID q)) (set_context_profile q w)) as Hc.
  { intros q. unfold set_context_profile. along_steps; apply visit_confined; [apply _|..];
      intros ? ?; unfold leave_context; along_steps. }
  destruct p; try apply (Hs (AResource p)); simpl;
    [apply (Hs (AThreshold p))|apply (Hs (AStatQueue p))| |apply (Hs (ASupplier p))
    |apply (Hc (AAttribute p))|apply (Hs (ACharger p))|apply (Hc (ADispatcher p))].
  unfold SetResourceProfile. apply along_bind; [apply _|apply (Hs (AResource p))|]. intros _.
  destruct w; [|by apply along_ret, _]. by apply along_modify.
Qed.
Lemma remove_any_confined t tenant id w : along (confined t id) (remove_any t tenant id w).
Proof.
  assert (∀ old, along (confined t id) (remove_contexts t tenant id old)) as Hc.
  { intros old. unfold remove_contexts. apply visit_confined; [apply _|]. intros ? ?. along_steps. }
  assert (along (confined t id) (remove_profile t tenant id w)) as Hr
    by (unfold remove_profile; along_steps).
  destruct t; try exact Hr; simpl.
  - unfold RemoveAttributeProfile. apply along_bind; [apply _| |].
    { intros st. unfold dm_GetProfile. reflexivity. }
    intros old. along_steps.
  - unfold RemoveDispatcherProfile. along_steps.
Qed.

Lemma confined_mono t p k id j st st' :
  only_item t p id st st' → (∀ k j, good k → j ∈ items st t p k → j ∈ items st' t p k) →
  good k → ∀ p', j ∈ items st t p' k → j ∈ items st' t p' k.
Proof.
  intros [Hp _] Hm Hg p' Hj. destruct (decide (p' = p)) as [->|Hne]; [by apply Hm|]. by rewrite Hp by auto.
Qed.

Lemma createAndIndex_visit t tenant id ids ctxs st u st' :
  visit (λ (_ : ()) ctx, createAndIndex t tenant ctx id ids) () ctxs st = (Ok u, st') →
  (∀ p k j, good k → j ∈ items st t p k → j ∈ items st' t p k) ∧
  (∀ ctx k, good k → ctx ∈ ctxs → item_keys t tenant id ids k → id ∈ items st' t (index_key tenant ctx) k) ∧
  (ctxs ≠ [] ∨ cache_cleared t st → cache_cleared t st').
Proof.
  revert st. induction ctxs as [|ctx ctxs IH]; intros st; simpl.
  { intros [= _ <-]. split_and!; [done| |by intros [?|?]]. by intros ctx k _ ?%elem_of_nil. }
  intros (u1 & st1 & E1 & E2)%bind_ok.
  pose proof (createAndIndex_spec t tenant ctx id ids st (λ _ f _ _, Hregular f)) as Hc. rewrite E1 in Hc.
  destruct Hc as (_ & Ho & Hm & Hok). destruct u1. destruct (Hok eq_refl) as [Hadd Hcl].
  destruct (IH st1 E2) as (Hm2 & Hadd2 & Hcl2). split_and!; [| |by auto].
  - intros p k j Hg Hj. apply Hm2; [done|]. by eapply confined_mono.
  - intros c k Hg [->|Hc]%elem_of_cons Hk; [|by apply Hadd2]. apply Hm2, Hadd; [done..|]. by right.
Qed.

(** A profile that was set is listed under the keys of all its filters. *)
Definition listed (p : AnyProfile) (st : St) : Prop :=
  ∀ ctx k, good k → ctx ∈ any_Contexts p →
    item_keys (any_type p) (any_Tenant p) (any_ID p) (any_FilterIDs p) k →
    any_ID p ∈ items st (any_type p) (index_key (any_Tenant p) ctx) k.

(** Sorting the new filters and contexts loses none. *)
Lemma IsSliceMember_perm ss s : (IsSliceMember ss s).2 ≡ₚ ss.
Proof. apply go_sort_perm. Qed.
Lemma filters_dropped_perm old new : (filters_dropped old new).2 ≡ₚ new.
Proof.
  unfold filters_dropped. generalize false. revert new.
  induction old as [|x old IH]; intros new needs; [done|]. simpl.
  rewrite IH. apply (IsSliceMember_perm new x).
Qed.
Lemma filters_or_none_perm ids ids' x : ids ≡ₚ ids' → x ∈ filters_or_none ids ↔ x ∈ filters_or_none ids'.
Proof.
  intros Hp. unfold filters_or_none. destruct (decide (ids = [])) as [->|Hne].
  - apply Permutation_nil_l in Hp as <-. by rewrite decide_True.
  - rewrite decide_False; [by rewrite Hp|]. intros ->. by apply Permutation_nil_r in Hp.
Qed.
Lemma item_keys_perm t tenant id ids ids' k :
  ids ≡ₚ ids' → item_keys t tenant id ids k → item_keys t tenant id ids' k.
Proof.
  intros Hp (x & f & Hx & Hf & Hk). exists x, f. split_and!; [|done..].
  by apply (filters_or_none_perm _ _ _ Hp).
Qed.
Lemma leave_context_perm old p new c st new' st' :
  leave_context old p new c st = (Ok new', st') → new'.1 ≡ₚ new.1 ∧ new'.2 ≡ₚ new.2.
Proof.
  unfold leave_context. pose proof (IsSliceMember_perm new.1 c) as Hc.
  destruct (IsSliceMember new.1 c) as [stays ctxs]. simpl in Hc.
  assert ((if stays then filters_dropped (any_FilterIDs old) new.2 else (true, new.2)).2 ≡ₚ new.2) as Hf
    by (destruct stays; [apply filters_dropped_perm|done]).
  destruct (if stays then _ else _) as [needs ids]. simpl in Hf.
  intros (u & st1 & _ & E)%bind_ok. by injection E as <- _.
Qed.
Lemma leave_contexts_perm old p new cs st new' st' :
  visit (leave_context old p) new cs st = (Ok new', st') → new'.1 ≡ₚ new.1 ∧ new'.2 ≡ₚ new.2.
Proof.
  revert new st. induction cs as [|c cs IH]; intros new st; simpl; [by intros [= <- _]|].
  intros (n1 & st1 & E1 & E2)%bind_ok. apply leave_context_perm in E1 as [H1a H1b].
  apply IH in E2 as [-> ->]. done.
Qed.

Lemma set_profile_listed p st u st' :
  set_profile p true st = (Ok u, st') →
  any_Contexts p = [""] → listed p st' ∧ cache_cleared (any_type p) st'.
Proof.
  intros Hs Hctx. unfold set_profile in Hs.
  apply bind_ok in Hs as (old & st1 & _ & Hs). apply bind_ok in Hs as (u2 & st2 & _ & Hs).
  pose proof (filters_dropped_perm (default [] (any_FilterIDs <$> old)) (any_FilterIDs p)) as Hids.
  destruct (filters_dropped _ _) as [needs ids]. simpl in Hids.
  apply bind_ok in Hs as (u3 & st3 & _ & Hs).
  pose proof (createAndIndex_spec (any_type p) (any_Tenant p) "" (any_ID p) ids st3
    (λ _ f _ _, Hregular f)) as Hc.
  rewrite Hs in Hc. destruct Hc as (_ & _ & _ & Hok). destruct u. destruct (Hok eq_refl) as [Hadd Hcl].
  split; [|done]. intros ctx k Hg Hin Hk. rewrite Hctx in Hin. apply list_elem_of_singleton in Hin as ->.
  apply Hadd; [done|]. right. split; [done|]. by eapply item_keys_perm.
Qed.
Lemma set_context_profile_listed p st u st' :
  set_context_profile p true st = (Ok u, st') →
  listed p st' ∧ (any_Contexts p ≠ [] → cache_cleared (any_type p) st').
Proof.
  intros Hs. apply bind_ok in Hs as (old & st1 & _ & Hs). apply bind_ok in Hs as (u2 & st2 & _ & Hs).
  apply bind_ok in Hs as ([ctxs ids] & st3 & Hn & Hs).
  assert (ctxs ≡ₚ any_Contexts p ∧ ids ≡ₚ any_FilterIDs p) as [Hctx Hids].
  { destruct old as [old|]; [by apply leave_contexts_perm in Hn|by injection Hn as <- <- _]. }
  destruct (createAndIndex_visit _ _ _ _ _ _ _ _ Hs) as (_ & Hadd & Hcl). split.
  - intros ctx k Hg Hin Hk. apply Hadd; [done|by rewrite Hctx|]. by eapply item_keys_perm.
  - intros Hne. apply Hcl. left. intros ->. by apply Permutation_nil_l in Hctx.
Qed.
Lemma set_any_listed p st u st' :
  set_any p true st = (Ok u, st') →
  listed p st' ∧ (any_Contexts p ≠ [] → cache_cleared (any_type p) st').
Proof.
  intros Hs.
  assert (any_Contexts p = [""] → set_profile p true st = (Ok u, st') →
    listed p st' ∧ (any_Contexts p ≠ [] → cache_cleared (any_type p) st')) as Hone.
  { intros Hctx Hp. by destruct (set_profile_listed _ _ _ _ Hp Hctx). }
  destruct p as [p|p|p|p|p|p|p]; simpl in Hs; try by (apply Hone; [done|exact Hs]).
  - unfold SetResourceProfile in Hs. apply bind_ok in Hs as (u1 & st1 & Hs & Hm).
    injection Hm as _ <-. by destruct (set_profile_listed (AResource p) _ _ _ Hs eq_refl).
  - exact (set_context_profile_listed (AAttribute p) _ _ _ Hs).
  - exact (set_context_profile_listed (ADispatcher p) _ _ _ Hs).
Qed.

(** ** The kept answers *)

(** The cache has for the prefix what the database has. *)
Definition coherent (t : ItemType) (p : string) (st : St) : Prop := ∀ ft n v,
  match is_cache st !! (PrefixToIndexCache t, ConcatenatedKey [p; ft; n; v]) with
  | Some (Some its) => dom its = items st t p (ConcatenatedKey [ft; n; v])
  | Some None => items st t p (ConcatenatedKey [ft; n; v]) = ∅
  | None => True
  end.

Lemma cleared_coherent t p st : cache_cleared t st → coherent t p st.
Proof. intros Hc ft n v. by rewrite Hc. Qed.

(** Nothing about the type changes, or no answer is kept. *)
Definition refreshes (t : ItemType) (st st' : St) : Prop :=
  cache_cleared t st' ∨
  (∀ p k, items st' t p k = items st t p k) ∧
  (∀ key, is_cache st' !! (PrefixToIndexCache t, key) = is_cache st !! (PrefixToIndexCache t, key)).
#[local] Instance refreshes_preorder t : PreOrder (refreshes t).
Proof.
  split; [by right|]. intros a b c Hab [Hc|[Hi Hc]]; [by left|].
  destruct Hab as [Hb|[Hi' Hb]]; [left|right; split].
  - intros key. by rewrite Hc.
  - intros p k. by rewrite Hi.
  - intros key. by rewrite Hc.
Qed.
Lemma refreshes_coherent t p st st' : refreshes t st st' → coherent t p st → coherent t p st'.
Proof.
  intros [Hc|[Hi Hc]] Hco; [by apply cleared_coherent|]. intros ft n v. rewrite Hc, Hi. apply Hco.
Qed.
Lemma indexing_refreshes t t' p id st st' :
  aside t st st' → only_item t p id st st' → cache_cleared t st' → refreshes t' st st'.
Proof.
  intros (_ & _ & Ha) [Ho _] Hc. destruct (decide (t' = t)) as [->|Hne]; [by left|right]. split.
  - intros p' k. apply Ho. by left.
  - intros key. by apply Ha.
Qed.

(** What a computation that succeeds does. *)
Definition succeeds (R : relation St) {A} (m : SM St A) : Prop :=
  ∀ st a st', m st = (Ok a, st') → R st st'.
Lemma succeeds_bind (R : relation St) `{!PreOrder R} {A B} (m : SM St A) (f : A → SM St B) :
  succeeds R m → (∀ a, succeeds R (f a)) → succeeds R (m ≫= f).
Proof. intros Hm Hf st b st' (a & st1 & E1 & E2)%bind_ok. etrans; [by eapply Hm|by eapply Hf]. Qed.
Lemma succeeds_along (R : relation St) {A} (m : SM St A) : along R m → succeeds R m.
Proof. intros Hm st a st' E. specialize (Hm st). by rewrite E in Hm. Qed.
Lemma succeeds_visit (R : relation St) `{!PreOrder R} {A B} (f : B → A → SM St B) l acc :
  (∀ b x, succeeds R (f b x)) → succeeds R (visit f acc l).
Proof.
  intros Hf. revert acc. induction l as [|x l IH]; intros acc; simpl; [by intros st a st' [= _ <-]|].
  apply succeeds_bind; [done|apply Hf|]. intros b. apply IH.
Qed.

Lemma createAndIndex_refreshes t' t tenant ctx id ids :
  succeeds (refreshes t') (createAndIndex t tenant ctx id ids).
Proof.
  intros st [] st' E. pose proof (createAndIndex_spec t tenant ctx id ids st (λ _ f _ _, Hregular f)) as Hc. rewrite E in Hc.
  destruct Hc as (Ha & Ho & _ & Hok). eapply indexing_refreshes; [exact Ha|exact Ho|by apply Hok].
Qed.
Lemma RemoveItemFromIndex_refreshes t' t p tenant id old :
  succeeds (refreshes t') (RemoveItemFromIndex (NewFilterIndexer t p) tenant id old).
Proof.
  intros st [] st' E. pose proof (RemoveItemFromIndex_spec t p tenant id old st) as Hc. rewrite E in Hc.
  destruct Hc as (Ha & Ho & Hok). eapply indexing_refreshes; [exact Ha|exact Ho|by apply Hok].
Qed.
Lemma quiet_refreshes {A} t (m : SM St A) :
  (∀ st, is_db (m st).2 = is_db st ∧ is_cache (m st).2 = is_cache st) → succeeds (refreshes t) m.
Proof.
  intros Hm. apply succeeds_along. intros st. destruct (Hm st) as [Ed Ec]. right. unfold items.
  by rewrite Ed, Ec.
Qed.

Ltac refresh_steps :=
  repeat match goal with
    | |- succeeds _ (mbind _ _) => apply succeeds_bind; [apply _| |intros ?]
    | |- succeeds _ (createAndIndex _ _ _ _ _) => apply createAndIndex_refreshes
    | |- succeeds _ (RemoveItemFromIndex _ _ _ _) => apply RemoveItemFromIndex_refreshes
    | |- succeeds _ (visit _ _ _) => apply succeeds_visit; [apply _|intros ? ?]
    | |- succeeds _ (leave_context _ _ _ _) => unfold leave_context
    | |- succeeds _ (remove_contexts _ _ _ _) => unfold remove_contexts
    | |- succeeds _ (match ?x with _ => _ end) => destruct x
    | |- succeeds _ (dm_FindProfile _ _ _) =>
        apply quiet_refreshes; intros st; by rewrite dm_FindProfile_state
    | |- succeeds _ (SetProfileDrv ?p) =>
        apply quiet_refreshes; intros st; unfold SetProfileDrv; by destruct (write_error _ _)
    | |- succeeds _ (RemoveProfileDrv _ _ _) =>
        apply quiet_refreshes; intros st; unfold RemoveProfileDrv; by destruct (remove_error _ _)
    | |- succeeds _ _ => by apply quiet_refreshes
    end.

Lemma set_any_refreshes t p w : succeeds (refreshes t) (set_any p w).
Proof.
  assert (∀ q, succeeds (refreshes t) (set_profile q w)) as Hs
    by (intros q; unfold set_profile; refresh_steps).
  assert (∀ q, succeeds (refreshes t) (set_context_profile q w)) as Hc
    by (intros q; unfold set_context_profile; refresh_steps).
  destruct p; try apply Hs; try apply Hc. simpl. unfold SetResourceProfile.
  apply succeeds_bind; [apply _|apply Hs|]. intros _. refresh_steps.
Qed.
Lemma remove_any_refreshes t t' tenant id w : succeeds (refreshes t) (remove_any t' tenant id w).
Proof.
  assert (succeeds (refreshes t) (remove_profile t' tenant id w)) as Hr
    by (unfold remove_profile; refresh_steps).
  destruct t'; try exact Hr; simpl.
  - unfold RemoveAttributeProfile. refresh_steps.
  - unfold RemoveDispatcherProfile. refresh_steps.
Qed.

(** Looking an answer up changes only the kept answers, to what the database has. *)
Lemma dm_MatchFilterIndex_spec t p ft n v st :
  coherent t p st →
  let '(r, st') := dm_MatchFilterIndex t p ft n v st in
  is_db st' = is_db st ∧ coherent t p st' ∧
  match r with
  | Ok its => dom its = items st t p (ConcatenatedKey [ft; n; v])
  | Err e => e = ErrNotFound → items st t p (ConcatenatedKey [ft; n; v]) = ∅
  | Panic => True
  end.
Proof.
  intros Hco. unfold dm_MatchFilterIndex. pose proof (Hco ft n v) as Hk.
  destruct (is_cache st !! _) as [[its|]|] eqn:Ec; [by split_and!|by split_and!|].
  pose proof (drv_match (is_db st) t p ft n v) as Hd.
  assert (∀ x, match x with Some its => dom its = items st t p (ConcatenatedKey [ft; n; v])
      | None => items st t p (ConcatenatedKey [ft; n; v]) = ∅ end →
    coherent t p (set_cache (<[(PrefixToIndexCache t, ConcatenatedKey [p; ft; n; v]) := x]> (is_cache st)) st))
    as Hkeep.
  { intros x Hx ft' n' v'. unfold items. simpl.
    destruct (decide (ConcatenatedKey [p; ft'; n'; v'] = ConcatenatedKey [p; ft; n; v])) as [E|E].
    - rewrite E, lookup_insert_eq.
      rewrite (ConcatenatedKey_tail p [ft'; n'; v'] [ft; n; v]) by done. exact Hx.
    - rewrite lookup_insert_ne by (by intros [= ?]). apply Hco. }
  destruct (MatchFilterIndexDrv _ _ _ _ _ _) as [its|e|]; [| |done].
  - split_and!; [done|by apply Hkeep|done].
  - split_and!; [by case_decide| |done]. case_decide as He; [|done]. by apply Hkeep, Hd.
Qed.

(** ** Later operations *)

(** What may happen after a profile with the identifier [id] is set, seen from the indexes with
    the prefix [p]: other profiles are set and removed with success, and answers are looked
    up, of other prefixes if their keys cannot be confused. *)
Inductive later (t : ItemType) (p id : string) : relation St :=
  | later_set q w st st' :
      (any_type q, any_ID q) ≠ (t, id) → set_any q w st = (Ok (), st') → later t p id st st'
  | later_remove t' tenant id' w st st' :
      (t', id') ≠ (t, id) → remove_any t' tenant id' w st = (Ok (), st') → later t p id st st'
  | later_match t' p' ft n v st :
      (t' = t → p' = p ∨ ∀ ft' n' v',
         ConcatenatedKey [p'; ft; n; v] ≠ ConcatenatedKey [p; ft'; n'; v']) →
      later t p id st (dm_MatchFilterIndex t' p' ft n v st).2.

Lemma confined_keeps t id t' id' st st' p k :
  confined t' id' st st' → good k → (t', id') ≠ (t, id) → id ∈ items st t p k → id ∈ items st' t p k.
Proof. intros [Hc _] Hg Hne Hin. apply Hc; [done| |done]. intros [= -> ->]. done. Qed.

Lemma dm_MatchFilterIndex_db t p ft n v (st : St) :
  is_db (dm_MatchFilterIndex t p ft n v st).2 = is_db st.
Proof.
  unfold dm_MatchFilterIndex. destruct (is_cache st !! _) as [[its|]|]; [done..|].
  destruct (MatchFilterIndexDrv _ _ _ _ _ _); [done| |done]. by case_decide.
Qed.
Lemma dm_MatchFilterIndex_apart t p t' p' ft n v st :
  (t' = t → p' = p ∨ ∀ ft' n' v', ConcatenatedKey [p'; ft; n; v] ≠ ConcatenatedKey [p; ft'; n'; v']) →
  coherent t p st → coherent t p (dm_MatchFilterIndex t' p' ft n v st).2.
Proof.
  intros Hap Hco. destruct (decide (t' = t ∧ p' = p)) as [[-> ->]|Hne].
  { pose proof (dm_MatchFilterIndex_spec t p ft n v st Hco) as Hs.
    destruct (dm_MatchFilterIndex t p ft n v st) as [r st']. by destruct Hs as (_ & ? & _). }
  assert (∀ x, coherent t p
    (set_cache (<[(PrefixToIndexCache t', ConcatenatedKey [p'; ft; n; v]) := x]> (is_cache st)) st)) as Hk.
  { intros x ft' n' v'. simpl. rewrite lookup_insert_ne; [apply Hco|].
    intros [= Et Ek]. apply (inj PrefixToIndexCache) in Et. destruct (Hap Et) as [->|Hd]; [naive_solver|].
    by apply Hd in Ek. }
  unfold dm_MatchFilterIndex. destruct (is_cache st !! _) as [[its|]|]; [done..|].
  destruct (MatchFilterIndexDrv _ _ _ _ _ _); simpl; [apply Hk| |done]. case_decide; [apply Hk|done].
Qed.

Lemma later_keeps t p id st st' :
  rtc (later t p id) st st' → coherent t p st →
  coherent t p st' ∧ ∀ k, good k → id ∈ items st t p k → id ∈ items st' t p k.
Proof.
  induction 1 as [st|st1 st2 st3 Hstep _ IH]; intros Hco; [done|].
  assert (coherent t p st2 ∧ ∀ k, good k → id ∈ items st1 t p k → id ∈ items st2 t p k) as [Hco2 Hk].
  { destruct Hstep as [q w st st' Hne E|t' tenant id' w st st' Hne E|t' p' ft n v st Hap].
    - split; [by eapply refreshes_coherent; [eapply set_any_refreshes|]|]. intros k Hg.
      pose proof (set_any_confined q w st) as Hc. rewrite E in Hc. by apply (confined_keeps _ _ _ _ _ _ _ _ Hc).
    - split; [by eapply refreshes_coherent; [eapply remove_any_refreshes|]|]. intros k Hg.
      pose proof (remove_any_confined t' tenant id' w st) as Hc. rewrite E in Hc.
      by apply (confined_keeps _ _ _ _ _ _ _ _ Hc).
    - split; [by apply dm_MatchFilterIndex_apart|]. intros k _. unfold items. by rewrite dm_MatchFilterIndex_db. }
  destruct (IH Hco2) as [Hco3 Hk3]. auto.
Qed.

(** The answers of the data manager, for the selection of the items of a type. *)
Definition index_answers (t : ItemType) (st : St) : FilterData := {|
  GetFilterDrv := GetFilterDrv; GetAccount := GetAccount; GetResource := GetResource;
  ReflectFieldMethodInterface := ReflectFieldMethodInterface; stat_metrics := stat_metrics;
  fd_GetReverseDestination := fd_GetReverseDestination; fd_regexp := fd_regexp;
  MatchFilterIndex _ p ft n v := go_range <$> (dm_MatchFilterIndex t p ft n v st).1;
  GetKeysForPrefix := GetKeysForPrefix; now := now |}.

(** A driver that fails only when it does not find. *)
Definition quiet : Prop := ∀ (s : S) t p ft n v,
  match MatchFilterIndexDrv s t p ft n v with
  | Ok _ => True | Err e => e = ErrNotFound | Panic => False
  end.

Lemma index_answers_ok t p st cacheID ft n v :
  quiet → coherent t p st →
  match @MatchFilterIndex (index_answers t st) cacheID p ft n v with
  | Ok l => list_to_set l.*1 = items st t p (ConcatenatedKey [ft; n; v])
  | Err e => e = NOT_FOUND ∧ items st t p (ConcatenatedKey [ft; n; v]) = ∅
  | Panic => False
  end.
Proof.
  intros Hq Hco. simpl. pose proof (dm_MatchFilterIndex_spec t p ft n v st Hco) as Hs.
  assert (match (dm_MatchFilterIndex t p ft n v st).1 with
    | Ok _ => True | Err e => e = ErrNotFound | Panic => False end) as Hr.
  { unfold dm_MatchFilterIndex. destruct (is_cache st !! _) as [[its|]|]; [done..|].
    specialize (Hq (is_db st) t p ft n v). by destruct (MatchFilterIndexDrv _ _ _ _ _ _). }
  destruct (dm_MatchFilterIndex t p ft n v st) as [[its|e|] st']; simpl in *; [|by destruct Hs as (_ & _ & ->)|done].
  destruct Hs as (_ & _ & Hd). rewrite <- Hd. apply set_eq. intros k.
  rewrite elem_of_list_to_set, list_elem_of_fmap, elem_of_dom. split.
  - intros ([k' b] & -> & Hin). apply go_range_elem in Hin. by exists b.
  - intros (b & Hb). exists (k, b). split; [done|]. by apply go_range_elem.
Qed.

Lemma rule_is_listed p ctx fltrID f r v st :
  listed p st → good (ConcatenatedKey ["*string"; fr_Element r; v]) → ctx ∈ any_Contexts p → fltrID ∈ any_FilterIDs p →
  GetFilter (any_Tenant p) fltrID = Ok f → r ∈ fl_Rules f → fr_Type r = "*string" → v ∈ fr_Values r →
  any_ID p ∈ items st (any_type p) (index_key (any_Tenant p) ctx)
    (ConcatenatedKey ["*string"; fr_Element r; v]).
Proof.
  intros Hl Hg Hctx Hid Hf Hr Ht Hv. apply Hl; [done..|]. exists fltrID, f. split_and!.
  - unfold filters_or_none. case_decide as E; [|done]. rewrite E in Hid. by apply elem_of_nil in Hid.
  - unfold indexed_filter. rewrite decide_False, Hf; [done|]. intros ->. done.
  - unfold filter_keys. apply list_elem_of_bind. exists r. split; [|done].
    unfold rule_keys. rewrite Ht. simpl. apply list_elem_of_fmap. by exists v.
Qed.

End laws.

Section contract.
Context `{GoText} `{GoRuntime} `{FilterData} `{ProfileErrors} {S : Type} `{!IndexDriver S}.

End contract.
