(* ===== verification/IndexContract.v ===== *)
(** * Drivers of indexes, contexts that are left, and concrete indexes

    Two drivers that keep the same items answer alike after the same operations; a profile
    without filters stays in the indexes of a context it leaves when it gets filters; and
    concrete profiles in the internal database and in Redis. *)
From S2P Require Import Prelude GoFloat GoStrings GoTime CoreUtils Collections Values Filters RSR StatMetrics StatQueue Resources Stateful Thresholds RatingProfile TariffPlan TariffActions TariffProfiles TariffRouting Profiles Attributes FilterIndexes IndexLaws.

Section agreement.
Context `{GoText} `{GoRuntime} `{FilterData} `{ProfileErrors}.
Context {S1 S2 : Type} `{!IndexDriver S1} `{!IndexDriver S2}.

(** The same profiles and the same items, but for keys of the type for no filters that a rule
    of a stored filter may name. *)
Definition agree (good : string → Prop) (st1 : IndexState S1) (st2 : IndexState S2) : Prop :=
  is_profiles st1 = is_profiles st2 ∧ is_profileCache st1 = is_profileCache st2 ∧
  ∀ t p k, good k → items st1 t p k = items st2 t p k.
Definition agreeing {A} (m1 : SM (IndexState S1) A) (m2 : SM (IndexState S2) A) : Prop :=
  ∀ st1 st2 a1 a2 st1' st2', agree named st1 st2 →
    m1 st1 = (Ok a1, st1') → m2 st2 = (Ok a2, st2') → a1 = a2 ∧ agree named st1' st2'.

Lemma agreeing_bind {A B} (m1 : SM _ A) m2 (f1 : A → SM _ B) f2 :
  agreeing m1 m2 → (∀ a, agreeing (f1 a) (f2 a)) → agreeing (m1 ≫= f1) (m2 ≫= f2).
Proof.
  intros Hm Hf st1 st2 b1 b2 st1' st2' Ha (a1 & s1 & E1 & E1')%bind_ok (a2 & s2 & E2 & E2')%bind_ok.
  destruct (Hm _ _ _ _ _ _ Ha E1 E2) as [<- Hs]. by eapply Hf.
Qed.
Lemma agreeing_ret {A} (a : A) : agreeing (mret a) (mret a).
Proof. by intros st1 st2 a1 a2 st1' st2' Ha [= <- <-] [= <- <-]. Qed.
Lemma agreeing_visit {A B} (f1 : B → A → SM _ B) f2 acc l :
  (∀ b x, agreeing (f1 b x) (f2 b x)) → agreeing (visit f1 acc l) (visit f2 acc l).
Proof.
  intros Hf. revert acc. induction l as [|x l IH]; intros acc; simpl; [apply agreeing_ret|].
  apply agreeing_bind; [apply Hf|exact IH].
Qed.
Lemma agreeing_find t tenant id :
  agreeing (dm_FindProfile t tenant id) (dm_FindProfile t tenant id).
Proof.
  intros st1 st2 a1 a2 st1' st2' (Hp & Hc & Hi) E1 E2.
  pose proof (dm_FindProfile_state t tenant id st1) as T1. rewrite E1 in T1. simpl in T1. subst st1'.
  pose proof (dm_FindProfile_state t tenant id st2) as T2. rewrite E2 in T2. simpl in T2. subst st2'.
  split; [|done]. unfold dm_FindProfile, dm_GetProfile in E1, E2. rewrite Hp, Hc in E1.
  destruct (match is_profileCache st2 !! _ with Some _ => _ | None => _ end) as [p|e|]; [congruence| |done].
  case_decide; congruence.
Qed.
Lemma agreeing_set p : agreeing (SetProfileDrv p) (SetProfileDrv p).
Proof.
  intros st1 st2 a1 a2 st1' st2' (Hp & Hc & Hi). unfold SetProfileDrv.
  destruct (write_error _ _); [done|]. intros [= <- <-] [= <- <-]. split; [done|].
  split_and!; [simpl; by rewrite Hp|done|done].
Qed.
Lemma agreeing_remove t tenant id :
  agreeing (RemoveProfileDrv t tenant id) (RemoveProfileDrv t tenant id).
Proof.
  intros st1 st2 a1 a2 st1' st2' (Hp & Hc & Hi). unfold RemoveProfileDrv.
  destruct (remove_error _ _); [done|]. intros [= <- <-] [= <- <-]. split; [done|].
  split_and!; [simpl; by rewrite Hp|done|done].
Qed.

(** Items that change alike under one prefix and nowhere else. *)
Lemma agreeing_items t p st1 st2 (st1' : IndexState S1) (st2' : IndexState S2) :
  agree named st1 st2 → aside t st1 st1' → aside t st2 st2' →
  (∀ t' p' k, t' ≠ t ∨ p' ≠ p → items st1' t' p' k = items st1 t' p' k) →
  (∀ t' p' k, t' ≠ t ∨ p' ≠ p → items st2' t' p' k = items st2 t' p' k) →
  (∀ k j, named k → j ∈ items st1' t p k ↔ j ∈ items st2' t p k) → agree named st1' st2'.
Proof.
  intros (Hp & Hc & Hi) (Hp1 & Hc1 & _) (Hp2 & Hc2 & _) Ho1 Ho2 Hj.
  split_and!; [congruence|congruence|]. intros t' p' k Hk.
  destruct (decide (t' = t ∧ p' = p)) as [[-> ->]|Hne]; [apply set_eq; intros j; by apply Hj|].
  rewrite Ho1, Ho2 by (destruct (decide (t' = t)); [right|left]; naive_solver). by apply Hi.
Qed.
Lemma agreeing_create t tenant ctx id ids :
  agreeing (createAndIndex t tenant ctx id ids) (createAndIndex t tenant ctx id ids).
Proof.
  intros st1 st2 [] [] st1' st2' Ha E1 E2. split; [done|].
  pose proof (createAndIndex_spec named t tenant ctx id ids st1 (λ _ f _ _, regular_named f)) as C1.
  pose proof (createAndIndex_spec named t tenant ctx id ids st2 (λ _ f _ _, regular_named f)) as C2.
  rewrite E1 in C1. rewrite E2 in C2. destruct C1 as (A1 & [O1 _] & _ & K1), C2 as (A2 & [O2 _] & _ & K2).
  eapply agreeing_items; [exact Ha|done..|]. intros k j Hk.
  rewrite (proj1 (K1 eq_refl) k j Hk), (proj1 (K2 eq_refl) k j Hk).
  destruct Ha as (_ & _ & Hi). by rewrite Hi.
Qed.
Lemma agreeing_unindex t p tenant id old :
  agreeing (RemoveItemFromIndex (NewFilterIndexer t p) tenant id old)
    (RemoveItemFromIndex (NewFilterIndexer t p) tenant id old).
Proof.
  intros st1 st2 [] [] st1' st2' Ha E1 E2. split; [done|].
  pose proof (RemoveItemFromIndex_spec named t p tenant id old st1) as C1.
  pose proof (RemoveItemFromIndex_spec named t p tenant id old st2) as C2.
  rewrite E1 in C1. rewrite E2 in C2. destruct C1 as (A1 & [O1 _] & K1), C2 as (A2 & [O2 _] & K2).
  eapply agreeing_items; [exact Ha|done..|]. intros k j Hk.
  rewrite (proj1 (K1 eq_refl) k j), (proj1 (K2 eq_refl) k j).
  destruct Ha as (Hp & Hc & Hi). rewrite Hi by done.
  assert (current_filters st1 t tenant id = current_filters st2 t tenant id) as ->; [|done].
  unfold current_filters, dm_FindProfile, dm_GetProfile. rewrite Hp, Hc.
  destruct (match is_profileCache st2 !! _ with Some _ => _ | None => _ end); [done| |done].
  by case_decide.
Qed.

Ltac agree_steps :=
  repeat match goal with
    | |- agreeing (mbind _ _) (mbind _ _) => apply agreeing_bind; [|intros ?]
    | |- agreeing (visit _ _ _) _ => apply agreeing_visit; intros ? ?
    | |- agreeing (mret _) _ => apply agreeing_ret
    | |- agreeing (dm_FindProfile _ _ _) _ => apply agreeing_find
    | |- agreeing (SetProfileDrv _) _ => apply agreeing_set
    | |- agreeing (RemoveProfileDrv _ _ _) _ => apply agreeing_remove
    | |- agreeing (createAndIndex _ _ _ _ _) _ => apply agreeing_create
    | |- agreeing (RemoveItemFromIndex _ _ _ _) _ => apply agreeing_unindex
    | |- agreeing (fails _) _ => by intros ? ? ? ? ? ? ? ?
    | |- agreeing (match ?x with _ => _ end) _ => destruct x
    end.

End agreement.

(** ** A context that is left *)

Section leaving.
Context `{GoText} `{GoRuntime} `{FilterData} `{ProfileErrors} {S : Type} `{!IndexDriver S}.
#[local] Abbreviation St := (IndexState S).

Definition only_none (k : string) : Prop := k = none_filters.
(** No rule of the type for no filters. *)
Definition no_none (tenant : string) (ids : list string) : Prop :=
  ("*none" ∉ ids) ∧ ∀ fltrID f, fltrID ∈ ids → GetFilter tenant fltrID = Ok f →
    ∀ r, r ∈ fl_Rules f → fr_Type r ≠ "*none".

Lemma rule_without_none r :
  fr_Type r ≠ "*none" → (none_filters ∉ rule_keys r) ∧ (none_filters ∉ loaded_keys r).
Proof.
  intros Hr.
  assert (∀ ty e v, ty ∈ ["*string"; "*prefix"] → none_filters ≠ ConcatenatedKey [ty; e; v]) as Hne.
  { intros ty e v Hty E. assert (HasPrefix (ConcatenatedKey [ty; e; v]) "*none:" = true) as Hp
      by (rewrite <- E; reflexivity).
    revert Hp. unfold ConcatenatedKey. rewrite Join_cons by done.
    repeat (apply elem_of_cons in Hty as [->|Hty]; [done|]). by apply elem_of_nil in Hty. }
  unfold rule_keys, loaded_keys.
  assert (fr_Type r ∈ ["*none"; "*prefix"; "*string"] ↔ fr_Type r ∈ ["*string"; "*prefix"]) as Hiff
    by set_solver.
  rewrite (bool_decide_ext _ _ Hiff). case_bool_decide as Hty; [|case_decide; set_solver].
  split; intros (v & E & _)%list_elem_of_fmap; by apply (Hne _ _ _ Hty) in E.
Qed.
Lemma filter_without_none tenant ids t itemID fltrID f :
  no_none tenant ids → fltrID ∈ ids → indexed_filter t tenant itemID fltrID = Ok f →
  (none_filters ∉ filter_keys f) ∧ (none_filters ∉ load_keys f).
Proof.
  intros [Hids Hno] Hin. unfold indexed_filter. case_decide as E; [by subst|].
  destruct (GetFilter tenant fltrID) as [g| |] eqn:Eg; [|done..]. intros [= <-].
  unfold filter_keys, load_keys.
  split; intros (r & Hk & Hr)%list_elem_of_bind;
    destruct (rule_without_none r (Hno _ _ Hin Eg r Hr)); done.
Qed.

(** The profile is stored as [p], and listed among those without filters. *)
Definition lingers (p : AnyProfile) (ctx : string) (st : St) : Prop :=
  dm_FindProfile (any_type p) (any_Tenant p) (any_ID p) st = (Ok (Some p), st) ∧
  any_ID p ∈ items st (any_type p) (index_key (any_Tenant p) ctx) none_filters.

Lemma aside_find t t' tenant id (st st' : St) :
  aside t' st st' → (dm_FindProfile t tenant id st').1 = (dm_FindProfile t tenant id st).1.
Proof.
  intros (Hp & Hc & _). unfold dm_FindProfile, dm_GetProfile. rewrite Hp, Hc.
  destruct (match is_profileCache st !! _ with Some _ => _ | None => _ end); [done| |done].
  by case_decide.
Qed.
Lemma aside_found t t' tenant id (st st' : St) r :
  aside t' st st' → dm_FindProfile t tenant id st = (r, st) → dm_FindProfile t tenant id st' = (r, st').
Proof.
  intros Ha E. apply (aside_find t t' tenant id) in Ha. rewrite E in Ha.
  pose proof (dm_FindProfile_state t tenant id st') as T.
  destruct (dm_FindProfile t tenant id st') as [r' s']. simpl in *. by subst.
Qed.

Lemma leaving_lingers p old c ctx new new' st st' :
  no_none (any_Tenant p) (any_FilterIDs p) → any_FilterIDs p ≠ [] → any_FilterIDs old = [] →
  lingers p ctx st → leave_context old p new c st = (Ok new', st') → lingers p ctx st'.
Proof.
  intros Hno Hids Hold [Hf Hin]. unfold leave_context.
  destruct (IsSliceMember new.1 c) as [stays ctxs]. destruct (if stays then _ else _) as [needs ids].
  intros ([] & s1 & E & Er)%bind_ok. injection Er as _ ->. revert E.
  destruct needs; [|by intros [= <-]].
  pose proof (RemoveItemFromIndex_spec (λ _, True) (any_type p) (ConcatenatedKey [any_Tenant p; c])
    (any_Tenant p) (any_ID p) (any_FilterIDs old) st) as Hs.
  intros E. rewrite E in Hs. destruct Hs as (Ha & [Ho _] & Hok). destruct (Hok eq_refl) as [Hk _].
  split; [by eapply aside_found|].
  destruct (decide (index_key (any_Tenant p) ctx = ConcatenatedKey [any_Tenant p; c])) as [Ep|Ep].
  - rewrite Ep in Hin |- *. apply Hk. split; [done|]. intros (_ & fltrID & f & Hid & Hfl & Hkey).
    revert Hid. unfold current_filters. rewrite Hf, Hold, app_nil_r. simpl. unfold filters_or_none.
    rewrite decide_False by done. intros Hid.
    by destruct (filter_without_none _ _ _ _ _ _ Hno Hid Hfl).
  - rewrite Ho by auto. done.
Qed.
Lemma indexing_lingers p c ids ctx st st' :
  no_none (any_Tenant p) ids → ids ≠ [] → lingers p ctx st →
  createAndIndex (any_type p) (any_Tenant p) c (any_ID p) ids st = (Ok (), st') →
  lingers p ctx st'.
Proof.
  intros Hno Hids [Hf Hin] E.
  pose proof (createAndIndex_spec only_none (any_type p) (any_Tenant p) c (any_ID p) ids st) as Hs.
  rewrite E in Hs. destruct Hs as (Ha & Ho & Hm & _).
  { intros fltrID f Hid Hfl k ->. revert Hid. unfold filters_or_none. rewrite decide_False by done.
    intros Hid. by destruct (filter_without_none _ _ _ _ _ _ Hno Hid Hfl). }
  split; [by eapply aside_found|]. eapply confined_mono; [exact Ho|exact Hm|done|done].
Qed.

Lemma visit_lingers {A B} (P : St → Prop) (f : B → A → SM St B) l acc acc' st st' :
  (∀ x u u' s s', P s → f u x s = (Ok u', s') → P s') → P st → visit f acc l st = (Ok acc', st') → P st'.
Proof.
  intros Hf. revert acc st. induction l as [|x l IH]; intros acc st Hp; simpl; [by intros [= _ <-]|].
  intros (b & s & E1 & E2)%bind_ok. eapply IH; [|exact E2]. by eapply Hf.
Qed.

End leaving.

(** ** A server to compute with *)

Fixpoint pos_text (p : positive) : string :=
  match p with xH => "" | xO p => "0" +:+ pos_text p | xI p => "1" +:+ pos_text p end.
Fixpoint text_pos (s : string) : positive :=
  match s with
  | "" => xH
  | String c s => if decide (c = "0"%char) then xO (text_pos s) else xI (text_pos s)
  end.
Lemma text_pos_text p : text_pos (pos_text p) = p.
Proof. induction p as [p IH|p IH|]; simpl; by rewrite ?IH. Qed.

Definition plain_hash (s : gmap string (gmap string string)) (k f : string) : option string :=
  default ∅ (s !! k) !! f.
#[program] Definition plain_redis : RedisServer (gmap string (gmap string string)) := {|
  redis_hash := plain_hash; redis_nil := "nil reply";
  HGETALL s k := Ok (default ∅ (s !! k));
  HMGET s k f := Ok (default "" (plain_hash s k f));
  HGET s k f := match plain_hash s k f with Some v => Ok v | None => Err "nil reply" end;
  HDEL k fs := modify (λ s, <[k := filter (λ kv, kv.1 ∉ fs) (default ∅ (s !! k))]> s);
  HMSET k mp := modify (λ s, <[k := mp ∪ default ∅ (s !! k)]> s);
  DEL k := modify (delete k);
  RENAME k k' := modify (λ s, <[k' := default ∅ (s !! k)]> (delete k s));
  Marshal m := Ok ("m" +:+ pos_text (encode m));
  Unmarshal s := match s with
                 | "" => Err "EOF"
                 | String _ s => match decode (text_pos s) with Some m => Ok m | None => Err "EOF" end
                 end |}.
Next Obligation. by intros s k f. Qed.
Next Obligation. intros s k f. simpl. by destruct (plain_hash s k f). Qed.
Next Obligation.
  intros s k fs k' f. left. unfold plain_hash. destruct (decide (k' = k)) as [->|Hk].
  - rewrite lookup_insert_eq. simpl. rewrite map_lookup_filter.
    destruct (default ∅ (s !! k) !! f) as [v|]; simpl; [|by case_decide].
    case_decide as Hf; [rewrite option_guard_False; [done|naive_solver]|].
    rewrite option_guard_True; [done|naive_solver].
  - rewrite lookup_insert_ne by done. rewrite decide_False; [done|naive_solver].
Qed.
Next Obligation.
  intros s k mp k' f. left. unfold plain_hash. destruct (decide (k' = k)) as [->|Hk].
  - rewrite lookup_insert_eq. apply lookup_union.
  - rewrite lookup_insert_ne by done. by rewrite (left_id None _).
Qed.
Next Obligation. intros m v [= <-]. simpl. by rewrite text_pos_text, decode_encode. Qed.
Next Obligation. done. Qed.

(** ** Concrete profiles *)

#[local] Existing Instances reference_text reference_runtime reference_regexp reference_filters plain_redis.
#[local] Instance no_errors : ProfileErrors := {|
  read_error t key := None; write_error t key := None; remove_error t key := None |}.

Definition empty_state {S} (db : S) : IndexState S := mkIndexState db ∅ ∅ ∅ ∅.
Definition account_charger (id : string) : ChargerProfile :=
  mkChargerProfile "t" id ["*string:~*req.Account:1001;1002"] None "run" [] f0.
Definition account_call : CGREvent :=
  {| ev_Tenant := "t"; ev_ID := "1"; ev_Time := None; ev_Event := [("Account", IString "1002")] |}.

Definition after {S A} (m : SM S A) (st : S) : S := (m st).2.
Lemma run_after {S} (m : SM S ()) st : (m st).1 = Ok () → m st = (Ok (), after m st).
Proof. unfold after. destruct (m st) as [r st']. by intros [= ->]. Qed.
Definition one_charger {S} `{!IndexDriver S} (db : S) : IndexState S :=
  after (set_any (ACharger (account_charger "C1")) true) (empty_state db).
Definition two_chargers {S} `{!IndexDriver S} (db : S) : IndexState S :=
  after (set_any (ACharger (account_charger "C2")) true) (one_charger db).

Definition chargers_of {S} `{!IndexDriver S} (st : IndexState S) : res (list string) :=
  (λ m : gmap string bool, (map_to_list m).*1) <$>
  @MatchingItemIDsForEvent _ (index_answers ChargerProfilePrefix st) (ev_Event account_call)
    None None "*charger_filter_indexes" "cpp_" "t" true false.
Example internal_finds : chargers_of (two_chargers (∅ : IndexDB)) = Ok ["C1"; "C2"].
Proof. vm_compute. reflexivity. Qed.
Example redis_finds : chargers_of (two_chargers ∅) = Ok ["C1"; "C2"].
Proof. vm_compute. reflexivity. Qed.

Lemma internal_quiet : quiet (S := IndexDB).
Proof.
  intros db t p ft n v. simpl. unfold InternalDB_MatchFilterIndexDrv.
  destruct (idb_get db t p); [by case_decide|done].
Qed.



(** A profile of attributes in the context c1, without filters; then in c2, with a filter. *)
Definition first_profile : AttributeProfile :=
  mkAttributeProfile "t" "A" ["c1"] [] None [] false f0.
Definition moved_profile : AttributeProfile :=
  mkAttributeProfile "t" "A" ["c2"] ["*string:~*req.Account:1002"] None [] false f0.
Definition first_state : IndexState IndexDB :=
  after (set_any (AAttribute first_profile) true) (empty_state ∅).
Definition moved_state : IndexState IndexDB := after (set_any (AAttribute moved_profile) true) first_state.

Lemma first_coherent : coherent AttributeProfilePrefix "t:c1" first_state.
Proof.
  eapply refreshes_coherent.
  - eapply (set_any_refreshes named regular_named AttributeProfilePrefix (AAttribute first_profile) true
      (empty_state (∅ : IndexDB)) ()). apply run_after. vm_compute. reflexivity.
  - intros ft n v. reflexivity.
Qed.
Lemma find_run {S} t tenant id (st : IndexState S) r :
  (dm_FindProfile t tenant id st).1 = r → dm_FindProfile t tenant id st = (r, st).
Proof.
  intros <-. pose proof (dm_FindProfile_state t tenant id st) as E.
  destruct (dm_FindProfile t tenant id st) as [r' st']. simpl in *. by subst.
Qed.


(** The attributes apply the profile in the context it left. *)
#[local] Instance moved_attributes : Attributes.AttributeData := {|
  Attributes.GetAttributeProfileDrv tenant id :=
    match is_profiles moved_state !! ("alp_", ConcatenatedKey [tenant; id]) with
    | Some (AAttribute p) => Ok p | _ => Err ErrNotFound
    end;
  Attributes.parsers_JSON l := ""; Attributes.as_index := mkIndexConfig None None true false;
  Attributes.as_ProcessRuns := 1; Attributes.as_RoundingDecimals := 5 |}.
Example left_context_applies :
  ap_Contexts <$> @Attributes.attributeProfileForEvent _ _ _
    (index_answers AttributeProfilePrefix moved_state) _
    (Attributes.mkAttrArgsProcessEvent [] (Some "c1") None (Some account_call) false) = Ok ["c2"].
Proof. vm_compute. reflexivity. Qed.

(** Of two profiles with prefixes of the account only the one with the longer is found. *)
Definition prefix_charger (id prefix : string) : ChargerProfile :=
  mkChargerProfile "t" id ["*prefix:~*req.Account:" +:+ prefix] None "run" [] f0.
Example longer_prefix_hides :
  chargers_of (after (set_any (ACharger (prefix_charger "SHORT" "10")) true) (empty_state (∅ : IndexDB)))
    = Ok ["SHORT"] ∧
  chargers_of (after (set_any (ACharger (prefix_charger "LONG" "100")) true)
    (after (set_any (ACharger (prefix_charger "SHORT" "10")) true) (empty_state (∅ : IndexDB))))
    = Ok ["LONG"].
Proof. vm_compute. auto. Qed.

(** A filter with a rule of the type for no filters takes the profiles without filters out of
    their index. *)
Definition open_charger (id : string) (filters : list string) : ChargerProfile :=
  mkChargerProfile "t" id filters None "run" [] f0.
Example none_rule_hides :
  chargers_of (after (set_any (ACharger (open_charger "OPEN" [])) true) (empty_state (∅ : IndexDB)))
    = Ok ["OPEN"] ∧
  chargers_of (after (set_any (ACharger (open_charger "ODD" ["*none:a:b"])) true)
    (after (set_any (ACharger (open_charger "OPEN" [])) true) (empty_state (∅ : IndexDB))))
    = Ok ["ODD"].
Proof. vm_compute. auto. Qed.

(** A profile whose filter is missing is stored with an error, and not indexed. *)
Example broken_reference_stored :
  let '(r, st) := set_any (ACharger (open_charger "C" ["FLTR"])) true (empty_state (∅ : IndexDB)) in
  r = Err "broken reference to filter: FLTR for itemType: cpp_ and ID: C" ∧
  is_Some (is_profiles st !! ("cpp_", "t:C")) ∧ chargers_of st = Err NOT_FOUND.
Proof. vm_compute. eauto. Qed.
