(* ===== verification/EventCost.v ===== *)
(** * Costs of events

    [engine/eventcost.go] and [engine/libeventcost.go]: what an event was charged, as
    intervals of increments that refer by identifiers to the rates, timings, filters and
    balances they were charged with.  Event costs, intervals and increments are pointers,
    which cutting and merging share between events: they are positions of a store.  The
    other objects are owned by one map each and are values. *)
From S2P Require Import Prelude GoFloat GoStrings GoTime DateSeries CoreUtils Collections Values RateInterval TimeSpans CallDescriptor RatingProfile CallCost Stateful Balances Accounts.

Definition MetaRounding : string := "*rounding".
Definition META_NONE : string := "*none".
(** The balances that are not monetary. *)
Definition NonMonetaryBalances : list string := ["*voice"; "*sms"; "*data"; "*generic"].

(** ** Data *)

Record ChargingIncrement := mkChargingIncrement {
  cit_Usage : Z; cit_Cost : float64; cit_AccountingID : string; cit_CompressFactor : Z }.

Record ChargingInterval := mkChargingInterval {
  cil_RatingID : string; cil_Increments : list nat; cil_CompressFactor : Z;
  cil_usage : option Z; cil_ecUsageIdx : option Z; cil_cost : option float64 }.

Record BalanceCharge := mkBalanceCharge {
  bc_AccountID : string; bc_BalanceUUID : string; bc_RatingID : string; bc_Units : float64;
  bc_ExtraChargeID : string }.

Definition RatingMatchedFilters := gmap string iface.

Record ChargedTiming := mkChargedTiming {
  ct_Years : option Years; ct_Months : option Months; ct_MonthDays : option MonthDays;
  ct_WeekDays : option WeekDays; ct_StartTime : string }.

Record RatingUnit := mkRatingUnit {
  run_ConnectFee : float64; run_RoundingMethod : string; run_RoundingDecimals : Z;
  run_MaxCost : float64; run_MaxCostStrategy : string; run_TimingID : string;
  run_RatesID : string; run_RatingFiltersID : string }.

Record EventCost := mkEventCost {
  ec_CGRID : string; ec_RunID : string; ec_StartTime : Time; ec_Usage : option Z;
  ec_Cost : option float64; ec_Charges : list nat; ec_AccountSummary : option AccountSummary;
  ec_Rating : gmap string RatingUnit; ec_Accounting : gmap string BalanceCharge;
  ec_RatingFilters : gmap string RatingMatchedFilters; ec_Rates : gmap string RateGroups;
  ec_Timings : gmap string ChargedTiming }.

(** [es_uuids] counts the identifiers drawn. *)
Record ECState := mkECState {
  es_ecs : list EventCost; es_cils : list ChargingInterval; es_cits : list ChargingIncrement;
  es_uuids : nat }.

#[local] Abbreviation M := (SM ECState).

(** Assignments to fields. *)
Definition cil_with (cil : ChargingInterval) (ratingID : string) (incs : list nat) (cf : Z)
    : ChargingInterval :=
  mkChargingInterval ratingID incs cf (cil_usage cil) (cil_ecUsageIdx cil) (cil_cost cil).
Definition cil_set_RatingID (id : string) (cil : ChargingInterval) : ChargingInterval :=
  cil_with cil id (cil_Increments cil) (cil_CompressFactor cil).
Definition cil_set_Increments (incs : list nat) (cil : ChargingInterval) : ChargingInterval :=
  cil_with cil (cil_RatingID cil) incs (cil_CompressFactor cil).
Definition cil_set_CompressFactor (cf : Z) (cil : ChargingInterval) : ChargingInterval :=
  cil_with cil (cil_RatingID cil) (cil_Increments cil) cf.
Definition cil_cached (cil : ChargingInterval) (usage idx : option Z) (cost : option float64)
    : ChargingInterval :=
  mkChargingInterval (cil_RatingID cil) (cil_Increments cil) (cil_CompressFactor cil) usage idx cost.
Definition cit_set_AccountingID (id : string) (cit : ChargingIncrement) : ChargingIncrement :=
  mkChargingIncrement (cit_Usage cit) (cit_Cost cit) id (cit_CompressFactor cit).
Definition cit_set_CompressFactor (cf : Z) (cit : ChargingIncrement) : ChargingIncrement :=
  mkChargingIncrement (cit_Usage cit) (cit_Cost cit) (cit_AccountingID cit) cf.
Definition bc_set_ExtraChargeID (id : string) (bc : BalanceCharge) : BalanceCharge :=
  mkBalanceCharge (bc_AccountID bc) (bc_BalanceUUID bc) (bc_RatingID bc) (bc_Units bc) id.
Definition bc_set_ids (rating extra : string) (bc : BalanceCharge) : BalanceCharge :=
  mkBalanceCharge (bc_AccountID bc) (bc_BalanceUUID bc) rating (bc_Units bc) extra.
Definition run_set_ids (timing rates filters : string) (ru : RatingUnit) : RatingUnit :=
  mkRatingUnit (run_ConnectFee ru) (run_RoundingMethod ru) (run_RoundingDecimals ru)
    (run_MaxCost ru) (run_MaxCostStrategy ru) timing rates filters.

Definition ec_set_head (start : Time) (usage : option Z) (cost : option float64)
    (summary : option AccountSummary) (ec : EventCost) : EventCost :=
  mkEventCost (ec_CGRID ec) (ec_RunID ec) start usage cost (ec_Charges ec) summary
    (ec_Rating ec) (ec_Accounting ec) (ec_RatingFilters ec) (ec_Rates ec) (ec_Timings ec).
Definition ec_set_counters (usage : option Z) (cost : option float64) (ec : EventCost) : EventCost :=
  ec_set_head (ec_StartTime ec) usage cost (ec_AccountSummary ec) ec.
Definition ec_set_StartTime (t : Time) (ec : EventCost) : EventCost :=
  ec_set_head t (ec_Usage ec) (ec_Cost ec) (ec_AccountSummary ec) ec.
Definition ec_set_AccountSummary (s : option AccountSummary) (ec : EventCost) : EventCost :=
  ec_set_head (ec_StartTime ec) (ec_Usage ec) (ec_Cost ec) s ec.
Definition ec_set_Charges (charges : list nat) (ec : EventCost) : EventCost :=
  mkEventCost (ec_CGRID ec) (ec_RunID ec) (ec_StartTime ec) (ec_Usage ec) (ec_Cost ec) charges
    (ec_AccountSummary ec) (ec_Rating ec) (ec_Accounting ec) (ec_RatingFilters ec) (ec_Rates ec)
    (ec_Timings ec).
Definition ec_set_maps (rating : gmap string RatingUnit) (accounting : gmap string BalanceCharge)
    (filters : gmap string RatingMatchedFilters) (rates : gmap string RateGroups)
    (timings : gmap string ChargedTiming) (ec : EventCost) : EventCost :=
  mkEventCost (ec_CGRID ec) (ec_RunID ec) (ec_StartTime ec) (ec_Usage ec) (ec_Cost ec)
    (ec_Charges ec) (ec_AccountSummary ec) rating accounting filters rates timings.

(** ** The store *)

Definition event_cost (e : nat) : M EventCost := λ st, (deref (es_ecs st !! e), st).
Definition interval (l : nat) : M ChargingInterval := λ st, (deref (es_cils st !! l), st).
Definition increment (p : nat) : M ChargingIncrement := λ st, (deref (es_cits st !! p), st).
Definition change_ec (e : nat) (f : EventCost → EventCost) : M () := modify (λ st,
  mkECState (alter f e (es_ecs st)) (es_cils st) (es_cits st) (es_uuids st)).
Definition change_interval (l : nat) (f : ChargingInterval → ChargingInterval) : M () :=
  modify (λ st,
    mkECState (es_ecs st) (alter f l (es_cils st)) (es_cits st) (es_uuids st)).
Definition change_increment (p : nat) (f : ChargingIncrement → ChargingIncrement) : M () :=
  modify (λ st,
    mkECState (es_ecs st) (es_cils st) (alter f p (es_cits st)) (es_uuids st)).
Definition new_ec (ec : EventCost) : M nat := λ st,
  (Ok (length (es_ecs st)),
   mkECState (es_ecs st ++ [ec]) (es_cils st) (es_cits st) (es_uuids st)).
Definition new_interval (cil : ChargingInterval) : M nat := λ st,
  (Ok (length (es_cils st)),
   mkECState (es_ecs st) (es_cils st ++ [cil]) (es_cits st) (es_uuids st)).
Definition new_increment (cit : ChargingIncrement) : M nat := λ st,
  (Ok (length (es_cits st)),
   mkECState (es_ecs st) (es_cils st) (es_cits st ++ [cit]) (es_uuids st)).

(** ** Comparisons *)

(** [==] of interface values; slices and maps panic. *)
Definition iface_same `{GoText} (a b : iface) : res bool :=
  match a, b with
  | INil, INil => Ok true
  | IString x, IString y => Ok (bool_decide (x = y))
  | IInt k x, IInt k' y => Ok (bool_decide (k = k') && (x =? y))
  | IFloat64 x, IFloat64 y | IFloat32 x, IFloat32 y => Ok (feqb x y)
  | IBool x, IBool y => Ok (Bool.eqb x y)
  | IDuration x, IDuration y => Ok (x =? y)
  | ITime x, ITime y => Ok (Time_same x y)
  | IStrings _, IStrings _ | ISlice _, ISlice _ | IMap _, IMap _ | IStorage _, IStorage _ => Panic
  | IOpaque n, IOpaque m =>
      if negb (bool_decide (opaque_type n = opaque_type m)) then Ok false
      else if opaque_comparable (opaque_type n) then Ok (bool_decide (n = m)) else Panic
  | _, _ => Ok false
  end.

Definition ChargingIncrement_Equals (cIt oCIt : ChargingIncrement) : bool :=
  (cit_Usage cIt =? cit_Usage oCIt) && feqb (cit_Cost cIt) (cit_Cost oCIt) &&
  bool_decide (cit_AccountingID cIt = cit_AccountingID oCIt) &&
  (cit_CompressFactor cIt =? cit_CompressFactor oCIt).

Definition ChargingIncrement_PartiallyEquals (cIt oCIt : ChargingIncrement) : bool :=
  (cit_Usage cIt =? cit_Usage oCIt) && feqb (cit_Cost cIt) (cit_Cost oCIt) &&
  bool_decide (cit_AccountingID cIt = cit_AccountingID oCIt).

Fixpoint increments_equal (l l' : list nat) : M bool :=
  match l, l' with
  | p :: l, p' :: l' =>
      cIt ← increment p; oCIt ← increment p';
      if negb (ChargingIncrement_Equals cIt oCIt) then mret false else increments_equal l l'
  | _, _ => mret true
  end.
Definition ChargingInterval_PartiallyEquals (l l' : nat) : M bool :=
  cIl ← interval l; oCIl ← interval l';
  if negb (bool_decide (cil_RatingID cIl = cil_RatingID oCIl) &&
           (length (cil_Increments cIl) =? length (cil_Increments oCIl))%nat)
  then mret false
  else increments_equal (cil_Increments cIl) (cil_Increments oCIl).

Definition BalanceCharge_Equals (bc oBC : BalanceCharge) : bool :=
  let extra (bc : BalanceCharge) :=
    if decide (bc_ExtraChargeID bc = "") then META_NONE else bc_ExtraChargeID bc in
  bool_decide (bc_AccountID bc = bc_AccountID oBC) &&
  bool_decide (bc_BalanceUUID bc = bc_BalanceUUID oBC) &&
  bool_decide (bc_RatingID bc = bc_RatingID oBC) && feqb (bc_Units bc) (bc_Units oBC) &&
  bool_decide (extra bc = extra oBC).

(** Every entry of the first is in the second. *)
Fixpoint filters_equal `{GoText} (entries : list (string * iface)) (oRF : RatingMatchedFilters)
    : res bool :=
  match entries with
  | [] => Ok true
  | (k, v) :: entries =>
      b ← iface_same v (default INil (oRF !! k)); if negb b then Ok false else filters_equal entries oRF
  end.
Definition RatingMatchedFilters_Equals `{GoText} `{GoRuntime} (rf oRF : RatingMatchedFilters)
    : res bool :=
  filters_equal (go_range rf) oRF.

Definition ChargedTiming_Equals (ct oCT : ChargedTiming) : bool :=
  Years_Equals (elems (ct_Years ct)) (elems (ct_Years oCT)) &&
  Months_Equals (elems (ct_Months ct)) (elems (ct_Months oCT)) &&
  MonthDays_Equals (elems (ct_MonthDays ct)) (elems (ct_MonthDays oCT)) &&
  WeekDays_Equals (elems (ct_WeekDays ct)) (elems (ct_WeekDays oCT)) &&
  bool_decide (ct_StartTime ct = ct_StartTime oCT).

Definition RatingUnit_Equals (ru oRU : RatingUnit) : bool :=
  feqb (run_ConnectFee ru) (run_ConnectFee oRU) &&
  bool_decide (run_RoundingMethod ru = run_RoundingMethod oRU) &&
  (run_RoundingDecimals ru =? run_RoundingDecimals oRU) &&
  feqb (run_MaxCost ru) (run_MaxCost oRU) &&
  bool_decide (run_MaxCostStrategy ru = run_MaxCostStrategy oRU) &&
  bool_decide (run_TimingID ru = run_TimingID oRU) &&
  bool_decide (run_RatesID ru = run_RatesID oRU) &&
  bool_decide (run_RatingFiltersID ru = run_RatingFiltersID oRU).

(** ** Usage and cost of increments and intervals

    The usage and the cost of an interval are kept in it when they are computed. *)

Definition ChargingIncrement_TotalUsage (cIt : ChargingIncrement) : Z :=
  mul64 (cit_Usage cIt) (cit_CompressFactor cIt).
Definition ChargingIncrement_TotalCost (cIt : ChargingIncrement) : float64 :=
  fmul (cit_Cost cIt) (f_of_Z (cit_CompressFactor cIt)).

Definition ChargingInterval_Usage (l : nat) : M Z :=
  cIl ← interval l;
  match cil_usage cIl with
  | Some usage => mret usage
  | None =>
      usage ← visit (λ usage p, incr ← increment p;
                mret (add64 usage (ChargingIncrement_TotalUsage incr))) 0 (cil_Increments cIl);
      _ ← change_interval l (λ c, cil_cached c (Some usage) (cil_ecUsageIdx c) (cil_cost c));
      mret usage
  end.

Definition ChargingInterval_TotalUsage (l : nat) : M Z :=
  usage ← ChargingInterval_Usage l; cIl ← interval l; mret (mul64 usage (cil_CompressFactor cIl)).

Definition ChargingInterval_StartTime (cIl : ChargingInterval) (ecST : Time) : Time :=
  match cil_ecUsageIdx cIl with Some idx => Add ecST idx | None => zero_time end.

Definition ChargingInterval_EndTime (l : nat) (cIlST : Time) : M Time :=
  usage ← ChargingInterval_TotalUsage l; mret (Add cIlST usage).

Definition ChargingInterval_Cost (l : nat) : M float64 :=
  cIl ← interval l;
  match cil_cost cIl with
  | Some cost => mret cost
  | None =>
      cost ← visit (λ cost p, incr ← increment p;
               mret (fadd cost (ChargingIncrement_TotalCost incr))) f0 (cil_Increments cIl);
      let cost := Round cost globalRoundingDecimals ROUNDING_MIDDLE in
      _ ← change_interval l (λ c, cil_cached c (cil_usage c) (cil_ecUsageIdx c) (Some cost));
      mret cost
  end.

Definition ChargingInterval_TotalCost (l : nat) : M float64 :=
  cost ← ChargingInterval_Cost l; cIl ← interval l;
  mret (Round (fmul cost (f_of_Z (cil_CompressFactor cIl))) globalRoundingDecimals ROUNDING_MIDDLE).

(** A copy of each increment, at new positions. *)
Definition clone_increments (ps : list nat) : M (list nat) :=
  visit (λ cln p, cIt ← increment p; p' ← new_increment cIt; mret (cln ++ [p'])) [] ps.
Definition ChargingInterval_Clone (l : nat) : M nat :=
  cIl ← interval l;
  incs ← clone_increments (cil_Increments cIl);
  new_interval (mkChargingInterval (cil_RatingID cIl) incs (cil_CompressFactor cIl) None None None).

(** ** Usage and cost of events *)

Definition EventCost_GetCost (e : nat) : M float64 :=
  ec ← event_cost e;
  match ec_Cost ec with
  | Some cost => mret cost
  | None =>
      cost ← visit (λ cost l, c ← ChargingInterval_TotalCost l; mret (fadd cost c)) f0 (ec_Charges ec);
      let cost := Round cost globalRoundingDecimals ROUNDING_MIDDLE in
      _ ← change_ec e (λ ec, ec_set_counters (ec_Usage ec) (Some cost) ec); mret cost
  end.

Definition GetUsage (e : nat) : M Z :=
  ec ← event_cost e;
  match ec_Usage ec with
  | Some usage => mret usage
  | None =>
      usage ← visit (λ usage l, u ← ChargingInterval_TotalUsage l; mret (add64 usage u)) 0
                (ec_Charges ec);
      _ ← change_ec e (λ ec, ec_set_counters (Some usage) (ec_Cost ec) ec); mret usage
  end.

Definition ComputeEventCostUsageIndexes (e : nat) : M () :=
  ec ← event_cost e;
  _ ← visit (λ totalUsage l,
        _ ← change_interval l (λ c, match cil_ecUsageIdx c with
              | Some _ => c
              | None => cil_cached c (cil_usage c) (Some totalUsage) (cil_cost c) end);
        u ← ChargingInterval_TotalUsage l; mret (add64 totalUsage u)) 0 (ec_Charges ec);
  mret ().

Definition Compute (e : nat) : M () :=
  _ ← GetUsage e; _ ← ComputeEventCostUsageIndexes e; _ ← EventCost_GetCost e; mret ().

Definition ResetCounters (e : nat) : M () :=
  _ ← change_ec e (ec_set_counters None None);
  ec ← event_cost e;
  visit (λ _ l, change_interval l (λ c, cil_cached c None None None)) () (ec_Charges ec).

(** [NewBareEventCost] *)
Definition NewBareEventCost : EventCost :=
  mkEventCost "" "" zero_time None None [] None ∅ ∅ ∅ ∅ ∅.

Section eventcost.
Context `{GoText} `{GoRuntime} `{GoHash} `{RatingData} `{AccountData}.

Definition UUIDSha1Prefix : M string := λ st,
  (Ok (stake 7 (Sha1 [GenUUID (es_uuids st)])),
   mkECState (es_ecs st) (es_cils st) (es_cits st) (S (es_uuids st))).

(** ** Identifiers

    An object is looked for among those of its map, in the order of ranging, and added
    under a new identifier when none equals it. *)

Fixpoint find_equal {A} (equals : A → res bool) (entries : list (string * A))
    : res (option string) :=
  match entries with
  | [] => Ok None
  | (k, v) :: entries => b ← equals v; if (b : bool) then Ok (Some k) else find_equal equals entries
  end.
Definition id_with_set {A} (equals : A → A → res bool) (m : gmap string A) (x : A)
    : M (string * gmap string A) :=
  found ← lift (find_equal (λ v, equals v x) (go_range m));
  match found with
  | Some k => mret (k, m)
  | None => uuid ← UUIDSha1Prefix; mret (uuid, <[uuid := x]> m)
  end.
Definition bool_res {A} (equals : A → A → bool) (x y : A) : res bool := Ok (equals x y).

Definition RatingFilters_GetIDWithSet (rfs : gmap string RatingMatchedFilters)
    (rmf : option RatingMatchedFilters) : M (string * gmap string RatingMatchedFilters) :=
  match rmf with
  | None => mret ("", rfs)
  | Some rmf =>
      if decide (size rmf = 0%nat) then mret ("", rfs)
      else id_with_set RatingMatchedFilters_Equals rfs rmf
  end.
Definition Rating_GetIDWithSet (crus : gmap string RatingUnit) (cru : option RatingUnit)
    : M (string * gmap string RatingUnit) :=
  match cru with
  | None => mret ("", crus) | Some cru => id_with_set (bool_res RatingUnit_Equals) crus cru end.
Definition ChargedRates_GetIDWithSet (crs : gmap string RateGroups) (rg : option RateGroups)
    : M (string * gmap string RateGroups) :=
  match rg with
  | None | Some [] => mret ("", crs)
  | Some rg => id_with_set (bool_res RateGroups_Equals) crs rg
  end.
Definition ChargedTimings_GetIDWithSet (cts : gmap string ChargedTiming) (ct : option ChargedTiming)
    : M (string * gmap string ChargedTiming) :=
  match ct with
  | None => mret ("", cts) | Some ct => id_with_set (bool_res ChargedTiming_Equals) cts ct end.
Definition Accounting_GetIDWithSet (cbs : gmap string BalanceCharge) (cb : option BalanceCharge)
    : M (string * gmap string BalanceCharge) :=
  match cb with
  | None => mret ("", cbs) | Some cb => id_with_set (bool_res BalanceCharge_Equals) cbs cb end.

(** The same on the maps of an event cost. *)
Definition filters_id (e : nat) (rmf : option RatingMatchedFilters) : M string :=
  ec ← event_cost e; '(id, m) ← RatingFilters_GetIDWithSet (ec_RatingFilters ec) rmf;
  _ ← change_ec e (λ ec, ec_set_maps (ec_Rating ec) (ec_Accounting ec) m (ec_Rates ec) (ec_Timings ec) ec);
  mret id.
Definition rating_id (e : nat) (cru : option RatingUnit) : M string :=
  ec ← event_cost e; '(id, m) ← Rating_GetIDWithSet (ec_Rating ec) cru;
  _ ← change_ec e (λ ec, ec_set_maps m (ec_Accounting ec) (ec_RatingFilters ec) (ec_Rates ec) (ec_Timings ec) ec);
  mret id.
Definition rates_id (e : nat) (rg : option RateGroups) : M string :=
  ec ← event_cost e; '(id, m) ← ChargedRates_GetIDWithSet (ec_Rates ec) rg;
  _ ← change_ec e (λ ec, ec_set_maps (ec_Rating ec) (ec_Accounting ec) (ec_RatingFilters ec) m (ec_Timings ec) ec);
  mret id.
Definition timing_id (e : nat) (ct : option ChargedTiming) : M string :=
  ec ← event_cost e; '(id, m) ← ChargedTimings_GetIDWithSet (ec_Timings ec) ct;
  _ ← change_ec e (λ ec, ec_set_maps (ec_Rating ec) (ec_Accounting ec) (ec_RatingFilters ec) (ec_Rates ec) m ec);
  mret id.
Definition accounting_id (e : nat) (cb : option BalanceCharge) : M string :=
  ec ← event_cost e; '(id, m) ← Accounting_GetIDWithSet (ec_Accounting ec) cb;
  _ ← change_ec e (λ ec, ec_set_maps (ec_Rating ec) m (ec_RatingFilters ec) (ec_Rates ec) (ec_Timings ec) ec);
  mret id.

Definition charged_timing (tm : RITiming) : ChargedTiming :=
  mkChargedTiming (rit_Years tm) (rit_Months tm) (rit_MonthDays tm) (rit_WeekDays tm) (rit_StartTime tm).

Definition ratingIDForRateInterval (e : nat) (ri : option RateInterval)
    (rf : option RatingMatchedFilters) : M string :=
  match ri with
  | None => mret ""
  | Some ri =>
      match ri_Rating ri with
      | None => mret ""
      | Some rating =>
          rfUUID ← (if rf is Some _ then filters_id e rf else mret "");
          tmID ← (match ri_Timing ri with
                  | Some tm => timing_id e (Some (charged_timing tm)) | None => mret "" end);
          rtUUID ← (if decide (length (elems (rir_Rates rating)) = 0%nat) then mret ""
                    else rates_id e (rir_Rates rating));
          rating_id e (Some (mkRatingUnit (rir_ConnectFee rating) (rir_RoundingMethod rating)
            (rir_RoundingDecimals rating) (rir_MaxCost rating) (rir_MaxCostStrategy rating)
            tmID rtUUID rfUUID))
      end
  end.

Definition rateIntervalForRatingID (ec : EventCost) (ratingID : string)
    : res (option RateInterval) :=
  if decide (ratingID = "") then Ok None
  else
    cIlRU ← deref (ec_Rating ec !! ratingID);
    let rates := if decide (run_RatesID cIlRU = "") then None else ec_Rates ec !! run_RatesID cIlRU in
    timing ← (if decide (run_TimingID cIlRU = "") then Ok None
              else
                t ← deref (ec_Timings ec !! run_TimingID cIlRU);
                Ok (Some (mkRITiming (ct_Years t) (ct_Months t) (ct_MonthDays t) (ct_WeekDays t)
                            (ct_StartTime t) "" "" "")));
    Ok (Some (mkRateInterval timing
          (Some (mkRIRate (run_ConnectFee cIlRU) (run_RoundingMethod cIlRU)
                   (run_RoundingDecimals cIlRU) (run_MaxCost cIlRU) (run_MaxCostStrategy cIlRU)
                   rates "")) f0)).

(** ** From the cost of a call *)

Definition newChargingIncrement (e : nat) (incr : Increment) (rf : option RatingMatchedFilters)
    (roundedIncrement : bool) : M ChargingIncrement :=
  let cIt id := mkChargingIncrement (inc_Duration incr) (inc_Cost incr) id (inc_CompressFactor incr) in
  let rate (interval : option RateInterval) (other : string) :=
    if negb roundedIncrement then ratingIDForRateInterval e interval rf else mret other in
  match inc_BalanceInfo incr with
  | None => mret (cIt "")
  | Some info =>
      match di_Unit info, di_Monetary info with
      | Some unit, monetary =>
          '(ecUUID, rateID) ← (match monetary with
             | Some money =>
                 rateID ← rate (mi_RateInterval money) MetaRounding;
                 uuid ← accounting_id e
                   (Some (mkBalanceCharge (di_AccountID info) (mi_UUID money) rateID (inc_Cost incr) ""));
                 mret (if decide (uuid = "") then META_NONE else uuid, rateID)
             | None => mret (META_NONE, MetaRounding)
             end);
          rateID ← rate (ui_RateInterval unit) rateID;
          id ← accounting_id e
            (Some (mkBalanceCharge (di_AccountID info) (ui_UUID unit) rateID (ui_Consumed unit) ecUUID));
          mret (cIt id)
      | None, Some money =>
          rateID ← rate (mi_RateInterval money) MetaRounding;
          id ← accounting_id e
            (Some (mkBalanceCharge (di_AccountID info) (mi_UUID money) rateID (inc_Cost incr) ""));
          mret (cIt id)
      | None, None => mret (cIt "")
      end
  end.

Definition matched_filters (ts : TimeSpan) : RatingMatchedFilters :=
  <["Subject" := IString (ts_MatchedSubject ts)]>
    (<["DestinationPrefix" := IString (ts_MatchedPrefix ts)]>
      (<["DestinationID" := IString (ts_MatchedDestId ts)]>
        {["RatingPlanID" := IString (ts_RatingPlanId ts)]})).

(** The interval of a span: its increments, the correction of the rounding last. *)
Definition span_interval (e : nat) (ts : TimeSpan) : M nat :=
  let rf := Some (matched_filters ts) in
  ratingID ← ratingIDForRateInterval e (ts_RateInterval ts) rf;
  incs ← visit (λ incs incr, cIt ← newChargingIncrement e incr rf false;
           p ← new_increment cIt; mret (incs ++ [p])) [] (ts_increments ts);
  incs ← (match ts_RoundIncrement ts with
          | None => mret incs
          | Some incr =>
              rIncr ← newChargingIncrement e incr rf true;
              p ← new_increment (mkChargingIncrement (cit_Usage rIncr) (fneg (cit_Cost rIncr))
                                   (cit_AccountingID rIncr) (cit_CompressFactor rIncr));
              mret (incs ++ [p])
          end);
  new_interval (mkChargingInterval ratingID incs (ts_CompressFactor ts) None None None).

Definition NewEventCostFromCallCost (cc : CallCost) (summary : option AccountSummary)
    (cgrID runID : string) : M nat :=
  e ← new_ec (mkEventCost cgrID runID
        (match cc_Timespans cc with ts :: _ => ts_TimeStart ts | [] => zero_time end)
        None None [] summary ∅ ∅ ∅ ∅ ∅);
  charges ← visit (λ charges ts, l ← span_interval e ts; mret (charges ++ [l])) [] (cc_Timespans cc);
  _ ← change_ec e (ec_set_Charges charges);
  mret e.

(** ** Back to the cost of a call *)

(** What a charge is refunded with; the kinds come from the account summary.  [b] is the
    summary of the charged balance, whose kind also decides for an extra charge that is
    not of money. *)
Definition as_money (info : DebitInfo) (uuid : string) : DebitInfo :=
  mkDebitInfo (di_Unit info) (Some (mkMonetaryInfo uuid "" f0 None)) (di_AccountID info).
Definition as_unit (info : DebitInfo) (uuid : string) (consumed : float64)
    (interval : option RateInterval) : DebitInfo :=
  mkDebitInfo (Some (mkUnitInfo uuid "" f0 "" consumed "" interval)) (di_Monetary info)
    (di_AccountID info).
Definition refund_info (kind uuid : string) (b : BalanceSummary) (info : DebitInfo) : DebitInfo :=
  if decide (kind = MONETARY) then as_money info uuid
  else if bool_decide (bs_Type b ∈ NonMonetaryBalances) then as_unit info uuid f0 None
  else info.

Definition refund_increment (ec : EventCost) (cIcrm : ChargingIncrement) : res Increment :=
  let incr info :=
    mkIncrement (cit_Usage cIcrm) (cit_Cost cIcrm) info (cit_CompressFactor cIcrm) false in
  if decide (cit_AccountingID cIcrm = "") then Ok (incr None)
  else
    charge ← deref (ec_Accounting ec !! cit_AccountingID cIcrm);
    summary ← deref (ec_AccountSummary ec);
    blncSmry ← deref (BalanceSummaryWithUUD (asm_BalanceSummaries summary) (bc_BalanceUUID charge));
    let info := refund_info (bs_Type blncSmry) (bs_UUID blncSmry) blncSmry
                  (mkDebitInfo None None (bc_AccountID charge)) in
    if decide (bc_ExtraChargeID charge = META_NONE ∨ bc_ExtraChargeID charge = "")
    then Ok (incr (Some info))
    else
      extra ← deref (ec_Accounting ec !! bc_ExtraChargeID charge);
      extraSmry ← deref (BalanceSummaryWithUUD (asm_BalanceSummaries summary) (bc_BalanceUUID extra));
      Ok (incr (Some (refund_info (bs_Type extraSmry) (bs_UUID extraSmry) blncSmry info))).

(** The slice is as long as the compress factors say, and filled by position. *)
Definition AsRefundIncrements (e : nat) (tor : string) : M CallDescriptor :=
  usage ← GetUsage e;
  ec ← event_cost e;
  let cd incs :=
    mkCallDescriptor "" "" "" "" "" (ec_StartTime ec) (Add (ec_StartTime ec) usage) f0 usage "" []
      incs tor ∅ f0 0 f0 (ec_CGRID ec) (ec_RunID ec) false false false false in
  if decide (length (ec_Charges ec) = 0%nat) then mret (cd None)
  else
    nrIcrms ← visit (λ n l, cIl ← interval l;
      mret (add64 n (mul64 (cil_CompressFactor cIl) (Z.of_nat (length (cil_Increments cIl))))))
      0 (ec_Charges ec);
    incs ← visit (λ incs l,
      cIl ← interval l;
      visit (λ incs _, visit (λ incs p,
        cIcrm ← increment p; i ← lift (refund_increment ec cIcrm); mret (incs ++ [i]))
        incs (cil_Increments cIl)) incs (seq 0 (Z.to_nat (cil_CompressFactor cIl))))
      [] (ec_Charges ec);
    if decide (Z.of_nat (length incs) = nrIcrms) then mret (cd (Some incs)) else lift Panic.

Definition balance_type (ec : EventCost) (uuid : string) : string :=
  match ec_AccountSummary ec with
  | Some summary =>
      if decide (uuid = "") then ""
      else from_option bs_Type "" (BalanceSummaryWithUUD (asm_BalanceSummaries summary) uuid)
  | None => ""
  end.

(** A charge of units without an extra charge is marked in the accounting. *)
Definition newIntervalFromCharge (e : nat) (cInc : ChargingIncrement) : M Increment :=
  let incr info :=
    mkIncrement (cit_Usage cInc) (cit_Cost cInc) (Some info) (cit_CompressFactor cInc) false in
  if decide (cit_AccountingID cInc = "") then mret (incr (mkDebitInfo None None ""))
  else
    let id := cit_AccountingID cInc in
    ec ← event_cost e;
    cBC ← lift (deref (ec_Accounting ec !! id));
    let info := mkDebitInfo None None (bc_AccountID cBC) in
    let mark := SliceHasMember ["*data"; "*voice"] (balance_type ec (bc_BalanceUUID cBC)) &&
                bool_decide (bc_ExtraChargeID cBC = "") in
    let cBC := if mark then bc_set_ExtraChargeID META_NONE cBC else cBC in
    _ ← change_ec e (λ ec, ec_set_maps (ec_Rating ec) (<[id := cBC]> (ec_Accounting ec))
          (ec_RatingFilters ec) (ec_Rates ec) (ec_Timings ec) ec);
    '(cBC, info) ← lift (
      if decide (bc_ExtraChargeID cBC = "") then Ok (cBC, info)
      else
        ri ← rateIntervalForRatingID ec (bc_RatingID cBC);
        let info := as_unit info (bc_BalanceUUID cBC) (bc_Units cBC) ri in
        if decide (bc_ExtraChargeID cBC = META_NONE) then Ok (cBC, info)
        else extra ← deref (ec_Accounting ec !! bc_ExtraChargeID cBC); Ok (extra, info));
    if decide (bc_ExtraChargeID cBC = META_NONE) then mret (incr info)
    else
      ri ← lift (rateIntervalForRatingID ec (bc_RatingID cBC));
      mret (incr (mkDebitInfo (di_Unit info)
                    (Some (mkMonetaryInfo (bc_BalanceUUID cBC) "" f0 ri)) (di_AccountID info))).

Definition as_text (v : option iface) : res string :=
  match v with Some (IString s) => Ok s | _ => Panic end.
Definition matched_texts (ec : EventCost) (ratingID : string)
    : res (string * string * string * string) :=
  if decide (ratingID = "") then Ok ("", "", "", "")
  else
    ru ← deref (ec_Rating ec !! ratingID);
    if decide (run_RatingFiltersID ru = "") then Ok ("", "", "", "")
    else
      let rfs := default ∅ (ec_RatingFilters ec !! run_RatingFiltersID ru) in
      subject ← as_text (rfs !! "Subject"); prefix ← as_text (rfs !! "DestinationPrefix");
      destID ← as_text (rfs !! "DestinationID"); planID ← as_text (rfs !! "RatingPlanID");
      Ok (subject, prefix, destID, planID).

(** A last increment charged with the rounding is taken off; the one before it is what
    becomes the correction of the rounding, with its cost negated. *)
Definition span_increments (e : nat) (cIl : ChargingInterval)
    : M (option Increments * option Increment) :=
  match last (cil_Increments cIl) with
  | None => mret (None, None)
  | Some p =>
      lastIt ← increment p; ec ← event_cost e;
      charge ← lift (deref (ec_Accounting ec !! cit_AccountingID lastIt));
      '(incrs, round) ← (if decide (bc_RatingID charge = MetaRounding) then
          let incrs := take (length (cil_Increments cIl) - 1) (cil_Increments cIl) in
          p ← lift (index (cil_Increments cIl) (Z.of_nat (length incrs) - 1));
          cInc ← increment p; round ← newIntervalFromCharge e cInc;
          mret (incrs, Some (mkIncrement (inc_Duration round) (fneg (inc_Cost round))
            (inc_BalanceInfo round) (inc_CompressFactor round) (inc_paid round)))
        else mret (cil_Increments cIl, None));
      incs ← visit (λ incs p, cInc ← increment p; i ← newIntervalFromCharge e cInc; mret (incs ++ [i]))
               [] incrs;
      mret (Some incs, round)
  end.

Definition charge_span (e l : nat) : M TimeSpan :=
  cost ← ChargingInterval_Cost l;
  usage ← ChargingInterval_Usage l;
  cIl ← interval l;
  _ ← (if cil_ecUsageIdx cIl is Some _ then mret () else ComputeEventCostUsageIndexes e);
  cIl' ← interval l;
  idx ← lift (deref (cil_ecUsageIdx cIl'));
  ec ← event_cost e;
  let start := Add (ec_StartTime ec) idx in
  let finish := Add start (mul64 usage (cil_CompressFactor cIl)) in
  '(subject, prefix, destID, planID) ← lift (matched_texts ec (cil_RatingID cIl));
  ri ← lift (rateIntervalForRatingID ec (cil_RatingID cIl));
  '(incs, round) ← span_increments e cIl;
  mret (mkTimeSpan start finish cost ri usage incs round subject prefix destID planID
          (cil_CompressFactor cIl) None).

Definition AsCallCost (e : nat) (tor : string) : M (CallCost * option AccountSummary) :=
  cost ← EventCost_GetCost e;
  usage ← GetUsage e;
  ec ← event_cost e;
  spans ← visit (λ spans l, ts ← charge_span e l; mret (spans ++ [ts])) [] (ec_Charges ec);
  mret (mkCallCost "" "" "" "" "" (FirstNonEmpty [tor; VOICE]) cost spans (f_of_Z usage)
          false false false, ec_AccountSummary ec).

(** ** Merging *)

(** The identifiers, in one event cost, of what another refers to. *)
Definition ratingGetIDFomEventCost (e oE : nat) (oRatingID : string) : M string :=
  if decide (oRatingID = "") then mret ""
  else
    oEC ← event_cost oE;
    oRU ← lift (deref (ec_Rating oEC !! oRatingID));
    timing ← timing_id e (ec_Timings oEC !! run_TimingID oRU);
    filters ← filters_id e (ec_RatingFilters oEC !! run_RatingFiltersID oRU);
    rates ← rates_id e (ec_Rates oEC !! run_RatesID oRU);
    rating_id e (Some (run_set_ids timing rates filters oRU)).

(** Charges follow their extra charges; a chain longer than the number of charges comes
    back to one it passed, and overflows the stack. *)
Fixpoint charge_id (fuel : nat) (e oE : nat) (oAccountingID : string) : M string :=
  if decide (oAccountingID = "" ∨ oAccountingID = META_NONE) then mret ""
  else
    match fuel with
    | O => lift Panic
    | S fuel' =>
        oEC ← event_cost oE;
        oBC ← lift (deref (ec_Accounting oEC !! oAccountingID));
        ratingID ← ratingGetIDFomEventCost e oE (bc_RatingID oBC);
        extraID ← charge_id fuel' e oE (bc_ExtraChargeID oBC);
        accounting_id e (Some (bc_set_ids ratingID extraID oBC))
    end.
Definition accountingGetIDFromEventCost (e oE : nat) (oAccountingID : string) : M string :=
  oEC ← event_cost oE; charge_id (S (size (ec_Accounting oEC))) e oE oAccountingID.

(** The increments that continue the last one of [ec] are added to its compress factor; the
    result is where that ended: the increment and the count of repetitions left. *)
Definition absorb (e oE : nat) (lastCIt : nat) (append : bool) (cF : Z)
    (first : option (nat * Z)) (ipp : nat * (nat * nat)) : M (option (nat * Z)) :=
  let '(i, (p, p')) := ipp in
  cIt ← increment p;
  id ← accountingGetIDFromEventCost e oE (cit_AccountingID cIt);
  _ ← change_increment p' (cit_set_AccountingID id);
  match first with
  | Some _ => mret first
  | None =>
      lastIt ← increment lastCIt; cln ← increment p';
      if negb append || negb (ChargingIncrement_PartiallyEquals lastIt cln)
      then mret (Some (i, cF))
      else
        cIt ← increment p;
        _ ← change_increment lastCIt (λ c,
              cit_set_CompressFactor (add64 (cit_CompressFactor c) (cit_CompressFactor cIt)) c);
        mret None
  end.

Definition appendCIlFromEC (e oE : nat) (cIlIdx : nat) : M () :=
  oEC ← event_cost oE;
  l ← lift (deref (ec_Charges oEC !! cIlIdx));
  cIl ← interval l;
  cln ← ChargingInterval_Clone l;
  ratingID ← ratingGetIDFomEventCost e oE (cil_RatingID cIl);
  _ ← change_interval cln (cil_set_RatingID ratingID);
  ec ← event_cost e;
  lastL ← lift (deref (last (ec_Charges ec)));
  lastCIl ← interval lastL;
  lastCIt ← lift (deref (last (cil_Increments lastCIl)));
  cIlCln ← interval cln;
  let append := (cil_CompressFactor lastCIl =? 1) && bool_decide (cil_RatingID lastCIl = ratingID) in
  let numbered := imap pair (zip (cil_Increments cIl) (cil_Increments cIlCln)) in
  let CF := cil_CompressFactor cIl in
  first ← visit (λ first k, visit (absorb e oE lastCIt append (CF - Z.of_nat k)) first numbered)
            None (seq 0 (Z.to_nat CF));
  equal ← ChargingInterval_PartiallyEquals lastL cln;
  if (equal : bool) then
    change_interval lastL (λ c,
      cil_set_CompressFactor (add64 (cil_CompressFactor c) (cil_CompressFactor cIlCln)) c)
  else
    match first with
    | None => mret ()
    | Some (i, lastCF) =>
        _ ← change_interval l (λ c, cil_with c ratingID (drop i (cil_Increments cIlCln)) 1);
        _ ← change_ec e (λ ec, ec_set_Charges (ec_Charges ec ++ [l]) ec);
        if decide (1 < lastCF) then
          _ ← change_interval cln (cil_set_CompressFactor (lastCF - 1));
          change_ec e (λ ec, ec_set_Charges (ec_Charges ec ++ [cln]) ec)
        else mret ()
    end.

Definition appendChargingIntervalFromEventCost (e oE : nat) (cIlIdx : nat) : M () :=
  ec ← event_cost e;
  match last (ec_Charges ec) with
  | None => appendCIlFromEC e oE cIlIdx
  | Some lastL =>
      oEC ← event_cost oE;
      l ← lift (deref (ec_Charges oEC !! cIlIdx));
      equal ← ChargingInterval_PartiallyEquals lastL l;
      if (equal : bool)
      then change_interval lastL (λ c, cil_set_CompressFactor (add64 (cil_CompressFactor c) 1) c)
      else appendCIlFromEC e oE cIlIdx
  end.

Definition EventCost_Merge (e : nat) (ecs : list nat) : M () :=
  _ ← visit (λ _ newEC,
        ec ← event_cost newEC;
        _ ← change_ec e (ec_set_AccountSummary (ec_AccountSummary ec));
        visit (λ _ i, appendChargingIntervalFromEventCost e newEC i) ()
          (seq 0 (length (ec_Charges ec)))) () ecs;
  ResetCounters e.

(** ** Stale references *)

(** Removes the entries that are not used, in the order of ranging; whether one is used
    may depend on those removed before. *)
Definition remove_unused {A} (used : gmap string A → string → bool) (m : gmap string A)
    : gmap string A :=
  foldl (λ m key, if used m key then m else delete key m) m (go_range m).*1.
Definition has_value {A} (p : A → bool) (m : gmap string A) : bool :=
  existsb (λ kv, p kv.2) (map_to_list m).

(** Identifiers of the increments of each interval. *)
Definition charged_ids (ec : EventCost) : M (list (string * list string)) :=
  visit (λ ids l,
    cIl ← interval l;
    accs ← visit (λ accs p, cIt ← increment p; mret (accs ++ [cit_AccountingID cIt])) []
             (cil_Increments cIl);
    mret (ids ++ [(cil_RatingID cIl, accs)])) [] (ec_Charges ec).

Definition stale_removed (ids : list (string * list string)) (ec : EventCost) : EventCost :=
  let rating := remove_unused (λ _ key,
    existsb (λ cIl, bool_decide (cIl.1 = key)) ids ||
    has_value (λ bc, bool_decide (bc_RatingID bc = key)) (ec_Accounting ec)) (ec_Rating ec) in
  let accounting := remove_unused (λ accounting key,
    existsb (λ cIl : string * list string, bool_decide (key ∈ cIl.2) ||
      has_value (λ bc, bool_decide (bc_ExtraChargeID bc = key)) accounting) ids) (ec_Accounting ec) in
  let referred {A} (f : RatingUnit → string) (_ : gmap string A) (key : string) :=
    has_value (λ ru, bool_decide (f ru = key)) rating in
  let filters := remove_unused (referred run_RatingFiltersID) (ec_RatingFilters ec) in
  let rates := remove_unused (referred run_RatesID) (ec_Rates ec) in
  (** the rates are removed that have the name of an unused timing *)
  let rates := foldl (λ rates key,
    if referred run_TimingID (ec_Timings ec) key then rates else delete key rates)
    rates (go_range (ec_Timings ec)).*1 in
  ec_set_maps rating accounting filters rates (ec_Timings ec) ec.
Definition RemoveStaleReferences (e : nat) : M () :=
  ec ← event_cost e; ids ← charged_ids ec; change_ec e (stale_removed ids).

(** ** Copies *)

Definition AccountSummary_Clone (s : option AccountSummary) : res AccountSummary := deref s.

Definition EventCost_Clone (e : nat) : M nat :=
  ec ← event_cost e;
  charges ← visit (λ ls l, l' ← ChargingInterval_Clone l; mret (ls ++ [l'])) [] (ec_Charges ec);
  new_ec (mkEventCost (ec_CGRID ec) (ec_RunID ec) (ec_StartTime ec) (ec_Usage ec) (ec_Cost ec)
    charges (ec_AccountSummary ec) (ec_Rating ec) (ec_Accounting ec) (ec_RatingFilters ec)
    (RateGroups_Clone <$> ec_Rates ec) (ec_Timings ec)).

(** ** Cutting

    [Trim] keeps the usage asked for, rounded up to whole increments, and returns the rest
    as another event cost. *)

(** The first interval that reaches the usage. *)
Fixpoint find_active (e : nat) (atUsage : Z) (i : nat) (charges : list nat) : M (option nat) :=
  match charges with
  | [] => mret None
  | l :: charges =>
      cIl ← interval l;
      _ ← (if cil_ecUsageIdx cIl is Some _ then mret () else ComputeEventCostUsageIndexes e);
      _ ← (if cil_usage cIl is Some _ then mret 0 else GetUsage e);
      cIl ← interval l;
      idx ← lift (deref (cil_ecUsageIdx cIl));
      total ← ChargingInterval_TotalUsage l;
      if atUsage <=? add64 idx total then mret (Some i)
      else find_active e atUsage (S i) charges
  end.

(** The number of repetitions, from [cnt] on, that is enough; 0 when none of them is. *)
Fixpoint enough (test : Z → bool) (cnt : Z) (n : nat) : Z :=
  match n with
  | O => 0
  | S n' => if test cnt then cnt else enough test (cnt + 1) n'
  end.

(** The repetitions of the last interval that are not needed go to the surplus. *)
Definition trim_repetitions (e s l : nat) (atUsage : Z) : M () :=
  total ← ChargingInterval_TotalUsage l;
  cIl ← interval l;
  idx ← lift (deref (cil_ecUsageIdx cIl));
  usage ← lift (deref (cil_usage cIl));
  let CF := cil_CompressFactor cIl in
  if negb (CF =? 1) && (atUsage <? add64 idx total) then
    let laCF := enough (λ cnt, atUsage <=? add64 idx (mul64 usage cnt)) 1 (Z.to_nat CF) in
    if laCF =? 0 then fails "cannot detect last active CompressFactor in ChargingInterval"
    else if laCF =? CF then mret ()
    else
      srplsCIl ← ChargingInterval_Clone l;
      _ ← change_interval srplsCIl (cil_set_CompressFactor (sub64 CF laCF));
      _ ← change_ec s (λ ec, ec_set_Charges (srplsCIl :: ec_Charges ec) ec);
      _ ← change_interval l (cil_set_CompressFactor laCF);
      change_ec e (ec_set_counters None None)
  else mret ().

(** The first increment that reaches the usage, and the usage up to its end. *)
Fixpoint find_increment (atUsage : Z) (i : nat) (usage : Z) (incs : list nat)
    : M (option (nat * nat * Z)) :=
  match incs with
  | [] => mret None
  | p :: incs =>
      cIt ← increment p;
      let usage := add64 usage (ChargingIncrement_TotalUsage cIt) in
      if atUsage <=? usage then mret (Some (i, p, usage)) else find_increment atUsage (S i) usage incs
  end.

(** An interval that is repeated is cut in its last repetition, which becomes an interval
    of its own. *)
Definition last_repetition (e l : nat) : M nat :=
  cIl ← interval l;
  if decide (1 < cil_CompressFactor cIl) then
    _ ← change_interval l (cil_set_CompressFactor (cil_CompressFactor cIl - 1));
    l' ← ChargingInterval_Clone l;
    _ ← change_ec e (λ ec, ec_set_Charges (ec_Charges ec ++ [l']) (ec_set_counters None None ec));
    _ ← change_interval l' (cil_set_CompressFactor 1);
    mret l'
  else mret l.

(** An interval is cut between its increments, or between the repetitions of one of them. *)
Definition cut_increments (e s l : nat) (kept surplus : list nat) (laItCF : Z) : M () :=
  srplsCIl ← ChargingInterval_Clone l;
  _ ← change_interval srplsCIl (cil_set_Increments surplus);
  _ ← change_ec s (λ ec, ec_set_Charges (srplsCIl :: ec_Charges ec) ec);
  incs ← clone_increments kept;
  _ ← change_interval l (cil_set_Increments incs);
  if laItCF =? 0 then mret ()
  else
    p ← lift (deref (last incs));
    _ ← change_increment p (cit_set_CompressFactor laItCF);
    change_ec e (ec_set_counters None None).

Definition cut_interval (e s l : nat) (kept surplus : list nat) (laItCF : Z) : M () :=
  l ← last_repetition e l; cut_increments e s l kept surplus laItCF.

(** The repetitions of the last increment that are not needed go before the surplus. *)
Definition divide_repetitions (atUsage incrementsUsage : Z) (lastIncrement : ChargingIncrement)
    (surplus : list nat) : M (Z * list nat) :=
  let CF := cit_CompressFactor lastIncrement in
  if negb (CF =? 1) && negb (atUsage =? incrementsUsage) then
    let before := sub64 incrementsUsage (ChargingIncrement_TotalUsage lastIncrement) in
    let laItCF := enough (λ cnt, atUsage <=? add64 before (mul64 (cit_Usage lastIncrement) cnt))
                    1 (Z.to_nat CF) in
    if laItCF =? 0 then fails "cannot detect last active CompressFactor in ChargingIncrement"
    else if laItCF =? CF then mret (laItCF, surplus)
    else
      p' ← new_increment (cit_set_CompressFactor (sub64 CF laItCF) lastIncrement);
      mret (laItCF, p' :: surplus)
  else mret (0, surplus).

Definition trim_increments (e s l : nat) (atUsage : Z) : M () :=
  cIl ← interval l;
  found ← find_increment atUsage 0 0 (cil_Increments cIl);
  match found with
  | None => fails "no active increment found"
  | Some (i, p, incrementsUsage) =>
      lastIncrement ← increment p;
      let CF := cit_CompressFactor lastIncrement in
      if CF =? 0 then fails "empty compress factor in increment"
      else
        let kept := take (S i) (cil_Increments cIl) in
        let surplus := drop (S i) (cil_Increments cIl) in
        _ ← (if decide (surplus = []) then mret () else change_ec e (ec_set_counters None None));
        '(laItCF, surplus) ← divide_repetitions atUsage incrementsUsage lastIncrement surplus;
        if decide (surplus = []) then mret () else cut_interval e s l kept surplus laItCF
  end.

(** The identifiers of the surplus become its own. *)
Definition adopt_references (s e : nat) : M () :=
  ec ← event_cost s;
  visit (λ _ l,
    cIl ← interval l;
    id ← ratingGetIDFomEventCost s e (cil_RatingID cIl);
    _ ← change_interval l (cil_set_RatingID id);
    visit (λ _ p,
      incr ← increment p;
      id ← accountingGetIDFromEventCost s e (cit_AccountingID incr);
      change_increment p (cit_set_AccountingID id)) () (cil_Increments cIl)) () (ec_Charges ec).

Definition trim_all (e : nat) : M (option nat) :=
  s ← EventCost_Clone e;
  srplus ← event_cost s;
  summary ← lift (AccountSummary_Clone (ec_AccountSummary srplus));
  _ ← change_ec e (λ _, mkEventCost (ec_CGRID srplus) (ec_RunID srplus) (ec_StartTime srplus)
        None None [] (Some summary) ∅ ∅ ∅ ∅ ∅);
  mret (Some s).

(** What is checked and settled when both parts have their intervals. *)
Definition trim_finish (e s : nat) (origECUsage atUsage : Z) : M (option nat) :=
  _ ← ResetCounters e;
  usage ← GetUsage e;
  if usage <? atUsage then fails "usage of EventCost smaller than requested"
  else
    _ ← ResetCounters s;
    ec ← event_cost e;
    _ ← change_ec s (ec_set_StartTime (Add (ec_StartTime ec) usage));
    srplsUsage ← GetUsage s;
    if sub64 origECUsage atUsage <? srplsUsage then fails "surplus EventCost too big"
    else
      _ ← adopt_references s e;
      _ ← RemoveStaleReferences e;
      mret (Some s).

Definition Trim (e : nat) (atUsage : Z) : M (option nat) :=
  origECUsage ← GetUsage e;
  if origECUsage <=? atUsage then mret None
  else if atUsage =? 0 then trim_all e
  else
    ec ← event_cost e;
    summary ← lift (AccountSummary_Clone (ec_AccountSummary ec));
    s ← new_ec (mkEventCost (ec_CGRID ec) (ec_RunID ec) (ec_StartTime ec) None None [] (Some summary)
          ∅ ∅ ∅ ∅ ∅);
    found ← find_active e atUsage 0 (ec_Charges ec);
    match found with
    | None => fails "cannot find last active ChargingInterval"
    | Some i =>
        l ← lift (deref (ec_Charges ec !! i));
        cIl ← interval l;
        idx ← lift (deref (cil_ecUsageIdx cIl));
        if atUsage <=? idx then fails "failed detecting last active ChargingInterval"
        else if cil_CompressFactor cIl =? 0 then fails "ChargingInterval with 0 compressFactor"
        else
          _ ← change_ec s (ec_set_Charges (drop (S i) (ec_Charges ec)));
          _ ← change_ec e (λ ec, ec_set_Charges (take (S i) (ec_Charges ec)) (ec_set_counters None None ec));
          _ ← trim_repetitions e s l atUsage;
          usage ← GetUsage e;
          if atUsage =? usage then trim_finish e s origECUsage atUsage
          else
            last ← ChargingInterval_Usage l;
            let atUsage := sub64 atUsage (sub64 usage last) in
            _ ← trim_increments e s l atUsage;
            trim_finish e s origECUsage atUsage
    end.
End eventcost.
