(* ===== verification/EventCostTrim.v ===== *)
(** * Cutting the cost of an event

    [EventCost.Trim] divides what an event was charged: the units of usage, in their order,
    stay with the event up to the usage asked for and go to the surplus from there on.
    The proof looks at the store through the contents of the intervals. *)
From S2P Require Import Prelude GoFloat GoStrings GoTime CoreUtils Values RateInterval TimeSpans CallDescriptor RatingProfile CallCost Stateful Balances Accounts EventCost.

(** ** Contents

    What an interval charges: usage, cost and count of each increment, and the count of
    repetitions of the whole. *)
Definition incr_data : Type := Z * float64 * Z.
Definition content : Type := list incr_data * Z.

Definition cit_data (c : ChargingIncrement) : incr_data :=
  (cit_Usage c, cit_Cost c, cit_CompressFactor c).
Definition data_of (st : ECState) (ps : list nat) : option (list incr_data) :=
  mapM (λ p, cit_data <$> es_cits st !! p) ps.
Definition content_of (st : ECState) (l : nat) : option content :=
  c ← es_cils st !! l;
  ds ← data_of st (cil_Increments c);
  Some (ds, cil_CompressFactor c).
Definition contents_of (st : ECState) (ls : list nat) : option (list content) :=
  mapM (content_of st) ls.

Definition dsize (ds : list incr_data) : Z := foldr (λ d z, d.1.1 * d.2 + z) 0 ds.
Definition csize (c : content) : Z := dsize c.1 * c.2.
Definition csum (cs : list content) : Z := foldr (λ c z, csize c + z) 0 cs.

Definition ok_data (d : incr_data) : Prop := 0 ≤ d.1.1 ∧ 1 ≤ d.2 ≤ max_int64.
Definition ok_content (c : content) : Prop := Forall ok_data c.1 ∧ 1 ≤ c.2 ≤ max_int64.
#[export] Instance ok_data_dec d : Decision (ok_data d).
Proof. unfold ok_data. apply _. Defined.
#[export] Instance ok_content_dec c : Decision (ok_content c).
Proof. unfold ok_content. apply _. Defined.

(** The units of usage with their costs, one after the other. *)
Definition units_of_data (ds : list incr_data) : list (Z * float64) :=
  ds ≫= λ d, replicate (Z.to_nat d.2) d.1.
Definition units_of_content (c : content) : list (Z * float64) :=
  concat (replicate (Z.to_nat c.2) (units_of_data c.1)).
Definition units (cs : list content) : list (Z * float64) := cs ≫= units_of_content.
Definition usage_of (us : list (Z * float64)) : Z := foldr (λ u z, u.1 + z) 0 us.

Lemma dsize_app a b : dsize (a ++ b) = dsize a + dsize b.
Proof. induction a as [|d a IH]; simpl; lia. Qed.
Lemma csum_app a b : csum (a ++ b) = csum a + csum b.
Proof. induction a as [|d a IH]; simpl; lia. Qed.
Lemma usage_of_app a b : usage_of (a ++ b) = usage_of a + usage_of b.
Proof. induction a as [|d a IH]; simpl; lia. Qed.
Lemma units_app a b : units (a ++ b) = units a ++ units b.
Proof. apply bind_app. Qed.
Lemma units_of_data_app a b : units_of_data (a ++ b) = units_of_data a ++ units_of_data b.
Proof. apply bind_app. Qed.

Lemma dsize_nonneg ds : Forall ok_data ds → 0 ≤ dsize ds.
Proof. induction 1 as [|d ds [] _ IH]; simpl; nia. Qed.
Lemma csize_bound c : ok_content c → 0 ≤ dsize c.1 ≤ csize c.
Proof. intros [Hd Hk]. pose proof (dsize_nonneg _ Hd). unfold csize. nia. Qed.
Lemma csum_nonneg cs : Forall ok_content cs → 0 ≤ csum cs.
Proof. induction 1 as [|c cs Hc _ IH]; simpl; [lia|]. pose proof (csize_bound c Hc). lia. Qed.
Lemma csum_elem cs i c : Forall ok_content cs → cs !! i = Some c → 0 ≤ dsize c.1 ≤ csize c ∧ csize c ≤ csum cs.
Proof.
  intros Hcs Hi. pose proof (Forall_lookup_1 _ _ _ _ Hcs Hi) as Hc.
  pose proof (csize_bound c Hc) as Hb. split; [done|].
  rewrite <- (take_drop_middle cs i c Hi), csum_app. simpl.
  pose proof (csum_nonneg _ (Forall_take _ i _ Hcs)).
  pose proof (csum_nonneg _ (Forall_drop _ (S i) _ Hcs)). lia.
Qed.
Lemma csum_take_S cs i c : cs !! i = Some c → csum (take (S i) cs) = csum (take i cs) + csize c.
Proof. intros Hi. rewrite (take_S_r _ _ _ Hi), csum_app. simpl. lia. Qed.
Lemma csum_take cs i : Forall ok_content cs → 0 ≤ csum (take i cs) ≤ csum cs.
Proof.
  intros Hcs. rewrite <- (take_drop i cs) at 3. rewrite csum_app.
  pose proof (csum_nonneg _ (Forall_take _ i _ Hcs)).
  pose proof (csum_nonneg _ (Forall_drop _ i _ Hcs)). lia.
Qed.

Lemma usage_replicate n u : usage_of (replicate n u) = u.1 * Z.of_nat n.
Proof. induction n as [|n IH]; simpl; lia. Qed.
Lemma usage_units_of_data ds : Forall ok_data ds → usage_of (units_of_data ds) = dsize ds.
Proof.
  induction 1 as [|d ds [] _ IH]; [done|]. unfold units_of_data in *.
  rewrite bind_cons, usage_of_app, IH, usage_replicate. simpl. lia.
Qed.
Lemma usage_concat_replicate n us :
  usage_of (concat (replicate n us)) = usage_of us * Z.of_nat n.
Proof. induction n as [|n IH]; simpl; [lia|]. rewrite usage_of_app, IH. lia. Qed.
Lemma usage_units cs : Forall ok_content cs → usage_of (units cs) = csum cs.
Proof.
  induction 1 as [|c cs [Hd Hk] _ IH]; [done|]. unfold units in *. rewrite bind_cons, usage_of_app, IH.
  unfold units_of_content. rewrite usage_concat_replicate, usage_units_of_data by done.
  unfold csum, csize. simpl. lia.
Qed.

(** Repetitions and counts can be divided. *)
Lemma units_split_repetitions ds a b :
  0 ≤ a → 0 ≤ b → units [(ds, a + b)] = units [(ds, a)] ++ units [(ds, b)].
Proof.
  intros Ha Hb. unfold units. simpl. rewrite !app_nil_r. unfold units_of_content. simpl.
  by rewrite Z2Nat.inj_add, replicate_add, concat_app by lia.
Qed.
Lemma units_once ds : units [(ds, 1)] = units_of_data ds.
Proof. unfold units. simpl. rewrite app_nil_r. unfold units_of_content. simpl. by rewrite app_nil_r. Qed.
Lemma units_split_count u c a b :
  0 ≤ a → 0 ≤ b →
  units_of_data [(u, c, a + b)] = units_of_data [(u, c, a)] ++ units_of_data [(u, c, b)].
Proof.
  intros Ha Hb. unfold units_of_data. simpl. rewrite !app_nil_r.
  by rewrite Z2Nat.inj_add, replicate_add by lia.
Qed.

(** ** Reading the store *)

Lemma bind_interval {B} st l c (f : ChargingInterval → SM ECState B) Q :
  es_cils st !! l = Some c → returns (f c) Q st → returns (interval l ≫= f) Q st.
Proof. intros Hl Hf. unfold returns, mbind, SM_bind, interval. by rewrite Hl. Qed.
Lemma bind_increment {B} st p c (f : ChargingIncrement → SM ECState B) Q :
  es_cits st !! p = Some c → returns (f c) Q st → returns (increment p ≫= f) Q st.
Proof. intros Hp Hf. unfold returns, mbind, SM_bind, increment. by rewrite Hp. Qed.
Lemma bind_event_cost {B} st e ec (f : EventCost → SM ECState B) Q :
  es_ecs st !! e = Some ec → returns (f ec) Q st → returns (event_cost e ≫= f) Q st.
Proof. intros He Hf. unfold returns, mbind, SM_bind, event_cost. by rewrite He. Qed.
Lemma bind_lift {A B} (m : res A) a st (f : A → SM ECState B) Q :
  m = Ok a → returns (f a) Q st → returns (lift m ≫= f) Q st.
Proof. by intros ->. Qed.

Lemma data_of_lookup st ps ds i p :
  data_of st ps = Some ds → ps !! i = Some p →
  ∃ c, es_cits st !! p = Some c ∧ ds !! i = Some (cit_data c).
Proof.
  intros Hds%mapM_Some Hp. destruct (Forall2_lookup_l _ _ _ _ _ Hds Hp) as (d & Hd & Hc).
  destruct (es_cits st !! p) as [c|]; [|done]. injection Hc as <-. eauto.
Qed.
Lemma data_of_cons st p c ps ds :
  es_cits st !! p = Some c → data_of st ps = Some ds → data_of st (p :: ps) = Some (cit_data c :: ds).
Proof.
  intros Hp Hds. apply mapM_Some. constructor; [by rewrite Hp|]. by apply mapM_Some.
Qed.
Lemma data_of_length st ps ds : data_of st ps = Some ds → length ds = length ps.
Proof. intros Hds%mapM_Some. symmetry. by eapply Forall2_length. Qed.
Lemma content_of_Some st l ds k :
  content_of st l = Some (ds, k) ↔
  ∃ c, es_cils st !! l = Some c ∧ data_of st (cil_Increments c) = Some ds ∧
       cil_CompressFactor c = k.
Proof.
  unfold content_of. split.
  - intros (c & Hc & (ds' & Hds & [= -> <-])%bind_Some)%bind_Some. eauto.
  - intros (c & -> & Hds & <-). simpl. by rewrite Hds.
Qed.
Lemma contents_of_lookup st ls cs i l :
  contents_of st ls = Some cs → ls !! i = Some l → ∃ c, cs !! i = Some c ∧ content_of st l = Some c.
Proof.
  intros Hcs%mapM_Some Hl. destruct (Forall2_lookup_l _ _ _ _ _ Hcs Hl) as (c & ? & ?). eauto.
Qed.
Lemma contents_of_length st ls cs : contents_of st ls = Some cs → length cs = length ls.
Proof. intros Hcs%mapM_Some. symmetry. by eapply Forall2_length. Qed.

(** Increments and intervals keep what they charge, events what the cost counters do not
    hold. *)
Definition core (c : ChargingInterval) : string * list nat * Z :=
  (cil_RatingID c, cil_Increments c, cil_CompressFactor c).
Definition ec_core (ec : EventCost) : EventCost := ec_set_counters None None ec.

Record kept (st st' : ECState) : Prop := {
  kept_cits : es_cits st' = es_cits st;
  kept_cils l : core <$> es_cils st' !! l = core <$> es_cils st !! l;
  kept_ecs e : ec_core <$> es_ecs st' !! e = ec_core <$> es_ecs st !! e }.
#[export] Instance kept_preorder : PreOrder kept.
Proof.
  split; [by constructor|]. intros st1 st2 st3 [H1 H2 H3] [H1' H2' H3'].
  constructor; intros; [by rewrite H1'|by rewrite H2'|by rewrite H3'].
Qed.

Lemma kept_content st st' l : kept st st' → content_of st' l = content_of st l.
Proof.
  intros [Hp Hl _]. specialize (Hl l). unfold content_of.
  destruct (es_cils st' !! l) as [c'|], (es_cils st !! l) as [c|]; try done.
  injection Hl as _ Hi Hk. simpl. unfold data_of. by rewrite Hp, Hi, Hk.
Qed.
Lemma kept_contents st st' ls : kept st st' → contents_of st' ls = contents_of st ls.
Proof.
  intros Hk. unfold contents_of. induction ls as [|l ls IH]; [done|]. simpl.
  by rewrite (kept_content _ _ _ Hk), IH.
Qed.

(** ** Sums of usage *)

(** The caches of an event cost are right. *)
Record sane (st : ECState) (e : nat) (ec : EventCost) (cs : list content) : Prop := {
  sane_ec : ec_core <$> es_ecs st !! e = Some (ec_core ec);
  sane_contents : contents_of st (ec_Charges ec) = Some cs;
  sane_ok : Forall ok_content cs;
  sane_max : csum cs ≤ max_int64;
  sane_usage u : es_ecs st !! e ≫= ec_Usage = Some u → u = csum cs;
  sane_caches i l (c : content) u :
    ec_Charges ec !! i = Some l → cs !! i = Some c → es_cils st !! l ≫= cil_usage = Some u →
    u = dsize c.1 }.

Definition idx_of (st : ECState) (l : nat) : option Z := es_cils st !! l ≫= cil_ecUsageIdx.
Definition same_idx (st st' : ECState) : Prop := ∀ l, idx_of st' l = idx_of st l.
#[export] Instance same_idx_preorder : PreOrder same_idx.
Proof. split; [by intros ??|]. intros s1 s2 s3 H1 H2 l. by rewrite H2, H1. Qed.

(** What operations that only fill caches do. *)
Definition fills (e : nat) (ec : EventCost) (cs : list content) (st st' : ECState) : Prop :=
  kept st st' ∧ sane st' e ec cs ∧ same_idx st st'.

Lemma fills_trans e ec cs st1 st2 st3 :
  fills e ec cs st1 st2 → fills e ec cs st2 st3 → fills e ec cs st1 st3.
Proof. intros (? & ? & ?) (? & ? & ?). split_and!; [by etrans|done|by etrans]. Qed.
Lemma fills_refl e ec cs st : sane st e ec cs → fills e ec cs st st.
Proof. by split. Qed.

Lemma sum_of_increments st ps ds :
  data_of st ps = Some ds → Forall ok_data ds → dsize ds ≤ max_int64 →
  returns (visit (λ usage p, incr ← increment p;
                   mret (add64 usage (ChargingIncrement_TotalUsage incr))) 0 ps)
    (λ u st', u = dsize ds ∧ st' = st) st.
Proof.
  intros Hds Hok Hmax.
  apply returns_visit with (I := λ done u st', st' = st ∧ u = dsize (take (length done) ds)).
  - done.
  - intros done p rest u st' -> [-> ->].
    destruct (data_of_lookup _ _ _ (length done) p Hds) as (c & Hc & Hd); [by apply list_lookup_middle|].
    eapply bind_increment; [done|]. apply returns_ret. split; [done|].
    rewrite length_app. simpl. rewrite Nat.add_1_r, (take_S_r _ _ _ Hd), dsize_app. simpl.
    pose proof (dsize_nonneg _ (Forall_take _ (length done) _ Hok)) as Hn.
    pose proof (dsize_nonneg _ (Forall_drop _ (S (length done)) _ Hok)) as Hn'.
    destruct (Forall_lookup_1 _ _ _ _ Hok Hd) as [Hu Hk].
    rewrite <- (take_drop_middle _ _ _ Hd), dsize_app in Hmax. simpl in Hmax, Hu, Hk.
    unfold ChargingIncrement_TotalUsage. unfold max_int64 in Hmax.
    rewrite mul64_id, add64_id; unfold int64_range, min_int64, max_int64; nia.
  - intros u st' [-> ->]. by rewrite take_ge by (rewrite (data_of_length _ _ _ Hds); lia).
Qed.

(** The states after an assignment. *)
Definition at_interval (l : nat) (f : ChargingInterval → ChargingInterval) (st : ECState) : ECState :=
  mkECState (es_ecs st) (alter f l (es_cils st)) (es_cits st) (es_uuids st).
Definition at_ec (e : nat) (f : EventCost → EventCost) (st : ECState) : ECState :=
  mkECState (alter f e (es_ecs st)) (es_cils st) (es_cits st) (es_uuids st).
Definition at_increment (p : nat) (f : ChargingIncrement → ChargingIncrement) (st : ECState)
    : ECState :=
  mkECState (es_ecs st) (es_cils st) (alter f p (es_cits st)) (es_uuids st).
Lemma change_interval_at l f st : change_interval l f st = (Ok tt, at_interval l f st).
Proof. done. Qed.
Lemma bind_change_interval {B} l f st (g : () → SM ECState B) Q :
  returns (g tt) Q (at_interval l f st) → returns (change_interval l f ≫= g) Q st.
Proof. done. Qed.
Lemma bind_change_ec {B} e f st (g : () → SM ECState B) Q :
  returns (g tt) Q (at_ec e f st) → returns (change_ec e f ≫= g) Q st.
Proof. done. Qed.
Lemma bind_change_increment {B} p f st (g : () → SM ECState B) Q :
  returns (g tt) Q (at_increment p f st) → returns (change_increment p f ≫= g) Q st.
Proof. done. Qed.

Lemma kept_at_interval l f st : (∀ c, core (f c) = core c) → kept st (at_interval l f st).
Proof.
  intros Hf. constructor; simpl; [done| |done]. intros l'. rewrite list_lookup_alter.
  case_decide as Hd; [subst|done]. destruct (es_cils st !! l') as [c|]; simpl; [by rewrite Hf|done].
Qed.
Lemma kept_at_ec e f st : (∀ ec, ec_core (f ec) = ec_core ec) → kept st (at_ec e f st).
Proof.
  intros Hf. constructor; simpl; [done|done|]. intros e'. rewrite list_lookup_alter.
  case_decide as Hd; [subst|done]. destruct (es_ecs st !! e') as [c|]; simpl; [by rewrite Hf|done].
Qed.

Lemma sane_lookup st e ec cs i l :
  sane st e ec cs → ec_Charges ec !! i = Some l →
  ∃ c cil, cs !! i = Some c ∧ content_of st l = Some c ∧ es_cils st !! l = Some cil ∧
    data_of st (cil_Increments cil) = Some c.1 ∧ cil_CompressFactor cil = c.2.
Proof.
  intros Hs Hl. destruct (contents_of_lookup _ _ _ _ _ (sane_contents _ _ _ _ Hs) Hl) as ([ds k] & Hi & Hc).
  destruct (proj1 (content_of_Some _ _ _ _) Hc) as (cil & ? & ? & ?). eauto 10.
Qed.

(** An assignment to a cache that keeps it right. *)
Lemma sane_at_interval st e ec cs l f :
  sane st e ec cs → (∀ c, core (f c) = core c) →
  (∀ i (c : content) cil u, ec_Charges ec !! i = Some l → cs !! i = Some c →
     es_cils st !! l = Some cil → cil_usage (f cil) = Some u → u = dsize c.1) →
  sane (at_interval l f st) e ec cs.
Proof.
  intros Hs Hf Hu. pose proof (kept_at_interval l f st Hf) as Hk. destruct Hs. constructor; try done.
  - by rewrite (kept_contents _ _ _ Hk).
  - intros i l' c u Hl' Hc. simpl. rewrite list_lookup_alter. case_decide as Hd; [subst l'|eauto].
    destruct (es_cils st !! l) as [cil|] eqn:E; simpl; [|done]. by eapply Hu.
Qed.
Lemma fills_at_interval st e ec cs l f :
  sane st e ec cs → (∀ c, core (f c) = core c) →
  (∀ cil, es_cils st !! l = Some cil → cil_ecUsageIdx (f cil) = cil_ecUsageIdx cil) →
  (∀ i (c : content) cil u, ec_Charges ec !! i = Some l → cs !! i = Some c →
     es_cils st !! l = Some cil → cil_usage (f cil) = Some u → u = dsize c.1) →
  fills e ec cs st (at_interval l f st).
Proof.
  intros Hs Hf Hidx Hu.
  split_and!; [by apply kept_at_interval|by apply sane_at_interval|]. intros l'. unfold idx_of. simpl.
  rewrite list_lookup_alter. case_decide; [subst|done].
  destruct (es_cils st !! l') as [cil|]; simpl; [by apply Hidx|done].
Qed.

Lemma returns_Usage st e ec cs i l (c : content) :
  sane st e ec cs → ec_Charges ec !! i = Some l → cs !! i = Some c →
  returns (ChargingInterval_Usage l) (λ u st', u = dsize c.1 ∧ fills e ec cs st st' ∧
    es_cils st' !! l ≫= cil_usage = Some u) st.
Proof.
  intros Hs Hl Hc. destruct (sane_lookup _ _ _ _ _ _ Hs Hl) as (c' & cil & Hc' & _ & Hcil & Hds & Hk).
  assert (c' = c) as -> by congruence.
  unfold ChargingInterval_Usage. eapply bind_interval; [done|].
  destruct (cil_usage cil) as [u|] eqn:Hu.
  { apply returns_ret. assert (es_cils st !! l ≫= cil_usage = Some u) as Hu' by by rewrite Hcil.
    split_and!; [by eapply sane_caches|by apply fills_refl|done]. }
  destruct (csum_elem _ _ _ (sane_ok _ _ _ _ Hs) Hc) as [Hb Hb'].
  pose proof (sane_max _ _ _ _ Hs) as Hm.
  destruct (Forall_lookup_1 _ _ _ _ (sane_ok _ _ _ _ Hs) Hc) as [Hok _].
  eapply returns_seq; [apply (sum_of_increments _ _ _ Hds Hok); lia|].
  intros u st' [-> ->]. apply bind_change_interval, returns_ret. split_and!; [done| |].
  - apply fills_at_interval; [done..|]. intros i' c' cil' u Hi' Hci' Hcil' [= <-].
    destruct (sane_lookup _ _ _ _ _ _ Hs Hi') as (c'' & cil'' & Hc'' & _ & Hcil'' & Hds' & _).
    assert (c'' = c') as -> by congruence. assert (cil'' = cil) as -> by congruence. congruence.
  - simpl. by rewrite list_lookup_alter_eq, Hcil.
Qed.

Lemma returns_TotalUsage st e ec cs i l (c : content) :
  sane st e ec cs → ec_Charges ec !! i = Some l → cs !! i = Some c →
  returns (ChargingInterval_TotalUsage l) (λ u st', u = csize c ∧ fills e ec cs st st' ∧
    es_cils st' !! l ≫= cil_usage = Some (dsize c.1)) st.
Proof.
  intros Hs Hl Hc. unfold ChargingInterval_TotalUsage.
  eapply returns_seq; [by eapply returns_Usage|]. intros u st' (-> & (Hk & Hs' & Hi) & Hu).
  destruct (sane_lookup _ _ _ _ _ _ Hs' Hl) as (c' & cil & Hc' & _ & Hcil & _ & Hcf).
  eapply bind_interval; [done|]. assert (c' = c) as -> by congruence. rewrite Hcf.
  apply returns_ret. split_and!; [|by split_and!|done].
  destruct (csum_elem _ _ _ (sane_ok _ _ _ _ Hs) Hc) as [Hb Hb'].
  pose proof (sane_max _ _ _ _ Hs). unfold csize in *.
  apply mul64_id. unfold int64_range, min_int64, max_int64 in *. lia.
Qed.

Lemma returns_GetUsage st e ec cs :
  sane st e ec cs →
  returns (GetUsage e) (λ u st', u = csum cs ∧ fills e ec cs st st' ∧
    es_ecs st' !! e ≫= ec_Usage = Some u) st.
Proof.
  intros Hs. pose proof (sane_ec _ _ _ _ Hs) as He.
  destruct (es_ecs st !! e) as [ec'|] eqn:Hec; [|done]. injection He as He.
  unfold GetUsage. eapply bind_event_cost; [done|].
  destruct (ec_Usage ec') as [u|] eqn:Hu.
  { apply returns_ret. assert (es_ecs st !! e ≫= ec_Usage = Some u) as Hu' by by rewrite Hec.
    split_and!; [by eapply sane_usage|by apply fills_refl|done]. }
  assert (ec_Charges ec' = ec_Charges ec) as -> by by inversion He.
  pose proof (sane_max _ _ _ _ Hs) as Hm. pose proof (sane_ok _ _ _ _ Hs) as Hok.
  eapply returns_seq.
  { apply returns_visit with
      (I := λ done u st', u = csum (take (length done) cs) ∧ fills e ec cs st st')
      (Q := λ u st', u = csum cs ∧ fills e ec cs st st').
    - split; [done|by apply fills_refl].
    - intros done l rest u st' Hl [-> (Hk & Hs' & Hi)].
      assert (ec_Charges ec !! length done = Some l) as Hli by (rewrite Hl; by apply list_lookup_middle).
      destruct (sane_lookup _ _ _ _ _ _ Hs' Hli) as (c & cil & Hc & _).
      eapply returns_seq; [by eapply returns_TotalUsage|]. intros u st1 (-> & Hf & _).
      apply returns_ret. split; [|by eapply fills_trans].
      rewrite length_app. simpl. rewrite Nat.add_1_r, (csum_take_S _ _ _ Hc).
      pose proof (csum_take cs (length done) Hok). pose proof (csum_take cs (S (length done)) Hok) as Hb.
      rewrite (csum_take_S _ _ _ Hc) in Hb. apply add64_id.
      destruct (csum_elem _ _ _ Hok Hc).
      unfold int64_range, min_int64, max_int64 in *. lia.
    - intros u st' [-> Hf]. split; [|done].
      by rewrite take_ge by (rewrite (contents_of_length _ _ _ (sane_contents _ _ _ _ Hs)); lia). }
  intros u st' (-> & Hk & Hs' & Hi).
  assert (kept st' (at_ec e (λ ec, ec_set_counters (Some (csum cs)) (ec_Cost ec) ec) st')) as Hk'
    by by apply kept_at_ec.
  apply bind_change_ec, returns_ret. split_and!; [done| |].
  - split_and!; [by etrans| |done]. destruct Hs'. constructor; try done.
    + by rewrite (kept_ecs _ _ Hk').
    + intros u. simpl. rewrite list_lookup_alter_eq.
      destruct (es_ecs st' !! e); simpl; [by intros [= <-]|done].
  - simpl. rewrite list_lookup_alter_eq. pose proof (sane_ec _ _ _ _ Hs') as He'.
    by destruct (es_ecs st' !! e).
Qed.

(** ** Indexes and the last active interval *)

Definition idx_ok (st : ECState) (ls : list nat) (cs : list content) : Prop :=
  ∀ i l x, ls !! i = Some l → idx_of st l = Some x → x = csum (take i cs).

Lemma returns_indexes st e ec cs :
  sane st e ec cs → NoDup (ec_Charges ec) → idx_ok st (ec_Charges ec) cs →
  returns (ComputeEventCostUsageIndexes e) (λ _ st', kept st st' ∧ sane st' e ec cs ∧
    ∀ i l, ec_Charges ec !! i = Some l → idx_of st' l = Some (csum (take i cs))) st.
Proof.
  intros Hs Hnd Hix. pose proof (sane_ec _ _ _ _ Hs) as He.
  destruct (es_ecs st !! e) as [ec'|] eqn:Hec; [|done]. injection He as He.
  unfold ComputeEventCostUsageIndexes. eapply bind_event_cost; [done|].
  assert (ec_Charges ec' = ec_Charges ec) as -> by by inversion He.
  pose proof (sane_max _ _ _ _ Hs) as Hm. pose proof (sane_ok _ _ _ _ Hs) as Hok.
  eapply returns_seq; [|intros total st' HQ; exact HQ].
  apply returns_visit with (I := λ done u st', u = csum (take (length done) cs) ∧
    kept st st' ∧ sane st' e ec cs ∧ idx_ok st' (ec_Charges ec) cs ∧
    ∀ i l, (i < length done)%nat → ec_Charges ec !! i = Some l →
      idx_of st' l = Some (csum (take i cs))).
  - split_and!; [done..|]. simpl. intros; lia.
  - intros done l rest u st' Hl (-> & Hk & Hs' & Hix' & Hdone).
    assert (ec_Charges ec !! length done = Some l) as Hli by (rewrite Hl; by apply list_lookup_middle).
    apply bind_change_interval.
    match goal with |- returns _ _ (at_interval l ?f st') => set (st1 := at_interval l f st') end.
    destruct (sane_lookup _ _ _ _ _ _ Hs' Hli) as (c & cil & Hc & _ & Hcil & _).
    assert (kept st' st1) as Hk1 by (apply kept_at_interval; intros x; by destruct (cil_ecUsageIdx x)).
    assert (sane st1 e ec cs) as Hs1.
    { apply sane_at_interval; [done|intros x; by destruct (cil_ecUsageIdx x)|].
      intros i c' cil' u Hi Hci Hcil'. destruct (cil_ecUsageIdx cil') eqn:E; simpl; intros Hu;
        (eapply (sane_caches _ _ _ _ Hs'); [done|done|by rewrite Hcil']). }
    assert (∀ l', idx_of st1 l' = if decide (l' = l) then Some (csum (take (length done) cs)) else idx_of st' l')
      as Hidx.
    { intros l'. unfold idx_of. simpl. rewrite list_lookup_alter. destruct (decide (l = l')) as [<-|];
        [rewrite decide_True by done|by rewrite decide_False].
      rewrite Hcil. simpl. destruct (cil_ecUsageIdx cil) as [x|] eqn:Ex; simpl; [|done].
      rewrite Ex. f_equal. apply (Hix' _ _ _ Hli). unfold idx_of. by rewrite Hcil. }
    eapply returns_seq; [by eapply (returns_TotalUsage st1)|].
    intros u st2 (-> & (Hk2 & Hs2 & Hi2) & _). apply returns_ret.
    assert (∀ i l', ec_Charges ec !! i = Some l' → l' = l → i = length done) as Hpos.
    { intros i l' Hi ->. by eapply NoDup_lookup. }
    split_and!; [|by etrans; [|etrans]|done| |].
    + rewrite length_app. simpl. rewrite Nat.add_1_r, (csum_take_S _ _ _ Hc).
      destruct (csum_elem _ _ _ Hok Hc). pose proof (csum_take cs (length done) Hok).
      pose proof (csum_take cs (S (length done)) Hok) as Hb. rewrite (csum_take_S _ _ _ Hc) in Hb.
      apply add64_id. unfold int64_range, min_int64, max_int64 in *. lia.
    + intros i l' x Hi. rewrite Hi2, Hidx. case_decide as Hd; [|by apply Hix'].
      intros [= <-]. by rewrite (Hpos i l').
    + intros i l' Hlt Hi. rewrite Hi2, Hidx. case_decide as Hd; [by rewrite (Hpos i l')|].
      apply Hdone; [|done]. rewrite length_app in Hlt. simpl in Hlt.
      destruct (decide (i = length done)) as [->|]; [congruence|lia].
  - intros u st' (-> & Hk & Hs' & _ & Hdone). apply returns_ret. split_and!; [done..|].
    intros i l Hi. apply Hdone; [|done]. by eapply lookup_lt_Some.
Qed.

(** The interval found is the one whose usage spans the usage asked for. *)
Definition active (st : ECState) (ec : EventCost) (cs : list content) (atUsage : Z) (i l : nat) : Prop :=
  ec_Charges ec !! i = Some l ∧ csum (take i cs) < atUsage ≤ csum (take (S i) cs) ∧
  idx_of st l = Some (csum (take i cs)).

Lemma returns_find_active st e ec cs atUsage done rest :
  sane st e ec cs → NoDup (ec_Charges ec) → idx_ok st (ec_Charges ec) cs →
  ec_Charges ec = done ++ rest → csum (take (length done) cs) < atUsage ≤ csum cs →
  returns (find_active e atUsage (length done) rest) (λ r st', ∃ i l, r = Some i ∧
    active st' ec cs atUsage i l ∧ kept st st' ∧ sane st' e ec cs) st.
Proof.
  revert st done. induction rest as [|l rest IH]; intros st done Hs Hnd Hix Hl Hat; simpl.
  { rewrite app_nil_r in Hl. rewrite <- Hl, take_ge in Hat; [lia|].
    rewrite (contents_of_length _ _ _ (sane_contents _ _ _ _ Hs)). lia. }
  assert (ec_Charges ec !! length done = Some l) as Hli by (rewrite Hl; by apply list_lookup_middle).
  destruct (sane_lookup _ _ _ _ _ _ Hs Hli) as (c & cil & Hc & _ & Hcil & _).
  eapply bind_interval; [done|].
  apply returns_seq with (P := λ _ st', kept st st' ∧ sane st' e ec cs ∧ idx_ok st' (ec_Charges ec) cs ∧
    idx_of st' l = Some (csum (take (length done) cs))).
  { destruct (cil_ecUsageIdx cil) as [x|] eqn:Ex.
    - apply returns_ret. split_and!; [done..|]. unfold idx_of. rewrite Hcil. simpl. rewrite Ex.
      f_equal. apply (Hix _ _ _ Hli). unfold idx_of. by rewrite Hcil.
    - eapply returns_mono; [by apply returns_indexes|]. intros _ st' (Hk & Hs' & Hi).
      split_and!; [done..| |by apply Hi]. intros i l' x Hl'. rewrite (Hi i l' Hl'). by intros [= <-]. }
  intros _ st1 (Hk1 & Hs1 & Hix1 & Hidx1).
  apply returns_seq with (P := λ _ st', fills e ec cs st1 st').
  { destruct (cil_usage cil); [by apply returns_ret, fills_refl|].
    eapply returns_mono; [by apply returns_GetUsage|]. by intros u st' (_ & ? & _). }
  intros _ st2 (Hk2 & Hs2 & Hi2).
  destruct (sane_lookup _ _ _ _ _ _ Hs2 Hli) as (c' & cil2 & Hc' & _ & Hcil2 & _).
  assert (c' = c) as -> by congruence.
  eapply bind_interval; [done|].
  assert (cil_ecUsageIdx cil2 = Some (csum (take (length done) cs))) as Hx.
  { specialize (Hi2 l). rewrite Hidx1 in Hi2. unfold idx_of in Hi2. by rewrite Hcil2 in Hi2. }
  eapply bind_lift; [by rewrite Hx|].
  eapply returns_seq; [by eapply returns_TotalUsage|].
  intros total st3 (-> & (Hk3 & Hs3 & Hi3) & _).
  pose proof (sane_max _ _ _ _ Hs) as Hm. pose proof (sane_ok _ _ _ _ Hs) as Hok.
  destruct (csum_elem _ _ _ Hok Hc) as [Hb Hb']. pose proof (csum_take cs (length done) Hok).
  pose proof (csum_take cs (S (length done)) Hok) as HbS. rewrite (csum_take_S _ _ _ Hc) in HbS.
  rewrite add64_id by (unfold int64_range, min_int64, max_int64 in *; lia).
  assert (kept st st3) as Hk by by etrans; [|etrans].
  destruct (Z.leb_spec atUsage (csum (take (length done) cs) + csize c)) as [Hle|Hgt].
  - apply returns_ret. exists (length done), l. unfold active. rewrite (csum_take_S _ _ _ Hc).
    split_and!; [done|done|lia|lia| |done|done]. by rewrite Hi3, Hi2.
  - replace (S (length done)) with (length (done ++ [l])) by (rewrite length_app; simpl; lia).
    eapply returns_mono.
    + apply IH; [done|done| |by rewrite <- app_assoc|].
      * intros i l' x Hl' Hx'. rewrite Hi3, Hi2 in Hx'. by eapply Hix1.
      * rewrite length_app. simpl. rewrite Nat.add_1_r, (csum_take_S _ _ _ Hc). lia.
    + intros r st' (i & l' & -> & Ha & Hk' & Hs'). exists i, l'. split_and!; [done|done|by etrans|done].
Qed.

(** ** Growing stores

    Objects are added, and the interval at [l] may change; all others stay. *)
Record grows (l : nat) (st st' : ECState) : Prop := {
  grows_cits p c : es_cits st !! p = Some c → es_cits st' !! p = Some c;
  grows_cils l' c : l' ≠ l → es_cils st !! l' = Some c → es_cils st' !! l' = Some c }.
#[export] Instance grows_preorder l : PreOrder (grows l).
Proof. split; [done|]. intros ??? [] []. constructor; eauto. Qed.

Lemma grows_data l st st' ps ds : grows l st st' → data_of st ps = Some ds → data_of st' ps = Some ds.
Proof.
  intros Hg. unfold data_of. rewrite !mapM_Some. intros Hds.
  eapply Forall2_impl; [exact Hds|]. intros p d. simpl.
  destruct (es_cits st !! p) as [c|] eqn:E; [|done]. by rewrite (grows_cits _ _ _ Hg _ _ E).
Qed.
Lemma grows_content l st st' l' c :
  grows l st st' → l' ≠ l → content_of st l' = Some c → content_of st' l' = Some c.
Proof.
  destruct c as [ds k]. rewrite !content_of_Some. intros Hg Hl (cil & Hc & Hd & Hk).
  exists cil. split_and!; [by eapply grows_cils|by eapply grows_data|done].
Qed.
Lemma grows_contents l st st' ls cs :
  grows l st st' → l ∉ ls → contents_of st ls = Some cs → contents_of st' ls = Some cs.
Proof.
  intros Hg Hl. unfold contents_of. rewrite !mapM_Some. intros Hcs. induction Hcs as [|l' c ls cs Hc _ IH];
    [constructor|]. apply not_elem_of_cons in Hl as [Hne Hl]. constructor; [|by apply IH].
  by eapply grows_content.
Qed.
(** A position beyond the store changes nothing in it. *)
Lemma grows_any l l' st st' :
  grows l' st st' → es_cils st !! l' = None → grows l st st'.
Proof.
  intros [Hp Hl] Hn. constructor; [done|]. intros l1 c Hne Hc. apply Hl; [|done]. intros ->. congruence.
Qed.

Definition with_cits (st : ECState) (new : list ChargingIncrement) : ECState :=
  mkECState (es_ecs st) (es_cils st) (es_cits st ++ new) (es_uuids st).
Lemma grows_with_cits l st new : grows l st (with_cits st new).
Proof. constructor; simpl; intros; [by apply lookup_app_l_Some|done]. Qed.

Lemma returns_clone_increments st ps ds :
  data_of st ps = Some ds →
  returns (clone_increments ps) (λ ps' st', ∃ new,
    st' = with_cits st new ∧ ps' = seq (length (es_cits st)) (length ps) ∧
    Forall2 (λ p c, es_cits st !! p = Some c) ps new) st.
Proof.
  intros Hds. unfold clone_increments. apply returns_visit with (I := λ done ps' st', ∃ new,
    st' = with_cits st new ∧ ps' = seq (length (es_cits st)) (length done) ∧
    Forall2 (λ p c, es_cits st !! p = Some c) done new).
  - exists []. split_and!; [|done|constructor]. unfold with_cits. rewrite app_nil_r. by destruct st.
  - intros done p rest ps' st' Hps (new & -> & -> & Hf).
    destruct (data_of_lookup _ _ _ (length done) p Hds) as (c & Hc & _).
    { rewrite Hps. by apply list_lookup_middle. }
    eapply bind_increment; [by apply lookup_app_l_Some|].
    exists (new ++ [c]). split_and!.
    + unfold with_cits. simpl. by rewrite <- app_assoc.
    + simpl. rewrite !length_app, seq_app. simpl.
      by rewrite (Forall2_length _ _ _ Hf).
    + apply Forall2_app; [done|]. by repeat constructor.
  - intros ps' st' H. exact H.
Qed.

Lemma cloned_data st ps ds new :
  data_of st ps = Some ds → Forall2 (λ p c, es_cits st !! p = Some c) ps new →
  data_of (with_cits st new) (seq (length (es_cits st)) (length ps)) = Some ds.
Proof.
  intros Hds%mapM_Some Hnew. apply mapM_Some, Forall2_same_length_lookup. split.
  { rewrite length_seq. by eapply Forall2_length. }
  intros i p d Hp Hd. apply lookup_seq in Hp as [-> Hi]. simpl.
  rewrite lookup_app_r by lia.
  replace (length (es_cits st) + i - length (es_cits st))%nat with i by lia.
  destruct (lookup_lt_is_Some_2 ps i Hi) as [p Hp].
  destruct (Forall2_lookup_l _ _ _ _ _ Hnew Hp) as (c & -> & Hc).
  destruct (Forall2_lookup_l _ _ _ _ _ Hds Hp) as (d' & Hd' & Hcd).
  rewrite Hc in Hcd. simpl in *. congruence.
Qed.

(** A copy of an interval, at the end of the store. *)
Definition with_clone (st : ECState) (cil : ChargingInterval) (new : list ChargingIncrement) : ECState :=
  mkECState (es_ecs st)
    (es_cils st ++ [mkChargingInterval (cil_RatingID cil)
                      (seq (length (es_cits st)) (length (cil_Increments cil)))
                      (cil_CompressFactor cil) None None None])
    (es_cits st ++ new) (es_uuids st).
Lemma returns_Clone st l cil ds :
  es_cils st !! l = Some cil → data_of st (cil_Increments cil) = Some ds →
  returns (ChargingInterval_Clone l) (λ l' st', ∃ new, l' = length (es_cils st) ∧
    st' = with_clone st cil new ∧ Forall2 (λ p c, es_cits st !! p = Some c) (cil_Increments cil) new) st.
Proof.
  intros Hl Hds. unfold ChargingInterval_Clone. eapply bind_interval; [done|].
  eapply returns_seq; [by eapply returns_clone_increments|].
  intros ps st' (new & -> & -> & Hnew). exists new. by split_and!.
Qed.
Lemma grows_with_clone st cil new : grows (length (es_cils st)) st (with_clone st cil new).
Proof. constructor; simpl; intros; by apply lookup_app_l_Some. Qed.
Lemma with_clone_data st cil ds new :
  data_of st (cil_Increments cil) = Some ds →
  Forall2 (λ p c, es_cits st !! p = Some c) (cil_Increments cil) new →
  data_of (with_clone st cil new) (seq (length (es_cits st)) (length (cil_Increments cil))) = Some ds.
Proof. intros Hds Hnew. exact (cloned_data st _ _ _ Hds Hnew). Qed.

(** ** References *)

Definition rating_ok (ec : EventCost) (id : string) : Prop := id = "" ∨ is_Some (ec_Rating ec !! id).
Definition no_charge (id : string) : Prop := id = "" ∨ id = META_NONE.
(** A charge with its extra charge; that one has none. *)
Definition charge_ok (ec : EventCost) (id : string) : Prop :=
  no_charge id ∨ ∃ bc, ec_Accounting ec !! id = Some bc ∧ rating_ok ec (bc_RatingID bc) ∧
    (no_charge (bc_ExtraChargeID bc) ∨
     ∃ bc', ec_Accounting ec !! bc_ExtraChargeID bc = Some bc' ∧ rating_ok ec (bc_RatingID bc') ∧
       no_charge (bc_ExtraChargeID bc')).
Definition texts_only (ec : EventCost) : Prop :=
  map_Forall (λ _ rf, map_Forall (λ _ v, ∃ s, v = IString s) rf) (ec_RatingFilters ec).

Definition incs_of (st : ECState) (l : nat) : list nat :=
  from_option cil_Increments [] (es_cils st !! l).
Definition refers (st : ECState) (ec : EventCost) (l : nat) : Prop :=
  ∃ cil, es_cils st !! l = Some cil ∧ rating_ok ec (cil_RatingID cil) ∧
    Forall (λ p, ∃ cit, es_cits st !! p = Some cit ∧ charge_ok ec (cit_AccountingID cit))
      (cil_Increments cil).
(** Intervals without common increments whose references are those of an event cost. *)
Record adoptable (st : ECState) (ec : EventCost) (ls : list nat) : Prop := {
  adoptable_nodup : NoDup ls;
  adoptable_incs : NoDup (ls ≫= incs_of st);
  adoptable_refers : Forall (refers st ec) ls }.

Lemma grows_refers l st st' ec l' :
  grows l st st' → l' ≠ l → refers st ec l' → refers st' ec l'.
Proof.
  intros Hg Hl (cil & Hc & Hr & Hp). exists cil. split_and!; [by eapply grows_cils|done|].
  eapply Forall_impl; [exact Hp|]. intros p (cit & Hcit & Hok). exists cit. split; [|done].
  by eapply grows_cits.
Qed.
Lemma grows_incs_of l st st' ec ls :
  grows l st st' → l ∉ ls → Forall (refers st ec) ls → ls ≫= incs_of st' = ls ≫= incs_of st.
Proof.
  intros Hg Hl Hls. induction Hls as [|l' ls (cil & Hc & _) _ IH]; [done|].
  apply not_elem_of_cons in Hl as [Hne Hl]. rewrite !bind_cons, IH by done. f_equal.
  unfold incs_of. by rewrite Hc, (grows_cils _ _ _ Hg _ _ (not_eq_sym Hne) Hc).
Qed.
Lemma grows_adoptable l st st' ec ls :
  grows l st st' → l ∉ ls → adoptable st ec ls → adoptable st' ec ls.
Proof.
  intros Hg Hl [Hn Hi Hr]. constructor; [done| |].
  - by rewrite (grows_incs_of _ _ _ _ _ Hg Hl Hr).
  - apply Forall_forall. intros l' Hl'. rewrite Forall_forall in Hr. eapply grows_refers; [done| |by apply Hr].
    by intros ->.
Qed.
Lemma adoptable_sublist st ec l ls : adoptable st ec (l :: ls) → adoptable st ec ls.
Proof.
  intros [Hn Hi Hr]. rewrite bind_cons in Hi. apply NoDup_cons in Hn as [_ Hn].
  apply NoDup_app in Hi as (_ & _ & Hi). apply Forall_cons in Hr as [_ Hr]. by constructor.
Qed.
Lemma adoptable_old st ec ls p : adoptable st ec ls → p ∈ ls ≫= incs_of st → (p < length (es_cits st))%nat.
Proof.
  intros [_ _ Hr] (l & Hp & Hl)%list_elem_of_bind. rewrite Forall_forall in Hr.
  destruct (Hr l Hl) as (cil & Hc & _ & Hf). unfold incs_of in Hp. rewrite Hc in Hp. simpl in Hp.
  rewrite Forall_forall in Hf. destruct (Hf p Hp) as (cit & Hcit & _). by eapply lookup_lt_Some.
Qed.

(** An interval with increments that are new, and refer to the same, can be put before. *)
Lemma adoptable_cons st' ec l cil ls :
  adoptable st' ec ls → l ∉ ls → es_cils st' !! l = Some cil → rating_ok ec (cil_RatingID cil) →
  NoDup (cil_Increments cil) →
  Forall (λ p, ∃ cit, es_cits st' !! p = Some cit ∧ charge_ok ec (cit_AccountingID cit)) (cil_Increments cil) →
  (∀ p, p ∈ cil_Increments cil → p ∉ ls ≫= incs_of st') →
  adoptable st' ec (l :: ls).
Proof.
  intros [Hn Hi Hr] Hl Hc Hrat Hnd Hp Hnew. constructor.
  - by constructor.
  - rewrite bind_cons. unfold incs_of at 1. rewrite Hc. simpl. apply NoDup_app. by split_and!.
  - constructor; [|done]. by exists cil.
Qed.

(** ** The two parts *)

(** An event cost without its counters and charges. *)
Definition remainder (ec : EventCost) : EventCost := ec_set_Charges [] (ec_core ec).

Lemma core_parts ec ec' :
  ec_core ec' = ec_core ec →
  ec_Charges ec' = ec_Charges ec ∧ remainder ec' = remainder ec ∧
  ec_RatingFilters ec' = ec_RatingFilters ec.
Proof.
  intros H. split_and!; [exact (f_equal ec_Charges H)|unfold remainder; by rewrite H|].
  exact (f_equal ec_RatingFilters H).
Qed.

Record halves (st : ECState) (e s : nat) (ec : EventCost) (ls_e ls_s : list nat)
    (cs_e cs_s : list content) : Prop := {
  hv_ne : e ≠ s;
  hv_ec : ∃ ec', es_ecs st !! e = Some ec' ∧ ec_Charges ec' = ls_e ∧ remainder ec' = remainder ec;
  hv_sc : ∃ sc, es_ecs st !! s = Some sc ∧ ec_Charges sc = ls_s ∧ texts_only sc;
  hv_e : contents_of st ls_e = Some cs_e;
  hv_s : contents_of st ls_s = Some cs_s;
  hv_ok_e : Forall ok_content cs_e;
  hv_ok_s : Forall ok_content cs_s;
  hv_max : csum cs_e + csum cs_s ≤ max_int64;
  hv_adopt : adoptable st ec ls_s }.

Lemma kept_adoptable st st' ec ls : kept st st' → adoptable st ec ls → adoptable st' ec ls.
Proof.
  intros Hk [Hnd Hni Hr]. constructor; [done| |].
  - assert (∀ l, incs_of st' l = incs_of st l) as Hincs; [|by erewrite list_bind_ext].
    intros l. unfold incs_of. pose proof (kept_cils _ _ Hk l) as Hl.
    destruct (es_cils st' !! l), (es_cils st !! l); try done. by injection Hl.
  - eapply Forall_impl; [exact Hr|]. intros l (cil & Hc & Hrat & Hp).
    pose proof (kept_cils _ _ Hk l) as Hl. rewrite Hc in Hl.
    destruct (es_cils st' !! l) as [cil'|] eqn:E; [|done]. injection Hl as Hl1 Hl2 Hl3.
    exists cil'. rewrite Hl1, Hl2, (kept_cits _ _ Hk). by split_and!.
Qed.
Lemma halves_kept st st' e s ec ls_e ls_s cs_e cs_s :
  halves st e s ec ls_e ls_s cs_e cs_s → kept st st' → halves st' e s ec ls_e ls_s cs_e cs_s.
Proof.
  intros [Hne (ec' & He & Hch & Hrem) (sc & Hs & Hsch & Htx) Hce Hcs Hoe Hos Hmax Had] Hk.
  constructor; try done; [| |by rewrite (kept_contents _ _ _ Hk)..|by eapply kept_adoptable].
  - pose proof (kept_ecs _ _ Hk e) as Hec. rewrite He in Hec.
    destruct (es_ecs st' !! e) as [ec2|]; [|done]. apply (inj Some) in Hec. exists ec2.
    destruct (core_parts _ _ Hec) as (-> & -> & _). by split_and!.
  - pose proof (kept_ecs _ _ Hk s) as Hec. rewrite Hs in Hec.
    destruct (es_ecs st' !! s) as [sc2|]; [|done]. apply (inj Some) in Hec. exists sc2.
    destruct (core_parts _ _ Hec) as (-> & _ & Hfl). split_and!; [done..|]. unfold texts_only. by rewrite Hfl.
Qed.

Lemma contents_app st a b ca cb :
  contents_of st a = Some ca → contents_of st b = Some cb → contents_of st (a ++ b) = Some (ca ++ cb).
Proof. unfold contents_of. rewrite !mapM_Some. apply Forall2_app. Qed.
Lemma contents_snoc_inv st front l fcs c :
  contents_of st (front ++ [l]) = Some (fcs ++ [c]) →
  contents_of st front = Some fcs ∧ content_of st l = Some c.
Proof.
  intros H. pose proof (contents_of_length _ _ _ H) as Hlen. rewrite !length_app in Hlen.
  unfold contents_of in *. apply mapM_Some, Forall2_app_inv in H as [Hf Hl]; [|simpl in Hlen; lia].
  split; [by apply mapM_Some|]. by inversion Hl.
Qed.
Lemma contents_one st l c : content_of st l = Some c → contents_of st [l] = Some [c].
Proof. unfold contents_of. simpl. by intros ->. Qed.
Lemma contents_cons st l ls c cs :
  content_of st l = Some c → contents_of st ls = Some cs → contents_of st (l :: ls) = Some (c :: cs).
Proof. intros Hc. by apply (contents_app st [l] ls [c]), contents_one. Qed.

Lemma enough_spec test cnt n :
  (∃ j, cnt ≤ j < cnt + Z.of_nat n ∧ test j = true) →
  cnt ≤ enough test cnt n < cnt + Z.of_nat n ∧ test (enough test cnt n) = true ∧
  ∀ j, cnt ≤ j < enough test cnt n → test j = false.
Proof.
  revert cnt. induction n as [|n IH]; intros cnt (j & Hj & Ht); [lia|]. cbn [enough].
  destruct (test cnt) eqn:E.
  - split_and!; [lia|lia|done|]. intros; lia.
  - destruct (IH (cnt + 1)) as (Hr & Hrt & Hlow).
    { exists j. split; [|done]. destruct (decide (j = cnt)) as [->|]; [congruence|lia]. }
    split_and!; [lia|lia|done|]. intros i Hi. destruct (decide (i = cnt)) as [->|]; [done|].
    apply Hlow. lia.
Qed.

(** The count found among the repetitions of something of size [d], after [before]. *)
Lemma enough_count before d k atUsage :
  0 ≤ before → 0 ≤ d → 1 ≤ k → before + d * k ≤ max_int64 → before < atUsage ≤ before + d * k →
  let r := enough (λ cnt, atUsage <=? add64 before (mul64 d cnt)) 1 (Z.to_nat k) in
  1 ≤ r ≤ k ∧ before + d * (r - 1) < atUsage ≤ before + d * r.
Proof.
  intros Hb Hd Hk Hmax Hat r. set (test := λ cnt, atUsage <=? add64 before (mul64 d cnt)) in *.
  assert (∀ j, 1 ≤ j ≤ k → test j = (atUsage <=? before + d * j)) as Htest.
  { intros j Hj. unfold test. assert (d * j ≤ d * k) by nia. f_equal. unfold max_int64 in *.
    rewrite mul64_id, add64_id; unfold int64_range, min_int64, max_int64; nia. }
  destruct (enough_spec test 1 (Z.to_nat k)) as (Hr & Hrt & Hlow).
  { exists k. rewrite Htest by lia. split; [lia|]. apply Z.leb_le. lia. }
  fold r in Hr, Hrt, Hlow. rewrite Htest in Hrt by lia. apply Z.leb_le in Hrt.
  split_and!; [lia|lia| |lia]. destruct (decide (r = 1)) as [->|]; [lia|].
  specialize (Hlow (r - 1)). rewrite Htest in Hlow by lia. rewrite Z.leb_gt in Hlow. apply Hlow. lia.
Qed.

#[local] Arguments units : simpl never.
#[local] Arguments units_of_data : simpl never.

(** *** Between repetitions *)

(** The last interval of the event cost and the surplus after it. *)
Record cutting (st : ECState) (e s : nat) (ec : EventCost) (front : list nat) (l : nat)
    (rest : list nat) (fcs : list content) (ds : list incr_data) (k : Z) (rcs : list content) : Prop := {
  ct_halves : halves st e s ec (front ++ [l]) rest (fcs ++ [(ds, k)]) rcs;
  ct_sane : sane st e (ec_set_Charges (front ++ [l]) ec) (fcs ++ [(ds, k)]);
  ct_adopt : adoptable st ec (l :: rest);
  ct_front : l ∉ front }.

Lemma cutting_at st e s ec front l rest fcs ds k rcs :
  cutting st e s ec front l rest fcs ds k rcs →
  ec_Charges (ec_set_Charges (front ++ [l]) ec) !! length front = Some l ∧
  (fcs ++ [(ds, k)]) !! length front = Some (ds, k).
Proof.
  intros Hc. split; [by apply list_lookup_middle|].
  pose proof (contents_of_length _ _ _ (hv_e _ _ _ _ _ _ _ _ (ct_halves _ _ _ _ _ _ _ _ _ _ _ Hc))) as Hl.
  rewrite !length_app in Hl. simpl in Hl. replace (length front) with (length fcs) by lia.
  by apply list_lookup_middle.
Qed.
Lemma cutting_interval st e s ec front l rest fcs ds k rcs :
  cutting st e s ec front l rest fcs ds k rcs →
  ∃ cil, es_cils st !! l = Some cil ∧ data_of st (cil_Increments cil) = Some ds ∧
    cil_CompressFactor cil = k.
Proof.
  intros Hc. apply content_of_Some.
  exact (proj2 (contents_snoc_inv _ _ _ _ _ (hv_e _ _ _ _ _ _ _ _ (ct_halves _ _ _ _ _ _ _ _ _ _ _ Hc)))).
Qed.
(** What fills caches changes nothing of this. *)
Lemma cutting_fills st st' e s ec front l rest fcs ds k rcs :
  cutting st e s ec front l rest fcs ds k rcs →
  fills e (ec_set_Charges (front ++ [l]) ec) (fcs ++ [(ds, k)]) st st' →
  cutting st' e s ec front l rest fcs ds k rcs.
Proof.
  intros [Hh Hsane Had Hf] (Hk & Hs' & _).
  constructor; [by eapply halves_kept|done|by eapply kept_adoptable|done].
Qed.

(** The surplus gets a copy of the interval with the repetitions that are left. *)
Definition divided (st : ECState) (e s l : nat) (cil : ChargingInterval)
    (new : list ChargingIncrement) (r k : Z) : ECState :=
  at_ec e (ec_set_counters None None)
    (at_interval l (cil_set_CompressFactor r)
      (at_ec s (λ ec, ec_set_Charges (length (es_cils st) :: ec_Charges ec) ec)
        (at_interval (length (es_cils st)) (cil_set_CompressFactor (k - r))
          (with_clone st cil new)))).

Lemma divided_cils st e s l cil new r k :
  es_cils st !! l = Some cil →
  es_cils (divided st e s l cil new r k) !! l = Some (cil_set_CompressFactor r cil) ∧
  es_cils (divided st e s l cil new r k) !! length (es_cils st) =
    Some (mkChargingInterval (cil_RatingID cil) (seq (length (es_cits st)) (length (cil_Increments cil)))
            (k - r) None None None).
Proof.
  intros Hl. pose proof (lookup_lt_Some _ _ _ Hl) as Hlt. simpl. split.
  - rewrite list_lookup_alter_eq, list_lookup_alter_ne by lia.
    by rewrite (lookup_app_l_Some _ _ _ _ Hl).
  - rewrite list_lookup_alter_ne, list_lookup_alter_eq by lia. by rewrite list_lookup_middle.
Qed.
Lemma grows_divided st e s l cil new r k : grows l st (divided st e s l cil new r k).
Proof.
  constructor; simpl.
  - intros p c. apply lookup_app_l_Some.
  - intros l' c Hne Hc. pose proof (lookup_lt_Some _ _ _ Hc).
    rewrite !list_lookup_alter_ne by lia. by apply lookup_app_l_Some.
Qed.

(** The intervals of the surplus with the copy before them can be adopted. *)
Lemma adoptable_divided st e s ec l rest cil new r k :
  adoptable st ec (l :: rest) → es_cils st !! l = Some cil →
  Forall2 (λ p c, es_cits st !! p = Some c) (cil_Increments cil) new →
  adoptable (divided st e s l cil new r k) ec (l :: length (es_cils st) :: rest).
Proof.
  intros Had Hcil Hnew. destruct (divided_cils st e s l cil new r k Hcil) as [Hl' Hn'].
  pose proof (grows_divided st e s l cil new r k) as Hg.
  set (st' := divided st e s l cil new r k) in *.
  pose proof (adoptable_sublist _ _ _ _ Had) as Hrest.
  pose proof (adoptable_nodup _ _ _ Had) as [Hl _]%NoDup_cons.
  pose proof (lookup_lt_Some _ _ _ Hcil) as Hlt.
  assert (rest ≫= incs_of st' = rest ≫= incs_of st) as Hincs
    by (eapply grows_incs_of; [done|done|apply Hrest]).
  pose proof (adoptable_incs _ _ _ Had) as Hnd. rewrite bind_cons in Hnd.
  unfold incs_of at 1 in Hnd. rewrite Hcil in Hnd. simpl in Hnd.
  apply NoDup_app in Hnd as (Hnd & Hdisj & _).
  pose proof (adoptable_refers _ _ _ Had) as [(cil0 & Hcil0 & Hrat & Hch)%id Hrr]%Forall_cons.
  assert (cil0 = cil) as -> by congruence.
  assert (∀ p, p ∈ cil_Increments cil → (p < length (es_cits st))%nat) as Hold.
  { intros p Hp. rewrite Forall_forall in Hch. destruct (Hch p Hp) as (? & ? & _). by eapply lookup_lt_Some. }
  assert (length (es_cils st) ∉ rest) as Hfresh.
  { intros Hin. rewrite Forall_forall in Hrr. destruct (Hrr _ Hin) as (c & Hc & _).
    apply lookup_lt_Some in Hc. lia. }
  assert (adoptable st' ec (length (es_cils st) :: rest)) as Hone.
  { eapply adoptable_cons; [by eapply grows_adoptable|done|exact Hn'|done|apply NoDup_seq| |].
    - simpl. apply Forall_forall. intros p Hp%elem_of_seq.
      destruct (lookup_lt_is_Some_2 (cil_Increments cil) (p - length (es_cits st))) as [q Hq]; [lia|].
      destruct (Forall2_lookup_l _ _ _ _ _ Hnew Hq) as (c & Hc & Hqc).
      exists c. split; [simpl; by rewrite lookup_app_r by lia|].
      destruct (Forall_lookup_1 _ _ _ _ Hch Hq) as (c' & Hc' & Hok). by simplify_eq.
    - simpl. intros p Hp%elem_of_seq. rewrite Hincs. intros Hin.
      pose proof (adoptable_old _ _ _ _ Hrest Hin). lia. }
  eapply adoptable_cons; [done| |exact Hl'|done|done| |].
  - apply not_elem_of_cons. split; [lia|done].
  - eapply Forall_impl; [exact Hch|]. intros p (c & Hc & Hok). exists c. split; [|done].
    by apply (grows_cits _ _ _ Hg).
  - intros p Hp. simpl in Hp. rewrite bind_cons. unfold incs_of at 1. rewrite Hn'. simpl. rewrite Hincs.
    intros [Hin%elem_of_seq|Hin]%elem_of_app; [specialize (Hold p Hp); lia|by apply (Hdisj p)].
Qed.

(** The usage kept in the intervals does not depend on how often they are repeated. *)
Lemma caches_shrunk st st' e ec front l fcs ds k r :
  sane st e (ec_set_Charges (front ++ [l]) ec) (fcs ++ [(ds, k)]) →
  contents_of st front = Some fcs → grows l st st' → l ∉ front →
  es_cils st' !! l ≫= cil_usage = es_cils st !! l ≫= cil_usage →
  ∀ i l0 (c : content) u,
    ec_Charges (ec_set_Charges (front ++ [l]) ec) !! i = Some l0 →
    (fcs ++ [(ds, r)]) !! i = Some c → es_cils st' !! l0 ≫= cil_usage = Some u → u = dsize c.1.
Proof.
  intros Hs Hcf Hg Hf Hl i l0 c u Hi Hc Hu. cbn [ec_set_Charges ec_Charges] in Hi.
  pose proof (contents_of_length _ _ _ Hcf) as Hlen.
  destruct (decide (i < length front)%nat) as [Hlt|Hge].
    rewrite lookup_app_l in Hi by lia. rewrite lookup_app_l in Hc by lia.
    assert (l0 ≠ l) as Hne by (intros ->; by apply Hf, list_elem_of_lookup; exists i).
    destruct (contents_of_lookup _ _ _ _ _ Hcf Hi) as ([ds' k'] & Hc' & Hcl0).
    apply content_of_Some in Hcl0 as (cil & Hcil & _).
    rewrite (grows_cils _ _ _ Hg _ _ Hne Hcil) in Hu.
    eapply (sane_caches _ _ _ _ Hs i l0 c u); [|by rewrite lookup_app_l by lia|by rewrite Hcil].
    simpl. by rewrite lookup_app_l by lia.
  - pose proof (lookup_lt_Some _ _ _ Hi) as Hlt. rewrite length_app in Hlt. simpl in Hlt.
    assert (i = length front) as -> by lia.
    rewrite list_lookup_middle in Hi by done. rewrite list_lookup_middle in Hc by done. simplify_eq.
    rewrite Hl in Hu.
    apply (sane_caches _ _ _ _ Hs (length front) l0 (ds, k) u); [|by apply list_lookup_middle|done].
    simpl. by apply list_lookup_middle.
Qed.

Lemma cutting_divided st e s ec front l rest fcs ds k rcs cil new r :
  cutting st e s ec front l rest fcs ds k rcs →
  es_cils st !! l = Some cil → data_of st (cil_Increments cil) = Some ds →
  Forall2 (λ p c, es_cits st !! p = Some c) (cil_Increments cil) new →
  1 ≤ r < k →
  cutting (divided st e s l cil new r k) e s ec front l (length (es_cils st) :: rest)
    fcs ds r ((ds, k - r) :: rcs).
Proof.
  intros Hcut Hcil Hds Hnew Hr.
  destruct (divided_cils st e s l cil new r k Hcil) as [Hl' Hn'].
  pose proof (grows_divided st e s l cil new r k) as Hg.
  pose proof (adoptable_divided st e s ec l rest cil new r k (ct_adopt _ _ _ _ _ _ _ _ _ _ _ Hcut) Hcil Hnew) as Had'.
  set (st' := divided st e s l cil new r k) in *.
  assert (content_of st' l = Some (ds, r)) as Hcl.
  { apply content_of_Some. eexists. split_and!; [done|by eapply grows_data|done]. }
  assert (content_of st' (length (es_cils st)) = Some (ds, k - r)) as Hcn.
  { apply content_of_Some. eexists. split_and!; [done| |done].
    exact (with_clone_data st cil ds new Hds Hnew). }
  destruct Hcut as [[Hne (ec' & He & Hch & Hrem) (sc & Hs & Hsch & Htx) Hce Hcs Hoe Hos Hmax _]
    Hsane Had Hf].
  destruct (contents_snoc_inv _ _ _ _ _ Hce) as [Hcf Hcl0].
  pose proof (adoptable_nodup _ _ _ Had) as [Hl _]%NoDup_cons.
  assert (contents_of st' (front ++ [l]) = Some (fcs ++ [(ds, r)])) as Hce'.
  { apply contents_app; [by eapply grows_contents|by apply contents_one]. }
  apply Forall_app in Hoe as [Hof [[Hod Hok] _]%Forall_cons]. simpl in Hod, Hok.
  pose proof (dsize_nonneg _ Hod) as Hdn.
  assert (Forall ok_content (fcs ++ [(ds, r)])) as Hoe'.
  { apply Forall_app. split; [done|]. repeat constructor; simpl; [done|lia|lia]. }
  rewrite csum_app in Hmax. simpl in Hmax. unfold csize in Hmax. simpl in Hmax.
  pose proof (csum_nonneg _ Hos) as Hrn.
  assert (dsize ds * r ≤ dsize ds * k) by nia.
  constructor; [| |done|done].
  - constructor; try done.
    + exists (ec_set_counters None None ec'). split_and!; [|done|done].
      simpl. rewrite list_lookup_alter_eq, list_lookup_alter_ne by done. by rewrite He.
    + exists (ec_set_Charges (length (es_cils st) :: rest) sc). split_and!; [|done|done].
      simpl. rewrite list_lookup_alter_ne, list_lookup_alter_eq by done. by rewrite Hs, <- Hsch.
    + apply contents_cons; [done|]. by eapply grows_contents.
    + constructor; [|done]. split; simpl; [done|lia].
    + rewrite csum_app. simpl. unfold csize. simpl. nia.
    + by eapply adoptable_sublist.
  - constructor; try done.
    + simpl. rewrite list_lookup_alter_eq, list_lookup_alter_ne by done.
      pose proof (sane_ec _ _ _ _ Hsane) as Hec. rewrite He in Hec |- *. simpl in *.
      apply (inj Some) in Hec. f_equal. by rewrite <- Hec.
    + rewrite csum_app. simpl. unfold csize. simpl. lia.
    + intros u. simpl. rewrite list_lookup_alter_eq. by destruct (alter _ s _ !! e).
    + eapply caches_shrunk; [exact Hsane|done|done|done|by rewrite Hcil, Hl'].
Qed.

Lemma cutting_sizes st e s ec front l rest fcs ds k rcs :
  cutting st e s ec front l rest fcs ds k rcs →
  Forall ok_data ds ∧ 1 ≤ k ≤ max_int64 ∧ 0 ≤ dsize ds ∧ 0 ≤ csum fcs ∧
  csum fcs + dsize ds * k ≤ max_int64 ∧ csum (fcs ++ [(ds, k)]) = csum fcs + dsize ds * k.
Proof.
  intros [[_ _ _ _ _ Hoe Hos Hmax _] _ _ _].
  apply Forall_app in Hoe as [Hof [[Hod Hok] _]%Forall_cons]. simpl in Hod, Hok.
  rewrite csum_app in *. simpl in *. unfold csize in *. simpl in *.
  pose proof (dsize_nonneg _ Hod). pose proof (csum_nonneg _ Hos). pose proof (csum_nonneg _ Hof).
  split_and!; try done; lia.
Qed.

Lemma returns_trim_repetitions st e s ec front l rest fcs ds k rcs atUsage :
  cutting st e s ec front l rest fcs ds k rcs → idx_of st l = Some (csum fcs) →
  csum fcs < atUsage ≤ csum fcs + dsize ds * k →
  returns (trim_repetitions e s l atUsage) (λ _ st', ∃ r rest' rcs',
    cutting st' e s ec front l rest' fcs ds r rcs' ∧
    units [(ds, r)] ++ units rcs' = units [(ds, k)] ++ units rcs ∧
    csum fcs + dsize ds * (r - 1) < atUsage ≤ csum fcs + dsize ds * r) st.
Proof.
  intros Hcut Hidx Hat. unfold trim_repetitions.
  destruct (cutting_at _ _ _ _ _ _ _ _ _ _ _ Hcut) as [Hl Hc].
  destruct (cutting_sizes _ _ _ _ _ _ _ _ _ _ _ Hcut) as (Hod & Hok & Hdn & Hfn & Hmax & _).
  eapply returns_seq; [eapply returns_TotalUsage; [apply Hcut|exact Hl|exact Hc]|].
  intros total st1 (-> & Hf & Hu).
  pose proof (cutting_fills _ _ _ _ _ _ _ _ _ _ _ _ Hcut Hf) as Hcut1.
  destruct (cutting_interval _ _ _ _ _ _ _ _ _ _ _ Hcut1) as (cil & Hcil & Hds & Hk).
  eapply bind_interval; [done|].
  destruct Hf as (_ & _ & Hsame). specialize (Hsame l). rewrite Hidx in Hsame.
  unfold idx_of in Hsame. rewrite Hcil in Hsame. simpl in Hsame.
  eapply bind_lift; [by rewrite Hsame|].
  rewrite Hcil in Hu. simpl in Hu. eapply bind_lift; [by rewrite Hu|].
  rewrite Hk. unfold csize. simpl.
  rewrite add64_id by (unfold int64_range, min_int64, max_int64 in *; lia).
  assert (∀ j, 1 ≤ j → csum fcs + dsize ds * (j - 1) < atUsage ≤ csum fcs + dsize ds * j → j = k →
    returns (mret ()) (λ _ st', ∃ r rest' rcs', cutting st' e s ec front l rest' fcs ds r rcs' ∧
      units [(ds, r)] ++ units rcs' = units [(ds, k)] ++ units rcs ∧
      csum fcs + dsize ds * (r - 1) < atUsage ≤ csum fcs + dsize ds * r) st1) as Hall.
  { intros j _ [] ->. apply returns_ret. exists k, rest, rcs. by split_and!. }
  destruct (Z.eqb_spec k 1) as [->|Hk1]; simpl.
  { apply (Hall 1); [lia|lia|done]. }
  destruct (Z.ltb_spec atUsage (csum fcs + dsize ds * k)) as [Hlt|Hge]; simpl.
  2: { apply (Hall k); [lia|nia|done]. }
  destruct (enough_count (csum fcs) (dsize ds) k atUsage) as (Hr & Hrat); [lia..|].
  set (r := enough _ _ _) in *. destruct (Z.eqb_spec r 0) as [|_]; [lia|].
  destruct (Z.eqb_spec r k) as [Hrk|Hrk]; [by apply (Hall r); [lia|lia|]|].
  eapply returns_seq; [by eapply returns_Clone|]. intros l' st2 (new & -> & -> & Hnew).
  apply bind_change_interval, bind_change_ec, bind_change_interval, returns_modify.
  exists r, (length (es_cils st1) :: rest), ((ds, k - r) :: rcs). split_and!; [|  |lia|lia].
  - rewrite sub64_id by (unfold int64_range, min_int64, max_int64 in *; lia).
    apply (cutting_divided st1 e s ec front l rest fcs ds k rcs cil new r); try done. lia.
  - change ((ds, k - r) :: rcs) with ([(ds, k - r)] ++ rcs).
    rewrite units_app, app_assoc, <- units_split_repetitions by lia.
    by replace (r + (k - r)) with k by lia.
Qed.

(** *** Inside an interval *)

Lemma data_of_seq st base new :
  es_cits st = base ++ new → data_of st (seq (length base) (length new)) = Some (cit_data <$> new).
Proof.
  intros Hc. apply mapM_Some, Forall2_same_length_lookup. split; [by rewrite length_seq, length_fmap|].
  intros i p d Hp Hd. apply lookup_seq in Hp as [-> Hi].
  rewrite Hc, lookup_app_r by lia. replace (length base + i - length base)%nat with i by lia.
  by rewrite list_lookup_fmap in Hd.
Qed.

(** The data of copied increments, the count of the last one changed unless [r] is 0. *)
Definition last_count (r : Z) (ds : list incr_data) : list incr_data :=
  if r =? 0 then ds else alter (λ d, (d.1, r)) (length ds - 1)%nat ds.

(** The state after the surplus of the interval at [t] was split off. *)
Definition cut_state (st : ECState) (e s t : nat) (cil : ChargingInterval) (surplus : list nat)
    (new copies : list ChargingIncrement) (f : EventCost → EventCost) : ECState :=
  at_ec e f
    (at_interval t (cil_set_Increments (seq (length (es_cits st) + length new)%nat (length copies)))
      (with_cits
        (at_ec s (λ ec, ec_set_Charges (length (es_cils st) :: ec_Charges ec) ec)
          (at_interval (length (es_cils st)) (cil_set_Increments surplus) (with_clone st cil new)))
        copies)).

Lemma cut_state_cils st e s t cil surplus new copies f :
  es_cils st !! t = Some cil →
  es_cils (cut_state st e s t cil surplus new copies f) !! t =
    Some (cil_set_Increments (seq (length (es_cits st) + length new)%nat (length copies)) cil) ∧
  es_cils (cut_state st e s t cil surplus new copies f) !! length (es_cils st) =
    Some (mkChargingInterval (cil_RatingID cil) surplus (cil_CompressFactor cil) None None None).
Proof.
  intros Ht. pose proof (lookup_lt_Some _ _ _ Ht). simpl. split.
  - rewrite list_lookup_alter_eq, list_lookup_alter_ne by lia. by rewrite (lookup_app_l_Some _ _ _ _ Ht).
  - rewrite list_lookup_alter_ne, list_lookup_alter_eq by lia. by rewrite list_lookup_middle.
Qed.
Lemma grows_cut_state st e s t cil surplus new copies f :
  grows t st (cut_state st e s t cil surplus new copies f).
Proof.
  constructor; simpl.
  - intros p c Hp. rewrite <- app_assoc. by apply lookup_app_l_Some.
  - intros l' c Hne Hc. pose proof (lookup_lt_Some _ _ _ Hc).
    rewrite !list_lookup_alter_ne by lia. by apply lookup_app_l_Some.
Qed.

(** What the surplus of an interval must be to be adopted. *)
Record surplus_ok (st : ECState) (ec : EventCost) (rest surplus : list nat) (ratingID : string) : Prop := {
  su_rating : rating_ok ec ratingID;
  su_nodup : NoDup surplus;
  su_charges : Forall (λ p, ∃ cit, es_cits st !! p = Some cit ∧ charge_ok ec (cit_AccountingID cit)) surplus;
  su_new p : p ∈ surplus → p ∉ rest ≫= incs_of st }.

Lemma halves_cut st e s ec front t rest fcs ds rcs cil surplus dsur new copies f :
  halves st e s ec (front ++ [t]) rest (fcs ++ [(ds, 1)]) rcs → t ∉ front → t ∉ rest →
  es_cils st !! t = Some cil → cil_CompressFactor cil = 1 →
  surplus_ok st ec rest surplus (cil_RatingID cil) → data_of st surplus = Some dsur →
  (∀ ec, ec_core (f ec) = ec_core ec) →
  Forall ok_data (cit_data <$> copies) → Forall ok_data dsur →
  dsize (cit_data <$> copies) + dsize dsur = dsize ds →
  halves (cut_state st e s t cil surplus new copies f) e s ec (front ++ [t]) (length (es_cils st) :: rest)
    (fcs ++ [(cit_data <$> copies, 1)]) ((dsur, 1) :: rcs).
Proof.
  intros [Hne (ec' & He & Hch & Hrem) (sc & Hs & Hsch & Htx) Hce Hcs Hoe Hos Hmax Had]
    Ht Htr Hcil Hcf [Hrat Hsn Hsc Hsnew] Hsd Hf Hok1 Hok2 Hsize.
  destruct (cut_state_cils st e s t cil surplus new copies f Hcil) as [Ht' Hn'].
  pose proof (grows_cut_state st e s t cil surplus new copies f) as Hg.
  destruct (contents_snoc_inv _ _ _ _ _ Hce) as [Hcfr _].
  assert (length (es_cils st) ∉ rest) as Hfresh.
  { intros Hin. pose proof (adoptable_refers _ _ _ Had) as Hr. rewrite Forall_forall in Hr.
    destruct (Hr _ Hin) as (c & Hc & _). apply lookup_lt_Some in Hc. lia. }
  apply Forall_app in Hoe as [Hof _]. rewrite csum_app in Hmax. simpl in Hmax.
  unfold csize in Hmax. simpl in Hmax.
  constructor; [done| | | | | | | |].
  - exists (f ec'). destruct (core_parts _ _ (Hf ec')) as (-> & -> & _). split_and!; [|done|done].
    simpl. rewrite list_lookup_alter_eq, list_lookup_alter_ne by done. by rewrite He.
  - exists (ec_set_Charges (length (es_cils st) :: rest) sc). split_and!; [|done|done].
    simpl. rewrite list_lookup_alter_ne, list_lookup_alter_eq by done. by rewrite Hs, <- Hsch.
  - apply contents_app; [by eapply grows_contents|]. apply contents_one, content_of_Some.
    eexists. split_and!; [exact Ht'| |done]. simpl.
    pose proof (data_of_seq (cut_state st e s t cil surplus new copies f) (es_cits st ++ new) copies
      eq_refl) as Hd. by rewrite length_app in Hd.
  - apply contents_cons; [|by eapply grows_contents]. apply content_of_Some.
    eexists. split_and!; [exact Hn'|by eapply grows_data|done].
  - apply Forall_app. split; [done|]. repeat constructor; simpl; [done|lia|done].
  - constructor; [|done]. repeat constructor; simpl; [done|lia|done].
  - rewrite csum_app. simpl. unfold csize. simpl. lia.
  - eapply adoptable_cons; [by eapply grows_adoptable|done|exact Hn'|done|done| |].
    + simpl. eapply Forall_impl; [exact Hsc|]. intros p (c & Hc & Hch'). exists c. split; [|done].
      by apply (grows_cits _ _ _ Hg).
    + intros p Hp. rewrite (grows_incs_of _ _ _ _ _ Hg Htr (adoptable_refers _ _ _ Had)).
      by apply Hsnew.
Qed.

(** The last repetition of an interval as an interval of its own. *)
Definition repeated_state (st : ECState) (e l : nat) (cil : ChargingInterval)
    (new : list ChargingIncrement) (k : Z) : ECState :=
  at_interval (length (es_cils st)) (cil_set_CompressFactor 1)
    (at_ec e (λ ec, ec_set_Charges (ec_Charges ec ++ [length (es_cils st)]) (ec_set_counters None None ec))
      (with_clone (at_interval l (cil_set_CompressFactor (k - 1)) st)
        (cil_set_CompressFactor (k - 1) cil) new)).

Lemma repeated_state_cils st e l cil new k :
  es_cils st !! l = Some cil →
  es_cils (repeated_state st e l cil new k) !! l = Some (cil_set_CompressFactor (k - 1) cil) ∧
  es_cils (repeated_state st e l cil new k) !! length (es_cils st) =
    Some (mkChargingInterval (cil_RatingID cil) (seq (length (es_cits st)) (length (cil_Increments cil)))
            1 None None None).
Proof.
  intros Hl. pose proof (lookup_lt_Some _ _ _ Hl). simpl. split.
  - rewrite list_lookup_alter_ne by lia. rewrite lookup_app_l by (rewrite length_alter; lia).
    by rewrite list_lookup_alter_eq, Hl.
  - rewrite list_lookup_alter_eq, list_lookup_middle by (by rewrite length_alter). done.
Qed.
Lemma grows_repeated_state st e l cil new k : grows l st (repeated_state st e l cil new k).
Proof.
  constructor; simpl.
  - intros p c. apply lookup_app_l_Some.
  - intros l' c Hne Hc. pose proof (lookup_lt_Some _ _ _ Hc). rewrite list_lookup_alter_ne by lia.
    apply lookup_app_l_Some. by rewrite list_lookup_alter_ne by done.
Qed.

Lemma halves_repeated st e s ec front l rest fcs ds k rcs cil new :
  halves st e s ec (front ++ [l]) rest (fcs ++ [(ds, k)]) rcs → l ∉ front → l ∉ rest →
  es_cils st !! l = Some cil → data_of st (cil_Increments cil) = Some ds → 1 < k →
  Forall2 (λ p c, es_cits st !! p = Some c) (cil_Increments cil) new →
  halves (repeated_state st e l cil new k) e s ec ((front ++ [l]) ++ [length (es_cils st)]) rest
    ((fcs ++ [(ds, k - 1)]) ++ [(ds, 1)]) rcs.
Proof.
  intros [Hne (ec' & He & Hch & Hrem) (sc & Hs & Hsch & Htx) Hce Hcs Hoe Hos Hmax Had]
    Hf Hr Hcil Hds Hk Hnew.
  destruct (repeated_state_cils st e l cil new k Hcil) as [Hl' Hn'].
  pose proof (grows_repeated_state st e l cil new k) as Hg.
  destruct (contents_snoc_inv _ _ _ _ _ Hce) as [Hcfr _].
  apply Forall_app in Hoe as [Hof [[Hod Hok] _]%Forall_cons]. simpl in Hod, Hok.
  rewrite csum_app in Hmax. simpl in Hmax. unfold csize in Hmax. simpl in Hmax.
  constructor; [done| | | | | | | |by eapply grows_adoptable].
  - exists (ec_set_Charges (ec_Charges ec' ++ [length (es_cils st)]) (ec_set_counters None None ec')).
    split_and!; [|simpl; by rewrite Hch|done]. simpl. by rewrite list_lookup_alter_eq, He.
  - exists sc. split_and!; [|done..]. simpl. by rewrite list_lookup_alter_ne.
  - apply contents_app; [apply contents_app; [by eapply grows_contents|]|]; apply contents_one, content_of_Some.
    + eexists. split_and!; [exact Hl'|by eapply grows_data|done].
    + eexists. split_and!; [exact Hn'| |done]. exact (with_clone_data st cil ds new Hds Hnew).
  - by eapply grows_contents.
  - apply Forall_app. split; [apply Forall_app; split; [done|]|]; repeat constructor; simpl; (done || lia).
  - done.
  - rewrite !csum_app. simpl. unfold csize. simpl. lia.
Qed.

Lemma at_ec_id e st : at_ec e (λ ec, ec) st = st.
Proof. destruct st. unfold at_ec. simpl. by rewrite list_alter_id. Qed.
Lemma copies_data st ps ds copies :
  data_of st ps = Some ds → Forall2 (λ p c, es_cits st !! p = Some c) ps copies →
  cit_data <$> copies = ds.
Proof.
  intros Hds%mapM_Some Hc. revert ds Hds. induction Hc as [|p c ps copies Hp _ IH]; intros ds Hds.
  - by inversion Hds.
  - apply Forall2_cons_inv_l in Hds as (d & ds' & Hd & Hds' & ->). rewrite Hp in Hd. simpl in *.
    injection Hd as <-. f_equal. by apply IH.
Qed.
Lemma last_count_data r copies :
  r ≠ 0 →
  cit_data <$> alter (cit_set_CompressFactor r) (length copies - 1)%nat copies =
    last_count r (cit_data <$> copies).
Proof.
  intros Hr. unfold last_count. destruct (Z.eqb_spec r 0) as [|_]; [done|]. rewrite length_fmap.
  apply list_fmap_alter. by apply Forall_true.
Qed.

Lemma returns_cut_increments st e s t cil ds kept dk surplus r :
  es_cils st !! t = Some cil → data_of st (cil_Increments cil) = Some ds →
  data_of st kept = Some dk → kept ≠ [] →
  returns (cut_increments e s t kept surplus r) (λ _ st', ∃ new copies f,
    st' = cut_state st e s t cil surplus new copies f ∧ cit_data <$> copies = last_count r dk ∧
    ∀ ec, ec_core (f ec) = ec_core ec) st.
Proof.
  intros Ht Hds Hdk Hkept. unfold cut_increments.
  eapply returns_seq; [by eapply returns_Clone|]. intros l2 st2 (new & -> & -> & Hnew).
  apply bind_change_interval, bind_change_ec.
  match goal with |- returns _ _ ?x => set (st3 := x) end.
  assert (data_of st3 kept = Some dk) as Hdk3.
  { refine (grows_data (length (es_cils st)) st st3 kept dk _ Hdk). constructor; simpl.
    - intros p c. apply lookup_app_l_Some.
    - intros l' c Hne Hc. rewrite list_lookup_alter_ne by done. by apply lookup_app_l_Some. }
  eapply returns_seq; [by eapply returns_clone_increments|].
  intros ps st4 (copies & -> & -> & Hcopies). apply bind_change_interval.
  pose proof (copies_data _ _ _ _ Hdk3 Hcopies) as Hcd.
  pose proof (Forall2_length _ _ _ Hcopies) as Hlen.
  assert (length (es_cits st3) = length (es_cits st) + length new)%nat as Hl3 by (simpl; by rewrite length_app).
  destruct (Z.eqb_spec r 0) as [->|Hr].
  - apply returns_ret. exists new, copies, (λ ec, ec). split_and!; [|done|done].
    unfold cut_state. by rewrite at_ec_id, Hlen, Hl3.
  - assert (0 < length kept)%nat as Hpos by (destruct kept; [done|simpl; lia]).
    eapply bind_lift with (a := (length (es_cits st3) + (length copies - 1))%nat).
    { rewrite last_lookup, lookup_seq_lt by (rewrite length_seq; lia). simpl. rewrite length_seq. f_equal. lia. }
    apply bind_change_increment, returns_modify.
    exists new, (alter (cit_set_CompressFactor r) (length copies - 1)%nat copies), (ec_set_counters None None).
    split_and!; [|by rewrite last_count_data, Hcd|done].
    unfold cut_state, at_ec, at_increment, at_interval, with_cits. simpl.
    rewrite length_alter. f_equal.
    + by rewrite Hlen, <- Hl3.
    + by rewrite alter_app_r.
Qed.

Lemma grows_surplus_ok l st st' ec rest surplus id :
  grows l st st' → l ∉ rest → Forall (refers st ec) rest →
  surplus_ok st ec rest surplus id → surplus_ok st' ec rest surplus id.
Proof.
  intros Hg Hl Hr [Hrat Hnd Hc Hn]. constructor; [done|done| |].
  - eapply Forall_impl; [exact Hc|]. intros p (c & Hp & Hok). exists c. split; [|done].
    by apply (grows_cits _ _ _ Hg).
  - by rewrite (grows_incs_of _ _ _ _ _ Hg Hl Hr).
Qed.

(** The interval that is cut is not repeated any more. *)
Lemma returns_last_repetition st e s ec front l rest fcs ds k rcs cil :
  cutting st e s ec front l rest fcs ds k rcs → es_cils st !! l = Some cil →
  returns (last_repetition e l) (λ t st', ∃ front' fcs' cil',
    halves st' e s ec (front' ++ [t]) rest (fcs' ++ [(ds, 1)]) rcs ∧ (t ∉ front') ∧ (t ∉ rest) ∧
    es_cils st' !! t = Some cil' ∧ cil_CompressFactor cil' = 1 ∧
    cil_RatingID cil' = cil_RatingID cil ∧ data_of st' (cil_Increments cil') = Some ds ∧
    units fcs' = units (fcs ++ [(ds, k - 1)]) ∧ grows l st st') st.
Proof.
  intros Hcut Hcil. unfold last_repetition.
  destruct (cutting_interval _ _ _ _ _ _ _ _ _ _ _ Hcut) as (cil' & Hcil' & Hds & Hk).
  assert (cil' = cil) as -> by congruence.
  destruct (cutting_sizes _ _ _ _ _ _ _ _ _ _ _ Hcut) as (_ & Hkr & _).
  destruct Hcut as [Hh _ Had Hf].
  pose proof (adoptable_nodup _ _ _ Had) as [Hlr _]%NoDup_cons.
  pose proof (adoptable_refers _ _ _ Had) as [_ Hrr]%Forall_cons.
  eapply bind_interval; [done|]. rewrite Hk. case_decide as Hk1.
  2: { apply returns_ret. assert (k = 1) as -> by lia. exists front, fcs, cil. split_and!; try done.
       rewrite units_app. by rewrite app_nil_r. }
  apply bind_change_interval.
  eapply returns_seq; [eapply (returns_Clone _ l (cil_set_CompressFactor (k - 1) cil) ds);
    [simpl; by rewrite list_lookup_alter_eq, Hcil|exact Hds]|].
  intros l1 st1 (new & -> & -> & Hnew). apply bind_change_ec, bind_change_interval, returns_ret.
  simpl. rewrite length_alter.
  destruct (repeated_state_cils st e l cil new k Hcil) as [_ Hn'].
  assert (∀ ls, Forall (λ l', is_Some (es_cils st !! l')) ls → length (es_cils st) ∉ ls) as Hfresh.
  { intros ls Hls Hin. rewrite Forall_forall in Hls. apply Hls, lookup_lt_is_Some in Hin. lia. }
  exists (front ++ [l]), (fcs ++ [(ds, k - 1)]). eexists. split_and!.
  - exact (halves_repeated _ _ _ _ _ _ _ _ _ _ _ _ _ Hh Hf Hlr Hcil Hds Hk1 Hnew).
  - apply Hfresh. apply Forall_forall. intros l' Hl'.
    destruct (proj1 (list_elem_of_lookup _ _) Hl') as [i Hi].
    destruct (contents_of_lookup _ _ _ _ _ (hv_e _ _ _ _ _ _ _ _ Hh) Hi) as ([] & _ & Hc).
    apply content_of_Some in Hc as (? & ? & _). eauto.
  - apply Hfresh. eapply Forall_impl; [exact Hrr|]. intros l' (? & ? & _). eauto.
  - exact Hn'.
  - done.
  - done.
  - exact (with_clone_data st cil ds new Hds Hnew).
  - done.
  - exact (grows_repeated_state st e l cil new k).
Qed.

Lemma returns_cut_interval st e s ec front l rest fcs ds k rcs cil kept dk surplus dsur r :
  cutting st e s ec front l rest fcs ds k rcs → es_cils st !! l = Some cil →
  data_of st kept = Some dk → kept ≠ [] → data_of st surplus = Some dsur →
  surplus_ok st ec rest surplus (cil_RatingID cil) →
  Forall ok_data (last_count r dk) → Forall ok_data dsur →
  dsize (last_count r dk) + dsize dsur = dsize ds →
  returns (cut_interval e s l kept surplus r) (λ _ st', ∃ ls_e ls_s cs_e,
    halves st' e s ec ls_e ls_s cs_e ((dsur, 1) :: rcs) ∧
    units cs_e = units (fcs ++ [(ds, k - 1)]) ++ units_of_data (last_count r dk)) st.
Proof.
  intros Hcut Hcil Hdk Hkept Hsur Hso Hok1 Hok2 Hsize. unfold cut_interval.
  pose proof (adoptable_nodup _ _ _ (ct_adopt _ _ _ _ _ _ _ _ _ _ _ Hcut)) as [Hlr _]%NoDup_cons.
  pose proof (adoptable_refers _ _ _ (ct_adopt _ _ _ _ _ _ _ _ _ _ _ Hcut)) as [_ Hrr]%Forall_cons.
  eapply returns_seq; [by eapply returns_last_repetition|].
  intros t st1 (front' & fcs' & cil' & Hh & Hf & Hr & Ht & Hcf & Hrat & Hds & Hu & Hg).
  eapply returns_mono.
  { eapply returns_cut_increments; [exact Ht|exact Hds|by eapply grows_data|done]. }
  intros _ st2 (new2 & copies & f & -> & Hcd & Hfc). do 3 eexists. split.
  - eapply halves_cut; [exact Hh|done|done|done|done| |by eapply grows_data|done|by rewrite Hcd|done|by rewrite Hcd].
    rewrite Hrat. by eapply grows_surplus_ok.
  - by rewrite units_app, units_once, Hcd, Hu.
Qed.

(** *** The increment to cut at *)

Lemma returns_find_increment st ds atUsage done rest :
  data_of st (done ++ rest) = Some ds → Forall ok_data ds → dsize ds ≤ max_int64 →
  dsize (take (length done) ds) < atUsage ≤ dsize ds →
  returns (find_increment atUsage (length done) (dsize (take (length done) ds)) rest)
    (λ r st', st' = st ∧ ∃ i p, r = Some (i, p, dsize (take (S i) ds)) ∧ (done ++ rest) !! i = Some p ∧
      dsize (take i ds) < atUsage ≤ dsize (take (S i) ds)) st.
Proof.
  revert done. induction rest as [|p rest IH]; intros done Hds Hok Hmax Hat; simpl.
  { pose proof (data_of_length _ _ _ Hds) as Hl. rewrite app_nil_r in Hl.
    rewrite take_ge in Hat by lia. lia. }
  destruct (data_of_lookup _ _ _ (length done) p Hds) as (c & Hc & Hd); [by apply list_lookup_middle|].
  eapply bind_increment; [done|].
  assert (add64 (dsize (take (length done) ds)) (ChargingIncrement_TotalUsage c) =
          dsize (take (S (length done)) ds)) as ->.
  { rewrite (take_S_r _ _ _ Hd), dsize_app. simpl.
    pose proof (dsize_nonneg _ (Forall_take _ (length done) _ Hok)).
    pose proof (dsize_nonneg _ (Forall_drop _ (S (length done)) _ Hok)).
    destruct (Forall_lookup_1 _ _ _ _ Hok Hd) as [Hu Hk].
    rewrite <- (take_drop_middle _ _ _ Hd), dsize_app in Hmax. simpl in Hmax, Hu, Hk.
    unfold ChargingIncrement_TotalUsage. unfold max_int64 in *.
    rewrite mul64_id, add64_id; unfold int64_range, min_int64, max_int64; nia. }
  destruct (Z.leb_spec atUsage (dsize (take (S (length done)) ds))) as [Hle|Hgt].
  - apply returns_ret. split; [done|]. exists (length done), p. split_and!; [done| |lia|lia].
    by apply list_lookup_middle.
  - specialize (IH (done ++ [p])). rewrite length_app, Nat.add_1_r, <- app_assoc in IH.
    apply IH; [done|done|done|lia].
Qed.

(** The units kept reach the usage asked for, and would not without the last one. *)
Definition fits (us : list (Z * float64)) (atUsage : Z) : Prop :=
  atUsage ≤ usage_of us ∧
  (usage_of us = atUsage ∨ ∃ us' u, us = us' ++ [u] ∧ usage_of us' < atUsage).

Lemma fits_app a b atUsage : fits b atUsage → fits (a ++ b) (usage_of a + atUsage).
Proof.
  intros [Hle Hlast]. unfold fits. rewrite usage_of_app. split; [lia|].
  destruct Hlast as [<-|(us' & u & -> & Hlt)]; [by left|right].
  exists (a ++ us'), u. rewrite usage_of_app. split; [by rewrite app_assoc|lia].
Qed.
Lemma units_of_count (u : Z) (c : float64) r :
  1 ≤ r → units_of_data [(u, c, r)] = units_of_data [(u, c, r - 1)] ++ [(u, c)].
Proof.
  intros Hr. replace r with (r - 1 + 1) at 1 by lia. by rewrite units_split_count by lia.
Qed.
Lemma fits_data ds u c r atUsage :
  Forall ok_data ds → 1 ≤ r →
  (atUsage = dsize ds + u * r ∨ dsize ds + u * (r - 1) < atUsage ≤ dsize ds + u * r) →
  fits (units_of_data (ds ++ [(u, c, r)])) atUsage.
Proof.
  intros Hok Hr Hat. rewrite units_of_data_app.
  assert (∀ n, 0 ≤ n → usage_of (units_of_data [(u, c, n)]) = u * n) as Hn.
  { intros n Hn. unfold units_of_data. simpl. rewrite app_nil_r, usage_replicate. simpl. by rewrite Z2Nat.id. }
  pose proof (usage_units_of_data _ Hok) as Hds. unfold fits. rewrite usage_of_app, Hds, Hn by lia.
  destruct Hat as [->|[Hlt Hle]]; [split; [lia|by left]|]. split; [lia|right].
  exists (units_of_data ds ++ units_of_data [(u, c, r - 1)]), (u, c).
  rewrite usage_of_app, Hds, Hn by lia. split; [|lia].
  by rewrite (units_of_count u c r Hr), app_assoc.
Qed.

(** Objects at new positions only. *)
Lemma all_grows_contents st st' ls cs :
  (∀ l, grows l st st') → contents_of st ls = Some cs → contents_of st' ls = Some cs.
Proof.
  intros Hg. destruct (exist_fresh (list_to_set ls : gset nat)) as [l Hl].
  rewrite elem_of_list_to_set in Hl. by apply (grows_contents l).
Qed.
Lemma all_grows_adoptable st st' ec ls :
  (∀ l, grows l st st') → adoptable st ec ls → adoptable st' ec ls.
Proof.
  intros Hg. destruct (exist_fresh (list_to_set ls : gset nat)) as [l Hl].
  rewrite elem_of_list_to_set in Hl. by apply (grows_adoptable l).
Qed.
Lemma cutting_with_cits st e s ec front l rest fcs ds k rcs new :
  cutting st e s ec front l rest fcs ds k rcs →
  cutting (with_cits st new) e s ec front l rest fcs ds k rcs.
Proof.
  assert (∀ l', grows l' st (with_cits st new)) as Hg by (intros; apply grows_with_cits).
  intros [[] [] Had Hf]. constructor; [| |by eapply all_grows_adoptable|done];
    constructor; try done; by first [eapply all_grows_contents|eapply all_grows_adoptable].
Qed.
(** The counters of the event cost are reset. *)
Lemma cutting_reset st e s ec front l rest fcs ds k rcs :
  cutting st e s ec front l rest fcs ds k rcs →
  cutting (at_ec e (ec_set_counters None None) st) e s ec front l rest fcs ds k rcs.
Proof.
  intros Hcut. eapply cutting_fills; [done|]. pose proof (ct_sane _ _ _ _ _ _ _ _ _ _ _ Hcut) as [].
  assert (kept st (at_ec e (ec_set_counters None None) st)) as Hk by by apply kept_at_ec.
  split_and!; [done| |done]. constructor; try done.
  - by rewrite (kept_ecs _ _ Hk).
  - intros u. simpl. rewrite list_lookup_alter_eq. by destruct (es_ecs st !! e).
Qed.

Lemma usage_repeated ds j : Forall ok_data ds → 0 ≤ j → usage_of (units [(ds, j)]) = dsize ds * j.
Proof.
  intros Hok Hj. unfold units. rewrite bind_cons. simpl. rewrite app_nil_r. unfold units_of_content. simpl.
  by rewrite usage_concat_replicate, usage_units_of_data, Z2Nat.id.
Qed.

(** How the increment found is divided: [r] of its repetitions stay. *)
Record division (st : ECState) (ec : EventCost) (rest kept : list nat) (ratingID : string)
    (ds : list incr_data) (i : nat) (atUsage : Z) (laItCF : Z) (surplus : list nat)
    (u : Z) (c : float64) (r : Z) (dsur : list incr_data) : Prop := {
  dv_kept : data_of st kept = Some (take (S i) ds);
  dv_surplus : data_of st surplus = Some dsur;
  dv_ok : surplus_ok st ec rest surplus ratingID;
  dv_last : last_count laItCF (take (S i) ds) = take i ds ++ [(u, c, r)];
  dv_r : 0 ≤ u ∧ 1 ≤ r ≤ max_int64;
  dv_data : Forall ok_data dsur;
  dv_units : units_of_data ds = units_of_data (take i ds ++ [(u, c, r)]) ++ units_of_data dsur;
  dv_at : atUsage = dsize (take i ds) + u * r ∨
          dsize (take i ds) + u * (r - 1) < atUsage ≤ dsize (take i ds) + u * r }.

Lemma last_count_take laItCF (ds : list incr_data) i u c n :
  ds !! i = Some (u, c, n) →
  last_count laItCF (take (S i) ds) = take i ds ++ [(u, c, if laItCF =? 0 then n else laItCF)].
Proof.
  intros Hi. rewrite (take_S_r (A:=incr_data) ds i (u, c, n) Hi). unfold last_count. destruct (laItCF =? 0); [done|].
  rewrite length_app. simpl. replace (length (take i ds) + 1 - 1)%nat with (length (take i ds) + 0)%nat by lia.
  by rewrite alter_app_r.
Qed.

(** The interval that is cut keeps the increments that reach the usage. *)
Lemma returns_cut_division st e s ec front l rest fcs ds k rcs cil i atUsage laItCF surplus u c r dsur :
  cutting st e s ec front l rest fcs ds k rcs → es_cils st !! l = Some cil →
  division st ec rest (take (S i) (cil_Increments cil)) (cil_RatingID cil) ds i atUsage laItCF surplus u c r dsur →
  take (S i) (cil_Increments cil) ≠ [] →
  returns (if decide (surplus = []) then mret ()
           else cut_interval e s l (take (S i) (cil_Increments cil)) surplus laItCF)
    (λ _ st', ∃ ls_e ls_s cs_e cs_s, halves st' e s ec ls_e ls_s cs_e cs_s ∧
      units cs_e ++ units cs_s = units fcs ++ units [(ds, k)] ++ units rcs ∧
      fits (units cs_e) (csum fcs + dsize ds * (k - 1) + atUsage)) st.
Proof.
  intros Hcut Hcil [Hk Hs Hso Hl [Hu0 Hr] Hok Hun Hat] Hne.
  destruct (cutting_sizes _ _ _ _ _ _ _ _ _ _ _ Hcut) as (Hod & Hkr & Hdn & Hfn & _).
  pose proof (hv_ok_e _ _ _ _ _ _ _ _ (ct_halves _ _ _ _ _ _ _ _ _ _ _ Hcut)) as [Hof _]%Forall_app.
  assert (units [(ds, k)] = units [(ds, k - 1)] ++ units_of_data ds) as Hrep.
  { rewrite <- units_once, <- units_split_repetitions by lia. by replace (k - 1 + 1) with k by lia. }
  assert (fits (units_of_data (take i ds ++ [(u, c, r)])) atUsage) as Hfit.
  { apply fits_data; [by apply Forall_take|lia|done]. }
  assert (usage_of (units (fcs ++ [(ds, k - 1)])) = csum fcs + dsize ds * (k - 1)) as Hbase.
  { rewrite units_app, usage_of_app, usage_units, usage_repeated by (done || lia). done. }
  case_decide as Hd.
  - subst surplus. injection Hs as <-. apply returns_ret.
    rewrite app_nil_r in Hun. do 4 eexists. split_and!; [apply Hcut| |].
    + by rewrite units_app, <- app_assoc.
    + rewrite units_app, Hrep, app_assoc, <- units_app, <- Hbase, Hun. by apply fits_app.
  - eapply returns_mono; [eapply returns_cut_interval; try done|].
    + rewrite Hl. apply Forall_app. split; [by apply Forall_take|]. repeat constructor; simpl; lia.
    + rewrite Hl, <- (usage_units_of_data ds Hod), Hun, usage_of_app, !usage_units_of_data; [done|done|].
      apply Forall_app. split; [by apply Forall_take|]. repeat constructor; simpl; lia.
    + intros _ st' (ls_e & ls_s & cs_e & Hh & Hue). do 4 eexists. split_and!; [exact Hh| |].
      * rewrite Hue, Hl. change ((dsur, 1) :: rcs) with ([(dsur, 1)] ++ rcs).
        rewrite !units_app, units_once, Hrep, Hun. by rewrite <- !app_assoc.
      * rewrite Hue, Hl, <- Hbase. by apply fits_app.
Qed.

(** The increments after the one found can be adopted. *)
Lemma surplus_ok_drop st ec l rest cil i :
  adoptable st ec (l :: rest) → es_cils st !! l = Some cil →
  surplus_ok st ec rest (drop i (cil_Increments cil)) (cil_RatingID cil).
Proof.
  intros Had Hcil. pose proof (adoptable_refers _ _ _ Had) as [(cil' & Hc & Hrat & Hch)%id _]%Forall_cons.
  assert (cil' = cil) as -> by congruence.
  pose proof (adoptable_incs _ _ _ Had) as Hnd. rewrite bind_cons in Hnd.
  unfold incs_of at 1 in Hnd. rewrite Hcil in Hnd. simpl in Hnd.
  apply NoDup_app in Hnd as (Hnd & Hdisj & _).
  assert (∀ p, p ∈ drop i (cil_Increments cil) → p ∈ cil_Increments cil) as Hsub.
  { intros p. apply subseteq_drop. }
  constructor; [done| | |].
  - rewrite <- (take_drop i) in Hnd. by apply NoDup_app in Hnd as (_ & _ & ?).
  - by apply Forall_drop.
  - intros p Hp. by apply Hdisj, Hsub.
Qed.
(** A new increment with the same reference before them as well. *)
Lemma surplus_ok_cons st ec rest surplus id cit :
  adoptable st ec rest → surplus_ok st ec rest surplus id →
  (∀ p, p ∈ surplus → (p < length (es_cits st))%nat) → charge_ok ec (cit_AccountingID cit) →
  surplus_ok (with_cits st [cit]) ec rest (length (es_cits st) :: surplus) id.
Proof.
  intros Had [Hrat Hnd Hc Hn] Hold Hcit. constructor; [done| | |].
  - apply NoDup_cons. split; [|done]. intros Hin. specialize (Hold _ Hin). lia.
  - constructor.
    + exists cit. split; [|done]. simpl. by rewrite list_lookup_middle.
    + eapply Forall_impl; [exact Hc|]. intros p (c & Hp & Hok). exists c. split; [|done].
      simpl. by apply lookup_app_l_Some.
  - intros p [->|Hp]%elem_of_cons Hin; [|by apply (Hn p)].
    pose proof (adoptable_old _ _ _ _ Had Hin). lia.
Qed.

(** The two ways to divide: whole increments, or the repetitions of the last one. *)
Lemma division_whole st e s ec front l rest fcs ds k rcs cil i u c n atUsage laItCF :
  cutting st e s ec front l rest fcs ds k rcs → es_cils st !! l = Some cil →
  data_of st (cil_Increments cil) = Some ds → ds !! i = Some (u, c, n) →
  laItCF = 0 ∨ laItCF = n →
  (atUsage = dsize (take i ds) + u * n ∨
   dsize (take i ds) + u * (n - 1) < atUsage ≤ dsize (take i ds) + u * n) →
  division st ec rest (take (S i) (cil_Increments cil)) (cil_RatingID cil) ds i atUsage laItCF
    (drop (S i) (cil_Increments cil)) u c n (drop (S i) ds).
Proof.
  intros Hcut Hcil Hds Hi Hla Hat.
  destruct (cutting_sizes _ _ _ _ _ _ _ _ _ _ _ Hcut) as (Hod & _).
  destruct (Forall_lookup_1 _ _ _ _ Hod Hi) as [Hu Hn]. simpl in Hu, Hn.
  pose proof Hds as Hds'. apply mapM_Some in Hds'. constructor; try done.
  - by apply mapM_Some, Forall2_take.
  - by apply mapM_Some, Forall2_drop.
  - eapply surplus_ok_drop; [apply Hcut|done].
  - rewrite (last_count_take laItCF ds i u c n Hi). destruct Hla as [->| ->]; [done|].
    by destruct (Z.eqb_spec n 0).
  - by apply Forall_drop.
  - rewrite <- units_of_data_app, <- app_assoc. simpl. by rewrite take_drop_middle.
Qed.
Lemma division_count st e s ec front l rest fcs ds k rcs cil i p cit n atUsage r :
  cutting st e s ec front l rest fcs ds k rcs → es_cils st !! l = Some cil →
  data_of st (cil_Increments cil) = Some ds → cil_Increments cil !! i = Some p →
  es_cits st !! p = Some cit → ds !! i = Some (cit_data cit) → cit_CompressFactor cit = n →
  1 ≤ r < n →
  dsize (take i ds) + cit_Usage cit * (r - 1) < atUsage ≤ dsize (take i ds) + cit_Usage cit * r →
  division (with_cits st [cit_set_CompressFactor (n - r) cit]) ec rest
    (take (S i) (cil_Increments cil)) (cil_RatingID cil) ds i atUsage r
    (length (es_cits st) :: drop (S i) (cil_Increments cil)) (cit_Usage cit) (cit_Cost cit) r
    ((cit_Usage cit, cit_Cost cit, n - r) :: drop (S i) ds).
Proof.
  intros Hcut Hcil Hds Hp Hcit Hi Hn Hr Hat.
  destruct (cutting_sizes _ _ _ _ _ _ _ _ _ _ _ Hcut) as (Hod & _).
  destruct (Forall_lookup_1 _ _ _ _ Hod Hi) as [Hu Hnr]. simpl in Hu, Hnr. rewrite Hn in Hnr.
  pose proof Hds as Hds'. apply mapM_Some in Hds'.
  pose proof (adoptable_refers _ _ _ (ct_adopt _ _ _ _ _ _ _ _ _ _ _ Hcut))
    as [(cil' & Hc & Hrat & Hch)%id _]%Forall_cons.
  assert (cil' = cil) as -> by congruence.
  assert (∀ new, grows l st (with_cits st new)) as Hg by (intros; apply grows_with_cits).
  constructor.
  - eapply grows_data; [apply Hg|]. by apply mapM_Some, Forall2_take.
  - assert (data_of (with_cits st [cit_set_CompressFactor (n - r) cit]) (drop (S i) (cil_Increments cil)) =
      Some (drop (S i) ds)) as Hd by (eapply grows_data; [apply Hg|]; by apply mapM_Some, Forall2_drop).
    apply (data_of_cons _ _ (cit_set_CompressFactor (n - r) cit) _ (drop (S i) ds));
      [simpl; by apply list_lookup_middle|done].
  - apply surplus_ok_cons.
    + eapply adoptable_sublist, Hcut.
    + eapply surplus_ok_drop; [apply Hcut|done].
    + intros q Hq%subseteq_drop. rewrite Forall_forall in Hch. destruct (Hch q Hq) as (? & ? & _).
      by eapply lookup_lt_Some.
    + simpl. destruct (Forall_lookup_1 _ _ _ _ Hch Hp) as (c' & Hc' & Hok). by simplify_eq.
  - rewrite (last_count_take r ds i (cit_Usage cit) (cit_Cost cit) n) by (rewrite <- Hn; exact Hi).
    by destruct (Z.eqb_spec r 0) as [|_]; [lia|].
  - lia.
  - constructor; [split; simpl; lia|]. by apply Forall_drop.
  - assert (cit_data cit = (cit_Usage cit, cit_Cost cit, r + (n - r))) as Hd.
    { unfold cit_data. f_equal. lia. }
    rewrite <- (take_drop_middle _ _ _ Hi) at 1. rewrite Hd.
    change ((cit_Usage cit, cit_Cost cit, r + (n - r)) :: drop (S i) ds)
      with ([(cit_Usage cit, cit_Cost cit, r + (n - r))] ++ drop (S i) ds).
    change ((cit_Usage cit, cit_Cost cit, n - r) :: drop (S i) ds)
      with ([(cit_Usage cit, cit_Cost cit, n - r)] ++ drop (S i) ds).
    rewrite !units_of_data_app, units_split_count by lia. by rewrite <- !app_assoc.
  - by right.
Qed.

Lemma returns_divide_repetitions st e s ec front l rest fcs ds k rcs cil i p cit atUsage :
  cutting st e s ec front l rest fcs ds k rcs → es_cils st !! l = Some cil →
  data_of st (cil_Increments cil) = Some ds → cil_Increments cil !! i = Some p →
  es_cits st !! p = Some cit → ds !! i = Some (cit_data cit) →
  dsize (take i ds) < atUsage ≤ dsize (take (S i) ds) →
  returns (divide_repetitions atUsage (dsize (take (S i) ds)) cit (drop (S i) (cil_Increments cil)))
    (λ x st', cutting st' e s ec front l rest fcs ds k rcs ∧ es_cils st' = es_cils st ∧
      ∃ r dsur, division st' ec rest (take (S i) (cil_Increments cil)) (cil_RatingID cil) ds i atUsage
        x.1 x.2 (cit_Usage cit) (cit_Cost cit) r dsur) st.
Proof.
  intros Hcut Hcil Hds Hp Hcit Hd Hi.
  destruct (cutting_sizes _ _ _ _ _ _ _ _ _ _ _ Hcut) as (Hod & Hkr & Hdn & Hfn & Hmax & _).
  destruct (Forall_lookup_1 _ _ _ _ Hod Hd) as [Hu Hn]. simpl in Hu, Hn.
  rewrite (take_S_r _ _ _ Hd), dsize_app in Hi |- *. simpl dsize in Hi |- *. rewrite Z.add_0_r in Hi |- *.
  unfold divide_repetitions.
  set (before := dsize (take i ds)) in *. set (n := cit_CompressFactor cit) in *.
  assert (before + cit_Usage cit * n ≤ dsize ds) as Hle.
  { rewrite <- (take_drop_middle _ _ _ Hd), dsize_app. simpl dsize. fold before n.
    pose proof (dsize_nonneg _ (Forall_drop _ (S i) _ Hod)). lia. }
  assert (0 ≤ before) by (apply dsize_nonneg; by apply Forall_take).
  assert (∀ laItCF, laItCF = 0 ∨ laItCF = n →
    (atUsage = before + cit_Usage cit * n ∨
     before + cit_Usage cit * (n - 1) < atUsage ≤ before + cit_Usage cit * n) →
    ∃ r dsur, division st ec rest (take (S i) (cil_Increments cil)) (cil_RatingID cil) ds i atUsage
      laItCF (drop (S i) (cil_Increments cil)) (cit_Usage cit) (cit_Cost cit) r dsur) as Hwhole.
  { intros laItCF Hla Hr. exists n, (drop (S i) ds). by eapply division_whole. }
  destruct (Z.eqb_spec n 1) as [Hn1|Hn1]; simpl negb; cbv iota beta; simpl andb.
  { apply returns_ret. split_and!; [done|done|]. apply Hwhole; [by left|]. right. rewrite Hn1. lia. }
  destruct (Z.eqb_spec atUsage (before + cit_Usage cit * n)) as [Heq|Hneq]; simpl negb; cbv iota.
  { apply returns_ret. split_and!; [done|done|]. apply Hwhole; by left. }
  assert (sub64 (before + cit_Usage cit * n) (ChargingIncrement_TotalUsage cit) = before) as ->.
  { unfold ChargingIncrement_TotalUsage. fold n.
    rewrite mul64_id, sub64_id; unfold int64_range, min_int64, max_int64 in *; nia. }
  destruct (enough_count before (cit_Usage cit) n atUsage) as (Hr & Hrat); [lia|lia|lia|nia|lia|].
  set (r := enough _ _ _) in *. destruct (Z.eqb_spec r 0) as [|_]; [lia|].
  destruct (Z.eqb_spec r n) as [Hrn|Hrn].
  { apply returns_ret. split_and!; [done|done|]. apply Hwhole; [by right|right; by rewrite Hrn in Hrat]. }
  apply returns_bind. unfold returns. cbn [new_increment]. split_and!.
  - by apply cutting_with_cits.
  - done.
  - exists r. eexists. simpl. rewrite sub64_id by (unfold int64_range, min_int64, max_int64 in *; lia).
    eapply division_count; try done. lia.
Qed.

Lemma returns_trim_increments st e s ec front l rest fcs ds k rcs atUsage :
  cutting st e s ec front l rest fcs ds k rcs → 0 < atUsage ≤ dsize ds →
  returns (trim_increments e s l atUsage) (λ _ st', ∃ ls_e ls_s cs_e cs_s,
    halves st' e s ec ls_e ls_s cs_e cs_s ∧
    units cs_e ++ units cs_s = units fcs ++ units [(ds, k)] ++ units rcs ∧
    fits (units cs_e) (csum fcs + dsize ds * (k - 1) + atUsage)) st.
Proof.
  intros Hcut Hat. unfold trim_increments.
  destruct (cutting_interval _ _ _ _ _ _ _ _ _ _ _ Hcut) as (cil & Hcil & Hds & Hk).
  destruct (cutting_sizes _ _ _ _ _ _ _ _ _ _ _ Hcut) as (Hod & Hkr & Hdn & Hfn & Hmax & _).
  eapply bind_interval; [done|].
  eapply returns_seq; [apply (returns_find_increment st ds atUsage [] (cil_Increments cil)); simpl;
    [done|done|nia|lia]|].
  intros found st' (-> & i & p & -> & Hp & Hi). simpl in Hp.
  destruct (data_of_lookup _ _ _ i p Hds Hp) as (cit & Hcit & Hd).
  eapply bind_increment; [done|]. destruct (Forall_lookup_1 _ _ _ _ Hod Hd) as [Hu Hn]. simpl in Hu, Hn.
  destruct (Z.eqb_spec (cit_CompressFactor cit) 0) as [|_]; [lia|].
  apply returns_seq with (P := λ _ st1, cutting st1 e s ec front l rest fcs ds k rcs ∧
    es_cits st1 = es_cits st ∧ es_cils st1 = es_cils st).
  { case_decide; [by apply returns_ret|]. apply returns_modify. split_and!; [|done|done].
    by apply cutting_reset. }
  intros _ st1 (Hcut1 & Hcits & Hcils).
  eapply returns_seq.
  { eapply returns_divide_repetitions; [done|by rewrite Hcils| |done|by rewrite Hcits|done|done].
    unfold data_of. by rewrite Hcits. }
  intros [laItCF surplus] st2 (Hcut2 & Hcils2 & r & dsur & Hdiv). simpl in Hdiv.
  eapply returns_cut_division; [done|by rewrite Hcils2, Hcils|done|]. intros Hnil.
  apply (f_equal length) in Hnil. rewrite length_take in Hnil.
  apply lookup_lt_Some in Hp. cbn [length] in Hnil. lia.
Qed.
