(* ===== verification/EventCostParts.v ===== *)
(** * The parts of the cost of an event

    What [EventCost.Trim] does with the two parts when they are cut: recomputing the usage,
    giving the surplus references of its own, dropping stale ones; and the theorems about
    [Trim] as a whole. *)
From S2P Require Import Prelude GoFloat GoStrings GoTime DateSeries CoreUtils Values RateInterval TimeSpans CallDescriptor RatingProfile CallCost Stateful Balances Accounts EventCost EventCostTrim.

(** ** Counters *)

Lemma returns_ResetCounters st e ec cs :
  es_ecs st !! e = Some ec → contents_of st (ec_Charges ec) = Some cs → Forall ok_content cs →
  csum cs ≤ max_int64 →
  returns (ResetCounters e) (λ _ st', kept st st' ∧ sane st' e ec cs) st.
Proof.
  intros He Hcs Hok Hmax. unfold ResetCounters. apply bind_change_ec.
  set (st1 := at_ec e (ec_set_counters None None) st).
  assert (kept st st1) as Hk1 by by apply kept_at_ec.
  assert (es_ecs st1 !! e = Some (ec_set_counters None None ec)) as He1
    by (simpl; by rewrite list_lookup_alter_eq, He).
  eapply bind_event_cost; [exact He1|]. simpl.
  apply returns_visit with (I := λ done _ st', kept st st' ∧ es_ecs st' = es_ecs st1 ∧
    ∀ l, l ∈ done → es_cils st' !! l ≫= cil_usage = None).
  - split_and!; [done|done|]. by intros l Hl%not_elem_of_nil.
  - intros done l rest [] st' _ (Hk & Hes & Hnone). apply returns_modify.
    split_and!; [|done|].
    + etrans; [exact Hk|]. by apply (kept_at_interval l (λ c, cil_cached c None None None)).
    + intros l' [Hl'| ->%list_elem_of_singleton]%elem_of_app; simpl; rewrite list_lookup_alter.
      * case_decide as Hd; [subst; by destruct (es_cils st' !! l')|by apply Hnone].
      * rewrite decide_True by done. by destruct (es_cils st' !! l).
  - intros [] st' (Hk & Hes & Hnone). split; [done|]. constructor.
    + by rewrite (kept_ecs _ _ Hk), He.
    + by rewrite (kept_contents _ _ _ Hk).
    + done.
    + done.
    + intros u. by rewrite Hes, He1.
    + intros i l c u Hl _. rewrite Hnone; [done|]. by eapply list_elem_of_lookup_2.
Qed.

(** ** References of the surplus

    References are written into the objects of the surplus; what they charge stays. *)
Definition charging (c : ChargingInterval) : list nat * Z := (cil_Increments c, cil_CompressFactor c).
Definition ec_place (ec : EventCost) : Time * list nat := (ec_StartTime ec, ec_Charges ec).
Record relabels (s : nat) (st st' : ECState) : Prop := {
  rl_cits p : cit_data <$> es_cits st' !! p = cit_data <$> es_cits st !! p;
  rl_cils l : charging <$> es_cils st' !! l = charging <$> es_cils st !! l;
  rl_ecs e : e ≠ s → es_ecs st' !! e = es_ecs st !! e;
  rl_s sc : es_ecs st !! s = Some sc → texts_only sc →
    ∃ sc', es_ecs st' !! s = Some sc' ∧ ec_place sc' = ec_place sc ∧ texts_only sc' }.
#[export] Instance relabels_preorder s : PreOrder (relabels s).
Proof.
  split.
  - constructor; try done. eauto.
  - intros s1 s2 s3 [H1 H2 H3 H4] [H1' H2' H3' H4']. constructor.
    + intros. by rewrite H1', H1.
    + intros. by rewrite H2', H2.
    + intros. by rewrite H3', H3.
    + intros sc Hsc Ht. destruct (H4 _ Hsc Ht) as (sc' & Hsc' & Hch & Ht').
      destruct (H4' _ Hsc' Ht') as (sc2 & ? & ? & ?). exists sc2. split_and!; [done|congruence|done].
Qed.

Lemma relabels_content s st st' l : relabels s st st' → content_of st' l = content_of st l.
Proof.
  intros [Hp Hl _ _]. specialize (Hl l). unfold content_of.
  destruct (es_cils st' !! l) as [c'|], (es_cils st !! l) as [c|]; try done.
  injection Hl as Hi Hk. simpl. rewrite Hi, Hk. unfold data_of.
  assert (∀ ps, mapM (λ p, cit_data <$> es_cits st' !! p) ps = mapM (λ p, cit_data <$> es_cits st !! p) ps) as ->.
  { intros ps. apply mapM_ext. done. }
  done.
Qed.
Lemma relabels_contents s st st' ls : relabels s st st' → contents_of st' ls = contents_of st ls.
Proof. intros Hr. apply mapM_ext. intros l. by apply (relabels_content s). Qed.

Section references.
Context `{GoText} `{GoRuntime} `{GoHash} `{AccountData}.

(** An operation that only adds to the maps of [s]. *)
Definition adds (s : nat) (st st' : ECState) : Prop :=
  relabels s st st' ∧ es_cits st' = es_cits st ∧ es_cils st' = es_cils st.
#[export] Instance adds_preorder s : PreOrder (adds s).
Proof.
  split; [intros st; by split_and!|]. intros s1 s2 s3 (? & Hp & Hl) (? & Hp' & Hl').
  split_and!; [by etrans|by rewrite Hp'|by rewrite Hl'].
Qed.

(** The event cost at [s] is there, with texts in its filters. *)
Definition holds_texts (st : ECState) (s : nat) : Prop := ∃ sc, es_ecs st !! s = Some sc ∧ texts_only sc.
Lemma adds_texts s st st' : adds s st st' → holds_texts st s → holds_texts st' s.
Proof.
  intros ([_ _ _ Hs] & _) (sc & Hsc & Ht). destruct (Hs _ Hsc Ht) as (sc' & ? & _ & ?). by exists sc'.
Qed.

Lemma find_equal_total {A} (equals : A → res bool) entries :
  Forall (λ kv, ∃ b, equals kv.2 = Ok b) entries → ∃ k, find_equal equals entries = Ok k.
Proof.
  induction 1 as [|[k v] entries (b & Hb) _ IH]; simpl; [eauto|]. simpl in Hb. rewrite Hb. simpl.
  destruct b; eauto.
Qed.

(** Each of the five maps: the identifier is found or drawn. *)
Lemma returns_id_with_set {A} (equals : A → A → res bool) (m : gmap string A) x st :
  Forall (λ kv, ∃ b, equals kv.2 x = Ok b) (go_range m) →
  returns (id_with_set equals m x) (λ r st', es_ecs st' = es_ecs st ∧ es_cits st' = es_cits st ∧
    es_cils st' = es_cils st ∧ (r.2 = m ∨ ∃ k, r.2 = <[k := x]> m)) st.
Proof.
  intros Ht. unfold id_with_set. destruct (find_equal_total (λ v, equals v x) _ Ht) as (k & Hk).
  eapply bind_lift; [exact Hk|]. destruct k as [k|].
  - apply returns_ret. split_and!; try done. by left.
  - apply returns_bind. unfold returns, UUIDSha1Prefix. split_and!; try done. right. by eexists.
Qed.
Lemma bool_res_total {A} (equals : A → A → bool) x (l : list (string * A)) :
  Forall (λ kv, ∃ b, bool_res equals kv.2 x = Ok b) l.
Proof. apply Forall_true. intros kv. by eexists. Qed.

Lemma adds_change st st1 s f :
  es_ecs st1 = es_ecs st → es_cits st1 = es_cits st → es_cils st1 = es_cils st →
  (∀ sc, ec_place (f sc) = ec_place sc) →
  (∀ sc, es_ecs st !! s = Some sc → texts_only sc → texts_only (f sc)) →
  adds s st (at_ec s f st1).
Proof.
  intros He Hp Hl Hch Ht. split_and!; [|done|done]. constructor; simpl.
  - by rewrite Hp.
  - by rewrite Hl.
  - intros e Hne. by rewrite list_lookup_alter_ne, He by done.
  - intros sc Hsc Htx. exists (f sc). rewrite list_lookup_alter_eq, He, Hsc. by split_and!; [|apply Hch|apply Ht].
Qed.

(** An operation on one map of the event cost at [s], put back with [put]. *)
Definition elsewhere {X} (P : X → Prop) (st : ECState) (r : string * X) (st' : ECState) : Prop :=
  es_ecs st' = es_ecs st ∧ es_cits st' = es_cits st ∧ es_cils st' = es_cils st ∧ P r.2.
Lemma returns_by_id {X} (op : EventCost → SM ECState (string * X)) (put : X → EventCost → EventCost)
    (P : X → Prop) st s :
  holds_texts st s →
  (∀ sc, texts_only sc → returns (op sc) (elsewhere P st) st) →
  (∀ x sc, ec_place (put x sc) = ec_place sc) →
  (∀ x sc, P x → texts_only sc → texts_only (put x sc)) →
  returns (ec ← event_cost s; '(id, m) ← op ec; _ ← change_ec s (put m); mret id)
    (λ _ st', adds s st st') st.
Proof.
  intros (sc & Hsc & Ht) Hop Hch Htx. eapply bind_event_cost; [done|].
  eapply returns_seq; [by apply Hop|]. intros [id m] st' (? & ? & ? & Hp).
  apply bind_change_ec, returns_ret. apply adds_change; auto.
Qed.
Lemma returns_id_total {A} (equals : A → A → bool) (m : gmap string A) x st :
  returns (id_with_set (bool_res equals) m x) (elsewhere (λ _, True) st) st.
Proof.
  eapply returns_mono; [apply returns_id_with_set, bool_res_total|]. by intros ?? (? & ? & ? & _).
Qed.

Lemma returns_rating_id st s cru :
  holds_texts st s → returns (rating_id s cru) (λ _ st', adds s st st') st.
Proof.
  intros Ht. apply (returns_by_id _ _ (λ _, True)); try done. intros sc _.
  destruct cru; [apply returns_id_total|by apply returns_ret].
Qed.
Lemma returns_rates_id st s rg :
  holds_texts st s → returns (rates_id s rg) (λ _ st', adds s st st') st.
Proof.
  intros Ht. apply (returns_by_id _ _ (λ _, True)); try done. intros sc _.
  destruct rg as [[|]|]; [by apply returns_ret|apply returns_id_total|by apply returns_ret].
Qed.
Lemma returns_timing_id st s ct :
  holds_texts st s → returns (timing_id s ct) (λ _ st', adds s st st') st.
Proof.
  intros Ht. apply (returns_by_id _ _ (λ _, True)); try done. intros sc _.
  destruct ct; [apply returns_id_total|by apply returns_ret].
Qed.
Lemma returns_accounting_id st s cb :
  holds_texts st s → returns (accounting_id s cb) (λ _ st', adds s st st') st.
Proof.
  intros Ht. apply (returns_by_id _ _ (λ _, True)); try done. intros sc _.
  destruct cb; [apply returns_id_total|by apply returns_ret].
Qed.

(** Filters of texts can always be compared. *)
Definition texts (rf : RatingMatchedFilters) : Prop := map_Forall (λ _ v, ∃ s, v = IString s) rf.
Lemma texts_equal rf rf' : texts rf → texts rf' → ∃ b, RatingMatchedFilters_Equals rf rf' = Ok b.
Proof.
  intros Hr Hr'. unfold RatingMatchedFilters_Equals.
  assert (Forall (λ kv : string * iface, ∃ s, kv.2 = IString s) (go_range rf)) as Hf.
  { apply Forall_forall. intros [k v] Hkv. rewrite go_range_perm, elem_of_map_to_list in Hkv.
    exact (Hr k v Hkv). }
  induction Hf as [|[k v] l (s & Hs) _ IH]; simpl; [eauto|]. simpl in Hs. subst v.
  destruct (rf' !! k) as [v'|] eqn:E; simpl.
  - destruct (Hr' _ _ E) as [s' ->]. simpl. case_bool_decide; simpl; eauto.
  - eauto.
Qed.
Lemma returns_filters_id st s rmf :
  holds_texts st s → (∀ rf, rmf = Some rf → texts rf) →
  returns (filters_id s rmf) (λ _ st', adds s st st') st.
Proof.
  intros Ht Hrf. apply (returns_by_id _ _ (map_Forall (λ _, texts))); try done. intros sc Hsc.
  destruct rmf as [rf|]; [|by apply returns_ret]. simpl. case_decide; [by apply returns_ret|].
  eapply returns_mono; [apply returns_id_with_set|].
  - apply Forall_forall. intros [k v] Hkv. rewrite go_range_perm, elem_of_map_to_list in Hkv.
    apply texts_equal; [exact (Hsc k v Hkv)|by apply Hrf].
  - intros r st' (? & ? & ? & Hm). split_and!; [done..|]. destruct Hm as [->|[k ->]]; [done|].
    apply map_Forall_insert_2; [by apply Hrf|done].
Qed.

Lemma adds_seq {A B} s (m : SM ECState A) (f : A → SM ECState B) st :
  returns m (λ _ st', adds s st st') st →
  (∀ a st', adds s st st' → returns (f a) (λ _ st'', adds s st' st'') st') →
  returns (m ≫= f) (λ _ st', adds s st st') st.
Proof.
  intros Hm Hf. eapply returns_seq; [exact Hm|]. intros a st1 Ha.
  eapply returns_mono; [by apply Hf|]. intros b st2 Hb. etrans; [exact Ha|exact Hb].
Qed.

(** Identifiers in the surplus of what the event cost at [e] has. *)
Lemma returns_rating_of st s e ec id :
  holds_texts st s → es_ecs st !! e = Some ec → e ≠ s → texts_only ec → rating_ok ec id →
  returns (ratingGetIDFomEventCost s e id) (λ _ st', adds s st st') st.
Proof.
  intros Ht He Hne Htx Hid. unfold ratingGetIDFomEventCost. case_decide as Hd; [by apply returns_ret|].
  destruct Hid as [|[ru Hru]]; [done|]. eapply bind_event_cost; [done|].
  eapply bind_lift; [by rewrite Hru|].
  apply adds_seq; [by apply returns_timing_id|]. intros timing st1 Ht1%adds_texts; [|done].
  apply adds_seq; [apply returns_filters_id; [done|]; intros rf Hrf; exact (Htx _ _ Hrf)|].
  intros filters st2 Ht2%adds_texts; [|done].
  apply adds_seq; [by apply returns_rates_id|]. intros rates st3 Ht3%adds_texts; [|done].
  by apply returns_rating_id.
Qed.

Lemma adds_other s e st st' : adds s st st' → e ≠ s → es_ecs st' !! e = es_ecs st !! e.
Proof. intros ([] & _) ?. auto. Qed.

Lemma returns_no_charge st s e fuel id :
  no_charge id → returns (charge_id fuel s e id) (λ _ st', adds s st st') st.
Proof.
  intros Hid. destruct fuel; simpl; rewrite decide_True by exact Hid; by apply returns_ret.
Qed.
(** A charge whose extra charge has an identifier. *)
Lemma returns_charge_step st s e ec id bc fuel :
  holds_texts st s → es_ecs st !! e = Some ec → e ≠ s → texts_only ec →
  ec_Accounting ec !! id = Some bc → rating_ok ec (bc_RatingID bc) →
  (∀ st', adds s st st' →
     returns (charge_id fuel s e (bc_ExtraChargeID bc)) (λ _ st'', adds s st' st'') st') →
  returns (charge_id (S fuel) s e id) (λ _ st', adds s st st') st.
Proof.
  intros Ht He Hne Htx Hbc Hr Hextra. cbn [charge_id]. case_decide; [by apply returns_ret|].
  eapply bind_event_cost; [done|]. eapply bind_lift; [by rewrite Hbc|].
  apply adds_seq; [by eapply returns_rating_of|]. intros rid st1 Ha1.
  apply adds_seq; [by apply Hextra|]. intros xid st2 Ha2.
  apply returns_accounting_id. eapply adds_texts; [exact Ha2|]. by eapply adds_texts.
Qed.
Lemma returns_accounting_of st s e ec id :
  holds_texts st s → es_ecs st !! e = Some ec → e ≠ s → texts_only ec → charge_ok ec id →
  returns (accountingGetIDFromEventCost s e id) (λ _ st', adds s st st') st.
Proof.
  intros Ht He Hne Htx Hid. unfold accountingGetIDFromEventCost. eapply bind_event_cost; [done|].
  destruct Hid as [Hid|(bc & Hbc & Hr & Hx)]; [by apply returns_no_charge|].
  eapply returns_charge_step; [done..|]. intros st1 Ha1.
  destruct Hx as [Hx|(bc' & Hbc' & Hr' & Hx')]; [by apply returns_no_charge|].
  destruct (size (ec_Accounting ec)) as [|n] eqn:Hsz.
  { apply map_size_empty_inv in Hsz. rewrite Hsz in Hbc. done. }
  eapply returns_charge_step; [by eapply adds_texts|by rewrite (adds_other _ _ _ _ Ha1)|done..|].
  intros st2 Ha2. by apply returns_no_charge.
Qed.

Lemma relabels_texts s st st' : relabels s st st' → holds_texts st s → holds_texts st' s.
Proof.
  intros [_ _ _ Hs] (sc & Hsc & Ht). destruct (Hs _ Hsc Ht) as (sc' & ? & _ & ?). by exists sc'.
Qed.
Lemma relabels_at_increment s p id st : relabels s st (at_increment p (cit_set_AccountingID id) st).
Proof.
  constructor; simpl; [|done|done|eauto]. intros p'. rewrite list_lookup_alter.
  case_decide; [subst; by destruct (es_cits st !! p')|done].
Qed.
Lemma relabels_at_interval s l id st : relabels s st (at_interval l (cil_set_RatingID id) st).
Proof.
  constructor; simpl; [done| |done|eauto]. intros l'. rewrite list_lookup_alter.
  case_decide; [subst; by destruct (es_cils st !! l')|done].
Qed.

Lemma returns_adopt_increments st s e ec ps :
  holds_texts st s → es_ecs st !! e = Some ec → e ≠ s → texts_only ec → NoDup ps →
  Forall (λ p, ∃ cit, es_cits st !! p = Some cit ∧ charge_ok ec (cit_AccountingID cit)) ps →
  returns (visit (λ _ p, incr ← increment p;
                   id ← accountingGetIDFromEventCost s e (cit_AccountingID incr);
                   change_increment p (cit_set_AccountingID id)) () ps)
    (λ _ st', relabels s st st' ∧ es_cils st' = es_cils st ∧
      ∀ p, p ∉ ps → es_cits st' !! p = es_cits st !! p) st.
Proof.
  intros Ht He Hne Htx Hnd Hps.
  apply returns_visit with (I := λ done _ st', relabels s st st' ∧ es_cils st' = es_cils st ∧
    ∀ p, p ∉ done → es_cits st' !! p = es_cits st !! p); [done| |done].
  intros done p rest [] st1 -> (Hrl & Hcils & Hsame).
  apply NoDup_app in Hnd as (_ & Hdisj & _).
  apply Forall_app in Hps as [_ [(cit & Hcit & Hok)%id _]%Forall_cons].
  assert (p ∉ done) as Hp by (intros Hin; by apply (Hdisj p Hin); left).
  eapply bind_increment; [by rewrite Hsame|].
  eapply returns_seq.
  { eapply returns_accounting_of; [by eapply relabels_texts| |done|done|exact Hok].
    by rewrite (rl_ecs _ _ _ Hrl). }
  intros id st2 (Hrl2 & Hcits2 & Hcils2). apply returns_modify. split_and!.
  - etrans; [exact Hrl|]. etrans; [exact Hrl2|]. apply relabels_at_increment.
  - simpl. by rewrite Hcils2.
  - intros q [Hq Hqp]%not_elem_of_app. simpl. rewrite list_lookup_alter_ne, Hcits2 by set_solver.
    by apply Hsame.
Qed.

Lemma returns_adopt st s e ec ls sc :
  es_ecs st !! s = Some sc → ec_Charges sc = ls → texts_only sc → es_ecs st !! e = Some ec → e ≠ s →
  texts_only ec → adoptable st ec ls →
  returns (adopt_references s e) (λ _ st', relabels s st st') st.
Proof.
  intros Hsc <- Hst He Hne Htx Had. unfold adopt_references. eapply bind_event_cost; [done|].
  apply returns_visit with (I := λ done _ st', relabels s st st' ∧
    adoptable st' ec (drop (length done) (ec_Charges sc))); [done| |by intros ?? []].
  intros done l rest [] st1 Hl (Hrl & Had1). rewrite Hl, drop_app_length in Had1.
  pose proof (adoptable_refers _ _ _ Had1) as [(cil & Hcil & Hrat & Hps)%id Hrr]%Forall_cons.
  pose proof (adoptable_nodup _ _ _ Had1) as [Hlr Hndr]%NoDup_cons.
  pose proof (adoptable_incs _ _ _ Had1) as Hnd. rewrite bind_cons in Hnd.
  unfold incs_of at 1 in Hnd. rewrite Hcil in Hnd. simpl in Hnd.
  apply NoDup_app in Hnd as (Hnd & Hdisj & Hndi).
  assert (holds_texts st1 s) as Ht1 by (eapply relabels_texts; [done|by exists sc]).
  assert (es_ecs st1 !! e = Some ec) as He1 by by rewrite (rl_ecs _ _ _ Hrl).
  eapply bind_interval; [done|].
  eapply returns_seq; [by eapply returns_rating_of|]. intros id st2 (Hrl2 & Hcits2 & Hcils2).
  apply bind_change_interval. set (st3 := at_interval l (cil_set_RatingID id) st2).
  assert (relabels s st1 st3) as Hrl3 by (etrans; [exact Hrl2|apply relabels_at_interval]).
  eapply returns_mono.
  { apply (returns_adopt_increments st3 s e ec); [by eapply relabels_texts| |done|done|done|].
    - by rewrite (rl_ecs _ _ _ Hrl3).
    - simpl. by rewrite Hcits2. }
  intros [] st4 (Hrl4 & Hcils4 & Hcits4).
  split; [etrans; [exact Hrl|]; etrans; [exact Hrl3|exact Hrl4]|].
  rewrite Hl, length_app, <- drop_drop, drop_app_length. simpl. unfold drop at 1.
  assert (∀ l', l' ∈ rest → es_cils st4 !! l' = es_cils st1 !! l') as Hsame.
  { intros l' Hl'. rewrite Hcils4. simpl. rewrite list_lookup_alter_ne, Hcils2; [done|]. by intros ->. }
  assert (∀ l', l' ∈ rest → incs_of st4 l' = incs_of st1 l') as Hincs.
  { intros l' Hl'. unfold incs_of. by rewrite Hsame. }
  assert (rest ≫= incs_of st4 = rest ≫= incs_of st1) as Hb.
  { clear -Hincs. induction rest as [|l' rest IH]; [done|]. rewrite !bind_cons, Hincs, IH; [done| |by left].
    intros l1 Hl1. apply Hincs. by right. }
  constructor; [done|by rewrite Hb|]. apply Forall_forall. intros l' Hl'.
  rewrite Forall_forall in Hrr. destruct (Hrr _ Hl') as (c & Hc & Hr & Hp).
  exists c. split_and!; [by rewrite Hsame|done|]. rewrite Forall_forall in Hp |- *. intros p Hpc.
  destruct (Hp p Hpc) as (cit & Hcit & Hok). exists cit. split; [|done].
  rewrite Hcits4; [simpl; by rewrite Hcits2|]. intros Hin. apply (Hdisj p Hin), list_elem_of_bind.
  exists l'. split; [|done]. unfold incs_of. by rewrite Hc.
Qed.

(** ** The end of [Trim] *)

Lemma returns_stale st e ec cs :
  es_ecs st !! e = Some ec → contents_of st (ec_Charges ec) = Some cs →
  returns (RemoveStaleReferences e) (λ _ st', ∃ ids, st' = at_ec e (stale_removed ids) st) st.
Proof.
  intros He Hcs. unfold RemoveStaleReferences. eapply bind_event_cost; [done|].
  apply returns_seq with (P := λ _ st', st' = st).
  2: { intros ids st' ->. apply returns_modify. by exists ids. }
  unfold charged_ids. apply returns_visit with (I := λ _ _ st', st' = st); [done| |done].
  intros done l rest ids st' Hl ->.
  destruct (contents_of_lookup _ _ _ (length done) l Hcs) as ([ds k] & _ & Hc).
  { rewrite Hl. by apply list_lookup_middle. }
  apply content_of_Some in Hc as (cil & Hcil & Hds & _). eapply bind_interval; [done|].
  apply returns_seq with (P := λ _ st', st' = st); [|intros accs st' ->; by apply returns_ret].
  apply returns_visit with (I := λ _ _ st', st' = st); [done| |done].
  intros done' p rest' accs st' Hp ->.
  destruct (data_of_lookup _ _ _ (length done') p Hds) as (cit & Hcit & _).
  { rewrite Hp. by apply list_lookup_middle. }
  eapply bind_increment; [done|]. by apply returns_ret.
Qed.

(** The event cost and its surplus when [Trim] returns. *)
Record trimmed (st : ECState) (e s : nat) (ls_e ls_s : list nat) (cs_e cs_s : list content)
    (start : Time) : Prop := {
  tr_e : ∃ ec, es_ecs st !! e = Some ec ∧ ec_Charges ec = ls_e ∧ ec_StartTime ec = start;
  tr_s : ∃ sc, es_ecs st !! s = Some sc ∧ ec_Charges sc = ls_s ∧
           ec_StartTime sc = Add start (csum cs_e);
  tr_ce : contents_of st ls_e = Some cs_e;
  tr_cs : contents_of st ls_s = Some cs_s;
  tr_oe : Forall ok_content cs_e;
  tr_os : Forall ok_content cs_s }.

(** Only the maps and the charges of an event cost say what can be adopted from it. *)
Lemma remainder_adoptable st ec ec' ls :
  remainder ec' = remainder ec → adoptable st ec ls → adoptable st ec' ls.
Proof.
  intros Hrem [Hn Hi Hr]. constructor; [done|done|]. eapply Forall_impl; [exact Hr|].
  intros l. unfold refers, rating_ok, charge_ok, rating_ok.
  by rewrite <- (f_equal ec_Rating Hrem : ec_Rating ec' = ec_Rating ec),
    <- (f_equal ec_Accounting Hrem : ec_Accounting ec' = ec_Accounting ec).
Qed.
Lemma remainder_texts ec ec' : remainder ec' = remainder ec → texts_only ec → texts_only ec'.
Proof.
  intros Hrem. unfold texts_only.
  by rewrite (f_equal ec_RatingFilters Hrem : ec_RatingFilters ec' = ec_RatingFilters ec).
Qed.

(** The surplus starts where the event cost ends. *)
Lemma halves_started st e s ec ls_e ls_s cs_e cs_s start :
  halves st e s ec ls_e ls_s cs_e cs_s →
  halves (at_ec s (ec_set_StartTime start) st) e s ec ls_e ls_s cs_e cs_s.
Proof.
  intros [Hne He (sc & Hs & Hch & Ht) Hce Hcs Hoe Hos Hmax Had]. constructor; try done.
  - simpl. by rewrite list_lookup_alter_ne by done.
  - exists (ec_set_StartTime start sc). simpl. by rewrite list_lookup_alter_eq, Hs.
  - destruct Had as [Hn Hi Hr]. by constructor.
Qed.

(** What is left to do when both parts have their charges. *)
Lemma returns_settle st e s ec ls_e ls_s cs_e cs_s :
  halves st e s ec ls_e ls_s cs_e cs_s → texts_only ec →
  ec_StartTime <$> es_ecs st !! s = Some (Add (ec_StartTime ec) (csum cs_e)) →
  returns (_ ← adopt_references s e; _ ← RemoveStaleReferences e; mret (Some s))
    (λ r st', r = Some s ∧ trimmed st' e s ls_e ls_s cs_e cs_s (ec_StartTime ec)) st.
Proof.
  intros [Hne (ec1 & He1 & Hch1 & Hrem) (sc & Hsc & Hsch & Hst) Hce Hcs Hoe Hos _ Had] Htx Hstart.
  rewrite Hsc in Hstart. simpl in Hstart. apply (inj Some) in Hstart.
  eapply returns_seq.
  { eapply returns_adopt; try done; [by eapply remainder_texts|by eapply remainder_adoptable]. }
  cbv beta. intros [] st1 Hrl. destruct (rl_s _ _ _ Hrl _ Hsc Hst) as (sc1 & Hsc1 & Hpl & _).
  assert (∀ ls, contents_of st1 ls = contents_of st ls) as Hcont by (intros; by eapply relabels_contents).
  eapply returns_seq.
  { apply (returns_stale st1 e ec1 cs_e); [by rewrite (rl_ecs _ _ _ Hrl)|].
    by rewrite Hcont, Hch1. }
  intros _ st2 [ids ->]. apply returns_ret. split; [done|].
  unfold ec_place in Hpl. injection Hpl as Hps Hpc. constructor; try done.
  - exists (stale_removed ids ec1). simpl. rewrite list_lookup_alter_eq, (rl_ecs _ _ _ Hrl), He1 by done.
    split_and!; [done|done|]. exact (f_equal ec_StartTime Hrem).
  - exists sc1. simpl. rewrite list_lookup_alter_ne by done. rewrite Hps, Hpc. by split_and!.
  - by rewrite <- Hce, <- Hcont.
  - by rewrite <- Hcs, <- Hcont.
Qed.

Lemma returns_trim_finish st e s ec ls_e ls_s cs_e cs_s orig atUsage :
  halves st e s ec ls_e ls_s cs_e cs_s → texts_only ec →
  orig = csum cs_e + csum cs_s → 0 ≤ atUsage ≤ csum cs_e →
  returns (trim_finish e s orig atUsage) (λ r st', r = Some s ∧
    trimmed st' e s ls_e ls_s cs_e cs_s (ec_StartTime ec)) st.
Proof.
  intros Hh Htx -> Hat. unfold trim_finish.
  pose proof (hv_max _ _ _ _ _ _ _ _ Hh) as Hmax. pose proof (hv_ok_e _ _ _ _ _ _ _ _ Hh) as Hoe.
  pose proof (hv_ok_s _ _ _ _ _ _ _ _ Hh) as Hos.
  pose proof (csum_nonneg _ Hoe). pose proof (csum_nonneg _ Hos).
  pose proof (hv_ne _ _ _ _ _ _ _ _ Hh) as Hne.
  destruct (hv_ec _ _ _ _ _ _ _ _ Hh) as (ec1 & He1 & Hch1 & Hrem1).
  eapply returns_seq.
  { apply (returns_ResetCounters st e ec1 cs_e); [done| |done|lia]. rewrite Hch1. apply Hh. }
  intros [] st1 (Hk1 & Hs1). eapply returns_seq; [by apply returns_GetUsage|].
  intros u st2 (-> & (Hk2 & Hs2 & _) & _).
  assert (halves st2 e s ec ls_e ls_s cs_e cs_s) as Hh2 by (eapply halves_kept; [done|by etrans]).
  destruct (Z.ltb_spec (csum cs_e) atUsage) as [|_]; [lia|].
  destruct (hv_sc _ _ _ _ _ _ _ _ Hh2) as (sc2 & Hsc2 & Hchs2 & Hts2).
  eapply returns_seq.
  { apply (returns_ResetCounters st2 s sc2 cs_s); [done| |done|lia]. rewrite Hchs2. apply Hh2. }
  intros [] st3 (Hk3 & Hs3).
  pose proof (halves_kept _ _ _ _ _ _ _ _ _ Hh2 Hk3) as Hh3.
  destruct (hv_ec _ _ _ _ _ _ _ _ Hh3) as (ec3 & He3 & Hch3 & Hrem3).
  destruct (hv_sc _ _ _ _ _ _ _ _ Hh3) as (sc3 & Hsc3 & Hchs3 & Hts3).
  assert (ec_StartTime ec3 = ec_StartTime ec) as Hstart by exact (f_equal ec_StartTime Hrem3).
  eapply bind_event_cost; [done|]. rewrite Hstart. apply bind_change_ec.
  set (st4 := at_ec s (ec_set_StartTime (Add (ec_StartTime ec) (csum cs_e))) st3).
  set (sc4 := ec_set_StartTime (Add (ec_StartTime ec) (csum cs_e)) sc3).
  assert (es_ecs st4 !! s = Some sc4) as Hsc4 by (simpl; by rewrite list_lookup_alter_eq, Hsc3).
  assert (sane st4 s sc4 cs_s) as Hs4.
  { destruct Hs3 as [_ Hc Ho Hm Hu Hca]. constructor; try done.
    - by rewrite Hsc4.
    - simpl. by rewrite Hchs3, <- Hchs2.
    - simpl. intros u. rewrite list_lookup_alter_eq, Hsc3. simpl. rewrite Hsc3 in Hu. by apply Hu.
    - intros i l c u Hi. apply (Hca i l c u). by rewrite Hchs2, <- Hchs3. }
  eapply returns_seq; [by apply returns_GetUsage|]. intros u st5 (-> & (Hk5 & _) & _).
  rewrite sub64_id by (unfold int64_range, min_int64, max_int64 in *; lia).
  destruct (Z.ltb_spec (csum cs_e + csum cs_s - atUsage) (csum cs_s)) as [|_]; [lia|].
  apply returns_settle; [eapply halves_kept; [by apply halves_started|done]|done|].
  pose proof (kept_ecs _ _ Hk5 s) as Hec. rewrite Hsc4 in Hec.
  destruct (es_ecs st5 !! s) as [sc5|]; [|done]. apply (inj Some) in Hec. simpl. f_equal.
  exact (f_equal ec_StartTime Hec).
Qed.

(** ** Trim *)

(** An event cost that [Trim] can divide. *)
Record trimmable (st : ECState) (e : nat) (ec : EventCost) (cs : list content) : Prop := {
  tm_ec : es_ecs st !! e = Some ec;
  tm_sane : sane st e ec cs;
  tm_idx : idx_ok st (ec_Charges ec) cs;
  tm_adopt : adoptable st ec (ec_Charges ec);
  tm_texts : texts_only ec;
  tm_summary : is_Some (ec_AccountSummary ec) }.

(** The units of usage that the event cost at [e] charges, and its start. *)
Definition charged (st : ECState) (e : nat) (start : Time) (us : list (Z * float64)) : Prop :=
  ∃ ec cs, es_ecs st !! e = Some ec ∧ ec_StartTime ec = start ∧
    contents_of st (ec_Charges ec) = Some cs ∧ Forall ok_content cs ∧ us = units cs.

Lemma trimmed_charged st e s ls_e ls_s cs_e cs_s start :
  trimmed st e s ls_e ls_s cs_e cs_s start →
  charged st e start (units cs_e) ∧ charged st s (Add start (usage_of (units cs_e))) (units cs_s).
Proof.
  intros [(ec & He & <- & Hse) (sc & Hs & <- & Hss) Hce Hcs Hoe Hos]. rewrite usage_units by done.
  split; eexists _, _; by split_and!.
Qed.

Lemma adoptable_tail st ec a b : adoptable st ec (a ++ b) → adoptable st ec b.
Proof. induction a as [|l a IH]; [done|]. intros Had. eapply IH, adoptable_sublist, Had. Qed.

(** The charges up to the active interval stay, those after it go to the surplus. *)
Definition parted (st : ECState) (e s i : nat) (ls : list nat) : ECState :=
  at_ec e (λ ec, ec_set_Charges (take (S i) (ec_Charges ec)) (ec_set_counters None None ec))
    (at_ec s (ec_set_Charges (drop (S i) ls)) st).

Lemma parted_ecs st e s i ec sc :
  e ≠ s → ec_core <$> es_ecs st !! e = Some (ec_core ec) → es_ecs st !! s = Some sc →
  es_ecs (parted st e s i (ec_Charges ec)) !! e =
    Some (ec_set_Charges (take (S i) (ec_Charges ec)) (ec_core ec)) ∧
  es_ecs (parted st e s i (ec_Charges ec)) !! s = Some (ec_set_Charges (drop (S i) (ec_Charges ec)) sc).
Proof.
  intros Hne He Hs. simpl. rewrite list_lookup_alter_eq, !list_lookup_alter_ne, list_lookup_alter_eq, Hs by done.
  split; [|done]. destruct (es_ecs st !! e) as [ec1|]; [|done]. simpl in He. apply (inj Some) in He.
  pose proof (f_equal ec_Charges He : ec_Charges ec1 = ec_Charges ec) as Hch. simpl. rewrite Hch. f_equal.
  change (ec_set_counters None None ec1) with (ec_core ec1). by rewrite He.
Qed.

Lemma cutting_parted st e s ec cs i l c atUsage sc :
  sane st e ec cs → adoptable st ec (ec_Charges ec) → active st ec cs atUsage i l → cs !! i = Some c →
  e ≠ s → es_ecs st !! s = Some sc → texts_only sc →
  cutting (parted st e s i (ec_Charges ec)) e s ec (take i (ec_Charges ec)) l
    (drop (S i) (ec_Charges ec)) (take i cs) c.1 c.2 (drop (S i) cs).
Proof.
  intros Hs Had (Hl & _ & _) Hc Hne Hsc Htx.
  destruct (parted_ecs st e s i ec sc Hne (sane_ec _ _ _ _ Hs) Hsc) as [He' Hs'].
  set (st' := parted _ _ _ _ _) in *.
  assert (∀ ls, contents_of st' ls = contents_of st ls) as Hcont by done.
  assert (take i (ec_Charges ec) ++ [l] = take (S i) (ec_Charges ec)) as Hls by by rewrite (take_S_r _ _ _ Hl).
  assert (take i cs ++ [(c.1, c.2)] = take (S i) cs) as Hcs
    by (symmetry; destruct c; exact (take_S_r _ _ _ Hc)).
  assert (contents_of st (take (S i) (ec_Charges ec)) = Some (take (S i) cs)) as Hct.
  { apply mapM_Some, Forall2_take, mapM_Some, Hs. }
  pose proof (csum_take cs (S i) (sane_ok _ _ _ _ Hs)) as Htake.
  pose proof (sane_max _ _ _ _ Hs) as Hmax.
  rewrite <- (take_drop_middle _ _ _ Hl) in Had. pose proof (adoptable_tail _ _ _ _ Had) as Htail.
  assert (∀ ls, adoptable st ec ls → adoptable st' ec ls) as Had'.
  { intros ls [Hn Hi Hr]. by constructor. }
  constructor; rewrite ?Hls, ?Hcs.
  - constructor; try done; rewrite ?Hcont.
    + eexists. by split_and!.
    + eexists. by split_and!.
    + apply mapM_Some, Forall2_drop, mapM_Some, Hs.
    + apply Forall_take, Hs.
    + apply Forall_drop, Hs.
    + rewrite <- csum_app, take_drop. apply Hs.
    + eapply Had', adoptable_sublist, Htail.
  - constructor; rewrite ?Hcont; try done.
    + by rewrite He'.
    + apply Forall_take, Hs.
    + lia.
    + by rewrite He'.
    + intros j l' c' u Hj Hcj. simpl in Hj. apply lookup_take_Some in Hj as [Hj _].
      apply lookup_take_Some in Hcj as [Hcj _]. by eapply (sane_caches _ _ _ _ Hs).
  - by apply Had'.
  - pose proof (adoptable_nodup _ _ _ Had) as (_ & Hd & _)%NoDup_app.
    intros Hin. apply (Hd _ Hin). by left.
Qed.

(** Both parts together charge the units [us], in their order, and the first one what
    reaches the usage asked for. *)
Definition parts (st : ECState) (e s : nat) (start : Time) (us : list (Z * float64))
    (atUsage : Z) : Prop :=
  ∃ us_e us_s, charged st e start us_e ∧ charged st s (Add start (usage_of us_e)) us_s ∧
    us = us_e ++ us_s ∧ fits us_e atUsage.

Lemma returns_finish_parts st e s ec ls_e ls_s cs_e cs_s us orig atUsage at' :
  halves st e s ec ls_e ls_s cs_e cs_s → texts_only ec → us = units cs_e ++ units cs_s →
  orig = usage_of us → fits (units cs_e) atUsage → 0 ≤ at' ≤ atUsage →
  returns (trim_finish e s orig at')
    (λ r st', r = Some s ∧ parts st' e s (ec_StartTime ec) us atUsage) st.
Proof.
  intros Hh Htx -> -> Hfit Hat. pose proof (hv_ok_e _ _ _ _ _ _ _ _ Hh) as Hoe.
  pose proof (hv_ok_s _ _ _ _ _ _ _ _ Hh) as Hos. pose proof (proj1 Hfit) as Hle.
  rewrite usage_units in Hle by done.
  eapply returns_mono.
  - eapply returns_trim_finish; [exact Hh|exact Htx| |lia]. by rewrite usage_of_app, !usage_units.
  - intros r st' [-> [Hce Hcs]%trimmed_charged]. split; [done|]. eexists _, _. by split_and!.
Qed.

Lemma returns_divide st e s ec front l rest fcs ds k rcs us atUsage :
  cutting st e s ec front l rest fcs ds k rcs → texts_only ec → idx_of st l = Some (csum fcs) →
  csum fcs < atUsage ≤ csum fcs + dsize ds * k →
  us = units fcs ++ units [(ds, k)] ++ units rcs →
  returns (_ ← trim_repetitions e s l atUsage;
           usage ← GetUsage e;
           if atUsage =? usage then trim_finish e s (usage_of us) atUsage
           else
             last ← ChargingInterval_Usage l;
             let atUsage := sub64 atUsage (sub64 usage last) in
             _ ← trim_increments e s l atUsage;
             trim_finish e s (usage_of us) atUsage)
    (λ r st', r = Some s ∧ parts st' e s (ec_StartTime ec) us atUsage) st.
Proof.
  intros Hcut Htx Hidx Hat ->.
  eapply returns_seq; [by eapply returns_trim_repetitions|].
  intros _ st1 (r & rest' & rcs' & Hcut1 & <- & Hr).
  destruct (cutting_sizes _ _ _ _ _ _ _ _ _ _ _ Hcut1) as (Hod & Hkr & Hdn & Hfn & Hmax & Hsum).
  eapply returns_seq; [apply returns_GetUsage, Hcut1|]. intros u st2 (-> & Hf2 & _).
  pose proof (cutting_fills _ _ _ _ _ _ _ _ _ _ _ _ Hcut1 Hf2) as Hcut2. rewrite Hsum.
  assert (usage_of (units (fcs ++ [(ds, r)])) = csum fcs + dsize ds * r) as Husage.
  { rewrite usage_units; [done|]. exact (hv_ok_e _ _ _ _ _ _ _ _ (ct_halves _ _ _ _ _ _ _ _ _ _ _ Hcut1)). }
  destruct (Z.eqb_spec atUsage (csum fcs + dsize ds * r)) as [Heq|Hneq].
  { eapply returns_finish_parts; [apply Hcut2|done|by rewrite units_app, <- app_assoc|done| |lia].
    split; [lia|left; lia]. }
  destruct (cutting_at _ _ _ _ _ _ _ _ _ _ _ Hcut2) as [Hl Hc].
  eapply returns_seq; [eapply returns_Usage; [apply Hcut2|exact Hl|exact Hc]|].
  intros u st3 (-> & Hf3 & _). pose proof (cutting_fills _ _ _ _ _ _ _ _ _ _ _ _ Hcut2 Hf3) as Hcut3.
  cbn [fst]. unfold max_int64 in Hmax.
  assert (dsize ds ≤ dsize ds * r) by nia.
  rewrite (sub64_id (csum fcs + dsize ds * r)), sub64_id by (unfold int64_range, min_int64, max_int64; nia).
  eapply returns_seq; [eapply returns_trim_increments; [exact Hcut3|nia]|].
  intros _ st4 (ls_e & ls_s & cs_e & cs_s & Hh & Hu & Hfit).
  eapply returns_finish_parts; [exact Hh|done|by rewrite Hu|done| |nia].
  replace atUsage with (csum fcs + dsize ds * (r - 1) +
    (atUsage - (csum fcs + dsize ds * r - dsize ds))) at 1 by lia. exact Hfit.
Qed.

Lemma kept_length st st' : kept st st' → length (es_ecs st') = length (es_ecs st).
Proof.
  intros Hk. assert (ec_core <$> es_ecs st' = ec_core <$> es_ecs st) as Heq.
  { apply list_eq. intros e. rewrite !list_lookup_fmap. apply Hk. }
  apply (f_equal length) in Heq. by rewrite !length_fmap in Heq.
Qed.

(** An event cost is added to the store. *)
Lemma with_ec_sane st e ec cs sc :
  sane st e ec cs → (e < length (es_ecs st))%nat →
  sane (mkECState (es_ecs st ++ [sc]) (es_cils st) (es_cits st) (es_uuids st)) e ec cs.
Proof.
  intros [] Hlt. constructor; try done; simpl; by rewrite lookup_app_l by lia.
Qed.

(** The same without the surplus: what is kept is kept. *)
Lemma kept_surplus st st' sc :
  kept (mkECState (es_ecs st ++ [sc]) (es_cils st) (es_cits st) (es_uuids st)) st' →
  ec_RatingFilters sc = ∅ → holds_texts st' (length (es_ecs st)).
Proof.
  intros Hk Hf. pose proof (kept_ecs _ _ Hk (length (es_ecs st))) as Hec. simpl in Hec.
  rewrite list_lookup_middle in Hec by done. unfold holds_texts.
  destruct (es_ecs st' !! length (es_ecs st)) as [sc'|]; [|done]. apply (inj Some) in Hec.
  exists sc'. split; [done|]. unfold texts_only.
  rewrite (f_equal ec_RatingFilters Hec : ec_RatingFilters sc' = ec_RatingFilters sc), Hf.
  apply map_Forall_empty.
Qed.
Lemma returns_Trim st e ec cs atUsage :
  trimmable st e ec cs → 0 < atUsage < csum cs →
  returns (Trim e atUsage) (λ r st', r = Some (length (es_ecs st)) ∧
    parts st' e (length (es_ecs st)) (ec_StartTime ec) (units cs) atUsage) st.
Proof.
  intros [He Hs Hix Had Htx [summary Hsum]] Hat. pose proof (lookup_lt_Some _ _ _ He) as Hlt.
  unfold Trim. eapply returns_seq; [by apply returns_GetUsage|]. intros u st1 (-> & (Hk1 & Hs1 & Hi1) & _).
  destruct (Z.leb_spec (csum cs) atUsage) as [|_]; [lia|].
  destruct (Z.eqb_spec atUsage 0) as [|_]; [lia|].
  pose proof (sane_ec _ _ _ _ Hs1) as He1.
  destruct (es_ecs st1 !! e) as [ec1|] eqn:E1; [|done]. simpl in He1. apply (inj Some) in He1.
  eapply bind_event_cost; [done|].
  rewrite (f_equal ec_AccountSummary He1 : ec_AccountSummary ec1 = ec_AccountSummary ec), Hsum.
  rewrite (f_equal ec_Charges He1 : ec_Charges ec1 = ec_Charges ec).
  eapply bind_lift; [done|].
  assert (length (es_ecs st1) = length (es_ecs st)) as Hlen by by apply kept_length.
  apply returns_bind. unfold returns at 1, new_ec. rewrite Hlen.
  match goal with |- returns _ _ (mkECState (_ ++ [?x]) _ _ _) => set (sc := x) end.
  set (st2 := mkECState _ _ _ _).
  pose proof (with_ec_sane st1 e ec cs sc Hs1 ltac:(lia)) as Hs2. fold st2 in Hs2.
  assert (∀ l x, idx_of st2 l = Some x → idx_of st l = Some x) as Hix2 by (intros l x; by rewrite <- Hi1).
  eapply returns_seq; [eapply (returns_find_active st2 e ec cs atUsage []); [exact Hs2|apply Had| |done|simpl; lia]|].
  { intros i l x Hl Hx. eapply Hix; [exact Hl|by apply Hix2]. }
  intros found st3 (i & l & -> & Hact & Hk3 & Hs3).
  pose proof Hact as (Hl & Hia & Hidx). destruct (sane_lookup _ _ _ _ _ _ Hs3 Hl) as (c & cil & Hc & _ & Hcil & _ & Hcf).
  destruct (Forall_lookup_1 _ _ _ _ (sane_ok _ _ _ _ Hs3) Hc) as [_ Hok].
  unfold idx_of in Hidx. rewrite Hcil in Hidx. simpl in Hidx.
  eapply bind_lift; [by rewrite Hl|]. eapply bind_interval; [done|]. eapply bind_lift; [by rewrite Hidx|].
  destruct (Z.leb_spec atUsage (csum (take i cs))) as [|_]; [lia|].
  destruct (Z.eqb_spec (cil_CompressFactor cil) 0) as [|_]; [lia|].
  apply bind_change_ec, bind_change_ec.
  fold (parted st3 e (length (es_ecs st)) i (ec_Charges ec)).
  assert (adoptable st3 ec (ec_Charges ec)) as Had3.
  { eapply kept_adoptable; [exact Hk3|]. destruct (kept_adoptable _ _ _ _ Hk1 Had). by constructor. }
  pose proof (kept_surplus st1 st3 sc Hk3 eq_refl) as (sc3 & Hsc3 & Htx3). rewrite Hlen in Hsc3.
  rewrite <- (usage_units cs) by apply Hs.
  eapply returns_divide.
  - eapply cutting_parted; [exact Hs3|done|exact Hact|done|lia|exact Hsc3|done].
  - done.
  - exact (proj2 (proj2 Hact)).
  - rewrite (csum_take_S _ _ _ Hc) in Hia. exact Hia.
  - rewrite <- (take_drop_middle _ _ _ Hc) at 1. change (c :: ?x) with ([c] ++ x).
    rewrite !units_app. by destruct c.
Qed.

(** [Trim] dereferences the account summary of the event cost it copies from. *)
Lemma Trim_without_summary st e ec cs atUsage :
  sane st e ec cs → ec_AccountSummary ec = None → 0 < atUsage < csum cs →
  (Trim e atUsage st).1 = Panic.
Proof.
  intros Hs Hnone Hat.
  destruct (proj1 (returns_run _ _ _) (returns_GetUsage _ _ _ _ Hs)) as (u & st1 & Hu & -> & (_ & Hs1 & _) & _).
  unfold Trim, mbind at 1, SM_bind at 1. rewrite Hu.
  destruct (Z.leb_spec (csum cs) atUsage) as [|_]; [lia|].
  destruct (Z.eqb_spec atUsage 0) as [|_]; [lia|].
  pose proof (sane_ec _ _ _ _ Hs1) as He1. unfold mbind, SM_bind, event_cost.
  destruct (es_ecs st1 !! e) as [ec1|]; [|done]. simpl in He1. apply (inj Some) in He1. simpl.
  by rewrite (f_equal ec_AccountSummary He1 : ec_AccountSummary ec1 = ec_AccountSummary ec), Hnone.
Qed.

(** C17: A usage between nothing and the whole, given to [EventCost.Trim], divides the event
    cost: it returns a surplus, which starts where the event cost now ends. The units of usage
    that were charged, each with its cost, are the ones of the event cost followed by the ones
    of the surplus, none lost, repeated or put elsewhere; the event cost keeps those up to the
    usage asked for and no unit more than are needed to reach it. *)
Theorem Trim_partition st e ec cs atUsage :
  trimmable st e ec cs → 0 < atUsage < csum cs →
  ∃ s st', Trim e atUsage st = (Ok (Some s), st') ∧ e ≠ s ∧
    parts st' e s (ec_StartTime ec) (units cs) atUsage.
Proof.
  intros Ht Hat. pose proof (lookup_lt_Some _ _ _ (tm_ec _ _ _ _ Ht)) as Hlt.
  destruct (proj1 (returns_run _ _ _) (returns_Trim _ _ _ _ _ Ht Hat)) as (r & st' & Hr & -> & Hp).
  exists (length (es_ecs st)), st'. split_and!; [done|lia|done].
Qed.
End references.
