(* ===== verification/EventCostExamples.v ===== *)
(** * Event costs on concrete stores

    [EventCost.Trim] at work, and what it, [Merge], [AsCallCost] and
    [RemoveStaleReferences] do to event costs that are not as the theorems ask. *)
From S2P Require Import Prelude GoFloat GoStrings GoTime DateSeries CoreUtils Collections Values RateInterval TimeSpans CallDescriptor RatingProfile CallCost Stateful Balances Accounts DebitExamples EventCost EventCostTrim EventCostParts.

Section examples.
#[local] Existing Instances plain_text plain_accounts reference_runtime.
#[local] Instance plain_hash : GoHash := {| sha1_hex s := s |}.

Definition no_rating_unit : RatingUnit := mkRatingUnit f0 "" 0 f0 "" "" "" "".
Definition charge_with (rating extra : string) : BalanceCharge := mkBalanceCharge "t:1001" "m" rating f1 extra.
Definition summary_of (id : string) : AccountSummary := mkAccountSummary "t" id [] false false.

(** An event cost with the given intervals, rated with "r" and charged to "a". *)
Definition rated (charges : list nat) (summary : option AccountSummary) : EventCost :=
  mkEventCost "cgrid" "run" zero_time None None charges summary {["r" := no_rating_unit]}
    {["a" := charge_with "r" ""]} ∅ ∅ ∅.
Definition cit_of (usage cost count : Z) (id : string) : ChargingIncrement :=
  mkChargingIncrement usage (f_of_Z cost) id count.
Definition cil_of (incs : list nat) (count : Z) : ChargingInterval :=
  mkChargingInterval "r" incs count None None None.

(** A minute, and three times 20 seconds in two parts and 20 seconds in one. *)
Definition three_minutes (summary : option AccountSummary) : ECState := mkECState
  [rated [0; 1]%nat summary] [cil_of [0%nat] 1; cil_of [1; 2]%nat 3]
  [cit_of 60 5 1 "a"; cit_of 10 1 2 "a"; cit_of 20 3 1 "a"] 0.
Definition three_contents : list content :=
  [([(60, f_of_Z 5, 1)], 1); ([(10, f_of_Z 1, 2); (20, f_of_Z 3, 1)], 3)].

Lemma three_minutes_trimmable summary :
  trimmable (three_minutes (Some summary)) 0 (rated [0; 1]%nat (Some summary)) three_contents.
Proof.
  constructor; try done.
  - constructor; try done.
    + apply (bool_decide_unpack _). by vm_compute.
    + intros [|[|i]] l c u Hl Hc; simplify_eq/=; done.
  - intros [|[|i]] l x Hl; simplify_eq/=; done.
  - assert (charge_ok (rated [0; 1]%nat (Some summary)) "a") as Hok.
    { right. eexists. split_and!; [done|right; eexists; done|left; by left]. }
    constructor.
    + apply (bool_decide_unpack _). by vm_compute.
    + apply (bool_decide_unpack _). by vm_compute.
    + repeat constructor; eexists; (split_and!; [done|right; eexists; done|]);
        repeat constructor; eexists; (split; [done|exact Hok]).
Qed.

(** After 115 seconds the event keeps 120: the minute, a whole repetition and the two parts
    of ten seconds of the next one. *)
Lemma Trim_partition_witness :
  ∃ s st', Trim 0 115 (three_minutes (Some (summary_of "1001"))) = (Ok (Some s), st') ∧ 0%nat ≠ s ∧
    parts st' 0 s zero_time (units three_contents) 115.
Proof.
  apply (Trim_partition _ _ _ _ 115 (three_minutes_trimmable (summary_of "1001"))). vm_compute. by split.
Defined.

(** ** What goes wrong *)

Definition charges_of (st : ECState) (e : nat) : list content :=
  default [] (ec ← es_ecs st !! e; contents_of st (ec_Charges ec)).
Definition summary : option AccountSummary := Some (summary_of "1001").

(** The accounting identifiers of the increments that the event cost does not have. *)
Definition dangling (st : ECState) (e : nat) : list string :=
  match es_ecs st !! e with
  | Some ec => filter (λ id, ec_Accounting ec !! id = None)
      (omap (λ p, cit_AccountingID <$> es_cits st !! p) (ec_Charges ec ≫= incs_of st))
  | None => []
  end.

(** The increments after the cut, in a repeated interval, belong to the repetitions that the
    event keeps as well as to the surplus: they get the identifiers of the surplus. *)
Lemma Trim_shares_increments :
  let '(r, st) := Trim 0 115 (three_minutes summary) in
  r = Ok (Some 1%nat) ∧ dangling (three_minutes summary) 0 = [] ∧ dangling st 0 ≠ [].
Proof. vm_compute. done. Qed.

(** A charge of the correction of a rounding refers to no rating. *)
Definition rounded : ECState := mkECState
  [mkEventCost "cgrid" "run" zero_time None None [0; 1]%nat summary {["r" := no_rating_unit]}
     {["a" := charge_with MetaRounding ""]} ∅ ∅ ∅]
  [cil_of [0%nat] 1; cil_of [1%nat] 1] [cit_of 60 5 1 "a"; cit_of 60 5 1 "a"] 0.
Lemma Trim_rounded : (Trim 0 60 rounded).1 = Panic.
Proof. vm_compute. reflexivity. Qed.

(** An event cost that has no charges yet cannot be merged into. *)
Definition and_empty (st : ECState) : ECState :=
  mkECState (es_ecs st ++ [rated [] summary]) (es_cils st) (es_cits st) (es_uuids st).
Lemma Merge_into_empty : (EventCost_Merge 1 [0%nat] (and_empty (three_minutes summary))).1 = Panic.
Proof. vm_compute. reflexivity. Qed.

(** An interval that equals the last one counts once, however often it is repeated. *)
Definition one_and_three : ECState := mkECState [rated [0%nat] summary; rated [1%nat] summary]
  [cil_of [0%nat] 1; cil_of [1%nat] 3] [cit_of 60 5 1 "a"; cit_of 60 5 1 "a"] 0.
Lemma Merge_counts_once :
  let st := (EventCost_Merge 0 [1%nat] one_and_three).2 in
  csum (charges_of one_and_three 0) = 60 ∧ csum (charges_of one_and_three 1) = 180 ∧
  csum (charges_of st 0) = 120.
Proof. vm_compute. done. Qed.

(** Timings that nothing refers to are kept; the rates that have the name of one go. *)
Definition stale_timing : EventCost :=
  ec_set_maps {["r" := mkRatingUnit f0 "" 0 f0 "" "" "x" ""]} {["a" := charge_with "r" ""]} ∅
    {["x" := [mkRate 0 f1 60 60]]} {["x" := mkChargedTiming None None None None ""]}
    (rated [0%nat] summary).
Lemma stale_timings_take_rates :
  let st := (RemoveStaleReferences 0 (mkECState [stale_timing] [cil_of [0%nat] 1] [cit_of 60 5 1 "a"] 0)).2 in
  (λ ec, (ec_Rates ec !! "x", bool_decide (is_Some (ec_Timings ec !! "x")))) <$> es_ecs st !! 0%nat =
    Some (None, true).
Proof. vm_compute. reflexivity. Qed.

(** Filters equal all that have their entries. *)
Lemma filters_equal_one_way :
  let some := {["Subject" := IString "1001"]} in
  let more := <["RatingPlanID" := IString "RP"]> some in
  RatingMatchedFilters_Equals some more = Ok true ∧ RatingMatchedFilters_Equals more some = Ok false.
Proof. vm_compute. done. Qed.

(** The last increment must have been charged, and its rounding cannot be alone. *)
Definition voice_of (incs : list ChargingIncrement) : ECState := mkECState
  [mkEventCost "cgrid" "run" zero_time None None [0%nat] summary {["r" := no_rating_unit]}
     {["a" := charge_with "r" ""; "o" := charge_with MetaRounding ""]} ∅ ∅ ∅]
  [cil_of (seq 0 (length incs)) 1] incs 0.
Lemma AsCallCost_free_increment : (AsCallCost 0 "" (voice_of [cit_of 60 0 1 ""])).1 = Panic.
Proof. vm_compute. reflexivity. Qed.
Lemma AsCallCost_only_rounding : (AsCallCost 0 "" (voice_of [cit_of 0 1 1 "o"])).1 = Panic.
Proof. vm_compute. reflexivity. Qed.
(** The increment before the rounding is taken for it. *)
Definition round_costs (r : res (CallCost * option AccountSummary)) : list (option float64) :=
  match r with Ok (cc, _) => map (λ ts, inc_Cost <$> ts_RoundIncrement ts) (cc_Timespans cc) | _ => [] end.
Lemma AsCallCost_wrong_rounding :
  round_costs (AsCallCost 0 "" (voice_of [cit_of 60 5 1 "a"; cit_of 0 1 1 "o"])).1 = [Some (fneg (f_of_Z 5))].
Proof. vm_compute. reflexivity. Qed.

End examples.
