(* ===== verification/Suppliers.v ===== *)
(** * Suppliers of calls

    [engine/suppliers.go], [engine/libsuppliers.go] and the sorters [engine/spls_*.go]: the
    profile that matches an event, what is known about each of its suppliers (the cost of
    the event, statistics, use of resources), filtering and sorting them by the strategy of
    the profile.  Costs come from the accounts and the rating of calls.  The maps of
    sorting data are the associations of [Values]; a value that is not a float where one
    is asserted panics, also inside of a sort.  Left out: the reply as a navigable map,
    starting and stopping the service. *)
From S2P Require Import Prelude GoFloat GoStrings GoTime CoreUtils Values RateInterval TimeSpans CallDescriptor RatingProfile CallCost Rating Stateful Balances Accounts Debits Filters Resources TariffRouting Profiles EventCost.

(** ** Sorting with comparisons that panic

    [sort.Slice] calls the comparison for every element when there are two or more. *)
Class GoSlices := {
  sort_slice {A} : (A → A → res bool) → list A → res (list A);
  sort_slice_total {A} (less : A → A → res bool) (f : A → A → bool) l :
    (∀ x y, x ∈ l → y ∈ l → less x y = Ok (f x y)) →
    ∃ l', sort_slice less l = Ok l' ∧ l' ≡ₚ l ∧ (strict_weak_on f l → sorted_by f l');
  sort_slice_panic {A} (less : A → A → res bool) l x :
    x ∈ l → (2 ≤ length l)%nat → (∀ y, y ∈ l → less x y = Panic ∧ less y x = Panic) →
    sort_slice less l = Panic;
  sort_slice_short {A} (less : A → A → res bool) l : (length l < 2)%nat → sort_slice less l = Ok l
}.

(** Panics when any two elements cannot be compared. *)
Definition reference_sort `{GoRuntime} {A} (less : A → A → res bool) (l : list A) : res (list A) :=
  if (length l <? 2)%nat then Ok l
  else if forallb (λ x, forallb (λ y, is_ok (less x y)) l) l
  then Ok (go_sort (λ x y, match less x y with Ok b => b | _ => false end) l)
  else Panic.

Lemma sorted_by_agree {A} (f g : A → A → bool) (l : list A) :
  (∀ x y, x ∈ l → y ∈ l → g x y = f x y) → sorted_by g l → sorted_by f l.
Proof.
  intros Hfg Hs. induction Hs as [|x l Hs IH Hx]; constructor.
  - apply IH. intros y z Hy Hz. by apply Hfg; right.
  - apply Forall_forall. intros y Hy. rewrite Forall_forall in Hx.
    rewrite <- Hfg; [by apply Hx|by right|by left].
Qed.

Lemma reference_sort_total `{GoRuntime} {A} (less : A → A → res bool) f l :
  (∀ x y, x ∈ l → y ∈ l → less x y = Ok (f x y)) →
  ∃ l', reference_sort less l = Ok l' ∧ l' ≡ₚ l ∧ (strict_weak_on f l → sorted_by f l').
Proof.
  intros Hl. unfold reference_sort. destruct (Nat.ltb_spec (length l) 2) as [Hlen|Hlen].
  { exists l. split_and!; [done|done|]. intros _. destruct l as [|x [|y l]]; simpl in Hlen; [| |lia];
      repeat constructor. }
  replace (forallb _ l) with true.
  2: { symmetry. apply forallb_forall. intros x Hx%list_elem_of_In. apply forallb_forall.
       intros y Hy%list_elem_of_In. by rewrite Hl. }
  set (g := λ x y, match less x y with Ok b => b | _ => false end).
  assert (∀ x y, x ∈ l → y ∈ l → g x y = f x y) as Hg by (intros x y Hx Hy; unfold g; by rewrite Hl).
  eexists. split_and!; [done|apply go_sort_perm|]. intros [Ha Hn].
  assert (strict_weak_on g l) as Hw.
  { split.
    - intros a b Hina Hinb. rewrite !Hg by done. by apply Ha.
    - intros a b c Hina Hinb Hinc. rewrite !Hg by done. by apply Hn. }
  eapply sorted_by_agree, go_sort_sorted, Hw. intros x y. rewrite !go_sort_elem. apply Hg.
Qed.
#[export] Instance reference_slices `{GoRuntime} : GoSlices.
Proof.
  refine {| sort_slice A := reference_sort |}; intros A less.
  - apply reference_sort_total.
  - unfold reference_sort. intros l x Hx Hlen Hless. destruct (Nat.ltb_spec (length l) 2) as [|_]; [lia|].
    replace (forallb _ l) with false; [done|]. symmetry. apply not_true_iff_false. intros Hall.
    rewrite forallb_forall in Hall. apply list_elem_of_In in Hx as Hx'. specialize (Hall x Hx').
    rewrite forallb_forall in Hall. specialize (Hall x Hx'). by rewrite (proj1 (Hless x Hx)) in Hall.
  - unfold reference_sort. intros l Hlen. by destruct (Nat.ltb_spec (length l) 2) as [_|]; [|lia].
Defined.

(** ** Data *)

Record SortedSupplier := mkSortedSupplier {
  ssp_SupplierID : string; ssp_SupplierParameters : string; ssp_SortingData : MapStorage }.

Record SortedSuppliers := mkSortedSuppliers {
  sss_ProfileID : string; sss_Sorting : string; sss_Count : Z;
  sss_SortedSuppliers : list SortedSupplier }.

Record optsGetSuppliers := mkOptsGetSuppliers {
  og_ignoreErrors : bool; og_maxCost : float64; og_sortingParameters : list string;
  og_sortingStragety : string }.

(** [gs_nilEvent] tells an event without a map from one with an empty map. *)
Record ArgsGetSuppliers := mkArgsGetSuppliers {
  gs_IgnoreErrors : bool; gs_MaxCost : string; gs_CGREvent : option CGREvent;
  gs_nilEvent : bool; gs_Limit : option Z; gs_Offset : option Z }.

(** The profiles of the database, the other services, and the configuration.  A service
    answers with an error, none on success, and a reply. *)
Class SupplierData := {
  GetSupplierProfileDrv : string → string → res SupplierProfile;
  StatS_GetQueueFloatMetrics : string → string → option string * gmap string float64;
  ResourceS_GetResource : string → string → option string * Resource;
  (** the event altered by the attributes, and the names of the fields altered *)
  AttributeS_ProcessEvent : string → CGREvent → option string * (CGREvent * list string);
  sc_index : IndexConfig; sc_StatSConns : bool; sc_ResourceSConns : bool;
  sc_AttributeSConns : bool; sc_DefaultRatio : Z; sc_DefaultTimezone : string
}.

Section suppliers.
Context `{GoText} `{GoRuntime} `{GoSlices} `{GoHash} `{RatingData} `{AccountData} `{FilterData} `{GoErrors} `{SupplierData}.
Context (maxIncrements : Z) (fuel : nat).

#[local] Abbreviation M := (SM AccountState).

(** ** Profiles *)

Definition set_ratio (ratioMap : gmap string Z) (s : Supplier) : Supplier :=
  let ratio := match ratioMap !! su_ID s, ratioMap !! "*default" with
               | Some ratio, _ => ratio
               | None, Some ratioDefault => ratioDefault
               | None, None => sc_DefaultRatio
               end in
  mkSupplier (su_ID s) (su_FilterIDs s) (su_AccountIDs s) (su_RatingPlanIDs s) (su_ResourceIDs s)
    (su_StatIDs s) (su_Weight s) (su_Blocker s) (su_SupplierParameters s)
    {["*ratio" := IInt KInt ratio]}.

Fixpoint ratio_map (params : list string) (m : gmap string Z) : res (gmap string Z) :=
  match params with
  | [] => Ok m
  | splIDWithRatio :: params =>
      let splitted := Split splIDWithRatio CONCATENATED_KEY_SEP in
      id ← index splitted 0; val ← index splitted 1;
      match Atoi val with
      | None => Err (Atoi_error val)
      | Some ratioVal => ratio_map params (<[id := ratioVal]> m)
      end
  end.

Definition compileCacheParameters (sp : SupplierProfile) : res SupplierProfile :=
  if decide (spp_Sorting sp = "*load") then
    ratioMap ← ratio_map (spp_SortingParameters sp) ∅;
    Ok (mkSupplierProfile (spp_Tenant sp) (spp_ID sp) (spp_FilterIDs sp) (spp_ActivationInterval sp)
          (spp_Sorting sp) (spp_SortingParameters sp) (map (set_ratio ratioMap) (spp_Suppliers sp))
          (spp_Weight sp))
  else Ok sp.

(** [GetSupplierProfile], without the cache. *)
Definition GetSupplierProfile (tenant id : string) : res SupplierProfile :=
  sp ← GetSupplierProfileDrv tenant id; compileCacheParameters sp.

Definition supplier_ids (ev : CGREvent) : res (list string) :=
  ids ← indexed_ids sc_index "*supplier_filter_indexes" "spp_" (ev_Tenant ev) ev;
  Ok (go_range ids).*1.

(** One profile, the heaviest, or all of them by weight. *)
Definition matchingSupplierProfilesForEvent (ev : CGREvent) (singleResult : bool)
    : res (list SupplierProfile) :=
  ids ← supplier_ids ev;
  let get := GetSupplierProfile (ev_Tenant ev) in
  if singleResult then
    best ← match_profiles get heavier ev ids None;
    match best with Some p => Ok [p] | None => Err ErrNotFound end
  else
    ps ← match_profiles get (λ ps _ p, ps ++ [p]) ev ids [];
    match ps with [] => Err ErrNotFound | _ => Ok (by_weight ps) end.

(** ** Costs *)

Definition event_descriptor (ev : CGREvent) (subj acnt dst : string) (sTime : Time) (usage : Z)
    : CallDescriptor :=
  mkCallDescriptor "*suppliers" (ev_Tenant ev) subj acnt dst sTime (Add sTime usage) f0 usage ""
    [] None "" ∅ f0 0 f0 "" "" false false false false.

(** The error of a call, kept as a value. *)
Definition tried {A} (m : M A) : M (A + string) := λ st,
  match m st with
  | (Ok a, st') => (Ok (inl a), st')
  | (Err e, st') => (Ok (inr e), st')
  | (Panic, st') => (Panic, st')
  end.

(** The first account that can pay for the whole usage; errors are skipped. *)
Fixpoint paying_account (cd : string → CallDescriptor) (usage : Z) (acntIDs : list string)
    : M (option string) :=
  match acntIDs with
  | [] => mret None
  | acntID :: acntIDs =>
      _ ← set_cd (cd acntID);
      r ← tried (GetMaxSessionDuration maxIncrements fuel);
      match r with
      | inl maxDur => if usage <=? maxDur then mret (Some acntID) else paying_account cd usage acntIDs
      | inr _ => paying_account cd usage acntIDs
      end
  end.

(** The rating data with a profile in the temporary cache. *)
Definition with_profile (rPrfl : RatingProfile) : RatingData := {|
  dm_GetRatingProfile key :=
    if decide (key = rpf_Id rPrfl) then Ok (Some rPrfl) else dm_GetRatingProfile key;
  dm_GetRatingPlan := dm_GetRatingPlan;
  dm_GetReverseDestination := dm_GetReverseDestination;
  rpSubjectPrefixMatching := rpSubjectPrefixMatching |}.

(** The cost of the event cost made from that of the call. *)
Definition cost_of_call (cc : CallCost) : M float64 := λ st,
  let '(r, ecs) := (e ← NewEventCostFromCallCost cc None "" ""; EventCost_GetCost e)
                     (mkECState [] [] [] (as_uuids st)) in
  (r, mkAccountState (as_cd st) (as_balances st) (as_accounts st) (as_db st) (es_uuids ecs)
        (as_rands st) (as_counted st)).

(** The first rating plan that rates the call; others are skipped when nothing is found. *)
Fixpoint rating_plan_cost (cd : CallDescriptor) (sTime : Time) (rpIDs : list string) : M MapStorage :=
  match rpIDs with
  | [] => mret []
  | rp :: rpIDs =>
      let rPrfl := mkRatingProfile
        (ConcatenatedKey ["*out"; cd_Tenant cd; "*suppliers"; cd_Subject cd])
        [mkRatingPlanActivation sTime rp []] in
      let failed e := if decide (e = ErrNotFound) then rating_plan_cost cd sTime rpIDs else fails e in
      r ← tried (lift (@GetCost _ (with_profile rPrfl) maxIncrements fuel cd));
      match r with
      | inr e | inl (_, Some e, _) => failed e
      | inl (cc, None, _) =>
          cost ← cost_of_call cc;
          mret [("Cost", IFloat64 cost); ("RatingPlanID", IString rp)]
      end
  end.

Definition default_usage : Z := 60000000000.

(** The default of a field that is missing; other errors are kept. *)
Definition or_default {A} (r : res A) (a : A) : res A :=
  match r with Err e => if decide (e = NOT_FOUND) then Ok a else Err e | _ => r end.

Definition costForEvent (ev : CGREvent) (acntIDs rpIDs : list string) : M MapStorage :=
  _ ← lift (CheckMandatoryFields ev ["Account"; "Destination"; "SetupTime"]);
  acnt ← lift (ev_FieldAsString ev "Account");
  subj ← lift (or_default (ev_FieldAsString ev "Account") acnt);
  dst ← lift (ev_FieldAsString ev "Destination");
  sTime ← lift (ev_FieldAsTime ev "SetupTime" sc_DefaultTimezone);
  usage ← lift (or_default (ev_FieldAsDuration ev "Usage") default_usage);
  free ← paying_account (λ acntID, event_descriptor ev subj acntID dst sTime usage) usage acntIDs;
  match free with
  | Some acntID => mret [("Cost", IFloat64 f0); ("Account", IString acntID)]
  | None => rating_plan_cost (event_descriptor ev subj acnt dst sTime usage) sTime rpIDs
  end.

(** ** Statistics and resources *)

Definition add_metric (metrics : gmap string (list float64)) (key : string) (val : float64)
    : gmap string (list float64) :=
  <[key := default [] (metrics !! key) ++ [val]]> metrics.
Definition add_metrics (provStsMetrics : gmap string (list float64)) (metrics : gmap string float64)
    : gmap string (list float64) :=
  foldl (λ m kv, add_metric m kv.1 kv.2) provStsMetrics (go_range metrics).
Definition float_sum (vals : list float64) : float64 := foldl fadd f0 vals.

(** The metrics of all the statistics; what is returned as error is that of the last one. *)
Fixpoint stat_loop (tenant : string) (statIDs : list string) (m : gmap string (list float64))
    (err : option string) : gmap string (list float64) * option string :=
  match statIDs with
  | [] => (m, err)
  | statID :: statIDs =>
      let '(err, metrics) := StatS_GetQueueFloatMetrics tenant statID in
      stat_loop tenant statIDs (add_metrics m metrics) err
  end.

(** The mean of each metric. *)
Definition statMetrics (statIDs : list string) (tenant : string) : res (gmap string float64) :=
  if negb sc_StatSConns then Ok ∅
  else
    let '(m, err) := stat_loop tenant statIDs ∅ None in
    match err with
    | Some e => Err e
    | None => Ok ((λ slice, fdiv (float_sum slice) (f_of_Z (Z.of_nat (length slice)))) <$> m)
    end.

(** An identifier may name one metric of the statistic, which must be there. *)
Definition missing_metric (metric statID : string) : string :=
  "<SupplierS> error: NOT_FOUND metric " +:+ metric +:+ " for statID: " +:+ statID.
Fixpoint load_loop (tenant : string) (statIDs : list string) (m : gmap string (list float64))
    (err : option string) : res (gmap string (list float64) * option string) :=
  match statIDs with
  | [] => Ok (m, err)
  | statID :: statIDs =>
      let statWithMetric := Split statID ":" in
      id ← index statWithMetric 0;
      let '(err, metrics) := StatS_GetQueueFloatMetrics tenant id in
      match statWithMetric with
      | [id; metric] =>
          match metrics !! metric with
          | None => Err (missing_metric metric id)
          | Some metricVal => load_loop tenant statIDs (add_metric m metric metricVal) err
          end
      | _ => load_loop tenant statIDs (add_metrics m metrics) err
      end
  end.
Definition statMetricsForLoadDistribution (statIDs : list string) (tenant : string) : res float64 :=
  if negb sc_StatSConns then Ok f0
  else
    '(m, err) ← load_loop tenant statIDs ∅ None;
    match err with
    | Some e => Err e
    | None => Ok (foldl (λ result kv, fadd result (float_sum kv.2)) f0 (go_range m))
    end.

(** The same for the use of resources, where an error other than not found is skipped. *)
Fixpoint usage_loop (tenant : string) (resIDs : list string) (tUsage : float64)
    (err : option string) : res float64 :=
  match resIDs with
  | [] => match err with Some e => Err e | None => Ok tUsage end
  | resID :: resIDs =>
      let '(err, r) := ResourceS_GetResource tenant resID in
      match err with
      | Some e => if decide (e = ErrNotFound) then usage_loop tenant resIDs (fadd tUsage (totalUsage r).1) err
                  else usage_loop tenant resIDs tUsage err
      | None => usage_loop tenant resIDs (fadd tUsage (totalUsage r).1) err
      end
  end.
Definition resourceUsage (resIDs : list string) (tenant : string) : res float64 :=
  if negb sc_ResourceSConns then Ok f0 else usage_loop tenant resIDs f0 None.

(** ** The data of one supplier *)

Definition as_float (v : option iface) : res float64 :=
  match v with Some (IFloat64 x) => Ok x | _ => Panic end.
Definition put_data (data new : MapStorage) : MapStorage :=
  foldl (λ d kv, ms_put kv.1 kv.2 d) data new.

(** An error drops the supplier when errors are ignored.  [None] drops it. *)
Definition ignoring {A} (opts : optsGetSuppliers) (m : M A) : M (option A) := λ st,
  match m st with
  | (Ok a, st') => (Ok (Some a), st')
  | (Err e, st') => (if og_ignoreErrors opts then Ok None else Err e, st')
  | (Panic, st') => (Panic, st')
  end.

Definition too_expensive (opts : optsGetSuppliers) (costData : MapStorage) : res bool :=
  if feqb (og_maxCost opts) f0 then Ok false
  else cost ← as_float (ms_get "Cost" costData); Ok (fgtb cost (og_maxCost opts)).

Definition with_costs (ev : CGREvent) (spl : Supplier) (opts : optsGetSuppliers) (data : MapStorage)
    : M (option MapStorage) :=
  if decide (su_AccountIDs spl = [] ∧ su_RatingPlanIDs spl = []) then mret (Some data)
  else
    r ← ignoring opts (costForEvent ev (su_AccountIDs spl) (su_RatingPlanIDs spl));
    match r with
    | None => mret None
    | Some [] => mret (Some data)
    | Some costData =>
        expensive ← lift (too_expensive opts costData);
        mret (if (expensive : bool) then None else Some (put_data data costData))
    end.

Definition missing_value (metric : string) : float64 :=
  if decide (metric = "*pdd") then f_of_Z 10000000 else f_of_Z (-1).
Definition with_stats (ev : CGREvent) (spl : Supplier) (opts : optsGetSuppliers) (data : MapStorage)
    : M (option MapStorage) :=
  if decide (su_StatIDs spl = []) then mret (Some data)
  else if decide (og_sortingStragety opts = "*load") then
    r ← ignoring opts (lift (statMetricsForLoadDistribution (su_StatIDs spl) (ev_Tenant ev)));
    mret ((λ metricSum, ms_put "Load" (IFloat64 metricSum) data) <$> r)
  else
    r ← ignoring opts (lift (statMetrics (su_StatIDs spl) (ev_Tenant ev)));
    mret ((λ metricSupp : gmap string float64,
      let data := put_data data (prod_map id IFloat64 <$> go_range metricSupp) in
      foldl (λ data metric,
        match metricSupp !! metric with
        | Some _ => data
        | None => ms_put metric (IFloat64 (missing_value metric)) data
        end) data (og_sortingParameters opts)) <$> r).

Definition with_resources (ev : CGREvent) (spl : Supplier) (opts : optsGetSuppliers)
    (data : MapStorage) : M (option MapStorage) :=
  if decide (su_ResourceIDs spl = []) then mret (Some data)
  else
    r ← ignoring opts (lift (resourceUsage (su_ResourceIDs spl) (ev_Tenant ev)));
    mret ((λ u, ms_put "ResourceUsage" (IFloat64 u) data) <$> r).

Definition filtered (ev : CGREvent) (spl : Supplier) (data : MapStorage) : res bool :=
  if decide (su_FilterIDs spl = []) then Ok true
  else FilterS_Pass (ev_Tenant ev) (su_FilterIDs spl)
         (storage_provider [("*req", IMap (ev_Event ev)); ("*vars", IMap data)]).

(** A step that may drop the supplier. *)
Definition and_then (m : M (option MapStorage)) (f : MapStorage → M (option MapStorage))
    : M (option MapStorage) :=
  r ← m; match r with None => mret None | Some data => f data end.

Definition populateSortingData (ev : CGREvent) (spl : Supplier) (opts : optsGetSuppliers)
    : M (option SortedSupplier) :=
  r ← and_then (and_then (and_then (mret (Some [("Weight", IFloat64 (su_Weight spl))]))
         (with_costs ev spl opts)) (with_stats ev spl opts)) (with_resources ev spl opts);
  match r with
  | None => mret None
  | Some data =>
      pass ← lift (filtered ev spl data);
      mret (if (pass : bool)
            then Some (mkSortedSupplier (su_ID spl) (su_SupplierParameters spl) data) else None)
  end.

(** ** Sorting

    Each comparison reads its values as it needs them; a missing one panics. *)
Definition data_float (s : SortedSupplier) (key : string) : res float64 :=
  as_float (ms_get key (ssp_SortingData s)).

Definition heavier_supplier (a b : SortedSupplier) : res bool :=
  x ← data_float a "Weight"; y ← data_float b "Weight"; Ok (fgtb x y).

(** By a value, upwards or downwards, then by weight. *)
Definition compare_by (value : SortedSupplier → res float64) (before : float64 → float64 → bool)
    (a b : SortedSupplier) : res bool :=
  x ← value a; y ← value b;
  if feqb x y then heavier_supplier a b else Ok (before x y).

Definition SortWeight (l : list SortedSupplier) : res (list SortedSupplier) :=
  sort_slice heavier_supplier l.
Definition SortLeastCost (l : list SortedSupplier) : res (list SortedSupplier) :=
  sort_slice (compare_by (λ s, data_float s "Cost") fltb) l.
Definition SortHighestCost (l : list SortedSupplier) : res (list SortedSupplier) :=
  sort_slice (compare_by (λ s, data_float s "Cost") fgtb) l.
Definition SortResourceAscendent (l : list SortedSupplier) : res (list SortedSupplier) :=
  sort_slice (compare_by (λ s, data_float s "ResourceUsage") fltb) l.
Definition SortResourceDescendent (l : list SortedSupplier) : res (list SortedSupplier) :=
  sort_slice (compare_by (λ s, data_float s "ResourceUsage") fgtb) l.

(** How full a supplier is for its ratio. *)
Definition load_value (s : SortedSupplier) : res float64 :=
  ratio ← data_float s "Ratio"; load ← data_float s "Load";
  Ok (fsub (fdiv (fadd ratio load) ratio) f1).
Definition SortLoadDistribution (l : list SortedSupplier) : res (list SortedSupplier) :=
  sort_slice (compare_by load_value fltb) l.

(** By the metrics in turn. *)
Fixpoint better_metrics (params : list string) (a b : SortedSupplier) : res bool :=
  match params with
  | [] => heavier_supplier a b
  | param :: params =>
      x ← data_float a param; y ← data_float b param;
      if feqb x y then better_metrics params a b
      else Ok (if decide (param = "*pdd") then fltb x y else fgtb x y)
  end.
Definition SortQOS (params : list string) (l : list SortedSupplier) : res (list SortedSupplier) :=
  sort_slice (better_metrics params) l.

(** ** Strategies *)

(** The suppliers that are left; [need] names a field that must not be empty, [more] adds
    data. *)
Fixpoint collect (ev : CGREvent) (opts : optsGetSuppliers) (need : Supplier → option string)
    (more : Supplier → SortedSupplier → res SortedSupplier) (suppls : list Supplier)
    : M (list SortedSupplier) :=
  match suppls with
  | [] => mret []
  | s :: suppls =>
      match need s with
      | Some field => fails (NewErrMandatoryIeMissing [field])
      | None =>
          r ← populateSortingData ev s opts;
          spls ← match r with None => mret [] | Some spl => spl ← lift (more s spl); mret [spl] end;
          rest ← collect ev opts need more suppls;
          mret (spls ++ rest)
      end
  end.

Definition nothing (_ : Supplier) : option string := None.
Definition no_more (_ : Supplier) (spl : SortedSupplier) : res SortedSupplier := Ok spl.
Definition need_ids (field : Supplier → list string) (name : string) (s : Supplier) : option string :=
  if decide (field s = []) then Some name else None.

(** What sorters answer; without suppliers it may be an error. *)
Definition sorted_reply (prflID sorting : string) (l : list SortedSupplier) : SortedSuppliers :=
  mkSortedSuppliers prflID sorting 0 l.
Definition found_some (l : list SortedSupplier) : M () :=
  if decide (l = []) then fails ErrNotFound else mret ().

Definition Sorter : Type :=
  string → list Supplier → CGREvent → optsGetSuppliers → M SortedSuppliers.

Definition WeightSorter : Sorter := λ prflID suppls ev opts,
  l ← collect ev opts nothing no_more suppls;
  l ← lift (SortWeight l); mret (sorted_reply prflID "*weight" l).
Definition LeastCostSorter : Sorter := λ prflID suppls ev opts,
  l ← collect ev opts (need_ids su_RatingPlanIDs "RatingPlanIDs") no_more suppls;
  _ ← found_some l; l ← lift (SortLeastCost l); mret (sorted_reply prflID "*lc" l).
Definition HighestCostSorter : Sorter := λ prflID suppls ev opts,
  l ← collect ev opts (need_ids su_RatingPlanIDs "RatingPlanIDs") no_more suppls;
  _ ← found_some l; l ← lift (SortHighestCost l); mret (sorted_reply prflID "*hc" l).
Definition QOSSupplierSorter : Sorter := λ prflID suppls ev opts,
  l ← collect ev opts nothing no_more suppls;
  _ ← found_some l; l ← lift (SortQOS (og_sortingParameters opts) l);
  mret (sorted_reply prflID "*qos" l).
Definition ResourceAscendentSorter : Sorter := λ prflID suppls ev opts,
  l ← collect ev opts (need_ids su_ResourceIDs "ResourceIDs") no_more suppls;
  l ← lift (SortResourceAscendent l); mret (sorted_reply prflID "*reas" l).
Definition ResourceDescendentSorter : Sorter := λ prflID suppls ev opts,
  l ← collect ev opts (need_ids su_ResourceIDs "ResourceIDs") no_more suppls;
  l ← lift (SortResourceDescendent l); mret (sorted_reply prflID "*reds" l).
(** The ratio kept in the supplier, asserted to be a float. *)
Definition add_ratio (s : Supplier) (spl : SortedSupplier) : res SortedSupplier :=
  ratio ← as_float (su_cacheSupplier s !! "*ratio");
  Ok (mkSortedSupplier (ssp_SupplierID spl) (ssp_SupplierParameters spl)
        (ms_put "Ratio" (IFloat64 ratio) (ssp_SortingData spl))).
Definition LoadDistributionSorter : Sorter := λ prflID suppls ev opts,
  l ← collect ev opts (need_ids su_StatIDs "StatIDs") add_ratio suppls;
  l ← lift (SortLoadDistribution l); mret (sorted_reply prflID "*load" l).

Definition SupplierSortDispatcher : gmap string Sorter :=
  {["*weight" := WeightSorter; "*lc" := LeastCostSorter; "*hc" := HighestCostSorter;
    "*qos" := QOSSupplierSorter; "*reas" := ResourceAscendentSorter;
    "*reds" := ResourceDescendentSorter; "*load" := LoadDistributionSorter]}.

Definition SortSuppliers (prflID strategy : string) (suppls : list Supplier) (ev : CGREvent)
    (opts : optsGetSuppliers) : M SortedSuppliers :=
  match SupplierSortDispatcher !! strategy with
  | None => fails ("unsupported sorting strategy: " +:+ strategy)
  | Some sorter => sorter prflID suppls ev opts
  end.

(** ** The calls *)

Definition NewCallDescriptorFromCGREvent (ev : CGREvent) (timezone : string) : res CallDescriptor :=
  category ← (if HasField ev "Category" then ev_FieldAsString ev "Category" else Ok "");
  acnt ← ev_FieldAsString ev "Account";
  subj ← or_default (ev_FieldAsString ev "Subject") acnt;
  dst ← ev_FieldAsString ev "Destination";
  start ← ev_FieldAsTime ev "SetupTime" timezone;
  start ← (if HasField ev "AnswerTime" then
             aTime ← ev_FieldAsTime ev "AnswerTime" timezone;
             Ok (if IsZero aTime then start else aTime)
           else Ok start);
  usage ← ev_FieldAsDuration ev "Usage";
  tor ← (if HasField ev "ToR" then ev_FieldAsString ev "ToR" else Ok "");
  Ok (mkCallDescriptor category (ev_Tenant ev) subj acnt dst start (Add start usage) f0 0 "" []
        None tor ∅ f0 0 f0 "" "" false false false false).

Definition asOptsGetSuppliers (args : ArgsGetSuppliers) (ev : CGREvent) : res optsGetSuppliers :=
  let opts maxCost := mkOptsGetSuppliers (gs_IgnoreErrors args) maxCost [] "" in
  if decide (gs_MaxCost args = "*event_cost") then
    _ ← CheckMandatoryFields ev ["Account"; "Destination"; "SetupTime"; "Usage"];
    cd ← NewCallDescriptorFromCGREvent ev sc_DefaultTimezone;
    '(cc, err, _) ← GetCost maxIncrements fuel cd;
    match err with Some e => Err e | None => Ok (opts (cc_Cost cc)) end
  else if decide (gs_MaxCost args = "") then Ok (opts f0)
  else maxCost ← ParseFloat (gs_MaxCost args); Ok (opts maxCost).

(** A slice from, or up to, a bound that is not beyond its end; a negative one panics. *)
Definition page (offset limit : option Z) (l : list SortedSupplier) : res (list SortedSupplier) :=
  let len (l : list SortedSupplier) := Z.of_nat (length l) in
  l ← (match offset with
       | Some o => if o <=? len l then if o <? 0 then Panic else Ok (drop (Z.to_nat o) l) else Ok l
       | None => Ok l end);
  match limit with
  | Some n => if n <=? len l then if n <? 0 then Panic else Ok (take (Z.to_nat n) l) else Ok l
  | None => Ok l
  end.

(** The usage of the event has a default. *)
Definition with_usage (ev : CGREvent) : CGREvent :=
  if HasField ev "Usage" then ev
  else mkCGREvent (ev_Tenant ev) (ev_ID ev) (ev_Time ev)
         (ms_put "Usage" (IDuration default_usage) (ev_Event ev)).

Definition sortedSuppliersForEvent (args : ArgsGetSuppliers) (ev : CGREvent) : M SortedSuppliers :=
  let ev := with_usage ev in
  splPrfls ← lift (matchingSupplierProfilesForEvent ev true);
  splPrfl ← lift (index splPrfls 0);
  opts ← lift (asOptsGetSuppliers args ev);
  let opts := mkOptsGetSuppliers (og_ignoreErrors opts) (og_maxCost opts)
                (spp_SortingParameters splPrfl) (spp_Sorting splPrfl) in
  r ← SortSuppliers (spp_ID splPrfl) (spp_Sorting splPrfl) (spp_Suppliers splPrfl) ev opts;
  l ← lift (page (gs_Offset args) (gs_Limit args) (sss_SortedSuppliers r));
  mret (mkSortedSuppliers (sss_ProfileID r) (sss_Sorting r) (Z.of_nat (length l)) l).

(** [MissingStructFields] for the tenant and the ID, with the strings trimmed. *)
Definition identified (ev : CGREvent) (nilEvent : bool) : res CGREvent :=
  let ev := mkCGREvent (TrimSpace (ev_Tenant ev)) (TrimSpace (ev_ID ev)) (ev_Time ev) (ev_Event ev) in
  match (if decide (ev_Tenant ev = "") then ["Tenant"] else []) ++
        (if decide (ev_ID ev = "") then ["ID"] else []) with
  | [] => if nilEvent then Err (NewErrMandatoryIeMissing ["Event"]) else Ok ev
  | missing => Err (NewErrMandatoryIeMissing missing)
  end.

Definition server_error {A} (m : M A) : M A := λ st,
  let '(r, st') := m st in (as_server_error r, st').

(** The event the attributes make; an answer without changes has no error to look at. *)
Definition altered_event (ev : CGREvent) : res CGREvent :=
  if negb sc_AttributeSConns then Ok ev
  else
    let context := FirstNonEmpty
      [IfaceAsString (default INil (ms_get "Context" (ev_Event ev))); "*suppliers"] in
    match AttributeS_ProcessEvent context ev with
    | (None, (ev', _ :: _)) => Ok ev'
    | (None, (_, [])) => Panic
    | (Some e, _) => if decide (e = ErrNotFound) then Ok ev else Err ("ATTRIBUTES_ERROR:" +:+ e)
    end.

Definition V1GetSuppliers (args : ArgsGetSuppliers) : M SortedSuppliers :=
  match gs_CGREvent args with
  | None => fails (NewErrMandatoryIeMissing ["CGREvent"])
  | Some ev =>
      ev ← lift (identified ev (gs_nilEvent args));
      ev ← lift (altered_event ev);
      server_error (sortedSuppliersForEvent args ev)
  end.
Definition V1GetSupplierProfilesForEvent (ev : option CGREvent) (nilEvent : bool)
    : M (list SupplierProfile) :=
  match ev with
  | None => lift Panic
  | Some ev =>
      ev ← lift (identified ev nilEvent);
      server_error (lift (matchingSupplierProfilesForEvent ev false))
  end.

(** ** Views of the reply *)

Definition SupplierIDs (r : SortedSuppliers) : list string := map ssp_SupplierID (sss_SortedSuppliers r).
Definition SuppliersWithParams (r : SortedSuppliers) : list string :=
  map (λ s, ssp_SupplierID s +:+
    (if decide (ssp_SupplierParameters s = "") then "" else ":" +:+ ssp_SupplierParameters s))
    (sss_SortedSuppliers r).
Definition SortedSuppliers_Digest (r : SortedSuppliers) : string := Join (SuppliersWithParams r) ",".
End suppliers.
