(* ===== verification/SupplierSorting.v ===== *)
(** * The order of suppliers

    What the strategies of [Suppliers] answer: which suppliers, in which order; and the
    configurations for which they do not. *)
From S2P Require Import Prelude GoFloat GoStrings GoTime CoreUtils Values RateInterval RatingPlan TimeSpans CallDescriptor RatingProfile CallCost Rating PricingExamples Stateful Balances Accounts Debits DebitExamples Filters Resources TariffRouting Profiles EventCost Suppliers.

(** ** Sorting by a value and the weight *)

Definition weight_of (s : SortedSupplier) : res float64 := data_float s "Weight".

(** Each is before or beside the next ones in value, and where it is beside not lighter. *)
Definition ranked (value : SortedSupplier → res float64) (before : float64 → float64 → bool)
    : list SortedSupplier → Prop :=
  StronglySorted (λ a b, ∀ va wa vb wb,
    value a = Ok va → weight_of a = Ok wa → value b = Ok vb → weight_of b = Ok wb →
    before vb va = false ∧ (feqb va vb = true → fltb wa wb = false)).
(** A value is never NaN. *)
Definition numeric (value : SortedSupplier → res float64) (l : list SortedSupplier) : Prop :=
  ∀ s v, s ∈ l → value s = Ok v → is_nan v = false.
Definition weighted (s : SortedSupplier) : Prop := ∃ w, weight_of s = Ok w.
(** Values are read by assertions. *)
Definition asserted (value : SortedSupplier → res float64) : Prop :=
  ∀ s, value s = Panic ∨ ∃ v, value s = Ok v.
Definition direction (before : float64 → float64 → bool) : Prop := before = fltb ∨ before = fgtb.

Lemma data_float_asserted key : asserted (λ s, data_float s key).
Proof.
  intros s. unfold data_float, as_float.
  destruct (ms_get key (ssp_SortingData s)) as [[]|]; eauto.
Qed.

Lemma feqb_numbers x y : feqb x y = true → is_nan x = false ∧ is_nan y = false.
Proof. by destruct x as [[]|[]| |[]], y as [[]|[]| |[]]. Qed.
Lemma feqb_comm x y : feqb x y = feqb y x.
Proof.
  apply eq_true_iff_eq.
  split; intros E; destruct (feqb_numbers _ _ E); rewrite feqb_fltb in E |- * by done;
    by rewrite andb_comm.
Qed.
Lemma feqb_ltb x y : feqb x y = true → fltb x y = false ∧ fltb y x = false.
Proof.
  intros E. destruct (feqb_numbers _ _ E). rewrite feqb_fltb in E by done.
  by destruct (fltb x y), (fltb y x).
Qed.

Definition value_of (m : res float64) : float64 := match m with Ok x => x | _ => f0 end.

Lemma strict_weak_direction {A} (key : A → float64) before l :
  direction before → Forall (λ a, is_nan (key a) = false) l →
  strict_weak_on (λ a b, before (key a) (key b)) l.
Proof. intros [-> | ->]; auto with go. Qed.

(** The comparison when no value is missing. *)
Definition ahead (value : SortedSupplier → res float64) (before : float64 → float64 → bool)
    (a b : SortedSupplier) : bool :=
  if feqb (value_of (value a)) (value_of (value b))
  then fgtb (value_of (weight_of a)) (value_of (weight_of b))
  else before (value_of (value a)) (value_of (value b)).

Lemma compare_by_Ok value before a b va wa vb wb :
  value a = Ok va → weight_of a = Ok wa → value b = Ok vb → weight_of b = Ok wb →
  compare_by value before a b = Ok (ahead value before a b).
Proof.
  intros Ha Hwa Hb Hwb. unfold compare_by, ahead, heavier_supplier. fold (weight_of a) (weight_of b).
  rewrite Ha, Hb, Hwa, Hwb. simpl. by case_match.
Qed.

(** It orders the suppliers when no value is NaN. *)
Lemma strict_weak_ahead value before l :
  direction before → Forall (λ s, is_nan (value_of (value s)) = false) l →
  Forall (λ s, is_nan (value_of (weight_of s)) = false) l → strict_weak_on (ahead value before) l.
Proof.
  intros Hd Hv Hw.
  pose proof (strict_weak_on_lex _ _ l (strict_weak_direction _ before l Hd Hv)
    (strict_weak_on_float_desc _ l Hw)) as [Ha Hn].
  assert (∀ a b, a ∈ l → b ∈ l → ahead value before a b =
    lex_less (λ a b, before (value_of (value a)) (value_of (value b)))
      (λ a b, fgtb (value_of (weight_of a)) (value_of (weight_of b))) a b) as Heq.
  { intros a b Hina Hinb. rewrite Forall_forall in Hv. unfold ahead, lex_less.
    rewrite feqb_fltb by auto. destruct Hd as [-> | ->]; [done|]. unfold fgtb. by rewrite andb_comm. }
  split.
  - intros a b Hina Hinb. rewrite !Heq by done. by apply Ha.
  - intros a b c Hina Hinb Hinc. rewrite !Heq by done. by apply Hn.
Qed.

Section ranking.
Context `{GoSlices}.

Lemma sort_missing value before l x :
  asserted value → x ∈ l → value x = Panic → (2 ≤ length l)%nat →
  sort_slice (compare_by value before) l = Panic.
Proof.
  intros Hv Hx Hp Hlen. eapply sort_slice_panic; [exact Hx|done|]. intros y _.
  unfold compare_by. rewrite Hp. destruct (Hv y) as [-> |[v ->]]; done.
Qed.

Lemma sort_ranked value before l l' :
  direction before → asserted value → Forall weighted l →
  sort_slice (compare_by value before) l = Ok l' →
  l' ≡ₚ l ∧ (numeric value l' → numeric weight_of l' → ranked value before l').
Proof.
  intros Hd Hv Hw Hs. destruct (Nat.ltb_spec (length l) 2) as [Hlen|Hlen].
  { rewrite sort_slice_short in Hs by done. injection Hs as <-. split; [done|]. intros _ _.
    destruct l as [|x [|y l]]; simpl in Hlen; [| |lia]; repeat constructor. }
  assert (∀ x, x ∈ l → ∃ v w, value x = Ok v ∧ weight_of x = Ok w) as Hall.
  { intros x Hx. rewrite Forall_forall in Hw. destruct (Hw x Hx) as [w Hxw].
    destruct (Hv x) as [Hp|[v Hxv]]; [|eauto]. by rewrite (sort_missing _ _ _ x) in Hs. }
  destruct (sort_slice_total (compare_by value before) (ahead value before) l) as (l2 & Hl2 & Hp & Hsort).
  { intros x y Hx Hy. destruct (Hall x Hx) as (? & ? & ? & ?), (Hall y Hy) as (? & ? & ? & ?).
    by eapply compare_by_Ok. }
  rewrite Hs in Hl2. injection Hl2 as <-. split; [done|]. intros Hnv Hnw.
  assert (∀ s, s ∈ l → is_nan (value_of (value s)) = false ∧ is_nan (value_of (weight_of s)) = false) as Hnan.
  { intros s Hin. destruct (Hall s Hin) as (v & w & Hsv & Hsw). rewrite <- Hp in Hin.
    rewrite Hsv, Hsw. simpl. by split; [apply (Hnv s)|apply (Hnw s)]. }
  unfold ranked. eapply StronglySorted_impl; [|apply Hsort, strict_weak_ahead;
    [done|by apply Forall_forall; intros; apply Hnan..]].
  simpl. intros a b Hab va wa vb wb Hva Hwa Hvb Hwb. unfold ahead in Hab.
  rewrite Hva, Hwa, Hvb, Hwb, feqb_comm in Hab. simpl in Hab.
  destruct (feqb va vb) eqn:E; [|done]. split; [|done].
  destruct (feqb_ltb _ _ E). by destruct Hd as [-> | ->].
Qed.
End ranking.

(** ** What is known of a supplier *)

(** Data with the weight of the supplier as a float. *)
Definition has_weight (data : MapStorage) : Prop := ∃ w, as_float (ms_get "Weight" data) = Ok w.

Lemma has_weight_float data k x : has_weight data → has_weight (ms_put k (IFloat64 x) data).
Proof.
  intros [w Hw]. unfold has_weight. rewrite ms_get_put. case_decide; [by eexists|by exists w].
Qed.
Lemma has_weight_other data k v : k ≠ "Weight" → has_weight data → has_weight (ms_put k v data).
Proof. intros Hk [w Hw]. exists w. by rewrite ms_get_put, decide_False. Qed.
Lemma has_weight_floats data (l : list (string * float64)) :
  has_weight data → has_weight (put_data data (prod_map id IFloat64 <$> l)).
Proof.
  unfold put_data. revert data. induction l as [|[k x] l IH]; intros data Hd; simpl; [done|].
  by apply IH, has_weight_float.
Qed.
Lemma has_weight_missing data (metrics : gmap string float64) params :
  has_weight data →
  has_weight (foldl (λ data metric,
    match metrics !! metric with
    | Some _ => data | None => ms_put metric (IFloat64 (missing_value metric)) data end) data params).
Proof.
  revert data. induction params as [|p params IH]; intros data Hd; simpl; [done|].
  apply IH. destruct (metrics !! p); [done|by apply has_weight_float].
Qed.

Section suppliers.
Context `{GoText} `{GoRuntime} `{GoSlices} `{GoHash} `{RatingData} `{AccountData} `{FilterData} `{GoErrors} `{SupplierData}.
Context (maxIncrements : Z) (fuel : nat).

#[local] Abbreviation costForEvent := (costForEvent maxIncrements fuel).
#[local] Abbreviation populateSortingData := (populateSortingData maxIncrements fuel).

(** Costs do not touch the weight. *)
Definition cost_entries (data : MapStorage) : Prop := Forall (λ kv, kv.1 ≠ "Weight") data.
Lemma has_weight_costs data costs : cost_entries costs → has_weight data → has_weight (put_data data costs).
Proof.
  unfold put_data. intros Hc. revert data. induction Hc as [|[k v] costs Hk _ IH]; intros data Hd; simpl; [done|].
  by apply IH, has_weight_other.
Qed.

Lemma rating_plan_cost_entries cd sTime rps :
  yields (rating_plan_cost maxIncrements fuel cd sTime rps) cost_entries.
Proof.
  induction rps as [|rp rps IH]; simpl; [by apply yields_ret; constructor|].
  apply yields_next. intros r.
  assert (∀ e, yields (if decide (e = ErrNotFound) then rating_plan_cost maxIncrements fuel cd sTime rps
    else fails e) cost_entries) as Hf.
  { intros e. case_decide; [exact IH|apply yields_fails]. }
  destruct r as [[[cc [e|]] cd']|e]; [apply Hf| |apply Hf].
  apply yields_next. intros cost. apply yields_ret. by repeat constructor.
Qed.
Lemma costForEvent_entries ev accs rps : yields (costForEvent ev accs rps) cost_entries.
Proof.
  unfold costForEvent. do 7 (apply yields_next; intros ?).
  match goal with |- yields (match ?x with _ => _ end) _ => destruct x end.
  - apply yields_ret. by repeat constructor.
  - apply rating_plan_cost_entries.
Qed.

(** A step keeps the weight in what it leaves. *)
Definition keeps (f : MapStorage → SM AccountState (option MapStorage)) : Prop :=
  ∀ data, has_weight data → yields (f data) (λ r, ∀ data', r = Some data' → has_weight data').
Lemma yields_ignoring {A} opts (m : SM AccountState A) P :
  yields m P → yields (ignoring opts m) (λ r, ∀ a, r = Some a → P a).
Proof.
  intros Hm st r st'. unfold ignoring. destruct (m st) as [[a|e|] st1] eqn:E; [| |done].
  - intros [= <- <-] a' [= <-]. by eapply Hm.
  - by destruct (og_ignoreErrors opts); intros [= <- <-].
Qed.

Lemma with_costs_keeps ev spl opts : keeps (with_costs maxIncrements fuel ev spl opts).
Proof.
  intros data Hd. unfold with_costs. case_decide; [by apply yields_ret; intros ? [= <-]|].
  eapply yields_bind; [apply yields_ignoring, costForEvent_entries|]. intros [[|kv costs]|] Hc.
  - by apply yields_ret; intros ? [= <-].
  - apply yields_next. intros []; apply yields_ret; [done|]. intros ? [= <-].
    exact (has_weight_costs data (kv :: costs) (Hc _ eq_refl) Hd).
  - by apply yields_ret.
Qed.
Lemma with_stats_keeps ev spl opts : keeps (with_stats ev spl opts).
Proof.
  intros data Hd. unfold with_stats. case_decide; [by apply yields_ret; intros ? [= <-]|].
  case_decide; apply yields_next; intros r; apply yields_ret; intros ? Hr;
    apply fmap_Some in Hr as (x & -> & ->).
  - by apply has_weight_float.
  - by apply has_weight_missing, has_weight_floats.
Qed.
Lemma with_resources_keeps ev spl opts : keeps (with_resources ev spl opts).
Proof.
  intros data Hd. unfold with_resources. case_decide; [by apply yields_ret; intros ? [= <-]|].
  apply yields_next; intros r; apply yields_ret; intros ? Hr.
  apply fmap_Some in Hr as (x & -> & ->). by apply has_weight_float.
Qed.
Lemma and_then_keeps m f :
  yields m (λ r, ∀ data', r = Some data' → has_weight data') → keeps f →
  yields (and_then m f) (λ r, ∀ data', r = Some data' → has_weight data').
Proof.
  intros Hm Hf. eapply yields_bind; [exact Hm|]. intros [data|] Hd; [by apply Hf, Hd|].
  by apply yields_ret.
Qed.

(** The entry of a supplier: its name, and data with a weight. *)
Definition entry_of (spl : Supplier) (s : SortedSupplier) : Prop :=
  ssp_SupplierID s = su_ID spl ∧ weighted s.
Lemma populate_entry ev spl opts :
  yields (populateSortingData ev spl opts) (λ r, ∀ s, r = Some s → entry_of spl s).
Proof.
  eapply yields_bind.
  - apply and_then_keeps, with_resources_keeps. apply and_then_keeps, with_stats_keeps.
    apply and_then_keeps, with_costs_keeps. apply yields_ret. intros ? [= <-]. by eexists.
  - intros [data|] Hd; [|by apply yields_ret]. apply yields_next. intros []; apply yields_ret; [|done].
    intros s [= <-]. split; [done|]. by apply Hd.
Qed.

(** A sorter goes on with entries of some of the suppliers, in their order. *)
Definition entries (l : list SortedSupplier) (suppls : list Supplier) : Prop :=
  Forall weighted l ∧ map ssp_SupplierID l `sublist_of` map su_ID suppls.
Lemma collect_entries ev opts need suppls :
  yields (collect maxIncrements fuel ev opts need no_more suppls) (λ l, entries l suppls).
Proof.
  induction suppls as [|s suppls IH]; simpl.
  { apply yields_ret. split; [constructor|done]. }
  destruct (need s); [apply yields_fails|].
  eapply yields_bind; [apply populate_entry|]. intros r Hr.
  apply (yields_bind _ _ (λ spls, entries spls [s])).
  - destruct r as [spl|]; [|apply yields_ret; split; [constructor|apply sublist_nil_l]].
    destruct (Hr spl eq_refl) as [Hid Hw].
    eapply yields_bind; [apply yields_lift; intros a Ha; exact Ha|]. intros a [= <-].
    apply yields_ret. split; [by repeat constructor|]. simpl. by rewrite Hid.
  - intros spls [Hw Hs]. eapply yields_bind; [exact IH|]. intros rest [Hw' Hs'].
    apply yields_ret. split; [by apply Forall_app|]. rewrite map_app.
    exact (sublist_app _ _ _ _ Hs Hs').
Qed.

(** ** The strategies *)

Definition cost_value (s : SortedSupplier) : res float64 := data_float s "Cost".
Definition usage_value (s : SortedSupplier) : res float64 := data_float s "ResourceUsage".
(** What a strategy sorts by. *)
Definition strategy_order (strategy : string)
    : option ((SortedSupplier → res float64) * (float64 → float64 → bool)) :=
  if decide (strategy = "*lc") then Some (cost_value, fltb)
  else if decide (strategy = "*hc") then Some (cost_value, fgtb)
  else if decide (strategy = "*reas") then Some (usage_value, fltb)
  else if decide (strategy = "*reds") then Some (usage_value, fgtb)
  else None.

(** A sorter that collects, may stop, and sorts. *)
Lemma sorter_ranked ev opts need suppls (stop : list SortedSupplier → SM AccountState ())
    value before prflID sorting :
  direction before → asserted value →
  yields (l ← collect maxIncrements fuel ev opts need no_more suppls;
          _ ← stop l; l ← lift (sort_slice (compare_by value before) l);
          mret (sorted_reply prflID sorting l))
    (λ r, (numeric value (sss_SortedSuppliers r) → numeric weight_of (sss_SortedSuppliers r) →
           ranked value before (sss_SortedSuppliers r)) ∧
          map ssp_SupplierID (sss_SortedSuppliers r) ⊆+ map su_ID suppls).
Proof.
  intros Hd Hv. eapply yields_bind; [apply collect_entries|]. intros l [Hw Hsub].
  apply yields_next. intros []. eapply yields_bind; [apply yields_lift; intros a Ha; exact Ha|].
  intros l' Hl'. apply yields_ret. simpl.
  destruct (sort_ranked _ _ _ _ Hd Hv Hw Hl') as [Hp Hr]. split; [exact Hr|].
  rewrite Hp. by apply sublist_submseteq.
Qed.

(** C18: When suppliers are sorted by cost or by the use of their resources, the reply names
    suppliers of the profile, each at most as often as the profile has it, in the order of the
    strategy: a supplier after another is never cheaper (dearer, less or more used, as the
    strategy says), and where the two are equal it is never heavier. *)
Theorem SortSuppliers_ranked prflID strategy suppls ev opts st r st' value before :
  strategy_order strategy = Some (value, before) →
  SortSuppliers maxIncrements fuel prflID strategy suppls ev opts st = (Ok r, st') →
  numeric value (sss_SortedSuppliers r) → numeric weight_of (sss_SortedSuppliers r) →
  ranked value before (sss_SortedSuppliers r) ∧
  map ssp_SupplierID (sss_SortedSuppliers r) ⊆+ map su_ID suppls.
Proof.
  intros Hord Hs Hnv Hnw.
  assert (yields (SortSuppliers maxIncrements fuel prflID strategy suppls ev opts)
    (λ r, (numeric value (sss_SortedSuppliers r) → numeric weight_of (sss_SortedSuppliers r) →
           ranked value before (sss_SortedSuppliers r)) ∧
          map ssp_SupplierID (sss_SortedSuppliers r) ⊆+ map su_ID suppls)) as Hy.
  2: { destruct (Hy _ _ _ Hs) as [Hr Hsub]. auto. }
  revert Hord. unfold strategy_order.
  repeat (case_decide; [subst strategy; intros [= <- <-]; clear|]); [..|done].
  - apply sorter_ranked; [by left|apply data_float_asserted].
  - apply sorter_ranked; [by right|apply data_float_asserted].
  - exact (sorter_ranked ev opts (need_ids su_ResourceIDs "ResourceIDs") suppls (λ _, mret ())
      usage_value fltb prflID "*reas" (or_introl eq_refl) (data_float_asserted _)).
  - exact (sorter_ranked ev opts (need_ids su_ResourceIDs "ResourceIDs") suppls (λ _, mret ())
      usage_value fgtb prflID "*reds" (or_intror eq_refl) (data_float_asserted _)).
Qed.

(** ** Configurations that do not work *)

(** The ratios that compiling a profile keeps are integers. *)
Lemma compiled_ratios sp sp' :
  compileCacheParameters sp = Ok sp' → spp_Sorting sp = "*load" →
  Forall (λ s, as_float (su_cacheSupplier s !! "*ratio") = Panic) (spp_Suppliers sp').
Proof.
  unfold compileCacheParameters. intros Hsp Hl. rewrite decide_True in Hsp by done.
  destruct (ratio_map _ ∅) as [m| |]; [|done..]. injection Hsp as <-. simpl.
  apply Forall_fmap, Forall_true. done.
Qed.

(** The strategy of load distribution panics as soon as a supplier is left to be sorted:
    compiling the profile keeps the ratios, given or by default, as integers, and the sorter
    asserts them as floats. *)
Theorem load_distribution_panics sp sp' s rest spl prflID ev opts st st1 :
  compileCacheParameters sp = Ok sp' → spp_Sorting sp = "*load" →
  spp_Suppliers sp' = s :: rest → su_StatIDs s ≠ [] →
  populateSortingData ev s opts st = (Ok (Some spl), st1) →
  (SortSuppliers maxIncrements fuel prflID (spp_Sorting sp') (spp_Suppliers sp') ev opts st).1 = Panic.
Proof.
  intros Hsp Hl Hs Hid Hp. pose proof (compiled_ratios _ _ Hsp Hl) as Hr.
  assert (spp_Sorting sp' = "*load") as ->.
  { revert Hsp. unfold compileCacheParameters. rewrite decide_True by done.
    destruct (ratio_map _ ∅); [|done..]. by intros [= <-]. }
  rewrite Hs in Hr |- *. apply Forall_cons in Hr as [Hr _].
  change (SortSuppliers _ _ _ _ _ _ _) with (LoadDistributionSorter maxIncrements fuel prflID (s :: rest) ev opts).
  unfold LoadDistributionSorter. simpl. unfold need_ids at 1. rewrite decide_False by done.
  unfold mbind, SM_bind. rewrite Hp. unfold add_ratio. by rewrite Hr.
Qed.
(** Whatever the profile, it never answers a supplier. *)
Lemma load_distribution_never_answers sp sp' prflID ev opts st r st' :
  compileCacheParameters sp = Ok sp' → spp_Sorting sp = "*load" →
  SortSuppliers maxIncrements fuel prflID "*load" (spp_Suppliers sp') ev opts st = (Ok r, st') →
  sss_SortedSuppliers r = [].
Proof.
  intros Hsp Hl Hs. pose proof (compiled_ratios _ _ Hsp Hl) as Hr. clear Hsp.
  assert (yields (SortSuppliers maxIncrements fuel prflID "*load" (spp_Suppliers sp') ev opts)
    (λ r, sss_SortedSuppliers r = [])) as Hy; [|exact (Hy _ _ _ Hs)].
  apply (yields_bind _ _ (λ l, l = [])).
  - clear Hs. induction Hr as [|s suppls Hr _ IH]; simpl; [by apply yields_ret|].
    unfold need_ids at 1. case_decide; [apply yields_fails|]. apply yields_next. intros r'.
    apply (yields_bind _ _ (λ spls, spls = [])).
    + destruct r' as [spl|]; [|by apply yields_ret]. unfold add_ratio. rewrite Hr. by intros ???.
    + intros spls ->. eapply yields_bind; [exact IH|]. intros l ->. by apply yields_ret.
  - intros l ->. eapply yields_bind; [apply yields_lift; intros a Ha; exact Ha|]. intros l' Hl'.
    apply yields_ret. unfold SortLoadDistribution in Hl'. rewrite sort_slice_short in Hl' by (simpl; lia).
    by injection Hl' as <-.
Qed.

(** A supplier without a cost, which is only warned about, makes the sorting by cost panic
    when there is another one. *)
Lemma missing_cost_panics prflID suppls ev opts st l st1 x :
  collect maxIncrements fuel ev opts (need_ids su_RatingPlanIDs "RatingPlanIDs") no_more suppls st =
    (Ok l, st1) →
  x ∈ l → cost_value x = Panic → (2 ≤ length l)%nat →
  (SortSuppliers maxIncrements fuel prflID "*lc" suppls ev opts st).1 = Panic.
Proof.
  intros Hc Hx Hp Hlen. change (SortSuppliers _ _ _ _ _ _ _) with
    (LeastCostSorter maxIncrements fuel prflID suppls ev opts).
  unfold LeastCostSorter, mbind, SM_bind. rewrite Hc. unfold found_some.
  rewrite decide_False by (intros ->; simpl in Hlen; lia). simpl.
  unfold SortLeastCost. by rewrite (sort_missing cost_value fltb l x (data_float_asserted _) Hx Hp Hlen).
Qed.

(** The attributes that change nothing make the query panic. *)
Lemma unchanged_event_panics args ev ev' st :
  sc_AttributeSConns = true → gs_CGREvent args = Some ev → gs_nilEvent args = false →
  TrimSpace (ev_Tenant ev) ≠ "" → TrimSpace (ev_ID ev) ≠ "" →
  (∀ context e, AttributeS_ProcessEvent context e = (None, (ev', []))) →
  (V1GetSuppliers maxIncrements fuel args st).1 = Panic.
Proof.
  intros Hc He Hn Ht Hi Ha. unfold V1GetSuppliers, mbind, SM_bind, identified, lift. simpl.
  rewrite He, Hn. rewrite !decide_False by done. simpl. unfold altered_event. by rewrite Hc, Ha.
Qed.

(** The error of the query for the last statistic is the error of them all, be it only that
    it was not found; the errors of the others are not. *)
Lemma last_statistic_decides statIDs statID tenant :
  sc_StatSConns = true →
  match (StatS_GetQueueFloatMetrics tenant statID).1 with
  | Some e => statMetrics (statIDs ++ [statID]) tenant = Err e
  | None => ∃ m, statMetrics (statIDs ++ [statID]) tenant = Ok m
  end.
Proof.
  intros Hc. unfold statMetrics. rewrite Hc. simpl.
  assert (∀ m err, (stat_loop tenant (statIDs ++ [statID]) m err).2 =
    (StatS_GetQueueFloatMetrics tenant statID).1) as Hl.
  { induction statIDs as [|id ids IH]; intros m err; simpl.
    - by destruct (StatS_GetQueueFloatMetrics tenant statID).
    - destruct (StatS_GetQueueFloatMetrics tenant id). apply IH. }
  specialize (Hl ∅ None). destruct (stat_loop _ _ _ _) as [m err]. simpl in Hl. subst err.
  destruct (StatS_GetQueueFloatMetrics tenant statID).1; eauto.
Qed.

(** An offset beyond the end gives the first page again. *)
Lemma page_beyond_end (offset : Z) limit (l : list SortedSupplier) :
  Z.of_nat (length l) < offset → page (Some offset) limit l = page None limit l.
Proof. intros Ho. unfold page. by destruct (Z.leb_spec offset (Z.of_nat (length l))); [lia|]. Qed.

(** Blockers stop nothing. *)
Definition set_blocker (f : Supplier → bool) (s : Supplier) : Supplier :=
  mkSupplier (su_ID s) (su_FilterIDs s) (su_AccountIDs s) (su_RatingPlanIDs s) (su_ResourceIDs s)
    (su_StatIDs s) (su_Weight s) (f s) (su_SupplierParameters s) (su_cacheSupplier s).
Lemma blockers_ignored f prflID strategy suppls ev opts st :
  SortSuppliers maxIncrements fuel prflID strategy (set_blocker f <$> suppls) ev opts st =
  SortSuppliers maxIncrements fuel prflID strategy suppls ev opts st.
Proof.
  assert (∀ need more, (∀ s, need (set_blocker f s) = need s) →
    (∀ s spl, more (set_blocker f s) spl = more s spl) → ∀ st,
    collect maxIncrements fuel ev opts need more (set_blocker f <$> suppls) st =
    collect maxIncrements fuel ev opts need more suppls st) as Hc.
  { intros need more Hn Hm. induction suppls as [|s suppls IH]; intros st1; [done|]. simpl. rewrite Hn.
    destruct (need s); [done|]. unfold mbind, SM_bind.
    change (populateSortingData ev (set_blocker f s) opts st1) with (populateSortingData ev s opts st1).
    destruct (populateSortingData ev s opts st1) as [[[spl|]| |] st2]; simpl; [|by rewrite IH|done..].
    rewrite Hm. unfold lift. destruct (more s spl); simpl; [by rewrite IH|done..]. }
  assert (map_Forall (λ _ (sorter : Sorter), ∀ st,
    sorter prflID (set_blocker f <$> suppls) ev opts st = sorter prflID suppls ev opts st)
    (SupplierSortDispatcher maxIncrements fuel)) as Hall.
  { unfold SupplierSortDispatcher. repeat apply map_Forall_insert_2; [..|apply map_Forall_empty];
      intros st1; unfold mbind, SM_bind, WeightSorter, LeastCostSorter, HighestCostSorter,
        QOSSupplierSorter, ResourceAscendentSorter, ResourceDescendentSorter, LoadDistributionSorter;
      unfold mbind, SM_bind; by rewrite Hc. }
  unfold SortSuppliers. destruct (_ !! strategy) as [sorter|] eqn:E; [|done].
  exact (Hall _ _ E st).
Qed.
End suppliers.

(** ** Examples *)

Section examples.
#[local] Existing Instances plain_text plain_accounts reference_runtime reference_filters.
#[local] Instance plain_hash : GoHash := {| sha1_hex s := s |}.

(** Two rating plans: of two units and of one unit a minute. *)
Definition priced_plan (value : Z) : RatingPlan :=
  let rate := mkRIRate f0 ROUNDING_MIDDLE 4 f0 ""
    (Some [mkRate 0 (f_of_Z value) Minute Minute]) "r" in
  AddRateInterval rit_tag rir_tag (mkRatingPlan "RP" ∅ ∅ None) META_ANY
    [mkRateInterval (Some (from "00:00:00")) (Some rate) f0].
#[local] Instance route_prices : RatingData := {|
  dm_GetRatingProfile key :=
    if decide (key = "*out:t:*suppliers:1001") then Ok (Some (profile "cheap" []))
    else Err ErrNotFound;
  dm_GetRatingPlan id :=
    if decide (id = "dear") then Ok (Some (priced_plan 2))
    else if decide (id = "cheap") then Ok (Some (priced_plan 1)) else Err ErrNotFound;
  dm_GetReverseDestination _ := Err ErrNotFound;
  rpSubjectPrefixMatching := false |}.

Definition plain_supplier (id : string) (plans resources : list string) (weight : Z) : Supplier :=
  mkSupplier id [] [] plans resources [] (f_of_Z weight) false "" ∅.
Definition routes : SupplierProfile :=
  mkSupplierProfile "t" "ROUTES" [] None "*lc" []
    [plain_supplier "first" ["dear"] [] 20; plain_supplier "second" ["cheap"] [] 10;
     plain_supplier "third" ["cheap"] [] 30] f0.
Definition used (units : Z) : Resource := mkResource "t" "" ∅ [] None (Some (f_of_Z units)) None None.
#[local] Instance plain_errors : GoErrors := {| Atoi_error s := "" |}.
#[local] Instance route_data : SupplierData := {|
  GetSupplierProfileDrv tenant id := if decide (id = "ROUTES") then Ok routes else Err NOT_FOUND;
  StatS_GetQueueFloatMetrics tenant id :=
    if decide (id = "calls") then (None, {["*sum" := f1]}) else (Some NOT_FOUND, ∅);
  ResourceS_GetResource tenant id := (None, used (if decide (id = "busy") then 7 else 2));
  AttributeS_ProcessEvent context ev := (None, (ev, []));
  sc_index := mkIndexConfig None None false false; sc_StatSConns := true; sc_ResourceSConns := true;
  sc_AttributeSConns := false; sc_DefaultRatio := 1; sc_DefaultTimezone := "" |}.

Definition route_call : CGREvent := mkCGREvent "t" "ev" None
  [("Account", IString "1001"); ("Destination", IString "49");
   ("SetupTime", ITime (Date 2020 3 2 11 59 0 0 UTC)); ("Usage", IDuration (2 * Minute))].
Definition no_options : optsGetSuppliers := mkOptsGetSuppliers false f0 [] "".
Definition no_accounts : AccountState := mkAccountState (noon_request "1001") [] [] ∅ 0 0 [].

(** The cheapest first; of the two cheap ones the heavier. *)
Lemma cheapest_route :
  (λ r, (SortedSuppliers_Digest r, map (λ s, ms_get "Cost" (ssp_SortingData s)) (sss_SortedSuppliers r))) <$>
    (SortSuppliers 1000 9 "ROUTES" "*lc" (spp_Suppliers routes) route_call no_options no_accounts).1 =
  Ok ("third,second,first",
      [Some (IFloat64 (f_of_Z 2)); Some (IFloat64 (f_of_Z 2)); Some (IFloat64 (f_of_Z 4))]).
Proof. vm_compute. reflexivity. Qed.

(** A rating plan that does not rate the call ends the search, although another one does. *)
Lemma plan_without_rate_fails :
  (costForEvent 1000 9 route_call [] ["none"; "dear"] no_accounts).1 = Err "UNAUTHORIZED_DESTINATION" ∧
  (costForEvent 1000 9 route_call [] ["dear"] no_accounts).1 =
    Ok [("Cost", IFloat64 (f_of_Z 4)); ("RatingPlanID", IString "dear")].
Proof. vm_compute. done. Qed.

(** An account with enough money pays for the call; one that may go below zero, and could
    always pay, is passed over. *)
Definition rich_accounts : AccountState := mkAccountState (noon_request "1001") [] []
  {["t:rich" := mkStoredAccount "t:rich" {[MONETARY := [money "m" 100]]} false false;
    "t:free" := mkStoredAccount "t:free" ∅ true false]} 0 0 [].
Lemma negative_account_never_pays :
  (costForEvent 1000 9 route_call ["free"] ["dear"] rich_accounts).1 =
    Ok [("Cost", IFloat64 (f_of_Z 4)); ("RatingPlanID", IString "dear")] ∧
  (costForEvent 1000 9 route_call ["free"; "rich"] ["dear"] rich_accounts).1 =
    Ok [("Cost", IFloat64 f0); ("Account", IString "rich")].
Proof. vm_compute. done. Qed.

Lemma SortSuppliers_ranked_witness :
  let suppls := [plain_supplier "first" [] ["busy"] 20; plain_supplier "second" [] ["idle"] 10;
                 plain_supplier "third" [] ["idle"] 30] in
  ∃ r st', SortSuppliers 1000 9 "P" "*reas" suppls route_call no_options no_accounts = (Ok r, st') ∧
    SupplierIDs r = ["third"; "second"; "first"] ∧
    ranked usage_value fltb (sss_SortedSuppliers r) ∧
    map ssp_SupplierID (sss_SortedSuppliers r) ⊆+ map su_ID suppls.
Proof.
  eexists _, _. split; [vm_compute; reflexivity|]. split; [reflexivity|].
  apply (SortSuppliers_ranked 1000 9 "P" "*reas"
    [plain_supplier "first" [] ["busy"] 20; plain_supplier "second" [] ["idle"] 10;
     plain_supplier "third" [] ["idle"] 30] route_call no_options no_accounts _ no_accounts).
  - reflexivity.
  - vm_compute. reflexivity.
  - intros s v Hs. simpl in Hs. repeat (apply elem_of_cons in Hs as [->|Hs]; [by intros [= <-]|]).
    by apply elem_of_nil in Hs.
  - intros s v Hs. simpl in Hs. repeat (apply elem_of_cons in Hs as [->|Hs]; [by intros [= <-]|]).
    by apply elem_of_nil in Hs.
Defined.

(** A profile that distributes load, with ratios for its supplier. *)
Definition counted_supplier : Supplier := mkSupplier "first" [] [] [] [] ["calls"] f1 false "" ∅.
Definition load_profile : SupplierProfile :=
  mkSupplierProfile "t" "LOAD" [] None "*load" ["first:2"; "*default:1"]
    [counted_supplier] f0.
Lemma load_distribution_panics_witness :
  (SortSuppliers 1000 9 "LOAD" "*load" [set_ratio {["first" := 2; "*default" := 1]} counted_supplier]
     route_call no_options no_accounts).1 = Panic.
Proof.
  apply (load_distribution_panics 1000 9 load_profile
    (mkSupplierProfile "t" "LOAD" [] None "*load" ["first:2"; "*default:1"]
       [set_ratio {["first" := 2; "*default" := 1]} counted_supplier] f0)
    (set_ratio {["first" := 2; "*default" := 1]} counted_supplier) []
    (mkSortedSupplier "first" "" [("Weight", IFloat64 f1); ("*sum", IFloat64 f1)])
    "LOAD" route_call no_options no_accounts no_accounts).
  1-3: reflexivity.
  - done.
  - vm_compute. reflexivity.
Defined.
End examples.
