(* ===== verification/NavigableMaps.v ===== *)
(** * Navigable maps

    The maps, slices and data behind the fields of requests and replies:
    [utils/navigablemap.go], [utils/nmslice.go], [utils/nmdata.go], the path items of
    [utils/pathitem.go] and the map that remembers the order in which its fields were set,
    [utils/orderednavigablemap.go], on the linked list of [PathItemList].

    A value of the interface [NMInterface] is a tree: [Set] stores the value it is given,
    and the model has no other reference to it.  An operation gives its result, the
    receiver it leaves, also when it fails, and the path, whose negative indexes [Set] and
    [Remove] of a slice replace in the array of the caller. *)
From S2P Require Import Prelude GoStrings CoreUtils Values PathItemList.

Definition ErrNotImplemented : string := "NOT_IMPLEMENTED".

(** ** Path items *)

#[export] Instance PathItem_eq_dec : EqDecision PathItem.
Proof. solve_decision. Defined.
#[export] Instance PathItems_eq_dec : EqDecision PathItems.
Proof. unfold PathItems. apply _. Defined.

Definition stripIdxFromLastPathElm (path : string) : res string :=
  let lastDotIdx := LastIndex path "." in
  let lastIdxStart := LastIndex path "[" in
  if (lastIdxStart =? -1) || (negb (lastDotIdx =? -1) && (lastIdxStart <? lastDotIdx))
  then Ok path
  else slice path 0 lastIdxStart.

Record FullPath := mkFullPath { fp_PathItems : PathItems; fp_Path : string }.

Definition NewPathItems (path : list string) : res PathItems :=
  res_map (λ v, '(field, indx) ← GetPathIndex v; Ok (mkPathItem field indx)) path.

Definition PathItem_String (p : PathItem) : string :=
  match pi_Index p with
  | Some idx => pi_Field p +:+ ("[" +:+ Itoa idx +:+ "]")
  | None => pi_Field p
  end.
Definition PathItems_String (path : PathItems) : res string :=
  let out := foldl (λ out v, out +:+ ("." +:+ PathItem_String v)) "" path in
  if bool_decide (out = "") then Ok "" else slice out 1 (slen out).

Definition PathItem_Equal (p p2 : PathItem) : bool :=
  if bool_decide (pi_Field p ≠ pi_Field p2) then false
  else match pi_Index p, pi_Index p2 with
       | None, None => true
       | Some i, Some j => i =? j
       | _, _ => false
       end.

Definition GetPathWithoutIndex (spath : string) : res string :=
  let idxStart := LastIndex spath "[" in
  if (idxStart =? -1) || negb (HasSuffix spath "]") then Ok spath
  else slice spath 0 idxStart.

(** ** The values *)

(** The leaves are [*utils.NMData], or [*config.NMItem] with its path and what is read of
    its template. *)
Record FCConfig := mkFCConfig { fc_AttributeID : string; fc_NewBranch : bool }.
Inductive leaf :=
  | PlainData
  | ConfigItem (nmi_Path : list string) (nmi_Config : option FCConfig).

(** [NMNil] is the nil interface: a call of one of its methods panics.  What [Interface]
    gives is a plain value, or a map or slice itself. *)
#[local] Unset Elimination Schemes.
Inductive NM :=
  | NMMap (m : gmap string NM)
  | NMSlice (l : list NM)
  | NMData (kind : leaf) (data : NMValue)
  | NMNil
with NMValue := VIface (i : iface) | VNM (nm : NM).
#[local] Set Elimination Schemes.

Inductive NMType := NMMapType | NMSliceType | NMDataType.
#[export] Instance NMType_eq_dec : EqDecision NMType.
Proof. solve_decision. Defined.

Definition NM_Type (nm : NM) : res NMType :=
  match nm with
  | NMMap _ => Ok NMMapType
  | NMSlice _ => Ok NMSliceType
  | NMData _ _ => Ok NMDataType
  | NMNil => Panic
  end.
Definition NM_Interface (nm : NM) : res NMValue :=
  match nm with
  | NMMap _ | NMSlice _ => Ok (VNM nm)
  | NMData _ data => Ok data
  | NMNil => Panic
  end.
Definition NM_Empty (nm : NM) : res bool :=
  match nm with
  | NMMap m => Ok (bool_decide (m = ∅))
  | NMSlice l => Ok (match l with [] => true | _ => false end)
  | NMData _ (VIface INil) => Ok true
  | NMData _ _ => Ok false
  | NMNil => Panic
  end.
Definition NM_Len (nm : NM) : res Z :=
  match nm with
  | NMMap m => Ok (Z.of_nat (size m))
  | NMSlice l => Ok (Z.of_nat (length l))
  | NMData _ _ => Ok 0
  | NMNil => Panic
  end.

(** *** Reading

    [inner el] is the call [el.Field(path[1:])]. *)
Definition NMSlice_Field (inner : NM → res NM) (nms : list NM) (path : PathItems) : res NM :=
  match path with
  | [] => Err ErrWrongPath
  | it :: rest =>
      match nms, pi_Index it with
      | [], _ | _, None => Err NOT_FOUND
      | _, Some idx =>
          let idx := if idx <? 0 then Z.of_nat (length nms) + idx else idx in
          if (idx <? 0) || (Z.of_nat (length nms) <=? idx) then Err NOT_FOUND
          else
            el ← index nms idx;
            match rest with [] => Ok el | _ => inner el end
      end
  end.

Definition NavigableMap2_Field (inner : NM → res NM) (nm : gmap string NM)
    (path : PathItems) : res NM :=
  match path with
  | [] => Err ErrWrongPath
  | it :: rest =>
      match nm !! pi_Field it with
      | None => Err NOT_FOUND
      | Some el =>
          match rest, pi_Index it with
          | [], None => Ok el
          | _, _ =>
              match el with
              | NMNil => Panic
              | NMMap _ =>
                  match pi_Index it with Some _ => Err NOT_FOUND | None => inner el end
              | NMSlice l => NMSlice_Field inner l path
              | NMData _ _ => Err NOT_FOUND
              end
          end
      end
  end.

Fixpoint NM_Field (path : PathItems) (nm : NM) : res NM :=
  let inner := match path with [] => λ _, Panic | _ :: rest => NM_Field rest end in
  match nm with
  | NMMap m => NavigableMap2_Field inner m path
  | NMSlice l => NMSlice_Field inner l path
  | NMData _ _ => Err ErrNotImplemented
  | NMNil => Panic
  end.

Definition NavigableMap2_FieldAsInterface (nm : gmap string NM) (fldPath : list string)
    : res NMValue :=
  path ← NewPathItems fldPath;
  nmi ← NM_Field path (NMMap nm);
  NM_Interface nmi.

(** *** Setting

    [inner el] is the call [el.Set(path[1:], val)]. *)
Abbreviation outcome A := (res A * (NM * PathItems))%type.

Definition with_index (it : PathItem) (idx : Z) : PathItem :=
  mkPathItem (pi_Field it) (Some idx).

Definition NMSlice_Set (inner : NM → outcome bool) (nms : list NM) (path : PathItems)
    (val : NM) : outcome bool :=
  match path with
  | [] => (Err ErrWrongPath, (NMSlice nms, path))
  | it :: rest =>
      match pi_Index it with
      | None => (Err ErrWrongPath, (NMSlice nms, path))
      | Some idx =>
          if idx =? Z.of_nat (length nms) then
            match rest with
            | [] => (Ok true, (NMSlice (nms ++ [val]), path))
            | _ =>
                match inner (NMMap ∅) with
                | (Ok _, (nel, rest')) => (Ok true, (NMSlice (nms ++ [nel]), it :: rest'))
                | (r, (_, rest')) => (r, (NMSlice nms, it :: rest'))
                end
            end
          else
            let idx := if idx <? 0 then Z.of_nat (length nms) + idx else idx in
            if (idx <? 0) || (Z.of_nat (length nms) <=? idx)
            then (Err ErrWrongPath, (NMSlice nms, path))
            else
              let it := with_index it idx in
              match rest, nms !! Z.to_nat idx with
              | [], _ => (Ok false, (NMSlice (<[Z.to_nat idx := val]> nms), it :: rest))
              | _, Some (NMSlice _) => (Err ErrWrongPath, (NMSlice nms, it :: rest))
              | _, Some ((NMMap _ | NMData _ _) as el) =>
                  let '(r, (el, rest')) := inner el in
                  (r, (NMSlice (<[Z.to_nat idx := el]> nms), it :: rest'))
              | _, _ => (Panic, (NMSlice nms, it :: rest))
              end
      end
  end.

Definition NavigableMap2_Set (inner : NM → outcome bool) (nm : gmap string NM)
    (path : PathItems) (val : NM) : outcome bool :=
  match path with
  | [] => (Err ErrWrongPath, (NMMap nm, path))
  | it :: rest =>
      match pi_Index it with
      | Some _ =>
          match nm !! pi_Field it with
          | None =>
              match NMSlice_Set inner [] path val with
              | (Ok _, (nmItm, path)) => (Ok true, (NMMap (<[pi_Field it := nmItm]> nm), path))
              | (r, (_, path)) => (r, (NMMap nm, path))
              end
          | Some (NMSlice l) =>
              let '(r, (nmItm, path)) := NMSlice_Set inner l path val in
              (r, (NMMap (<[pi_Field it := nmItm]> nm), path))
          | Some NMNil => (Panic, (NMMap nm, path))
          | Some _ => (Err ErrWrongPath, (NMMap nm, path))
          end
      | None =>
          match rest with
          | [] => (Ok (negb (bool_decide (is_Some (nm !! pi_Field it)))),
                   (NMMap (<[pi_Field it := val]> nm), path))
          | _ =>
              match default (NMMap ∅) (nm !! pi_Field it) with
              | NMMap _ as nmItm =>
                  let '(r, (nmItm, rest')) := inner nmItm in
                  (r, (NMMap (<[pi_Field it := nmItm]> nm), it :: rest'))
              | NMNil => (Panic, (NMMap nm, path))
              | _ => (Err ErrWrongPath, (NMMap nm, path))
              end
          end
      end
  end.

Definition NMData_Set (kind : leaf) (data : NMValue) (path : PathItems) (val : NM) : outcome bool :=
  match path, NM_Interface val with
  | _ :: _, _ => (Err ErrWrongPath, (NMData kind data, path))
  | [], Ok data => (Ok false, (NMData kind data, path))
  | [], _ => (Panic, (NMData kind data, path))
  end.

Fixpoint NM_Set (path : PathItems) (val : NM) (nm : NM) : outcome bool :=
  let inner := match path with
               | [] => λ el, (Panic, (el, []))
               | _ :: rest => NM_Set rest val
               end in
  match nm with
  | NMMap m => NavigableMap2_Set inner m path val
  | NMSlice l => NMSlice_Set inner l path val
  | NMData k d => NMData_Set k d path val
  | NMNil => (Panic, (nm, path))
  end.

(** *** Removing

    [inner el] is the call [el.Remove(path[1:])]. *)
Definition delete_at (nms : list NM) (idx : Z) : list NM :=
  take (Z.to_nat idx) nms ++ drop (S (Z.to_nat idx)) nms.

Definition NMSlice_Remove (inner : NM → outcome ()) (nms : list NM) (path : PathItems)
    : outcome () :=
  match path with
  | [] => (Err ErrWrongPath, (NMSlice nms, path))
  | it :: rest =>
      match pi_Index it with
      | None => (Err ErrWrongPath, (NMSlice nms, path))
      | Some idx =>
          let idx := if idx <? 0 then Z.of_nat (length nms) + idx else idx in
          if (idx <? 0) || (Z.of_nat (length nms) <=? idx) then (Ok (), (NMSlice nms, path))
          else
            let it := with_index it idx in
            match rest, nms !! Z.to_nat idx with
            | [], _ => (Ok (), (NMSlice (delete_at nms idx), it :: rest))
            | _, Some (NMMap _ as el) =>
                let '(r, (el, rest')) := inner el in
                let nms' := <[Z.to_nat idx := el]> nms in
                match r with
                | Ok _ =>
                    match NM_Empty el with
                    | Ok true => (Ok (), (NMSlice (delete_at nms' idx), it :: rest'))
                    | Ok false => (Ok (), (NMSlice nms', it :: rest'))
                    | _ => (Panic, (NMSlice nms', it :: rest'))
                    end
                | _ => (r, (NMSlice nms', it :: rest'))
                end
            | _, Some NMNil | _, None => (Panic, (NMSlice nms, it :: rest))
            | _, _ => (Err ErrWrongPath, (NMSlice nms, it :: rest))
            end
      end
  end.

(** [if el.Empty() { delete(nm, field) }] after the element was changed. *)
Definition keep_nonempty (nm : gmap string NM) (field : string) (el : NM) (path : PathItems)
    (r : res ()) : outcome () :=
  match NM_Empty el with
  | Ok true => (r, (NMMap (delete field nm), path))
  | Ok false => (r, (NMMap (<[field := el]> nm), path))
  | _ => (Panic, (NMMap nm, path))
  end.

Definition NavigableMap2_Remove (inner : NM → outcome ()) (nm : gmap string NM)
    (path : PathItems) : outcome () :=
  match path with
  | [] => (Err ErrWrongPath, (NMMap nm, path))
  | it :: rest =>
      match nm !! pi_Field it with
      | None => (Ok (), (NMMap nm, path))
      | Some el =>
          match rest, pi_Index it with
          | [], Some _ =>
              match el with
              | NMSlice l =>
                  let '(r, (el, path)) := NMSlice_Remove inner l path in
                  keep_nonempty nm (pi_Field it) el path r
              | NMNil => (Panic, (NMMap nm, path))
              | _ => (Err ErrWrongPath, (NMMap nm, path))
              end
          | [], None => (Ok (), (NMMap (delete (pi_Field it) nm), path))
          | _, Some _ =>
              match el with
              | NMSlice l =>
                  match NMSlice_Remove inner l path with
                  | (Ok _, (el, path)) => keep_nonempty nm (pi_Field it) el path (Ok ())
                  | (r, (el, path)) => (r, (NMMap (<[pi_Field it := el]> nm), path))
                  end
              | NMNil => (Panic, (NMMap nm, path))
              | _ => (Err ErrWrongPath, (NMMap nm, path))
              end
          | _, None =>
              match el with
              | NMMap _ =>
                  match inner el with
                  | (Ok _, (el, rest')) =>
                      keep_nonempty nm (pi_Field it) el (it :: rest') (Ok ())
                  | (r, (el, rest')) => (r, (NMMap (<[pi_Field it := el]> nm), it :: rest'))
                  end
              | NMNil => (Panic, (NMMap nm, path))
              | _ => (Err ErrWrongPath, (NMMap nm, path))
              end
          end
      end
  end.

Fixpoint NM_Remove (path : PathItems) (nm : NM) : outcome () :=
  let inner := match path with
               | [] => λ el, (Panic, (el, []))
               | _ :: rest => NM_Remove rest
               end in
  match nm with
  | NMMap m => NavigableMap2_Remove inner m path
  | NMSlice l => NMSlice_Remove inner l path
  | NMData _ _ => (Err ErrNotImplemented, (nm, path))
  | NMNil => (Panic, (nm, path))
  end.

(** ** Reading what was set *)

Lemma Field_cons it rest nm : NM_Field (it :: rest) nm =
  match nm with
  | NMMap m => NavigableMap2_Field (NM_Field rest) m (it :: rest)
  | NMSlice l => NMSlice_Field (NM_Field rest) l (it :: rest)
  | NMData _ _ => Err ErrNotImplemented
  | NMNil => Panic
  end.
Proof. by destruct nm. Qed.
Lemma Set_cons it rest val nm : NM_Set (it :: rest) val nm =
  match nm with
  | NMMap m => NavigableMap2_Set (NM_Set rest val) m (it :: rest) val
  | NMSlice l => NMSlice_Set (NM_Set rest val) l (it :: rest) val
  | NMData k d => NMData_Set k d (it :: rest) val
  | NMNil => (Panic, (nm, it :: rest))
  end.
Proof. by destruct nm. Qed.

Lemma Set_stays_map p val m : ∃ m', (NM_Set p val (NMMap m)).2.1 = NMMap m'.
Proof.
  destruct p as [|it rest]; [by exists m|]. rewrite Set_cons. unfold NavigableMap2_Set.
  repeat case_match; simplify_eq; simpl; eauto.
Qed.

(** The position an index selects in a slice of length [n]. *)
Definition position (n : nat) (idx : Z) : option nat :=
  let idx := if idx <? 0 then Z.of_nat n + idx else idx in
  if (idx <? 0) || (Z.of_nat n <=? idx) then None else Some (Z.to_nat idx).

Lemma position_lt n idx k : position n idx = Some k → (k < n)%nat.
Proof.
  unfold position. intros E. destruct (_ || _) eqn:Hb; [done|]. injection E as <-.
  apply orb_false_iff in Hb as [?%Z.ltb_ge ?%Z.leb_gt]. lia.
Qed.
Lemma position_nonneg n idx : 0 ≤ idx →
  position n idx = if decide (Z.to_nat idx < n)%nat then Some (Z.to_nat idx) else None.
Proof.
  intros Hi. unfold position. rewrite (proj2 (Z.ltb_ge idx 0)) by done. simpl.
  rewrite (proj2 (Z.ltb_ge idx 0)) by done. simpl. case_decide.
  - by rewrite (proj2 (Z.leb_gt _ _)) by lia.
  - by rewrite (proj2 (Z.leb_le _ _)) by lia.
Qed.

Lemma slice_Field_spec inner l f idx rest :
  NMSlice_Field inner l (mkPathItem f (Some idx) :: rest) =
  match position (length l) idx ≫= λ k, l !! k with
  | Some el => match rest with [] => Ok el | _ => inner el end
  | None => Err NOT_FOUND
  end.
Proof.
  unfold NMSlice_Field, position. simpl.
  destruct (decide (l = [])) as [->|Hl].
  - simpl. by destruct (_ || _).
  - transitivity (let idx := if idx <? 0 then Z.of_nat (length l) + idx else idx in
      if (idx <? 0) || (Z.of_nat (length l) <=? idx) then Err NOT_FOUND
      else el ← index l idx; match rest with [] => Ok el | _ => inner el end);
      [by destruct l|]. cbv zeta. set (k := if idx <? 0 then _ else _).
    destruct (_ || _) eqn:E; [done|]. simpl.
    apply orb_false_iff in E as [?%Z.ltb_ge ?%Z.leb_gt]. unfold index.
    rewrite decide_True by done.
    destruct (lookup_lt_is_Some_2 l (Z.to_nat k)) as [el ->]; [lia|]. by destruct rest.
Qed.

Lemma slice_Set_existing inner l f idx rest val :
  idx ≠ Z.of_nat (length l) →
  NMSlice_Set inner l (mkPathItem f (Some idx) :: rest) val =
  match position (length l) idx with
  | None => (Err ErrWrongPath, (NMSlice l, mkPathItem f (Some idx) :: rest))
  | Some k =>
      let it := mkPathItem f (Some (Z.of_nat k)) in
      match rest, l !! k with
      | [], _ => (Ok false, (NMSlice (<[k := val]> l), it :: rest))
      | _, Some (NMSlice _) => (Err ErrWrongPath, (NMSlice l, it :: rest))
      | _, Some ((NMMap _ | NMData _ _) as el) =>
          let '(r, (el, rest')) := inner el in
          (r, (NMSlice (<[k := el]> l), it :: rest'))
      | _, _ => (Panic, (NMSlice l, it :: rest))
      end
  end.
Proof.
  intros Hne. unfold NMSlice_Set, position. cbn [pi_Index].
  rewrite (proj2 (Z.eqb_neq _ _)) by done. cbv zeta.
  set (k := if idx <? 0 then _ else _). destruct (_ || _) eqn:E; [done|].
  apply orb_false_iff in E as [?%Z.ltb_ge ?%Z.leb_gt].
  unfold with_index. cbn [pi_Field]. by rewrite Z2Nat.id.
Qed.

Lemma position_of_nat n k : (k < n)%nat → position n (Z.of_nat k) = Some k.
Proof. intros Hk. rewrite position_nonneg by lia. rewrite Nat2Z.id. by rewrite decide_True. Qed.

(** [path] and [path'] lead to [val] in [nm]. *)
Definition leads (path path' : PathItems) (val nm : NM) : Prop :=
  path' ≠ [] ∧ NM_Field path nm = Ok val ∧ NM_Field path' nm = Ok val.

Section set_then_read.
Context (rest : PathItems) (val : NM).
Context (IH : rest ≠ [] → ∀ nm b nm' rest',
  NM_Set rest val nm = (Ok b, (nm', rest')) → leads rest rest' val nm').

Lemma slice_Set_read l it b nm' path' :
  NMSlice_Set (NM_Set rest val) l (it :: rest) val = (Ok b, (nm', path')) →
  ∃ l' it' rest', nm' = NMSlice l' ∧ path' = it' :: rest' ∧ pi_Field it' = pi_Field it ∧
    is_Some (pi_Index it) ∧ is_Some (pi_Index it') ∧
    NMSlice_Field (NM_Field rest) l' (it :: rest) = Ok val ∧
    NMSlice_Field (NM_Field rest') l' (it' :: rest') = Ok val.
Proof.
  destruct it as [f [idx|]]; [|done].
  destruct (decide (idx = Z.of_nat (length l))) as [->|Hne].
  - unfold NMSlice_Set. cbn [pi_Index]. rewrite Z.eqb_refl.
    assert (∀ nel, position (length (l ++ [nel])) (Z.of_nat (length l)) ≫=
      (λ k, (l ++ [nel]) !! k) = Some nel) as Hpos.
    { intros nel. rewrite position_of_nat by (rewrite length_app; simpl; lia). simpl.
      rewrite lookup_app_r by lia. by rewrite Nat.sub_diag. }
    destruct rest as [|it2 rest2] eqn:Er; [|rewrite <- Er in *].
    + intros [= <- <- <-]. eexists _, _, _. split_and!; [done..|by eexists|by eexists| |];
        by rewrite slice_Field_spec, Hpos.
    + destruct (NM_Set rest val (NMMap ∅)) as [[b2|e|] [nel rest']] eqn:E; [|done..].
      intros [= <- <- <-]. destruct (IH ltac:(by subst) _ _ _ _ E) as (Hn & H1 & H2).
      eexists _, _, _. split_and!; [done..|by eexists|by eexists| |].
      * rewrite slice_Field_spec, Hpos. by rewrite Er in *.
      * rewrite slice_Field_spec, Hpos. by destruct rest'.
  - rewrite slice_Set_existing by done.
    destruct (position (length l) idx) as [k|] eqn:Ek; [|done]. cbv zeta.
    pose proof (position_lt _ _ _ Ek) as Hk.
    assert (∀ el i, position (length l) i = Some k →
      position (length (<[k := el]> l)) i ≫= (λ j, <[k := el]> l !! j) = Some el) as Hpos.
    { intros el i Ei. rewrite length_insert, Ei. simpl. by apply list_lookup_insert_eq. }
    destruct rest as [|it2 rest2] eqn:Er; [|rewrite <- Er in *].
    + intros [= <- <- <-]. eexists _, _, _. split_and!; [done..|by eexists|by eexists| |];
        rewrite slice_Field_spec, Hpos; [done|done|done|by apply position_of_nat].
    + destruct (l !! k) as [[m|l2|d i|]|]; try done.
      * destruct (NM_Set rest val (NMMap m)) as [r [nel rest']] eqn:E. intros [= -> <- <-].
        destruct (IH ltac:(by subst) _ _ _ _ E) as (Hn & H1 & H2).
        eexists _, _, _. split_and!; [done..|by eexists|by eexists| |];
          rewrite slice_Field_spec, Hpos; [by rewrite Er in *|done| |by apply position_of_nat].
        by destruct rest'.
      * rewrite Er. cbn. done.
Qed.
End set_then_read.

Lemma Set_leads path val : ∀ nm b nm' path', path ≠ [] →
  NM_Set path val nm = (Ok b, (nm', path')) → leads path path' val nm'.
Proof.
  induction path as [|it rest IH]; [done|]. intros nm b nm' path' _.
  assert (rest ≠ [] → ∀ nm b nm' rest',
    NM_Set rest val nm = (Ok b, (nm', rest')) → leads rest rest' val nm') as IH' by eauto.
  rewrite Set_cons. destruct nm as [m|l|d i|]; [| |done|done].
  - unfold NavigableMap2_Set. destruct it as [f [idx|]]; cbn [pi_Index pi_Field].
    + set (it := mkPathItem f (Some idx)).
      assert (∀ l r nmItm p, NMSlice_Set (NM_Set rest val) l (it :: rest) val = (Ok r, (nmItm, p)) →
        leads (it :: rest) p val (NMMap (<[f := nmItm]> m))) as Hs.
      { intros l r nmItm p E.
        destruct (slice_Set_read rest val IH' l it _ _ _ E)
          as (l' & it' & rest' & -> & -> & Ef & _ & [i' Ei] & H1 & H2).
        split; [done|]. rewrite !Field_cons. unfold NavigableMap2_Field.
        rewrite Ef. cbn [pi_Field it]. rewrite lookup_insert_eq, Ei.
        split; [by destruct rest|by destruct rest']. }
      destruct (m !! f) as [[|l| |]|]; try done.
      * destruct (NMSlice_Set _ _ _ _) as [r [nmItm p]] eqn:E. intros [= -> <- <-]. by eapply Hs.
      * destruct (NMSlice_Set _ _ _ _) as [[r|e|] [nmItm p]] eqn:E; try done.
        intros [= <- <- <-]. by eapply Hs.
    + destruct rest as [|it2 rest2] eqn:Er; [|rewrite <- Er in *].
      * intros [= <- <- <-]. split; [done|]. by rewrite !Field_cons; simpl; rewrite lookup_insert_eq.
      * assert (rest ≠ []) as Hne by (by subst).
        assert (∀ m0 r nmItm rest', NM_Set rest val (NMMap m0) = (Ok r, (nmItm, rest')) →
          leads (mkPathItem f None :: rest) (mkPathItem f None :: rest') val
            (NMMap (<[f := nmItm]> m))) as Hs.
        { intros m0 r nmItm rest' E. destruct (IH' Hne _ _ _ _ E) as (Hn & H1 & H2).
          split; [done|]. rewrite !Field_cons. simpl. rewrite lookup_insert_eq.
          destruct (Set_stays_map rest val m0) as [m1 E1]. rewrite E in E1. simpl in E1. subst nmItm.
          by destruct rest, rest'. }
        destruct (default (NMMap ∅) (m !! f)) as [m0| | |]; try by subst.
        destruct (NM_Set rest val (NMMap m0)) as [r [nmItm rest']] eqn:E.
        rewrite Er in *. intros [= -> <- <-]. by eapply Hs.
  - intros E. destruct (slice_Set_read rest val IH' l it _ _ _ E)
      as (l' & it' & rest' & -> & -> & _ & _ & _ & H1 & H2). split; [done|].
    by rewrite !Field_cons.
Qed.

(** ** Other paths

    Two paths part where the fields differ, or the fields agree and the indexes are
    different positions counted from the front. *)
Fixpoint apart (p q : PathItems) : Prop :=
  match p, q with
  | it :: p', it' :: q' =>
      pi_Field it ≠ pi_Field it' ∨
      (∃ i j, pi_Index it = Some i ∧ pi_Index it' = Some j ∧ 0 ≤ i ∧ 0 ≤ j ∧ i ≠ j) ∨
      (it = it' ∧ apart p' q')
  | _, _ => False
  end.

Lemma Field_empty_map q : q ≠ [] → NM_Field q (NMMap ∅) = Err NOT_FOUND.
Proof. by destruct q. Qed.

Definition not_slice (nm : NM) : Prop := ∀ l, nm ≠ NMSlice l.

Lemma apart_nonempty p q : apart p q → p ≠ [] ∧ q ≠ [].
Proof. by destruct p, q. Qed.

(** What a slice gives for the path of index [j] followed by [q]. *)
Definition read_at (q : PathItems) (l : list NM) (j : Z) : res NM :=
  match position (length l) j ≫= λ k, l !! k with
  | Some el => match q with [] => Ok el | _ => NM_Field q el end
  | None => Err NOT_FOUND
  end.

Lemma read_at_app q l nel j :
  (Z.of_nat (length l) ≠ j ∧ 0 ≤ j) ∨
    Z.of_nat (length l) = j ∧ q ≠ [] ∧ NM_Field q nel = Err NOT_FOUND →
  read_at q (l ++ [nel]) j = read_at q l j.
Proof.
  unfold read_at. rewrite length_app. simpl. intros [[Hij Hj]|(<- & Hq & Hnel)].
  - rewrite !position_nonneg by done. destruct (decide (Z.to_nat j < length l)%nat).
    + rewrite decide_True by lia. simpl. by rewrite lookup_app_l.
    + by rewrite decide_False by lia.
  - rewrite position_of_nat, (position_nonneg (length l)), decide_False by lia. simpl.
    rewrite lookup_app_r, Nat.sub_diag by lia. simpl. by destruct q.
Qed.
Lemma read_at_insert q l idx j k el :
  position (length l) idx = Some k →
  (idx ≠ j ∧ 0 ≤ idx ∧ 0 ≤ j) ∨
    idx = j ∧ q ≠ [] ∧ (∀ el0, l !! k = Some el0 → NM_Field q el = NM_Field q el0) →
  read_at q (<[k := el]> l) j = read_at q l j.
Proof.
  intros Ek Hcase. pose proof (position_lt _ _ _ Ek) as Hk. unfold read_at. rewrite length_insert.
  destruct (position (length l) j) as [k'|] eqn:Ej; [|done]. simpl.
  destruct (decide (k' = k)) as [->|Hkk]; [|by rewrite list_lookup_insert_ne by done].
  rewrite list_lookup_insert_eq by done.
  destruct (lookup_lt_is_Some_2 l k Hk) as [el0 El0]. rewrite El0.
  destruct Hcase as [(Hij & Hi & Hj)|(-> & Hq & Hel)].
  - rewrite position_nonneg in Ek, Ej by done. repeat case_decide; simplify_eq. lia.
  - rewrite (Hel el0 El0). by destruct q.
Qed.

Section frame.
Context (rest : PathItems) (val : NM).
Context (IH : ∀ q nm, not_slice nm → apart rest q →
  NM_Field q (NM_Set rest val nm).2.1 = NM_Field q nm).

(** The paths of indexes [i] and [j] in a slice part at the index or below it. *)
Definition parts (i j : Z) (q : PathItems) : Prop :=
  (i ≠ j ∧ 0 ≤ i ∧ 0 ≤ j) ∨ i = j ∧ apart rest q.

Lemma slice_append_frame l f j q :
  parts (Z.of_nat (length l)) j q →
  ∃ l', (NMSlice_Set (NM_Set rest val) l
          (mkPathItem f (Some (Z.of_nat (length l))) :: rest) val).2.1 = NMSlice l' ∧
    read_at q l' j = read_at q l j.
Proof.
  unfold parts. intros Hcase. unfold NMSlice_Set. cbn [pi_Index]. rewrite Z.eqb_refl.
  pose proof (λ q, IH q (NMMap ∅) (λ l, ltac:(done))) as IH0.
  destruct rest as [|it2 rest2] eqn:Er.
  - eexists. split; [done|]. destruct Hcase as [?|[_ []]]. apply read_at_app. naive_solver.
  - rewrite <- Er in *.
    destruct (NM_Set rest val (NMMap ∅)) as [[b2|e|] [nel rest']] eqn:E; simpl in *; eauto.
    eexists. split; [done|]. apply read_at_app. destruct Hcase as [?|[<- Hap]]; [naive_solver|].
    right. destruct (apart_nonempty rest q Hap). rewrite IH0 by done. by rewrite Field_empty_map.
Qed.
Lemma slice_existing_frame l f idx j q :
  idx ≠ Z.of_nat (length l) → parts idx j q →
  ∃ l', (NMSlice_Set (NM_Set rest val) l (mkPathItem f (Some idx) :: rest) val).2.1 =
      NMSlice l' ∧ read_at q l' j = read_at q l j.
Proof.
  unfold parts. intros Hne Hcase. rewrite slice_Set_existing by done.
  destruct (position (length l) idx) as [k|] eqn:Ek; [|eauto]. cbv zeta.
  assert (∀ el, l !! k = Some el → not_slice el →
    read_at q (<[k := (NM_Set rest val el).2.1]> l) j = read_at q l j) as Hgo.
  { intros el El Hns. apply read_at_insert with idx; [done|].
    destruct Hcase as [?|[<- Hap]]; [by left|right]. destruct (apart_nonempty rest q Hap).
    split_and!; [done..|]. intros el0 E0. simplify_eq. by apply IH. }
  destruct rest as [|it2 rest2] eqn:Er; [|rewrite <- Er in *].
  - eexists. split; [done|]. apply read_at_insert with idx; [done|].
    destruct Hcase as [?|[_ []]]. by left.
  - destruct (l !! k) as [[m|l2|d i|]|] eqn:El; try (rewrite Er; simpl; by eauto);
      specialize (Hgo _ eq_refl (λ l, ltac:(done))).
    + destruct (NM_Set rest val (NMMap m)) as [r [nel rest']].
      rewrite Er in *. simpl in *. eauto.
    + destruct (NM_Set rest val (NMData d i)) as [r [nel rest']].
      rewrite Er in *. simpl in *. eauto.
Qed.

Lemma slice_Set_frame l it it' q :
  (∃ i j, pi_Index it = Some i ∧ pi_Index it' = Some j ∧ 0 ≤ i ∧ 0 ≤ j ∧ i ≠ j) ∨
    (it = it' ∧ apart rest q) →
  ∃ l', (NMSlice_Set (NM_Set rest val) l (it :: rest) val).2.1 = NMSlice l' ∧
    NMSlice_Field (NM_Field q) l' (it' :: q) = NMSlice_Field (NM_Field q) l (it' :: q).
Proof.
  destruct it as [f [idx|]], it' as [f' i']; cbn [pi_Index]; [|eauto].
  intros Hap. assert (∃ j, i' = Some j ∧ parts idx j q) as (j & -> & Hcase).
  { destruct Hap as [(i & j & [= ->] & [= ->] & ? & ? & ?)|[[= <- <-] ?]].
    - exists j. split; [done|]. by left.
    - exists idx. split; [done|]. by right. }
  setoid_rewrite slice_Field_spec. destruct (decide (idx = Z.of_nat (length l))) as [->|Hne].
  - by apply slice_append_frame.
  - by apply slice_existing_frame.
Qed.
End frame.

Lemma Set_frame p val : ∀ q nm, not_slice nm → apart p q →
  NM_Field q (NM_Set p val nm).2.1 = NM_Field q nm.
Proof.
  induction p as [|it rest IH]; [done|]. intros [|it' q] nm Hns Hap; [done|].
  rewrite Set_cons. destruct nm as [m|l|d i|]; [|by destruct (Hns l)|done..].
  assert (∀ el nm', pi_Field it ≠ pi_Field it' → nm' = NMMap (<[pi_Field it := el]> m) →
    NM_Field (it' :: q) nm' = NM_Field (it' :: q) (NMMap m)) as Hother.
  { intros el nm' Hne ->. rewrite !Field_cons. unfold NavigableMap2_Field.
    by rewrite lookup_insert_ne. }
  unfold NavigableMap2_Set. destruct (pi_Index it) as [idx|] eqn:Ei.
  - assert (∀ l, default (NMSlice []) (m !! pi_Field it) = NMSlice l →
      NM_Field (it' :: q) (NMMap (<[pi_Field it :=
        (NMSlice_Set (NM_Set rest val) l (it :: rest) val).2.1]> m)) =
      NM_Field (it' :: q) (NMMap m)) as Hs.
    { intros l El. destruct (decide (pi_Field it = pi_Field it')) as [Ef|]; [|by eapply Hother].
      destruct Hap as [?|Hap]; [done|].
      destruct (slice_Set_frame rest val IH l it it' q Hap) as (l' & -> & E).
      assert (∃ j, pi_Index it' = Some j) as [j Ej] by naive_solver.
      rewrite !Field_cons. unfold NavigableMap2_Field. rewrite <- Ef, lookup_insert_eq, Ej.
      destruct (m !! pi_Field it) as [nm0|] eqn:E0; simpl in El; simplify_eq.
      - destruct q; exact E.
      - transitivity (NMSlice_Field (NM_Field q) l' (it' :: q)); [by destruct q|]. by rewrite E. }
    destruct (m !! pi_Field it) as [[|l| |]|] eqn:E0; try done.
    + specialize (Hs l eq_refl). destruct (NMSlice_Set _ _ _ _) as [r [nmItm p]]. exact Hs.
    + specialize (Hs [] eq_refl). destruct (NMSlice_Set _ _ _ _) as [[r|e|] [nmItm p]]; [exact Hs|done..].
  - destruct (decide (pi_Field it = pi_Field it')) as [Ef|Hne].
    + destruct Hap as [?|[(?&?&?&?)|[<- Hap]]]; [done|congruence|].
      destruct (apart_nonempty rest q Hap).
      destruct rest as [|it2 rest2] eqn:Er; [done|rewrite <- Er in *].
      destruct (default (NMMap ∅) (m !! pi_Field it)) as [m0| | |] eqn:E0; try done.
      specialize (IH q (NMMap m0) (λ l, ltac:(done)) Hap).
      destruct (Set_stays_map rest val m0) as [m1 E1].
      destruct (NM_Set rest val (NMMap m0)) as [r [el rest']]. simpl in IH, E1. subst el.
      cbn [fst snd]. rewrite !Field_cons. unfold NavigableMap2_Field. rewrite lookup_insert_eq, Ei.
      destruct (m !! pi_Field it) eqn:E2; simpl in E0; simplify_eq; by destruct q.
    + destruct rest; [by eapply Hother|].
      destruct (default _ _); try done. destruct (NM_Set _ _ _) as [r [el rest']]. by eapply Hother.
Qed.

(** ** Removing *)

Definition unindexed (p : PathItems) : Prop := Forall (λ it, pi_Index it = None) p.

Lemma Remove_stays_map p m : ∃ m', (NM_Remove p (NMMap m)).2.1 = NMMap m'.
Proof.
  destruct p as [|it rest]; [by exists m|]. cbn. unfold NavigableMap2_Remove, keep_nonempty.
  repeat case_match; simplify_eq; simpl; eauto.
Qed.

(** Removing the path [it :: rest] from a map where [it] is a map. *)
Lemma Remove_below it rest m m0 :
  pi_Index it = None → rest ≠ [] → m !! pi_Field it = Some (NMMap m0) →
  ∃ m1, (NM_Remove rest (NMMap m0)).2.1 = NMMap m1 ∧
    (NM_Remove (it :: rest) (NMMap m)).1 = (NM_Remove rest (NMMap m0)).1 ∧
    (NM_Remove (it :: rest) (NMMap m)).2.1 = NMMap (<[pi_Field it := NMMap m1]> m) ∨
    (NM_Remove rest (NMMap m0)).2.1 = NMMap ∅ ∧
    (NM_Remove (it :: rest) (NMMap m)).1 = (NM_Remove rest (NMMap m0)).1 ∧
    (NM_Remove (it :: rest) (NMMap m)).2.1 = NMMap (delete (pi_Field it) m).
Proof.
  intros Ei Hne El. destruct (Remove_stays_map rest m0) as [m1 E1]. exists m1.
  destruct rest as [|it2 rest2] eqn:Er; [done|].
  change (NM_Remove (it :: it2 :: rest2) (NMMap m)) with
    (NavigableMap2_Remove (NM_Remove (it2 :: rest2)) m (it :: it2 :: rest2)).
  rewrite <- Er in *. unfold NavigableMap2_Remove. rewrite El, Ei, Er, <- Er.
  destruct (NM_Remove rest (NMMap m0)) as [r [el rest']]. simpl in *. subst el.
  destruct r as [[]|e|]; [|by left..]. unfold keep_nonempty. simpl.
  destruct (decide (m1 = ∅)) as [->|].
  - rewrite bool_decide_true by done. by right.
  - rewrite bool_decide_false by done. by left.
Qed.

Lemma Remove_read p : ∀ m u nm' p', p ≠ [] → unindexed p →
  NM_Remove p (NMMap m) = (Ok u, (nm', p')) → NM_Field p nm' = Err NOT_FOUND.
Proof.
  induction p as [|it rest IH]; [done|]. intros m u nm' p' _ [Ei Hrest]%Forall_cons E.
  destruct (m !! pi_Field it) as [el|] eqn:El.
  2:{ cbn in E. rewrite El in E. injection E as <- <- <-. cbn. by rewrite El. }
  destruct (decide (rest = [])) as [->|Hne].
  { cbn in E. rewrite El, Ei in E. injection E as <- <- <-. cbn. by rewrite lookup_delete_eq. }
  destruct el as [m0|l|d i|]; try (destruct rest; [done|]; cbn in E; by rewrite El, Ei in E).
  destruct (Remove_below it rest m m0 Ei Hne El) as (m1 & Hcase). rewrite E in Hcase. simpl in Hcase.
  rewrite Field_cons. destruct Hcase as [(E1 & E2 & ->)|(_ & _ & ->)]; unfold NavigableMap2_Field.
  - rewrite lookup_insert_eq, Ei. destruct (NM_Remove rest (NMMap m0)) as [r [el rest']] eqn:E3.
    simpl in *. subst. destruct u. specialize (IH m0 tt (NMMap m1) rest' Hne Hrest E3).
    by destruct rest.
  - by rewrite lookup_delete_eq.
Qed.

Lemma Remove_frame p : ∀ q m, unindexed p → apart p q →
  NM_Field q (NM_Remove p (NMMap m)).2.1 = NM_Field q (NMMap m).
Proof.
  induction p as [|it rest IH]; [done|]. intros [|it' q] m [Ei Hrest]%Forall_cons Hap; [done|].
  destruct (m !! pi_Field it) as [el|] eqn:El; [|by cbn; rewrite El].
  destruct (decide (rest = [])) as [->|Hne].
  { cbn. rewrite El, Ei. destruct Hap as [Hf|[(?&?&?&?)|[_ []]]]; [|congruence]. simpl.
    by rewrite lookup_delete_ne. }
  destruct el as [m0|l|d i|]; try (destruct rest; [done|]; cbn; by rewrite El, Ei).
  destruct (Remove_below it rest m m0 Ei Hne El) as (m1 & Hcase).
  rewrite !Field_cons. destruct Hap as [Hf|[(?&?&?&?)|[<- Hap]]]; [|congruence|].
  - destruct Hcase as [(_ & _ & ->)|(_ & _ & ->)]; unfold NavigableMap2_Field;
      [by rewrite lookup_insert_ne|by rewrite lookup_delete_ne].
  - specialize (IH q m0 Hrest Hap). destruct (apart_nonempty rest q Hap) as [_ Hq].
    destruct Hcase as [(E1 & _ & ->)|(E1 & _ & ->)]; rewrite E1 in IH; unfold NavigableMap2_Field.
    + rewrite lookup_insert_eq, El, Ei. by destruct q.
    + rewrite lookup_delete_eq, El, Ei. rewrite Field_empty_map in IH by done. by destruct q.
Qed.

(** ** Whether a value was added *)

Lemma slice_Set_added rest val l it b nm' path' :
  (rest ≠ [] → ∀ nm b nm' rest', NM_Set rest val nm = (Ok b, (nm', rest')) →
     b = negb (is_ok (NM_Field rest nm))) →
  NMSlice_Set (NM_Set rest val) l (it :: rest) val = (Ok b, (nm', path')) →
  b = negb (is_ok (NMSlice_Field (NM_Field rest) l (it :: rest))).
Proof.
  intros IH. destruct it as [f [idx|]]; [|done]. rewrite slice_Field_spec.
  destruct (decide (idx = Z.of_nat (length l))) as [->|Hne].
  - rewrite position_nonneg, decide_False by lia. unfold NMSlice_Set. cbn [pi_Index].
    rewrite Z.eqb_refl. repeat case_match; by intros [= <- _ _].
  - rewrite slice_Set_existing by done.
    destruct (position (length l) idx) as [k|] eqn:Ek; [|done]. cbv zeta. simpl.
    destruct rest as [|it2 rest2] eqn:Er; [|rewrite <- Er in *].
    + destruct (lookup_lt_is_Some_2 l k) as [el ->]; [by eapply position_lt|]. by intros [= <- _ _].
    + specialize (IH ltac:(by subst)). destruct (l !! k) as [[m|l2|d i|]|]; try done.
      * specialize (IH (NMMap m)). destruct (NM_Set rest val (NMMap m)) as [r [nel rest']].
        rewrite Er, <- Er. intros [= -> <- <-]. rewrite (IH _ _ _ eq_refl). by rewrite Er.
      * by rewrite Er.
Qed.

Lemma Set_added path val : ∀ nm b nm' path', path ≠ [] →
  NM_Set path val nm = (Ok b, (nm', path')) → b = negb (is_ok (NM_Field path nm)).
Proof.
  induction path as [|it rest IH]; [done|]. intros nm b nm' path' _.
  rewrite Set_cons, Field_cons. destruct nm as [m|l|d i|]; [| |done|done].
  2:{ apply slice_Set_added. eauto. }
  unfold NavigableMap2_Set, NavigableMap2_Field. destruct (pi_Index it) as [idx|] eqn:Ei.
  - destruct (m !! pi_Field it) as [[|l| |]|]; try done.
    + destruct (NMSlice_Set _ _ _ _) as [r [nmItm p]] eqn:E. intros [= -> <- <-].
      rewrite (slice_Set_added rest val l it b nmItm p) by eauto. by destruct rest.
    + destruct (NMSlice_Set _ _ _ _) as [[r|e|] [nmItm p]]; try done. by intros [= <- _ _].
  - destruct rest as [|it2 rest2] eqn:Er.
    + intros [= <- _ _]. by destruct (m !! pi_Field it).
    + rewrite <- Er in *. assert (rest ≠ []) as Hne by (by subst).
      destruct (m !! pi_Field it) as [[m0| | |]|] eqn:El; simpl; try (by rewrite Er).
      * destruct (NM_Set rest val (NMMap m0)) as [r [nmItm rest']] eqn:E.
        rewrite Er, <- Er. intros [= -> <- <-]. by eapply IH.
      * destruct (NM_Set rest val (NMMap ∅)) as [r [nmItm rest']] eqn:E.
        intros [= -> <- <-].
        rewrite (IH _ _ _ _ Hne E). by rewrite Field_empty_map.
Qed.

(** ** Paths as text *)

(** A field whose text can be read back. *)
Definition named_item (it : PathItem) : Prop :=
  has_char "." (pi_Field it) = false ∧ has_char "[" (pi_Field it) = false ∧
  ∀ idx, pi_Index it = Some idx → int64_range idx.

Lemma GetPathIndex_String it : named_item it →
  GetPathIndex (PathItem_String it) = Ok (pi_Field it, pi_Index it).
Proof.
  destruct it as [f [idx|]]; intros (_ & Hf & Hi); simpl in *; unfold GetPathIndex, PathItem_String;
    cbn [pi_Index pi_Field].
  - specialize (Hi idx eq_refl). set (x := Itoa idx).
    change ("[" +:+ (x +:+ "]")) with (String "[" (x +:+ "]")). rewrite Index_at by done.
    assert ((slen f =? -1) = false) as -> by (unfold slen; lia).
    assert (HasSuffix (f +:+ String "[" (x +:+ "]")) "]" = true) as ->.
    { change (String "[" (x +:+ "]")) with ("[" +:+ (x +:+ "]")). rewrite !sapp_assoc.
      unfold HasSuffix. rewrite slength_app. simpl. rewrite Nat.add_sub, sdrop_app.
      rewrite String.eqb_refl. by destruct (String.length _ + 1)%nat eqn:E; [lia|]. }
    cbn [orb negb]. pose proof (slice_middle (f +:+ "[") x "]") as Hm.
    rewrite !slen_app in Hm.
    replace (slen (f +:+ String "[" (x +:+ "]")) - 1) with (slen f + slen "[" + slen x)
      by (rewrite slen_app; change (String "[" (x +:+ "]")) with ("[" +:+ (x +:+ "]"));
          rewrite !slen_app; change (slen "]") with 1; lia).
    replace (f +:+ String "[" (x +:+ "]")) with ((f +:+ "[") +:+ (x +:+ "]")) at 1
      by (by rewrite <- sapp_assoc). change (slen "[") with 1 in *. rewrite Hm. simpl.
    rewrite slice_before. simpl. unfold x. by rewrite Atoi_Itoa.
  - by rewrite Index_single_none, Hf.
Qed.

Lemma PathItems_String_Join path : path ≠ [] →
  PathItems_String path = Ok (Join (PathItem_String <$> path) ".").
Proof.
  intros Hne. unfold PathItems_String.
  assert (∀ s, foldl (λ out v, out +:+ ("." +:+ PathItem_String v)) s path =
    s +:+ ("." +:+ Join (PathItem_String <$> path) ".")) as ->.
  { induction path as [|it path IH]; [done|]. intros s. cbn [foldl fmap list_fmap].
    destruct path as [|it2 path].
    - by rewrite Join_single.
    - rewrite IH by done. rewrite Join_cons by done. by rewrite !sapp_assoc. }
  simpl. set (x := Join _ _). unfold slice. change (String "." x) with ("." +:+ x).
  rewrite slen_app. change (slen ".") with 1. rewrite decide_True by (unfold slen; lia).
  f_equal. replace (1 + slen x - 1) with (slen x) by lia. unfold slen. rewrite Nat2Z.id.
  change (Z.to_nat 1) with 1%nat. simpl. rewrite substring_stake. by apply stake_all.
Qed.

Lemma PathItem_String_dot it : named_item it → has_char "." (PathItem_String it) = false.
Proof.
  intros (Hf & _ & _). destruct it as [f [idx|]]; unfold PathItem_String; simpl in *; [|done].
  by rewrite has_char_app, Hf; simpl; rewrite has_char_app, Itoa_has_char.
Qed.

Lemma path_text_back path s : path ≠ [] → Forall named_item path →
  PathItems_String path = Ok s → NewPathItems (Split s ".") = Ok path.
Proof.
  intros Hne Hp. rewrite PathItems_String_Join by done. intros [= <-].
  rewrite (Split_Join "."); [|by destruct path|].
  2:{ apply Forall_fmap. eapply Forall_impl; [exact Hp|]. apply PathItem_String_dot. }
  unfold NewPathItems. clear Hne. induction Hp as [|it path Hit Hp IH]; [done|].
  rewrite fmap_cons. cbn [res_map]. rewrite GetPathIndex_String by done. cbn.
  cbn in IH. rewrite IH. by destruct it.
Qed.

(** ** Properties *)

(** C39: what [Set] stores in a map is what [Field] reads at the path, also at the path
    with the indexes [Set] has made positive; it says that it added something when there
    was nothing at the path before; and whether it succeeds or fails, every path that
    parts from the one set reads as before. *)
Theorem Set_then_Field (m : gmap string NM) (path : PathItems) (val : NM) :
  (∀ added nm' path', NM_Set path val (NMMap m) = (Ok added, (nm', path')) →
     NM_Field path nm' = Ok val ∧ NM_Field path' nm' = Ok val ∧
     added = negb (is_ok (NM_Field path (NMMap m)))) ∧
  (∀ q, apart path q → NM_Field q (NM_Set path val (NMMap m)).2.1 = NM_Field q (NMMap m)).
Proof.
  split; [|intros q Hq; by apply Set_frame]. intros added nm' path' E.
  assert (path ≠ []) as Hne by (intros ->; discriminate E).
  destruct (Set_leads path val _ _ _ _ Hne E) as (_ & H1 & H2).
  split_and!; [done..|]. by apply (Set_added path val (NMMap m) added nm' path').
Qed.

Definition one_item (f : string) (idx : option Z) : PathItems := [mkPathItem f idx].
Definition data_of (s : string) : NM := NMData PlainData (VIface (IString s)).

Lemma Set_then_Field_witness :
  let m : gmap string NM := {["Usages" := NMSlice [data_of "1"; data_of "2"]]} in
  let '(r, (nm', path')) := NM_Set (one_item "Usages" (Some (-1))) (data_of "3") (NMMap m) in
  r = Ok false ∧ path' = one_item "Usages" (Some 1) ∧
  NM_Field (one_item "Usages" (Some (-1))) nm' = Ok (data_of "3") ∧
  NM_Field (one_item "Usages" (Some 0)) nm' = NM_Field (one_item "Usages" (Some 0)) (NMMap m).
Proof.
  intros m. destruct (NM_Set (one_item "Usages" (Some (-1))) (data_of "3") (NMMap m))
    as [r [nm' path']] eqn:E.
  destruct (Set_then_Field m (one_item "Usages" (Some (-1))) (data_of "3")) as [Hset _].
  assert (r = Ok false) as -> by (vm_compute in E; by injection E).
  destruct (Hset _ _ _ E) as (H1 & _ & _). split; [done|].
  split; [by vm_compute in E; injection E as <- <-|]. split; [exact H1|].
  by vm_compute in E; injection E as <- <-.
Defined.

(** After a path without indexes was removed from a map, nothing is found at it, and
    whether [Remove] succeeds or fails, every path that parts from it reads as before. *)
Theorem Remove_then_Field (m : gmap string NM) (path : PathItems) (Hu : unindexed path) :
  (∀ u nm' path', NM_Remove path (NMMap m) = (Ok u, (nm', path')) →
     NM_Field path nm' = Err NOT_FOUND) ∧
  (∀ q, apart path q → NM_Field q (NM_Remove path (NMMap m)).2.1 = NM_Field q (NMMap m)).
Proof.
  split; [|intros q Hq; by apply Remove_frame]. intros u nm' path' E.
  apply (Remove_read path m u nm' path'); [|done..]. intros ->. discriminate E.
Qed.

Lemma Remove_then_Field_witness :
  let p := one_item "req" None ++ one_item "Account" None in
  let m : gmap string NM := {["req" := NMMap {["Account" := data_of "1001"]}]} in
  NM_Remove p (NMMap m) = (Ok tt, (NMMap ∅, p)) ∧ NM_Field p (NMMap ∅) = Err NOT_FOUND.
Proof.
  intros p m. assert (NM_Remove p (NMMap m) = (Ok tt, (NMMap ∅, p))) as E by reflexivity.
  split; [exact E|].
  destruct (Remove_then_Field m p ltac:(repeat constructor)) as [Hr _]. exact (Hr _ _ _ E).
Defined.

(** A call of [Set] that fails below a new item leaves an empty map behind. *)
Example failed_Set_leaves_a_map :
  let p := one_item "req" None ++ one_item "Usages" (Some 3) in
  NM_Set p (data_of "1") (NMMap ∅) =
    (Err ErrWrongPath, (NMMap {["req" := NMMap ∅]}, p)).
Proof. reflexivity. Qed.

(** Text and items of a path. *)
Example path_of_text :
  NewPathItems ["req"; "Usages[-2]"] =
    Ok [mkPathItem "req" None; mkPathItem "Usages" (Some (-2))] ∧
  PathItems_String [mkPathItem "req" None; mkPathItem "Usages" (Some (-2))] =
    Ok "req.Usages[-2]" ∧
  stripIdxFromLastPathElm "req.Usages[-2]" = Ok "req.Usages" ∧
  stripIdxFromLastPathElm "req[0].Usages" = Ok "req[0].Usages" ∧
  GetPathWithoutIndex "a[b][0]" = Ok "a[b]".
Proof. by vm_compute. Qed.
