(* ===== verification/OrderedMaps.v ===== *)
(** * Ordered navigable maps

    [utils/orderednavigablemap.go]: a navigable map next to the list of the paths that
    were set, in the order of their last setting, and the elements of that list by the
    text of the path.  The list is the one of [PathItemList], with its heap. *)
From S2P Require Import Prelude GoStrings CoreUtils Collections Values Stateful PathItemList NavigableMaps.

Record OrderedNavigableMap := mkONM {
  onm_nm : NM; onm_orderIdx : nat; onm_orderRef : gmap string (list ptr);
  onm_heap : store }.

Definition with_nm (nm : NM) (onm : OrderedNavigableMap) : OrderedNavigableMap :=
  mkONM nm (onm_orderIdx onm) (onm_orderRef onm) (onm_heap onm).
Definition with_ref (f : gmap string (list ptr) → gmap string (list ptr))
    (onm : OrderedNavigableMap) : OrderedNavigableMap :=
  mkONM (onm_nm onm) (onm_orderIdx onm) (f (onm_orderRef onm)) (onm_heap onm).
Definition with_heap (h : store) (onm : OrderedNavigableMap) : OrderedNavigableMap :=
  mkONM (onm_nm onm) (onm_orderIdx onm) (onm_orderRef onm) h.

(** A call of a method of the list. *)
Definition on_list {A} (f : nat → store → res (A * store)) : SM OrderedNavigableMap A := λ onm,
  match f (onm_orderIdx onm) (onm_heap onm) with
  | Ok (a, h) => (Ok a, with_heap h onm)
  | Err e => (Err e, onm)
  | Panic => (Panic, onm)
  end.

Definition NewOrderedNavigableMap : res OrderedNavigableMap :=
  h ← NewPathItemList 0 (mkStore ∅ ∅ 0); Ok (mkONM (NMMap ∅) 0 ∅ h).
Definition onm_RemoveAll (onm : OrderedNavigableMap) : res OrderedNavigableMap :=
  let l := S (onm_orderIdx onm) in
  h ← NewPathItemList l (onm_heap onm); Ok (mkONM (NMMap ∅) l ∅ h).

Definition onm_GetFirstElement (onm : OrderedNavigableMap) : res (option ptr) :=
  PathItemList_Front (onm_orderIdx onm) (onm_heap onm).
Definition onm_Field (onm : OrderedNavigableMap) (fldPath : PathItems) : res NM :=
  NM_Field fldPath (onm_nm onm).
Definition onm_Empty (onm : OrderedNavigableMap) : res bool := NM_Empty (onm_nm onm).
Definition onm_Len (onm : OrderedNavigableMap) : res Z := NM_Len (onm_nm onm).
Definition onm_FieldAsInterface (onm : OrderedNavigableMap) (fldPath : list string)
    : res NMValue :=
  path ← NewPathItems fldPath;
  v ← NM_Field path (onm_nm onm);
  NM_Interface v.

(** [for el := first; el != nil; el = el.Next()]; a list has at most as many elements as
    were allocated. *)
Fixpoint order_from (fuel : nat) (h : store) (el : option ptr) : res (list PathItems) :=
  match fuel, el with
  | _, None => Ok []
  | O, Some _ => Panic
  | S fuel, Some p =>
      e ← load p h;
      next ← PathItemElement_Next p h;
      rest ← order_from fuel h next;
      Ok (n_Value e :: rest)
  end.
Definition onm_GetOrder (onm : OrderedNavigableMap) : res (list PathItems) :=
  el ← onm_GetFirstElement onm;
  order_from (S (st_fresh (onm_heap onm))) (onm_heap onm) el.

Section ordered_maps.
Context `{GoRuntime}.

(** The loop over the references that begin with [path]. *)
Definition drop_refs (path : string) : SM OrderedNavigableMap () :=
  refs ← gets onm_orderRef;
  visit (λ _ '(idxPath, slcIdx),
    if negb (HasPrefix idxPath path) then mret tt
    else
      _ ← visit (λ _ el, _ ← on_list (λ l, PathItemList_Remove l el); mret tt) tt slcIdx;
      modify (with_ref (delete idxPath))) tt (go_range refs).

Definition last_item (path : PathItems) : res PathItem :=
  index path (Z.of_nat (length path) - 1).

Definition onm_Remove (fullPath : FullPath) : SM OrderedNavigableMap () :=
  path ← lift (stripIdxFromLastPathElm (fp_Path fullPath));
  wrong ← lift (if bool_decide (path = "") then Ok true
                else it ← last_item (fp_PathItems fullPath);
                     Ok (bool_decide (is_Some (pi_Index it))));
  if (wrong : bool) then fails ErrWrongPath
  else
    _ ← (λ onm, let '(r, (nm, _)) := NM_Remove (fp_PathItems fullPath) (onm_nm onm) in
                (r, with_nm nm onm));
    drop_refs path.

(** The paths of the elements of a slice that was set without an index. *)
Definition inflate (path : PathItems) (len : nat) : list PathItems :=
  (λ i : nat, match last path with
              | Some it => removelast path ++ [with_index it (Z.of_nat i)]
              | None => []
              end) <$> seq 0 len.

(** [nm.Set] changes the indexes in the array of [fullPath.PathItems], which is the value
    of the new element of the order as well. *)
Definition onm_Set (fullPath : option FullPath) (val : NM) : SM OrderedNavigableMap bool :=
  match fullPath with
  | None => fails ErrWrongPath
  | Some (mkFullPath [] _) => fails ErrWrongPath
  | Some (mkFullPath pathItems text) =>
      '(addedNew, pathItems) ← (λ onm,
        let '(r, (nm, pathItems)) := NM_Set pathItems val (onm_nm onm) in
        ((λ b, (b, pathItems)) <$> r, with_nm nm onm));
      ty ← lift (NM_Type val);
      it ← lift (last_item pathItems);
      let nonIndexedSlcPath :=
        bool_decide (ty = NMSliceType) && bool_decide (pi_Index it = None) in
      let pathItmsSet :=
        match val with
        | NMSlice l => if nonIndexedSlcPath then inflate pathItems (length l) else [pathItems]
        | _ => [pathItems]
        end in
      path ← lift (stripIdxFromLastPathElm text);
      _ ← (if negb addedNew && nonIndexedSlcPath then drop_refs path else mret tt);
      ref ← gets (λ onm, onm_orderRef onm !! path);
      let hasRef := bool_decide (is_Some ref) in
      _ ← visit (λ _ pathItms,
        if addedNew || negb hasRef then
          el ← on_list (λ l, PushBack l pathItms);
          modify (with_ref (λ m, <[path := default [] (m !! path) ++ [el]]> m))
        else
          els ← gets (λ onm, default [] (onm_orderRef onm !! path));
          el ← lift (index els (Z.of_nat (length els) - 1));
          on_list (λ l h, h ← MoveToBack l el h; Ok (tt, h))) tt pathItmsSet;
      mret addedNew
  end.
End ordered_maps.

(** ** Paths that can be set *)

(** No item on the way to the end of the path is anything but a map. *)
Fixpoint clear (q : PathItems) (nm : NM) : Prop :=
  match q with
  | [] => True
  | it :: rest => ∃ m, nm = NMMap m ∧
      (rest = [] ∨ match m !! pi_Field it with Some el => clear rest el | None => True end)
  end.

Lemma clear_empty q : clear q (NMMap ∅).
Proof. destruct q as [|it q]; [done|]. exists ∅. split; [done|]. right. by rewrite lookup_empty. Qed.

Lemma clear_below it rest nm : clear (it :: rest) nm → rest ≠ [] →
  ∃ m m0, nm = NMMap m ∧ default (NMMap ∅) (m !! pi_Field it) = NMMap m0 ∧ clear rest (NMMap m0).
Proof.
  intros (m & -> & [?|Hr]) Hne; [done|]. exists m. destruct (m !! pi_Field it) as [el|].
  - destruct rest as [|it2 rest]; [done|]. simpl in *. destruct Hr as (m0 & -> & Hr). eauto 7.
  - exists ∅. split_and!; [done..|apply clear_empty].
Qed.

Lemma clear_Set q val : ∀ nm, q ≠ [] → unindexed q → clear q nm →
  ∃ b nm', NM_Set q val nm = (Ok b, (nm', q)).
Proof.
  induction q as [|it rest IH]; [done|]. intros nm _ [Ei Hu]%Forall_cons Hc.
  rewrite Set_cons. destruct (decide (rest = [])) as [->|Hne].
  - destruct Hc as (m & -> & _). unfold NavigableMap2_Set. rewrite Ei. by do 2 eexists.
  - destruct (clear_below _ _ _ Hc Hne) as (m & m0 & -> & E & Hc0).
    unfold NavigableMap2_Set. rewrite Ei, E.
    destruct (IH _ Hne Hu Hc0) as (b & nm' & ->). destruct rest; [done|]. eauto.
Qed.

Lemma Set_clear p val : ∀ q nm, unindexed p → p = q ∨ apart p q → clear q nm →
  clear q (NM_Set p val nm).2.1.
Proof.
  induction p as [|it rest IH]; intros [|it' q] nm Hu Hpq Hc; [done|by destruct Hpq|done|].
  apply Forall_cons in Hu as [Ei Hu]. rewrite Set_cons.
  pose proof Hc as (m & -> & _). unfold NavigableMap2_Set. rewrite Ei.
  assert (∀ el, pi_Field it ≠ pi_Field it' →
    clear (it' :: q) (NMMap (<[pi_Field it := el]> m))) as Hother.
  { intros el Hne. destruct Hc as (m' & [= <-] & Hc). eexists. split; [done|].
    by rewrite lookup_insert_ne. }
  assert (rest ≠ [] → q ≠ [] → pi_Field it = pi_Field it' → rest = q ∨ apart rest q →
    ∀ m0, default (NMMap ∅) (m !! pi_Field it) = NMMap m0 → clear (it' :: q)
      (NMMap (<[pi_Field it := (NM_Set rest val (NMMap m0)).2.1]> m))) as Hsame.
  { intros Hr Hq Ef Hrq m0 E. destruct (clear_below _ _ _ Hc Hq) as (m' & m1 & [= <-] & E1 & Hc1).
    rewrite <- Ef, E in E1. injection E1 as ->. eexists. split; [done|]. right.
    rewrite <- Ef, lookup_insert_eq. by apply IH. }
  assert (pi_Field it ≠ pi_Field it' ∨ pi_Field it = pi_Field it' ∧ (rest = q ∨ apart rest q))
    as Hcase.
  { destruct Hpq as [[= -> ->]|[?|[(?&?&?&?)|[-> ?]]]]; [auto| |congruence|]; auto. }
  destruct rest as [|it2 rest2] eqn:Er; [|rewrite <- Er in *].
  - cbn [fst snd]. destruct Hcase as [?|[Ef [<-|[]]]]; [by auto|]. eexists. split; [done|]. by left.
  - destruct (default (NMMap ∅) (m !! pi_Field it)) as [m0| | |]; try done.
    destruct Hcase as [?|[Ef Hrq]].
    + destruct (NM_Set rest val (NMMap m0)) as [r [nmItm rest']]. by apply Hother.
    + specialize (Hsame ltac:(by subst)). ospecialize (Hsame _ Ef Hrq m0 eq_refl).
      { destruct Hrq as [<-|Hap]; [by subst|by apply (apart_nonempty rest q)]. }
      destruct (NM_Set rest val (NMMap m0)) as [r [nmItm rest']]. exact Hsame.
Qed.

(** ** The order of the paths *)

(** A path of named fields without indexes, and its text. *)
Definition regular (p : PathItems) : Prop := p ≠ [] ∧ unindexed p ∧ Forall named_item p.
Definition path_text (p : PathItems) : string := Join (PathItem_String <$> p) ".".
Definition full_path (p : PathItems) : FullPath := mkFullPath p (path_text p).

Lemma path_text_inj p q : regular p → regular q → path_text p = path_text q → p = q.
Proof.
  intros (Hp & _ & Np) (Hq & _ & Nq) E.
  pose proof (path_text_back p _ Hp Np (PathItems_String_Join p Hp)) as Ep.
  pose proof (path_text_back q _ Hq Nq (PathItems_String_Join q Hq)) as Eq.
  fold (path_text p) in Ep. fold (path_text q) in Eq. rewrite E in Ep. congruence.
Qed.

Lemma LastIndex_go_none c s i : has_char c s = false → LastIndex_go s (String c "") i = -1.
Proof.
  revert i. induction s as [|d s IH]; intros i; simpl; [done|].
  intros [Hd Hs]%orb_false_iff. rewrite IH by done. simpl.
  destruct (ascii_dec c d) as [->|]; [by rewrite Ascii.eqb_refl in Hd|done].
Qed.
Lemma path_text_no_bracket p : regular p → LastIndex (path_text p) "[" = -1.
Proof.
  intros (_ & Hu & Hn).
  apply LastIndex_go_none, has_char_Join; [done|]. apply Forall_fmap.
  unfold unindexed in Hu. rewrite Forall_forall in *. intros it Hit. unfold PathItem_String. simpl.
  rewrite (Hu it Hit). by destruct (Hn it Hit) as (_ & ? & _).
Qed.
Lemma strip_regular p : regular p → stripIdxFromLastPathElm (path_text p) = Ok (path_text p).
Proof. intros Hp. unfold stripIdxFromLastPathElm. by rewrite path_text_no_bracket. Qed.

Record keeps (onm : OrderedNavigableMap) (ks : list (PathItems * nat)) : Prop := {
  k_wf : wf (onm_heap onm);
  k_repr : repr (onm_heap onm) (onm_orderIdx onm) ks.*2;
  k_val p n : (p, n) ∈ ks → val (onm_heap onm) (inr n) = Some p;
  k_ref : onm_orderRef onm = list_to_map ((λ k, (path_text k.1, [inr k.2 : ptr])) <$> ks);
  k_NoDup : NoDup ks.*1;
  k_regular p : p ∈ ks.*1 → regular p;
  k_map : ∃ m, onm_nm onm = NMMap m;
  k_found p : p ∈ ks.*1 → is_ok (NM_Field p (onm_nm onm)) = true }.

(** A path that is set goes to the end. *)
Definition moved (order : list PathItems) (p : PathItems) : list PathItems :=
  filter (λ x, x ≠ p) order ++ [p].

Lemma order_from_ring h l : ∀ fuel ps done,
  repr h l (done ++ ps) → (length ps ≤ fuel)%nat →
  Forall (λ n, is_Some (val h (inr n))) ps →
  order_from fuel h (inr <$> head ps) = Ok (omap (λ n, val h (inr n)) ps).
Proof.
  intros fuel ps. revert fuel. induction ps as [|n ps IH]; intros fuel done Hr Hf Hv; [by destruct fuel|].
  destruct fuel as [|fuel]; [simpl in Hf; lia|].
  apply Forall_cons in Hv as [[v Ev] Hv]. simpl.
  destruct (own_load h n l) as (e & El & _ & _ & _ & Eval);
    [apply (repr_own _ _ _ Hr); set_solver|]. rewrite El. simpl.
  destruct (Next_ring h l done n ps Hr) as [-> _]. simpl.
  rewrite (IH fuel (done ++ [n])); [|by rewrite <- app_assoc|simpl in Hf; lia|done].
  simpl. by rewrite Eval.
Qed.

Lemma repr_allocated h l ps : wf h → repr h l ps → (length ps ≤ st_fresh h)%nat.
Proof.
  intros Hwf Hr. replace (st_fresh h) with (length (seq 0 (st_fresh h))) by apply length_seq.
  apply submseteq_length, NoDup_submseteq; [by apply (repr_NoDup _ _ _ Hr)|].
  intros n Hn. apply (repr_own _ _ _ Hr), own_alloc in Hn as [e He]. apply elem_of_seq.
  split; [lia|]. destruct (decide (n < st_fresh h)%nat); [lia|].
  rewrite Hwf in He by lia. done.
Qed.

Lemma keeps_order onm ks : keeps onm ks → onm_GetOrder onm = Ok ks.*1.
Proof.
  intros Hk. unfold onm_GetOrder, onm_GetFirstElement.
  destruct (Front_ring _ _ _ (k_repr _ _ Hk)) as (_ & -> & _). cbn [mbind res_bind].
  rewrite (order_from_ring _ (onm_orderIdx onm) _ _ []); [|by apply Hk| |].
  - f_equal. assert (∀ k, k ∈ ks → val (onm_heap onm) (inr k.2) = Some k.1) as Hv
      by (intros [p n]; apply Hk). clear Hk.
    induction ks as [|k ks IH]; [done|]. cbn. rewrite Hv by left. f_equal. apply IH.
    intros. apply Hv. by right.
  - pose proof (repr_allocated _ _ _ (k_wf _ _ Hk) (k_repr _ _ Hk)). lia.
  - apply Forall_fmap, Forall_forall. intros [p n] Hpn. exists p. by apply Hk.
Qed.

Section set_plain.
Context `{GoRuntime}.
Context (q : PathItems) (val : NM) (onm : OrderedNavigableMap) (b : bool) (nm' : NM).
Context (Hq : regular q) (Hset : NM_Set q val (onm_nm onm) = (Ok b, (nm', q))).
Context (ty : NMType) (Hty : NM_Type val = Ok ty) (Hns : ty ≠ NMSliceType).

(** Setting a value that is not a slice: what is left after the map was changed. *)
Lemma onm_Set_plain :
  onm_Set (Some (full_path q)) val onm =
  (ref ← gets (λ onm, onm_orderRef onm !! path_text q);
   _ ← (if b || negb (bool_decide (is_Some ref)) then
          el ← on_list (λ l, PushBack l q);
          modify (with_ref (λ m, <[path_text q := default [] (m !! path_text q) ++ [el]]> m))
        else
          els ← gets (λ onm, default [] (onm_orderRef onm !! path_text q));
          el ← lift (index els (Z.of_nat (length els) - 1));
          on_list (λ l h, h ← MoveToBack l el h; Ok (tt, h)));
   mret b) (with_nm nm' onm).
Proof.
  destruct Hq as (Hne & Hu & _). unfold full_path, onm_Set.
  destruct q as [|it rest] eqn:Eq; [done|rewrite <- Eq in *].
  assert (∃ it, last_item q = Ok it) as [itl Hl].
  { unfold last_item, index. rewrite Eq. rewrite decide_True by (simpl; lia).
    destruct (lookup_lt_is_Some_2 (it :: rest) (Z.to_nat (Z.of_nat (length (it :: rest)) - 1)))
      as [x ->]; [simpl; lia|]. by eexists. }
  erewrite run; [|by rewrite Hset]. cbv beta iota.
  erewrite run; [|by rewrite Hty]. erewrite run; [|by rewrite Hl].
  assert (match val with
    | NMSlice l => if bool_decide (ty = NMSliceType) && bool_decide (pi_Index itl = None)
                   then inflate q (length l) else [q]
    | _ => [q] end = [q]) as -> by (destruct val; simpl in Hty; simplify_eq; done).
  rewrite (bool_decide_false (ty = NMSliceType)) by done. rewrite andb_false_r.
  erewrite run; [|by rewrite strip_regular by done].
  erewrite (run (mret tt)); [|done]. cbv zeta. simpl.
  do 2 (erewrite (run (gets _)); [|done]). cbv beta.
  match goal with |- ((?m ≫= _) ≫= _) ?st = _ => set (step := m); set (st0 := st) end.
  unfold mbind, SM_bind. by destruct (step st0) as [[[]|e|] st1].
Qed.

Context (ks : list (PathItems * nat)) (Hk : keeps onm ks).
Context (Hap : ∀ p, p ∈ ks.*1 → p = q ∨ apart q p).

Lemma found_after p : p = q ∨ p ∈ ks.*1 → is_ok (NM_Field p nm') = true.
Proof.
  intros Hp. destruct (k_map _ _ Hk) as [m Em].
  assert (p = q ∨ p ∈ ks.*1 ∧ apart q p) as [->|[Hin Hpq]] by naive_solver.
  - destruct (Set_leads q val _ _ _ _ (proj1 Hq) Hset) as (_ & -> & _). done.
  - pose proof (Set_frame q val p (onm_nm onm)) as Hf. rewrite Hset in Hf. simpl in Hf.
    rewrite Hf; [by apply Hk|by rewrite Em|done].
Qed.
Lemma map_after : ∃ m, nm' = NMMap m.
Proof.
  destruct (k_map _ _ Hk) as [m Em]. destruct (Set_stays_map q val m) as [m' Em'].
  rewrite <- Em, Hset in Em'. by exists m'.
Qed.

Lemma texts_NoDup l : (∀ p, p ∈ l → regular p) → NoDup l → NoDup (path_text <$> l).
Proof.
  intros Hr Hnd. apply NoDup_fmap_2_strong; [|done]. intros x y Hx Hy. apply path_text_inj; auto.
Qed.
Definition ref_of (k : PathItems * nat) : string * list ptr := (path_text k.1, [inr k.2]).
Lemma ref_texts l : (ref_of <$> l).*1 = path_text <$> l.*1.
Proof. by rewrite <- !list_fmap_compose. Qed.

Lemma set_new : q ∉ ks.*1 → Z.of_nat (length ks) < max_int64 →
  ∃ onm' n, onm_Set (Some (full_path q)) val onm = (Ok b, onm') ∧
    keeps onm' (ks ++ [(q, n)]) ∧ onm_nm onm' = nm'.
Proof.
  intros Hnew Hlen. rewrite onm_Set_plain.
  assert (onm_orderRef onm !! path_text q = None) as Href.
  { rewrite (k_ref _ _ Hk). change ((list_to_map (ref_of <$> ks) : gmap string (list ptr)) !! path_text q = @None (list ptr)).
    apply not_elem_of_list_to_map. rewrite ref_texts. intros (p & E & Hp)%list_elem_of_fmap.
    apply path_text_inj in E; [|done|by apply Hk]. by subst. }
  destruct (PushBack_added (onm_heap onm) (onm_orderIdx onm) ks.*2 q)
    as (n & h' & E & Hr & Hv & Hfresh & Hp); [apply Hk|left; apply Hk|by rewrite length_fmap|].
  exists (mkONM nm' (onm_orderIdx onm) (<[path_text q := [inr n]]> (onm_orderRef onm)) h'), n.
  split_and!; [| |done].
  - erewrite run; [|done]. simpl. rewrite Href, bool_decide_false by (by intros []).
    rewrite orb_true_r. unfold mbind, SM_bind, on_list. simpl. rewrite E. simpl.
    unfold with_ref, with_heap. simpl. by rewrite Href.
  - split; simpl.
    + apply Hp.
    + by rewrite fmap_app.
    + intros p k [Hin|Heq%list_elem_of_singleton]%elem_of_app; [|by injection Heq as -> ->].
      by apply (pres_val _ _ _ Hp), Hk.
    + rewrite (k_ref _ _ Hk), fmap_app, list_to_map_app. simpl.
      rewrite <- insert_union_r, (right_id_L ∅ (∪)); [done|].
      by rewrite <- (k_ref _ _ Hk).
    + rewrite fmap_app. apply NoDup_app. split_and!; [apply Hk| |apply NoDup_singleton].
      intros p Hin ->%list_elem_of_singleton. done.
    + intros p. rewrite fmap_app. intros [Hin| ->%list_elem_of_singleton]%elem_of_app;
        [by apply Hk|done].
    + apply map_after.
    + intros p. rewrite fmap_app. intros [Hin| ->%list_elem_of_singleton]%elem_of_app;
        apply found_after; auto.
Qed.

Lemma set_again xs ys n : ks = xs ++ (q, n) :: ys → ∃ onm',
  onm_Set (Some (full_path q)) val onm = (Ok b, onm') ∧
  keeps onm' ((xs ++ ys) ++ [(q, n)]) ∧ onm_nm onm' = nm'.
Proof.
  intros Eks. rewrite onm_Set_plain.
  assert (Permutation ks ((xs ++ ys) ++ [(q, n)])) as Hperm.
  { subst ks. rewrite <- Permutation_middle. by rewrite <- Permutation_cons_append. }
  assert (NoDup (ref_of <$> ks).*1) as Hndr
    by (rewrite ref_texts; apply texts_NoDup; apply Hk).
  assert (onm_orderRef onm !! path_text q = Some [inr n]) as Href.
  { rewrite (k_ref _ _ Hk). change ((list_to_map (ref_of <$> ks) : gmap string (list ptr)) !! path_text q = Some [inr n : ptr]).
    apply elem_of_list_to_map_1; [done|]. apply list_elem_of_fmap. exists (q, n).
    split; [done|]. subst ks. set_solver. }
  assert (b = false) as Hb.
  { rewrite (Set_added q val (onm_nm onm) b nm' q) by (done || apply Hq).
    rewrite (k_found _ _ Hk); [done|]. subst ks. rewrite fmap_app. set_solver. }
  destruct (MoveToBack_moved (onm_heap onm) (onm_orderIdx onm) ks.*2 n)
    as (h' & E & Hr & Hp); [apply Hk..| |].
  { subst ks. rewrite fmap_app. set_solver. }
  exists (mkONM nm' (onm_orderIdx onm) (onm_orderRef onm) h'). split_and!; [| |done].
  - erewrite run; [|done]. simpl. rewrite Href, bool_decide_true, Hb by (by eexists). simpl.
    unfold mbind, SM_bind, on_list, gets, lift. simpl. rewrite Href. simpl. by rewrite E.
  - assert (∀ p, p ∈ ((xs ++ ys) ++ [(q, n)]).*1 ↔ p ∈ ks.*1) as Hmem
      by (intros p; by rewrite Hperm).
    split; simpl.
    + apply Hp.
    + pose proof (repr_NoDup _ _ _ (k_repr _ _ Hk)) as Hnd2. subst ks.
      rewrite !fmap_app, fmap_cons in *. simpl in *. rewrite without_split in Hr; [done|].
      rewrite <- Permutation_middle in Hnd2. apply NoDup_cons in Hnd2 as [? _]. done.
    + intros p k Hin. apply (pres_val _ _ _ Hp), Hk. by rewrite Hperm.
    + rewrite (k_ref _ _ Hk). apply list_to_map_proper; [done|]. by apply fmap_Permutation.
    + rewrite <- Hperm. apply Hk.
    + intros p Hin. apply Hk. by apply Hmem.
    + apply map_after.
    + intros p Hin. apply found_after. right. by apply Hmem.
Qed.
End set_plain.

Lemma moved_new order q : q ∉ order → moved order q = order ++ [q].
Proof. intros Hq. unfold moved. f_equal. apply filter_all, Forall_forall. by intros x Hx ->. Qed.
Lemma moved_again xs q ys : q ∉ xs ++ ys → moved (xs ++ q :: ys) q = (xs ++ ys) ++ [q].
Proof.
  intros Hq. unfold moved. f_equal. rewrite filter_app, filter_cons_False by naive_solver.
  rewrite <- filter_app. apply filter_all, Forall_forall. by intros x Hx ->.
Qed.

Definition a_map_or_data (v : NM) : Prop := ∃ ty, NM_Type v = Ok ty ∧ ty ≠ NMSliceType.

Section histories.
Context `{GoRuntime}.
(** The paths in use: none leads below another. *)
Context (U : list PathItems).
Context (Hreg : ∀ p, p ∈ U → regular p).
Context (Hap : ∀ p q, p ∈ U → q ∈ U → p = q ∨ apart q p).

Definition set_all (sets : list (PathItems * NM)) : SM OrderedNavigableMap () :=
  visit (λ _ '(p, v), _ ← onm_Set (Some (full_path p)) v; mret tt) tt sets.

Lemma set_one onm ks q v : keeps onm ks → (∀ p, p ∈ ks.*1 → p ∈ U) → q ∈ U →
  (∀ p, p ∈ U → clear p (onm_nm onm)) → a_map_or_data v → Z.of_nat (length ks) < max_int64 →
  ∃ b onm' ks', onm_Set (Some (full_path q)) v onm = (Ok b, onm') ∧ keeps onm' ks' ∧
    ks'.*1 = moved ks.*1 q ∧ (∀ p, p ∈ U → clear p (onm_nm onm')) ∧
    NM_Field q (onm_nm onm') = Ok v ∧
    ∀ p, p ∈ U → p ≠ q → NM_Field p (onm_nm onm') = NM_Field p (onm_nm onm).
Proof.
  intros Hk HU Hq Hc (ty & Hty & Hns) Hlen. pose proof (Hreg q Hq) as Hr.
  destruct (clear_Set q v (onm_nm onm)) as (b & nm' & Hset); [apply Hr..|by apply Hc|].
  assert (∀ p, p ∈ ks.*1 → p = q ∨ apart q p) as Hapk by auto.
  assert (∃ onm' ks', onm_Set (Some (full_path q)) v onm = (Ok b, onm') ∧ keeps onm' ks' ∧
    ks'.*1 = moved ks.*1 q ∧ onm_nm onm' = nm') as (onm' & ks' & E & Hk' & Ek & Enm).
  { destruct (decide (q ∈ ks.*1)) as [Hin|Hnew].
    - apply list_elem_of_fmap in Hin as ([q' n] & Eq & Hin). simpl in Eq. subst q'.
      apply list_elem_of_split in Hin as (xs & ys & Eks).
      destruct (set_again q v onm b nm' Hr Hset ty Hty Hns ks Hk Hapk xs ys n Eks)
        as (onm' & E & Hk' & Enm). exists onm', ((xs ++ ys) ++ [(q, n)]). split_and!; try done.
      pose proof (k_NoDup _ _ Hk) as Hnd. subst ks. rewrite !fmap_app, fmap_cons in *.
      simpl in *. rewrite moved_again; [done|].
      rewrite <- Permutation_middle in Hnd. by apply NoDup_cons in Hnd as [? _].
    - destruct (set_new q v onm b nm' Hr Hset ty Hty Hns ks Hk Hapk Hnew Hlen)
        as (onm' & n & E & Hk' & Enm). exists onm', (ks ++ [(q, n)]). split_and!; try done.
      by rewrite moved_new, fmap_app. }
  exists b, onm', ks'. subst nm'. destruct (k_map _ _ Hk) as [m Em].
  split_and!; try done.
  - intros p Hp. pose proof (Set_clear q v p (onm_nm onm)) as Hs. rewrite Hset in Hs. simpl in Hs.
    apply Hs; [apply Hr| |by apply Hc]. destruct (Hap p q) as [->|]; auto.
  - by destruct (Set_leads q v _ _ _ _ (proj1 Hr) Hset) as (_ & ? & _).
  - intros p Hp Hne. pose proof (Set_frame q v p (onm_nm onm)) as Hf. rewrite Hset in Hf.
    apply Hf; [by rewrite Em|]. by destruct (Hap p q Hp Hq).
Qed.

Lemma set_many sets : ∀ onm ks, keeps onm ks →
  (∀ p, p ∈ ks.*1 ++ sets.*1 → p ∈ U) → (∀ p, p ∈ U → clear p (onm_nm onm)) →
  Forall a_map_or_data sets.*2 → Z.of_nat (length ks + length sets) < max_int64 →
  ∃ onm' ks', set_all sets onm = (Ok tt, onm') ∧ keeps onm' ks' ∧
    ks'.*1 = foldl moved ks.*1 sets.*1 ∧
    (∀ p, p ∈ U → p ∉ sets.*1 → NM_Field p (onm_nm onm') = NM_Field p (onm_nm onm)) ∧
    ∀ xs p v ys, sets = xs ++ (p, v) :: ys → p ∉ ys.*1 → NM_Field p (onm_nm onm') = Ok v.
Proof.
  induction sets as [|[q v] sets IH]; intros onm ks Hk HU Hc Hv Hlen.
  { exists onm, ks. split_and!; try done. intros xs p v ys E. by destruct xs. }
  apply Forall_cons in Hv as [Hv0 Hv].
  destruct (set_one onm ks q v) as (b & onm1 & ks1 & E1 & Hk1 & Ek1 & Hc1 & Hq1 & Hf1);
    [set_solver..|simpl in Hlen; lia|].
  assert (length ks1 ≤ S (length ks))%nat as Hl1.
  { rewrite <- (length_fmap fst), Ek1. unfold moved. rewrite length_app. simpl.
    pose proof (length_filter (λ x, x ≠ q) ks.*1). rewrite length_fmap in *. lia. }
  destruct (IH onm1 ks1) as (onm' & ks' & E' & Hk' & Ek' & Hf' & Hl'); try done.
  - rewrite Ek1. intros p [[[_ Hp]%list_elem_of_filter|Hp]%elem_of_app|Hp]%elem_of_app; set_solver.
  - simpl in Hlen. lia.
  - exists onm', ks'. split_and!; [|done|by rewrite Ek', Ek1| |].
    + unfold set_all in *. simpl. erewrite run; [|erewrite run; [|exact E1]; done]. exact E'.
    + intros p Hp [Hne Hns]%not_elem_of_cons. rewrite Hf', Hf1; done.
    + intros [|x xs] p w ys Es Hp; injection Es as Ex Es.
      * intros. subst. rewrite Hf'; [done|set_solver|done].
      * by eapply Hl'.
Qed.
End histories.

Lemma keeps_new : ∃ onm, NewOrderedNavigableMap = Ok onm ∧ keeps onm [] ∧ onm_nm onm = NMMap ∅.
Proof.
  destruct one_list_ok as [Hwf Hr]. unfold one_list in *. unfold NewOrderedNavigableMap.
  destruct (NewPathItemList 0 (mkStore ∅ ∅ 0)) as [h| |] eqn:E; [|discriminate E..].
  eexists. split; [done|]. split; [|done]. split; simpl; try done.
  - by intros p n Hin%elem_of_nil.
  - constructor.
  - by intros p Hin%elem_of_nil.
  - by exists ∅.
  - by intros p Hin%elem_of_nil.
Qed.

(** C40: any sequence of fields, set by paths without indexes none of which leads below
    another, is stored without an error in a new ordered map; the order that is read is
    that of the last settings, each path once, and every path gives the value it was last
    set to. *)
Theorem ordered_history `{GoRuntime} (sets : list (PathItems * NM))
    (Hreg : ∀ p, p ∈ sets.*1 → regular p)
    (Hap : ∀ p q, p ∈ sets.*1 → q ∈ sets.*1 → p = q ∨ apart q p)
    (Hv : Forall a_map_or_data sets.*2) (Hlen : Z.of_nat (length sets) < max_int64) :
  ∃ onm0 onm, NewOrderedNavigableMap = Ok onm0 ∧ set_all sets onm0 = (Ok tt, onm) ∧
    onm_GetOrder onm = Ok (foldl moved [] sets.*1) ∧
    ∀ xs p v ys, sets = xs ++ (p, v) :: ys → p ∉ ys.*1 → onm_Field onm p = Ok v.
Proof.
  destruct keeps_new as (onm0 & E0 & Hk0 & Enm). exists onm0.
  destruct (set_many sets.*1 Hreg Hap sets onm0 []) as (onm & ks & E & Hk & Ek & _ & Hf);
    try done.
  - intros p _. rewrite Enm. apply clear_empty.
  - exists onm. split_and!; try done. by rewrite (keeps_order _ _ Hk), Ek.
Qed.

Definition field (names : list string) : PathItems := (λ f, mkPathItem f None) <$> names.
Definition text_value (s : string) : NM := NMData PlainData (VIface (IString s)).

Lemma ordered_history_witness :
  let a := field ["req"; "Account"] in let d := field ["req"; "Destination"] in
  ∃ onm0 onm, NewOrderedNavigableMap = Ok onm0 ∧
    set_all (H := reference_runtime) [(a, text_value "1001"); (d, text_value "1002");
      (a, text_value "1003")] onm0 = (Ok tt, onm) ∧
    onm_GetOrder onm = Ok [d; a] ∧ onm_Field onm a = Ok (text_value "1003").
Proof.
  intros a d.
  destruct (ordered_history (H := reference_runtime) [(a, text_value "1001");
    (d, text_value "1002"); (a, text_value "1003")]) as (onm0 & onm & E0 & E & Eo & Ef).
  - intros p Hp. assert (p = a ∨ p = d) as [->| ->] by (unfold a, d in *; set_solver);
      (split; [done|]; split; [repeat constructor|]; repeat constructor; done).
  - intros p q Hp Hq.
    assert (p = a ∨ p = d) as [->| ->] by (unfold a, d in *; set_solver);
    assert (q = a ∨ q = d) as [->| ->] by (unfold a, d in *; set_solver); auto; right; right; right;
      (split; [done|by left]).
  - repeat constructor; by exists NMDataType.
  - done.
  - exists onm0, onm. split_and!; [done..|exact Eo|].
    apply (Ef [(a, text_value "1001"); (d, text_value "1002")] a _ []); [done|set_solver].
Defined.

(** ** What the order does not follow *)

Definition run_ordered {A} (m : SM OrderedNavigableMap A) : res (list (res string)) :=
  onm0 ← NewOrderedNavigableMap;
  _ ← (m onm0).1;
  order ← onm_GetOrder (m onm0).2;
  Ok (PathItems_String <$> (order : list PathItems)).

(** The references are dropped by a prefix of their text: removing [Field1] forgets
    [Field11], which is still in the map. *)
Example Remove_forgets_longer_names :
  let m := (_ ← set_all (H := reference_runtime)
              [(field ["Field1"], text_value "a"); (field ["Field11"], text_value "b")];
            _ ← onm_Remove (H := reference_runtime) (full_path (field ["Field1"]));
            gets (λ onm, onm_Field onm (field ["Field11"]))) in
  run_ordered m = Ok [] ∧
  ∃ onm0, NewOrderedNavigableMap = Ok onm0 ∧ (m onm0).1 = Ok (Ok (text_value "b")).
Proof. split; [by vm_compute|]. eexists. split; [reflexivity|]. by vm_compute. Qed.

(** Setting an element of a slice again moves the last element of the slice to the end of
    the order. *)
Example Set_moves_another_element :
  let elem i := mkFullPath [mkPathItem "Usages" (Some i)] ("Usages[" +:+ (Itoa i +:+ "]")) in
  run_ordered (
    _ ← onm_Set (H := reference_runtime) (Some (elem 0)) (text_value "a");
    _ ← onm_Set (H := reference_runtime) (Some (elem 1)) (text_value "b");
    _ ← onm_Set (H := reference_runtime) (Some (full_path (field ["Cost"]))) (text_value "c");
    onm_Set (H := reference_runtime) (Some (elem 0)) (text_value "d")) =
  Ok [Ok "Usages[0]"; Ok "Cost"; Ok "Usages[1]"].
Proof. by vm_compute. Qed.

(** A slice set without an index puts one path per element into the order; setting it
    again replaces them. *)
Example Set_slice_inflates :
  run_ordered (
    _ ← onm_Set (H := reference_runtime) (Some (full_path (field ["Usages"])))
          (NMSlice [text_value "a"; text_value "b"]);
    onm_Set (H := reference_runtime) (Some (full_path (field ["Usages"])))
      (NMSlice [text_value "c"])) = Ok [Ok "Usages[0]"].
Proof. by vm_compute. Qed.

(** A value set over a map leaves the paths below the map in the order. *)
Example Set_over_a_map_keeps_its_paths :
  run_ordered (set_all (H := reference_runtime)
    [(field ["req"; "Account"], text_value "1001"); (field ["req"], text_value "none")]) =
  Ok [Ok "req.Account"; Ok "req"].
Proof. by vm_compute. Qed.
