(* ===== verification/NavigableOutput.v ===== *)
(** * Events and XML elements out of ordered maps

    [config/navigablemap.go]: the fields of an ordered map as the fields of an event
    ([NMAsCGREvent]) and as a forest of XML elements ([NMAsXMLElements]).  The elements are
    shared by pointer between the forest and the index of the paths, so they are kept in a
    heap. *)
From S2P Require Import Prelude GoStrings CoreUtils GoTime Values Stateful PathItemList NavigableMaps OrderedMaps.

(** A map or slice as a value of an event. *)
Class NMValues := { nm_iface : NM → iface }.

Section output.
Context `{GoText, NMValues}.

Definition value_iface (v : NMValue) : iface :=
  match v with VIface i => i | VNM nm => nm_iface nm end.

(** ** Events *)

Definition is_attribute (v : NM) : bool :=
  match v with
  | NMData (ConfigItem _ (Some c)) _ => bool_decide (fc_AttributeID c ≠ "")
  | _ => false
  end.

Definition cgr_event_field (onm : OrderedNavigableMap) (event : MapStorage) (branchPath : PathItems)
    : res MapStorage :=
  val ← match onm_Field onm branchPath with
        | Ok v => Ok v
        | Err _ => Ok NMNil
        | Panic => Panic
        end;
  text ← PathItems_String branchPath;
  opath ← GetPathWithoutIndex text;
  if is_attribute val then Ok event
  else match ms_get opath event with
       | Some _ => Ok event
       | None => v ← NM_Interface val; Ok (ms_put opath (value_iface v) event)
       end.

(** [uuid] and [now] are a new identifier and the time of the call. *)
Definition NMAsCGREvent (uuid : string) (now : Time) (nM : option OrderedNavigableMap)
    (tnt : string) : res (option CGREvent) :=
  match nM with
  | None => Ok None
  | Some onm =>
      el ← onm_GetFirstElement onm;
      match el with
      | None => Ok None
      | Some _ =>
          order ← order_from (S (st_fresh (onm_heap onm))) (onm_heap onm) el;
          event ← foldl (λ ev p, ev ← ev; cgr_event_field onm ev p) (Ok ([] : MapStorage)) order;
          Ok (Some (mkCGREvent tnt uuid (Some now) event))
      end
  end.

(** ** XML elements *)

Record XMLElement := mkXML {
  xe_XMLName : string; xe_Value : string; xe_Attributes : list (string * string);
  xe_Elements : list (option nat) }.

Record xml_state := mkXMLState {
  xs_heap : list XMLElement; xs_pathIdx : gmap string nat; xs_ents : list (option nat) }.

Definition with_xml (f : list XMLElement → list XMLElement) (st : xml_state) : xml_state :=
  mkXMLState (f (xs_heap st)) (xs_pathIdx st) (xs_ents st).
Definition with_pathIdx (f : gmap string nat → gmap string nat) (st : xml_state) : xml_state :=
  mkXMLState (xs_heap st) (f (xs_pathIdx st)) (xs_ents st).
Definition add_entry (e : option nat) (st : xml_state) : xml_state :=
  mkXMLState (xs_heap st) (xs_pathIdx st) (xs_ents st ++ [e]).

Definition new_xml (name : string) : SM xml_state nat := λ st,
  (Ok (length (xs_heap st)), with_xml (λ h, h ++ [mkXML name "" [] []]) st).
Definition change_xml (elm : nat) (f : XMLElement → XMLElement) : SM xml_state () :=
  modify (with_xml (alter f elm)).

(** The value of an item, or an attribute. *)
Definition put_value (cfg : option FCConfig) (val : string) (e : XMLElement) : XMLElement :=
  match cfg with
  | Some c =>
      if bool_decide (fc_AttributeID c ≠ "")
      then mkXML (xe_XMLName e) (xe_Value e) (xe_Attributes e ++ [(fc_AttributeID c, val)])
             (xe_Elements e)
      else mkXML (xe_XMLName e) val (xe_Attributes e) (xe_Elements e)
  | None => mkXML (xe_XMLName e) val (xe_Attributes e) (xe_Elements e)
  end.
Definition put_child (child : option nat) (e : XMLElement) : XMLElement :=
  mkXML (xe_XMLName e) (xe_Value e) (xe_Attributes e) (xe_Elements e ++ [child]).

Section item.
Context (path : list string) (cfg : option FCConfig) (val : string).

Definition path_key (i : nat) : string := Join (take i path) "".

(** [for j := len(path); j > i; j--], [steps] times. *)
Fixpoint new_elements (steps j : nat) (newElm : option nat) : SM xml_state (option nat) :=
  match steps with
  | O => mret newElm
  | S steps =>
      name ← lift (index path (Z.of_nat j - 1));
      elm ← new_xml name;
      _ ← modify (with_pathIdx (λ m, <[path_key j := elm]> m));
      _ ← change_xml elm (match newElm with
                          | None => put_value cfg val
                          | Some _ => put_child newElm
                          end);
      new_elements steps (pred j) (Some elm)
  end.

(** [for i := len(path); i > 0; i--] *)
Fixpoint cached_prefixes (i : nat) (pathCached : bool) : SM xml_state bool :=
  match i with
  | O => mret pathCached
  | S i' =>
      cached ← gets (λ st, xs_pathIdx st !! path_key i);
      match cached with
      | None => cached_prefixes i' false
      | Some cachedElm =>
          if bool_decide (i = length path) then
            _ ← change_xml cachedElm (put_value cfg val); mret true
          else
            newElm ← new_elements (length path - i) (length path) None;
            _ ← change_xml cachedElm (put_child newElm);
            cached_prefixes i' true
      end
  end.

Definition add_item : SM xml_state () :=
  pathCached ← cached_prefixes (length path) false;
  if (pathCached : bool) then mret tt
  else
    newElm ← new_elements (length path) (length path) None;
    modify (add_entry newElm).
End item.

Definition add_path (onm : OrderedNavigableMap) (p : PathItems) : SM xml_state () :=
  nmIt ← lift (onm_Field onm p);
  match nmIt with
  | NMData (ConfigItem path cfg) data =>
      _ ← (if default false (fc_NewBranch <$> cfg) then modify (with_pathIdx (λ _, ∅))
           else mret tt);
      add_item path cfg (IfaceAsString (value_iface data))
  | _ =>
      text ← lift (PathItems_String p);
      fails ("value: " +:+ text +:+ " is not []*NMItem")
  end.

Definition NMAsXMLElements (onm : OrderedNavigableMap) : SM xml_state (list (option nat)) :=
  el ← lift (onm_GetFirstElement onm);
  order ← lift (order_from (S (st_fresh (onm_heap onm))) (onm_heap onm) el);
  _ ← visit (λ _ p, add_path onm p) tt order;
  gets xs_ents.

Definition no_xml : xml_state := mkXMLState [] ∅ [].

(** The forest as a tree, to look at. *)
#[local] Unset Elimination Schemes.
Inductive xml := Elem (name value : string) (attrs : list (string * string)) (children : list xml).
#[local] Set Elimination Schemes.

Fixpoint xml_tree (fuel : nat) (h : list XMLElement) (e : option nat) : res xml :=
  match fuel with
  | O => Panic
  | S fuel =>
      e ← deref e;
      e ← deref (h !! e);
      children ← res_map (xml_tree fuel h) (xe_Elements e);
      Ok (Elem (xe_XMLName e) (xe_Value e) (xe_Attributes e) children)
  end.
Definition as_forest (onm : OrderedNavigableMap) : res (list xml) :=
  ents ← (NMAsXMLElements onm no_xml).1;
  let h := xs_heap (NMAsXMLElements onm no_xml).2 in
  res_map (xml_tree (S (length h)) h) ents.
End output.

(** ** The event of a history *)

Lemma moved_elem order q p : p ∈ moved order q ↔ p ∈ order ∨ p = q.
Proof. unfold moved. rewrite elem_of_app, list_elem_of_filter. destruct (decide (p = q)); set_solver. Qed.
Lemma moved_all_elem qs : ∀ order p, p ∈ foldl moved order qs ↔ p ∈ order ∨ p ∈ qs.
Proof.
  induction qs as [|q qs IH]; intros order p; simpl; [set_solver|].
  rewrite IH, moved_elem. set_solver.
Qed.
Lemma last_occurrence {B} p (l : list (PathItems * B)) : p ∈ l.*1 →
  ∃ xs v ys, l = xs ++ (p, v) :: ys ∧ p ∉ ys.*1.
Proof.
  induction l as [|[q v] l IH]; [by intros Hp%elem_of_nil|]. intros Hp.
  destruct (decide (p ∈ l.*1)) as [Hin|Hout].
  - destruct (IH Hin) as (xs & w & ys & -> & Hys). by exists ((q, v) :: xs), w, ys.
  - apply elem_of_cons in Hp as [Hq|?]; [|done]. simpl in Hq. subst q. by exists [], v, l.
Qed.
Lemma unindexed_text p : regular p → GetPathWithoutIndex (path_text p) = Ok (path_text p).
Proof. intros Hp. unfold GetPathWithoutIndex. by rewrite path_text_no_bracket. Qed.

Section event.
Context `{GoText, NMValues} (onm : OrderedNavigableMap).

Definition plain_value (i : iface) : NM := NMData PlainData (VIface i).

Lemma event_fold l : NoDup l → (∀ p, p ∈ l → regular p) →
  (∀ p, p ∈ l → ∃ i, onm_Field onm p = Ok (plain_value i)) → ∀ ms,
  (∀ p, p ∈ l → ms_get (path_text p) ms = None) →
  ∃ ms', foldl (λ ev p, ev ← ev; cgr_event_field onm ev p) (Ok ms) l = Ok ms' ∧
    (∀ p i, p ∈ l → onm_Field onm p = Ok (plain_value i) → ms_get (path_text p) ms' = Some i) ∧
    ∀ n, (∀ p, p ∈ l → n ≠ path_text p) → ms_get n ms' = ms_get n ms.
Proof.
  induction l as [|q l IH]; intros Hnd Hr Hf ms Hnone.
  { exists ms. split_and!; [done| |done]. by intros p i Hp%elem_of_nil. }
  apply NoDup_cons in Hnd as [Hq Hnd]. destruct (Hf q) as [i Hi]; [by left|].
  assert (regular q) as Hrq by (apply Hr; by left).
  assert (∀ p, p ∈ l → path_text p ≠ path_text q) as Hne.
  { intros p Hp E. apply path_text_inj in E; [by subst|apply Hr; by right|done]. }
  assert (cgr_event_field onm ms q = Ok (ms_put (path_text q) i ms)) as E.
  { unfold cgr_event_field. rewrite Hi. simpl. rewrite PathItems_String_Join by apply Hrq.
    fold (path_text q). simpl. rewrite unindexed_text by done. simpl.
    by rewrite Hnone by left. }
  destruct (IH Hnd ltac:(set_solver) ltac:(set_solver) (ms_put (path_text q) i ms))
    as (ms' & E' & Hget & Hother).
  { intros p Hp. rewrite ms_get_put, decide_False by (intros E1; by apply (Hne p Hp)). apply Hnone. by right. }
  exists ms'. split_and!.
  - simpl. by rewrite E.
  - intros p j [->|Hp]%elem_of_cons Hj; [|by apply Hget].
    rewrite Hi in Hj. injection Hj as <-. rewrite Hother, ms_get_put by (intros p Hp E1; by apply (Hne p Hp)).
    by rewrite decide_True.
  - intros n Hn. rewrite Hother by set_solver. rewrite ms_get_put, decide_False; [done|].
    intros E1. apply (Hn q); [by left|done].
Qed.
End event.

(** The event made of an ordered map in which fields without indexes were set has, for
    the text of every path, the value it was last set to, and nothing else. *)
Theorem event_of_history `{GoRuntime, GoText, NMValues} (sets : list (PathItems * iface))
    (uuid : string) (now : Time) (tnt : string)
    (Hne : sets ≠ []) (Hreg : ∀ p, p ∈ sets.*1 → regular p)
    (Hap : ∀ p q, p ∈ sets.*1 → q ∈ sets.*1 → p = q ∨ apart q p)
    (Hlen : Z.of_nat (length sets) < max_int64) :
  ∃ onm0 onm event, NewOrderedNavigableMap = Ok onm0 ∧
    set_all (prod_map id plain_value <$> sets) onm0 = (Ok tt, onm) ∧
    NMAsCGREvent uuid now (Some onm) tnt = Ok (Some (mkCGREvent tnt uuid (Some now) event)) ∧
    (∀ xs p i ys, sets = xs ++ (p, i) :: ys → p ∉ ys.*1 → ms_get (path_text p) event = Some i) ∧
    (∀ n, (∀ p, p ∈ sets.*1 → n ≠ path_text p) → ms_get n event = None).
Proof.
  destruct keeps_new as (onm0 & E0 & Hk0 & Enm). exists onm0.
  set (all := prod_map id plain_value <$> sets).
  assert (all.*1 = sets.*1) as Efst by (unfold all; by rewrite <- list_fmap_compose).
  destruct (set_many sets.*1 Hreg Hap all onm0 []) as (onm & ks & E & Hk & Ek & _ & Hf).
  - done.
  - by rewrite Efst.
  - intros p _. rewrite Enm. apply clear_empty.
  - apply Forall_fmap, Forall_fmap, Forall_forall. intros [p i] _. by exists NMDataType.
  - unfold all. by rewrite length_fmap.
  - assert (∀ p, p ∈ ks.*1 ↔ p ∈ sets.*1) as Hmem
      by (intros p; rewrite Ek, moved_all_elem, Efst; set_solver).
    assert (∀ xs p i ys, sets = xs ++ (p, i) :: ys → p ∉ ys.*1 →
      onm_Field onm p = Ok (plain_value i)) as Hfield.
    { intros xs p i ys Es Hp. apply (Hf (prod_map id plain_value <$> xs) p _
        (prod_map id plain_value <$> ys)).
      - unfold all. by rewrite Es, fmap_app, fmap_cons.
      - by rewrite <- list_fmap_compose. }
    destruct (event_fold onm ks.*1) with (ms := @nil (string * iface))
      as (event & Ee & Hget & Hother); [apply Hk..| |done|].
    { intros p Hp. apply Hmem, last_occurrence in Hp as (xs & i & ys & Es & Hys). eauto. }
    exists onm, event. split_and!; [done..| | |].
    + pose proof (keeps_order _ _ Hk) as Ho. unfold onm_GetOrder in Ho. unfold NMAsCGREvent.
      destruct (onm_GetFirstElement onm) as [[el|]|e|]; try done; cbn -[order_from foldl] in Ho |- *.
      * rewrite Ho. cbn -[foldl]. by rewrite Ee.
      * injection Ho as Ho. destruct sets as [|[p i] sets]; [done|].
        assert (p ∈ ks.*1) as Hin by (apply Hmem; by left). rewrite <- Ho in Hin.
        by apply elem_of_nil in Hin.
    + intros xs p i ys Es Hp. apply Hget; [|by eapply Hfield]. apply Hmem. subst sets.
      rewrite fmap_app. set_solver.
    + intros n Hn. rewrite Hother; [done|]. intros p Hp. by apply Hn, Hmem.
Qed.

Lemma event_of_history_witness :
  let a := field ["Account"] in let d := field ["Destination"] in
  let _ : NMValues := {| nm_iface := λ _, INil |} in
  ∃ onm0 onm event, NewOrderedNavigableMap = Ok onm0 ∧
    set_all (H := reference_runtime) (prod_map id plain_value <$> [(a, IString "1001");
      (d, IString "1002"); (a, IString "1003")]) onm0 = (Ok tt, onm) ∧
    NMAsCGREvent "id" (mkTime 0 UTC) (Some onm) "cgrates.org" =
      Ok (Some (mkCGREvent "cgrates.org" "id" (Some (mkTime 0 UTC)) event)) ∧
    ms_get "Account" event = Some (IString "1003") ∧ ms_get "Subject" event = None.
Proof.
  intros a d n.
  destruct (event_of_history (H := reference_runtime) (H0 := reference_text) (H1 := n) [(a, IString "1001");
    (d, IString "1002"); (a, IString "1003")] "id" (mkTime 0 UTC) "cgrates.org")
    as (onm0 & onm & event & E0 & E & Ee & Hget & Hno).
  - done.
  - intros p Hp. assert (p = a ∨ p = d) as [->| ->] by (unfold a, d in *; set_solver);
      (split; [done|]; split; [repeat constructor|]; repeat constructor; done).
  - intros p q Hp Hq.
    assert (p = a ∨ p = d) as [->| ->] by (unfold a, d in *; set_solver);
    assert (q = a ∨ q = d) as [->| ->] by (unfold a, d in *; set_solver); auto; right; by left.
  - done.
  - exists onm0, onm, event. split_and!; [done..| |].
    + apply (Hget [(a, IString "1001"); (d, IString "1002")] a _ []); [done|set_solver].
    + apply Hno. intros p Hp.
      assert (p = a ∨ p = d) as [->| ->] by (unfold a, d in *; set_solver); done.
Defined.

(** ** Examples *)

Definition an_item (names : list string) (cfg : option FCConfig) (s : string) : FullPath * NM :=
  (full_path (field names), NMSlice [NMData (ConfigItem names cfg) (VIface (IString s))]).

Definition forest_of (items : list (FullPath * NM)) : res (list xml) :=
  let _ : NMValues := {| nm_iface := λ _, INil |} in
  onm0 ← NewOrderedNavigableMap;
  let m := visit (λ _ '(p, v), _ ← onm_Set (H := reference_runtime) (Some p) v; mret tt) tt items in
  _ ← (m onm0).1;
  as_forest (H := reference_text) (m onm0).2.

(** Fields of one parent become its children. *)
Example forest_of_siblings :
  forest_of [an_item ["Reply"; "Code"] None "200"; an_item ["Reply"; "Cost"] None "0.5"] =
  Ok [Elem "Reply" "" [] [Elem "Code" "200" [] []; Elem "Cost" "0.5" [] []]].
Proof. by vm_compute. Qed.

(** The loop over the prefixes goes on after it has found the longest one: an element with
    two parents in common with an earlier one is added below each of them. *)
Example forest_repeats_elements :
  forest_of [an_item ["Reply"; "Cost"; "Units"] None "EUR";
             an_item ["Reply"; "Cost"; "Value"] None "0.5"] =
  Ok [Elem "Reply" "" []
       [Elem "Cost" "" [] [Elem "Units" "EUR" [] []; Elem "Value" "0.5" [] []];
        Elem "Cost" "" [] [Elem "Value" "0.5" [] []]]].
Proof. by vm_compute. Qed.

(** The prefixes are compared with the names run together: [AB] is taken for [A], [B]. *)
Example forest_confuses_names :
  forest_of [an_item ["A"; "B"] None "1"; an_item ["AB"] None "2"] =
  Ok [Elem "A" "" [] [Elem "B" "2" [] []]].
Proof. by vm_compute. Qed.
