(* ===== verification/UnitCounters.v ===== *)
(** * Unit counters

    [engine/units_counter.go], [InitCounters] of [engine/account.go], cloning and comparing
    the filters of [engine/balance_filter.go], and the state of accounts with triggers,
    which [AccountActions] goes on with.

    The state is the account that is loaded, with what it points to, and the world behind
    it: the database, the actions, which are shared by their pointers, and the shared
    groups.  Balances, unit counters and their filters are objects at positions; the slices
    of balances are windows on arrays, which removals and appends change while a loop of
    the triggers ranges over them. *)
From S2P Require Import Prelude GoFloat GoStrings GoTime CoreUtils Collections Values RateInterval CallDescriptor RatingProfile CallCost Stateful Balances Accounts.

(** ** Data *)

Record Action := mkAction {
  a_Id : string; a_ActionType : string; a_ExtraParameters : string; a_Filter : string;
  a_ExpirationString : string; a_Weight : float64; a_Balance : option BalanceFilter;
  a_balanceValue : float64 }.

Record ActionTrigger := mkTrigger {
  at_ID : string; at_UniqueID : string; at_ThresholdType : string; at_ThresholdValue : float64;
  at_Recurrent : bool; at_MinSleep : Z; at_ExpirationDate : Time; at_ActivationDate : Time;
  at_Balance : option BalanceFilter; at_Weight : float64; at_ActionsID : string;
  at_MinQueuedItems : Z; at_Executed : bool; at_LastExecutionTime : Time }.

Record CounterFilter := mkCounterFilter { cf_Value : float64; cf_Filter : option BalanceFilter }.
(** The filters are at positions of the account. *)
Record UnitCounter := mkUnitCounter { uc_CounterType : string; uc_Counters : list nat }.

(** A slice: the array it looks at, from its start, and its length. *)
Record slice_of := mkSlice { sl_array : nat; sl_len : nat }.

(** The account in memory.  An array has as many slots as its capacity. *)
Record LiveAccount := mkLive {
  la_ID : string; la_BalanceMap : option (gmap string slice_of);
  la_UnitCounters : option (gmap string (list nat)); la_ActionTriggers : list ActionTrigger;
  la_AllowNegative : bool; la_Disabled : bool; la_executingTriggers : bool;
  la_balances : list Balance; la_arrays : list (list (option nat));
  la_counters : list UnitCounter; la_filters : list CounterFilter }.

(** The account in the database. *)
Record FullAccount := mkFull {
  fa_BalanceMap : option (gmap string (list Balance));
  fa_UnitCounters : option (gmap string (list (string * list CounterFilter)));
  fa_ActionTriggers : list ActionTrigger; fa_AllowNegative : bool; fa_Disabled : bool }.

Record World := mkWorld {
  w_actions : gmap string (list Action); w_db : gmap string FullAccount;
  w_groups : gmap string SharedGroup; w_uuids : nat }.
Record ActionState := mkActionState { as_live : LiveAccount; as_world : World }.

Abbreviation TriggerParams := (string * string * string)%type.
Class ActionData := {
  default_timezone : string;
  RemoveExpired : bool;
  (** the slots an array grows by when an append needs a new one *)
  spare_slots : nat → nat;
  (** [structmatcher.NewStructMatcher] and its [Match] on a balance with its type *)
  condition_error : string → option string;
  condition_match : string → string → Balance → res bool;
  (** group, unique identifier and threshold type in the extra parameters *)
  trigger_params : string → TriggerParams;
  factor_params : string → res (gmap string float64);
  params_DeepEqual : gmap string formula_param → gmap string formula_param → bool;
  (** the result of the actions that call other systems *)
  external_action : Action → option string → res ();
  shared_group_error : string → bool;
  RemoveAccount_error : string → option string;
  (** tenant and account in the extra parameters *)
  account_params : string → res (string * string);
  (** removing an account from its action plans *)
  remove_from_plans_error : string → option string;
  (** the balances in the last charging record of an account *)
  last_summaries : string → res (list BalanceSummary)
}.

#[local] Abbreviation M := (SM ActionState).

(** ** Reading and changing the state *)

Definition on_live (f : LiveAccount → LiveAccount) : M () :=
  modify (λ st, mkActionState (f (as_live st)) (as_world st)).
Definition on_world (f : World → World) : M () :=
  modify (λ st, mkActionState (as_live st) (f (as_world st))).
Definition live : M LiveAccount := gets as_live.

Definition la_set_BalanceMap (m : option (gmap string slice_of)) (la : LiveAccount) : LiveAccount :=
  mkLive (la_ID la) m (la_UnitCounters la) (la_ActionTriggers la) (la_AllowNegative la)
    (la_Disabled la) (la_executingTriggers la) (la_balances la) (la_arrays la) (la_counters la)
    (la_filters la).
Definition la_set_UnitCounters (m : option (gmap string (list nat))) (la : LiveAccount)
    : LiveAccount :=
  mkLive (la_ID la) (la_BalanceMap la) m (la_ActionTriggers la) (la_AllowNegative la)
    (la_Disabled la) (la_executingTriggers la) (la_balances la) (la_arrays la) (la_counters la)
    (la_filters la).
Definition la_set_ActionTriggers (l : list ActionTrigger) (la : LiveAccount) : LiveAccount :=
  mkLive (la_ID la) (la_BalanceMap la) (la_UnitCounters la) l (la_AllowNegative la)
    (la_Disabled la) (la_executingTriggers la) (la_balances la) (la_arrays la) (la_counters la)
    (la_filters la).
Definition la_set_AllowNegative (b : bool) (la : LiveAccount) : LiveAccount :=
  mkLive (la_ID la) (la_BalanceMap la) (la_UnitCounters la) (la_ActionTriggers la) b
    (la_Disabled la) (la_executingTriggers la) (la_balances la) (la_arrays la) (la_counters la)
    (la_filters la).
Definition la_set_Disabled (b : bool) (la : LiveAccount) : LiveAccount :=
  mkLive (la_ID la) (la_BalanceMap la) (la_UnitCounters la) (la_ActionTriggers la)
    (la_AllowNegative la) b (la_executingTriggers la) (la_balances la) (la_arrays la)
    (la_counters la) (la_filters la).
Definition la_set_executing (b : bool) (la : LiveAccount) : LiveAccount :=
  mkLive (la_ID la) (la_BalanceMap la) (la_UnitCounters la) (la_ActionTriggers la)
    (la_AllowNegative la) (la_Disabled la) b (la_balances la) (la_arrays la) (la_counters la)
    (la_filters la).
Definition la_set_balances (l : list Balance) (la : LiveAccount) : LiveAccount :=
  mkLive (la_ID la) (la_BalanceMap la) (la_UnitCounters la) (la_ActionTriggers la)
    (la_AllowNegative la) (la_Disabled la) (la_executingTriggers la) l (la_arrays la)
    (la_counters la) (la_filters la).
Definition la_set_arrays (l : list (list (option nat))) (la : LiveAccount) : LiveAccount :=
  mkLive (la_ID la) (la_BalanceMap la) (la_UnitCounters la) (la_ActionTriggers la)
    (la_AllowNegative la) (la_Disabled la) (la_executingTriggers la) (la_balances la) l
    (la_counters la) (la_filters la).
Definition la_set_counters (l : list UnitCounter) (la : LiveAccount) : LiveAccount :=
  mkLive (la_ID la) (la_BalanceMap la) (la_UnitCounters la) (la_ActionTriggers la)
    (la_AllowNegative la) (la_Disabled la) (la_executingTriggers la) (la_balances la)
    (la_arrays la) l (la_filters la).
Definition la_set_filters (l : list CounterFilter) (la : LiveAccount) : LiveAccount :=
  mkLive (la_ID la) (la_BalanceMap la) (la_UnitCounters la) (la_ActionTriggers la)
    (la_AllowNegative la) (la_Disabled la) (la_executingTriggers la) (la_balances la)
    (la_arrays la) (la_counters la) l.

Definition w_set_actions (m : gmap string (list Action)) (w : World) : World :=
  mkWorld m (w_db w) (w_groups w) (w_uuids w).
Definition w_set_db (m : gmap string FullAccount) (w : World) : World :=
  mkWorld (w_actions w) m (w_groups w) (w_uuids w).
Definition w_set_groups (m : gmap string SharedGroup) (w : World) : World :=
  mkWorld (w_actions w) (w_db w) m (w_uuids w).

Definition get_balance (l : nat) : M Balance := λ st, (deref (la_balances (as_live st) !! l), st).
Definition put_balance (l : nat) (b : Balance) : M () :=
  on_live (λ la, la_set_balances (<[l := b]> (la_balances la)) la).
Definition new_balance_at (b : Balance) : M nat := λ st,
  (Ok (length (la_balances (as_live st))),
   mkActionState (la_set_balances (la_balances (as_live st) ++ [b]) (as_live st)) (as_world st)).
Definition get_filter (l : nat) : M CounterFilter := λ st, (deref (la_filters (as_live st) !! l), st).
Definition put_filter (l : nat) (c : CounterFilter) : M () :=
  on_live (λ la, la_set_filters (<[l := c]> (la_filters la)) la).
Definition get_counter (l : nat) : M UnitCounter := λ st, (deref (la_counters (as_live st) !! l), st).
Definition put_counter (l : nat) (c : UnitCounter) : M () :=
  on_live (λ la, la_set_counters (<[l := c]> (la_counters la)) la).
Definition get_trigger (i : nat) : M ActionTrigger :=
  λ st, (deref (la_ActionTriggers (as_live st) !! i), st).
Definition put_trigger (i : nat) (t : ActionTrigger) : M () :=
  on_live (λ la, la_set_ActionTriggers (<[i := t]> (la_ActionTriggers la)) la).

(** The element of a slice at an index, as it is now in its array. *)
Definition slot (s : slice_of) (i : nat) : M nat := λ st,
  (deref (la_arrays (as_live st) !! sl_array s ≫= λ a, mjoin (a !! i)), st).
Definition set_slot (s : slice_of) (i : nat) (x : option nat) : M () :=
  on_live (λ la, la_set_arrays (alter (λ a, <[i := x]> a) (sl_array s) (la_arrays la)) la).
(** [for _, b := range s]: the length is taken once, the elements when they are reached. *)
Definition range_slice (s : slice_of) (body : nat → M ()) : M () :=
  visit (λ _ i, l ← slot s i; body l) tt (seq 0 (sl_len s)).
Definition balances_of (la : LiveAccount) (typ : string) : option slice_of :=
  default ∅ (la_BalanceMap la) !! typ.
Definition nil_slice : slice_of := mkSlice 0 0.

Definition new_array (a : list (option nat)) : M nat := λ st,
  (Ok (length (la_arrays (as_live st))),
   mkActionState (la_set_arrays (la_arrays (as_live st) ++ [a]) (as_live st)) (as_world st)).

Section actions.
Context `{GoRuntime, GoText, AccountData, RatingData, ActionData}.

(** [append(s, x)]: into the array when it has a slot left, else into a new one.  A nil
    slice has no array. *)
Definition slice_append (s : option slice_of) (x : nat) : M slice_of :=
  la ← live;
  let elems := match s with
               | Some s => take (sl_len s) (default [] (la_arrays la !! sl_array s))
               | None => []
               end in
  match s with
  | Some s =>
      if (sl_len s <? length (default [] (la_arrays la !! sl_array s)))%nat then
        _ ← set_slot s (sl_len s) (Some x); mret (mkSlice (sl_array s) (S (sl_len s)))
      else
        a ← new_array (elems ++ Some x :: replicate (spare_slots (S (sl_len s))) None);
        mret (mkSlice a (S (sl_len s)))
  | None => a ← new_array [Some x]; mret (mkSlice a 1)
  end.

(** [bm = append(bm[:i], bm[i+1:]...)]: the later elements move down in the array. *)
Definition slice_delete (s : slice_of) (i : nat) : M slice_of :=
  _ ← on_live (λ la, la_set_arrays (alter (λ a,
        take i a ++ drop (S i) (take (sl_len s) a) ++ drop (pred (sl_len s)) a)
        (sl_array s) (la_arrays la)) la);
  mret (mkSlice (sl_array s) (pred (sl_len s))).

(** [bChain[i] = bChain[len(bChain)-1]; bChain = bChain[:len(bChain)-1]] *)
Definition slice_swap_out (s : slice_of) (i : nat) : M slice_of :=
  l ← slot s (pred (sl_len s));
  _ ← set_slot s i (Some l);
  mret (mkSlice (sl_array s) (pred (sl_len s))).

Definition put_balances (typ : string) (s : slice_of) : M () :=
  on_live (λ la, la_set_BalanceMap (Some (<[typ := s]> (default ∅ (la_BalanceMap la)))) la).
Definition make_BalanceMap : M () :=
  on_live (λ la, la_set_BalanceMap (Some (default ∅ (la_BalanceMap la))) la).
Definition append_balance (typ : string) (b : Balance) : M nat :=
  l ← new_balance_at b;
  la ← live;
  s ← slice_append (balances_of la typ) l;
  _ ← put_balances typ s;
  mret l.
Definition range_balances (typ : string) (body : nat → M ()) : M () :=
  la ← live;
  match balances_of la typ with Some s => range_slice s body | None => mret tt end.

(** ** Filters of balances: copies and equality *)

Definition clone_map (m : option StringMap) : res (option StringMap) :=
  match m with
  | None => Ok None
  | Some sm => c ← StringMap_Clone sm; Ok (Some c)
  end.
Definition BalanceFilter_Clone (bf : option BalanceFilter) : res (option BalanceFilter) :=
  match bf with
  | None => Ok None
  | Some bf =>
      dests ← clone_map (bf_DestinationIDs bf);
      cats ← clone_map (bf_Categories bf);
      groups ← clone_map (bf_SharedGroups bf);
      timings ← clone_map (bf_TimingIDs bf);
      Ok (Some (mkBalanceFilter (bf_Uuid bf) (bf_ID bf) (bf_Type bf) (bf_Value bf)
        (bf_ExpirationDate bf) (bf_Weight bf) dests (bf_RatingSubject bf) cats groups timings
        ((λ t, default t (RITiming_Clone (Some t))) <$> bf_Timings bf) (bf_Disabled bf)
        (bf_Factor bf) (bf_Blocker bf)))
  end.

(** [reflect.DeepEqual], field by field; floats by [==].  An empty slice of timings is taken
    for the nil one. *)
Definition opt_equal {A} (eq : A → A → bool) (x y : option A) : bool :=
  match x, y with
  | None, None => true
  | Some a, Some b => eq a b
  | _, _ => false
  end.
Definition timing_equal (x y : RITiming) : bool :=
  bool_decide (rit_Years x = rit_Years y) && bool_decide (rit_Months x = rit_Months y) &&
  bool_decide (rit_MonthDays x = rit_MonthDays y) && bool_decide (rit_WeekDays x = rit_WeekDays y) &&
  bool_decide (rit_StartTime x = rit_StartTime y) && bool_decide (rit_EndTime x = rit_EndTime y) &&
  bool_decide (rit_cronString x = rit_cronString y) && bool_decide (rit_tag x = rit_tag y).
Fixpoint list_equal {A} (eq : A → A → bool) (l k : list A) : bool :=
  match l, k with
  | [], [] => true
  | x :: l, y :: k => eq x y && list_equal eq l k
  | _, _ => false
  end.
Definition formula_equal (x y : ValueFormula) : bool :=
  bool_decide (vf_Method x = vf_Method y) && params_DeepEqual (vf_Params x) (vf_Params y) &&
  feqb (vf_Static x) (vf_Static y).
Definition factor_equal (x y : gmap string float64) : bool :=
  bool_decide (dom x = dom y) &&
  forallb (λ kv, opt_equal feqb (Some kv.2) (y !! kv.1)) (map_to_list x).
Definition same_string (x y : string) : bool := bool_decide (x = y).
Definition same_map (x y : StringMap) : bool := bool_decide (x = y).
Definition filter_DeepEqual (x y : BalanceFilter) : bool :=
  opt_equal same_string (bf_Uuid x) (bf_Uuid y) && opt_equal same_string (bf_ID x) (bf_ID y) &&
  opt_equal same_string (bf_Type x) (bf_Type y) && opt_equal formula_equal (bf_Value x) (bf_Value y) &&
  opt_equal Time_same (bf_ExpirationDate x) (bf_ExpirationDate y) &&
  opt_equal feqb (bf_Weight x) (bf_Weight y) &&
  opt_equal same_map (bf_DestinationIDs x) (bf_DestinationIDs y) &&
  opt_equal same_string (bf_RatingSubject x) (bf_RatingSubject y) &&
  opt_equal same_map (bf_Categories x) (bf_Categories y) &&
  opt_equal same_map (bf_SharedGroups x) (bf_SharedGroups y) &&
  opt_equal same_map (bf_TimingIDs x) (bf_TimingIDs y) &&
  list_equal timing_equal (bf_Timings x) (bf_Timings y) &&
  opt_equal Bool.eqb (bf_Disabled x) (bf_Disabled y) &&
  opt_equal (opt_equal factor_equal) (bf_Factor x) (bf_Factor y) &&
  opt_equal Bool.eqb (bf_Blocker x) (bf_Blocker y).

(** The receiver and the argument must not be nil. *)
Definition BalanceFilter_Equal (bp o : option BalanceFilter) : res bool :=
  x ← deref bp;
  match bf_ID x with
  | None => Ok (match o with Some y => filter_DeepEqual x y | None => false end)
  | Some i =>
      y ← deref o;
      Ok (match bf_ID y with
          | Some j => same_string i j
          | None => filter_DeepEqual x y
          end)
  end.
Definition with_ID (id : string) (bf : BalanceFilter) : BalanceFilter :=
  mkBalanceFilter (bf_Uuid bf) (Some id) (bf_Type bf) (bf_Value bf) (bf_ExpirationDate bf)
    (bf_Weight bf) (bf_DestinationIDs bf) (bf_RatingSubject bf) (bf_Categories bf)
    (bf_SharedGroups bf) (bf_TimingIDs bf) (bf_Timings bf) (bf_Disabled bf) (bf_Factor bf)
    (bf_Blocker bf).
Definition with_expiry (t : Time) (bf : BalanceFilter) : BalanceFilter :=
  mkBalanceFilter (bf_Uuid bf) (bf_ID bf) (bf_Type bf) (bf_Value bf) (Some t)
    (bf_Weight bf) (bf_DestinationIDs bf) (bf_RatingSubject bf) (bf_Categories bf)
    (bf_SharedGroups bf) (bf_TimingIDs bf) (bf_Timings bf) (bf_Disabled bf) (bf_Factor bf)
    (bf_Blocker bf).
Definition empty_filter : BalanceFilter :=
  mkBalanceFilter None None None None None None None None None None None [] None None None.

(** [BalanceFilter.SetValue] *)
Definition bf_SetValue (v : float64) (bf : BalanceFilter) : BalanceFilter :=
  let f := match bf_Value bf with
           | Some f => mkValueFormula (vf_Method f) (vf_Params f) v
           | None => mkValueFormula "" ∅ v
           end in
  mkBalanceFilter (bf_Uuid bf) (bf_ID bf) (bf_Type bf) (Some f) (bf_ExpirationDate bf)
    (bf_Weight bf) (bf_DestinationIDs bf) (bf_RatingSubject bf) (bf_Categories bf)
    (bf_SharedGroups bf) (bf_TimingIDs bf) (bf_Timings bf) (bf_Disabled bf) (bf_Factor bf)
    (bf_Blocker bf).

(** ** Unit counters *)

Definition COUNTER_EVENT : string := "*event".
Definition COUNTER_BALANCE : string := "*balance".

(** [GetReverseDestination] of one prefix: whether a destination of the filter has it. *)
Definition prefix_in (dests : StringMap) (p : string) : bool :=
  match dm_GetReverseDestination p with
  | Ok destIDs => existsb (StringMap_HasKey dests) destIDs
  | _ => false
  end.
Definition MatchCCFilter (cc : CallCost) (bf : option BalanceFilter) : res bool :=
  match bf with
  | None => Ok true
  | Some bf =>
      if unless (bf_Categories bf) (λ cats,
           bool_decide (cc_Category cc = "") || sm_lookup cats (cc_Category cc))
      then
        match bf_DestinationIDs bf with
        | Some dests =>
            if bool_decide (cc_Destination cc = "") then Ok true
            else
              prefixes ← SplitPrefix (cc_Destination cc) MIN_PREFIX_MATCH;
              Ok (existsb (prefix_in dests) prefixes)
        | None => Ok true
        end
      else Ok false
  end.

Definition count_filter (ctype : string) (amount : float64) (cc : option CallCost)
    (b : option Balance) (l : nat) : M () :=
  c ← get_filter l;
  let counted := put_filter l (mkCounterFilter (fadd (cf_Value c) amount) (cf_Filter c)) in
  event ← lift (match cc with
                | Some cc => if bool_decide (ctype = COUNTER_EVENT) then MatchCCFilter cc (cf_Filter c)
                             else Ok false
                | None => Ok false
                end);
  if (event : bool) then counted
  else
    match b with
    | Some b =>
        if bool_decide (ctype = COUNTER_BALANCE) && MatchFilter b (cf_Filter c) true false
        then counted else mret tt
    | None => mret tt
    end.
Definition addUnits (amount : float64) (kind : string) (cc : option CallCost)
    (b : option Balance) : M () :=
  la ← live;
  match default ∅ (la_UnitCounters la) !! kind with
  | None => mret tt
  | Some counters =>
      visit (λ _ l,
        uc ← get_counter l;
        let ctype := if bool_decide (uc_CounterType uc = "") then COUNTER_EVENT
                     else uc_CounterType uc in
        _ ← put_counter l (mkUnitCounter ctype (uc_Counters uc));
        visit (λ _ c, count_filter ctype amount cc b c) tt (uc_Counters uc)) tt counters
  end.

Definition resetCounters (a : option Action) : M () :=
  la ← live;
  visit (λ _ kv,
    other ← lift (match a with
                  | None => Ok false
                  | Some a =>
                      bf ← deref (a_Balance a);
                      Ok (match bf_Type bf with
                          | Some t => negb (same_string t kv.1)
                          | None => false
                          end)
                  end);
    if (other : bool) then mret tt
    else
      visit (λ _ l,
        uc ← get_counter l;
        visit (λ _ c,
          cf ← get_filter c;
          reset ← lift (match a with
                        | None => Ok true
                        | Some a =>
                            match a_Balance a with
                            | None => Ok true
                            | Some _ => BalanceFilter_Equal (cf_Filter cf) (a_Balance a)
                            end
                        end);
          if (reset : bool) then put_filter c (mkCounterFilter f0 (cf_Filter cf)) else mret tt)
          tt (uc_Counters uc)) tt kv.2) tt (go_range (default ∅ (la_UnitCounters la))).

(** The values of counters with an equal filter are taken over, the first one each. *)
Fixpoint copy_value (c : nat) (olds : list nat) : M () :=
  match olds with
  | [] => mret tt
  | o :: olds =>
      cf ← get_filter c;
      oldC ← get_filter o;
      eq ← lift (BalanceFilter_Equal (cf_Filter cf) (cf_Filter oldC));
      if (eq : bool) then put_filter c (mkCounterFilter (cf_Value oldC) (cf_Filter cf))
      else copy_value c olds
  end.
Definition CopyCounterValues (l oldL : nat) : M bool :=
  uc ← get_counter l;
  oldUc ← get_counter oldL;
  if bool_decide (uc_CounterType uc ≠ uc_CounterType oldUc) then mret false
  else _ ← visit (λ _ c, copy_value c (uc_Counters oldUc)) tt (uc_Counters uc); mret true.
Fixpoint copy_from (l : nat) (olds : list nat) : M () :=
  match olds with
  | [] => mret tt
  | o :: olds => copied ← CopyCounterValues l o; if (copied : bool) then mret tt else copy_from l olds
  end.

Definition new_filter (c : CounterFilter) : M nat := λ st,
  (Ok (length (la_filters (as_live st))),
   mkActionState (la_set_filters (la_filters (as_live st) ++ [c]) (as_live st)) (as_world st)).
Definition new_counter (c : UnitCounter) : M nat := λ st,
  (Ok (length (la_counters (as_live st))),
   mkActionState (la_set_counters (la_counters (as_live st) ++ [c]) (as_live st)) (as_world st)).

Fixpoint HasCounter (cfs : list nat) (filter : option BalanceFilter) : M bool :=
  match cfs with
  | [] => mret false
  | l :: cfs =>
      c ← get_filter l;
      eq ← lift (BalanceFilter_Equal (cf_Filter c) filter);
      if (eq : bool) then mret true else HasCounter cfs filter
  end.

(** The unit counter of a balance type and a counter type, made when it is missing. *)
Definition counter_for (ucTempMap : gmap string nat) (typ ct : string)
    : M (nat * gmap string nat) :=
  match ucTempMap !! (typ +:+ ct) with
  | Some l => mret (l, ucTempMap)
  | None =>
      l ← new_counter (mkUnitCounter ct []);
      _ ← on_live (λ la,
            let ucs := default ∅ (la_UnitCounters la) in
            la_set_UnitCounters (Some (<[typ := default [] (ucs !! typ) ++ [l]]> ucs)) la);
      mret (l, <[typ +:+ ct := l]> ucTempMap)
  end.
Definition no_ID (id : option string) : bool :=
  match id with None => true | Some s => bool_decide (s = "") end.
Definition init_counter (ucTempMap : gmap string nat) (at_ : ActionTrigger)
    : M (gmap string nat) :=
  if negb (Contains (at_ThresholdType at_) "counter") then mret ucTempMap
  else
    let ct := if Contains (at_ThresholdType at_) "balance" then COUNTER_BALANCE else COUNTER_EVENT in
    '(l, ucTempMap) ← counter_for ucTempMap (bf_GetType (at_Balance at_)) ct;
    clone ← lift (BalanceFilter_Clone (at_Balance at_));
    bf ← lift (deref clone);
    let bf := if no_ID (bf_ID bf) && bool_decide (at_UniqueID at_ ≠ "")
              then with_ID (at_UniqueID at_) bf else bf in
    uc ← get_counter l;
    has ← HasCounter (uc_Counters uc) (Some bf);
    _ ← (if (has : bool) then mret tt
         else c ← new_filter (mkCounterFilter f0 (Some bf));
              put_counter l (mkUnitCounter (uc_CounterType uc) (uc_Counters uc ++ [c])));
    mret ucTempMap.
Definition InitCounters : M () :=
  la ← live;
  let oldUcs := default ∅ (la_UnitCounters la) in
  _ ← on_live (la_set_UnitCounters (Some ∅));
  _ ← visit init_counter ∅ (la_ActionTriggers la);
  la ← live;
  _ ← visit (λ _ kv,
        match oldUcs !! kv.1 with
        | None => mret tt
        | Some oldCounters => visit (λ _ l, copy_from l oldCounters) tt kv.2
        end) tt (go_range (default ∅ (la_UnitCounters la)));
  on_live (λ la, if bool_decide (default ∅ (la_UnitCounters la) = ∅)
                 then la_set_UnitCounters None la else la).
End actions.
