(* ===== verification/AccountActions.v ===== *)
(** * Account actions

    The actions of an account and the triggers that start them: [engine/action.go],
    [engine/action_trigger.go], the operations of [engine/account.go] on triggers, and the
    tasks and the execution of action timings of [engine/action_plan.go], on the state of
    [UnitCounters].

    The execution of a trigger cannot start another one, [executingTriggers] stops it; the
    operations take what they call at their end as an argument, and one level of it is
    enough ([ActionLaws]).

    Parameters: the actions that only call other systems (mail, HTTP, queues, RPC), the
    conditions on balances, JSON, the time of [time.Now]. *)
From S2P Require Import Prelude GoFloat GoStrings GoTime CoreUtils Collections Values RateInterval CallDescriptor RatingProfile CallCost Stateful Balances Accounts UnitCounters.

#[local] Abbreviation M := (SM ActionState).

Section actions.
Context `{GoRuntime, GoText, AccountData, RatingData, ActionData}.

(** ** Triggers *)

Definition at_IsExpired (at_ : ActionTrigger) (t : Time) : bool :=
  negb (IsZero (at_ExpirationDate at_)) && After t (at_ExpirationDate at_).
Definition at_IsActive (at_ : ActionTrigger) (t : Time) : bool :=
  IsZero (at_ActivationDate at_) || After t (at_ActivationDate at_).
Definition ActionTriggers_Less (j i : ActionTrigger) : bool := fltb (at_Weight i) (at_Weight j).
Definition ActionTriggers_Sort (l : list ActionTrigger) : list ActionTrigger :=
  go_sort ActionTriggers_Less l.
Definition MatchActionTrigger (b : Balance) (at_ : ActionTrigger) : bool :=
  HardMatchFilter b (at_Balance at_) false.

(** A trigger is compared with the filter of an action as a balance would be. *)
Definition at_Match (at_ : ActionTrigger) (a : option Action) : res bool :=
  match a with
  | None => Ok true
  | Some a =>
      match a_Balance a with
      | None => Ok true
      | Some bf =>
          if match bf_Type bf with
             | Some t => negb (same_string t (bf_GetType (at_Balance at_)))
             | None => false
             end
          then Ok false
          else
            let '(groupID, uniqueID, thresholdType) :=
              if bool_decide (a_ExtraParameters a = "") then ("", "", "")
              else trigger_params (a_ExtraParameters a) in
            if bool_decide (groupID ≠ "") then Ok (same_string (at_ID at_) groupID)
            else if bool_decide (uniqueID ≠ "") then Ok (same_string (at_UniqueID at_) uniqueID)
            else if bool_decide (thresholdType = "") || same_string (at_ThresholdType at_) thresholdType
            then
              b ← CreateBalance acc_now (at_Balance at_);
              Ok (MatchFilter b (Some bf) false false)
            else Ok false
      end
  end.

Definition at_set_Executed (e : bool) (t : ActionTrigger) : ActionTrigger :=
  mkTrigger (at_ID t) (at_UniqueID t) (at_ThresholdType t) (at_ThresholdValue t) (at_Recurrent t)
    (at_MinSleep t) (at_ExpirationDate t) (at_ActivationDate t) (at_Balance t) (at_Weight t)
    (at_ActionsID t) (at_MinQueuedItems t) e (at_LastExecutionTime t).
Definition at_set_Recurrent (r : bool) (t : ActionTrigger) : ActionTrigger :=
  mkTrigger (at_ID t) (at_UniqueID t) (at_ThresholdType t) (at_ThresholdValue t) r
    (at_MinSleep t) (at_ExpirationDate t) (at_ActivationDate t) (at_Balance t) (at_Weight t)
    (at_ActionsID t) (at_MinQueuedItems t) (at_Executed t) (at_LastExecutionTime t).
Definition at_set_LastExecutionTime (x : Time) (t : ActionTrigger) : ActionTrigger :=
  mkTrigger (at_ID t) (at_UniqueID t) (at_ThresholdType t) (at_ThresholdValue t) (at_Recurrent t)
    (at_MinSleep t) (at_ExpirationDate t) (at_ActivationDate t) (at_Balance t) (at_Weight t)
    (at_ActionsID t) (at_MinQueuedItems t) (at_Executed t) x.
Definition at_set_Balance (b : option BalanceFilter) (t : ActionTrigger) : ActionTrigger :=
  mkTrigger (at_ID t) (at_UniqueID t) (at_ThresholdType t) (at_ThresholdValue t) (at_Recurrent t)
    (at_MinSleep t) (at_ExpirationDate t) (at_ActivationDate t) b (at_Weight t)
    (at_ActionsID t) (at_MinQueuedItems t) (at_Executed t) (at_LastExecutionTime t).

(** The removals of [CleanExpiredStuff]: the index moves on also after a removal. *)
Fixpoint clean_slice (fuel i : nat) (s : slice_of) : M slice_of :=
  match fuel with
  | O => mret s
  | S fuel =>
      if (i <? sl_len s)%nat then
        l ← slot s i;
        b ← get_balance l;
        s ← (if IsExpiredAt b acc_now then slice_delete s i else mret s);
        clean_slice fuel (S i) s
      else mret s
  end.
Fixpoint clean_triggers (fuel i : nat) (l : list ActionTrigger) : list ActionTrigger :=
  match fuel, l !! i with
  | S fuel, Some t =>
      clean_triggers fuel (S i)
        (if at_IsExpired t acc_now then take i l ++ drop (S i) l else l)
  | _, _ => l
  end.
Definition CleanExpiredStuff : M () :=
  la ← live;
  _ ← (if RemoveExpired then
         visit (λ _ kv,
           bm ← clean_slice (sl_len kv.2) 0 kv.2;
           put_balances kv.1 bm) tt (go_range (default ∅ (la_BalanceMap la)))
       else mret tt);
  on_live (λ la, la_set_ActionTriggers
    (clean_triggers (length (la_ActionTriggers la)) 0 (la_ActionTriggers la)) la).

(** ** The database *)

Definition stored_slice (la : LiveAccount) (s : slice_of) : list Balance :=
  omap (λ x : option nat, match x with
                          | Some l => stored_balance <$> la_balances la !! l
                          | None => None
                          end)
    (take (sl_len s) (default [] (la_arrays la !! sl_array s))).
Definition stored_counter (la : LiveAccount) (l : nat) : option (string * list CounterFilter) :=
  match la_counters la !! l with
  | Some uc => Some (uc_CounterType uc, omap (λ c : nat, la_filters la !! c) (uc_Counters uc))
  | None => None
  end.
Definition stored_full (la : LiveAccount) : FullAccount :=
  mkFull (option_map (fmap (stored_slice la)) (la_BalanceMap la))
    (option_map (fmap (M := gmap string) (omap (M := list) (stored_counter la))) (la_UnitCounters la))
    (la_ActionTriggers la) (la_AllowNegative la) (la_Disabled la).
Definition full_expired (fa : FullAccount) : bool :=
  forallb (λ kv, forallb (λ b, IsExpiredAt b acc_now) kv.2)
    (map_to_list (default ∅ (fa_BalanceMap fa))).

(** An account without balances does not replace one with balances. *)
Definition SetAccount : M () :=
  la ← live;
  match dm_SetAccount_error (la_ID la) with
  | Some _ => mret tt
  | None =>
      on_world (λ w,
        let fa := stored_full la in
        let fa := match w_db w !! la_ID la with
                  | Some ac =>
                      if bool_decide (default ∅ (fa_BalanceMap fa) = ∅) && negb (full_expired ac)
                      then mkFull (fa_BalanceMap ac) (fa_UnitCounters fa) (fa_ActionTriggers fa)
                             (fa_AllowNegative fa) (fa_Disabled fa)
                      else fa
                  | None => fa
                  end in
        w_set_db (<[la_ID la := fa]> (w_db w)) w)
  end.

Definition next_uuid : M string := λ st,
  let w := as_world st in
  (Ok (GenUUID (w_uuids w)),
   mkActionState (as_live st) (mkWorld (w_actions w) (w_db w) (w_groups w) (S (w_uuids w)))).

(** The account becomes a member of the shared groups of a balance. *)
Definition join_groups (groups : StringMap) : M () :=
  la ← live;
  visit (λ _ sgID,
    if shared_group_error sgID then mret tt
    else
      on_world (λ w,
        match w_groups w !! sgID with
        | None => w
        | Some sg =>
            if StringMap_HasKey (sg_MemberIds sg) (la_ID la) then w
            else w_set_groups (<[sgID := mkSharedGroup (sg_Id sg) (sg_AccountParameters sg)
                   (Some (<[la_ID la := true]> (sm_entries (sg_MemberIds sg))))]> (w_groups w)) w
        end)) tt (range_keys (sm_entries groups)).

(** ** The actions

    [exec] is [ExecuteActionTriggers], which they call at their end. *)
Section with_triggers.
Context (exec : option Action → M ()).

Definition with_value (a : Action) (v : float64) : Action :=
  mkAction (a_Id a) (a_ActionType a) (a_ExtraParameters a) (a_Filter a) (a_ExpirationString a)
    (a_Weight a) (a_Balance a) v.
Definition with_filter (a : Action) (bf : option BalanceFilter) : Action :=
  mkAction (a_Id a) (a_ActionType a) (a_ExtraParameters a) (a_Filter a) (a_ExpirationString a)
    (a_Weight a) bf (a_balanceValue a).

Definition debit_matching (a : Action) (amount : float64) (reset resetIfNegative : bool)
    (acc : bool * Action) (l : nat) : M (bool * Action) :=
  b ← get_balance l;
  if IsExpiredAt b acc_now then mret acc
  else
    let b := b_set_account b (Some O) in
    if MatchFilter b (a_Balance a) false false then
      let b := if reset || (resetIfNegative && fltb (b_Value b) f0) then SetValue b f0 else b in
      let b := b_set_dirty (SubstractValue b amount) true in
      _ ← put_balance l b;
      mret (true, with_value (snd acc) (b_Value b))
    else _ ← put_balance l b; mret acc.
Definition visit_balances {B} (s : option slice_of) (body : B → nat → M B) (acc : B) : M B :=
  match s with
  | Some s => visit (λ acc i, l ← slot s i; body acc l) acc (seq 0 (sl_len s))
  | None => mret acc
  end.

(** The balance that is made when none matches. *)
Definition debited_balance (bClone : Balance) : Balance :=
  if same_string (b_ID bClone) MetaDefault then new_balance "" MetaDefault (fneg (b_Value bClone))
  else if feqb (b_Value bClone) f0 then bClone else SetValue bClone (fneg (b_Value bClone)).
Definition with_uuid (b : Balance) (uuid : string) : Balance :=
  mkBalance uuid (b_ID b) (b_Value b) (b_ExpirationDate b) (b_Weight b) (b_DestinationIDs b)
    (b_RatingSubject b) (b_Categories b) (b_SharedGroups b) (b_Timings b) (b_TimingIDs b)
    (b_Disabled b) (b_Factor b) (b_Blocker b) (b_precision b) (b_account b) (b_dirty b).

Definition debitBalanceAction (a : Action) (reset resetIfNegative : bool) : M Action :=
  bClone ← lift (CreateBalance acc_now (a_Balance a));
  _ ← make_BalanceMap;
  let balanceType := bf_GetType (a_Balance a) in
  la ← live;
  '(found, a') ← visit_balances (balances_of la balanceType)
                   (debit_matching a (b_Value bClone) reset resetIfNegative) (false, a);
  a' ← (if (found : bool) then mret a'
        else
          let b := b_set_dirty (debited_balance bClone) true in
          uuid ← next_uuid;
          let b := with_uuid b uuid in
          let b := match factor_params (a_ExtraParameters a) with
                   | Ok vf => if bool_decide (a_ExtraParameters a = "") then b
                              else b_set_Factor b (Some vf)
                   | _ => b
                   end in
          _ ← append_balance balanceType b;
          _ ← join_groups (b_SharedGroups b);
          mret (with_value a' (b_Value b)));
  _ ← InitCounters;
  _ ← exec None;
  mret a'.

(** The first balance, over all types, that is not expired and has the identifier. *)
Fixpoint find_in_slice (p : Balance → bool) (s : slice_of) (idxs : list nat) : M (option nat) :=
  match idxs with
  | [] => mret None
  | i :: idxs =>
      l ← slot s i;
      b ← get_balance l;
      if p b && negb (IsExpiredAt b acc_now) then mret (Some l) else find_in_slice p s idxs
  end.
Fixpoint find_in_map (p : Balance → bool) (m : list (string * slice_of)) : M (option nat) :=
  match m with
  | [] => mret None
  | (_, s) :: m =>
      found ← find_in_slice p s (seq 0 (sl_len s));
      match found with Some l => mret (Some l) | None => find_in_map p m end
  end.

Definition setBalanceAction (a : Action) : M () :=
  _ ← make_BalanceMap;
  la ← live;
  bf ← lift (deref (a_Balance a));
  let bm := go_range (default ∅ (la_BalanceMap la)) in
  '(l, previous) ←
    (if no_ID (bf_Uuid bf) then
       found ← find_in_map (λ b, match bf_ID bf with Some id => same_string (b_ID b) id
                                 | None => false end) bm;
       match found with
       | Some l => b ← get_balance l; mret (l, Some (b_SharedGroups b))
       | None =>
           match bf_Type bf with
           | None => fails "missing balance type"
           | Some typ =>
               uuid ← next_uuid;
               l ← append_balance typ (new_balance uuid "" f0);
               mret (l, None)
           end
       end
     else
       found ← find_in_map (λ b, same_string (b_Uuid b) (bf_GetUuid (a_Balance a))) bm;
       match found with
       | Some l => b ← get_balance l; mret (l, Some (b_SharedGroups b))
       | None => fails ("cannot find balance with uuid: <" +:+ bf_GetUuid (a_Balance a) +:+ ">")
       end);
  b ← get_balance l;
  let b :=
    if match bf_ID bf with Some id => same_string id MetaDefault | None => false end then
      match bf_Value bf with
      | Some _ => b_set_dirty (b_set_Value
          (mkBalance (b_Uuid b) MetaDefault (b_Value b) (b_ExpirationDate b) (b_Weight b)
             (b_DestinationIDs b) (b_RatingSubject b) (b_Categories b) (b_SharedGroups b)
             (b_Timings b) (b_TimingIDs b) (b_Disabled b) (b_Factor b) (b_Blocker b)
             (b_precision b) (b_account b) (b_dirty b)) (bf_GetValue acc_now (a_Balance a))) true
      | None => b
      end
    else ModifyBalance acc_now bf b in
  _ ← put_balance l b;
  _ ← (if match previous with Some sg => StringMap_Equal sg (b_SharedGroups b) | None => false end
       then mret tt else join_groups (b_SharedGroups b));
  _ ← InitCounters;
  exec None.

Definition genericMakeNegative (a : Action) : Action :=
  match a_Balance a with
  | Some bf =>
      let v := bf_GetValue acc_now (a_Balance a) in
      if fgtb v f0 then with_filter a (Some (bf_SetValue (fneg v) bf)) else a
  | None => a
  end.
Definition Action_Clone (a : Action) : res Action :=
  bf ← BalanceFilter_Clone (a_Balance a); Ok (with_value (with_filter a bf) f0).

Definition topup (reset : bool) (a : Action) : M Action :=
  c ← lift (Action_Clone a);
  c' ← debitBalanceAction (genericMakeNegative c) reset false;
  mret (with_value a (a_balanceValue c')).

Fixpoint reset_balances (kinds : list string) : M () :=
  match kinds with
  | [] => mret tt
  | k :: kinds =>
      l ← new_balance_at (new_balance "" "" f0);
      arr ← new_array [Some l];
      _ ← put_balances k (mkSlice arr 1);
      reset_balances kinds
  end.

Fixpoint set_matching (f : ActionTrigger → ActionTrigger) (a : option Action) (idxs : list nat) : M () :=
  match idxs with
  | [] => mret tt
  | i :: idxs =>
      t ← get_trigger i;
      m ← lift (at_Match t a);
      _ ← (if (m : bool) then put_trigger i (f t) else mret tt);
      set_matching f a idxs
  end.
Definition trigger_indices : M (list nat) :=
  gets (λ st, seq 0 (length (la_ActionTriggers (as_live st)))).
Definition ResetActionTriggers (a : option Action) : M () :=
  idxs ← trigger_indices;
  _ ← set_matching (at_set_Executed false) a idxs;
  exec a.
Definition SetRecurrent (a : option Action) (recurrent : bool) : M () :=
  idxs ← trigger_indices; set_matching (at_set_Recurrent recurrent) a idxs.

Definition genericReset : M () :=
  la ← live;
  _ ← reset_balances ((go_range (default ∅ (la_BalanceMap la))).*1);
  _ ← InitCounters;
  ResetActionTriggers None.

(** The removals that do not keep the order: the index stays after a removal. *)
Fixpoint remove_matching (fuel i : nat) (p : Balance → bool) (found : bool) (s : slice_of)
    : M (slice_of * bool) :=
  match fuel with
  | O => mret (s, found)
  | S fuel =>
      if (i <? sl_len s)%nat then
        l ← slot s i;
        b ← get_balance l;
        if p b then s ← slice_swap_out s i; remove_matching fuel i p true s
        else remove_matching fuel (S i) p found s
      else mret (s, found)
  end.
Definition remove_balances (typ : string) (p : Balance → bool) : M () :=
  la ← live;
  match balances_of la typ with
  | None => fails NOT_FOUND
  | Some s =>
      '(s, found) ← remove_matching (sl_len s) 0 p false s;
      _ ← put_balances typ s;
      if (found : bool) then mret tt else fails NOT_FOUND
  end.

Fixpoint default_in (s : slice_of) (idxs : list nat) : M (option nat) :=
  match idxs with
  | [] => mret None
  | i :: idxs => l ← slot s i; b ← get_balance l; if IsDefault b then mret (Some l) else default_in s idxs
  end.
Definition DefaultMoneyBalance : M nat :=
  la ← live;
  found ← match balances_of la MONETARY with
          | Some s => default_in s (seq 0 (sl_len s))
          | None => mret None
          end;
  match found with
  | Some l => mret l
  | None => uuid ← next_uuid; append_balance MONETARY (new_balance uuid MetaDefault f0)
  end.
Definition transferMonetaryDefaultAction (a : Action) : M () :=
  la ← live;
  match balances_of la MONETARY with
  | None => fails NOT_FOUND
  | Some _ =>
      d ← DefaultMoneyBalance;
      range_balances MONETARY (λ l,
        b ← get_balance l;
        db ← get_balance d;
        if negb (same_string (b_Uuid b) (b_Uuid db)) && negb (same_string (b_ID b) (b_ID db)) &&
           MatchFilter b (a_Balance a) false false && fgtb (b_Value b) f0
        then
          _ ← put_balance d (b_set_Value db (fadd (b_Value db) (b_Value b)));
          b ← get_balance l;
          put_balance l (b_set_Value b f0)
        else mret tt)
  end.

Definition set_expiration (b : Balance) (t : Time) : Balance :=
  mkBalance (b_Uuid b) (b_ID b) (b_Value b) t (b_Weight b) (b_DestinationIDs b)
    (b_RatingSubject b) (b_Categories b) (b_SharedGroups b) (b_Timings b) (b_TimingIDs b)
    (b_Disabled b) (b_Factor b) (b_Blocker b) (b_precision b) (b_account b) (b_dirty b).
Definition setExpiryAction (a : Action) : M () :=
  range_balances (bf_GetType (a_Balance a)) (λ l,
    b ← get_balance l;
    if MatchFilter b (a_Balance a) false true
    then put_balance l (set_expiration b (bf_GetExpirationDate (a_Balance a)))
    else mret tt).

Definition remove_account (accID : string) (w : World) : res () * World :=
  if bool_decide (accID = "") then (Err "INVALID_KEY", w)
  else match RemoveAccount_error accID with
       | Some e => (Err e, w)
       | None =>
           (match remove_from_plans_error accID with Some e => Err e | None => Ok tt end,
            w_set_db (delete accID (w_db w)) w)
       end.
Definition removeAccountAction : M () := λ st,
  let '(r, w) := remove_account (la_ID (as_live st)) (as_world st) in
  (r, mkActionState (as_live st) w).

(** The balances of the last charging record are set one by one; errors are logged. *)
Definition summary_filter (s : BalanceSummary) : BalanceFilter :=
  mkBalanceFilter (Some (bs_UUID s)) (Some (bs_ID s)) (Some (bs_Type s))
    (Some (mkValueFormula "" ∅ (bs_Value s))) None None None None None None None []
    (Some (bs_Disabled s)) None None.
Definition resetAccount : M () :=
  la ← live;
  let account := match Split (la_ID la) ":" with [_; a] => a | _ => "" end in
  summaries ← lift (last_summaries account);
  visit (λ _ s,
    _ ← attempt (setBalanceAction
          (mkAction "" "" "" "" "" f0 (Some (summary_filter s)) f0)); mret tt) tt summaries.

(** [publishAccount] and [publishBalance] set the account of the balances first. *)
Definition publish (a : Action) : M () :=
  la ← live;
  _ ← visit (λ _ kv, range_slice kv.2 (λ l,
        b ← get_balance l;
        match b_account b with Some _ => mret tt | None => put_balance l (b_set_account b (Some O)) end))
        tt (go_range (default ∅ (la_BalanceMap la)));
  lift (external_action a (Some (la_ID la))).

(** [getActionFunc]: the function of a type of action, on the account. *)
Definition same (m : Action → M ()) (a : Action) : M Action := _ ← m a; mret a.
Definition external (a : Action) : M () :=
  la ← live; lift (external_action a (Some (la_ID la))).
Definition actionFuncMap : list (string * (Action → M Action)) :=
  [("*log", same external); ("*reset_triggers", same (λ a, ResetActionTriggers (Some a)));
   ("*cdrlog", same external); ("*set_recurrent", same (λ a, SetRecurrent (Some a) true));
   ("*unset_recurrent", same (λ a, SetRecurrent (Some a) false));
   ("*allow_negative", same (λ _, on_live (la_set_AllowNegative true)));
   ("*deny_negative", same (λ _, on_live (la_set_AllowNegative false)));
   ("*reset_account", same (λ _, genericReset));
   ("*topup_reset", λ a, _ ← make_BalanceMap; topup true a); ("*topup", topup false);
   ("*debit_reset", λ a, debitBalanceAction a true false);
   ("*debit", λ a, debitBalanceAction a false false);
   ("*reset_counters", same (λ a,
      la ← live;
      match la_UnitCounters la with Some _ => resetCounters (Some a) | None => mret tt end));
   ("*enable_account", same (λ _, on_live (la_set_Disabled false)));
   ("*disable_account", same (λ _, on_live (la_set_Disabled true)));
   ("*http_post", same external); ("*http_post_async", same external);
   ("*mail_async", same external); ("*set_ddestinations", same external);
   ("*remove_account", same (λ _, removeAccountAction));
   ("*remove_balance", same (λ a, remove_balances (bf_GetType (a_Balance a))
                                    (λ b, MatchFilter b (a_Balance a) false false)));
   ("*set_balance", same setBalanceAction);
   ("*transfer_monetary_default", same transferMonetaryDefaultAction);
   ("*cgr_rpc", same external); ("*topup_zero_negative", λ a, debitBalanceAction a false true);
   ("*set_expiry", same setExpiryAction); ("*publish_account", same publish);
   ("*publish_balance", same publish); ("*amqp_json_map", same external);
   ("*amqpv1_json_map", same external); ("*sqs_json_map", same external);
   ("*kafka_json_map", same external); ("*s3_json_map", same external);
   ("*remove_session_costs", same external);
   ("*remove_expired", same (λ a, remove_balances (bf_GetType (a_Balance a))
                                    (λ b, IsExpiredAt b acc_now)));
   ("*post_event", same external); ("*cdr_account", same (λ _, resetAccount))].
Definition getActionFunc (typ : string) : option (Action → M Action) :=
  snd <$> find (λ kv, same_string kv.1 typ) actionFuncMap.

(** *** Running the actions of an account *)

(** The parts of an action that are set on its shared object before it runs. *)
Definition prepare_action (a : Action) : Action :=
  let bf := default empty_filter (a_Balance a) in
  let bf := if bool_decide (a_ExpirationString a = "") then bf
            else match ParseTimeDetectLayout (a_ExpirationString a) default_timezone with
                 | Ok expDate => with_expiry expDate bf
                 | _ => bf
                 end in
  with_filter a (Some bf).
Definition put_action (id : string) (i : nat) (a : Action) : M () :=
  on_world (λ w, w_set_actions (alter (λ l, <[i := a]> l) id (w_actions w)) w).

(** [matchActionFilter]: a balance of the account fulfils the condition. *)
Fixpoint match_slice (condition typ : string) (s : slice_of) (idxs : list nat) : M bool :=
  match idxs with
  | [] => mret false
  | i :: idxs =>
      l ← slot s i;
      b ← get_balance l;
      check ← lift (condition_match condition typ b);
      if (check : bool) then mret true else match_slice condition typ s idxs
  end.
Fixpoint match_map (condition : string) (m : list (string * slice_of)) : M bool :=
  match m with
  | [] => mret false
  | (typ, s) :: m =>
      found ← match_slice condition typ s (seq 0 (sl_len s));
      if (found : bool) then mret true else match_map condition m
  end.
Definition matchActionFilter (condition : string) : M bool :=
  match condition_error condition with
  | Some e => fails e
  | None => la ← live; match_map condition (go_range (default ∅ (la_BalanceMap la)))
  end.

(** How the loop over the actions ends, and whether the account was removed. *)
Inductive run_end := AllDone | Failed | Unknown.

Fixpoint run_actions (id : string) (idxs : list nat) (removed : bool) : M (run_end * bool) :=
  match idxs with
  | [] => mret (AllDone, removed)
  | i :: idxs =>
      a ← (λ st, (deref (w_actions (as_world st) !! id ≫= λ l, l !! i), st));
      matched ← (if bool_decide (a_Filter a = "") then mret true else matchActionFilter (a_Filter a));
      if negb matched then run_actions id idxs removed
      else
        let a := prepare_action a in
        _ ← put_action id i a;
        match getActionFunc (a_ActionType a) with
        | None => mret (Unknown, removed)
        | Some f =>
            result ← (λ st, match f a st with
                            | (Ok a', st') => (Ok (Some a'), st')
                            | (Err _, st') => (Ok None, st')
                            | (Panic, st') => (Panic, st')
                            end);
            match result with
            | None => mret (Failed, removed)
            | Some a' =>
                _ ← put_action id i a';
                run_actions id idxs (removed || same_string (a_ActionType a) "*remove_account")
            end
        end
  end.

Definition Actions_Less (j i : Action) : bool := fltb (a_Weight i) (a_Weight j).
(** [dm.GetActions] and [aac.Sort()], which sorts the shared slice. *)
Definition sorted_actions (id : string) : M (list nat) :=
  w ← gets as_world;
  match w_actions w !! id with
  | None => fails NOT_FOUND
  | Some l =>
      _ ← on_world (w_set_actions (<[id := go_sort Actions_Less l]> (w_actions w)));
      mret (seq 0 (length l))
  end.

(** A failed action does not keep the account from being saved. *)
Definition at_Execute (i : nat) : M () :=
  t ← get_trigger i;
  if at_Recurrent t && negb (IsZero (at_LastExecutionTime t)) &&
     (Sub acc_now (at_LastExecutionTime t) <? at_MinSleep t)
  then mret tt
  else
    _ ← put_trigger i (at_set_LastExecutionTime acc_now t);
    la ← live;
    if la_Disabled la
    then fails ("User " +:+ la_ID la +:+ " is disabled and there are triggers in action!")
    else
      idxs ← sorted_actions (at_ActionsID t);
      t ← get_trigger i;
      _ ← put_trigger i (at_set_Executed true t);
      '(_, removed) ← run_actions (at_ActionsID t) idxs false;
      t ← get_trigger i;
      _ ← (if at_Recurrent t then put_trigger i (at_set_Executed false t) else mret tt);
      if (removed : bool) then mret tt else SetAccount.
(** The callers do not look at the error. *)
Definition fire (i : nat) : M () := _ ← attempt (at_Execute i); mret tt.

(** ** Scanning the triggers *)

Definition check_counter (i : nat) (at_ : ActionTrigger) (c : nat) : M () :=
  cf ← get_filter c;
  eq ← lift (BalanceFilter_Equal (cf_Filter cf) (at_Balance at_));
  if (eq : bool) && (if HasPrefix (at_ThresholdType at_) "*max"
                     then fgeb (cf_Value cf) (at_ThresholdValue at_)
                     else fleb (cf_Value cf) (at_ThresholdValue at_))
  then fire i else mret tt.
Definition scan_counters (i : nat) : M () :=
  t ← get_trigger i;
  bf ← lift (deref (at_Balance t));
  let t := if negb (match bf_ID bf with Some id => same_string id "" | None => false end) &&
              bool_decide (at_UniqueID t ≠ "")
           then at_set_Balance (Some (with_ID (at_UniqueID t) bf)) t else t in
  _ ← put_trigger i t;
  la ← live;
  visit (λ _ kv, visit (λ _ l,
    uc ← get_counter l;
    kind ← lift (slice (uc_CounterType uc) 1 (slen (uc_CounterType uc)));
    if Contains (at_ThresholdType t) kind
    then visit (λ _ c, check_counter i t c) tt (uc_Counters uc)
    else mret tt) tt kv.2) tt (go_range (default ∅ (la_UnitCounters la))).

Definition check_balance (i : nat) (at_ : ActionTrigger) (l : nat) : M () :=
  b ← get_balance l;
  let kind := at_ThresholdType at_ in
  if negb (b_dirty b) && negb (same_string kind "*balance_expired") then mret tt
  else if (same_string kind "*max_balance" && MatchActionTrigger b at_ &&
             fgeb (b_Value b) (at_ThresholdValue at_)) ||
          (same_string kind "*min_balance" && MatchActionTrigger b at_ &&
             fleb (b_Value b) (at_ThresholdValue at_)) ||
          (same_string kind "*balance_expired" && MatchActionTrigger b at_ && IsExpiredAt b acc_now)
  then fire i else mret tt.
Definition scan_balances (i : nat) : M () :=
  t ← get_trigger i;
  range_balances (bf_GetType (at_Balance t)) (check_balance i t).

Definition scan_trigger (a : option Action) (i : nat) : M () :=
  t ← get_trigger i;
  let kind := at_ThresholdType t in
  if at_IsExpired t acc_now || negb (at_IsActive t acc_now) ||
     (negb (Contains kind "counter") && negb (Contains kind "balance")) || at_Executed t
  then mret tt
  else
    m ← lift (at_Match t a);
    if negb m then mret tt
    else if Contains kind "counter" then scan_counters i else scan_balances i.

Definition scan_triggers (a : option Action) : M () :=
  _ ← on_live (λ la, la_set_ActionTriggers (ActionTriggers_Sort (la_ActionTriggers la)) la);
  idxs ← trigger_indices;
  _ ← visit (λ _ i, scan_trigger a i) tt idxs;
  CleanExpiredStuff.
(** The flag is cleared however the scan ends. *)
Definition flagged (m : M ()) : M () := λ st,
  let '(r, st') := m (mkActionState (la_set_executing true (as_live st)) (as_world st)) in
  (r, mkActionState (la_set_executing false (as_live st')) (as_world st')).
Definition execute_triggers (a : option Action) : M () :=
  la ← live;
  if la_executingTriggers la then mret tt else flagged (scan_triggers a).
End with_triggers.

(** An action that a trigger runs finds [executingTriggers] set and does not scan again. *)
Definition nested (a : option Action) : M () :=
  la ← live; if la_executingTriggers la then mret tt else lift Panic.
Definition ExecuteActionTriggers : option Action → M () := execute_triggers nested.
Definition Account_countUnits (amount : float64) (kind : string) (cc : option CallCost)
    (b : option Balance) : M () :=
  _ ← addUnits amount kind cc b;
  ExecuteActionTriggers None.

(** ** Action timings *)

Definition execute_action_func := getActionFunc ExecuteActionTriggers.

(** The account is read from the database: its balances, counters and filters are new
    objects. *)
Definition load_balances (m : gmap string (list Balance))
    : gmap string slice_of * list Balance * list (list (option nat)) :=
  foldl (λ '(bm, bals, arrs) kv,
    (<[kv.1 := mkSlice (length arrs) (length kv.2)]> bm, bals ++ kv.2,
     arrs ++ [Some <$> seq (length bals) (length kv.2)])) (∅, [], []) (go_range m).
Definition load_unit_counters (m : gmap string (list (string * list CounterFilter)))
    : gmap string (list nat) * list UnitCounter * list CounterFilter :=
  foldl (λ '(ucm, ucs, cfs) kv,
    let '(ls, ucs, cfs) :=
      foldl (λ '(ls, ucs, cfs) uc,
        (ls ++ [length ucs],
         ucs ++ [mkUnitCounter (fst uc) (seq (length cfs) (length (snd uc)))], cfs ++ snd uc))
        ([], ucs, cfs) kv.2 in
    (<[kv.1 := ls]> ucm, ucs, cfs)) (∅, [], []) (go_range m).
Definition load_account (id : string) (fa : FullAccount) : LiveAccount :=
  let '(bm, bals, arrs) := load_balances (default ∅ (fa_BalanceMap fa)) in
  let '(ucm, ucs, cfs) := load_unit_counters (default ∅ (fa_UnitCounters fa)) in
  mkLive id (match fa_BalanceMap fa with Some _ => Some bm | None => None end)
    (match fa_UnitCounters fa with Some _ => Some ucm | None => None end)
    (fa_ActionTriggers fa) (fa_AllowNegative fa) (fa_Disabled fa) false bals arrs ucs cfs.

Record ActionTiming := mkActionTiming {
  atm_Uuid : string; atm_Timing : option RateInterval; atm_ActionsID : string;
  atm_Weight : float64; atm_accountIDs : StringMap; atm_actionPlanID : string;
  atm_stCache : Time }.
Record Task := mkTask { task_Uuid : string; task_AccountID : string; task_ActionsID : string }.
Record ActionPlan := mkActionPlan {
  apl_Id : string; apl_AccountIDs : StringMap; apl_ActionTimings : list ActionTiming }.

Definition ActionTiming_Tasks (t : ActionTiming) : list Task :=
  if bool_decide (size (sm_entries (atm_accountIDs t)) = 0%nat)
  then [mkTask (atm_Uuid t) "" (atm_ActionsID t)]
  else (λ id, mkTask (atm_Uuid t) id (atm_ActionsID t)) <$> range_keys (sm_entries (atm_accountIDs t)).

Definition with_accounts (t : ActionTiming) (m : StringMap) : ActionTiming :=
  mkActionTiming (atm_Uuid t) (atm_Timing t) (atm_ActionsID t) (atm_Weight t) m
    (atm_actionPlanID t) (atm_stCache t).
Definition ActionTiming_RemoveAccountID (t : ActionTiming) (acntID : string) : bool * ActionTiming :=
  match sm_entries (atm_accountIDs t) !! acntID with
  | Some _ => (true, with_accounts t (Some (delete acntID (sm_entries (atm_accountIDs t)))))
  | None => (false, t)
  end.
Definition ActionPlan_RemoveAccountID (p : ActionPlan) (accID : string) : bool * ActionPlan :=
  match sm_entries (apl_AccountIDs p) !! accID with
  | Some _ => (true, mkActionPlan (apl_Id p) (Some (delete accID (sm_entries (apl_AccountIDs p))))
                       (apl_ActionTimings p))
  | None => (false, p)
  end.

(** The accounts, the plan and the next start are not copied. *)
Definition ActionTiming_Clone (t : ActionTiming) : ActionTiming :=
  mkActionTiming (atm_Uuid t) (RateInterval_Clone (atm_Timing t)) (atm_ActionsID t) (atm_Weight t)
    None "" zero_time.
Definition ActionPlan_Clone (p : ActionPlan) : res ActionPlan :=
  ids ← StringMap_Clone (apl_AccountIDs p);
  Ok (mkActionPlan (apl_Id p) ids (ActionTiming_Clone <$> apl_ActionTimings p)).

Definition IsASAP (t : ActionTiming) : res bool :=
  match atm_Timing t with
  | None => Ok false
  | Some i => timing ← deref (ri_Timing i); Ok (same_string (rit_StartTime timing) "*asap")
  end.
Definition TimingWeight_Less (i j : ActionTiming) : bool := fgtb (atm_Weight i) (atm_Weight j).
Definition TimingWeight_Sort (l : list ActionTiming) : list ActionTiming := go_sort TimingWeight_Less l.

(** One account of a timing: it is saved when all actions succeed and none removes it. *)
Definition execute_loaded (actionsID : string) (idxs : list nat) : M run_end :=
  '(e, removed) ← run_actions ExecuteActionTriggers actionsID idxs false;
  _ ← match e with
      | AllDone => if (removed : bool) then mret tt else SetAccount
      | _ => mret tt
      end;
  mret e.
Definition execute_for (actionsID accID : string) (idxs : list nat) (w : World)
    : res (option run_end) * World :=
  match dm_GetAccount_error accID, w_db w !! accID with
  | Some _, _ | None, None => (Ok None, w)
  | None, Some fa =>
      let '(r, st) := execute_loaded actionsID idxs (mkActionState (load_account accID fa) w) in
      (match r with Ok e => Ok (Some e) | Err _ => Ok None | Panic => Panic end, as_world st)
  end.

Definition ended_badly (e : option run_end) : bool :=
  match e with Some Failed | Some Unknown => true | _ => false end.
Definition is_unknown (e : option run_end) : bool :=
  match e with Some Unknown => true | _ => false end.

(** Without accounts an action that needs one fails. *)
Definition without_account (a : Action) (w : World) : res () * World :=
  if same_string (a_ActionType a) "*remove_account" then
    match (if bool_decide (a_ExtraParameters a = "") then Ok ("", "")
           else account_params (a_ExtraParameters a)) with
    | Ok (tenant, account) => remove_account (ConcatenatedKey [tenant; account]) w
    | Err e => (Err e, w)
    | Panic => (Panic, w)
    end
  else if bool_decide (a_ActionType a ∈ ["*log"; "*cdrlog"; "*http_post"; "*http_post_async";
       "*mail_async"; "*cgr_rpc"; "*amqp_json_map"; "*amqpv1_json_map"; "*sqs_json_map";
       "*kafka_json_map"; "*s3_json_map"; "*remove_session_costs"; "*post_event"])
  then (external_action a None, w)
  else if same_string (a_ActionType a) "*set_ddestinations" then (Panic, w)
  else (Err "nil account", w).
(** The expiry is set in the filter even when there is none. *)
Definition prepare_accountless (a : Action) : res Action :=
  match ParseTimeDetectLayout (a_ExpirationString a) default_timezone with
  | Ok expDate =>
      if match a_Balance a with Some bf => EmptyExpirationDate bf | None => true end &&
         negb (IsZero expDate)
      then bf ← deref (a_Balance a); Ok (with_filter a (Some (with_expiry expDate bf)))
      else Ok a
  | _ => Ok a
  end.
Fixpoint run_accountless (id : string) (idxs : list nat) (w : World) : res run_end * World :=
  match idxs with
  | [] => (Ok AllDone, w)
  | i :: idxs =>
      match (a ← deref (w_actions w !! id ≫= λ l, l !! i); prepare_accountless a) with
      | Ok a =>
          let w := w_set_actions (alter (λ l, <[i := a]> l) id (w_actions w)) w in
          match getActionFunc ExecuteActionTriggers (a_ActionType a) with
          | None => (Ok Unknown, w)
          | Some _ =>
              match without_account a w with
              | (Ok _, w) => run_accountless id idxs w
              | (Err _, w) => (Ok Failed, w)
              | (Panic, w) => (Panic, w)
              end
          end
      | _ => (Panic, w)
      end
  end.

(** The accounts of the timing, one after the other; an error with one of them is not
    reported. *)
Fixpoint run_accounts (id : string) (accs : list string) (idxs : list nat)
    (partially unknown : bool) (w : World) : res (bool * bool) * World :=
  match accs with
  | [] => (Ok (partially, unknown), w)
  | accID :: accs =>
      match execute_for id accID idxs w with
      | (Ok e, w) => run_accounts id accs idxs (partially || ended_badly e) (unknown || is_unknown e) w
      | (Err e, w) => (Err e, w)
      | (Panic, w) => (Panic, w)
      end
  end.

Definition without_timing (t : ActionTiming) : ActionTiming :=
  mkActionTiming (atm_Uuid t) None (atm_ActionsID t) (atm_Weight t) (atm_accountIDs t)
    (atm_actionPlanID t) (atm_stCache t).
Definition ResetStartTimeCache (t : ActionTiming) : ActionTiming :=
  mkActionTiming (atm_Uuid t) (atm_Timing t) (atm_ActionsID t) (atm_Weight t) (atm_accountIDs t)
    (atm_actionPlanID t) zero_time.
Definition ErrPartiallyExecuted : string := "PARTIALLY_EXECUTED".

(** An unknown type of action also takes the timing away, so that it is not scheduled
    again. *)
Definition ActionTiming_Execute (t : ActionTiming) (w : World) : res () * ActionTiming * World :=
  let t := ResetStartTimeCache t in
  match w_actions w !! atm_ActionsID t with
  | None => (Err NOT_FOUND, t, w)
  | Some l =>
      let w := w_set_actions (<[atm_ActionsID t := go_sort Actions_Less l]> (w_actions w)) w in
      let idxs := seq 0 (length l) in
      let accs := range_keys (sm_entries (atm_accountIDs t)) in
      let '(r, w) :=
        match accs with
        | [] =>
            match run_accountless (atm_ActionsID t) idxs w with
            | (Ok e, w) => (Ok (ended_badly (Some e), is_unknown (Some e)), w)
            | (Err e, w) => (Err e, w)
            | (Panic, w) => (Panic, w)
            end
        | _ => run_accounts (atm_ActionsID t) accs idxs false false w
        end in
      match r with
      | Ok (partially, unknown) =>
          (if (partially : bool) then Err ErrPartiallyExecuted else Ok tt,
           if (unknown : bool) then without_timing t else t, w)
      | Err e => (Err e, t, w)
      | Panic => (Panic, t, w)
      end
  end.

(** A task is a timing of one account; the next start and the plan are not set. *)
Definition Task_Execute (t : Task) (w : World) : res () * World :=
  let '(r, _, w) := ActionTiming_Execute (mkActionTiming (task_Uuid t) None (task_ActionsID t) f0
                      (Some {[task_AccountID t := true]}) "" zero_time) w in
  (r, w).
Definition ErrPrefixNotFound (field : string) : string := "NOT_FOUND:" +:+ field.
Definition Task_FieldAsString (t : Task) (fldPath : list string) : res string :=
  match fldPath with
  | [] => Ok ""
  | first :: rest =>
      match (if bool_decide (first = "*act") then rest else []) with
      | [] => Err (ErrPrefixNotFound (Join fldPath "."))
      | field :: _ =>
          if bool_decide (field = "UUID") then Ok (task_Uuid t)
          else if bool_decide (field = "AccountID") then Ok (task_AccountID t)
          else if bool_decide (field = "ActionsID") then Ok (task_ActionsID t)
          else Err (ErrPrefixNotFound (Join fldPath "."))
      end
  end.
End actions.
