(* ===== verification/ActionLaws.v ===== *)
(** * What the actions of an account do

    Theorems about [AccountActions]: that a trigger cannot start another one, so that one
    level of the recursion is the whole of it; that a failing action leaves the stored
    account alone when there are no triggers; what a debit or a top-up does to the
    balances; and concrete accounts where triggers fire more than once or not at all. *)
From S2P Require Import Prelude GoFloat GoStrings GoTime CoreUtils Collections Values RateInterval CallDescriptor RatingProfile CallCost Stateful Balances Accounts UnitCounters AccountActions.

#[local] Abbreviation M := (SM ActionState).

(** ** What every operation keeps *)

Definition flag (st : ActionState) : bool := la_executingTriggers (as_live st).
Definition triggers (st : ActionState) : list ActionTrigger := la_ActionTriggers (as_live st).

(** The flag, the name of the account, the database, and that there are no triggers. *)
Record quiet_step (st st' : ActionState) : Prop := {
  q_flag : flag st' = flag st;
  q_id : la_ID (as_live st') = la_ID (as_live st);
  q_db : w_db (as_world st') = w_db (as_world st);
  q_triggers : triggers st = [] → triggers st' = [] }.
#[export] Instance quiet_step_PreOrder : PreOrder quiet_step.
Proof.
  split; [by intros st|]. intros x y z [E1 E2 E3 E4] [F1 F2 F3 F4]. split; [congruence..|auto].
Qed.

Section quiet.
Context `{GoRuntime, GoText, AccountData, RatingData, ActionData}.
Context (R : relation ActionState) `{!PreOrder R}.
Context (Hq : ∀ st st', quiet_step st st' → R st st').

Lemma along_quiet {A} (m : M A) : (∀ st, quiet_step st (m st).2) → along R m.
Proof. intros Hm st. apply Hq, Hm. Qed.

Lemma along_visit_each {A B} (f : B → A → M B) l : ∀ acc,
  (∀ b x, along R (f b x)) → along R (visit f acc l).
Proof.
  induction l as [|x l IH]; intros acc Hf; simpl; [apply along_ret, _|].
  apply along_bind; [apply _|apply Hf|]. intros b. by apply IH.
Qed.

(** Goes through a computation; a step that changes one field is compared with the state
    before it. *)
Ltac one_step :=
  apply along_quiet; intros [? ?]; split; [done..|]; unfold triggers; simpl; try done;
  try (by intros ->).
Ltac quietly :=
  repeat match goal with
    | |- along _ (mbind _ _) => apply along_bind; [apply _| |intros ?]
    | |- along _ (visit _ _ _) => apply along_visit_each; intros ? ?
    | |- along _ (attempt _) => apply along_attempt
    | |- along _ (lift _) => apply along_lift, _
    | |- along _ (fails _) => apply along_lift, _
    | |- along _ (mret _) => apply along_ret, _
    | |- along _ (gets _) => apply along_gets, _
    | |- along _ (match ?x with _ => _ end) => destruct x
    | |- along _ _ => solve [auto with along]
    | |- along _ _ => solve [one_step]
    end.

Lemma along_slice_append s x : along R (slice_append s x).
Proof. unfold slice_append. quietly. Qed.
Lemma along_append_balance typ b : along R (append_balance typ b).
Proof. unfold append_balance. quietly; apply along_slice_append. Qed.
Lemma along_range_slice s body : (∀ l, along R (body l)) → along R (range_slice s body).
Proof. intros Hb. unfold range_slice. quietly; apply Hb. Qed.
Lemma along_range_balances typ body : (∀ l, along R (body l)) → along R (range_balances typ body).
Proof. intros Hb. unfold range_balances. quietly; by apply along_range_slice. Qed.
Lemma along_visit_balances {B} s (body : B → nat → M B) acc :
  (∀ b l, along R (body b l)) → along R (visit_balances s body acc).
Proof. intros Hb. unfold visit_balances. quietly; apply Hb. Qed.

Lemma along_resetCounters a : along R (resetCounters a).
Proof. unfold resetCounters. quietly. Qed.
Lemma along_HasCounter cfs f : along R (HasCounter cfs f).
Proof. induction cfs; simpl; quietly. Qed.
Lemma along_init_counter m t : along R (init_counter m t).
Proof. unfold init_counter, counter_for. quietly; apply along_HasCounter. Qed.
Lemma along_copy_value c olds : along R (copy_value c olds).
Proof. induction olds; simpl; quietly. Qed.
Lemma along_copy_from l olds : along R (copy_from l olds).
Proof. induction olds; simpl; unfold CopyCounterValues; quietly; apply along_copy_value. Qed.
Lemma along_InitCounters : along R InitCounters.
Proof.
  unfold InitCounters. quietly; [apply along_init_counter|apply along_copy_from|].
  apply along_quiet. intros st. split; unfold flag, triggers; simpl; first [done|by case_match].
Qed.
Lemma along_join_groups g : along R (join_groups g).
Proof.
  unfold join_groups. quietly; apply along_quiet. intros st.
  split; unfold triggers; simpl; by repeat case_match.
Qed.
#[local] Hint Resolve along_append_balance along_InitCounters along_join_groups
  along_resetCounters : along.

(** ** The actions *)

Context (exec : option Action → M ()) (Hexec : ∀ a, along R (exec a)).
#[local] Hint Resolve Hexec : along.

Lemma along_debit_balances s a v r n acc : along R (visit_balances s (debit_matching a v r n) acc).
Proof. apply along_visit_balances. intros ? ?. unfold debit_matching. quietly. Qed.
#[local] Hint Resolve along_debit_balances : along.
Lemma along_debitBalanceAction a r n : along R (debitBalanceAction exec a r n).
Proof. unfold debitBalanceAction. quietly. Qed.
Lemma along_find_in_slice p s idxs : along R (find_in_slice p s idxs).
Proof. induction idxs; simpl; quietly. Qed.
Lemma along_find_in_map p m : along R (find_in_map p m).
Proof. induction m as [|[? ?] m IH]; simpl; quietly; apply along_find_in_slice. Qed.
#[local] Hint Resolve along_debitBalanceAction along_find_in_map : along.
Lemma along_setBalanceAction a : along R (setBalanceAction exec a).
Proof. unfold setBalanceAction. quietly. Qed.
Lemma along_set_matching f a idxs : along R (set_matching f a idxs).
Proof. induction idxs; simpl; quietly. Qed.
Lemma along_reset_balances kinds : along R (reset_balances kinds).
Proof. induction kinds; simpl; quietly. Qed.
#[local] Hint Resolve along_setBalanceAction along_set_matching along_reset_balances : along.
Lemma along_ResetActionTriggers a : along R (ResetActionTriggers exec a).
Proof. unfold ResetActionTriggers. quietly. Qed.
#[local] Hint Resolve along_ResetActionTriggers : along.
Lemma along_remove_matching p s : ∀ fuel i found, along R (remove_matching fuel i p found s).
Proof. intros fuel. revert s. induction fuel; intros; simpl; unfold slice_swap_out; quietly. Qed.
Lemma along_remove_balances typ p : along R (remove_balances typ p).
Proof. unfold remove_balances. quietly; apply along_remove_matching. Qed.
Lemma along_default_in s idxs : along R (default_in s idxs).
Proof. induction idxs; simpl; quietly. Qed.
#[local] Hint Resolve along_remove_balances along_default_in : along.
Lemma along_transfer a : along R (transferMonetaryDefaultAction a).
Proof.
  unfold transferMonetaryDefaultAction, DefaultMoneyBalance. quietly.
  apply along_range_balances. intros. quietly.
Qed.
Lemma along_setExpiry a : along R (setExpiryAction a).
Proof. unfold setExpiryAction. apply along_range_balances. intros. quietly. Qed.
Lemma along_publish a : along R (publish a).
Proof. unfold publish. quietly; apply along_range_slice. intros. quietly. Qed.
Lemma along_resetAccount : along R (resetAccount exec).
Proof. unfold resetAccount. quietly. Qed.
#[local] Hint Resolve along_transfer along_setExpiry along_publish along_resetAccount : along.

(** Every action, with the removal of the account apart. *)
Lemma along_getActionFunc typ f :
  (typ = "*remove_account" → along R removeAccountAction) →
  getActionFunc exec typ = Some f → ∀ a, along R (f a).
Proof.
  intros Hrem Hf a. unfold getActionFunc in Hf.
  destruct (find _ _) as [[k g]|] eqn:E; [|done]. simpl in Hf. injection Hf as ->.
  apply find_some in E as [Hin Ek]. apply bool_decide_eq_true in Ek. simpl in Ek. subst k.
  unfold actionFuncMap, same, external, topup, genericReset, SetRecurrent in Hin. simpl in Hin.
  repeat (destruct Hin as [Hin|Hin];
    [injection Hin; intros Ef Et; clear Hin; subst f;
     try (symmetry in Et; specialize (Hrem Et)); quietly; auto|]).
  done.
Qed.

Lemma along_match_slice c typ s idxs : along R (match_slice c typ s idxs).
Proof. induction idxs; simpl; quietly. Qed.
Lemma along_matchActionFilter c : along R (matchActionFilter c).
Proof.
  unfold matchActionFilter. quietly. induction (go_range _) as [|[? ?] m IH]; simpl; quietly.
  apply along_match_slice.
Qed.
#[local] Hint Resolve along_matchActionFilter : along.

(** A run of actions, for which the removal of the account must keep the relation when one
    of them is that. *)
Lemma along_run_actions id idxs removed :
  along R removeAccountAction → along R (run_actions exec id idxs removed).
Proof.
  intros Hrem. revert removed. induction idxs as [|i idxs IH]; intros removed; simpl; [quietly|].
  apply along_bind; [apply _|one_step|]. intros a.
  apply along_bind; [apply _|quietly|]. intros matched. destruct (negb matched); [apply IH|].
  apply along_bind; [apply _|quietly|]. intros _.
  destruct (getActionFunc exec _) as [f|] eqn:Ef; [|quietly].
  apply along_bind; [apply _| |].
  - intros st. pose proof (along_getActionFunc _ f (λ _, Hrem) Ef (prepare_action a) st) as Hf.
    by destruct (f _ st) as [[a'|e|] st'].
  - intros [a'|]; quietly.
Qed.

Context (Hrem : along R removeAccountAction) (Hset : along R SetAccount).
#[local] Hint Resolve along_run_actions Hrem Hset : along.

Lemma along_fire i : along R (fire exec i).
Proof. unfold fire, at_Execute, sorted_actions. quietly. Qed.
#[local] Hint Resolve along_fire : along.
Lemma along_scan_trigger a i : along R (scan_trigger exec a i).
Proof.
  unfold scan_trigger, scan_counters, check_counter, scan_balances. quietly.
  apply along_range_balances. intros. unfold check_balance. quietly.
Qed.
Lemma along_clean_slice fuel : ∀ i s, along R (clean_slice fuel i s).
Proof. induction fuel; intros; simpl; unfold slice_delete; quietly. Qed.
Lemma along_CleanExpiredStuff : along R CleanExpiredStuff.
Proof.
  unfold CleanExpiredStuff. quietly. apply along_clean_slice.
Qed.
#[local] Hint Resolve along_scan_trigger along_CleanExpiredStuff : along.
Lemma along_scan_triggers a : along R (scan_triggers exec a).
Proof.
  unfold scan_triggers. quietly. apply along_quiet. intros st. split; [done..|].
  unfold triggers. simpl. intros ->. apply length_zero_iff_nil.
  unfold ActionTriggers_Sort. by rewrite go_sort_length.
Qed.
End quiet.

(** ** Triggers do not start each other *)

Definition same_flag (st st' : ActionState) : Prop := flag st' = flag st.
#[export] Instance same_flag_PreOrder : PreOrder same_flag.
Proof. split; [by intros st|]. intros x y z. unfold same_flag. congruence. Qed.
Lemma quiet_same_flag st st' : quiet_step st st' → same_flag st st'.
Proof. apply q_flag. Qed.

Create HintDb agree.

(** Two computations that agree while the flag is set. *)
Definition agree {A} (m1 m2 : M A) : Prop := ∀ st, flag st = true → m1 st = m2 st.

Section agreement.
Context `{GoRuntime, GoText, AccountData, RatingData, ActionData}.

Lemma along_removeAccount (R : relation ActionState) `{!PreOrder R} :
  (∀ st, R st (mkActionState (as_live st) (w_set_db
     (delete (la_ID (as_live st)) (w_db (as_world st))) (as_world st)))) →
  along R removeAccountAction.
Proof.
  intros Hd st. unfold removeAccountAction, remove_account.
  case_bool_decide; [by destruct st|]. destruct (RemoveAccount_error _); [by destruct st|apply Hd].
Qed.

Lemma agree_refl {A} (m : M A) : agree m m.
Proof. by intros st. Qed.
Lemma agree_bind {A B} (m1 m2 : M A) (f1 f2 : A → M B) :
  along same_flag m1 → agree m1 m2 → (∀ a, agree (f1 a) (f2 a)) → agree (m1 ≫= f1) (m2 ≫= f2).
Proof.
  intros Hm Hag Hf st Hst. specialize (Hm st). unfold same_flag in Hm.
  unfold mbind, SM_bind. rewrite <- (Hag st Hst).
  destruct (m1 st) as [[a|e|] st']; [|done..]. apply Hf. simpl in Hm. congruence.
Qed.
Lemma agree_visit {A B} (f1 f2 : B → A → M B) l : ∀ acc,
  (∀ b x, along same_flag (f1 b x)) → (∀ b x, agree (f1 b x) (f2 b x)) →
  agree (visit f1 acc l) (visit f2 acc l).
Proof.
  induction l as [|x l IH]; intros acc Hal Hag; simpl; [apply agree_refl|].
  apply agree_bind; auto.
Qed.
Lemma agree_attempt {A} (m1 m2 : M A) : agree m1 m2 → agree (attempt m1) (attempt m2).
Proof. intros Hag st Hst. unfold attempt. by rewrite Hag. Qed.

Context (exec1 exec2 : option Action → M ()).
Context (Hflag : ∀ a, along same_flag (exec1 a)) (Hag : ∀ a, agree (exec1 a) (exec2 a)).

Lemma flag_step {A} (m : M A) : (∀ st, flag (m st).2 = flag st) → along same_flag m.
Proof. intros Hm st. apply Hm. Qed.
#[local] Hint Resolve quiet_same_flag Hflag : along.
#[local] Hint Extern 1 (PreOrder same_flag) => apply _ : along.
#[local] Hint Resolve along_append_balance along_InitCounters along_join_groups
  along_resetCounters along_debit_balances along_debitBalanceAction along_find_in_map along_setBalanceAction
  along_set_matching along_reset_balances along_ResetActionTriggers along_matchActionFilter
  : along.
Ltac same_flags :=
  repeat match goal with
    | |- along _ (mbind _ _) => apply along_bind; [apply _| |intros ?]
    | |- along _ (visit _ _ _) => apply (along_visit_each same_flag); intros ? ?
    | |- along _ (attempt _) => apply along_attempt
    | |- along _ (match ?x with _ => _ end) => destruct x
    | |- along _ _ => solve [auto with along]
    | |- along _ _ => solve [apply flag_step; by intros [? ?]]
    end.
Ltac agrees :=
  repeat match goal with
    | |- agree ?m ?m => apply agree_refl
    | |- agree (mbind _ _) (mbind _ _) => apply agree_bind; [solve [same_flags]| |intros ?]
    | |- agree (visit _ _ _) (visit _ _ _) => apply agree_visit; intros ? ?; [solve [same_flags]|]
    | |- agree (attempt _) (attempt _) => apply agree_attempt
    | |- agree (match ?x with _ => _ end) _ => destruct x
    | |- agree _ _ => solve [auto with agree]
    end.
#[local] Hint Resolve Hag : agree.

Lemma agree_debit a r n : agree (debitBalanceAction exec1 a r n) (debitBalanceAction exec2 a r n).
Proof.
  unfold debitBalanceAction. agrees.
Qed.
#[local] Hint Resolve agree_debit : agree.
Lemma agree_setBalance a : agree (setBalanceAction exec1 a) (setBalanceAction exec2 a).
Proof. unfold setBalanceAction. agrees. Qed.
#[local] Hint Resolve agree_setBalance : agree.
Lemma agree_Reset a : agree (ResetActionTriggers exec1 a) (ResetActionTriggers exec2 a).
Proof. unfold ResetActionTriggers. agrees. Qed.
#[local] Hint Resolve agree_Reset : agree.

(** Both lists of functions have the same types of actions. *)
Lemma agree_getActionFunc typ :
  match getActionFunc exec1 typ, getActionFunc exec2 typ with
  | Some f1, Some f2 => ∀ a, agree (f1 a) (f2 a)
  | None, None => True
  | _, _ => False
  end.
Proof.
  unfold getActionFunc, actionFuncMap, same, topup, genericReset, resetAccount. simpl.
  repeat match goal with
    | |- context [if same_string ?x typ then _ else _] =>
        destruct (same_string x typ); [simpl; intros a; agrees|]
    end.
  done.
Qed.

Lemma flag_removeAccount : along same_flag removeAccountAction.
Proof. by apply along_removeAccount; [apply _|]. Qed.
Lemma flag_SetAccount : along same_flag SetAccount.
Proof. unfold SetAccount. same_flags. Qed.
#[local] Hint Resolve flag_removeAccount flag_SetAccount along_run_actions along_fire : along.

Lemma agree_run_actions id idxs : ∀ removed,
  agree (run_actions exec1 id idxs removed) (run_actions exec2 id idxs removed).
Proof.
  induction idxs as [|i idxs IH]; intros removed; simpl; [apply agree_refl|].
  apply agree_bind; [same_flags|apply agree_refl|]. intros a.
  apply agree_bind; [same_flags|apply agree_refl|]. intros matched.
  destruct (negb matched); [apply IH|].
  apply agree_bind; [same_flags|apply agree_refl|]. intros _.
  pose proof (agree_getActionFunc (a_ActionType (prepare_action a))) as Hf.
  pose proof (along_getActionFunc same_flag quiet_same_flag exec1 Hflag
    (a_ActionType (prepare_action a))) as Hf1.
  destruct (getActionFunc exec1 _) as [f1|], (getActionFunc exec2 _) as [f2|]; try done.
  specialize (Hf1 f1 (λ _, flag_removeAccount) eq_refl).
  apply agree_bind.
  - intros st. specialize (Hf1 (prepare_action a) st). by destruct (f1 _ st) as [[?|?|] ?].
  - intros st Hst. by rewrite (Hf _ st Hst).
  - intros [a'|]; agrees.
Qed.
#[local] Hint Resolve agree_run_actions : agree.
Lemma agree_fire i : agree (fire exec1 i) (fire exec2 i).
Proof. unfold fire, at_Execute, sorted_actions. agrees. Qed.
#[local] Hint Resolve agree_fire : agree.
Lemma agree_scan_trigger a i : agree (scan_trigger exec1 a i) (scan_trigger exec2 a i).
Proof.
  unfold scan_trigger, scan_counters, check_counter, scan_balances, range_balances, range_slice,
    check_balance. agrees.
Qed.
Lemma flag_scan_trigger a i : along same_flag (scan_trigger exec1 a i).
Proof.
  apply (along_scan_trigger same_flag quiet_same_flag);
    [done|apply flag_removeAccount|apply flag_SetAccount].
Qed.
#[local] Hint Resolve agree_scan_trigger flag_scan_trigger : agree along.
Lemma agree_scan_triggers a : agree (scan_triggers exec1 a) (scan_triggers exec2 a).
Proof. unfold scan_triggers. agrees. Qed.
End agreement.

(** ** Only the account itself is written *)

Definition own_step (st st' : ActionState) : Prop :=
  la_ID (as_live st') = la_ID (as_live st) ∧
  ∀ k, k ≠ la_ID (as_live st) → w_db (as_world st') !! k = w_db (as_world st) !! k.
#[export] Instance own_step_PreOrder : PreOrder own_step.
Proof.
  split; [by intros st|]. intros x y z [E1 E2] [F1 F2]. split; [congruence|].
  intros k Hk. rewrite F2, E2; congruence.
Qed.
Lemma quiet_own_step st st' : quiet_step st st' → own_step st st'.
Proof. intros [_ E D _]. split; [done|]. intros k _. by rewrite D. Qed.

(** Without triggers nothing is stored: the database only loses accounts. *)
Definition store_step (st st' : ActionState) : Prop :=
  triggers st = [] → triggers st' = [] ∧ w_db (as_world st') ⊆ w_db (as_world st).
#[export] Instance store_step_PreOrder : PreOrder store_step.
Proof.
  split; [by intros st|]. intros x y z Hxy Hyz Hx. destruct (Hxy Hx) as [Hy D].
  destruct (Hyz Hy) as [Hz D']. split; [done|]. by etrans.
Qed.
Lemma quiet_store_step st st' : quiet_step st st' → store_step st st'.
Proof. intros [_ _ D T] Hst. split; [auto|]. by rewrite D. Qed.

Section stored.
Context `{GoRuntime, GoText, AccountData, RatingData, ActionData}.

Lemma own_removeAccount : along own_step removeAccountAction.
Proof.
  apply along_removeAccount; [apply _|]. intros st. split; [done|]. intros k Hk. simpl.
  by rewrite lookup_delete_ne.
Qed.
Lemma own_SetAccount : along own_step SetAccount.
Proof.
  intros [la w]. unfold SetAccount, live, gets, mbind, SM_bind. simpl.
  destruct (dm_SetAccount_error (la_ID la)); [done|].
  split; [done|]. intros k Hk. simpl. by rewrite lookup_insert_ne.
Qed.
Lemma own_execute exec a : (∀ a, along own_step (exec a)) → along own_step (execute_triggers exec a).
Proof.
  intros Hexec [la w]. unfold execute_triggers, live, gets, mbind, SM_bind. simpl.
  destruct (la_executingTriggers la); [done|]. unfold flagged. simpl.
  pose proof (along_scan_triggers own_step quiet_own_step exec Hexec own_removeAccount
    own_SetAccount a (mkActionState (la_set_executing true la) w)) as Hs.
  by destruct (scan_triggers exec a _) as [r st'].
Qed.
Lemma own_ExecuteActionTriggers a : along own_step (ExecuteActionTriggers a).
Proof.
  apply own_execute. intros b [la w]. unfold nested, live, gets, mbind, SM_bind. simpl.
  by destruct (la_executingTriggers la).
Qed.

Lemma store_removeAccount : along store_step removeAccountAction.
Proof.
  apply along_removeAccount; [apply _|]. intros st Hst. split; [done|]. apply delete_subseteq.
Qed.
(** With no triggers a scan only removes what is expired. *)
Lemma scan_no_triggers exec a st : triggers st = [] →
  scan_triggers exec a st =
  CleanExpiredStuff (mkActionState (la_set_ActionTriggers [] (as_live st)) (as_world st)).
Proof.
  intros E. unfold triggers in E.
  assert (ActionTriggers_Sort (la_ActionTriggers (as_live st)) = []) as Es.
  { apply length_zero_iff_nil. unfold ActionTriggers_Sort. by rewrite go_sort_length, E. }
  unfold scan_triggers, on_live, modify, mbind, SM_bind. by rewrite Es.
Qed.
Lemma store_ExecuteActionTriggers a : along store_step (ExecuteActionTriggers a).
Proof.
  intros [la w] Ht. unfold ExecuteActionTriggers, execute_triggers, live, gets, mbind, SM_bind.
  simpl. destruct (la_executingTriggers la); [done|]. unfold flagged.
  rewrite scan_no_triggers by done. cbn -[CleanExpiredStuff].
  pose proof (along_CleanExpiredStuff store_step quiet_store_step (mkActionState
    (la_set_ActionTriggers [] (la_set_executing true la)) w) eq_refl) as Hs.
  by destruct (CleanExpiredStuff _) as [r st'].
Qed.

(** ** The account of a timing *)

Lemma own_execute_loaded actionsID idxs : along own_step (execute_loaded actionsID idxs).
Proof.
  apply along_bind; [apply _| |].
  - apply (along_run_actions own_step quiet_own_step);
      [apply own_ExecuteActionTriggers|apply own_removeAccount].
  - intros [e removed]. apply along_bind; [apply _| |intros _; apply along_ret, _].
    destruct e, removed; try apply along_ret, _. apply own_SetAccount.
Qed.
Lemma load_account_ID id fa : la_ID (load_account id fa) = id.
Proof.
  unfold load_account. by destruct (load_balances _) as [[??]?], (load_unit_counters _) as [[??]?].
Qed.
Lemma load_account_triggers id fa : la_ActionTriggers (load_account id fa) = fa_ActionTriggers fa.
Proof.
  unfold load_account. by destruct (load_balances _) as [[??]?], (load_unit_counters _) as [[??]?].
Qed.

Lemma execute_for_own actionsID accID idxs w k :
  k ≠ accID → w_db (execute_for actionsID accID idxs w).2 !! k = w_db w !! k.
Proof.
  intros Hk. unfold execute_for. destruct (dm_GetAccount_error accID); [done|].
  destruct (w_db w !! accID) as [fa|]; [|done].
  pose proof (own_execute_loaded actionsID idxs (mkActionState (load_account accID fa) w)) as [_ Hs].
  destruct (execute_loaded _ _ _) as [r st']. apply Hs. simpl. by rewrite load_account_ID.
Qed.
Lemma run_accounts_own id idxs k : ∀ accs p u w, k ∉ accs →
  w_db (run_accounts id accs idxs p u w).2 !! k = w_db w !! k.
Proof.
  induction accs as [|accID accs IH]; intros p u w Hk; [done|]. simpl.
  apply not_elem_of_cons in Hk as [Hk Hks].
  pose proof (execute_for_own id accID idxs w k Hk) as Hf.
  destruct (execute_for id accID idxs w) as [[e|e|] w']; simpl in *; [|done..].
  by rewrite IH.
Qed.
Lemma without_account_db a w : w_db (without_account a w).2 ⊆ w_db w.
Proof.
  unfold without_account, remove_account.
  repeat case_match; simplify_eq; simpl; try done; apply delete_subseteq.
Qed.
Lemma run_accountless_db id : ∀ idxs w, w_db (run_accountless id idxs w).2 ⊆ w_db w.
Proof.
  induction idxs as [|i idxs IH]; intros w; [done|]. cbn -[getActionFunc without_account].
  match goal with |- context [match ?m with _ => _ end] => destruct m as [a|e|] end; [|done..].
  destruct (getActionFunc ExecuteActionTriggers (a_ActionType a)); [|done].
  match goal with |- context [without_account a ?w1] =>
    pose proof (without_account_db a w1) as Hw; destruct (without_account a w1) as [[u|e|] w'] end;
    simpl in *; [|done..]. by etrans; [apply IH|].
Qed.

(** C22: executing the actions of a timing, with the triggers they start, writes only the
    accounts of the timing: every other account stays in the database as it was, or is
    removed by a timing without accounts, whose actions name the account to remove. *)
Theorem ActionTiming_Execute_other_accounts t w k :
  let accs := range_keys (sm_entries (atm_accountIDs t)) in
  let db' := w_db (ActionTiming_Execute t w).2 in
  k ∉ accs → db' !! k = w_db w !! k ∨ (accs = [] ∧ db' !! k = None).
Proof.
  cbn zeta. intros Hk. unfold ActionTiming_Execute.
  destruct (w_actions w !! _) as [l|]; [|by left].
  set (w1 := w_set_actions _ w). cbn zeta. change (w_db w) with (w_db w1).
  change (atm_accountIDs (ResetStartTimeCache t)) with (atm_accountIDs t).
  change (atm_ActionsID (ResetStartTimeCache t)) with (atm_ActionsID t).
  destruct (range_keys _) as [|acc accs] eqn:Ea.
  - pose proof (run_accountless_db (atm_ActionsID t) (seq 0 (length l)) w1) as Hr.
    assert (w_db (run_accountless (atm_ActionsID t) (seq 0 (length l)) w1).2 !! k = w_db w1 !! k ∨
      w_db (run_accountless (atm_ActionsID t) (seq 0 (length l)) w1).2 !! k = None) as Hd.
    { destruct (w_db (run_accountless _ _ w1).2 !! k) as [fa|] eqn:E; [left|by right].
      symmetry. by eapply lookup_weaken. }
    destruct (run_accountless _ _ w1) as [[e|e|] w']; simpl in *; destruct Hd; auto.
  - pose proof (run_accounts_own (atm_ActionsID t) (seq 0 (length l)) k (acc :: accs)
      false false w1 Hk) as Hr.
    left. destruct (run_accounts _ _ _ _ _ w1) as [[[p u]|e|] w']; simpl in *; by rewrite <- Hr.
Qed.

Lemma store_run_actions id idxs removed :
  along store_step (run_actions ExecuteActionTriggers id idxs removed).
Proof.
  apply (along_run_actions store_step quiet_store_step);
    [apply store_ExecuteActionTriggers|apply store_removeAccount].
Qed.


(** ** One level of triggers *)

Lemma flag_execute exec a :
  (∀ a, along same_flag (exec a)) → along same_flag (execute_triggers exec a).
Proof.
  intros Hexec [la w]. unfold execute_triggers, live, gets, mbind, SM_bind. simpl.
  destruct (la_executingTriggers la) eqn:E; [done|]. unfold flagged. simpl.
  destruct (scan_triggers exec a _) as [r st']. unfold same_flag, flag. by simpl.
Qed.
Lemma flag_nested a : along same_flag (nested a).
Proof.
  intros [la w]. unfold nested, live, gets, mbind, SM_bind. simpl.
  by destruct (la_executingTriggers la).
Qed.

(** The triggers of an account do not start each other: an action that a trigger runs
    asks for another scan, finds the account already in one, and goes on, so the scan in
    which the actions call the scan itself is the one with a single level, and it always
    ends. *)
Theorem ExecuteActionTriggers_one_level a st :
  ExecuteActionTriggers a st = execute_triggers ExecuteActionTriggers a st.
Proof.
  destruct st as [la w]. unfold ExecuteActionTriggers at 1. unfold execute_triggers at 1 2.
  unfold live, gets, mbind, SM_bind. simpl. destruct (la_executingTriggers la); [done|].
  unfold flagged. simpl. rewrite (agree_scan_triggers nested ExecuteActionTriggers); [done|..|done].
  - apply flag_nested.
  - intros b [la' w']. unfold flag. intros E. unfold nested, ExecuteActionTriggers,
      execute_triggers, live, gets, mbind, SM_bind. simpl in *. by rewrite E.
Qed.

(** ** Debits by actions *)

(** What a debit does to a balance of its type. *)
Definition action_debit (a : Action) (amount : float64) (reset resetIfNegative : bool)
    (b : Balance) : bool * Balance :=
  if IsExpiredAt b acc_now then (false, b)
  else
    let b := b_set_account b (Some O) in
    if MatchFilter b (a_Balance a) false false then
      let b := if reset || (resetIfNegative && fltb (b_Value b) f0) then SetValue b f0 else b in
      (true, b_set_dirty (SubstractValue b amount) true)
    else (false, b).
Definition debit_at (f : Balance → bool * Balance) (st : bool * Action * list Balance) (l : nat)
    : bool * Action * list Balance :=
  let '(found, a, bs) := st in
  match bs !! l with
  | Some b =>
      let '(m, b') := f b in
      (found || m, if m then with_value a (b_Value b') else a, <[l := b']> bs)
  | None => st
  end.

Lemma debit_matching_at a amount r n acc l la w b :
  la_balances la !! l = Some b →
  debit_matching a amount r n acc l (mkActionState la w) =
  let '(acc', bs) := debit_at (action_debit a amount r n) (acc, la_balances la) l in
  (Ok acc', mkActionState (la_set_balances bs la) w).
Proof.
  intros Eb. destruct acc as [found a']. unfold debit_at, action_debit. rewrite Eb.
  unfold debit_matching, get_balance, mbind, SM_bind. simpl. rewrite Eb. simpl.
  destruct (IsExpiredAt b acc_now).
  { rewrite list_insert_id, orb_false_r by done. by destruct la. }
  destruct (MatchFilter _ _ _ _); simpl; by rewrite ?orb_true_r, ?orb_false_r.
Qed.

(** The balances a slice shows, by their positions. *)
Definition shows (la : LiveAccount) (s : slice_of) (locs : list nat) : Prop :=
  sl_len s = length locs ∧
  (∀ i l, locs !! i = Some l →
     (la_arrays la !! sl_array s ≫= λ a, mjoin (a !! i)) = Some l) ∧
  Forall (λ l, (l < length (la_balances la))%nat) locs.

Lemma debit_at_length f l acc bs :
  length (debit_at f (acc, bs) l).2 = length bs.
Proof.
  destruct acc as [m a]. unfold debit_at. destruct (bs !! l) as [b|]; [|done].
  destruct (f b). simpl. apply length_insert.
Qed.

Lemma visit_debit a amount r n la w s locs acc :
  shows la s locs →
  visit_balances (Some s) (debit_matching a amount r n) acc (mkActionState la w) =
  let '(acc', bs) := foldl (debit_at (action_debit a amount r n)) (acc, la_balances la) locs in
  (Ok acc', mkActionState (la_set_balances bs la) w).
Proof.
  intros (Hlen & Hslots & Hin). unfold visit_balances. rewrite Hlen. clear Hlen.
  assert (∀ rest k acc bs, (∀ i l, rest !! i = Some l → locs !! (k + i)%nat = Some l) →
    Forall (λ l, (l < length bs)%nat) rest →
    visit (λ acc i, l ← slot s i; debit_matching a amount r n acc l) acc (seq k (length rest))
      (mkActionState (la_set_balances bs la) w) =
    let '(acc', bs') := foldl (debit_at (action_debit a amount r n)) (acc, bs) rest in
    (Ok acc', mkActionState (la_set_balances bs' la) w)) as Hgo.
  { induction rest as [|l rest IH]; intros k acc0 bs Hk Hbs; [done|].
    apply Forall_cons in Hbs as [Hl Hbs]. apply lookup_lt_is_Some in Hl as [b Eb].
    cbn [visit seq length foldl]. pose proof (Hslots k l) as Hslot.
    specialize (Hslot (eq_trans (f_equal (λ k, locs !! k) (eq_sym (Nat.add_0_r k)))
      (Hk 0%nat l eq_refl))).
    pose proof (debit_matching_at a amount r n acc0 l (la_set_balances bs la) w b Eb) as Hd.
    change (la_balances (la_set_balances bs la)) with bs in Hd.
    pose proof (debit_at_length (action_debit a amount r n) l acc0 bs) as Hlen.
    destruct (debit_at _ (acc0, bs) l) as [acc1 bs1].
    erewrite run; [|erewrite run; [exact Hd|by unfold slot; simpl; rewrite Hslot]].
    apply (IH (S k)).
    - intros i l' Hi. rewrite Nat.add_succ_comm. apply (Hk (S i)). exact Hi.
    - simpl in Hlen. by rewrite Hlen. }
  specialize (Hgo locs 0%nat acc (la_balances la)). destruct la. apply Hgo; auto.
Qed.

(** Different positions: every balance of the slice is changed once. *)
Definition hit (f : Balance → bool * Balance) (bs : list Balance) (l : nat) : bool :=
  match bs !! l with Some b => fst (f b) | None => false end.
Lemma existsb_agree {A} (p q : A → bool) l :
  (∀ x, x ∈ l → p x = q x) → existsb p l = existsb q l.
Proof.
  induction l as [|x l IH]; intros Hpq; [done|]. simpl.
  rewrite (Hpq x), IH; [done| |]; set_solver.
Qed.
Lemma debit_all_lookup f : ∀ locs found a bs, NoDup locs →
  let '(found', a', bs') := foldl (debit_at f) (found, a, bs) locs in
  found' = found || existsb (hit f bs) locs ∧
  (∃ v, a' = with_value a v) ∧
  ∀ l, bs' !! l = (if bool_decide (l ∈ locs) then λ b, snd (f b) else id) <$> bs !! l.
Proof.
  induction locs as [|l locs IH]; intros found a bs Hnd.
  { simpl. rewrite orb_false_r. split; [done|]. split.
    - exists (a_balanceValue a). by destruct a.
    - intros l. by rewrite option_fmap_id. }
  apply NoDup_cons in Hnd as [Hl Hnd]. cbn [foldl existsb]. unfold hit at 1.
  destruct (bs !! l) as [b|] eqn:Eb; simpl; rewrite Eb.
  - destruct (f b) as [m b'] eqn:Ef.
    specialize (IH (found || m) (if m then with_value a (b_Value b') else a) (<[l:=b']> bs) Hnd).
    destruct (foldl _ _ locs) as [[found' a'] bs']. destruct IH as (E1 & [v E2] & E3).
    split; [|split].
    + rewrite E1. simpl. rewrite orb_assoc. f_equal.
      apply existsb_agree. intros k Hk. unfold hit. rewrite list_lookup_insert_ne; [done|].
      by intros ->.
    + exists v. rewrite E2. by destruct m.
    + intros k. rewrite E3. destruct (decide (k = l)) as [->|Hne].
      * rewrite bool_decide_eq_false_2 by done. rewrite bool_decide_eq_true_2 by set_solver.
        rewrite list_lookup_insert_eq by (by eapply lookup_lt_Some). rewrite Eb. simpl. by rewrite Ef.
      * rewrite list_lookup_insert_ne by done.
        rewrite (bool_decide_ext (k ∈ l :: locs) (k ∈ locs)); [done|]. set_solver.
  - specialize (IH found a bs Hnd). destruct (foldl _ _ locs) as [[found' a'] bs'].
    destruct IH as (E1 & E2 & E3). split; [|split].
    + done.
    + done.
    + intros k. rewrite E3. destruct (decide (k = l)) as [->|Hne]; [by rewrite Eb|].
      rewrite (bool_decide_ext (k ∈ l :: locs) (k ∈ locs)); [done|]. set_solver.
Qed.

(** C23: a debit by an action changes every balance of its type that matches the filter and
    has not expired, each by the whole amount, after setting it to zero when asked to, and
    no other balance; when there is one, no balance is made, and the account goes on with
    its counters and its triggers. *)
Theorem debitBalanceAction_debits_all exec a reset resetIfNegative la w s locs bClone :
  CreateBalance acc_now (a_Balance a) = Ok bClone →
  balances_of la (bf_GetType (a_Balance a)) = Some s → shows la s locs → NoDup locs →
  let f := action_debit a (b_Value bClone) reset resetIfNegative in
  existsb (hit f (la_balances la)) locs = true →
  ∃ v bs,
    (∀ l, bs !! l = (if bool_decide (l ∈ locs) then λ b, snd (f b) else id) <$> la_balances la !! l) ∧
    debitBalanceAction exec a reset resetIfNegative (mkActionState la w) =
    (_ ← InitCounters; _ ← exec None; mret (with_value a v))
      (mkActionState (la_set_balances bs la) w).
Proof.
  intros Ec Es Hs Hnd f Hhit.
  assert (la_set_BalanceMap (Some (default ∅ (la_BalanceMap la))) la = la) as Emake.
  { unfold balances_of in Es. destruct la as [? [m|] ?????????]; [done|]. simpl in Es.
    by rewrite lookup_empty in Es. }
  pose proof (debit_all_lookup f locs false a (la_balances la) Hnd) as Hf.
  pose proof (visit_debit a (b_Value bClone) reset resetIfNegative la w s locs (false, a) Hs) as Hv.
  fold f in Hv. destruct (foldl _ _ locs) as [[found a'] bs]. destruct Hf as (E1 & [v ->] & E3).
  exists v, bs. split; [done|]. unfold debitBalanceAction.
  rewrite Ec. erewrite run; [|done]. erewrite run; [|done]. simpl. rewrite Emake.
  erewrite run; [|done]. simpl. rewrite Es. erewrite run; [|exact Hv].
  rewrite E1, Hhit. by erewrite run.
Qed.

(** The task of a timing without accounts has the empty name as its account, so that it is
    not run as a timing without accounts: none of its actions run. *)
Lemma accountless_task_does_nothing t w l :
  sm_entries (atm_accountIDs t) = ∅ → w_db w !! "" = None → w_actions w !! atm_ActionsID t = Some l →
  ActionTiming_Tasks t = [mkTask (atm_Uuid t) "" (atm_ActionsID t)] ∧
  Task_Execute (mkTask (atm_Uuid t) "" (atm_ActionsID t)) w =
    (Ok tt, w_set_actions (<[atm_ActionsID t := go_sort Actions_Less l]> (w_actions w)) w).
Proof.
  intros Et Hw Ha. split.
  { unfold ActionTiming_Tasks. by rewrite Et, bool_decide_eq_true_2. }
  unfold Task_Execute, ActionTiming_Execute, range_keys.
  change (sm_entries _) with ({["" := true]} : gmap string bool). rewrite go_range_singleton.
  simpl. rewrite Ha. unfold execute_for. simpl.
  rewrite Hw. by destruct (dm_GetAccount_error "").
Qed.
End stored.
