(* ===== verification/ActionExamples.v ===== *)
(** * Actions and triggers of small accounts

    The definitions of [AccountActions] evaluated end to end, and the inputs at which the
    theorems of [ActionLaws] are applied: accounts where a trigger starts its actions more
    than once or never, and actions that leave something behind or undone. *)
From S2P Require Import Prelude GoFloat FloatExact GoStrings GoTime CoreUtils Collections Values RateInterval CallDescriptor RatingProfile CallCost PricingExamples Stateful Balances Accounts DebitExamples UnitCounters AccountActions ActionLaws.

(** It is one second after the beginning. *)
Definition one_second_later : AccountData := {|
  GenUUID n := Itoa (Z.of_nat n); rand_Perm k n := seq 0 n;
  rand_Perm_perm k n := Permutation_refl _; dm_GetSharedGroup s := Err ErrNotFound;
  dm_GetAccount_error s := None; dm_SetAccount_error s := None;
  acc_now := Add zero_time Second; BalanceRatingSubject := ∅ |}.
Definition plain_actions : ActionData := {|
  default_timezone := "UTC"; RemoveExpired := true; spare_slots n := n;
  condition_error c := None; condition_match c t b := Ok true;
  trigger_params s := ("", "", ""); factor_params s := Err "no factor";
  params_DeepEqual x y := bool_decide (dom x = dom y);
  external_action a acc := Ok tt; shared_group_error s := false;
  RemoveAccount_error s := None; account_params s := Ok ("t", s);
  remove_from_plans_error s := None; last_summaries s := Ok [] |}.

Section examples.
#[local] Existing Instances plain_text one_second_later plain_actions reference_runtime.
#[local] Instance prices : RatingData := minute_prices (f_of_Z 100).

Definition amount_of (kind id : option string) (v : Z) : BalanceFilter :=
  mkBalanceFilter None id kind (Some (mkValueFormula "" ∅ (f_of_Z v))) None None None None None
    None None [] None None None.
Definition act (typ : string) (bf : option BalanceFilter) : Action :=
  mkAction "A" typ "" "" "" f0 bf f0.
Definition trigger (kind : string) (threshold : Z) (bf : BalanceFilter) (acts : string)
    : ActionTrigger :=
  mkTrigger "TR" "one" kind (f_of_Z threshold) false 0 zero_time zero_time (Some bf) f0 acts 0
    false zero_time.
Definition kept_account (bm : gmap string (list Balance)) (ts : list ActionTrigger) : FullAccount :=
  mkFull (Some bm) None ts false false.
Definition world (acts : gmap string (list Action)) (db : gmap string FullAccount) : World :=
  mkWorld acts db ∅ 0.
Definition timing_for (accs : gmap string bool) : ActionTiming :=
  mkActionTiming "u" None "ACTS" f0 (Some accs) "PLAN" zero_time.

Definition kept_values (w : World) (name kind : string) : list (string * float64) :=
  match w_db w !! name with
  | Some fa => map (λ b, (b_Uuid b, b_Value b)) (default [] (default ∅ (fa_BalanceMap fa) !! kind))
  | None => []
  end.
Definition result_of (r : res () * ActionTiming * World) : res () := fst (fst r).

(** A top-up of one of two accounts. *)
Definition two_accounts : World :=
  world {["ACTS" := [act "*topup" (Some (amount_of (Some MONETARY) None 5))]]}
    {["t:1001" := kept_account {[MONETARY := [money "a" 10; money "b" 20]]} [];
      "t:1002" := kept_account {[MONETARY := [money "c" 1]]} []]}.
Lemma topup_two_balances :
  let r := ActionTiming_Execute (timing_for {["t:1001" := true]}) two_accounts in
  result_of r = Ok tt ∧
  kept_values r.2 "t:1001" MONETARY = [("a", f_of_Z 15); ("b", f_of_Z 25)].
Proof. vm_compute. split; reflexivity. Qed.

Lemma ActionTiming_Execute_other_accounts_witness :
  ("t:1002" ∉ range_keys (sm_entries (atm_accountIDs (timing_for {["t:1001" := true]})))) ∧
  (w_db (ActionTiming_Execute (timing_for {["t:1001" := true]}) two_accounts).2 !! "t:1002" =
     w_db two_accounts !! "t:1002" ∨
   (range_keys (sm_entries (atm_accountIDs (timing_for {["t:1001" := true]}))) = [] ∧
    w_db (ActionTiming_Execute (timing_for {["t:1001" := true]}) two_accounts).2 !! "t:1002" = None)).
Proof.
  assert ("t:1002" ∉ range_keys (sm_entries (atm_accountIDs (timing_for {["t:1001" := true]})))) as Hk.
  { apply (bool_decide_unpack _). vm_compute. exact I. }
  split; [exact Hk|].
  exact (ActionTiming_Execute_other_accounts (timing_for {["t:1001" := true]}) two_accounts "t:1002" Hk).
Defined.

(** The top-up is lost when the next action fails. *)
Definition second_fails : World :=
  world {["ACTS" := [act "*topup" (Some (amount_of (Some MONETARY) None 5));
                     act "*remove_balance" (Some (amount_of (Some "*data") None 1))]]}
    {["t:1001" := kept_account {[MONETARY := [money "a" 10]]} []]}.
Lemma second_fails_result :
  let r := ActionTiming_Execute (timing_for {["t:1001" := true]}) second_fails in
  result_of r = Err ErrPartiallyExecuted ∧
  kept_values r.2 "t:1001" MONETARY = [("a", f_of_Z 10)].
Proof. vm_compute. split; reflexivity. Qed.


(** A debit of an account with two balances that match. *)
Definition two_balances : LiveAccount :=
  load_account "t:1001" (kept_account {[MONETARY := [money "a" 10; money "b" 20]]} []).
Lemma debitBalanceAction_debits_all_witness :
  let a := act "*debit" (Some (amount_of (Some MONETARY) None 5)) in
  ∃ v bs,
    (∀ l, bs !! l = (if bool_decide (l ∈ [0; 1]%nat)
                     then λ b, snd (action_debit a (f_of_Z 5) false false b) else id)
                    <$> la_balances two_balances !! l) ∧
    debitBalanceAction ExecuteActionTriggers a false false (mkActionState two_balances (world ∅ ∅)) =
    (_ ← InitCounters; _ ← ExecuteActionTriggers None; mret (with_value a v))
      (mkActionState (la_set_balances bs two_balances) (world ∅ ∅)).
Proof.
  set (a := act "*debit" (Some (amount_of (Some MONETARY) None 5))).
  assert (shows two_balances (mkSlice 0 2) [0; 1]%nat) as Hs.
  { split; [reflexivity|split].
    - intros [|[|[|i]]] l [= <-]; reflexivity.
    - repeat constructor. }
  destruct (CreateBalance acc_now (a_Balance a)) as [bClone|e|] eqn:Ec; [|discriminate..].
  assert (b_Value bClone = f_of_Z 5) as Ev by (vm_compute in Ec; injection Ec as <-; reflexivity).
  rewrite <- Ev.
  apply (debitBalanceAction_debits_all ExecuteActionTriggers a false false two_balances (world ∅ ∅)
    (mkSlice 0 2) [0; 1]%nat bClone).
  - exact Ec.
  - reflexivity.
  - exact Hs.
  - apply (bool_decide_unpack _). vm_compute. exact I.
  - rewrite Ev. vm_compute. reflexivity.
Defined.

(** ** What triggers do *)

(** A trigger is looked at once, but starts its actions for every balance that matches:
    two balances reach 12, and the bonus is given twice. *)
Definition bonus_trigger : ActionTrigger :=
  trigger "*max_balance" 12 (amount_of (Some MONETARY) None 0) "BONUS".
Definition with_bonus : World :=
  world {["ACTS" := [act "*topup" (Some (amount_of (Some MONETARY) None 5))];
          "BONUS" := [act "*topup" (Some (amount_of (Some "*data") None 1))]]}
    {["t:1001" := kept_account {[MONETARY := [money "a" 10; money "b" 20]]} [bonus_trigger]]}.
Lemma trigger_starts_twice :
  let r := ActionTiming_Execute (timing_for {["t:1001" := true]}) with_bonus in
  at_Recurrent bonus_trigger = false ∧ result_of r = Ok tt ∧
  kept_values r.2 "t:1001" "*data" = [("0", f_of_Z 2)].
Proof. vm_compute. repeat split. Qed.

(** The actions of the trigger fail, and so do those of the account; what they did before
    is stored by the trigger. *)
Definition trigger_and_failure : World :=
  world {["ACTS" := [act "*topup" (Some (amount_of (Some MONETARY) None 5));
                     act "*remove_balance" (Some (amount_of (Some "*data") None 1))];
          "BONUS" := [act "*remove_balance" (Some (amount_of (Some "*data") None 1))]]}
    {["t:1001" := kept_account {[MONETARY := [money "a" 10]]} [bonus_trigger]]}.
Lemma failed_trigger_stores :
  let r := ActionTiming_Execute (timing_for {["t:1001" := true]}) trigger_and_failure in
  result_of r = Err ErrPartiallyExecuted ∧
  kept_values r.2 "t:1001" MONETARY = [("a", f_of_Z 15)] ∧
  (at_Executed <$> match w_db r.2 !! "t:1001" with Some fa => fa_ActionTriggers fa | None => [] end)
    = [true].
Proof. vm_compute. repeat split. Qed.

(** Removing the first expired balance skips the second. *)
Definition expired_money (uuid : string) : Balance :=
  set_expiration (money uuid 1) (Add zero_time 1).
Definition with_expired : ActionState :=
  mkActionState (load_account "t:1001" (kept_account {[MONETARY := [expired_money "a"; expired_money "b"]]} []))
    (world ∅ ∅).
Lemma cleaning_skips_expired :
  let '(r, st) := ExecuteActionTriggers None with_expired in
  r = Ok tt ∧
  (b_Uuid <$> stored_slice (as_live st) (default nil_slice (balances_of (as_live st) MONETARY)))
    = ["b"].
Proof. vm_compute. split; reflexivity. Qed.

(** Counters are made with the identifier in the balance of the trigger, but looked up with
    the trigger's own: the trigger does not start.  Without the former it does. *)
Definition counted (id : option string) : ActionState :=
  let m : SM ActionState () :=
    _ ← InitCounters;
    Account_countUnits (f_of_Z 100) MONETARY None (Some (money "a" 10)) in
  (m (mkActionState (load_account "t:1001" (kept_account ∅
        [trigger "*max_balance_counter" 50 (amount_of (Some MONETARY) id 0) "BONUS"]))
      (world {["BONUS" := []]} ∅))).2.
Lemma counter_with_ID_is_lost :
  (at_Executed <$> triggers (counted (Some "money"))) = [false] ∧
  (at_Executed <$> triggers (counted None)) = [true].
Proof. vm_compute. split; reflexivity. Qed.

(** A counter stored without a type, which counting would give one, ends the scan. *)
Lemma counter_without_type_panics :
  (ExecuteActionTriggers None (mkActionState (load_account "t:1001"
     (mkFull None (Some {[MONETARY := [("", [])]]})
        [trigger "*max_event_counter" 50 (amount_of (Some MONETARY) None 0) "BONUS"] false false))
     (world ∅ ∅))).1 = Panic.
Proof. vm_compute. reflexivity. Qed.
End examples.

(** Where the texts of dates have a meaning: an action without an account and without a
    balance, but with an expiry. *)
Section dated.
#[local] Instance dated_text : GoText := {|
  ParseFloat s := Err "no float"; ParseDuration s := Err "no duration";
  ParseTimeDetectLayout s tz := Ok (Add zero_time Second);
  FormatFloat f := ""; Duration_String d := Itoa d; Format_RFC3339 t := ""; ToJSON v := "";
  sprint v := ""; type_name v := ""; opaque_field n := None; opaque_elem n i := Err NOT_FOUND;
  opaque_paths n s := []; opaque_type n := n; opaque_comparable n := false;
  opaque_struct n := false |}.
#[local] Existing Instances one_second_later plain_actions reference_runtime.
#[local] Instance dated_prices : RatingData := minute_prices (f_of_Z 100).

Lemma accountless_expiry_panics :
  (ActionTiming_Execute (timing_for ∅) (world {["ACTS" :=
     [mkAction "A" "*log" "" "" "tomorrow" f0 None f0]]} ∅)).1.1 = Panic.
Proof. vm_compute. reflexivity. Qed.
End dated.
